(* ===== verification/_CoqProject ===== *)
-Q . S2P
Prelude.v
Slices.v
Codecs.v
Integers.v
Parser.v
Utf8.v
Json.v
HttpHeader.v
FileStreamCursor.v
IpAddress.v
PathView.v
Query.v
QueryErrors.v
FileStreamRoute.v
FileStreamConn.v
Container.v
FloodControl.v
WorkdirCleanup.v
StreamFiles.v
HttpUrl.v
TlStorage.v
Binlog.v
TQueue.v
TQueueLife.v
TQueueBinlog.v
BinlogKeyValue.v
WebhookActor.v
WebhookQueues.v
WebhookDelivery.v
WebhookRun.v
WebhookInfo.v
ClientFiles.v
ClientLife.v
BotUpdates.v
BotQueries.v
BotWebhook.v
BotRun.v
ClientManager.v
HttpConn.v
