(* ===== verification/Prelude.v ===== *)
(** * Verification of the file-streaming Telegram Bot API server

    The server under [src/server] is Telegram's Bot API server with one
    addition: a file can be streamed to an HTTP client while TDLib is still
    downloading it.  This library models the server's own actors and the parts
    of [src/td/tdutils] and [src/td/tdnet] they compute with, as executable
    definitions, and proves what makes them correct.

    ** The program and its model

    A request travels as follows; the file of each part is in parentheses.

    - [HttpConnection] (HttpConn) gets a parsed [HttpQuery].  It sends a path
      under [/stream/file/bot] to a new [FileStreamConnection], an API path to
      the manager as a [Query] (Query), and answers everything else itself;
      it writes the answer of a query with the header creator (HttpHeader).
    - [FileStreamRoute.cpp] (FileStreamRoute) parses the path, the [Range] and
      the size header of a stream, and decides which addresses may stream
      (over IpAddress).
    - [FileStreamConnection] (FileStreamConn) serves one stream: it asks the
      manager for the file, follows the download with a [FileStreamCursor]
      (FileStreamCursor), reads and writes chunks, and tears itself down.
    - [ClientManager] (ClientManager) admits streams within the quotas, routes
      queries to the client of their token, which it creates at need, and
      shuts everything down; it keeps clients in a [Container] (Container) and
      limits addresses with token buckets (FloodControl).
    - [Client] is the actor of one bot.  ClientFiles models its part for files:
      streams, getFile, requests to TDLib and their callbacks, the queue of
      queries, the end.  ClientLife proves what holds in each of its runs.
      QueryErrors is the translation of TDLib's errors.  WebhookInfo is the
      text in which a webhook is saved, and the mask of update types.
      BotUpdates models its part for updates: getUpdates with long polling,
      setWebhook, getWebhookInfo, and the updates it puts in the queue.
      BotQueries has what getUpdates does and where the queries wait,
      BotWebhook the invariant and the other handlers, BotRun the runs.
    - The updates of the bots wait in a [TQueue] (TQueue; its runs and
      restarts in TQueueLife), whose storage is a binlog (TQueueBinlog over
      Binlog, whose events are written with TlStorage).  The webhooks are kept
      in a [BinlogKeyValue] (BinlogKeyValue).
    - [WebhookActor] (WebhookActor) takes updates from the queue and sends them
      to the webhook of a bot.  WebhookQueues has the invariant of its queues,
      WebhookDelivery what each part of its loop does, WebhookRun its runs.
    - [WorkdirCleanupManager] (WorkdirCleanup) deletes old files of the working
      directory, except those streams use; StreamFiles composes it with the
      streams.  PathView has the paths.
    - Under them: Slices (misc.h, Slice.h), Codecs (round trips of its
      encodings), Integers (to_integer, printing), Parser, Utf8, Json
      (JsonBuilder), HttpUrl.

    ** How it is modelled

    A [char] is an [ascii], a slice or string a list of them, an integer a [Z]
    with its wrap-around or its bounds written out, a [double] a rational (the
    rounding of doubles is not modelled).  An actor is a record of its fields
    with a setter for each; a handler maps the state to the next one and
    appends the messages it sends, in order, to the field [outs], and the
    events of the actor are an inductive type with a step function.  Theorems about
    runs quantify over every sequence of events that the other actors may
    cause (an inductive [reach], or a [run_ok] on a list of events).  [None]
    is an abort: a [CHECK] that fails.  Errors are values of [result] or of the
    message types.  The clock, system calls, TDLib and the file system are
    arguments: what they return is universally quantified.  [std::sort] is a
    class with its contract, the order of a hash map an arbitrary list.

    Interfaces between components are type classes: [Container.IdStore] with
    its laws [IdStoreLaws], against which ClientManager, ClientFiles and
    WebhookActor are proved and which the slots of Container implement;
    [TQueue.StorageCallback] with [StorageLaws], which the storage in memory
    and the one in a binlog implement; and [WorkdirCleanup.CandidateSort].

    Fuel: a loop or recursion of the code that is not structural takes fuel.
    The JSON decoder and skipper get twice the length of their text and one,
    and [Json.json_decode_total] shows that it never runs out.  The loop over
    the chunks of a window gets the bytes that remain, which
    [FileStreamCursor.stream_window_exact] and
    [FileStreamConn.stream_finishes] show to be enough.  The loops over the
    pieces of a text (splitting, arguments of a URL, entries of the allow
    list, run lengths) get its length: each round takes a character.  The
    digits of a number get 20 rounds, what 64 bits can need.  The loops of
    [WebhookActor] get one round more than they can make connections, queues
    to send, or doublings of a 64-bit number; [WebhookRun.webhook_run_safe]
    shows that none runs out.  So does [BotRun.bot_run_safe] for the doubling
    of getUpdates.

    ** What is proved

    - Streaming: the body of a stream is the range asked for, byte for byte;
      a stream ends once, releases what it holds, and finishes when the file
      and the reader let it; cursor windows, ranges, routes and address rules
      are exact against declarative specifications; the cleanup never deletes
      a file that a stream holds; no stream that its client was given is
      forgotten.
    - Queries: each request has one outcome, each query is routed once and
      answered once, nothing is lost in the manager or in the client, errors
      of TDLib become answers of one form, and when a client or the server
      closes everybody is answered.
    - Updates: an update stays in its queue, across restarts and crashes,
      until it is taken, dropped for a reason or expired; the binlog and the
      key-value storage survive a crash at any byte that was not synced; the
      delivery to a webhook never aborts, keeps the order of each queue and the
      limit of connections, loses no update and leaves none unattended (but
      for an update whose header does not fit and a TLS context that could not
      be created); a query that waits for updates is woken up by a new one;
      getUpdates gives the updates from its offset or waits, for no longer than
      it asked; a bot has one consumer of its updates; setWebhook goes through
      the phases of a specification, and what is saved of it restores it.
    - Resources: quotas and buckets against their reference definitions, slots
      against a finite map, retention and deletion order of the cleanup,
      buffers that never overflow.
    - Texts: round trips of JSON, URLs and webhook settings, exactness of UTF-8.
    - Defects that modelling showed: an allow list that admits nobody, HEAD
      answers with a body, a certificate that the cleanup deletes, a listener
      that is never removed, an update that blocks its queue without an error.
      Two of them abort the server: getWebhookInfo while the address of the
      webhook is not UTF-8, and a certificate whose copy ends after TDLib is
      gone; [BotRun.bot_run_safe] shows that in the runs of BotRun nothing else
      does.  The theorems are about the code as it is, with these defects.

    ** What is not modelled

    - The 180 methods of the Bot API in [Client.cpp]: conversions between JSON
      and the objects of TDLib, a vendored library of which only the requests
      and updates of files matter here.  A query for one of them leaves the
      model as a message.
    - The reader of HTTP requests ([HttpReader.cpp]).
    - The listener, the statistics page, the watchdog: they only count or log.
    - Logging, statistics, memory dumps, the command line, sockets, TLS,
      threads and the scheduling of actors.  An actor handles one message at a
      time; the order of messages between actors is arbitrary in the theorems. *)

From stdpp Require Export base tactics option list numbers gmap strings sorting.
From Stdlib Require Export ZArith Lia.
From Stdlib Require Export Ascii.

#[global] Open Scope Z_scope.

(** ** Bytes and slices *)

(** A [char] is a Stdlib [ascii]; a [td::Slice], [td::MutableSlice],
    [td::CSlice] or [td::string] is the list of its characters. *)
Abbreviation slice := (list ascii).

Declare Scope td_scope.
Delimit Scope td_scope with td.

(** The characters of a C++ string literal. *)
Definition lit (s : string) : slice := String.list_ascii_of_string s.

(** The unsigned value of a character, and the character a value is cast to. *)
Definition char_code (c : ascii) : Z := Z.of_N (N_of_ascii c).
Definition chr (z : Z) : ascii := ascii_of_N (Z.to_N (z mod 256)).

(** The length of a slice as the [size_t] the code compares with. *)
Definition slen {A} (s : list A) : Z := Z.of_nat (length s).

(** ** Fallible code *)

(** [td::Result<T>]; [td::Status] is [result unit].  A status made by
    [Status::Error(message)] carries the code 0. *)
Inductive result (A : Type) : Type :=
| Ok (a : A)
| Err (code : Z) (msg : slice).
Arguments Ok {A} a.
Arguments Err {A} code msg.

Abbreviation status := (result unit).

#[export] Instance result_ret : MRet result := fun A a => Ok a.
#[export] Instance result_bind : MBind result := fun A B k r =>
  match r with Ok a => k a | Err c m => Err c m end.
#[export] Instance result_fmap : FMap result := fun A B f r =>
  match r with Ok a => Ok (f a) | Err c m => Err c m end.

Definition is_ok {A} (r : result A) : bool :=
  match r with Ok _ => true | Err _ _ => false end.

(** [CHECK(b)]: the process aborts, which is [None], when [b] is false. *)
Definition CHECK {A} (b : bool) (k : option A) : option A :=
  if b then k else None.

Notation "'CHECK!' b ;; k" := (CHECK b k)
  (at level 100, b at level 99, k at level 200, right associativity) : td_scope.

(** ** Machine integers *)

Definition INT32_MAX : Z := 2 ^ 31 - 1.
Definition INT64_MAX : Z := 2 ^ 63 - 1.
Definition in_int32 (z : Z) : Prop := - 2 ^ 31 <= z <= INT32_MAX.
Definition in_int64 (z : Z) : Prop := - 2 ^ 63 <= z <= INT64_MAX.

(** Wrap-around of an unsigned [w]-bit integer. *)
Definition wrap (w z : Z) : Z := z mod 2 ^ w.

(** Conversion of a [w]-bit pattern to the signed integer of the same width. *)
Definition to_signed (w z : Z) : Z :=
  let u := wrap w z in if u <? 2 ^ (w - 1) then u else u - 2 ^ w.

(** ** Lists *)

(** Characters dropped while a predicate holds, as the pointer loops of the
    source do. *)
Fixpoint drop_while {A} (p : A → bool) (l : list A) : list A :=
  match l with
  | [] => []
  | x :: l' => if p x then drop_while p l' else l
  end.

Fixpoint take_while {A} (p : A → bool) (l : list A) : list A :=
  match l with
  | [] => []
  | x :: l' => if p x then x :: take_while p l' else []
  end.

(** The sum of an integer measure over a list. *)
Definition sum_list_Z {A} (f : A → Z) (l : list A) : Z :=
  foldr (fun x acc => f x + acc) 0 l.

(** ** Automation *)

(** Split every boolean test of the goal and of the hypotheses. *)
Ltac split_ifs :=
  repeat match goal with
  | |- context [ if ?b then _ else _ ] =>
      lazymatch type of b with bool => let E := fresh "Hif" in destruct b eqn:E end
  | H : context [ if ?b then _ else _ ] |- _ =>
      lazymatch type of b with bool => let E := fresh "Hif" in destruct b eqn:E end
  end.

(** Decide the equalities of closed characters in the goal. *)
Ltac ascii_decide :=
  repeat match goal with
  | |- context [ bool_decide (?a = ?b :> ascii) ] =>
      let d := constr:(bool_decide (a = b)) in
      let r := eval vm_compute in d in
      lazymatch r with
      | true => replace (bool_decide (a = b)) with true by reflexivity
      | false => replace (bool_decide (a = b)) with false by reflexivity
      end
  end; cbn [andb orb negb].

Create HintDb td.
Create Rewrite HintDb td.

(** ** Facts *)

Lemma char_code_range c : 0 <= char_code c < 256.
Proof. destruct c as [[] [] [] [] [] [] [] []]; vm_compute; split; congruence. Qed.

Lemma chr_char_code c : chr (char_code c) = c.
Proof. destruct c as [[] [] [] [] [] [] [] []]; reflexivity. Qed.

Lemma char_code_chr z : 0 <= z < 256 → char_code (chr z) = z.
Proof.
  intros Hz. unfold char_code, chr.
  rewrite Z.mod_small by lia.
  rewrite N_ascii_embedding by lia. lia.
Qed.

Lemma char_code_inj c d : char_code c = char_code d → c = d.
Proof. intros H. rewrite <- (chr_char_code c), <- (chr_char_code d). by f_equal. Qed.

#[export] Instance char_code_Inj : Inj (=) (=) char_code.
Proof. exact char_code_inj. Qed.

(** A property of one character decided by trying all 256. *)
Ltac all_chars c :=
  destruct c as [[] [] [] [] [] [] [] []]; vm_compute;
  try reflexivity; try discriminate; try congruence.

Lemma slen_nonneg {A} (s : list A) : 0 <= slen s.
Proof. unfold slen. lia. Qed.

Lemma slen_app {A} (s t : list A) : slen (s ++ t) = slen s + slen t.
Proof. unfold slen. rewrite length_app. lia. Qed.

Lemma slen_nil {A} (s : list A) : slen s = 0 ↔ s = [].
Proof. unfold slen. destruct s; simpl; split; try done; lia. Qed.

Lemma take_drop_while {A} (p : A → bool) (l : list A) :
  take_while p l ++ drop_while p l = l.
Proof. induction l as [|x l IH]; simpl; [done|]. destruct (p x); simpl; by rewrite ?IH. Qed.

Lemma drop_while_suffix {A} (p : A → bool) (l : list A) : drop_while p l `suffix_of` l.
Proof. exists (take_while p l). by rewrite take_drop_while. Qed.

Lemma drop_while_head {A} (p : A → bool) (l : list A) x l' :
  drop_while p l = x :: l' → p x = false.
Proof. induction l as [|y l IH]; simpl; [done|]. destruct (p y) eqn:E; [done|]. congruence. Qed.

Lemma take_while_Forall {A} (p : A → bool) (l : list A) :
  Forall (fun x => p x = true) (take_while p l).
Proof. induction l as [|x l IH]; simpl; [constructor|]. destruct (p x) eqn:E; by constructor. Qed.

Lemma drop_while_app_all {A} (p : A → bool) (l k : list A) :
  Forall (fun x => p x = true) l → drop_while p (l ++ k) = drop_while p k.
Proof. induction 1 as [|x l Hx _ IH]; simpl; [done|]. by rewrite Hx. Qed.

Lemma drop_while_id {A} (p : A → bool) (l : list A) :
  Forall (fun x => p x = false) l → drop_while p l = l.
Proof. destruct 1 as [|x l Hx _]; simpl; [done|]. by rewrite Hx. Qed.

Lemma sum_list_Z_app {A} (f : A → Z) (l k : list A) :
  sum_list_Z f (l ++ k) = sum_list_Z f l + sum_list_Z f k.
Proof. induction l as [|x l IH]; simpl; [lia|]. unfold sum_list_Z in *. simpl. lia. Qed.

Lemma sum_list_Z_nonneg {A} (f : A → Z) (l : list A) :
  (∀ x, x ∈ l → 0 <= f x) → 0 <= sum_list_Z f l.
Proof.
  induction l as [|x l IH]; intros H; [done|].
  change (0 <= f x + sum_list_Z f l).
  pose proof (H x ltac:(left)). assert (0 <= sum_list_Z f l); [|lia].
  apply IH. intros y Hy. apply H. by right.
Qed.

Lemma sum_list_Z_perm {A} (f : A → Z) (l k : list A) : l ≡ₚ k → sum_list_Z f l = sum_list_Z f k.
Proof. unfold sum_list_Z. induction 1; simpl; lia. Qed.

Lemma take_S_nth {A} (l : list A) n d : (n < length l)%nat → take (S n) l = take n l ++ [nth n l d].
Proof.
  intros H. destruct (lookup_lt_is_Some_2 l n H) as [x Hx].
  rewrite (take_S_r _ _ _ Hx). do 2 f_equal. symmetry. by apply nth_lookup_Some.
Qed.

Lemma prefix_of_snoc {A} (k l : list A) x : k `prefix_of` l ++ [x] → k `prefix_of` l ∨ k = l ++ [x].
Proof.
  intros [m E]. destruct m as [|y m _] using rev_ind; [right; by rewrite app_nil_r in E|left].
  rewrite (assoc_L (++)) in E. apply app_inj_tail in E as [-> _]. by exists m.
Qed.

Lemma NoDup_omap_inj {A B} (f : A → option B) (l : list A) :
  (∀ x y b, f x = Some b → f y = Some b → x = y) → NoDup l → NoDup (omap f l).
Proof.
  intros Hinj. induction 1 as [|x l Hx _ IH]; simpl; [constructor|].
  destruct (f x) as [b|] eqn:E; [|done]. constructor; [|done].
  rewrite list_elem_of_omap. intros (y & Hy & Hb). by rewrite (Hinj x y b) in Hx.
Qed.

Lemma list_alter_insert_eq {A} (f : A → A) (l : list A) i x :
  l !! i = Some x → alter f i l = <[i := f x]> l.
Proof.
  revert i. induction l as [|y l IH]; intros [|i] Hi; simpl in *; simplify_eq; [done..|].
  unfold alter, insert in *. simpl. f_equal. by apply IH.
Qed.

Lemma strongly_sorted_app {A} (R : relation A) (l k : list A) :
  StronglySorted R (l ++ k) ↔ StronglySorted R l ∧ StronglySorted R k ∧ ∀ x y, x ∈ l → y ∈ k → R x y.
Proof.
  induction l as [|x l IH]; cbn.
  - split; [intros Hs; split_and!; [constructor|done|by intros ? ? ?%not_elem_of_nil]|by intros (_ & ? & _)].
  - split.
    + intros Hs. apply StronglySorted_inv in Hs as [(Hl & Hk & Hlk)%IH Hx]. rewrite Forall_app in Hx. destruct Hx as [Hxl Hxk].
      split_and!; [by constructor|done|]. intros y z [->|Hy]%elem_of_cons Hz; [|by apply Hlk].
      rewrite Forall_forall in Hxk. by apply Hxk.
    + intros (Hl & Hk & Hlk). apply StronglySorted_inv in Hl as [Hl Hx]. constructor.
      * apply IH. split_and!; [done|done|]. intros y z Hy. apply Hlk. by right.
      * apply Forall_app. split; [done|]. apply Forall_forall. intros y Hy. apply Hlk; [by left|done].
Qed.

Lemma sorted_drop_middle {A} (R : relation A) (l k m : list A) :
  StronglySorted R (l ++ k ++ m) → StronglySorted R (l ++ m).
Proof.
  rewrite !strongly_sorted_app. intros (Hl & (_ & Hm & _) & Hlk). split_and!; [done|done|].
  intros x y Hx Hy. apply Hlk; [done|]. apply elem_of_app. by right.
Qed.

(** The part of the invariant that only sees keys is kept when an event is
    replaced by one with the same keys. *)
Lemma sorted_replace {A} (R : relation A) (l m : list A) x y :
  (∀ z, R z x → R z y) → (∀ z, R x z → R y z) → StronglySorted R (l ++ x :: m) → StronglySorted R (l ++ y :: m).
Proof.
  intros H1 H2. rewrite !strongly_sorted_app. intros (Hl & Hxm & Hlx). apply StronglySorted_inv in Hxm as [Hm Hx].
  split_and!; [done| |].
  - constructor; [done|]. eapply Forall_impl; [exact Hx|]. exact H2.
  - intros z w Hz [->|Hw]%elem_of_cons; [apply H1, Hlx; [done|by left]|apply Hlx; [done|by right]].
Qed.

Lemma wrap_range w z : 0 <= w → 0 <= wrap w z < 2 ^ w.
Proof. intros. unfold wrap. apply Z.mod_pos_bound. lia. Qed.

Lemma wrap_small w z : 0 <= z < 2 ^ w → wrap w z = z.
Proof. intros. unfold wrap. by apply Z.mod_small. Qed.

Lemma result_bind_ok {A B} (r : result A) (k : A → result B) b :
  (r ≫= k) = Ok b ↔ ∃ a, r = Ok a ∧ k a = Ok b.
Proof.
  destruct r as [a|c m]; simpl; split.
  - intros H. by exists a.
  - by intros (a' & [= <-] & H).
  - done.
  - by intros (a' & ? & _).
Qed.

#[export] Hint Resolve slen_nonneg : td.
#[export] Hint Rewrite @slen_app chr_char_code @length_app : td.
