(* ===== verification/Slices.v ===== *)
(** * Slices and character utilities

    The string layer every parser of the server stands on:
    [td/tdutils/td/utils/Slice.h] (find, rfind) and
    [td/tdutils/td/utils/misc.h], [misc.cpp] (prefix and suffix tests, trim,
    case folding, splitting, padding, hexadecimal, percent and zero-run codecs).

    [Slice::substr(from)] is [drop from]; its [CHECK(from <= len_)] holds at
    every call modelled here, since the positions come from [find] and [rfind]
    ([find_Some], [rfind_Some]). *)

From S2P Require Import Prelude.

(** ** Slice.h *)

(** [Slice::find]: the first position of a character, [npos] being [None]. *)
Fixpoint find (c : ascii) (s : slice) : option nat :=
  match s with
  | [] => None
  | d :: s' => if bool_decide (d = c) then Some 0%nat else S <$> find c s'
  end.

(** [Slice::rfind]: the loop [for (pos = len_; pos-- > 0;)]. *)
Fixpoint rfind_below (c : ascii) (s : slice) (pos : nat) : option nat :=
  match pos with
  | O => None
  | S pos' => if bool_decide (s !! pos' = Some c) then Some pos' else rfind_below c s pos'
  end.
Definition rfind (c : ascii) (s : slice) : option nat := rfind_below c s (length s).

(** ** misc.h: characters *)

Definition is_space (c : ascii) : bool :=
  bool_decide (c = " "%char) || bool_decide (c = "009"%char) || bool_decide (c = "013"%char)
  || bool_decide (c = "010"%char) || bool_decide (c = "000"%char) || bool_decide (c = "011"%char).

(** Characters above 127 are negative as [char]; they fail every range below
    in either reading, so the unsigned value is compared. *)
Definition is_digit (c : ascii) : bool := (48 <=? char_code c) && (char_code c <=? 57).

Definition is_alpha (c : ascii) : bool :=
  let c' := Z.lor (char_code c) 32 in (97 <=? c') && (c' <=? 122).

Definition is_alnum (c : ascii) : bool := is_alpha c || is_digit c.

Definition is_hex_digit (c : ascii) : bool :=
  if is_digit c then true
  else let c' := Z.lor (char_code c) 32 in (97 <=? c') && (c' <=? 102).

Definition to_lower (c : ascii) : ascii :=
  if (65 <=? char_code c) && (char_code c <=? 90) then chr (char_code c - 65 + 97) else c.

Definition to_upper (c : ascii) : ascii :=
  if (97 <=? char_code c) && (char_code c <=? 122) then chr (char_code c - 97 + 65) else c.

Definition hex_to_int (c : ascii) : Z :=
  if is_digit c then char_code c - 48
  else let c' := Z.lor (char_code c) 32 in
       if (97 <=? c') && (c' <=? 102) then c' - 97 + 10 else 16.

(** ** misc.h: slices *)

Definition begins_with (str prefix : slice) : bool :=
  (length prefix <=? length str)%nat && bool_decide (prefix = take (length prefix) str).

Definition ends_with (str suffix : slice) : bool :=
  (length suffix <=? length str)%nat
  && bool_decide (suffix = drop (length str - length suffix) str).

Definition to_lower_slice (s : slice) : slice := to_lower <$> s.
Definition to_upper_slice (s : slice) : slice := to_upper <$> s.

(** [trim]: [begin] moves right over spaces, then [end] moves left. *)
Definition drop_spaces_back (s : slice) : slice := rev (drop_while is_space (rev s)).
Definition trim (s : slice) : slice := drop_spaces_back (drop_while is_space s).

Definition split (s : slice) (delimiter : ascii) : slice * slice :=
  match find delimiter s with
  | None => (s, [])
  | Some pos => (take pos s, drop (pos + 1) s)
  end.

(** [full_split] with the default [max_parts]; every round consumes the
    delimiter it found, so [length s] rounds are enough. *)
Fixpoint full_split_loop (fuel : nat) (s : slice) (delimiter : ascii) : list slice :=
  match fuel with
  | O => [s]
  | S fuel =>
      match find delimiter s with
      | None => [s]
      | Some pos => take pos s :: full_split_loop fuel (drop (pos + 1) s) delimiter
      end
  end.
Definition full_split (s : slice) (delimiter : ascii) : list slice :=
  match s with [] => [] | _ => full_split_loop (length s) s delimiter end.

(** ** misc.cpp *)

Definition replace_with_spaces (str characters : slice) : slice :=
  (fun c => match find c characters with Some _ => " "%char | None => c end) <$> str.

(** The loop over [v] with [i != 0] guarding the delimiter. *)
Fixpoint implode (v : list slice) (delimiter : ascii) : slice :=
  match v with
  | [] => []
  | [x] => x
  | x :: v' => x ++ [delimiter] ++ implode v' delimiter
  end.

Definition lpad (str : slice) (size : nat) (c : ascii) : slice :=
  if (size <=? length str)%nat then str else replicate (size - length str) c ++ str.

Definition rpad (str : slice) (size : nat) (c : ascii) : slice :=
  if (size <=? length str)%nat then str else str ++ replicate (size - length str) c.

(** [oneline]: one pass with the [after_new_line] flag, the result in reverse. *)
Definition oneline_step (st : slice * bool) (c : ascii) : slice * bool :=
  let '(res, after_new_line) := st in
  if negb (bool_decide (c = "010"%char)) && negb (bool_decide (c = "013"%char)) then
    if after_new_line && bool_decide (c = " "%char) then (res, after_new_line)
    else (c :: res, false)
  else if negb after_new_line then (" "%char :: res, true)
  else (res, after_new_line).
Definition oneline (str : slice) : slice :=
  rev (drop_while (fun c => bool_decide (c = " "%char)) (fst (foldl oneline_step ([], true) str))).

(** Two hexadecimal characters; 16 marks a character that is not one. *)
Fixpoint hex_decode_loop (hex : slice) : result slice :=
  match hex with
  | h :: l :: rest =>
      let high := hex_to_int h in
      let low := hex_to_int l in
      if (high =? 16) || (low =? 16) then Err 0 (lit "Wrong hex string")
      else (cons (chr (high * 16 + low))) <$> hex_decode_loop rest
  | _ => Ok []
  end.
Definition hex_decode (hex : slice) : result slice :=
  if negb (length hex mod 2 =? 0)%nat then Err 0 (lit "Wrong hex string length")
  else hex_decode_loop hex.

Definition hex_table_lower : slice := lit "0123456789abcdef".
Definition hex_table_upper : slice := lit "0123456789ABCDEF".
Definition table_at (t : slice) (i : Z) : ascii := nth (Z.to_nat i) t "000"%char.

Fixpoint hex_encode (data : slice) : slice :=
  match data with
  | [] => []
  | c :: data' =>
      table_at hex_table_lower (Z.shiftr (char_code c) 4)
      :: table_at hex_table_lower (Z.land (char_code c) 15) :: hex_encode data'
  end.

Definition is_url_char (c : ascii) : bool :=
  is_alnum c || bool_decide (c = "-"%char) || bool_decide (c = "."%char)
  || bool_decide (c = "_"%char) || bool_decide (c = "~"%char).

(** [length] starts at [3 * size] and loses 2 for each plain character; when
    it equals the size nothing needs escaping and the data is returned. *)
Definition url_encoded_length (data : slice) : nat :=
  foldl (fun length c => length - 2 * Nat.b2n (is_url_char c))%nat (3 * length data)%nat data.
Fixpoint url_encode_loop (data : slice) : slice :=
  match data with
  | [] => []
  | c :: data' =>
      if is_url_char c then c :: url_encode_loop data'
      else "%"%char :: table_at hex_table_upper (char_code c / 16)
           :: table_at hex_table_upper (char_code c mod 16) :: url_encode_loop data'
  end.
(** [None] is the failed [CHECK(result.size() == length)]. *)
Definition url_encode (data : slice) : option slice :=
  let len := url_encoded_length data in
  if (len =? length data)%nat then Some data
  else let res := url_encode_loop data in CHECK (length res =? len)%nat (Some res).

Fixpoint url_decode (from : slice) (decode_plus_sign_as_space : bool) : slice :=
  match from with
  | [] => []
  | c :: rest =>
      let plain :=
        (if decode_plus_sign_as_space && bool_decide (c = "+"%char) then " "%char else c)
        :: url_decode rest decode_plus_sign_as_space in
      if bool_decide (c = "%"%char) then
        match rest with
        | h :: l :: rest' =>
            let high := hex_to_int h in
            let low := hex_to_int l in
            if (high <? 16) && (low <? 16) then
              chr (high * 16 + low) :: url_decode rest' decode_plus_sign_as_space
            else plain
        | _ => plain
        end
      else plain
  end.

Fixpoint buffer_to_hex (buffer : slice) : slice :=
  match buffer with
  | [] => []
  | c :: buffer' =>
      table_at hex_table_upper (Z.land (char_code c) 15)
      :: table_at hex_table_upper (Z.shiftr (char_code c) 4) :: buffer_to_hex buffer'
  end.

(** The run-length codecs: after a character of the class [p] comes the length
    of its run, at most 250.  [run_length c l n] counts the copies of [c] at
    the head of [l], at most [n]: the [while (cnt < 250 && ...)] loop. *)
Fixpoint run_length (c : ascii) (l : slice) (n : nat) : nat :=
  match n, l with
  | S n', d :: l' => if bool_decide (d = c) then S (run_length c l' n') else O
  | _, _ => O
  end.
Fixpoint rle_encode (fuel : nat) (p : ascii → bool) (data : slice) : slice :=
  match fuel, data with
  | S fuel, c :: rest =>
      if p c then
        let more := run_length c rest 249 in
        c :: chr (Z.of_nat (S more)) :: rle_encode fuel p (drop more rest)
      else c :: rle_encode fuel p rest
  | _, _ => []
  end.
Fixpoint rle_decode (p : ascii → bool) (data : slice) : slice :=
  match data with
  | [] => []
  | c :: rest =>
      if p c then
        match rest with
        | [] => [c]
        | k :: rest' => replicate (Z.to_nat (char_code k)) c ++ rle_decode p rest'
        end
      else c :: rle_decode p rest
  end.

Definition is_zero_char (c : ascii) : bool := char_code c =? 0.
Definition is_zero_one_char (c : ascii) : bool := (char_code c =? 0) || (char_code c =? 255).

Definition zero_encode (data : slice) : slice := rle_encode (length data) is_zero_char data.
Definition zero_decode (data : slice) : slice := rle_decode is_zero_char data.
Definition zero_one_encode (data : slice) : slice :=
  rle_encode (length data) is_zero_one_char data.
Definition zero_one_decode (data : slice) : slice := rle_decode is_zero_one_char data.

(** ** Facts: find, prefix, suffix, trim *)

Lemma find_Some c s pos :
  find c s = Some pos → s = take pos s ++ c :: drop (pos + 1) s ∧ c ∉ take pos s.
Proof.
  revert pos; induction s as [|d s IH]; intros pos; simpl; [done|].
  case_bool_decide as Hd.
  - intros [= <-]. subst d. simpl. split; [done|]. apply not_elem_of_nil.
  - destruct (find c s) as [p|] eqn:E; [|done]. intros [= <-].
    destruct (IH p eq_refl) as [H1 H2]. simpl. split.
    + f_equal. exact H1.
    + rewrite elem_of_cons. naive_solver.
Qed.

Lemma find_None c s : find c s = None ↔ c ∉ s.
Proof.
  induction s as [|d s IH]; simpl; [split; [intros _; apply not_elem_of_nil|done]|].
  rewrite not_elem_of_cons, <- IH. case_bool_decide as Hd.
  - split; [done|naive_solver].
  - destruct (find c s); simpl; naive_solver.
Qed.

Lemma find_app c s t : c ∉ s → find c (s ++ c :: t) = Some (length s).
Proof.
  induction s as [|d s IH]; intros H; simpl.
  - by rewrite bool_decide_true.
  - apply not_elem_of_cons in H as [Hd H]. rewrite bool_decide_false by done.
    by rewrite IH.
Qed.

Lemma find_lt c s pos : find c s = Some pos → (pos < length s)%nat.
Proof.
  intros H. destruct (find_Some _ _ _ H) as [E _].
  apply (f_equal length) in E. rewrite length_app in E. simpl in E.
  pose proof (length_take s pos). lia.
Qed.

Lemma find_drop c s pos :
  find c s = Some pos → drop pos s = c :: drop (pos + 1) s.
Proof.
  intros H. destruct (find_Some _ _ _ H) as [E _].
  apply (app_inv_head (take pos s)). by rewrite take_drop.
Qed.

Lemma rfind_below_Some c s n pos :
  rfind_below c s n = Some pos → (pos < n)%nat ∧ s !! pos = Some c.
Proof.
  induction n as [|n IH]; simpl; [done|]. case_bool_decide as E.
  - intros [= <-]. split; [lia|done].
  - intros H. destruct (IH H). split; [lia|done].
Qed.

Lemma rfind_Some c s pos : rfind c s = Some pos → s !! pos = Some c.
Proof. intros H. by destruct (rfind_below_Some _ _ _ _ H). Qed.

Lemma begins_with_spec str prefix :
  begins_with str prefix = true ↔ ∃ rest, str = prefix ++ rest.
Proof.
  unfold begins_with. rewrite andb_true_iff, Nat.leb_le, bool_decide_eq_true. split.
  - intros [_ H]. exists (drop (length prefix) str).
    pose proof (take_drop (length prefix) str) as E. rewrite <- H in E. by symmetry.
  - intros [rest ->]. rewrite length_app. split; [lia|].
    by rewrite take_app_length.
Qed.

Lemma ends_with_spec str suffix :
  ends_with str suffix = true ↔ ∃ front, str = front ++ suffix.
Proof.
  unfold ends_with. rewrite andb_true_iff, Nat.leb_le, bool_decide_eq_true. split.
  - intros [_ H]. exists (take (length str - length suffix) str).
    rewrite H at 2. by rewrite take_drop.
  - intros [front ->]. rewrite length_app. split; [lia|].
    by rewrite Nat.add_sub, drop_app_length.
Qed.

Lemma drop_spaces_back_prefix s : drop_spaces_back s `prefix_of` s.
Proof.
  unfold drop_spaces_back. destruct (drop_while_suffix is_space (rev s)) as [k E].
  exists (rev k). rewrite <- rev_app_distr, <- E. by rewrite rev_involutive.
Qed.

Lemma trim_sublist s : ∃ a b, s = a ++ trim s ++ b.
Proof.
  destruct (drop_while_suffix is_space s) as [a Ha].
  destruct (drop_spaces_back_prefix (drop_while is_space s)) as [b Hb].
  exists a, b. unfold trim. rewrite <- Hb. exact Ha.
Qed.

Lemma trim_id s :
  (∀ c, head s = Some c → is_space c = false) →
  (∀ c, last s = Some c → is_space c = false) → trim s = s.
Proof.
  intros Hh Hl. unfold trim, drop_spaces_back.
  assert (drop_while is_space s = s) as ->.
  { destruct s as [|c s]; simpl; [done|]. by rewrite Hh. }
  assert (drop_while is_space (rev s) = rev s) as ->.
  { destruct s as [|c s _] using rev_ind; simpl; [done|].
    rewrite rev_app_distr. simpl. rewrite Hl; [done|].
    apply last_snoc. }
  apply rev_involutive.
Qed.

Lemma trim_no_space s : Forall (fun c => is_space c = false) s → trim s = s.
Proof.
  intros H. rewrite Forall_forall in H. apply trim_id.
  - intros c Hc. apply H. destruct s as [|d s]; [done|].
    simpl in Hc. injection Hc as ->. left.
  - intros c Hc. apply H. apply last_Some in Hc as [l ->].
    apply elem_of_app. right. left.
Qed.
