(* ===== verification/Codecs.v ===== *)
(** * Round trips of the text and byte codecs of misc.h and misc.cpp

    Every codec of [Slices] is undone by its decoder, on every byte string. *)

From S2P Require Import Prelude Slices.

(** ** One character at a time *)

Lemma hex_encode_char c :
  hex_to_int (table_at hex_table_lower (Z.shiftr (char_code c) 4)) * 16
  + hex_to_int (table_at hex_table_lower (Z.land (char_code c) 15)) = char_code c
  ∧ hex_to_int (table_at hex_table_lower (Z.shiftr (char_code c) 4)) < 16
  ∧ hex_to_int (table_at hex_table_lower (Z.land (char_code c) 15)) < 16.
Proof. destruct c as [[] [] [] [] [] [] [] []]; vm_compute; done. Qed.

Lemma url_encode_char c :
  hex_to_int (table_at hex_table_upper (char_code c / 16)) * 16
  + hex_to_int (table_at hex_table_upper (char_code c mod 16)) = char_code c
  ∧ hex_to_int (table_at hex_table_upper (char_code c / 16)) < 16
  ∧ hex_to_int (table_at hex_table_upper (char_code c mod 16)) < 16.
Proof. destruct c as [[] [] [] [] [] [] [] []]; vm_compute; done. Qed.

Lemma url_char_plain c :
  is_url_char c = true → c ≠ "%"%char ∧ c ≠ "+"%char.
Proof. intros H. split; intros ->; vm_compute in H; discriminate. Qed.

(** ** Hexadecimal *)

Lemma hex_encode_length data : length (hex_encode data) = (2 * length data)%nat.
Proof. induction data as [|c data IH]; simpl; lia. Qed.

(** hex_decode inverts hex_encode. *)
Theorem hex_decode_encode data : hex_decode (hex_encode data) = Ok data.
Proof.
  unfold hex_decode. rewrite hex_encode_length.
  replace (2 * length data mod 2)%nat with 0%nat by (symmetry; rewrite Nat.mul_comm; apply Nat.Div0.mod_mul).
  simpl. induction data as [|c data IH]; [done|].
  cbn [hex_encode hex_decode_loop].
  destruct (hex_encode_char c) as (E & Hh & Hl).
  replace (_ =? 16) with false by lia. replace (_ =? 16) with false by lia.
  rewrite E, IH. simpl. by rewrite chr_char_code.
Qed.

(** ** Percent encoding *)

Lemma url_decode_encode_loop data b : url_decode (url_encode_loop data) b = data.
Proof.
  induction data as [|c data IH]; [done|]. cbn [url_encode_loop].
  destruct (is_url_char c) eqn:Hc.
  - destruct (url_char_plain _ Hc) as [H1 H2]. simpl.
    rewrite bool_decide_false by done.
    rewrite (bool_decide_false (c = "+"%char)) by done. rewrite andb_false_r. by rewrite IH.
  - destruct (url_encode_char c) as (E & Hh & Hl). cbn [url_decode].
    rewrite bool_decide_true by done.
    replace (_ <? 16) with true by lia. replace (_ <? 16) with true by lia.
    simpl. rewrite E, chr_char_code. by rewrite IH.
Qed.

Lemma url_encode_loop_plain data :
  Forall (fun c => is_url_char c = true) data → url_encode_loop data = data.
Proof. induction 1 as [|c data Hc _ IH]; simpl; [done|]. by rewrite Hc, IH. Qed.

Definition url_special (data : slice) : nat :=
  length (filter (fun c => is_url_char c = false) data).

Lemma url_encode_loop_length data :
  length (url_encode_loop data) = (length data + 2 * url_special data)%nat.
Proof.
  unfold url_special. induction data as [|c data IH]; [done|]. simpl. rewrite filter_cons.
  destruct (is_url_char c); case_decide; simpl; try done; lia.
Qed.

Lemma url_encoded_length_acc data acc :
  (2 * length data <= acc)%nat →
  foldl (fun length c => length - 2 * Nat.b2n (is_url_char c))%nat acc data
  = (acc - 2 * (length data - url_special data))%nat.
Proof.
  unfold url_special. revert acc; induction data as [|c data IH]; intros acc H; simpl; [lia|].
  simpl in H. rewrite filter_cons. rewrite IH by (destruct (is_url_char c); simpl; lia).
  pose proof (length_filter (fun c => is_url_char c = false) data).
  destruct (is_url_char c); case_decide; simpl; try done; lia.
Qed.

Lemma url_encoded_length_spec data :
  url_encoded_length data = length (url_encode_loop data).
Proof.
  unfold url_encoded_length. rewrite url_encoded_length_acc, url_encode_loop_length by lia.
  unfold url_special. pose proof (length_filter (fun c => is_url_char c = false) data). lia.
Qed.

Lemma url_special_zero data :
  url_special data = 0%nat → Forall (fun c => is_url_char c = true) data.
Proof.
  unfold url_special. induction data as [|c data IH]; [constructor|].
  rewrite filter_cons. case_decide as H; simpl; [lia|].
  intros E. constructor; [by destruct (is_url_char c)|by apply IH].
Qed.

Lemma url_encode_total data : url_encode data = Some (url_encode_loop data).
Proof.
  unfold url_encode. rewrite url_encoded_length_spec.
  destruct (Nat.eqb_spec (length (url_encode_loop data)) (length data)) as [E|E].
  - f_equal. symmetry. apply url_encode_loop_plain, url_special_zero.
    rewrite url_encode_loop_length in E. lia.
  - by rewrite Nat.eqb_refl.
Qed.

(** url_decode inverts url_encode, whose output has only URL characters and percent signs. *)
Theorem url_decode_encode data b :
  ∃ enc, url_encode data = Some enc ∧ url_decode enc b = data
         ∧ Forall (fun c => is_url_char c = true ∨ c = "%"%char) enc.
Proof.
  exists (url_encode_loop data). rewrite url_encode_total. split; [done|].
  split; [apply url_decode_encode_loop|].
  induction data as [|c data IH]; simpl; [constructor|].
  destruct (is_url_char c) eqn:Hc; [by constructor; [left|]|].
  constructor; [by right|]. clear Hc.
  constructor; [left; all_chars c|]. constructor; [left; all_chars c|done].
Qed.

(** Decoding never makes a string longer. *)
Lemma url_decode_length from b : (length (url_decode from b) <= length from)%nat.
Proof.
  induction from as [from IH] using (induction_ltof1 _ (@length ascii)); unfold ltof in IH.
  destruct from as [|c rest]; [done|]. cbn [url_decode].
  pose proof (IH rest ltac:(simpl; lia)) as H1.
  case_bool_decide; [|cbn [length]; lia].
  destruct rest as [|h [|l rest']]; [cbn; lia|cbn [length] in *; lia|].
  destruct (_ && _); cbn [length] in *; [|lia].
  pose proof (IH rest' ltac:(lia)). lia.
Qed.

(** ** Run-length codecs *)

Lemma run_length_spec c l n :
  (run_length c l n <= n)%nat ∧
  l = replicate (run_length c l n) c ++ drop (run_length c l n) l.
Proof.
  revert l; induction n as [|n IH]; intros [|d l]; simpl; try (split; [lia|done]).
  case_bool_decide as E; [|split; [lia|done]]. subst d.
  destruct (IH l) as [H1 H2]. split; [lia|]. simpl. by f_equal.
Qed.

Lemma rle_decode_encode p fuel data :
  (length data <= fuel)%nat → rle_decode p (rle_encode fuel p data) = data.
Proof.
  revert data; induction fuel as [|fuel IH]; intros [|c rest] Hf; try done; [simpl in Hf; lia|].
  apply (le_S_n (length rest)) in Hf. cbn [rle_encode]. destruct (p c) eqn:Hp; cbn [rle_decode]; rewrite Hp.
  - destruct (run_length_spec c rest 249) as [H1 H2].
    rewrite char_code_chr by lia. rewrite Nat2Z.id.
    rewrite IH by (rewrite length_drop; lia). cbn [replicate app]. f_equal. by symmetry.
  - by rewrite IH by lia.
Qed.

Lemma zero_one_roundtrip data : zero_one_decode (zero_one_encode data) = data.
Proof. by apply rle_decode_encode. Qed.

(** The run-length decoders invert the encoders. *)
Theorem zero_codecs_roundtrip data :
  zero_decode (zero_encode data) = data ∧ zero_one_decode (zero_one_encode data) = data.
Proof. split; by apply rle_decode_encode. Qed.

(** ** Splitting and joining *)

Lemma full_split_loop_nonempty fuel s d : full_split_loop fuel s d ≠ [].
Proof. destruct fuel; simpl; [done|]. by destruct (find d s). Qed.

Lemma implode_cons x v d : v ≠ [] → implode (x :: v) d = x ++ [d] ++ implode v d.
Proof. by destruct v. Qed.

Lemma implode_full_split_loop fuel s d : implode (full_split_loop fuel s d) d = s.
Proof.
  revert s; induction fuel as [|fuel IH]; intros s; simpl; [done|].
  destruct (find d s) as [pos|] eqn:E; [|done].
  rewrite implode_cons by apply full_split_loop_nonempty. rewrite IH.
  destruct (find_Some _ _ _ E) as [H _]. symmetry. exact H.
Qed.

Lemma full_split_loop_parts fuel s d :
  (length s <= fuel)%nat → Forall (fun part => d ∉ part) (full_split_loop fuel s d).
Proof.
  revert s; induction fuel as [|fuel IH]; intros s Hf; simpl.
  - assert (s = []) as -> by (destruct s; simpl in Hf; [done|lia]).
    constructor; [apply not_elem_of_nil|constructor].
  - destruct (find d s) as [pos|] eqn:E.
    + constructor; [by destruct (find_Some _ _ _ E)|]. apply IH.
      rewrite length_drop. apply find_lt in E. lia.
    + constructor; [by apply find_None|constructor].
Qed.

Lemma app_delim_inj (d : ascii) a b x y :
  d ∉ a → d ∉ b → a ++ d :: x = b ++ d :: y → a = b ∧ x = y.
Proof.
  revert b. induction a as [|c a IH]; intros [|e b] Ha Hb E; simpl in *.
  - by injection E.
  - injection E as -> _. set_solver.
  - injection E as -> _. set_solver.
  - injection E as -> E. apply not_elem_of_cons in Ha as [_ Ha]. apply not_elem_of_cons in Hb as [_ Hb].
    destruct (IH b Ha Hb E) as [-> ->]. done.
Qed.

Lemma implode_inj v w d :
  v ≠ [] → w ≠ [] → Forall (fun part => d ∉ part) v → Forall (fun part => d ∉ part) w →
  implode v d = implode w d → v = w.
Proof.
  revert w. induction v as [|x v IH]; intros w Hv Hw Fv Fw E; [done|].
  destruct w as [|y w]; [done|]. apply Forall_cons in Fv as [Hx Fv]. apply Forall_cons in Fw as [Hy Fw].
  destruct v as [|x' v], w as [|y' w]; try done.
  - simpl in E. by subst.
  - rewrite (implode_cons y (y' :: w)) in E by done. simpl in E. subst x. set_solver.
  - rewrite (implode_cons x (x' :: v)) in E by done. simpl in E. subst y. set_solver.
  - rewrite !implode_cons in E by done. destruct (app_delim_inj d x y _ _ Hx Hy E) as [-> E'].
    f_equal. by apply IH.
Qed.

Lemma full_split_implode v d :
  v ≠ [] → implode v d ≠ [] → Forall (fun part => d ∉ part) v → full_split (implode v d) d = v.
Proof.
  intros Hv Hne Hp. destruct (implode v d) as [|c s] eqn:E; [done|]. unfold full_split.
  apply (implode_inj _ _ d); [apply full_split_loop_nonempty|done|by apply full_split_loop_parts|done|].
  by rewrite implode_full_split_loop.
Qed.

(** full_split cuts a string at every delimiter: its parts have none, joined they are the string, and
    no other list of parts is. *)
Theorem full_split_spec s d :
  implode (full_split s d) d = s ∧ Forall (fun part => d ∉ part) (full_split s d) ∧
  (∀ v, v ≠ [] → Forall (fun part => d ∉ part) v → implode v d = s → s = [] ∨ full_split s d = v).
Proof.
  split_and!.
  - destruct s as [|c s]; [done|]. apply implode_full_split_loop.
  - destruct s as [|c s]; [constructor|]. by apply full_split_loop_parts.
  - intros v Hv Hp <-. destruct (implode v d) as [|c s] eqn:E; [by left|right].
    rewrite <- E. apply full_split_implode; [done|by rewrite E|done].
Qed.
