(* ===== verification/Integers.v ===== *)
(** * Printing and parsing machine integers

    [StringBuilder::operator<<] on integers ([print_uint], [print_int] of
    StringBuilder.cpp) and the parsers [to_integer], [to_integer_safe] and
    [hex_to_integer] of misc.h at any width [w], with the wrap-around of the
    unsigned accumulator written out.

    Every number the server accepts from a client (a range bound, a size
    hint, the user identifier of a token, an option value) goes through
    [to_integer_safe]; [to_integer_safe_spec] says exactly which strings it
    accepts. *)

From S2P Require Import Prelude Slices.

(** ** StringBuilder.cpp *)

(** The do-while loop of [print_uint], which writes the digits from the
    lowest; 20 rounds print every 64-bit number. *)
Fixpoint digits_low_first (fuel : nat) (x : Z) : slice :=
  match fuel with
  | O => []
  | S fuel =>
      chr (48 + x mod 10)
      :: (if 0 <? x / 10 then digits_low_first fuel (x / 10) else [])
  end.

Definition print_uint (x : Z) : slice :=
  if x <? 100 then
    if x <? 10 then [chr (48 + x)] else [chr (48 + x / 10); chr (48 + x mod 10)]
  else rev (digits_low_first 20 x).

(** [current_ptr[-1]++] *)
Definition increment_last (s : slice) : slice :=
  match rev s with
  | [] => []
  | c :: front => rev (chr (char_code c + 1) :: front)
  end.

(** [print_int]: the minimum of the type has no positive counterpart, so its
    successor is printed and the last digit incremented. *)
Definition print_int (w x : Z) : slice :=
  if x <? 0 then
    if x =? - 2 ^ (w - 1) then increment_last ("-"%char :: print_uint (- (x + 1)))
    else "-"%char :: print_uint (- x)
  else print_uint x.

(** ** misc.h *)

(** The digit loop on an unsigned [w]-bit accumulator. *)
Fixpoint digit_loop (w acc : Z) (s : slice) : Z :=
  match s with
  | c :: s' =>
      if is_digit c then digit_loop w (wrap w (acc * 10 + (char_code c - 48))) s' else acc
  | [] => acc
  end.

Definition to_integer (w : Z) (str : slice) : Z :=
  let max := 2 ^ (w - 1) - 1 in
  let '(is_negative, body) :=
    match str with
    | c :: rest => if bool_decide (c = "-"%char) then (true, rest) else (false, str)
    | [] => (false, str)
    end in
  let v := digit_loop w 0 body in
  if max <? v then
    let v' := wrap w (- v) in
    let is_negative' := negb is_negative in
    if max <? v' then - 2 ^ (w - 1) else if is_negative' then - v' else v'
  else if is_negative then - v else v.

Definition to_integer_unsigned (w : Z) (str : slice) : Z := digit_loop w 0 str.

(** [check_utf8], reading the terminating zero of the string. *)
Fixpoint check_utf8_loop (data : slice) : bool :=
  match data with
  | [] => false
  | a' :: data1 =>
      let a := char_code a' in
      if Z.land a 128 =? 0 then match data1 with [] => true | _ => check_utf8_loop data1 end
      else if Z.land a 64 =? 0 then false
      else match data1 with
      | [] => false
      | b' :: data2 =>
          let b := char_code b' in
          if negb (Z.land b 192 =? 128) then false
          else if Z.land a 32 =? 0 then
            if 0 <? Z.land a 30 then check_utf8_loop data2 else false
          else match data2 with
          | [] => false
          | c' :: data3 =>
              let c := char_code c' in
              if negb (Z.land c 192 =? 128) then false
              else if Z.land a 16 =? 0 then
                let x := Z.lor (Z.shiftl (Z.land a 15) 6) (Z.land b 32) in
                if negb (x =? 0) && negb (x =? 864) then check_utf8_loop data3 else false
              else match data3 with
              | [] => false
              | d' :: data4 =>
                  let d := char_code d' in
                  if negb (Z.land d 192 =? 128) then false
                  else if Z.land a 8 =? 0 then
                    let t := Z.lor (Z.shiftl (Z.land a 7) 6) (Z.land b 48) in
                    if (0 <? t) && (t <? 272) then check_utf8_loop data4 else false
                  else false
              end
          end
      end
  end.
Definition check_utf8 (str : slice) : bool := check_utf8_loop (str ++ ["000"%char]).

Definition get_to_integer_safe_error {A} (str : slice) : result A :=
  let error_message := lit "Can't parse as an integer string " ++ ["034"%char] ++ str ++ ["034"%char] in
  if negb (check_utf8 error_message) then Err 0 (lit "Strings must be encoded in UTF-8")
  else Err 0 error_message.

Definition to_integer_safe (w : Z) (str : slice) : result Z :=
  let res := to_integer w str in
  if negb (bool_decide (print_int w res = str)) then get_to_integer_safe_error str
  else Ok res.

Definition to_integer_unsigned_safe (w : Z) (str : slice) : result Z :=
  let res := to_integer_unsigned w str in
  if negb (bool_decide (print_uint res = str)) then get_to_integer_safe_error str
  else Ok res.

Fixpoint hex_to_integer_loop (w acc : Z) (s : slice) : Z :=
  match s with
  | c :: s' =>
      if is_hex_digit c then hex_to_integer_loop w (wrap w (acc * 16 + hex_to_int c)) s' else acc
  | [] => acc
  end.
Definition hex_to_integer (w : Z) (str : slice) : Z := hex_to_integer_loop w 0 str.

(** The code tests [integer_value > max / 16] before it shifts, so no digit is
    lost. *)
Fixpoint hex_to_integer_safe_loop (w acc : Z) (s : slice) : result Z :=
  match s with
  | [] => Ok acc
  | c :: s' =>
      let digit := hex_to_int c in
      if digit =? 16 then Err 0 (lit "String contains non-hex digit")
      else if (2 ^ w - 1) / 16 <? acc then Err 0 (lit "String hex number overflows")
      else hex_to_integer_safe_loop w (wrap w (acc * 16 + digit)) s'
  end.
Definition hex_to_integer_safe (w : Z) (str : slice) : result Z :=
  match str with
  | [] => Err 0 (lit "String is empty")
  | _ => hex_to_integer_safe_loop w 0 str
  end.

(** ** The value of a numeral *)

(** The mathematical value of a string of decimal (hexadecimal) digits. *)
Definition dec_value (acc : Z) (s : slice) : Z :=
  foldl (fun acc c => acc * 10 + (char_code c - 48)) acc s.
Definition hex_value (acc : Z) (s : slice) : Z :=
  foldl (fun acc c => acc * 16 + hex_to_int c) acc s.

(** ** Facts *)

Lemma is_digit_chr d : 0 <= d < 10 → is_digit (chr (48 + d)) = true.
Proof. intros H. unfold is_digit. rewrite char_code_chr by lia. lia. Qed.

Lemma is_digit_range c : is_digit c = true → 48 <= char_code c <= 57.
Proof. unfold is_digit. lia. Qed.

Lemma dec_value_app acc s t : dec_value acc (s ++ t) = dec_value (dec_value acc s) t.
Proof. apply foldl_app. Qed.

Lemma dec_value_nonneg acc s :
  0 <= acc → Forall (fun c => is_digit c = true) s → 0 <= dec_value acc s.
Proof.
  intros Ha Hs. revert acc Ha. induction Hs as [|c s Hc Hs IH]; intros acc Ha; [done|].
  simpl. apply IH. apply is_digit_range in Hc. lia.
Qed.

Lemma digit_loop_value w acc s :
  0 <= w → Forall (fun c => is_digit c = true) s →
  digit_loop w (wrap w acc) s = wrap w (dec_value acc s).
Proof.
  intros Hw Hs. revert acc. induction Hs as [|c s Hc Hs IH]; intros acc; simpl; [done|].
  rewrite Hc. rewrite <- IH. f_equal. unfold wrap.
  rewrite <- Zplus_mod_idemp_l, Zmult_mod_idemp_l, Zplus_mod_idemp_l. done.
Qed.

(** Printing yields digits that evaluate to the number. *)
Lemma digits_low_first_spec fuel x :
  0 <= x < 10 ^ Z.of_nat fuel →
  (fuel ≠ 0)%nat →
  Forall (fun c => is_digit c = true) (digits_low_first fuel x)
  ∧ dec_value 0 (rev (digits_low_first fuel x)) = x
  ∧ digits_low_first fuel x ≠ [].
Proof.
  revert x; induction fuel as [|fuel IH]; intros x Hx Hf; [done|]. cbn [digits_low_first].
  pose proof (Z.mod_pos_bound x 10 ltac:(lia)) as Hm.
  pose proof (Z.div_mod x 10 ltac:(lia)) as Hd.
  assert (0 <= x / 10) as Hq by (apply Z.div_pos; lia).
  destruct (Z.ltb_spec 0 (x / 10)) as [Hlt|Hle].
  - rewrite Nat2Z.inj_succ, Z.pow_succ_r in Hx by lia.
    assert (x / 10 < 10 ^ Z.of_nat fuel) as Hlt' by (apply Z.div_lt_upper_bound; lia).
    destruct fuel as [|fuel]; [simpl in Hlt'; lia|].
    destruct (IH (x / 10) ltac:(lia) ltac:(done)) as (H1 & H2 & H3).
    split_and!; [constructor; [by apply is_digit_chr|done]| |done].
    cbn [rev]. rewrite dec_value_app, H2. cbn. rewrite char_code_chr by lia. lia.
  - split_and!; [by repeat constructor; apply is_digit_chr| |done].
    cbn. rewrite char_code_chr by lia. lia.
Qed.

(** The digits of a number of any size, within the fuel or not. *)
Lemma print_uint_digits x : 0 <= x → Forall (fun c => is_digit c = true) (print_uint x) ∧ print_uint x ≠ [].
Proof.
  assert (Hd : ∀ y, 0 <= y < 10 → is_digit (chr (48 + y)) = true).
  { intros y Hy. assert (y ∈ [0; 1; 2; 3; 4; 5; 6; 7; 8; 9]) as Hin; [rewrite !elem_of_cons; lia|].
    repeat (apply elem_of_cons in Hin as [->|Hin]; [done|]). by apply not_elem_of_nil in Hin. }
  assert (Hl : ∀ fuel y, 0 <= y → Forall (fun c => is_digit c = true) (digits_low_first fuel y)).
  { induction fuel as [|fuel IH]; intros y Hy; cbn [digits_low_first]; [constructor|].
    constructor; [apply Hd, Z.mod_pos_bound; lia|]. destruct (0 <? y / 10); [|constructor].
    apply IH, Z.div_pos; lia. }
  intros Hx. unfold print_uint. destruct (Z.ltb_spec x 100); [destruct (Z.ltb_spec x 10)|].
  - split; [|done]. repeat constructor. by apply Hd.
  - split; [|done]. pose proof (Z.div_mod x 10 ltac:(lia)). pose proof (Z.mod_pos_bound x 10 ltac:(lia)).
    repeat constructor; apply Hd; lia.
  - split; [by apply Forall_rev, Hl|]. intros Hr. by apply (f_equal length) in Hr; rewrite length_rev in Hr.
Qed.

Lemma print_uint_spec x :
  0 <= x < 2 ^ 64 →
  Forall (fun c => is_digit c = true) (print_uint x)
  ∧ dec_value 0 (print_uint x) = x ∧ print_uint x ≠ [].
Proof.
  intros Hx. unfold print_uint.
  destruct (Z.ltb_spec x 100) as [H1|H1]; [destruct (Z.ltb_spec x 10) as [H2|H2]|].
  - split_and!; [repeat constructor; apply is_digit_chr; lia| |done].
    cbn. rewrite char_code_chr by lia. lia.
  - pose proof (Z.mod_pos_bound x 10 ltac:(lia)).
    pose proof (Z.div_mod x 10 ltac:(lia)).
    split_and!; [repeat constructor; apply is_digit_chr; lia| |done].
    cbn. rewrite !char_code_chr by lia. lia.
  - destruct (digits_low_first_spec 20 x ltac:(lia) ltac:(done)) as (H2 & H3 & H4).
    split_and!; [by apply Forall_rev|done|].
    intros E. apply (f_equal (@rev ascii)) in E. rewrite rev_involutive in E. done.
Qed.

(** The widths of the integer types of the program. *)
Definition is_width (w : Z) : bool := (w =? 32) || (w =? 64).

Definition signed_range (w x : Z) : Prop := - 2 ^ (w - 1) <= x < 2 ^ (w - 1).

Lemma to_integer_digits w s :
  is_width w = true → Forall (fun c => is_digit c = true) s →
  dec_value 0 s < 2 ^ (w - 1) →
  to_integer w s = dec_value 0 s ∧ to_integer w ("-"%char :: s) = - dec_value 0 s.
Proof.
  intros Hw Hs Hv. assert (0 <= dec_value 0 s) as H0 by (by apply dec_value_nonneg).
  assert (0 <= w) by (unfold is_width in Hw; lia).
  assert (2 ^ (w - 1) <= 2 ^ w) by (apply Z.pow_le_mono_r; lia).
  assert (digit_loop w 0 s = dec_value 0 s) as E.
  { rewrite <- (wrap_small w 0) at 1 by lia. rewrite digit_loop_value by done.
    apply wrap_small. lia. }
  unfold to_integer. split.
  - destruct s as [|c s].
    + simpl. replace (2 ^ (w - 1) - 1 <? 0) with false by lia. done.
    + rewrite bool_decide_false.
      * cbv zeta. rewrite E. replace (_ <? _) with false by lia. done.
      * intros ->. apply Forall_inv in Hs. done.
  - rewrite bool_decide_true by done. cbv zeta. rewrite E.
    replace (_ <? _) with false by lia. done.
Qed.

Lemma to_integer_min w s :
  is_width w = true → Forall (fun c => is_digit c = true) s →
  dec_value 0 s = 2 ^ (w - 1) → to_integer w ("-"%char :: s) = - 2 ^ (w - 1).
Proof.
  intros Hw Hs Hv. assert (0 < w) by (unfold is_width in Hw; lia).
  assert (2 ^ w = 2 * 2 ^ (w - 1)) as E2.
  { rewrite <- Z.pow_succ_r by lia. f_equal. lia. }
  assert (0 < 2 ^ (w - 1)) by (apply Z.pow_pos_nonneg; lia).
  assert (digit_loop w 0 s = 2 ^ (w - 1)) as E.
  { rewrite <- (wrap_small w 0) at 1 by lia. rewrite digit_loop_value by (done || lia).
    rewrite Hv. apply wrap_small. lia. }
  unfold to_integer. rewrite bool_decide_true by done. cbv zeta. rewrite E.
  replace (_ <? 2 ^ (w - 1)) with true by lia.
  assert (wrap w (- 2 ^ (w - 1)) = 2 ^ (w - 1)) as ->.
  { unfold wrap. rewrite <- (Z.mod_unique (- 2 ^ (w - 1)) (2 ^ w) (-1) (2 ^ (w - 1))); lia. }
  replace (_ <? 2 ^ (w - 1)) with true by lia. done.
Qed.

Lemma print_int_min w :
  is_width w = true →
  ∃ s, print_int w (- 2 ^ (w - 1)) = "-"%char :: s
       ∧ Forall (fun c => is_digit c = true) s ∧ dec_value 0 s = 2 ^ (w - 1).
Proof.
  unfold is_width. intros Hw. assert (w = 32 ∨ w = 64) as [-> | ->] by lia;
    (eexists; split; [vm_compute; reflexivity|]);
    (split; [repeat constructor|reflexivity]).
Qed.

(** Parsing undoes printing on the whole range of the type. *)
Lemma to_integer_print_int w x :
  is_width w = true → signed_range w x → to_integer w (print_int w x) = x.
Proof.
  intros Hw Hx. unfold signed_range in Hx.
  assert (2 ^ (w - 1) <= 2 ^ 63) as Hle
    by (apply Z.pow_le_mono_r; unfold is_width in Hw; lia).
  destruct (Z.eqb_spec x (- 2 ^ (w - 1))) as [->|Hne].
  { destruct (print_int_min w Hw) as (s & -> & Hs & Hv). by apply to_integer_min. }
  unfold print_int. destruct (Z.ltb_spec x 0) as [Hneg|Hpos].
  - replace (x =? _) with false by lia.
    destruct (print_uint_spec (- x) ltac:(lia)) as (Hs & Hv & _).
    destruct (to_integer_digits w _ Hw Hs ltac:(lia)) as [_ ->]. lia.
  - destruct (print_uint_spec x ltac:(lia)) as (Hs & Hv & _).
    destruct (to_integer_digits w _ Hw Hs ltac:(lia)) as [-> _]. lia.
Qed.

Lemma digit_loop_range w s acc : 0 < w → 0 <= acc < 2 ^ w → 0 <= digit_loop w acc s < 2 ^ w.
Proof.
  intros Hw. revert acc. induction s as [|c s IH]; intros acc Ha; simpl; [done|].
  destruct (is_digit c); [|done]. apply IH, wrap_range. lia.
Qed.

(** The parser never leaves the range of its type, whatever the string. *)
Lemma to_integer_range w s : is_width w = true → signed_range w (to_integer w s).
Proof.
  intros Hw. assert (0 < w) by (unfold is_width in Hw; lia).
  assert (2 ^ w = 2 * 2 ^ (w - 1)) as E2.
  { rewrite <- Z.pow_succ_r by lia. f_equal. lia. }
  assert (0 < 2 ^ (w - 1)) by (apply Z.pow_pos_nonneg; lia).
  unfold to_integer, signed_range.
  set (p := match s with [] => _ | _ :: _ => _ end). destruct p as [neg body].
  cbv zeta. pose proof (digit_loop_range w body 0 ltac:(lia) ltac:(lia)) as Hb.
  pose proof (wrap_range w (- digit_loop w 0 body) ltac:(lia)).
  destruct (Z.ltb_spec (2 ^ (w - 1) - 1) (digit_loop w 0 body)).
  - destruct (Z.ltb_spec (2 ^ (w - 1) - 1) (wrap w (- digit_loop w 0 body))); [lia|].
    destruct neg; simpl; lia.
  - destruct neg; lia.
Qed.

Lemma to_integer_safe_ok w s n :
  is_width w = true →
  to_integer_safe w s = Ok n ↔ signed_range w n ∧ s = print_int w n.
Proof.
  intros Hw. unfold to_integer_safe. case_bool_decide as E; simpl.
  - split.
    + intros [= <-]. split; [by apply to_integer_range|by symmetry].
    + intros [Hr ->]. by rewrite to_integer_print_int.
  - split.
    + unfold get_to_integer_safe_error. by destruct (negb _).
    + intros [Hr ->]. exfalso. apply E. by rewrite to_integer_print_int.
Qed.

Lemma to_integer_safe_error w s c m : to_integer_safe w s = Err c m → c = 0.
Proof.
  unfold to_integer_safe, get_to_integer_safe_error. intros H. by split_ifs; inversion H.
Qed.

Lemma print_int_inj w x y :
  is_width w = true → signed_range w x → signed_range w y →
  print_int w x = print_int w y → x = y.
Proof.
  intros Hw Hx Hy E. rewrite <- (to_integer_print_int w x), <- (to_integer_print_int w y) by done.
  by rewrite E.
Qed.

(** Hexadecimal numbers are read without losing a digit: the guard is exact. *)
Lemma hex_to_int_range c : 0 <= hex_to_int c <= 16.
Proof. all_chars c; split; discriminate. Qed.

Lemma hex_value_ge acc s :
  0 <= acc → acc <= hex_value acc s.
Proof.
  revert acc; induction s as [|c s IH]; intros acc Ha; simpl; [lia|].
  pose proof (hex_to_int_range c). etrans; [|apply IH; lia]. lia.
Qed.

Lemma hex_to_integer_safe_loop_ok w acc s n :
  4 <= w → 0 <= acc < 2 ^ w →
  hex_to_integer_safe_loop w acc s = Ok n ↔
  Forall (fun c => hex_to_int c ≠ 16) s ∧ n = hex_value acc s ∧ n < 2 ^ w.
Proof.
  intros Hw. assert (2 ^ w = 16 * 2 ^ (w - 4)) as E16.
  { change 16 with (2 ^ 4). rewrite <- Z.pow_add_r by lia. f_equal. lia. }
  assert ((2 ^ w - 1) / 16 = 2 ^ (w - 4) - 1) as Eq.
  { rewrite E16. symmetry. apply Z.div_unique with 15; lia. }
  revert acc; induction s as [|c s IH]; intros acc Ha; simpl.
  { split; [intros [= <-]; split_and!; [constructor|done|lia]|by intros (_ & -> & _)]. }
  rewrite Forall_cons, Eq. pose proof (hex_to_int_range c) as Hc.
  destruct (Z.eqb_spec (hex_to_int c) 16) as [E|E]; [split; [done|tauto]|].
  destruct (Z.ltb_spec (2 ^ (w - 4) - 1) acc) as [Hlt|Hle].
  - split; [done|]. intros (_ & -> & Hn). exfalso.
    pose proof (hex_value_ge (acc * 16 + hex_to_int c) s ltac:(lia)).
    unfold hex_value in *. lia.
  - rewrite (wrap_small w) by lia. rewrite IH by lia. naive_solver.
Qed.

Lemma hex_to_integer_safe_ok w s n :
  4 <= w →
  hex_to_integer_safe w s = Ok n ↔
  s ≠ [] ∧ Forall (fun c => hex_to_int c ≠ 16) s ∧ n = hex_value 0 s ∧ n < 2 ^ w.
Proof.
  intros Hw. unfold hex_to_integer_safe. destruct s as [|c s].
  - split; [done|by intros (? & _)].
  - assert (0 < 2 ^ w) by (apply Z.pow_pos_nonneg; lia).
    rewrite hex_to_integer_safe_loop_ok by lia. naive_solver.
Qed.

(** ** The properties *)

(** to_integer_safe accepts exactly the canonical decimal texts of the numbers of its width, and
    to_integer never leaves that width. *)
Theorem to_integer_safe_spec w s n (Hw : is_width w = true) :
  (to_integer_safe w s = Ok n ↔ signed_range w n ∧ s = print_int w n)
  ∧ signed_range w (to_integer w s).
Proof. split; [by apply to_integer_safe_ok|by apply to_integer_range]. Qed.

Lemma to_integer_safe_spec_witness :
  to_integer_safe 64 (lit "9223372036854775807") = Ok 9223372036854775807
  ∧ ¬ (∃ n, to_integer_safe 64 (lit "9223372036854775808") = Ok n).
Proof.
  split.
  - destruct (to_integer_safe_spec 64 (lit "9223372036854775807") 9223372036854775807 eq_refl)
      as [[_ H] _].
    apply H. split; [unfold signed_range; lia|reflexivity].
  - intros [n H]. vm_compute in H. discriminate.
Defined.

(** hex_to_integer_safe accepts exactly the hexadecimal texts whose value fits its width. *)
Theorem hex_to_integer_safe_spec w s n (Hw : 4 <= w) :
  hex_to_integer_safe w s = Ok n ↔
  s ≠ [] ∧ Forall (fun c => hex_to_int c ≠ 16) s ∧ n = hex_value 0 s ∧ n < 2 ^ w.
Proof. by apply hex_to_integer_safe_ok. Qed.

Lemma hex_to_integer_safe_spec_witness :
  hex_to_integer_safe 64 (lit "ffffffffffffffff") = Ok (2 ^ 64 - 1).
Proof.
  apply (hex_to_integer_safe_spec 64 (lit "ffffffffffffffff") (2 ^ 64 - 1) ltac:(lia)).
  split_and!; [discriminate| |reflexivity|reflexivity].
  repeat constructor; vm_compute; discriminate.
Defined.
