(* ===== verification/Parser.v ===== *)
(** * The text parser

    [td/tdutils/td/utils/Parser.h], class [detail::ParserImpl]: a pointer that
    moves right over a buffer and a sticky status.  The state is the text from
    [ptr_] to [end_] and [status_]; each operation returns what it read and
    the new state. *)

From S2P Require Import Prelude Slices.

Record parser := { p_data : slice; p_status : status }.

(** [ParserImpl(data)] *)
Definition new_parser (data : slice) : parser := {| p_data := data; p_status := Ok tt |}.

Definition p_empty (p : parser) : bool := bool_decide (p_data p = []).

Definition with_data (p : parser) (data : slice) : parser :=
  {| p_data := data; p_status := p_status p |}.
Definition with_status (p : parser) (st : status) : parser :=
  {| p_data := p_data p; p_status := st |}.

(** [clear] *)
Definition p_clear (p : parser) : parser := {| p_data := []; p_status := Ok tt |}.

(** [read_till_nofail(c)]: up to the next [c], or everything. *)
Definition read_till_nofail (c : ascii) (p : parser) : slice * parser :=
  if negb (is_ok (p_status p)) then ([], p)
  else match find c (p_data p) with
  | None => (p_data p, with_data p [])
  | Some pos => (take pos (p_data p), with_data p (drop pos (p_data p)))
  end.

(** [read_till_nofail(str)]: up to the nearest of several characters; the loop
    keeps the best position found so far. *)
Definition best_till (data str : slice) : nat :=
  foldl (fun best c => match find c data with
                       | Some till => if (till <? best)%nat then till else best
                       | None => best
                       end) (length data) str.
Definition read_till_nofail_any (str : slice) (p : parser) : slice * parser :=
  if negb (is_ok (p_status p)) then ([], p)
  else let pos := best_till (p_data p) str in
       (take pos (p_data p), with_data p (drop pos (p_data p))).

(** [read_while(f)] and [read_all()] *)
Definition read_while (f : ascii → bool) (p : parser) : slice * parser :=
  (take_while f (p_data p), with_data p (drop_while f (p_data p))).
Definition read_all (p : parser) : slice * parser := (p_data p, with_data p []).

Definition read_till_error (c : ascii) : status :=
  Err 0 (lit "Read till '" ++ [c] ++ lit "' failed").

(** [read_till(c)]: fails, and stays failed, when there is no [c]. *)
Definition read_till (c : ascii) (p : parser) : slice * parser :=
  if negb (is_ok (p_status p)) then ([], p)
  else
    let '(res, p') := read_till_nofail c p in
    match p_data p' with
    | d :: _ => if bool_decide (d = c) then (res, p') else ([], with_status p' (read_till_error c))
    | [] => ([], with_status p' (read_till_error c))
    end.

(** [peek_char()]: 0 at the end. *)
Definition peek_char (p : parser) : ascii :=
  match p_data p with [] => "000"%char | c :: _ => c end.

Definition skip_nofail (c : ascii) (p : parser) : parser :=
  match p_data p with
  | d :: rest => if bool_decide (d = c) then with_data p rest else p
  | [] => p
  end.

Definition skip_error (c : ascii) : status := Err 0 (lit "Skip '" ++ [c] ++ lit "' failed").

Definition skip (c : ascii) (p : parser) : parser :=
  if negb (is_ok (p_status p)) then p
  else match p_data p with
  | d :: rest => if bool_decide (d = c) then with_data p rest else with_status p (skip_error c)
  | [] => with_status p (skip_error c)
  end.

Definition try_skip_char (c : ascii) (p : parser) : bool * parser :=
  match p_data p with
  | d :: rest => if bool_decide (d = c) then (true, with_data p rest) else (false, p)
  | [] => (false, p)
  end.

(** [advance(diff)]: [CHECK(ptr_ <= end_)] after the move. *)
Definition advance (diff : nat) (p : parser) : option parser :=
  CHECK (diff <=? length (p_data p))%nat (Some (with_data p (drop diff (p_data p)))).

(** [try_skip(prefix)]; the [CHECK] of its [advance] cannot fail
    ([try_skip_advance]), so the state is moved directly. *)
Definition try_skip (prefix : slice) (p : parser) : bool * parser :=
  if (length (p_data p) <? length prefix)%nat
     || negb (bool_decide (prefix = take (length prefix) (p_data p)))
  then (false, p)
  else (true, with_data p (drop (length prefix) (p_data p))).

Definition skip_till_not (str : slice) (p : parser) : parser :=
  with_data p (drop_while (fun c => bool_decide (c ∈ str)) (p_data p)).

Definition whitespace : slice := [" "%char; "009"%char; "013"%char; "010"%char].
Definition skip_whitespaces (p : parser) : parser := skip_till_not whitespace p.
Definition read_word (p : parser) : slice * parser :=
  read_till_nofail_any whitespace (skip_whitespaces p).

(** ** Facts *)

Lemma try_skip_advance prefix p p' :
  try_skip prefix p = (true, p') → advance (length prefix) p = Some p'.
Proof.
  unfold try_skip, advance, CHECK.
  destruct (Nat.ltb_spec (length (p_data p)) (length prefix)); simpl; [done|].
  destruct (negb _); [done|]. intros [= <-].
  replace (_ <=? _)%nat with true; [done|]. symmetry. apply Nat.leb_le. lia.
Qed.

Lemma try_skip_true prefix p p' :
  try_skip prefix p = (true, p') ↔
  p_data p = prefix ++ p_data p' ∧ p_status p' = p_status p.
Proof.
  unfold try_skip. split.
  - destruct (Nat.ltb_spec (length (p_data p)) (length prefix)); simpl; [done|].
    case_bool_decide as E; simpl; [|done]. intros [= <-]. simpl. split; [|done].
    rewrite E at 1. by rewrite take_drop.
  - intros [E1 E2]. rewrite E1, length_app, take_app_length, drop_app_length.
    replace (_ <? _)%nat with false by (symmetry; apply Nat.ltb_ge; lia).
    rewrite bool_decide_true by done. simpl. f_equal.
    destruct p, p'; unfold with_data; simpl in *. by subst.
Qed.

Lemma try_skip_false prefix p p' :
  try_skip prefix p = (false, p') → p' = p ∧ ¬ ∃ rest, p_data p = prefix ++ rest.
Proof.
  intros H. split.
  - unfold try_skip in H. split_ifs; by inversion H.
  - intros [rest E].
    assert (try_skip prefix p = (true, with_data p rest)) as H'
      by (by apply try_skip_true).
    congruence.
Qed.

Lemma read_till_spec c p :
  p_status p = Ok tt →
  match read_till c p with
  | (res, p') =>
      (p_status p' = Ok tt ∧ (c ∉ res) ∧ ∃ rest, p_data p' = c :: rest ∧ p_data p = res ++ c :: rest)
      ∨ (p_status p' = read_till_error c ∧ res = [] ∧ p_data p' = [] ∧ c ∉ p_data p)
  end.
Proof.
  intros Hs. unfold read_till, read_till_nofail. rewrite Hs. simpl.
  destruct (find c (p_data p)) as [pos|] eqn:E; simpl.
  - destruct (find_Some _ _ _ E) as [H1 H2].
    assert (drop pos (p_data p) = c :: drop (pos + 1) (p_data p)) as E2
      by (by apply find_drop).
    rewrite E2. rewrite bool_decide_true by done. simpl. left.
    split_and!; [done|done|]. by eexists.
  - right. split_and!; [done..|by apply find_None].
Qed.

(** Nothing is lost: what is read and what remains is the old text. *)
Lemma read_till_nofail_split c p :
  p_status p = Ok tt →
  (read_till_nofail c p).1 ++ p_data ((read_till_nofail c p).2) = p_data p
  ∧ (c ∉ (read_till_nofail c p).1)
  ∧ (p_data ((read_till_nofail c p).2) = [] ∨ ∃ rest, p_data ((read_till_nofail c p).2) = c :: rest).
Proof.
  intros Hs. unfold read_till_nofail. rewrite Hs. simpl.
  destruct (find c (p_data p)) as [pos|] eqn:E; simpl.
  - destruct (find_Some _ _ _ E) as [H1 H2]. rewrite take_drop. split_and!; [done|done|].
    right. exists (drop (pos + 1) (p_data p)). by apply find_drop.
  - rewrite app_nil_r. split_and!; [done|by apply find_None|by left].
Qed.
