(* ===== verification/Utf8.v ===== *)
(** * UTF-8

    td/tdutils/td/utils/utf8.{h,cpp}: encoding and decoding of one character
    and the length and truncation functions that count characters or UTF-16
    code units.  [check_utf8] itself is in [Integers], which needs it for an
    error message.

    [check_utf8_spec] is the specification of the validator: it accepts
    exactly the encodings of sequences of Unicode scalar values. *)

From S2P Require Import Prelude Slices Integers.

(** [append_utf8_character] and [append_utf8_character_unsafe]. *)
Definition append_utf8 (code : Z) : slice :=
  if code <=? 127 then [chr code]
  else if code <=? 2047 then
    [chr (Z.lor 192 (Z.shiftr code 6)); chr (Z.lor 128 (Z.land code 63))]
  else if code <=? 65535 then
    [chr (Z.lor 224 (Z.shiftr code 12));
     chr (Z.lor 128 (Z.land (Z.shiftr code 6) 63)); chr (Z.lor 128 (Z.land code 63))]
  else
    [chr (Z.lor 240 (Z.shiftr code 18)); chr (Z.lor 128 (Z.land (Z.shiftr code 12) 63));
     chr (Z.lor 128 (Z.land (Z.shiftr code 6) 63)); chr (Z.lor 128 (Z.land code 63))].

Definition byte_at (s : slice) (i : nat) : Z :=
  match s !! i with Some c => char_code c | None => 0 end.

(** [next_utf8_unsafe]: the code and the number of bytes of the first
    character; [None] is [UNREACHABLE]. *)
Definition next_utf8_unsafe (s : slice) : option (Z * nat) :=
  let a := byte_at s 0 in let b := byte_at s 1 in
  let c := byte_at s 2 in let d := byte_at s 3 in
  if Z.land a 128 =? 0 then Some (a, 1%nat)
  else if Z.land a 32 =? 0 then
    Some (Z.lor (Z.shiftl (Z.land a 31) 6) (Z.land b 63), 2%nat)
  else if Z.land a 16 =? 0 then
    Some (Z.lor (Z.lor (Z.shiftl (Z.land a 15) 12) (Z.shiftl (Z.land b 63) 6)) (Z.land c 63), 3%nat)
  else if Z.land a 8 =? 0 then
    Some (Z.lor (Z.lor (Z.lor (Z.shiftl (Z.land a 7) 18) (Z.shiftl (Z.land b 63) 12))
                   (Z.shiftl (Z.land c 63) 6)) (Z.land d 63), 4%nat)
  else None.

Definition is_utf8_character_first_code_unit (c : ascii) : bool :=
  negb (Z.land (char_code c) 192 =? 128).

Definition utf8_length (str : slice) : Z :=
  foldl (fun result c => result + Z.b2z (is_utf8_character_first_code_unit c)) 0 str.

Definition utf8_utf16_length (str : slice) : Z :=
  foldl (fun result c => result + (Z.b2z (is_utf8_character_first_code_unit c)
                                   + Z.b2z (Z.land (char_code c) 248 =? 240))) 0 str.

(** The loops return the length of the part they keep; [length] is a
    [size_t]. *)
Fixpoint utf8_truncate_loop (str : slice) (length : Z) : nat :=
  match str with
  | [] => O
  | c :: str' =>
      if is_utf8_character_first_code_unit c then
        if length =? 0 then O else S (utf8_truncate_loop str' (length - 1))
      else S (utf8_truncate_loop str' length)
  end.
Definition utf8_truncate (str : slice) (length : Z) : slice :=
  if length <? slen str then take (utf8_truncate_loop str length) str else str.

Fixpoint utf16_truncate_loop (str : slice) (length : Z) : nat :=
  match str with
  | [] => O
  | c :: str' =>
      if is_utf8_character_first_code_unit c then
        if length <=? 0 then O
        else
          let length := length - 1 in
          let length := if 240 <=? char_code c then wrap 64 (length - 1) else length in
          S (utf16_truncate_loop str' length)
      else S (utf16_truncate_loop str' length)
  end.
Definition utf8_utf16_truncate (str : slice) (length : Z) : slice :=
  take (utf16_truncate_loop str length) str.

Definition utf8_substr (str : slice) (offset : Z) : slice :=
  if offset =? 0 then str else drop (length (utf8_truncate str offset)) str.
Definition utf8_substr_len (str : slice) (offset length : Z) : slice :=
  utf8_truncate (utf8_substr str offset) length.

Definition utf8_utf16_substr (str : slice) (offset : Z) : slice :=
  if offset =? 0 then str else drop (length (utf8_utf16_truncate str offset)) str.
Definition utf8_utf16_substr_len (str : slice) (offset length : Z) : slice :=
  utf8_utf16_truncate (utf8_utf16_substr str offset) length.

(** [utf8_encode] *)
Definition utf8_encode (data : slice) : option slice :=
  if check_utf8 data then Some data
  else enc ← url_encode data; Some (lit "url_decode(" ++ enc ++ lit ")").

(** ** Specification *)

Definition scalar (code : Z) : bool :=
  ((0 <=? code) && (code <=? 55295)) || ((57344 <=? code) && (code <=? 1114111)).

Definition encode_codes (codes : list Z) : slice := codes ≫= append_utf8.

(** UTF-16 code units of a character. *)
Definition utf16_units (code : Z) : Z := if code <=? 65535 then 1 else 2.

(** ** Bytes by exhaustion *)

Definition all_below (n : Z) (P : Z → bool) : bool :=
  forallb (fun k => P (Z.of_nat k)) (seq 0 (Z.to_nat n)).

Lemma all_below_spec n (P : Z → Prop) `{∀ a, Decision (P a)} a :
  all_below n (fun a => bool_decide (P a)) = true → 0 <= a < n → P a.
Proof.
  unfold all_below. rewrite forallb_forall. intros Hall Ha.
  specialize (Hall (Z.to_nat a)). rewrite Z2Nat.id in Hall by lia.
  apply bool_decide_eq_true in Hall; [done|]. apply in_seq. lia.
Qed.

(** A fact about the bits of a number below [n], checked for all of them. *)
Ltac by_exhaustion n :=
  let a := fresh "a" in let H := fresh "H" in
  intros a H; pattern a;
  match goal with |- ?P a => refine (all_below_spec n P a _ H) end; vm_compute; reflexivity.

Lemma b_lead a : 0 <= a < 256 →
  (Z.land a 128 =? 0) = (a <? 128)
  ∧ (128 <= a → (Z.land a 64 =? 0) = (a <? 192))
  ∧ (192 <= a → (Z.land a 32 =? 0) = (a <? 224))
  ∧ (224 <= a → (Z.land a 16 =? 0) = (a <? 240))
  ∧ (240 <= a → (Z.land a 8 =? 0) = (a <? 248)).
Proof. revert a. by_exhaustion 256. Qed.

Lemma b_cont b : 0 <= b < 256 →
  (Z.land b 192 =? 128) = ((128 <=? b) && (b <? 192)) ∧ Z.land b 63 = b mod 64
  ∧ (128 <= b < 192 → Z.land b 32 = 32 * ((b - 128) / 32) ∧ Z.land b 48 = 16 * ((b - 128) / 16)).
Proof. revert b. by_exhaustion 256. Qed.

Lemma b_payload a : 0 <= a < 256 →
  Z.land a 31 = a mod 32 ∧ Z.land a 15 = a mod 16 ∧ Z.land a 7 = a mod 8
  ∧ (192 <= a < 224 → Z.land a 30 = 2 * ((a - 192) / 2)).
Proof. revert a. by_exhaustion 256. Qed.

Lemma b_or6 x : 0 <= x < 64 → Z.lor 128 x = 128 + x.
Proof. revert x. by_exhaustion 64. Qed.
Lemma b_or5 x : 0 <= x < 32 → Z.lor 192 x = 192 + x.
Proof. revert x. by_exhaustion 32. Qed.
Lemma b_or4 x : 0 <= x < 16 → Z.lor 224 x = 224 + x.
Proof. revert x. by_exhaustion 16. Qed.
Lemma b_or3 x : 0 <= x < 8 → Z.lor 240 x = 240 + x.
Proof. revert x. by_exhaustion 8. Qed.

Lemma lor_shift x n y : 0 <= n → 0 <= y < 2 ^ n → Z.lor (Z.shiftl x n) y = x * 2 ^ n + y.
Proof.
  intros Hn Hy. rewrite <- Z.shiftl_mul_pow2 by done. symmetry.
  rewrite <- Z.lxor_lor; [apply Z.add_nocarry_lxor|];
    apply Z.bits_inj'; intros k Hk; rewrite Z.land_spec, Z.bits_0, Z.shiftl_spec by lia;
    (destruct (Z.ltb_spec k n);
     [rewrite (Z.testbit_neg_r x) by lia; done
     |rewrite <- (Z.mod_small y (2 ^ n)), Z.mod_pow2_bits_high by lia; by rewrite andb_false_r]).
Qed.

(** ** One character *)

Lemma land_63 x : Z.land x 63 = x mod 64.
Proof. change 63 with (Z.ones 6). by rewrite Z.land_ones. Qed.

Ltac div_mod := Z.to_euclidean_division_equations; lia.

(** The bytes of a scalar value, without bit operations. *)
Lemma append_utf8_arith code :
  scalar code = true →
  append_utf8 code =
  if code <=? 127 then [chr code]
  else if code <=? 2047 then [chr (192 + code / 64); chr (128 + code mod 64)]
  else if code <=? 65535 then
    [chr (224 + code / 4096); chr (128 + code / 64 mod 64); chr (128 + code mod 64)]
  else [chr (240 + code / 262144); chr (128 + code / 4096 mod 64);
        chr (128 + code / 64 mod 64); chr (128 + code mod 64)].
Proof.
  unfold scalar. intros H. unfold append_utf8. rewrite !land_63, !Z.shiftr_div_pow2 by lia.
  change (2 ^ 6) with 64. change (2 ^ 12) with 4096. change (2 ^ 18) with 262144.
  split_ifs; try done.
  - rewrite b_or5, b_or6 by div_mod. done.
  - rewrite b_or4, !b_or6 by div_mod. done.
  - rewrite b_or3, !b_or6 by div_mod. done.
Qed.

(** The validator's tests, as comparisons. *)
Definition utf8_step (a b c d : Z) : option nat :=
  if a <? 128 then Some 1%nat
  else if a <? 194 then None
  else if negb ((128 <=? b) && (b <? 192)) then None
  else if a <? 224 then Some 2%nat
  else if negb ((128 <=? c) && (c <? 192)) then None
  else if a <? 240 then
    if ((a =? 224) && (b <? 160)) || ((a =? 237) && (160 <=? b)) then None else Some 3%nat
  else if negb ((128 <=? d) && (d <? 192)) then None
  else if (248 <=? a) || ((a =? 240) && (b <? 144)) || (245 <=? a) || ((a =? 244) && (144 <=? b))
  then None else Some 4%nat.

(** The character an accepted round reads. *)
Definition utf8_code (a b c d : Z) : Z :=
  if a <? 128 then a
  else if a <? 224 then (a - 192) * 64 + (b - 128)
  else if a <? 240 then (a - 224) * 4096 + (b - 128) * 64 + (c - 128)
  else (a - 240) * 262144 + (b - 128) * 4096 + (c - 128) * 64 + (d - 128).

Lemma check3 a b :
  224 <= a < 240 → 128 <= b < 192 →
  (let x := Z.lor (Z.shiftl (Z.land a 15) 6) (Z.land b 32) in negb (x =? 0) && negb (x =? 864))
  = negb (((a =? 224) && (b <? 160)) || ((a =? 237) && (160 <=? b))).
Proof.
  intros Ha Hb. destruct (b_cont b) as (_ & _ & H); [lia|]. destruct (H Hb) as [-> _].
  destruct (b_payload a) as (_ & -> & _); [lia|].
  cbv zeta. rewrite lor_shift by div_mod. change (2 ^ 6) with 64.
  apply Bool.eq_iff_eq_true. div_mod.
Qed.

Lemma check4 a b :
  240 <= a < 248 → 128 <= b < 192 →
  (let t := Z.lor (Z.shiftl (Z.land a 7) 6) (Z.land b 48) in (0 <? t) && (t <? 272))
  = negb (((a =? 240) && (b <? 144)) || (245 <=? a) || ((a =? 244) && (144 <=? b))).
Proof.
  intros Ha Hb. destruct (b_cont b) as (_ & _ & H); [lia|]. destruct (H Hb) as [_ ->].
  destruct (b_payload a) as (_ & _ & -> & _); [lia|].
  cbv zeta. rewrite lor_shift by div_mod. change (2 ^ 6) with 64.
  apply Bool.eq_iff_eq_true. div_mod.
Qed.

Lemma check2 a : 192 <= a < 224 → (0 <? Z.land a 30) = negb (a <? 194).
Proof.
  intros Ha. destruct (b_payload a) as (_ & _ & _ & H); [lia|]. rewrite (H Ha).
  apply Bool.eq_iff_eq_true. div_mod.
Qed.

(** One round of the validator on a terminated string. *)
Lemma check_utf8_round a s :
  let data := a :: s ++ ["000"%char] in
  check_utf8_loop data =
  match utf8_step (char_code a) (byte_at data 1) (byte_at data 2) (byte_at data 3) with
  | Some n => check_utf8_loop (drop n data)
  | None => false
  end.
Proof.
  cbv zeta. pose proof (char_code_range a) as Ra. destruct (b_lead (char_code a) Ra) as (E1 & E2 & E3 & E4 & E5).
  unfold utf8_step, byte_at. cbn [lookup list_lookup].
  cbn [check_utf8_loop]. rewrite E1.
  destruct (Z.ltb_spec (char_code a) 128) as [H1|H1].
  { cbn [drop]. by destruct (s ++ ["000"%char]) as [|x l] eqn:Es; [destruct s|]. }
  rewrite E2 by lia. destruct (Z.ltb_spec (char_code a) 192) as [H2|H2].
  { by replace (char_code a <? 194) with true by lia. }
  destruct (s ++ ["000"%char]) as [|b l] eqn:Es; [by destruct s|]. cbn [lookup list_lookup].
  pose proof (char_code_range b) as Rb. destruct (b_cont _ Rb) as (-> & _).
  destruct ((128 <=? char_code b) && (char_code b <? 192)) eqn:Hb; cbn [negb].
  2: { by destruct (char_code a <? 194). }
  rewrite E3 by lia. destruct (Z.ltb_spec (char_code a) 224) as [H3|H3].
  { rewrite check2 by lia. by destruct (Z.ltb_spec (char_code a) 194). }
  replace (char_code a <? 194) with false by lia.
  destruct l as [|c l]; [cbn; done|]. cbn [lookup list_lookup].
  pose proof (char_code_range c) as Rc. destruct (b_cont _ Rc) as (-> & _).
  destruct ((128 <=? char_code c) && (char_code c <? 192)) eqn:Hc; cbn [negb]; [|done].
  rewrite E4 by lia. destruct (Z.ltb_spec (char_code a) 240) as [H4|H4].
  { rewrite check3 by lia. by destruct (_ || _). }
  destruct l as [|d l]; [cbn; done|]. cbn [lookup list_lookup].
  pose proof (char_code_range d) as Rd. destruct (b_cont _ Rd) as (-> & _).
  destruct ((128 <=? char_code d) && (char_code d <? 192)) eqn:Hd; cbn [negb]; [|done].
  rewrite E5 by lia. destruct (Z.ltb_spec (char_code a) 248) as [H5|H5].
  - rewrite check4 by lia. replace (248 <=? char_code a) with false by lia. by destruct (_ || _).
  - by replace (248 <=? char_code a) with true by lia.
Qed.

(** A round that succeeds reads the encoding of a scalar value. *)
Lemma utf8_step_encode a s n :
  let data := a :: s ++ ["000"%char] in
  utf8_step (char_code a) (byte_at data 1) (byte_at data 2) (byte_at data 3) = Some n →
  ∃ code s', code = utf8_code (char_code a) (byte_at data 1) (byte_at data 2) (byte_at data 3)
    ∧ scalar code = true ∧ a :: s = append_utf8 code ++ s' ∧ drop n data = s' ++ ["000"%char].
Proof.
  cbv zeta. pose proof (char_code_range a) as Ra. unfold utf8_step, utf8_code, byte_at. intros H.
  destruct (Z.ltb_spec (char_code a) 128) as [H1|H1].
  { injection H as <-. exists (char_code a), s. split; [done|].
    assert (scalar (char_code a) = true) as Hs by (unfold scalar; lia).
    rewrite append_utf8_arith by done. replace (_ <=? 127) with true by lia.
    by rewrite chr_char_code. }
  destruct (Z.ltb_spec (char_code a) 194) as [H2|H2]; [done|].
  destruct s as [|b s]; [done|]. cbn [lookup list_lookup app] in H |- *.
  pose proof (char_code_range b) as Rb.
  destruct ((128 <=? char_code b) && (char_code b <? 192)) eqn:Hb; [|done]. cbn [negb] in H.
  destruct (Z.ltb_spec (char_code a) 224) as [H3|H3].
  { injection H as <-. set (code := (char_code a - 192) * 64 + (char_code b - 128)).
    assert (scalar code = true) as Hs by (unfold scalar; lia). exists code, s.
    split; [done|].
    rewrite append_utf8_arith by done.
    replace (code <=? 127) with false by lia. replace (code <=? 2047) with true by lia.
    replace (192 + code / 64) with (char_code a) by (subst code; div_mod).
    replace (128 + code mod 64) with (char_code b) by (subst code; div_mod).
    by rewrite !chr_char_code. }
  destruct s as [|c s]; [done|]. cbn [lookup list_lookup app] in H |- *.
  pose proof (char_code_range c) as Rc.
  destruct ((128 <=? char_code c) && (char_code c <? 192)) eqn:Hc; [|done]. cbn [negb] in H.
  destruct (Z.ltb_spec (char_code a) 240) as [H4|H4].
  { destruct (_ || _) eqn:E in H; [done|]. injection H as <-.
    set (code := (char_code a - 224) * 4096 + (char_code b - 128) * 64 + (char_code c - 128)).
    assert (scalar code = true) as Hs by (unfold scalar; lia). exists code, s.
    split; [done|].
    rewrite append_utf8_arith by done.
    replace (code <=? 127) with false by lia. replace (code <=? 2047) with false by lia.
    replace (code <=? 65535) with true by lia.
    replace (224 + code / 4096) with (char_code a) by (subst code; div_mod).
    replace (128 + code / 64 mod 64) with (char_code b) by (subst code; div_mod).
    replace (128 + code mod 64) with (char_code c) by (subst code; div_mod).
    by rewrite !chr_char_code. }
  destruct s as [|d s]; [done|]. cbn [lookup list_lookup app] in H |- *.
  pose proof (char_code_range d) as Rd.
  destruct ((128 <=? char_code d) && (char_code d <? 192)) eqn:Hd; [|done]. cbn [negb] in H.
  destruct (_ || _) eqn:E in H; [done|]. injection H as <-.
  set (code := (char_code a - 240) * 262144 + (char_code b - 128) * 4096
               + (char_code c - 128) * 64 + (char_code d - 128)).
  assert (scalar code = true) as Hs by (unfold scalar; lia). exists code, s.
    split; [done|].
  rewrite append_utf8_arith by done.
  replace (code <=? 127) with false by lia. replace (code <=? 2047) with false by lia.
  replace (code <=? 65535) with false by lia.
  replace (240 + code / 262144) with (char_code a) by (subst code; div_mod).
  replace (128 + code / 4096 mod 64) with (char_code b) by (subst code; div_mod).
  replace (128 + code / 64 mod 64) with (char_code c) by (subst code; div_mod).
  replace (128 + code mod 64) with (char_code d) by (subst code; div_mod).
  by rewrite !chr_char_code.
Qed.

Ltac utf8_round :=
  match goal with |- check_utf8_loop (?x :: ?t ++ _) = _ =>
      rewrite (check_utf8_round x t)
  | |- check_utf8_loop (?x :: ?y :: ?t ++ ?e) = _ =>
      change (y :: t ++ e) with ((y :: t) ++ e); rewrite (check_utf8_round x (y :: t))
  | |- check_utf8_loop (?x :: ?y :: ?z :: ?t ++ ?e) = _ =>
      change (y :: z :: t ++ e) with ((y :: z :: t) ++ e); rewrite (check_utf8_round x (y :: z :: t))
  | |- check_utf8_loop (?x :: ?y :: ?z :: ?w :: ?t ++ ?e) = _ =>
      change (y :: z :: w :: t ++ e) with ((y :: z :: w :: t) ++ e);
      rewrite (check_utf8_round x (y :: z :: w :: t))
  end.

(** The validator steps over the encoding of a scalar value. *)
Lemma check_utf8_skip code s :
  scalar code = true →
  check_utf8_loop (append_utf8 code ++ s ++ ["000"%char]) = check_utf8_loop (s ++ ["000"%char]).
Proof.
  intros Hs. rewrite append_utf8_arith by done. pose proof Hs as Hr. unfold scalar in Hr.
  destruct (Z.leb_spec code 127); [|destruct (Z.leb_spec code 2047); [|destruct (Z.leb_spec code 65535)]];
    cbn [app].
  - utf8_round. unfold utf8_step. rewrite char_code_chr by lia.
    by replace (code <? 128) with true by lia.
  - utf8_round. unfold utf8_step, byte_at. cbn [lookup list_lookup app].
    rewrite !char_code_chr by div_mod.
    replace (_ <? 128) with false by div_mod. replace (_ <? 194) with false by div_mod.
    replace (_ && _) with true by div_mod. replace (_ <? 224) with true by div_mod. done.
  - utf8_round. unfold utf8_step, byte_at. cbn [lookup list_lookup app].
    rewrite !char_code_chr by div_mod.
    replace (_ <? 128) with false by div_mod. replace (_ <? 194) with false by div_mod.
    replace (negb _) with false by div_mod. replace (_ <? 224) with false by div_mod.
    replace (negb _) with false by div_mod. replace (_ <? 240) with true by div_mod.
    replace (_ || _) with false by div_mod. done.
  - utf8_round. unfold utf8_step, byte_at.
    cbn [lookup list_lookup app]. rewrite !char_code_chr by div_mod.
    replace (_ <? 128) with false by div_mod. replace (_ <? 194) with false by div_mod.
    replace (negb _) with false by div_mod. replace (_ <? 224) with false by div_mod.
    replace (negb _) with false by div_mod. replace (_ <? 240) with false by div_mod.
    replace (negb _) with false by div_mod. replace (_ || _) with false by div_mod. done.
Qed.

(** Plain ASCII is UTF-8. *)
Lemma check_utf8_ascii s : Forall (fun c => (char_code c <? 128) = true) s → check_utf8 s = true.
Proof.
  unfold check_utf8. induction 1 as [|c s Hc _ IH]; [done|].
  cbn [app check_utf8_loop].
  assert ((Z.land (char_code c) 128 =? 0) = true) as -> by (revert Hc; all_chars c).
  destruct (s ++ _) eqn:E; [done|]. exact IH.
Qed.

Lemma append_utf8_nonempty code : append_utf8 code ≠ [].
Proof. unfold append_utf8. by split_ifs. Qed.

Lemma check_utf8_codes s :
  check_utf8 s = true ↔ ∃ codes, Forall (fun c => scalar c = true) codes ∧ s = encode_codes codes.
Proof.
  unfold check_utf8. split.
  - induction s as [s IH] using (induction_ltof1 _ (@length ascii)); unfold ltof in IH.
    destruct s as [|a s]; [by exists []|]. cbn [app]. rewrite check_utf8_round.
    destruct (utf8_step _ _ _ _) as [n|] eqn:E; [|done].
    apply utf8_step_encode in E as (code & s' & _ & Hs & Eq & ->). intros H.
    destruct (IH s') as (codes & Hc & ->); [|done|].
    + rewrite Eq, length_app. pose proof (append_utf8_nonempty code).
      destruct (append_utf8 code); simpl; [done|lia].
    + exists (code :: codes). split; [by constructor|done].
  - intros (codes & Hc & ->). induction Hc as [|code codes Hs _ IH]; [done|].
    unfold encode_codes in *. cbn [mbind list_bind]. rewrite <- app_assoc.
    by rewrite check_utf8_skip.
Qed.

Lemma encode_codes_cons code codes : encode_codes (code :: codes) = append_utf8 code ++ encode_codes codes.
Proof. done. Qed.

Lemma encode_codes_app l k : encode_codes (l ++ k) = encode_codes l ++ encode_codes k.
Proof. unfold encode_codes. by rewrite bind_app. Qed.

(** The shape of the encoding: a first code unit and continuation bytes. *)
Lemma append_utf8_units code :
  scalar code = true →
  ∃ c t, append_utf8 code = c :: t ∧ is_utf8_character_first_code_unit c = true
    ∧ Forall (fun d => is_utf8_character_first_code_unit d = false
                       ∧ Z.land (char_code d) 248 ≠ 240) t
    ∧ (Z.land (char_code c) 248 =? 240) = (65535 <? code)
    ∧ (240 <=? char_code c) = (65535 <? code).
Proof.
  intros Hs. rewrite append_utf8_arith by done. unfold scalar in Hs.
  assert (∀ a, 0 <= a < 256 → negb (Z.land a 192 =? 128) = negb ((128 <=? a) && (a <? 192))
            ∧ (Z.land a 248 =? 240) = ((240 <=? a) && (a <? 248))) as Hb by by_exhaustion 256.
  unfold is_utf8_character_first_code_unit.
  assert (∀ x, 0 <= x < 64 → negb (Z.land (char_code (chr (128 + x))) 192 =? 128) = false
            ∧ Z.land (char_code (chr (128 + x))) 248 ≠ 240) as Hcont.
  { intros x Hx. rewrite char_code_chr by lia. destruct (Hb (128 + x)) as [-> E]; lia. }
  destruct (Z.leb_spec code 127); [|destruct (Z.leb_spec code 2047); [|destruct (Z.leb_spec code 65535)]];
    eexists _, _; (split; [reflexivity|]);
    rewrite char_code_chr by div_mod.
  - destruct (Hb code) as [-> ->]; [lia|]. split_and!; [lia|constructor|lia|lia].
  - destruct (Hb (192 + code / 64)) as [-> ->]; [div_mod|].
    split_and!; [div_mod|repeat constructor; apply Hcont; div_mod|div_mod|div_mod].
  - destruct (Hb (224 + code / 4096)) as [-> ->]; [div_mod|].
    split_and!; [div_mod|repeat constructor; apply Hcont; div_mod|div_mod|div_mod].
  - destruct (Hb (240 + code / 262144)) as [-> ->]; [div_mod|].
    split_and!; [div_mod|repeat constructor; apply Hcont; div_mod|div_mod|div_mod].
Qed.

Lemma fold_units_cont t acc :
  Forall (fun d => is_utf8_character_first_code_unit d = false ∧ Z.land (char_code d) 248 ≠ 240) t →
  foldl (fun result c => result + (Z.b2z (is_utf8_character_first_code_unit c)
                                   + Z.b2z (Z.land (char_code c) 248 =? 240))) acc t = acc.
Proof.
  intros H. revert acc. induction H as [|d t [H1 H2] _ IH]; intros acc; [done|].
  simpl. rewrite IH, H1. replace (_ =? 240) with false by lia. simpl. lia.
Qed.

Lemma utf16_length_codes codes :
  Forall (fun c => scalar c = true) codes →
  utf8_utf16_length (encode_codes codes) = sum_list_Z utf16_units codes.
Proof.
  intros H. unfold utf8_utf16_length.
  assert (∀ acc, foldl (fun result c => result + (Z.b2z (is_utf8_character_first_code_unit c)
                                   + Z.b2z (Z.land (char_code c) 248 =? 240))) acc (encode_codes codes)
                 = acc + sum_list_Z utf16_units codes) as Hg; [|apply Hg].
  induction H as [|code codes Hs _ IH]; intros acc; [simpl; lia|].
  rewrite encode_codes_cons, foldl_app.
  destruct (append_utf8_units code Hs) as (c & t & -> & Hf & Ht & H4 & _).
  cbn [foldl]. rewrite (fold_units_cont t) by done. rewrite IH, Hf, H4.
  unfold utf16_units at 2. simpl. unfold utf16_units.
  destruct (Z.ltb_spec 65535 code), (Z.leb_spec code 65535); simpl; lia.
Qed.

Lemma truncate_cont t s n :
  Forall (fun d => is_utf8_character_first_code_unit d = false ∧ Z.land (char_code d) 248 ≠ 240) t →
  utf16_truncate_loop (t ++ s) n = (length t + utf16_truncate_loop s n)%nat.
Proof.
  induction 1 as [|d t [H1 _] _ IH]; [done|]. cbn [app utf16_truncate_loop length].
  rewrite H1, IH. done.
Qed.

(** One character of the truncation loop. *)
Lemma truncate_char code s n :
  scalar code = true → 0 < n < 2 ^ 64 →
  utf16_truncate_loop (append_utf8 code ++ s) n
  = (length (append_utf8 code) + utf16_truncate_loop s (wrap 64 (n - utf16_units code)))%nat.
Proof.
  intros Hs Hn. destruct (append_utf8_units code Hs) as (c & t & -> & Hf & Ht & _ & H240).
  cbn [app utf16_truncate_loop length]. rewrite Hf, H240.
  replace (n <=? 0) with false by lia. rewrite truncate_cont by done.
  unfold utf16_units. destruct (Z.ltb_spec 65535 code), (Z.leb_spec code 65535); try lia.
  - replace (n - 1 - 1) with (n - 2) by lia. done.
  - rewrite wrap_small by lia. done.
Qed.

Lemma truncate_zero code s :
  scalar code = true → utf16_truncate_loop (append_utf8 code ++ s) 0 = 0%nat.
Proof.
  intros Hs. destruct (append_utf8_units code Hs) as (c & t & -> & Hf & _).
  cbn [app utf16_truncate_loop]. by rewrite Hf.
Qed.

Lemma utf16_units_pos code : 1 <= utf16_units code <= 2.
Proof. unfold utf16_units. destruct (_ <=? _); lia. Qed.

Lemma truncate_codes pre post :
  Forall (fun c => scalar c = true) (pre ++ post) → sum_list_Z utf16_units pre < 2 ^ 64 →
  utf16_truncate_loop (encode_codes (pre ++ post)) (sum_list_Z utf16_units pre)
  = length (encode_codes pre).
Proof.
  induction pre as [|code pre IH]; intros H Hlt.
  - destruct post as [|code post]; [done|]. apply Forall_cons in H as [Hs _].
    by apply truncate_zero.
  - apply Forall_cons in H as [Hs H]. cbn [app]. rewrite !encode_codes_cons, length_app.
    change (sum_list_Z utf16_units (code :: pre)) with (utf16_units code + sum_list_Z utf16_units pre) in *.
    pose proof (utf16_units_pos code).
    assert (0 <= sum_list_Z utf16_units pre) by (apply sum_list_Z_nonneg; intros; pose proof (utf16_units_pos x); lia).
    rewrite truncate_char by (done || lia).
    replace (utf16_units code + sum_list_Z utf16_units pre - utf16_units code)
      with (sum_list_Z utf16_units pre) by lia.
    rewrite wrap_small by lia. rewrite IH by (done || lia). done.
Qed.

(** A [length] that ends inside a surrogate pair wraps below zero, and the
    loop never stops again. *)
Lemma truncate_huge codes n :
  Forall (fun c => scalar c = true) codes → sum_list_Z utf16_units codes <= n < 2 ^ 64 →
  utf16_truncate_loop (encode_codes codes) n = length (encode_codes codes).
Proof.
  intros H. revert n. induction H as [|code codes Hs _ IH]; intros n Hn; [done|].
  change (sum_list_Z utf16_units (code :: codes)) with (utf16_units code + sum_list_Z utf16_units codes) in *.
  pose proof (utf16_units_pos code).
  assert (0 <= sum_list_Z utf16_units codes) by (apply sum_list_Z_nonneg; intros; pose proof (utf16_units_pos x); lia).
  rewrite encode_codes_cons, length_app, truncate_char by (done || lia).
  rewrite wrap_small by lia. rewrite IH by lia. done.
Qed.

Lemma truncate_pair pre code post :
  Forall (fun c => scalar c = true) (pre ++ code :: post) → 65535 < code →
  sum_list_Z utf16_units pre + utf16_units code + sum_list_Z utf16_units post < 2 ^ 64 →
  utf16_truncate_loop (encode_codes (pre ++ code :: post)) (sum_list_Z utf16_units pre + 1)
  = length (encode_codes (pre ++ code :: post)).
Proof.
  rewrite Forall_app, Forall_cons. intros (Hpre & Hs & Hpost) Hbig Hlt.
  pose proof (utf16_units_pos code).
  assert (∀ l, 0 <= sum_list_Z utf16_units l) as Hnn
    by (intros l; apply sum_list_Z_nonneg; intros x _; pose proof (utf16_units_pos x); lia).
  pose proof (Hnn post).
  induction Hpre as [|c0 pre Hc0 _ IH]; cbn [app]; rewrite !encode_codes_cons, length_app.
  - change (sum_list_Z utf16_units [] + 1) with 1. rewrite truncate_char by (done || lia).
    assert (utf16_units code = 2) as E
      by (unfold utf16_units; by replace (code <=? 65535) with false by lia).
    rewrite E. f_equal. apply truncate_huge; [done|].
    change (wrap 64 (1 - 2)) with (2 ^ 64 - 1). cbn [sum_list_Z foldr] in Hlt. lia.
  - change (sum_list_Z utf16_units (c0 :: pre)) with (utf16_units c0 + sum_list_Z utf16_units pre) in *.
    pose proof (utf16_units_pos c0). pose proof (Hnn pre).
    rewrite truncate_char by (done || lia).
    replace (utf16_units c0 + sum_list_Z utf16_units pre + 1 - utf16_units c0)
      with (sum_list_Z utf16_units pre + 1) by lia.
    rewrite wrap_small by lia. rewrite IH by lia. done.
Qed.

(** ** Properties *)

(** accepts exactly the encodings of sequences of Unicode scalar values. *)
Theorem check_utf8_spec s :
  check_utf8 s = true ↔
  ∃ codes, Forall (fun c => scalar c = true) codes ∧ s = encode_codes codes.
Proof. exact (check_utf8_codes s). Qed.

(** Truncation to a number of UTF-16 units cuts at the character boundary it names; but one unit past
    it, before a character outside the BMP, the length underflows and the whole string is kept. *)
Theorem utf16_truncate_spec pre code post :
  let codes := pre ++ code :: post in
  let units := sum_list_Z utf16_units in
  Forall (fun c => scalar c = true) codes → units codes < 2 ^ 64 →
  utf8_utf16_length (encode_codes codes) = units codes
  ∧ utf8_utf16_truncate (encode_codes codes) (units pre) = encode_codes pre
  ∧ (65535 < code → utf8_utf16_truncate (encode_codes codes) (units pre + 1) = encode_codes codes).
Proof.
  cbv zeta. intros H Hlt. pose proof H as Hall.
  rewrite Forall_app, Forall_cons in H. destruct H as (Hpre & Hs & Hpost).
  rewrite sum_list_Z_app in Hlt.
  change (sum_list_Z utf16_units (code :: post)) with (utf16_units code + sum_list_Z utf16_units post) in Hlt.
  pose proof (utf16_units_pos code).
  assert (∀ l, 0 <= sum_list_Z utf16_units l) as Hnn
    by (intros l; apply sum_list_Z_nonneg; intros x _; pose proof (utf16_units_pos x); lia).
  pose proof (Hnn pre). pose proof (Hnn post). unfold utf8_utf16_truncate. split_and!.
  - by apply utf16_length_codes.
  - rewrite truncate_codes by (done || lia). rewrite encode_codes_app. by rewrite take_app_length.
  - intros Hbig. rewrite take_ge; [done|]. rewrite truncate_pair by (done || lia). done.
Qed.

Lemma utf16_truncate_spec_witness :
  utf8_utf16_length (encode_codes [97; 128512; 98]) = 4
  ∧ utf8_utf16_truncate (encode_codes [97; 128512; 98]) 1 = encode_codes [97]
  ∧ utf8_utf16_truncate (encode_codes [97; 128512; 98]) 2 = encode_codes [97; 128512; 98].
Proof.
  destruct (utf16_truncate_spec [97] 128512 [98]) as (H1 & H2 & H3).
  - repeat constructor.
  - reflexivity.
  - split; [exact H1|]. split; [exact H2|]. apply H3. reflexivity.
Defined.
