(* ===== verification/Json.v ===== *)
(** * JSON

    td/tdutils/td/utils/JsonBuilder.{h,cpp}: the writer ([JsonString],
    [JsonRawString], [JsonValue::store] with the scopes and offsets of
    [JsonBuilder]), the parser ([json_string_decode], [do_json_decode] with its
    depth limit), the skipper ([json_string_skip], [do_json_skip]) and the
    field accessors of [JsonObject].

    The parser decodes strings in place; the model returns the decoded text,
    and [json_string_loop_shrinks] shows the writes never overtake the reads.
    Doubles are not parsed: the double accessors are not modelled.

    [do_json_decode] takes fuel, one unit per nested call and per loop round;
    [json_fuel] is always enough ([json_decode_total]). *)

From S2P Require Import Prelude Slices Integers Parser Utf8.

(** ** Writing *)

(** [JsonOneChar], for a code below 65536. *)
Definition json_one_char (c : Z) : slice :=
  ["\"%char; "u"%char; table_at hex_table_lower (Z.shiftr c 12);
   table_at hex_table_lower (Z.land (Z.shiftr c 8) 15);
   table_at hex_table_lower (Z.land (Z.shiftr c 4) 15); table_at hex_table_lower (Z.land c 15)].

Definition is_surrogate (c : Z) : bool := (55295 <? c) && (c <? 57344).

(** [JsonChar]; [None] is [UNREACHABLE]. *)
Definition json_char (c : Z) : option slice :=
  if c <? 65536 then (if is_surrogate c then None else Some (json_one_char c))
  else if c <=? 1114111 then
    Some (json_one_char (55232 + Z.shiftr c 10) ++ json_one_char (56320 + Z.land c 1023))
  else None.

(** The escapes of one character below 128. *)
Definition json_escape (ch : Z) : slice :=
  if ch =? 34 then ["\"%char; "034"%char]
  else if ch =? 92 then ["\"%char; "\"%char]
  else if ch =? 8 then ["\"%char; "b"%char]
  else if ch =? 12 then ["\"%char; "f"%char]
  else if ch =? 10 then ["\"%char; "n"%char]
  else if ch =? 13 then ["\"%char; "r"%char]
  else if ch =? 9 then ["\"%char; "t"%char]
  else if ch <=? 31 then json_one_char ch
  else [chr ch].

(** The loop of [JsonString]; the [CHECK]s abort on invalid UTF-8. *)
Fixpoint json_string_body (s : slice) : option slice :=
  match s with
  | [] => Some []
  | ch :: s1 =>
      let a := char_code ch in
      if a <? 128 then (json_escape a ++.) <$> json_string_body s1
      else if Z.land a 64 =? 0 then None
      else match s1 with
      | [] => None
      | b' :: s2 =>
          let b := char_code b' in
          if negb (Z.land b 192 =? 128) then None
          else if Z.land a 32 =? 0 then
            if 0 <? Z.land a 30 then
              out ← json_char (Z.lor (Z.shiftl (Z.land a 31) 6) (Z.land b 63));
              (out ++.) <$> json_string_body s2
            else None
          else match s2 with
          | [] => None
          | c' :: s3 =>
              let c := char_code c' in
              if negb (Z.land c 192 =? 128) then None
              else if Z.land a 16 =? 0 then
                if 0 <? Z.lor (Z.land a 15) (Z.land b 32) then
                  out ← json_char (Z.lor (Z.lor (Z.shiftl (Z.land a 15) 12)
                                            (Z.shiftl (Z.land b 63) 6)) (Z.land c 63));
                  (out ++.) <$> json_string_body s3
                else None
              else match s3 with
              | [] => None
              | d' :: s4 =>
                  let d := char_code d' in
                  if negb (Z.land d 192 =? 128) then None
                  else if Z.land a 8 =? 0 then
                    if 0 <? Z.lor (Z.land a 7) (Z.land b 48) then
                      out ← json_char (Z.lor (Z.lor (Z.lor (Z.shiftl (Z.land a 7) 18)
                                                       (Z.shiftl (Z.land b 63) 12))
                                                (Z.shiftl (Z.land c 63) 6)) (Z.land d 63));
                      (out ++.) <$> json_string_body s4
                    else None
                  else None
              end
          end
      end
  end.

Definition quoted (s : slice) : slice := ["034"%char] ++ s ++ ["034"%char].
Definition json_string (s : slice) : option slice := quoted <$> json_string_body s.

(** [JsonRawString] escapes bytes and checks nothing. *)
Definition json_raw_string (s : slice) : slice :=
  quoted (s ≫= fun ch => json_escape (char_code ch)).

Inductive JsonValue :=
| JsonNull
| JsonNumber (number : slice)
| JsonBoolean (boolean : bool)
| JsonStr (str : slice)
| JsonArray (array : list JsonValue)
| JsonObject (fields : list (slice * JsonValue)).

(** [print_offset], [inc_offset]: a negative offset is compact output. *)
Definition print_offset (offset : Z) : slice :=
  if 0 <=? offset
  then "010"%char :: replicate (3 * Z.to_nat offset) " "%char else [].
Definition inc_offset (offset : Z) : Z := if 0 <=? offset then offset + 1 else offset.

Definition join_comma (parts : list slice) : slice :=
  match parts with
  | [] => []
  | x :: parts => x ++ (parts ≫= fun y => ","%char :: y)
  end.

Definition colon (offset : Z) : slice := if 0 <=? offset then lit " : " else lit ":".

(** [JsonValue::store] through the scopes of the builder. *)
Fixpoint store (offset : Z) (v : JsonValue) : option slice :=
  match v with
  | JsonNull => Some (lit "null")
  | JsonBoolean b => Some (if b then lit "true" else lit "false")
  | JsonNumber number => Some number
  | JsonStr str => json_string str
  | JsonArray array =>
      let inner := inc_offset offset in
      parts ← mapM (fun x => (print_offset inner ++.) <$> store inner x) array;
      Some ("["%char :: join_comma parts ++ print_offset offset ++ lit "]")
  | JsonObject fields =>
      let inner := inc_offset offset in
      parts ← mapM (fun f => name ← json_string f.1;
                             value ← store inner f.2;
                             Some (print_offset inner ++ name ++ colon inner ++ value)) fields;
      Some ("{"%char :: join_comma parts ++ print_offset offset ++ lit "}")
  end.

Definition json_encode (v : JsonValue) (pretty : bool) : option slice :=
  out ← store (if pretty then 0 else -1) v;
  Some (if pretty then out ++ ["010"%char] else out).

(** ** Reading *)

Definition hex4 (a b c d : ascii) : option Z :=
  let x := hex_to_int a in let y := hex_to_int b in
  let z := hex_to_int c in let w := hex_to_int d in
  if (x =? 16) || (y =? 16) || (z =? 16) || (w =? 16) then None
  else Some (((x * 16 + y) * 16 + z) * 16 + w).

Definition err_closing {A} : result A := Err 0 (lit "Closing '" ++ ["034"%char] ++ lit "' not found").
Definition err_hex {A} : result A := Err 0 (lit "Invalid \u -- not hex digit").
Definition err_short {A} : result A := Err 0 (lit "\u has less than 4 symbols").
Definition err_opening {A} : result A := Err 0 (lit "Opening '" ++ ["034"%char] ++ lit "' expected").

Definition unescape (e : ascii) : ascii :=
  if bool_decide (e = "b"%char) then "008"%char
  else if bool_decide (e = "f"%char) then "012"%char
  else if bool_decide (e = "n"%char) then "010"%char
  else if bool_decide (e = "r"%char) then "013"%char
  else if bool_decide (e = "t"%char) then "009"%char
  else e.

(** The characters produced so far and what follows the closing quote. *)
Definition emit (out : slice) (r : result (slice * slice)) : result (slice * slice) :=
  '(text, rest) ← r; Ok (out ++ text, rest).

Fixpoint json_string_loop (src : slice) : result (slice * slice) :=
  match src with
  | [] => err_closing
  | c :: s1 =>
      if bool_decide (c = "034"%char) then Ok ([], s1)
      else if bool_decide (c = "\"%char) then
        match s1 with
        | [] => err_closing
        | e :: s2 =>
            if bool_decide (e = "u"%char) then
              match s2 with
              | h1 :: h2 :: h3 :: h4 :: s3 =>
                  match hex4 h1 h2 h3 h4 with
                  | None => err_hex
                  | Some num =>
                      let single := emit (append_utf8 num) (json_string_loop s3) in
                      if is_surrogate num then
                        match s3 with
                        | c1 :: c2 :: k1 :: k2 :: k3 :: k4 :: s4 =>
                            if bool_decide (c1 = "\"%char) && bool_decide (c2 = "u"%char) then
                              match hex4 k1 k2 k3 k4 with
                              | None => err_hex
                              | Some new_num =>
                                  if is_surrogate new_num then
                                    emit (append_utf8 (Z.lor (Z.shiftl (Z.land num 1023) 10)
                                                         (Z.land new_num 1023) + 65536))
                                      (json_string_loop s4)
                                  else single
                              end
                            else single
                        | _ => single
                        end
                      else single
                  end
              | _ => err_short
              end
            else emit [unescape e] (json_string_loop s2)
        end
      else emit [c] (json_string_loop s1)
  end.

Definition json_string_decode (p : parser) : result slice * parser :=
  let '(ok, p1) := try_skip_char "034" p in
  if negb ok then (err_opening, p1)
  else match json_string_loop (p_data p1) with
  | Ok (text, rest) => (Ok text, with_data p1 rest)
  | Err e m => (Err e m, p1)
  end.

(** [json_string_skip]: the same walk, only the rest is kept. *)
Fixpoint json_skip_loop (src : slice) : result slice :=
  match src with
  | [] => err_closing
  | c :: s1 =>
      if bool_decide (c = "034"%char) then Ok s1
      else if bool_decide (c = "\"%char) then
        match s1 with
        | [] => err_closing
        | e :: s2 =>
            if bool_decide (e = "u"%char) then
              match s2 with
              | h1 :: h2 :: h3 :: h4 :: s3 =>
                  match hex4 h1 h2 h3 h4 with
                  | None => err_hex
                  | Some num =>
                      if is_surrogate num then
                        match s3 with
                        | c1 :: c2 :: k1 :: k2 :: k3 :: k4 :: s4 =>
                            if bool_decide (c1 = "\"%char) && bool_decide (c2 = "u"%char) then
                              match hex4 k1 k2 k3 k4 with
                              | None => err_hex
                              | Some new_num =>
                                  if is_surrogate new_num then json_skip_loop s4
                                  else json_skip_loop s3
                              end
                            else json_skip_loop s3
                        | _ => json_skip_loop s3
                        end
                      else json_skip_loop s3
                  end
              | _ => err_short
              end
            else json_skip_loop s2
        end
      else json_skip_loop s1
  end.

Definition json_string_skip (p : parser) : status * parser :=
  let '(ok, p1) := try_skip_char "034" p in
  if negb ok then (err_opening, p1)
  else match json_skip_loop (p_data p1) with
  | Ok rest => (Ok tt, with_data p1 rest)
  | Err e m => (Err e m, p1)
  end.

Definition is_number_start (c : ascii) : bool := bool_decide (c ∈ lit "-+.0123456789").
Definition is_number_char (c : ascii) : bool :=
  bool_decide (c = "-"%char) || is_digit c || bool_decide (c = "e"%char)
  || bool_decide (c = "E"%char) || bool_decide (c = "+"%char) || bool_decide (c = "."%char).

Definition err_depth {A} : result A := Err 0 (lit "Too big object depth").
Definition err_end {A} : result A := Err 0 (lit "Unexpected string end").
Definition err_symbol {A} (next : ascii) : result A :=
  if (0 <? char_code next) && (char_code next <? 127)
  then Err 0 (lit "Unexpected symbol '" ++ [next] ++ lit "'")
  else Err 0 (lit "Unexpected symbol").

(** A keyword token, or the error for its first letter. *)
Definition json_keyword {A} (word : slice) (v : A) (msg : slice) (p : parser) : result A * parser :=
  let '(ok, p') := try_skip word p in
  (if ok then Ok v else Err 0 msg, p').

Fixpoint do_json_decode (fuel : nat) (p : parser) (max_depth : Z) {struct fuel} :
    option (result JsonValue * parser) :=
  match fuel with
  | O => None
  | S fuel =>
      if max_depth <? 0 then Some (err_depth, p)
      else
      let p := skip_whitespaces p in
      let next := peek_char p in
      if bool_decide (next = "f"%char) then
        Some (json_keyword (lit "false") (JsonBoolean false)
                (lit "Token starts with 'f' -- false expected") p)
      else if bool_decide (next = "t"%char) then
        Some (json_keyword (lit "true") (JsonBoolean true)
                (lit "Token starts with 't' -- true expected") p)
      else if bool_decide (next = "n"%char) then
        Some (json_keyword (lit "null") JsonNull
                (lit "Token starts with 'n' -- null expected") p)
      else if bool_decide (next = "034"%char) then
        Some (let '(r, p') := json_string_decode p in (JsonStr <$> r, p'))
      else if bool_decide (next = "["%char) then
        let p := skip_whitespaces (skip "[" p) in
        let '(closed, p) := try_skip_char "]" p in
        if closed then Some (Ok (JsonArray []), p)
        else
          '(r, p') ← json_decode_array fuel p (max_depth - 1) [];
          Some (match r with Ok l => Ok (JsonArray l) | Err e m => Err e m end, p')
      else if bool_decide (next = "{"%char) then
        let p := skip_whitespaces (skip "{" p) in
        let '(closed, p) := try_skip_char "}" p in
        if closed then Some (Ok (JsonObject []), p)
        else
          '(r, p') ← json_decode_object fuel p (max_depth - 1) [];
          Some (match r with Ok l => Ok (JsonObject l) | Err e m => Err e m end, p')
      else if is_number_start next then
        let '(num, p') := read_while is_number_char p in
        Some (Ok (JsonNumber num), p')
      else if bool_decide (next = "000"%char) then Some (err_end, p)
      else Some (err_symbol next, p)
  end
with json_decode_array (fuel : nat) (p : parser) (max_depth : Z) (res : list JsonValue)
    {struct fuel} : option (result (list JsonValue) * parser) :=
  match fuel with
  | O => None
  | S fuel =>
      if p_empty p then Some (err_end, p)
      else
      '(r, p) ← do_json_decode fuel p max_depth;
      match r with
      | Err e m => Some (Err e m, p)
      | Ok value =>
          let res := res ++ [value] in
          let '(closed, p) := try_skip_char "]" (skip_whitespaces p) in
          if closed then Some (Ok res, p)
          else
          let '(comma, p) := try_skip_char "," p in
          if comma then json_decode_array fuel (skip_whitespaces p) max_depth res
          else if p_empty p then Some (err_end, p)
          else Some (Err 0 (lit "Unexpected symbol while parsing JSON Array"), p)
      end
  end
with json_decode_object (fuel : nat) (p : parser) (max_depth : Z)
    (field_values : list (slice * JsonValue)) {struct fuel} :
    option (result (list (slice * JsonValue)) * parser) :=
  match fuel with
  | O => None
  | S fuel =>
      if p_empty p then Some (err_end, p)
      else
      let '(r_field, p) := json_string_decode p in
      match r_field with
      | Err e m => Some (Err e m, p)
      | Ok field =>
          let '(ok, p) := try_skip_char ":" (skip_whitespaces p) in
          if negb ok then Some (Err 0 (lit "':' expected"), p)
          else
          '(r, p) ← do_json_decode fuel p max_depth;
          match r with
          | Err e m => Some (Err e m, p)
          | Ok value =>
              let field_values := field_values ++ [(field, value)] in
              let '(closed, p) := try_skip_char "}" (skip_whitespaces p) in
              if closed then Some (Ok field_values, p)
              else
              let '(comma, p) := try_skip_char "," p in
              if comma then json_decode_object fuel (skip_whitespaces p) max_depth field_values
              else if p_empty p then Some (err_end, p)
              else Some (Err 0 (lit "Unexpected symbol while parsing JSON Object"), p)
          end
      end
  end.

Definition err_unexpected_end {A} : result A := Err 0 (lit "Unexpected end").

Fixpoint do_json_skip (fuel : nat) (p : parser) (max_depth : Z) {struct fuel} :
    option (status * parser) :=
  match fuel with
  | O => None
  | S fuel =>
      if max_depth <? 0 then Some (err_depth, p)
      else
      let p := skip_whitespaces p in
      let next := peek_char p in
      if bool_decide (next = "f"%char) then
        Some (json_keyword (lit "false") tt (lit "Starts with 'f' -- false expected") p)
      else if bool_decide (next = "t"%char) then
        Some (json_keyword (lit "true") tt (lit "Starts with 't' -- true expected") p)
      else if bool_decide (next = "n"%char) then
        Some (json_keyword (lit "null") tt (lit "Starts with 'n' -- null expected") p)
      else if bool_decide (next = "034"%char) then Some (json_string_skip p)
      else if bool_decide (next = "["%char) then
        let p := skip_whitespaces (skip "[" p) in
        let '(closed, p) := try_skip_char "]" p in
        if closed then Some (Ok tt, p) else json_skip_array fuel p (max_depth - 1)
      else if bool_decide (next = "{"%char) then
        let p := skip_whitespaces (skip "{" p) in
        let '(closed, p) := try_skip_char "}" p in
        if closed then Some (Ok tt, p) else json_skip_object fuel p (max_depth - 1)
      else if is_number_start next then
        Some (Ok tt, (read_while is_number_char p).2)
      else if bool_decide (next = "000"%char) then Some (err_unexpected_end, p)
      else Some (err_symbol next, p)
  end
with json_skip_array (fuel : nat) (p : parser) (max_depth : Z) {struct fuel} :
    option (status * parser) :=
  match fuel with
  | O => None
  | S fuel =>
      if p_empty p then Some (err_unexpected_end, p)
      else
      '(r, p) ← do_json_skip fuel p max_depth;
      match r with
      | Err e m => Some (Err e m, p)
      | Ok _ =>
          let '(closed, p) := try_skip_char "]" (skip_whitespaces p) in
          if closed then Some (Ok tt, p)
          else
          let '(comma, p) := try_skip_char "," p in
          if comma then json_skip_array fuel (skip_whitespaces p) max_depth
          else Some (Err 0 (lit "Unexpected symbol"), p)
      end
  end
with json_skip_object (fuel : nat) (p : parser) (max_depth : Z) {struct fuel} :
    option (status * parser) :=
  match fuel with
  | O => None
  | S fuel =>
      if p_empty p then Some (err_unexpected_end, p)
      else
      let '(r_field, p) := json_string_skip p in
      match r_field with
      | Err e m => Some (Err e m, p)
      | Ok _ =>
          let '(ok, p) := try_skip_char ":" (skip_whitespaces p) in
          if negb ok then Some (Err 0 (lit "':' expected"), p)
          else
          '(r, p) ← do_json_skip fuel p max_depth;
          match r with
          | Err e m => Some (Err e m, p)
          | Ok _ =>
              let '(closed, p) := try_skip_char "}" (skip_whitespaces p) in
              if closed then Some (Ok tt, p)
              else
              let '(comma, p) := try_skip_char "," p in
              if comma then json_skip_object fuel (skip_whitespaces p) max_depth
              else Some (Err 0 (lit "Unexpected symbol"), p)
          end
      end
  end.

(** Two units of fuel for every byte: a call and a loop round. *)
Definition json_fuel (p : parser) : nat := 2 * length (p_data p) + 1.

Definition json_decode (json : slice) : option (result JsonValue) :=
  let p := new_parser json in
  '(r, p') ← do_json_decode (json_fuel p) p 100;
  Some (match r with
        | Ok _ => if negb (p_empty (skip_whitespaces p')) then Err 0 (lit "Expected string end") else r
        | Err _ _ => r
        end).

(** ** JsonObject *)

Inductive JsonValueType := TNull | TNumber | TBoolean | TString | TArray | TObject.
#[export] Instance JsonValueType_eq_dec : EqDecision JsonValueType.
Proof. solve_decision. Defined.

Definition json_type (v : JsonValue) : JsonValueType :=
  match v with
  | JsonNull => TNull | JsonNumber _ => TNumber | JsonBoolean _ => TBoolean
  | JsonStr _ => TString | JsonArray _ => TArray | JsonObject _ => TObject
  end.

Definition get_type_name (t : JsonValueType) : slice :=
  match t with
  | TNull => lit "Null" | TNumber => lit "Number" | TBoolean => lit "Boolean"
  | TString => lit "String" | TArray => lit "Array" | TObject => lit "Object"
  end.

Fixpoint get_field (fields : list (slice * JsonValue)) (name : slice) : option JsonValue :=
  match fields with
  | [] => None
  | (f, v) :: fields => if bool_decide (f = name) then Some v else get_field fields name
  end.
Definition has_field (fields : list (slice * JsonValue)) (name : slice) : bool :=
  match get_field fields name with Some _ => true | None => false end.

Definition q : slice := ["034"%char].
Definition err_type {A} (name what : slice) : result A :=
  Err 400 (lit "Field " ++ q ++ name ++ q ++ lit " must be " ++ what).
Definition err_missing {A} (name : slice) : result A :=
  Err 400 (lit "Can't find field " ++ q ++ name ++ q).

(** [extract_optional_field] and [extract_required_field] return the value and
    the fields with the extracted value moved out, which leaves a Null. *)
Fixpoint move_out (fields : list (slice * JsonValue)) (name : slice) : list (slice * JsonValue) :=
  match fields with
  | [] => []
  | (f, v) :: fields =>
      if bool_decide (f = name) then (f, JsonNull) :: fields else (f, v) :: move_out fields name
  end.
Definition extract_field (fields : list (slice * JsonValue)) (name : slice) :
    JsonValue * list (slice * JsonValue) :=
  match get_field fields name with
  | Some v => (v, move_out fields name)
  | None => (JsonNull, fields)
  end.
Definition extract_checked (fields : list (slice * JsonValue)) (name : slice) (type : JsonValueType)
    (missing : result JsonValue) : result JsonValue * list (slice * JsonValue) :=
  match get_field fields name with
  | Some v =>
      if negb (bool_decide (type = TNull)) && negb (bool_decide (json_type v = type))
      then (err_type name (lit "of type " ++ get_type_name type), fields)
      else (Ok v, move_out fields name)
  | None => (missing, fields)
  end.
Definition extract_optional_field fields name type := extract_checked fields name type (Ok JsonNull).
Definition extract_required_field fields name type := extract_checked fields name type (err_missing name).

(** The typed accessors: a reader of one value and the result for no field. *)
Definition read_bool (name : slice) (v : JsonValue) : result bool :=
  match v with JsonBoolean b => Ok b | _ => err_type name (lit "of type Boolean") end.
Definition get_integer_field (w : Z) (name value : slice) : result Z :=
  match to_integer_safe w value with
  | Ok n => Ok n
  | Err _ _ => err_type name (lit "a valid Number")
  end.
Definition read_integer (w : Z) (name : slice) (v : JsonValue) : result Z :=
  match v with
  | JsonStr s => get_integer_field w name s
  | JsonNumber s => get_integer_field w name s
  | _ => err_type name (lit "a Number")
  end.
Definition read_string (name : slice) (v : JsonValue) : result slice :=
  match v with
  | JsonStr s => Ok s | JsonNumber s => Ok s
  | _ => err_type name (lit "of type String")
  end.
Definition get_field_as {A} (fields : list (slice * JsonValue)) (name : slice)
    (read : slice → JsonValue → result A) (missing : result A) : result A :=
  match get_field fields name with Some v => read name v | None => missing end.

Definition get_optional_bool_field fields name default_value :=
  get_field_as fields name read_bool (Ok default_value).
Definition get_required_bool_field fields name :=
  get_field_as fields name read_bool (err_missing name).
Definition get_optional_int_field fields name default_value :=
  get_field_as fields name (read_integer 32) (Ok default_value).
Definition get_required_int_field fields name :=
  get_field_as fields name (read_integer 32) (err_missing name).
Definition get_optional_long_field fields name default_value :=
  get_field_as fields name (read_integer 64) (Ok default_value).
Definition get_required_long_field fields name :=
  get_field_as fields name (read_integer 64) (err_missing name).
Definition get_optional_string_field fields name default_value :=
  get_field_as fields name read_string (Ok default_value).
Definition get_required_string_field fields name :=
  get_field_as fields name read_string (err_missing name).

(** ** Specification *)

(** Nesting depth, the text a number may have, and the values whose strings
    are valid UTF-8. *)
Fixpoint json_depth (v : JsonValue) : Z :=
  match v with
  | JsonArray array => foldr Z.max 0 (map (fun x => 1 + json_depth x) array)
  | JsonObject fields => foldr Z.max 0 (map (fun f => 1 + json_depth f.2) fields)
  | _ => 0
  end.

Definition number_ok (s : slice) : bool :=
  match s with [] => false | c :: _ => is_number_start c && forallb is_number_char s end.

Fixpoint json_ok (v : JsonValue) : bool :=
  match v with
  | JsonNumber number => number_ok number
  | JsonStr str => check_utf8 str
  | JsonArray array => forallb json_ok array
  | JsonObject fields => forallb (fun f => check_utf8 f.1 && json_ok f.2) fields
  | _ => true
  end.

(** What may follow a value: a number is not continued. *)
Definition number_stop (rest : slice) : Prop :=
  match rest with [] => True | c :: _ => is_number_char c = false end.

(** ** Strings *)

Lemma hex_table k : 0 <= k < 16 → hex_to_int (table_at hex_table_lower k) = k.
Proof. revert k. by_exhaustion 16. Qed.

Lemma hex4_one_char c :
  0 <= c < 65536 →
  ∃ h1 h2 h3 h4, json_one_char c = ["\"%char; "u"%char; h1; h2; h3; h4] ∧ hex4 h1 h2 h3 h4 = Some c.
Proof.
  intros H. unfold json_one_char. do 4 eexists. split; [reflexivity|].
  unfold hex4. change 15 with (Z.ones 4). rewrite !Z.land_ones, !Z.shiftr_div_pow2 by lia.
  change (2 ^ 12) with 4096. change (2 ^ 8) with 256. change (2 ^ 4) with 16.
  rewrite !hex_table by div_mod.
  replace (_ || _) with false by div_mod. f_equal. div_mod.
Qed.

Lemma emit_nil r : emit [] r = r.
Proof. unfold emit. by destruct r as [[]|]. Qed.

Lemma emit_emit a b r : emit a (emit b r) = emit (a ++ b) r.
Proof. unfold emit. destruct r as [[]|]; [|done]. simpl. by rewrite app_assoc. Qed.

Lemma scalar_not_surrogate c : scalar c = true → is_surrogate c = false.
Proof. unfold scalar, is_surrogate. lia. Qed.

Lemma loop_one_char c s :
  0 <= c < 65536 → is_surrogate c = false →
  json_string_loop (json_one_char c ++ s) = emit (append_utf8 c) (json_string_loop s).
Proof.
  intros Hc Hs. destruct (hex4_one_char c Hc) as (h1 & h2 & h3 & h4 & -> & Eh).
  cbn [app json_string_loop]. ascii_decide.
  by rewrite Eh, Hs.
Qed.

Lemma loop_pair c s :
  65536 <= c <= 1114111 →
  json_string_loop (json_one_char (55232 + Z.shiftr c 10) ++ json_one_char (56320 + Z.land c 1023) ++ s)
  = emit (append_utf8 c) (json_string_loop s).
Proof.
  intros Hc. change 1023 with (Z.ones 10). rewrite Z.land_ones, Z.shiftr_div_pow2 by lia.
  change (2 ^ 10) with 1024.
  destruct (hex4_one_char (55232 + c / 1024)) as (h1 & h2 & h3 & h4 & -> & E1); [div_mod|].
  destruct (hex4_one_char (56320 + c mod 1024)) as (k1 & k2 & k3 & k4 & -> & E2); [div_mod|].
  cbn [app json_string_loop]. ascii_decide.
  rewrite E1, E2.
  replace (is_surrogate (55232 + c / 1024)) with true by (unfold is_surrogate; div_mod).
  replace (is_surrogate (56320 + c mod 1024)) with true by (unfold is_surrogate; div_mod).
  f_equal. f_equal. change 1023 with (Z.ones 10). rewrite !Z.land_ones by lia.
  rewrite lor_shift by (change (2 ^ 10) with 1024; div_mod).
  change (2 ^ 10) with 1024. div_mod.
Qed.

Lemma loop_escape c s :
  0 <= c < 128 → json_string_loop (json_escape c ++ s) = emit (append_utf8 c) (json_string_loop s).
Proof.
  intros Hc. assert (append_utf8 c = [chr c]) as Ea
    by (unfold append_utf8; by replace (c <=? 127) with true by lia).
  unfold json_escape.
  destruct (Z.eqb_spec c 34) as [->|]; [done|]. destruct (Z.eqb_spec c 92) as [->|]; [done|].
  destruct (Z.eqb_spec c 8) as [->|]; [done|]. destruct (Z.eqb_spec c 12) as [->|]; [done|].
  destruct (Z.eqb_spec c 10) as [->|]; [done|]. destruct (Z.eqb_spec c 13) as [->|]; [done|].
  destruct (Z.eqb_spec c 9) as [->|]; [done|].
  destruct (Z.leb_spec c 31).
  - apply loop_one_char; [lia|]. unfold is_surrogate. lia.
  - rewrite Ea. cbn [app json_string_loop]. rewrite !bool_decide_false; [done| |];
      intros E; apply (f_equal char_code) in E; rewrite char_code_chr in E by lia;
      vm_compute in E; congruence.
Qed.

(** What the writer outputs for one character. *)
Definition json_out (code : Z) : option slice :=
  if code <? 128 then Some (json_escape code) else json_char code.

Lemma json_out_loop code out s :
  scalar code = true → json_out code = Some out →
  json_string_loop (out ++ s) = emit (append_utf8 code) (json_string_loop s).
Proof.
  intros Hs. unfold json_out, json_char. rewrite (scalar_not_surrogate _ Hs).
  pose proof Hs as Hr. unfold scalar in Hr.
  destruct (Z.ltb_spec code 128); [intros [= <-]; apply loop_escape; lia|].
  destruct (Z.ltb_spec code 65536).
  - intros [= <-]. apply loop_one_char; [lia|by apply scalar_not_surrogate].
  - destruct (Z.leb_spec code 1114111); [|done]. intros [= <-].
    apply (loop_pair code s). lia.
Qed.

Lemma json_out_total code : scalar code = true → is_Some (json_out code).
Proof.
  intros Hs. unfold json_out, json_char. rewrite (scalar_not_surrogate _ Hs).
  unfold scalar in Hs. split_ifs; try by eexists. lia.
Qed.

Lemma payload2 a b :
  192 <= a < 224 → 128 <= b < 192 →
  Z.lor (Z.shiftl (Z.land a 31) 6) (Z.land b 63) = (a - 192) * 64 + (b - 128).
Proof.
  intros. destruct (b_payload a) as (-> & _); [lia|]. rewrite land_63.
  rewrite lor_shift by (change (2 ^ 6) with 64; div_mod). change (2 ^ 6) with 64. div_mod.
Qed.

Lemma payload3 a b c :
  224 <= a < 240 → 128 <= b < 192 → 128 <= c < 192 →
  Z.lor (Z.lor (Z.shiftl (Z.land a 15) 12) (Z.shiftl (Z.land b 63) 6)) (Z.land c 63)
  = (a - 224) * 4096 + (b - 128) * 64 + (c - 128).
Proof.
  intros. destruct (b_payload a) as (_ & -> & _); [lia|]. rewrite !land_63.
  rewrite <- Z.lor_assoc. rewrite (lor_shift _ 6) by (change (2 ^ 6) with 64; div_mod).
  change (2 ^ 6) with 64. rewrite lor_shift by (change (2 ^ 12) with 4096; div_mod).
  change (2 ^ 12) with 4096. div_mod.
Qed.

Lemma payload4 a b c d :
  240 <= a < 248 → 128 <= b < 192 → 128 <= c < 192 → 128 <= d < 192 →
  Z.lor (Z.lor (Z.lor (Z.shiftl (Z.land a 7) 18) (Z.shiftl (Z.land b 63) 12))
           (Z.shiftl (Z.land c 63) 6)) (Z.land d 63)
  = (a - 240) * 262144 + (b - 128) * 4096 + (c - 128) * 64 + (d - 128).
Proof.
  intros. destruct (b_payload a) as (_ & _ & -> & _); [lia|]. rewrite !land_63.
  rewrite <- !Z.lor_assoc. rewrite (lor_shift _ 6) by (change (2 ^ 6) with 64; div_mod).
  change (2 ^ 6) with 64. rewrite (lor_shift _ 12) by (change (2 ^ 12) with 4096; div_mod).
  change (2 ^ 12) with 4096. rewrite lor_shift by (change (2 ^ 18) with 262144; div_mod).
  change (2 ^ 18) with 262144. div_mod.
Qed.

(** A continuation byte, or nothing, at the end of a terminated string. *)
Lemma byte_at_snoc s i : byte_at (s ++ ["000"%char]) i = byte_at s i.
Proof.
  unfold byte_at. destruct (decide (i < length s)%nat).
  - by rewrite lookup_app_l.
  - rewrite lookup_app_r by lia. rewrite (lookup_ge_None_2 s) by lia.
    destruct (i - length s)%nat as [|[|k]]; done.
Qed.

Lemma lor_pos x y : 0 <= x → 0 <= y → (0 <? Z.lor x y) = negb ((x =? 0) && (y =? 0)).
Proof.
  intros Hx Hy. pose proof (Z.lor_eq_0_iff x y). pose proof (proj2 (Z.lor_nonneg x y) (conj Hx Hy)).
  destruct (Z.ltb_spec 0 (Z.lor x y)), (Z.eqb_spec x 0), (Z.eqb_spec y 0); simpl; try done; lia.
Qed.

(** One round of the writer: it aborts exactly where the validator rejects,
    except for surrogates and codes above U+10FFFF, which [JsonChar] refuses. *)
Lemma json_body_round a s :
  let data := a :: s in
  let b := byte_at data 1 in let c := byte_at data 2 in let d := byte_at data 3 in
  json_string_body data =
  match utf8_step (char_code a) b c d with
  | Some n =>
      out ← json_out (utf8_code (char_code a) b c d);
      (out ++.) <$> json_string_body (drop n data)
  | None => None
  end.
Proof.
  cbv zeta. pose proof (char_code_range a) as Ra.
  destruct (b_lead (char_code a) Ra) as (E1 & E2 & E3 & E4 & E5).
  unfold utf8_step, utf8_code, byte_at, json_out. cbn [lookup list_lookup].
  cbn [json_string_body].
  destruct (Z.ltb_spec (char_code a) 128) as [H1|H1].
  { by replace (char_code a <? 128) with true by lia. }
  rewrite E2 by lia. destruct (Z.ltb_spec (char_code a) 192) as [H2|H2].
  { by replace (char_code a <? 194) with true by lia. }
  destruct s as [|b l]; [by destruct (_ <? 194)|]. cbn [lookup list_lookup].
  pose proof (char_code_range b) as Rb. destruct (b_cont _ Rb) as (-> & _ & Hb32).
  destruct ((128 <=? char_code b) && (char_code b <? 192)) eqn:Hb; cbn [negb].
  2: { by destruct (_ <? 194). }
  destruct Hb32 as [Hb32 Hb48]; [lia|].
  rewrite E3 by lia. destruct (Z.ltb_spec (char_code a) 224) as [H3|H3].
  { rewrite check2 by lia. destruct (Z.ltb_spec (char_code a) 194); [done|]. cbn [negb].
    rewrite payload2 by lia. by replace (_ <? 128) with false by lia. }
  replace (char_code a <? 194) with false by lia.
  destruct l as [|c l]; [done|]. cbn [lookup list_lookup].
  pose proof (char_code_range c) as Rc. destruct (b_cont _ Rc) as (-> & _).
  destruct ((128 <=? char_code c) && (char_code c <? 192)) eqn:Hc; cbn [negb]; [|done].
  rewrite E4 by lia. destruct (b_payload _ Ra) as (_ & P15 & P7 & _).
  destruct (Z.ltb_spec (char_code a) 240) as [H4|H4].
  { rewrite payload3 by lia. rewrite lor_pos by (rewrite ?P15, ?Hb32; div_mod).
    rewrite P15, Hb32. unfold json_char, is_surrogate.
    destruct ((char_code a =? 224) && (char_code b <? 160)) eqn:Eo; cbn [orb].
    { by replace (negb _) with false by div_mod. }
    replace (negb _) with true by div_mod. replace (_ <? 65536) with true by lia.
    destruct ((char_code a =? 237) && (160 <=? char_code b)) eqn:Es.
    - by replace (_ && _) with true by lia.
    - replace (_ && _) with false by lia. by replace (_ <? 128) with false by lia. }
  destruct l as [|d l]; [done|]. cbn [lookup list_lookup].
  pose proof (char_code_range d) as Rd. destruct (b_cont _ Rd) as (-> & _).
  destruct ((128 <=? char_code d) && (char_code d <? 192)) eqn:Hd; cbn [negb]; [|done].
  rewrite E5 by lia. destruct (Z.ltb_spec (char_code a) 248) as [H5|H5].
  2: { by replace (248 <=? char_code a) with true by lia. }
  replace (248 <=? char_code a) with false by lia. cbn [orb].
  rewrite payload4 by lia. rewrite lor_pos by (rewrite ?P7, ?Hb48; div_mod).
  rewrite P7, Hb48. unfold json_char.
  destruct ((char_code a =? 240) && (char_code b <? 144)) eqn:Eo; cbn [orb].
  { by replace (negb _) with false by div_mod. }
  replace (negb _) with true by div_mod. replace (_ <? 65536) with false by lia.
  destruct ((245 <=? char_code a) || (char_code a =? 244) && (144 <=? char_code b)) eqn:Es.
  - by replace (_ <=? 1114111) with false by lia.
  - replace (_ <=? 1114111) with true by lia. by replace (_ <? 128) with false by lia.
Qed.

(** The writer accepts valid UTF-8 only, and the reader undoes it. *)
Lemma json_string_body_spec s :
  (check_utf8 s = true →
    ∃ out, json_string_body s = Some out
           ∧ ∀ rest, json_string_loop (out ++ "034"%char :: rest) = Ok (s, rest))
  ∧ (check_utf8 s = false → json_string_body s = None).
Proof.
  unfold check_utf8.
  induction s as [s IH] using (induction_ltof1 _ (@length ascii)); unfold ltof in IH.
  destruct s as [|a s]; [split; [intros _; exists []; by split|done]|].
  cbn [app]. rewrite check_utf8_round, json_body_round.
  pose proof (utf8_step_encode a s) as Henc. cbv zeta in Henc.
  rewrite !(byte_at_snoc (a :: s)) in Henc |- *.
  destruct (utf8_step _ _ _ _) as [n|]; [|done].
  destruct (Henc n eq_refl) as (code & s' & -> & Hs & Eq & Ed). clear Henc.
  set (code := utf8_code _ _ _ _) in *.
  assert (drop n (a :: s) = s') as ->.
  { assert (n <= length (a :: s))%nat as Hn.
    { apply (f_equal length) in Ed as El. apply (f_equal length) in Eq.
      rewrite length_drop, length_app in El. cbn [length] in El. rewrite length_app in El, Eq.
      cbn [length] in *. lia. }
    change (a :: s ++ ["000"%char]) with ((a :: s) ++ ["000"%char]) in Ed.
    rewrite drop_app_le in Ed by done. by apply app_inj_tail in Ed as [-> _]. }
  rewrite Ed. assert (length s' < length (a :: s))%nat as Hlt.
  { rewrite Eq, length_app. pose proof (append_utf8_nonempty code).
    destruct (append_utf8 code); simpl; [done|lia]. }
  destruct (IH s' Hlt) as [IH1 IH2]. destruct (json_out_total _ Hs) as [out Ho]. rewrite Ho. cbn [mbind option_bind].
  split.
  - intros H. destruct (IH1 H) as (out' & -> & Hloop). exists (out ++ out'). split; [done|].
    intros rest. rewrite <- app_assoc. rewrite (json_out_loop code) by done.
    rewrite Hloop. unfold emit. simpl. by rewrite Eq.
  - intros H. by rewrite (IH2 H).
Qed.

(** In-place decoding: what is written is shorter than what was read. *)
Lemma append_utf8_length code : (length (append_utf8 code) <= 4)%nat ∧
  (code <= 65535 → (length (append_utf8 code) <= 3)%nat).
Proof. unfold append_utf8. split_ifs; simpl; lia. Qed.

Lemma hex4_range a b c d n : hex4 a b c d = Some n → 0 <= n < 65536.
Proof.
  unfold hex4. pose proof (hex_to_int_range a). pose proof (hex_to_int_range b).
  pose proof (hex_to_int_range c). pose proof (hex_to_int_range d).
  destruct (_ || _) eqn:E; [done|]. intros [= <-]. lia.
Qed.

Lemma emit_ok out r text rest :
  emit out r = Ok (text, rest) → ∃ t, r = Ok (t, rest) ∧ text = out ++ t.
Proof. unfold emit. destruct r as [[t r]|]; simpl; [|done]. intros [= <- <-]. by eexists. Qed.

Lemma json_string_loop_shrinks src text rest :
  json_string_loop src = Ok (text, rest) →
  (length text + 1 + length rest <= length src)%nat ∧ rest `suffix_of` src.
Proof.
  revert text rest. induction src as [src IH] using (induction_ltof1 _ (@length ascii)); unfold ltof in IH.
  assert (∀ out s' text rest, (length s' < length src)%nat → s' `suffix_of` src →
    (length out + length s' <= length src)%nat → emit out (json_string_loop s') = Ok (text, rest) →
    (length text + 1 + length rest <= length src)%nat ∧ rest `suffix_of` src) as Hstep.
  { intros out s' text rest Hlt Hsuf Hout He. apply emit_ok in He as (t & He & ->).
    apply IH in He as [H1 H2]; [|done]. rewrite length_app. split; [lia|by etrans]. }
  intros text rest. destruct src as [|c s1]; [done|]. cbn [json_string_loop].
  case_bool_decide; [intros [= <- <-]; split; [simpl; lia|apply suffix_cons_r; done]|].
  case_bool_decide; [|apply Hstep; simpl; [lia|by apply suffix_cons_r|lia]].
  destruct s1 as [|e s2]; [done|].
  case_bool_decide; [|apply Hstep; simpl; [lia|by do 2 apply suffix_cons_r|lia]].
  destruct s2 as [|h1 [|h2 [|h3 [|h4 s3]]]]; try done.
  destruct (hex4 h1 h2 h3 h4) as [num|] eqn:E1; [|done]. apply hex4_range in E1.
  assert (emit (append_utf8 num) (json_string_loop s3) = Ok (text, rest) →
    (length text + 1 + length rest <= length (c :: e :: h1 :: h2 :: h3 :: h4 :: s3))%nat
    ∧ rest `suffix_of` (c :: e :: h1 :: h2 :: h3 :: h4 :: s3)) as Hsingle.
  { pose proof (append_utf8_length num). apply Hstep; simpl; [lia|by do 6 apply suffix_cons_r|lia]. }
  destruct (is_surrogate num); [|done].
  destruct s3 as [|c1 [|c2 [|k1 [|k2 [|k3 [|k4 s4]]]]]]; try done.
  destruct (_ && _); [|done]. destruct (hex4 k1 k2 k3 k4) as [nn|]; [|done].
  destruct (is_surrogate nn); [|done].
  set (code := Z.lor _ _ + _). pose proof (append_utf8_length code).
  apply Hstep; simpl; [lia|by do 12 apply suffix_cons_r|lia].
Qed.

(** Skipping is decoding without the text. *)
Lemma json_skip_loop_decode src :
  json_skip_loop src = match json_string_loop src with Ok (_, rest) => Ok rest | Err e m => Err e m end.
Proof.
  assert (∀ out r, match emit out r with Ok (_, rest) => Ok rest | Err e m => Err e m end
                   = match r with Ok (_, rest) => Ok rest | Err e m => Err (A := slice) e m end) as He
    by (intros out [[]|]; done).
  induction src as [src IH] using (induction_ltof1 _ (@length ascii)); unfold ltof in IH.
  destruct src as [|c s1]; [done|]. cbn [json_string_loop json_skip_loop].
  case_bool_decide; [done|].
  case_bool_decide; [|rewrite He; apply IH; simpl; lia].
  destruct s1 as [|e s2]; [done|].
  case_bool_decide; [|rewrite He; apply IH; simpl; lia].
  destruct s2 as [|h1 [|h2 [|h3 [|h4 s3]]]]; try done.
  destruct (hex4 h1 h2 h3 h4) as [num|]; [|done].
  destruct (is_surrogate num); [|rewrite He; apply IH; simpl; lia].
  destruct s3 as [|c1 [|c2 [|k1 [|k2 [|k3 [|k4 s4]]]]]]; try (rewrite He; apply IH; simpl; lia).
  destruct (_ && _); [|rewrite He; apply IH; simpl; lia].
  destruct (hex4 k1 k2 k3 k4) as [nn|]; [|done].
  destruct (is_surrogate nn); rewrite He; apply IH; simpl; lia.
Qed.

(** ** Termination *)

Definition plen (p : parser) : nat := length (p_data p).

(** A parser that moved right from [p], by at least [n] characters. *)
Definition moved (n : nat) (p p' : parser) : Prop :=
  p_status p' = p_status p ∧ (plen p' + n <= plen p)%nat.

Lemma moved_trans n m p1 p2 p3 : moved n p1 p2 → moved m p2 p3 → moved (n + m) p1 p3.
Proof. unfold moved. intros [-> H1] [-> H2]. split; [done|lia]. Qed.

Lemma drop_while_length {A} (f : A → bool) l : (length (drop_while f l) <= length l)%nat.
Proof. apply suffix_length. apply drop_while_suffix. Qed.

Lemma skip_whitespaces_moved p : moved 0 p (skip_whitespaces p).
Proof.
  split; [done|]. unfold plen, skip_whitespaces, skip_till_not, with_data. simpl.
  pose proof (drop_while_length (fun c => bool_decide (c ∈ whitespace)) (p_data p)). lia.
Qed.

Lemma try_skip_char_moved c p b p' :
  try_skip_char c p = (b, p') → moved (if b then 1 else 0) p p'.
Proof.
  unfold try_skip_char, moved, plen. destruct (p_data p) as [|d l] eqn:E.
  - intros [= <- <-]. rewrite E. split; [done|simpl; lia].
  - case_bool_decide; intros [= <- <-]; simpl; rewrite ?E; (split; [done|simpl; lia]).
Qed.

Lemma skip_moved c p :
  p_status p = Ok tt → peek_char p = c → p_data p ≠ [] → moved 1 p (skip c p).
Proof.
  intros Hs Hp Hne. unfold skip, moved, plen, peek_char in *. rewrite Hs. simpl.
  destruct (p_data p) as [|d l] eqn:E; [done|]. rewrite bool_decide_true by done. split; [done|simpl; lia].
Qed.

Lemma json_string_decode_moved p r p' :
  json_string_decode p = (r, p') → moved (if is_ok r then 1 else 0) p p'.
Proof.
  unfold json_string_decode. destruct (try_skip_char "034" p) as [b p1] eqn:E1.
  apply try_skip_char_moved in E1 as [Hs Hl]. destruct b; simpl.
  - destruct (json_string_loop (p_data p1)) as [[text rest]|] eqn:El.
    + apply json_string_loop_shrinks in El as [El _]. intros [= <- <-].
      split; [done|]. unfold plen in *. simpl. lia.
    + intros [= <- <-]. simpl. split; [done|lia].
  - intros [= <- <-]. simpl. split; [done|lia].
Qed.

Lemma json_keyword_moved {A} word (v : A) msg p r p' :
  json_keyword word v msg p = (r, p') → word ≠ [] → moved (if is_ok r then 1 else 0) p p'.
Proof.
  unfold json_keyword. destruct (try_skip word p) as [[] p1] eqn:E; intros [= <- <-] Hne; simpl.
  - apply try_skip_true in E as [E1 E2]. split; [done|]. unfold plen. rewrite E1, length_app.
    destruct word; simpl; [done|lia].
  - apply try_skip_false in E as [-> _]. split; [done|lia].
Qed.

Lemma read_number_moved p :
  is_number_start (peek_char p) = true → moved 1 p (read_while is_number_char p).2.
Proof.
  unfold peek_char, moved, plen, read_while. destruct (p_data p) as [|c l] eqn:E; [done|].
  intros Hc. simpl.
  assert (is_number_char c = true) as Hn.
  { revert Hc. clear. all_chars c. }
  rewrite Hn. split; [done|]. pose proof (drop_while_length is_number_char l). lia.
Qed.

Lemma peek_nonempty p c : peek_char p = c → c ≠ "000"%char → p_data p ≠ [].
Proof. unfold peek_char. destruct (p_data p); congruence. Qed.

Lemma moved_weaken n m p p' : moved n p p' → (m <= n)%nat → moved m p p'.
Proof. unfold moved. intros [? ?] ?. split; [done|lia]. Qed.

Lemma moved_status n p p' : moved n p p' → p_status p = Ok tt → p_status p' = Ok tt.
Proof. by intros [-> _]. Qed.

Lemma moved_len n p p' : moved n p p' → (plen p' + n <= plen p)%nat.
Proof. by intros [_ ?]. Qed.

(** What a call returns: a result, and a parser that moved; a value takes at
    least one character. *)
Definition returns {A} (p : parser) (o : option (result A * parser)) : Prop :=
  ∃ r p', o = Some (r, p') ∧ moved (if is_ok r then 1 else 0) p p'.

Lemma moved_refl p : moved 0 p p.
Proof. split; [done|lia]. Qed.

Lemma returns_err {A} p p' e m : moved 0 p p' → returns p (Some (Err (A := A) e m, p')).
Proof. intros M. by exists (Err e m), p'. Qed.

Lemma returns_ok {A} p p' (v : A) : moved 1 p p' → returns p (Some (Ok v, p')).
Proof. intros M. by exists (Ok v), p'. Qed.

Lemma returns_keyword {A} p word (v : A) msg :
  word ≠ [] → returns p (Some (json_keyword word v msg p)).
Proof.
  intros Hne. destruct (json_keyword word v msg p) as [r p'] eqn:E. exists r, p'.
  split; [done|]. by eapply json_keyword_moved.
Qed.

Lemma returns_up {A} n p p1 (o : option (result A * parser)) :
  moved n p p1 → returns p1 o → returns p o.
Proof.
  intros M (r & p' & -> & M'). exists r, p'. split; [done|].
  pose proof (moved_trans _ _ _ _ _ M M'). eapply moved_weaken; [done|]. destruct (is_ok r); lia.
Qed.

Lemma returns_map {A B} p (o : option (result A * parser)) (f : A → B) :
  returns p o →
  returns p ('(r, p') ← o; Some (match r with Ok l => Ok (f l) | Err e m => Err e m end, p')).
Proof.
  intros (r & p' & -> & M). simpl. eexists _, p'. split; [done|]. by destruct r.
Qed.

(** The test for a closing character, after spaces. *)
Lemma close_moved c p b p' :
  try_skip_char c (skip_whitespaces p) = (b, p') → moved (if b then 1 else 0) p p'.
Proof.
  intros E. apply try_skip_char_moved in E.
  by apply (moved_trans 0 _ _ _ _ (skip_whitespaces_moved p) E).
Qed.

(** The end of a loop round of the array and object parsers. *)
Lemma loop_end_returns {A} p close (res : A) (next : parser → option (result A * parser))
    (err : parser → option (result A * parser)) :
  (∀ p2, moved 0 p p2 → returns p2 (err p2)) →
  (∀ p2, moved 1 p p2 → returns p2 (next p2)) →
  returns p
    (let '(closed, p) := try_skip_char close (skip_whitespaces p) in
     if closed then Some (Ok res, p)
     else
     let '(comma, p) := try_skip_char "," p in
     if comma then next (skip_whitespaces p) else err p).
Proof.
  intros Herr Hnext. destruct (try_skip_char close (skip_whitespaces p)) as [[] p1] eqn:E1;
    apply close_moved in E1; [by apply returns_ok|].
  destruct (try_skip_char "," p1) as [[] p2] eqn:E2; apply try_skip_char_moved in E2;
    pose proof (moved_trans _ _ _ _ _ E1 E2) as M; simpl in M.
  - pose proof (moved_trans _ _ _ _ _ M (skip_whitespaces_moved p2)) as M'. simpl in M'.
    apply (returns_up 1 p (skip_whitespaces p2)); [done|]. by apply Hnext.
  - apply (returns_up 0 p p2); [done|]. by apply Herr.
Qed.

(** Opening an array or an object. *)
Lemma open_moved c p :
  p_status p = Ok tt → peek_char p = c → c ≠ "000"%char → moved 1 p (skip_whitespaces (skip c p)).
Proof.
  intros Hs Hp Hc. pose proof (skip_moved c p Hs Hp (peek_nonempty _ _ Hp Hc)) as M.
  exact (moved_trans _ _ _ _ _ M (skip_whitespaces_moved _)).
Qed.

Lemma open_returns {A B} p o c (empty : B) (f : A → B) (rest : parser → option (result A * parser)) :
  p_status p = Ok tt → peek_char p = o → o ≠ "000"%char →
  (∀ p2, moved 1 p p2 → returns p2 (rest p2)) →
  returns p
    (let p := skip_whitespaces (skip o p) in
     let '(closed, p) := try_skip_char c p in
     if closed then Some (Ok empty, p)
     else '(r, p') ← rest p; Some (match r with Ok l => Ok (f l) | Err e m => Err e m end, p')).
Proof.
  intros Hs Hp Ho Hrest. pose proof (open_moved o p Hs Hp Ho) as M. cbv zeta.
  destruct (try_skip_char c (skip_whitespaces (skip o p))) as [[] p2] eqn:E;
    apply try_skip_char_moved in E; pose proof (moved_trans _ _ _ _ _ M E) as M2; simpl in M2.
  - apply returns_ok. eapply moved_weaken; [done|lia].
  - apply (returns_up 1 p p2 _ M2), returns_map, Hrest, M2.
Qed.

Lemma returns_string p :
  returns p (Some (let '(r, p') := json_string_decode p in (JsonStr <$> r, p'))).
Proof.
  destruct (json_string_decode p) as [r p'] eqn:E. apply json_string_decode_moved in E.
  eexists _, p'. split; [done|]. by destruct r.
Qed.

Lemma json_total fuel :
  (∀ p md, p_status p = Ok tt → (2 * plen p + 1 <= fuel)%nat → returns p (do_json_decode fuel p md))
  ∧ (∀ p md res, p_status p = Ok tt → (2 * plen p + 2 <= fuel)%nat →
       returns p (json_decode_array fuel p md res))
  ∧ (∀ p md fs, p_status p = Ok tt → (2 * plen p + 2 <= fuel)%nat →
       returns p (json_decode_object fuel p md fs)).
Proof.
  induction fuel as [|fuel (IHv & IHa & IHo)]; [split_and!; intros; lia|].
  split_and!.
  - intros p md Hs Hf. cbn [do_json_decode].
    destruct (md <? 0); [apply returns_err, moved_refl|].
    pose proof (skip_whitespaces_moved p) as M1. set (p1 := skip_whitespaces p) in *.
    pose proof (moved_status _ _ _ M1 Hs) as Hs1. pose proof (moved_len _ _ _ M1) as L1.
    apply (returns_up 0 p p1 _ M1).
    case_bool_decide; [by apply returns_keyword|]. case_bool_decide; [by apply returns_keyword|].
    case_bool_decide; [by apply returns_keyword|]. case_bool_decide; [apply returns_string|].
    case_bool_decide as Ha.
    { apply open_returns; [done|done|done|]. intros p2 M.
      pose proof (moved_len _ _ _ M). apply IHa; [by eapply moved_status|lia]. }
    case_bool_decide as Ho.
    { apply open_returns; [done|done|done|]. intros p2 M.
      pose proof (moved_len _ _ _ M). apply IHo; [by eapply moved_status|lia]. }
    destruct (is_number_start (peek_char p1)) eqn:En; [by apply returns_ok, read_number_moved|].
    case_bool_decide; [apply returns_err, moved_refl|].
    unfold err_symbol. destruct (_ && _); apply returns_err, moved_refl.
  - intros p md res Hs Hf. cbn [json_decode_array].
    destruct (p_empty p); [apply returns_err, moved_refl|].
    destruct (IHv p md Hs ltac:(lia)) as (r & p1 & -> & M). cbn [mbind option_bind].
    destruct r as [value|e m]; [|by apply returns_err]. simpl in M.
    apply (returns_up 1 p p1 _ M). pose proof (moved_len _ _ _ M).
    apply (loop_end_returns p1 "]" (res ++ [value])
             (fun p => json_decode_array fuel p md (res ++ [value]))
             (fun p => if p_empty p then Some (err_end, p)
                       else Some (Err 0 (lit "Unexpected symbol while parsing JSON Array"), p))).
    + intros p2 _. destruct (p_empty p2); apply returns_err, moved_refl.
    + intros p2 M2. pose proof (moved_len _ _ _ M2).
      apply IHa; [eapply moved_status; [exact M2|]; by eapply moved_status|lia].
  - intros p md fs Hs Hf. cbn [json_decode_object].
    destruct (p_empty p); [apply returns_err, moved_refl|].
    destruct (json_string_decode p) as [[field|e m] p1] eqn:Ef;
      apply json_string_decode_moved in Ef as M1; simpl in M1; [|by apply returns_err].
    destruct (try_skip_char ":" (skip_whitespaces p1)) as [b p2] eqn:Ec.
    apply close_moved in Ec. pose proof (moved_trans _ _ _ _ _ M1 Ec) as M2.
    destruct b; cbn [negb]; [|apply returns_err; eapply moved_weaken; [exact M2|lia]].
    apply (returns_up 2 p p2 _ M2). pose proof (moved_len _ _ _ M2).
    pose proof (moved_status _ _ _ M2 Hs) as Hs2.
    destruct (IHv p2 md Hs2 ltac:(lia)) as (r & p3 & -> & M3). cbn [mbind option_bind].
    destruct r as [value|e m]; [|by apply returns_err]. simpl in M3.
    apply (returns_up 1 p2 p3 _ M3). pose proof (moved_len _ _ _ M3).
    apply (loop_end_returns p3 "}" (fs ++ [(field, value)])
             (fun p => json_decode_object fuel p md (fs ++ [(field, value)]))
             (fun p => if p_empty p then Some (err_end, p)
                       else Some (Err 0 (lit "Unexpected symbol while parsing JSON Object"), p))).
    + intros p4 _. destruct (p_empty p4); apply returns_err, moved_refl.
    + intros p4 M4. pose proof (moved_len _ _ _ M4).
      apply IHo; [eapply moved_status; [exact M4|]; by eapply moved_status|lia].
Qed.

(** ** Skipping *)

(** Both functions run out of fuel together, fail together, and stop at the
    same character. *)
Definition same_walk {A} (o : option (result A * parser)) (o' : option (status * parser)) : Prop :=
  match o, o' with
  | None, None => True
  | Some (r, p), Some (r', p') => is_ok r = is_ok r' ∧ p = p'
  | _, _ => False
  end.

Lemma same_walk_string p :
  is_ok (json_string_decode p).1 = is_ok (json_string_skip p).1
  ∧ (json_string_decode p).2 = (json_string_skip p).2.
Proof.
  unfold json_string_decode, json_string_skip.
  destruct (try_skip_char "034" p) as [[] p1]; [|done]. cbn [negb].
  rewrite json_skip_loop_decode. by destruct (json_string_loop (p_data p1)) as [[]|].
Qed.

Lemma same_walk_keyword {A} word (v : A) msg msg' p :
  same_walk (Some (json_keyword word v msg p)) (Some (json_keyword word tt msg' p)).
Proof. unfold json_keyword. by destruct (try_skip word p) as [[] p']. Qed.

Lemma same_walk_map {A B} (o : option (result A * parser)) o' (f : A → B) :
  same_walk o o' →
  same_walk ('(r, p') ← o; Some (match r with Ok l => Ok (f l) | Err e m => Err e m end, p')) o'.
Proof. destruct o as [[[] p]|], o' as [[[] p']|]; simpl; naive_solver. Qed.

Lemma json_same_walk fuel :
  (∀ p md, same_walk (do_json_decode fuel p md) (do_json_skip fuel p md))
  ∧ (∀ p md res, same_walk (json_decode_array fuel p md res) (json_skip_array fuel p md))
  ∧ (∀ p md fs, same_walk (json_decode_object fuel p md fs) (json_skip_object fuel p md)).
Proof.
  induction fuel as [|fuel (IHv & IHa & IHo)]; [by split_and!|]. split_and!.
  - intros p md. cbn [do_json_decode do_json_skip]. destruct (md <? 0); [done|].
    set (p1 := skip_whitespaces p). case_bool_decide; [apply same_walk_keyword|].
    case_bool_decide; [apply same_walk_keyword|]. case_bool_decide; [apply same_walk_keyword|].
    case_bool_decide.
    { destruct (same_walk_string p1) as [E1 E2].
      destruct (json_string_decode p1) as [[] ?], (json_string_skip p1) as [[] ?]; naive_solver. }
    case_bool_decide.
    { cbv zeta. destruct (try_skip_char _ _) as [[] p2]; [done|]. by apply same_walk_map. }
    case_bool_decide.
    { cbv zeta. destruct (try_skip_char _ _) as [[] p2]; [done|]. by apply same_walk_map. }
    destruct (is_number_start _); [done|]. case_bool_decide; [done|].
    unfold err_symbol. by destruct (_ && _).
  - intros p md res. cbn [json_decode_array json_skip_array]. destruct (p_empty p); [done|].
    specialize (IHv p md). destruct (do_json_decode fuel p md) as [[r p1]|],
      (do_json_skip fuel p md) as [[r' p1']|]; try done. destruct IHv as [Er <-].
    cbn [mbind option_bind]. destruct r, r'; try done.
    destruct (try_skip_char _ _) as [[] p2]; [done|]. destruct (try_skip_char _ _) as [[] p3]; [apply IHa|].
    by destruct (p_empty p3).
  - intros p md fs. cbn [json_decode_object json_skip_object]. destruct (p_empty p); [done|].
    destruct (same_walk_string p) as [E1 E2].
    destruct (json_string_decode p) as [[field|] p1], (json_string_skip p) as [[] p1']; try done.
    simpl in E2. subst p1'. destruct (try_skip_char _ _) as [[] p2]; [cbn [negb]|done].
    specialize (IHv p2 md). destruct (do_json_decode fuel p2 md) as [[r p3]|],
      (do_json_skip fuel p2 md) as [[r' p3']|]; try done. destruct IHv as [Er <-].
    cbn [mbind option_bind]. destruct r, r'; try done.
    destruct (try_skip_char _ _) as [[] p4]; [done|]. destruct (try_skip_char _ _) as [[] p5]; [apply IHo|].
    by destruct (p_empty p5).
Qed.

(** ** Round trip *)

Lemma json_value_ind (P : JsonValue → Prop) :
  P JsonNull → (∀ s, P (JsonNumber s)) → (∀ b, P (JsonBoolean b)) → (∀ s, P (JsonStr s)) →
  (∀ l, Forall P l → P (JsonArray l)) → (∀ l, Forall (fun f => P f.2) l → P (JsonObject l)) →
  ∀ v, P v.
Proof.
  intros Hn Hnum Hb Hs Ha Ho. fix IH 1. intros [|s|b|s|l|l]; [done|done|done|done| |].
  - apply Ha. induction l as [|x l IHl]; constructor; [apply IH|exact IHl].
  - apply Ho. induction l as [|[k x] l IHl]; constructor; [apply IH|exact IHl].
Qed.

Definition is_ws (c : ascii) : bool := bool_decide (c ∈ whitespace).

Lemma skip_ws_app lead s :
  Forall (fun c => is_ws c = true) lead →
  skip_whitespaces (new_parser (lead ++ s)) = skip_whitespaces (new_parser s).
Proof.
  intros H. unfold skip_whitespaces, skip_till_not, with_data, new_parser. cbn [p_data p_status].
  by rewrite drop_while_app_all.
Qed.

Lemma skip_ws_head c s : is_ws c = false → skip_whitespaces (new_parser (c :: s)) = new_parser (c :: s).
Proof.
  intros H. unfold skip_whitespaces, skip_till_not, with_data, new_parser. cbn [p_data p_status drop_while].
  unfold is_ws in H. by rewrite H.
Qed.

Lemma print_offset_ws offset : Forall (fun c => is_ws c = true) (print_offset offset).
Proof.
  unfold print_offset. destruct (0 <=? offset); [|constructor].
  constructor; [done|]. by apply Forall_replicate.
Qed.

Lemma try_skip_char_hit c s : try_skip_char c (new_parser (c :: s)) = (true, new_parser s).
Proof. unfold try_skip_char, new_parser. cbn [p_data]. by rewrite bool_decide_true. Qed.

Lemma try_skip_char_miss c d s :
  c ≠ d → try_skip_char c (new_parser (d :: s)) = (false, new_parser (d :: s)).
Proof. intros H. unfold try_skip_char, new_parser. cbn [p_data]. by rewrite bool_decide_false. Qed.

Lemma skip_hit c s : skip c (new_parser (c :: s)) = new_parser s.
Proof. unfold skip, new_parser. cbn [p_data p_status is_ok negb]. by rewrite bool_decide_true. Qed.

Lemma try_skip_hit w s : try_skip w (new_parser (w ++ s)) = (true, new_parser s).
Proof. by apply try_skip_true. Qed.

Lemma json_string_decode_hit s out rest :
  json_string s = Some out → check_utf8 s = true →
  json_string_decode (new_parser (out ++ rest)) = (Ok s, new_parser rest)
  ∧ ∃ t, out = "034"%char :: t.
Proof.
  intros Ho Hu. destruct (json_string_body_spec s) as [H _]. destruct (H Hu) as (body & Hb & Hloop).
  unfold json_string in Ho. rewrite Hb in Ho. injection Ho as <-.
  split; [|by eexists]. unfold json_string_decode, quoted. cbn [app]. rewrite try_skip_char_hit.
  cbn [negb new_parser p_data]. rewrite <- app_assoc. cbn [app]. by rewrite Hloop.
Qed.

Lemma number_take s rest :
  forallb is_number_char s = true → number_stop rest →
  read_while is_number_char (new_parser (s ++ rest)) = (s, new_parser rest).
Proof.
  intros Hs Hr. unfold read_while, with_data, new_parser. cbn [p_data p_status].
  assert (take_while is_number_char (s ++ rest) = s ∧ drop_while is_number_char (s ++ rest) = rest)
    as [-> ->]; [|done].
  induction s as [|c s IH]; cbn [app].
  - destruct rest as [|d rest]; [done|]. simpl in Hr. simpl. by rewrite Hr.
  - cbn [forallb] in Hs. apply andb_true_iff in Hs as [Hc Hs]. cbn [take_while drop_while].
    rewrite Hc. destruct (IH Hs) as [-> ->]. done.
Qed.

(** How the text of a value starts. *)
Lemma store_head offset v out :
  json_ok v = true → store offset v = Some out →
  ∃ c t, out = c :: t ∧ is_ws c = false ∧ c ≠ "]"%char ∧ c ≠ "}"%char.
Proof.
  destruct v as [|s|b|s|l|l]; cbn [store json_ok]; intros Hok Hs.
  - injection Hs as <-. by eexists _, _.
  - injection Hs as <-. destruct s as [|c s]; [done|]. apply andb_true_iff in Hok as [Hc _].
    exists c, s. split; [done|]. revert Hc. clear. intros Hc.
    split_and!; [|intros ->; done|intros ->; done]. revert Hc. all_chars c.
  - injection Hs as <-. destruct b; by eexists _, _.
  - destruct (json_string_decode_hit s out [] Hs Hok) as (_ & t & ->). by eexists _, _.
  - destruct (mapM _ l); [|done]. injection Hs as <-. by eexists _, _.
  - destruct (mapM _ l); [|done]. injection Hs as <-. by eexists _, _.
Qed.

(** What the round trip says of one value: with enough fuel and depth, spaces
    before it and a stop after it, the parser returns it and the rest. *)
Definition decodes (v : JsonValue) : Prop :=
  ∀ fuel offset lead out rest md,
    json_ok v = true → store offset v = Some out →
    Forall (fun c => is_ws c = true) lead → number_stop rest → json_depth v <= md →
    (2 * length (lead ++ out ++ rest) + 1 <= fuel)%nat →
    do_json_decode fuel (new_parser (lead ++ out ++ rest)) md = Some (Ok v, new_parser rest).

(** The text of the elements after the first, closed by [close]. *)
Definition tail_text (parts : list slice) (close : slice) : slice :=
  (parts ≫= fun y => ","%char :: y) ++ close.

Lemma join_comma_length x parts close :
  (length (join_comma (x :: parts)) + length close = length x + length (tail_text parts close))%nat.
Proof. unfold tail_text. cbn [join_comma]. rewrite !length_app. lia. Qed.

Lemma tail_text_cons x parts close : tail_text (x :: parts) close = ","%char :: x ++ tail_text parts close.
Proof. unfold tail_text. cbn [mbind list_bind]. cbn [app]. by rewrite <- app_assoc. Qed.

Lemma print_offset_stop offset c s :
  is_number_char c = false → number_stop (print_offset offset ++ c :: s).
Proof. intros H. unfold print_offset. by destruct (0 <=? offset). Qed.

Lemma tail_text_stop parts offset c s :
  is_number_char c = false → number_stop (tail_text parts (print_offset offset ++ c :: s)).
Proof. intros H. destruct parts as [|x parts]; [by apply print_offset_stop|done]. Qed.

Lemma is_ws_close : is_ws "]" = false ∧ is_ws "}" = false ∧ is_ws "," = false ∧ is_ws ":" = false.
Proof. done. Qed.

(** The array loop on the texts of its elements; the first one has lost its
    spaces. *)
Lemma decode_array_loop fuel inner offset l parts x out md res rest :
  Forall decodes (x :: l) → forallb json_ok (x :: l) = true →
  store inner x = Some out →
  mapM (fun x => (print_offset inner ++.) <$> store inner x) l = Some parts →
  Forall (fun x => json_depth x <= md) (x :: l) →
  (2 * length (out ++ tail_text parts (print_offset offset ++ "]"%char :: rest)) + 2 <= fuel)%nat →
  json_decode_array fuel
    (new_parser (out ++ tail_text parts (print_offset offset ++ "]"%char :: rest))) md res
  = Some (Ok (res ++ x :: l), new_parser rest).
Proof.
  revert fuel x out parts res. induction l as [|y l IH]; intros fuel x out parts res Hd Hok Hx Hp Hdep Hf;
    (destruct fuel as [|fuel]; [lia|]); cbn [json_decode_array];
    apply Forall_cons in Hd as [Hdx Hd]; apply Forall_cons in Hdep as [Hdepx Hdep];
    cbn [forallb] in Hok; apply andb_true_iff in Hok as [Hokx Hok];
    destruct (store_head _ _ _ Hokx Hx) as (c & t & Eo & _);
    (assert (p_empty (new_parser (out ++ tail_text parts (print_offset offset ++ "]"%char :: rest))) = false) as ->
      by (subst out; done));
    pose proof (Hdx fuel inner [] out _ md Hokx Hx (Forall_nil_2 _)
                  (tail_text_stop parts offset "]" rest eq_refl) Hdepx) as Hdec;
    cbn [app] in Hdec; rewrite Hdec by lia; cbn [mbind option_bind].
  - injection Hp as <-. unfold tail_text. cbn [mbind list_bind app].
    rewrite skip_ws_app by apply print_offset_ws.
    rewrite skip_ws_head by done. rewrite try_skip_char_hit. done.
  - cbn [mapM] in Hp. destruct (store inner y) as [outy|] eqn:Ey; [|done]. cbn [fmap option_fmap option_map mbind option_bind] in Hp.
    destruct (mapM _ l) as [parts'|] eqn:El; [|done]. injection Hp as <-.
    rewrite tail_text_cons. rewrite skip_ws_head by done.
    rewrite try_skip_char_miss by done. rewrite try_skip_char_hit. rewrite <- app_assoc.
    rewrite skip_ws_app by apply print_offset_ws.
    pose proof Hok as Hok'. cbn [forallb] in Hok'. apply andb_true_iff in Hok' as [Hoky _].
    destruct (store_head _ _ _ Hoky Ey) as (c' & t' & Ey' & Hws & _).
    assert (skip_whitespaces (new_parser (outy ++ tail_text parts' (print_offset offset ++ "]"%char :: rest)))
            = new_parser (outy ++ tail_text parts' (print_offset offset ++ "]"%char :: rest))) as ->
      by (subst outy; by apply skip_ws_head).
    rewrite (IH fuel y outy parts' (res ++ [x])); try done.
    + by rewrite <- app_assoc.
    + rewrite tail_text_cons, !length_app in Hf. cbn [length] in Hf. rewrite !length_app in Hf.
      rewrite !length_app. lia.
Qed.

(** The text of one field after its spaces. *)
Definition field_text (inner : Z) (name value : slice) : slice := name ++ colon inner ++ value.

(** The colon of a field, with the spaces around it. *)
Lemma colon_spec inner s :
  ∃ lead, Forall (fun c => is_ws c = true) lead
    ∧ try_skip_char ":" (skip_whitespaces (new_parser (colon inner ++ s))) = (true, new_parser (lead ++ s))
    ∧ (length lead < length (colon inner))%nat.
Proof.
  unfold colon. destruct (0 <=? inner).
  - exists (lit " "). split_and!; [by repeat constructor| |simpl; lia].
    change (lit " : " ++ s) with (lit " " ++ ":"%char :: lit " " ++ s).
    rewrite skip_ws_app by (by repeat constructor).
    rewrite skip_ws_head by done. apply try_skip_char_hit.
  - exists []. split_and!; [constructor| |simpl; lia].
    change (lit ":" ++ s) with (":"%char :: s).
    rewrite skip_ws_head by done. apply try_skip_char_hit.
Qed.

Definition store_field (inner : Z) (f : slice * JsonValue) : option slice :=
  name ← json_string f.1;
  value ← store inner f.2;
  Some (print_offset inner ++ name ++ colon inner ++ value).

Lemma store_field_some inner f part :
  store_field inner f = Some part →
  ∃ name value, json_string f.1 = Some name ∧ store inner f.2 = Some value
    ∧ part = print_offset inner ++ field_text inner name value.
Proof.
  unfold store_field. destruct (json_string f.1) as [name|]; [|done].
  destruct (store inner f.2) as [value|]; [|done]. intros [= <-]. by exists name, value.
Qed.

Lemma decode_object_loop fuel inner offset l parts f name value md fs rest :
  Forall (fun f => decodes f.2) (f :: l) →
  forallb (fun f => check_utf8 f.1 && json_ok f.2) (f :: l) = true →
  json_string f.1 = Some name → store inner f.2 = Some value →
  mapM (store_field inner) l = Some parts →
  Forall (fun f => json_depth f.2 <= md) (f :: l) →
  (2 * length (field_text inner name value ++ tail_text parts (print_offset offset ++ "}"%char :: rest)) + 2 <= fuel)%nat →
  json_decode_object fuel
    (new_parser (field_text inner name value ++ tail_text parts (print_offset offset ++ "}"%char :: rest))) md fs
  = Some (Ok (fs ++ f :: l), new_parser rest).
Proof.
  revert fuel f name value parts fs.
  induction l as [|g l IH]; intros fuel f name value parts fs Hd Hok Hn Hx Hp Hdep Hf;
    (destruct fuel as [|fuel]; [lia|]); cbn [json_decode_object];
    apply Forall_cons in Hd as [Hdx Hd]; apply Forall_cons in Hdep as [Hdepx Hdep];
    cbn [forallb] in Hok; apply andb_true_iff in Hok as [Hokx Hok];
    apply andb_true_iff in Hokx as [Huf Hokx];
    (destruct (json_string_decode_hit _ _
      (colon inner ++ value ++ tail_text parts (print_offset offset ++ "}"%char :: rest)) Hn Huf)
      as [Hname (t & Et)]);
    unfold field_text in Hf |- *; rewrite <- !app_assoc in Hf |- *; rewrite Hname;
    (assert (p_empty (new_parser (name ++ colon inner ++ value ++ tail_text parts (print_offset offset ++ "}"%char :: rest))) = false) as ->
      by (subst name; done));
    (destruct (colon_spec inner (value ++ tail_text parts (print_offset offset ++ "}"%char :: rest)))
      as (lead & Hlead & Hcolon & Hlen)); rewrite Hcolon; cbn [negb];
    rewrite (length_app name), (length_app (colon inner)) in Hf;
    pose proof (Hdx fuel inner lead value _ md Hokx Hx Hlead
                  (tail_text_stop parts offset "}" rest eq_refl) Hdepx) as Hdec;
    rewrite (length_app lead) in Hdec;
    rewrite Hdec by lia; cbn [mbind option_bind].
  - injection Hp as <-. unfold tail_text. cbn [mbind list_bind app].
    rewrite skip_ws_app by apply print_offset_ws.
    rewrite skip_ws_head by done. rewrite try_skip_char_hit. by destruct f.
  - cbn [mapM] in Hp. destruct (store_field inner g) as [part|] eqn:Eg; [|done]. cbn [mbind option_bind] in Hp.
    destruct (mapM _ l) as [parts'|] eqn:El; [|done]. injection Hp as <-.
    apply store_field_some in Eg as (name' & value' & Hn' & Hx' & ->).
    rewrite tail_text_cons. rewrite skip_ws_head by done.
    rewrite try_skip_char_miss by done. rewrite try_skip_char_hit. rewrite <- app_assoc.
    rewrite skip_ws_app by apply print_offset_ws.
    pose proof Hok as Hok'. cbn [forallb] in Hok'. apply andb_true_iff in Hok' as [Hokg _].
    apply andb_true_iff in Hokg as [Hug _].
    destruct (json_string_decode_hit _ _ [] Hn' Hug) as (_ & t' & Et').
    assert (skip_whitespaces (new_parser (field_text inner name' value' ++ tail_text parts' (print_offset offset ++ "}"%char :: rest)))
            = new_parser (field_text inner name' value' ++ tail_text parts' (print_offset offset ++ "}"%char :: rest))) as ->
      by (unfold field_text; subst name'; by apply skip_ws_head).
    rewrite (IH fuel g name' value' parts' (fs ++ [(f.1, f.2)])); try done.
    + rewrite <- app_assoc. by destruct f.
    + rewrite tail_text_cons, !length_app in Hf. cbn [length] in Hf. rewrite !length_app in Hf.
      rewrite !length_app. unfold field_text in *. rewrite !length_app in *. lia.
Qed.

Lemma foldr_max_le {A} (g : A → Z) l md :
  foldr Z.max 0 (map g l) <= md → Forall (fun x => g x <= md) l.
Proof. induction l as [|x l IH]; cbn [map foldr]; constructor; [lia|apply IH; lia]. Qed.

Lemma json_depth_nonneg v : 0 <= json_depth v.
Proof.
  assert (∀ {A} (g : A → Z) l, 0 <= foldr Z.max 0 (map g l)) as H
    by (intros A g l; induction l; cbn [map foldr]; lia).
  destruct v; cbn [json_depth]; try lia; apply H.
Qed.

(** Opening a value: the spaces before it and its first character. *)
Lemma decode_open fuel lead c t md :
  Forall (fun c => is_ws c = true) lead → is_ws c = false → 0 <= md →
  do_json_decode (S fuel) (new_parser (lead ++ c :: t)) md
  = do_json_decode (S fuel) (new_parser (c :: t)) md
  ∧ skip_whitespaces (new_parser (c :: t)) = new_parser (c :: t)
  ∧ (md <? 0) = false.
Proof.
  intros Hl Hc Hmd. split_and!; [|by apply skip_ws_head|lia].
  cbn [do_json_decode]. replace (md <? 0) with false by lia. by rewrite skip_ws_app.
Qed.

(** The common start: drop the spaces, keep the first character. *)
Ltac open_value :=
  intros fuel offset lead out rest md Hok Hs Hl Hstop Hdep Hf;
  (destruct fuel as [|fuel]; [lia|]);
  match type of Hs with store _ ?v = _ => pose proof (json_depth_nonneg v) end;
  let c := fresh "c" in let t := fresh "t" in let Hws := fresh "Hws" in
  let Hskip := fresh "Hskip" in let Hmd := fresh "Hmd" in let Eo := fresh "Eo" in
  destruct (store_head _ _ _ Hok Hs) as (c & t & Eo & Hws & _);
  rewrite !length_app in Hf; subst out; cbn [app length] in Hf |- *;
  destruct (decode_open fuel lead c (t ++ rest) md Hl Hws ltac:(lia)) as (-> & Hskip & Hmd);
  cbn [do_json_decode]; rewrite Hmd, Hskip; cbn [store] in Hs; cbn [peek_char new_parser p_data].

Lemma decodes_array l : Forall decodes l → decodes (JsonArray l).
Proof.
  intros IH. open_value.
  destruct (mapM _ l) as [parts|] eqn:Ep; [|done]. injection Hs as <- <-.
  ascii_decide. change (_ :: _ ++ rest) with ("["%char :: (join_comma parts ++ print_offset offset ++ lit "]") ++ rest).
  rewrite skip_hit, <- !app_assoc. change (lit "]" ++ rest) with ("]"%char :: rest).
  cbn [json_ok json_depth] in Hok, Hdep. destruct l as [|x l].
  { injection Ep as <-. cbn [join_comma app]. rewrite skip_ws_app by apply print_offset_ws.
    rewrite skip_ws_head by done. by rewrite try_skip_char_hit. }
  cbn [mapM] in Ep. destruct (store _ x) as [outx|] eqn:Ex; [|done].
  cbn [fmap option_fmap option_map mbind option_bind] in Ep.
  destruct (mapM _ l) as [parts'|] eqn:El; [|done]. injection Ep as <-.
  cbn [join_comma]. rewrite <- !app_assoc. rewrite skip_ws_app by apply print_offset_ws.
  change ((parts' ≫= (fun y : slice => ","%char :: y)) ++ print_offset offset ++ "]"%char :: rest)
    with (tail_text parts' (print_offset offset ++ "]"%char :: rest)).
  pose proof Hok as Hok'. cbn [forallb] in Hok'. apply andb_true_iff in Hok' as [Hokx _].
  destruct (store_head _ _ _ Hokx Ex) as (c' & t' & Eo & Hws' & Hc1 & Hc2).
  set (text := tail_text _ _).
  assert (skip_whitespaces (new_parser (outx ++ text)) = new_parser (outx ++ text)
          ∧ try_skip_char "]" (new_parser (outx ++ text)) = (false, new_parser (outx ++ text))) as [-> ->].
  { rewrite Eo. cbn [app]. split; [by apply skip_ws_head|by apply try_skip_char_miss]. }
  subst text. rewrite (decode_array_loop fuel (inc_offset offset) offset l parts' x outx); try done.
  - apply foldr_max_le in Hdep. eapply Forall_impl; [exact Hdep|]. cbv beta. intros; lia.
  - rewrite !length_app in Hf. cbn [length] in Hf. rewrite length_app.
    pose proof (join_comma_length (print_offset (inc_offset offset) ++ outx) parts'
                  (print_offset offset ++ "]"%char :: rest)) as Hj.
    rewrite !length_app in Hj. cbn [length] in Hj. lia.
Qed.

Lemma decodes_object l : Forall (fun f => decodes f.2) l → decodes (JsonObject l).
Proof.
  intros IH. open_value.
  change (mapM _ l) with (mapM (store_field (inc_offset offset)) l) in Hs.
  destruct (mapM _ l) as [parts|] eqn:Ep; [|done]. injection Hs as <- <-.
  ascii_decide. change (_ :: _ ++ rest) with ("{"%char :: (join_comma parts ++ print_offset offset ++ lit "}") ++ rest).
  rewrite skip_hit, <- !app_assoc. change (lit "}" ++ rest) with ("}"%char :: rest).
  cbn [json_ok json_depth] in Hok, Hdep. destruct l as [|f l].
  { injection Ep as <-. cbn [join_comma app]. rewrite skip_ws_app by apply print_offset_ws.
    rewrite skip_ws_head by done. by rewrite try_skip_char_hit. }
  cbn [mapM] in Ep. destruct (store_field _ f) as [part|] eqn:Ex; [|done].
  cbn [mbind option_bind] in Ep.
  destruct (mapM _ l) as [parts'|] eqn:El; [|done]. injection Ep as <-.
  apply store_field_some in Ex as (name & value & Hn & Hx & ->).
  cbn [join_comma]. rewrite <- !app_assoc. rewrite skip_ws_app by apply print_offset_ws.
  change ((parts' ≫= (fun y : slice => ","%char :: y)) ++ print_offset offset ++ "}"%char :: rest)
    with (tail_text parts' (print_offset offset ++ "}"%char :: rest)).
  pose proof Hok as Hok'. cbn [forallb] in Hok'. apply andb_true_iff in Hok' as [Hokf _].
  apply andb_true_iff in Hokf as [Huf _].
  destruct (json_string_decode_hit _ _ [] Hn Huf) as (_ & t' & Et).
  set (text := tail_text _ _).
  assert (∀ s, skip_whitespaces (new_parser (name ++ s)) = new_parser (name ++ s)
          ∧ try_skip_char "}" (new_parser (name ++ s)) = (false, new_parser (name ++ s))) as Hopen.
  { intros s. rewrite Et. cbn [app]. split; [by apply skip_ws_head|by apply try_skip_char_miss]. }
  unfold field_text. rewrite <- !app_assoc. destruct (Hopen (colon (inc_offset offset) ++ value ++ text)) as [-> ->].
  replace (name ++ colon (inc_offset offset) ++ value ++ text)
    with (field_text (inc_offset offset) name value ++ text)
    by (unfold field_text; by rewrite <- !app_assoc).
  subst text. rewrite (decode_object_loop fuel (inc_offset offset) offset l parts' f name value); try done.
  - apply foldr_max_le in Hdep. eapply Forall_impl; [exact Hdep|]. cbv beta. intros; lia.
  - rewrite !length_app in Hf. cbn [length] in Hf. rewrite length_app.
    pose proof (join_comma_length (print_offset (inc_offset offset) ++ field_text (inc_offset offset) name value)
                  parts' (print_offset offset ++ "}"%char :: rest)) as Hj.
    rewrite !length_app in Hj. cbn [length] in Hj. lia.
Qed.

Lemma decodes_all v : decodes v.
Proof.
  induction v as [|s|b|s|l IH|l IH] using json_value_ind;
    [| | | |by apply decodes_array|by apply decodes_object]; open_value.
  - injection Hs as <- <-. ascii_decide. unfold json_keyword.
    change (_ :: _ ++ rest) with (lit "null" ++ rest). by rewrite try_skip_hit.
  - injection Hs as ->. cbn [json_ok number_ok] in Hok. apply andb_true_iff in Hok as [Hstart Hall].
    change (c :: t ++ rest) with ((c :: t) ++ rest). rewrite (number_take (c :: t) rest) by done.
    rewrite Hstart. rewrite !bool_decide_false; [done|..]; intros ->; done.
  - destruct b; injection Hs as <- <-; ascii_decide; unfold json_keyword.
    + change (_ :: _ ++ rest) with (lit "true" ++ rest). by rewrite try_skip_hit.
    + change (_ :: _ ++ rest) with (lit "false" ++ rest). by rewrite try_skip_hit.
  - destruct (json_string_decode_hit _ _ rest Hs Hok) as (E & t' & Et). injection Et as -> ->.
    ascii_decide. change (_ :: t' ++ rest) with (("034"%char :: t') ++ rest). by rewrite E.
Qed.

Lemma json_string_total s : check_utf8 s = true → is_Some (json_string s).
Proof.
  intros H. destruct (json_string_body_spec s) as [Hs _]. destruct (Hs H) as (out & E & _).
  unfold json_string. rewrite E. by eexists.
Qed.

Lemma mapM_total {A B} (f : A → option B) l :
  Forall (fun x => is_Some (f x)) l → is_Some (mapM f l).
Proof. intros H. by apply mapM_is_Some. Qed.

(** A value whose texts are UTF-8; a number is written as it is. *)
Fixpoint json_prints (v : JsonValue) : bool :=
  match v with
  | JsonStr str => check_utf8 str
  | JsonArray array => forallb json_prints array
  | JsonObject fields => forallb (fun f => check_utf8 f.1 && json_prints f.2) fields
  | _ => true
  end.

Lemma json_ok_prints v : json_ok v = true → json_prints v = true.
Proof.
  induction v as [| | | |l IH|l IH] using json_value_ind; cbn [json_ok json_prints]; try done;
    rewrite !forallb_forall; intros Hok f Hf; pose proof (proj1 (Forall_forall _ _) IH f (proj2 (list_elem_of_In _ _) Hf)) as IHf.
  - by apply IHf, Hok.
  - specialize (Hok f Hf). apply andb_true_iff in Hok as [-> Ho]. by rewrite IHf.
Qed.

Lemma store_prints v : ∀ offset, json_prints v = true → is_Some (store offset v).
Proof.
  induction v as [|s|b|s|l IH|l IH] using json_value_ind; intros offset Hok; cbn [store].
  - by eexists.
  - by eexists.
  - by eexists.
  - by apply json_string_total.
  - destruct (mapM_total (fun x => (print_offset (inc_offset offset) ++.) <$> store (inc_offset offset) x) l)
      as [parts E]; [|rewrite E; by eexists].
    cbn [json_prints] in Hok. rewrite forallb_forall in Hok. rewrite Forall_forall in IH.
    apply Forall_forall. intros x Hx.
    destruct (IH x Hx (inc_offset offset)) as [out ->]; [apply Hok; by apply list_elem_of_In|by eexists].
  - destruct (mapM_total (store_field (inc_offset offset)) l) as [parts E];
      [|unfold store_field in E; rewrite E; by eexists].
    cbn [json_prints] in Hok. rewrite forallb_forall in Hok. rewrite Forall_forall in IH.
    apply Forall_forall. intros f Hf. unfold store_field.
    specialize (Hok f ltac:(by apply list_elem_of_In)). apply andb_true_iff in Hok as [Hu Ho].
    destruct (json_string_total _ Hu) as [name ->]. cbn [mbind option_bind].
    destruct (IH f Hf (inc_offset offset) Ho) as [value ->]. by eexists.
Qed.

(** What is written is UTF-8: another text is a failed [CHECK]. *)
Lemma store_only_prints v : ∀ offset, is_Some (store offset v) → json_prints v = true.
Proof.
  assert (∀ s, is_Some (json_string s) → check_utf8 s = true) as Hstr.
  { intros s [out E]. unfold json_string in E. destruct (json_string_body_spec s) as [_ Hs].
    destruct (check_utf8 s); [done|]. by rewrite Hs in E. }
  induction v as [|s|b|s|l IH|l IH] using json_value_ind; intros offset; cbn [store json_prints]; try done; [apply Hstr|..];
    intros [out E]; apply bind_Some in E as (parts & E & _); apply mk_is_Some, mapM_is_Some_1 in E;
    rewrite Forall_forall in E, IH; apply forallb_forall; intros x Hx%list_elem_of_In; destruct (E x Hx) as [y Ey].
  - apply (IH x Hx (inc_offset offset)). destruct (store (inc_offset offset) x); [by eexists|done].
  - apply bind_Some in Ey as (name & En & Ey). apply bind_Some in Ey as (value & Ev & _).
    rewrite Hstr by (by eexists). by apply (IH x Hx (inc_offset offset)).
Qed.

Lemma store_total v offset : json_ok v = true → is_Some (store offset v).
Proof. intros Hok. by apply store_prints, json_ok_prints. Qed.

(** ** Properties *)

(** Encoding and decoding back, for the clients of the two functions. *)
Lemma json_encode_decode v pretty :
  json_ok v = true → json_depth v <= 100 →
  ∃ out, json_encode v pretty = Some out ∧ json_decode out = Some (Ok v).
Proof.
  intros Hok Hd. unfold json_encode. set (offset := if pretty then 0 else -1).
  destruct (store_total v offset Hok) as [out Hs]. rewrite Hs. cbn [mbind option_bind].
  set (tl := if pretty then ["010"%char] else []).
  assert ((if pretty then out ++ ["010"%char] else out) = [] ++ out ++ tl) as ->
    by (subst tl; destruct pretty; [done|by rewrite app_nil_r]).
  eexists. split; [done|]. unfold json_decode, json_fuel.
  rewrite (decodes_all v _ offset [] out tl 100); try done.
  - cbn [mbind option_bind]. assert (p_empty (skip_whitespaces (new_parser tl)) = true) as ->; [|done].
    subst tl. by destruct pretty.
  - subst tl. by destruct pretty.
Qed.

(** C40: Every well-formed JSON value within the depth limit encodes, compactly or indented, to a text that
    decodes to the same value. *)
Theorem json_roundtrip v pretty :
  json_ok v = true → json_depth v <= 100 →
  ∃ out, json_encode v pretty = Some out ∧ json_decode out = Some (Ok v).
Proof. apply json_encode_decode. Qed.

Lemma json_roundtrip_witness :
  let v := JsonObject [(lit "a", JsonArray [JsonNumber (lit "-1.5e3"); JsonNull]);
                       ([chr 195; chr 169], JsonStr [chr 240; chr 159; chr 152; chr 128; chr 10])] in
  ∃ out, json_encode v true = Some out ∧ json_decode out = Some (Ok v).
Proof.
  apply (json_roundtrip (JsonObject [(lit "a", JsonArray [JsonNumber (lit "-1.5e3"); JsonNull]);
    ([chr 195; chr 169], JsonStr [chr 240; chr 159; chr 152; chr 128; chr 10])]) true);
    [vm_compute; reflexivity|vm_compute; congruence].
Defined.

(** A string is encoded exactly when it is valid UTF-8, and the string decoder then reads it back
    whatever follows. *)
Theorem json_string_spec s rest :
  (json_string s = None ↔ check_utf8 s = false)
  ∧ (∀ out, json_string s = Some out →
       json_string_decode (new_parser (out ++ rest)) = (Ok s, new_parser rest)).
Proof.
  destruct (json_string_body_spec s) as [H1 H2]. destruct (check_utf8 s) eqn:E.
  - destruct (json_string_total s E) as [out Ho]. split; [by rewrite Ho|].
    intros out' Ho'. by destruct (json_string_decode_hit s out' rest Ho' E) as [? _].
  - unfold json_string. by rewrite H2.
Qed.

(** Decoding and skipping JSON end on every input, within fuel linear in it, accept the same texts and
    stop at the same place. *)
Theorem json_decode_total json :
  (∃ r, json_decode json = Some r)
  ∧ (∃ r r' p, do_json_decode (json_fuel (new_parser json)) (new_parser json) 100 = Some (r, p)
               ∧ do_json_skip (json_fuel (new_parser json)) (new_parser json) 100 = Some (r', p)
               ∧ is_ok r = is_ok r' ∧ (length (p_data p) <= length json)%nat).
Proof.
  unfold json_decode. set (p := new_parser json).
  destruct (json_total (json_fuel p)) as (H & _ & _).
  destruct (H p 100 eq_refl) as (r & p' & E & M); [unfold json_fuel, plen; lia|].
  destruct (json_same_walk (json_fuel p)) as (W & _ & _). specialize (W p 100). rewrite E in W.
  rewrite E. split; [by eexists|].
  destruct (do_json_skip (json_fuel p) p 100) as [[r' p'']|]; [|done]. destruct W as [Er <-].
  exists r, r', p'. split_and!; [done|done|done|]. apply moved_len in M. unfold plen in M.
  change (p_data p) with json in M. lia.
Qed.
