(* ===== verification/HttpHeader.v ===== *)
(** * Response headers

    [StringBuilder] of td/tdutils/td/utils/StringBuilder.{h,cpp} on a fixed
    buffer, and [HttpHeaderCreator] of td/tdnet/td/net/HttpHeaderCreator.{h,cpp}
    on top of it: a header is built in 4096 bytes, the last 30 of which are
    reserved; text that does not fit is cut and marks the builder as failed.

    [header_never_truncated] is the contract of the creator: [finish] returns
    either the exact concatenation of everything that was added, or an error;
    the text always leaves room for the terminator, so [as_cslice] never
    aborts. *)

From S2P Require Import Prelude Slices Integers.

(** ** StringBuilder on a fixed buffer *)

Definition RESERVED_SIZE : Z := 30.
Definition MAX_HEADER : Z := 4096.

(** The text between [begin_ptr_] and [current_ptr_], and [error_flag_];
    [end_ptr_] is [MAX_HEADER - RESERVED_SIZE]. *)
Record StringBuilder := mkSB { sb_text : slice; sb_error : bool }.
Definition new_builder : StringBuilder := mkSB [] false.

Definition end_ptr : Z := MAX_HEADER - RESERVED_SIZE.

(** [reserve(size)]: without a growing buffer [reserve_inner] fails. *)
Definition reserve (sb : StringBuilder) (size : Z) : bool :=
  (slen (sb_text sb) <? end_ptr) && (size <=? end_ptr - slen (sb_text sb)).

(** [operator<<(Slice)] *)
Definition append_slice (sb : StringBuilder) (s : slice) : StringBuilder :=
  if reserve sb (slen s) then mkSB (sb_text sb ++ s) (sb_error sb)
  else if end_ptr <? slen (sb_text sb) then mkSB (sb_text sb) true
  else
    let available_size := end_ptr + RESERVED_SIZE - 1 - slen (sb_text sb) in
    if available_size <? slen s
    then mkSB (sb_text sb ++ take (Z.to_nat available_size) s) true
    else mkSB (sb_text sb ++ s) (sb_error sb).

(** [operator<<(char)] and [operator<<(int)]: the printed number fits in the
    reserved bytes. *)
Definition append_small (sb : StringBuilder) (s : slice) : StringBuilder :=
  if slen (sb_text sb) <? end_ptr then mkSB (sb_text sb ++ s) (sb_error sb)
  else mkSB (sb_text sb) true.
Definition append_char (sb : StringBuilder) (c : ascii) : StringBuilder := append_small sb [c].
Definition append_int (sb : StringBuilder) (x : Z) : StringBuilder := append_small sb (print_int 32 x).

(** [as_cslice]: aborts when the terminator would not fit. *)
Definition as_cslice (sb : StringBuilder) : option slice :=
  if end_ptr + RESERVED_SIZE <=? slen (sb_text sb) then None else Some (sb_text sb).

(** ** HttpHeaderCreator *)

Definition crlf : slice := ["013"%char; "010"%char].

(** The cases of the switch of [get_status_line]; any other code takes the
    default. *)
Definition status_lines : list (Z * slice) :=
  [(200, lit "OK");
   (201, lit "Created");
   (202, lit "Accepted");
   (204, lit "No Content");
   (206, lit "Partial Content");
   (301, lit "Moved Permanently");
   (302, lit "Found");
   (303, lit "See Other");
   (304, lit "Not Modified");
   (307, lit "Temporary Redirect");
   (308, lit "Permanent Redirect");
   (400, lit "Bad Request");
   (401, lit "Unauthorized");
   (403, lit "Forbidden");
   (404, lit "Not Found");
   (405, lit "Method Not Allowed");
   (406, lit "Not Acceptable");
   (408, lit "Request Timeout");
   (409, lit "Conflict");
   (410, lit "Gone");
   (411, lit "Length Required");
   (412, lit "Precondition Failed");
   (413, lit "Request Entity Too Large");
   (414, lit "Request-URI Too Long");
   (415, lit "Unsupported Media Type");
   (416, lit "Range Not Satisfiable");
   (417, lit "Expectation Failed");
   (418, lit "I'm a teapot");
   (421, lit "Misdirected Request");
   (426, lit "Upgrade Required");
   (429, lit "Too Many Requests");
   (431, lit "Request Header Fields Too Large");
   (480, lit "Temporarily Unavailable");
   (501, lit "Not Implemented");
   (502, lit "Bad Gateway");
   (503, lit "Service Unavailable");
   (505, lit "HTTP Version Not Supported")].

Fixpoint find_status (lines : list (Z * slice)) (code : Z) : slice :=
  match lines with
  | [] => lit "Internal Server Error"
  | (k, line) :: lines => if code =? k then line else find_status lines code
  end.
Definition get_status_line (http_status_code : Z) : slice := find_status status_lines http_status_code.

Definition init_ok : StringBuilder := append_slice new_builder (lit "HTTP/1.1 200 OK" ++ crlf).

(** [init_error(code, reason)]; [init_get] and [init_post] are the request
    lines. *)
Definition init_error (code : Z) (reason : slice) : StringBuilder :=
  append_slice
    (append_slice
       (append_char (append_int (append_slice new_builder (lit "HTTP/1.1 ")) code) " ")
       reason) crlf.
Definition init_request (method url : slice) : StringBuilder :=
  append_slice (append_slice (append_slice new_builder method) url) (lit " HTTP/1.1" ++ crlf).
Definition init_get (url : slice) : StringBuilder := init_request (lit "GET ") url.
Definition init_post (url : slice) : StringBuilder := init_request (lit "POST ") url.
Definition init_status_line (http_status_code : Z) : StringBuilder :=
  init_error http_status_code (get_status_line http_status_code).

Definition add_header (sb : StringBuilder) (key value : slice) : StringBuilder :=
  append_slice (append_slice (append_slice (append_slice sb key) (lit ": ")) value) crlf.

Definition set_content_type (sb : StringBuilder) (type : slice) : StringBuilder :=
  add_header sb (lit "Content-Type") type.
Definition set_content_size (sb : StringBuilder) (size : Z) : StringBuilder :=
  add_header sb (lit "Content-Length") (print_uint size).
Definition set_keep_alive (sb : StringBuilder) : StringBuilder :=
  add_header sb (lit "Connection") (lit "keep-alive").

(** A host is written without its port when the port is the protocol's own. *)
Definition default_port (https : bool) (port : Z) : bool :=
  (https && (port =? 443)) || (negb https && (port =? 80)).
Definition add_host_header (sb : StringBuilder) (https : bool) (host : slice) (port : Z) : StringBuilder :=
  let sb := append_slice sb (lit "Host: ") in
  let sb := if default_port https port then append_slice sb host
            else append_int (append_char (append_slice sb host) ":") port in
  append_slice sb crlf.
Definition get_host_header (https : bool) (host : slice) (port : Z) : slice :=
  if default_port https port then host else host ++ [":"%char] ++ print_int 32 port.

(** [finish(content)]; [None] is the abort of [as_cslice]. *)
Definition finish (sb : StringBuilder) (content : slice) : option (result slice) :=
  let sb := append_slice sb crlf in
  let sb := if negb (bool_decide (content = [])) then append_slice sb content else sb in
  if sb_error sb then Some (Err 0 (lit "Too many headers"))
  else text ← as_cslice sb; Some (Ok text).

(** ** Specification: a trace of what is added *)

Inductive header_op :=
| OpSlice (s : slice)
| OpChar (c : ascii)
| OpInt (x : Z).

Definition op_text (op : header_op) : slice :=
  match op with OpSlice s => s | OpChar c => [c] | OpInt x => print_int 32 x end.
Definition apply_op (sb : StringBuilder) (op : header_op) : StringBuilder :=
  match op with
  | OpSlice s => append_slice sb s
  | OpChar c => append_char sb c
  | OpInt x => append_int sb x
  end.
Definition ops_text (ops : list header_op) : slice := ops ≫= op_text.

(** The calls the creator makes. *)
Definition header_ops (key value : slice) : list header_op :=
  [OpSlice key; OpSlice (lit ": "); OpSlice value; OpSlice crlf].
Definition status_ops (code : Z) : list header_op :=
  [OpSlice (lit "HTTP/1.1 "); OpInt code; OpChar " "; OpSlice (get_status_line code); OpSlice crlf].

(** ** Facts *)

Definition sb_ok (sb : StringBuilder) : Prop := slen (sb_text sb) <= MAX_HEADER - 1.

Lemma get_status_line_length code : slen (get_status_line code) <= 40.
Proof.
  assert (∀ lines, forallb (fun l => slen l.2 <=? 40) lines = true →
            slen (find_status lines code) <= 40) as H.
  { induction lines as [|[k line] lines IH]; cbn [find_status forallb]; [vm_compute; congruence|].
    rewrite andb_true_iff. intros [H1 H2]. destruct (code =? k); [simpl in H1; lia|by apply IH]. }
  by apply H.
Qed.

Lemma digits_low_first_length fuel x : (length (digits_low_first fuel x) <= fuel)%nat.
Proof.
  revert x; induction fuel as [|fuel IH]; intros x; [done|]. cbn [digits_low_first length].
  destruct (0 <? x / 10); [|simpl; lia]. specialize (IH (x / 10)). lia.
Qed.

Lemma print_uint_length x : slen (print_uint x) <= 20.
Proof.
  unfold print_uint, slen. destruct (x <? 100); [destruct (x <? 10); simpl; lia|].
  rewrite length_rev. pose proof (digits_low_first_length 20 x). lia.
Qed.

Lemma print_int_length w x : slen (print_int w x) <= 21.
Proof.
  unfold print_int. pose proof (print_uint_length (- x)). pose proof (print_uint_length (- (x + 1))).
  pose proof (print_uint_length x).
  destruct (x <? 0); [|lia]. destruct (x =? _).
  - unfold increment_last. destruct (rev _) as [|c l] eqn:E; [done|].
    assert (slen (rev (chr (char_code c + 1) :: l)) = slen (rev (c :: l))) as ->
      by (unfold slen; by rewrite !length_rev).
    rewrite <- E, rev_involutive. unfold slen in *. simpl. lia.
  - unfold slen in *. simpl. lia.
Qed.

Lemma apply_op_ok sb op :
  sb_ok sb → sb_ok (apply_op sb op)
  ∧ (sb_error (apply_op sb op) = false →
     sb_error sb = false ∧ sb_text (apply_op sb op) = sb_text sb ++ op_text op).
Proof.
  unfold sb_ok. intros H.
  assert (∀ s, slen s <= 21 → slen (sb_text (append_small sb s)) <= MAX_HEADER - 1
    ∧ (sb_error (append_small sb s) = false →
       sb_error sb = false ∧ sb_text (append_small sb s) = sb_text sb ++ s)) as Hsmall.
  { intros s Hs. unfold append_small, end_ptr, RESERVED_SIZE, MAX_HEADER in *.
    destruct (Z.ltb_spec (slen (sb_text sb)) (4096 - 30)); simpl; [|done].
    rewrite slen_app. split; [lia|done]. }
  destruct op as [s|c|x]; cbn [apply_op op_text].
  - unfold append_slice, reserve, end_ptr, RESERVED_SIZE, MAX_HEADER in *.
    pose proof (slen_nonneg s). pose proof (slen_nonneg (sb_text sb)).
    split_ifs; simpl; rewrite ?slen_app; try (split; [lia|done]).
    split; [|done]. unfold slen in *. rewrite length_take. lia.
  - apply Hsmall. done.
  - apply Hsmall, print_int_length.
Qed.

Lemma apply_ops_ok ops sb :
  sb_ok sb → sb_ok (foldl apply_op sb ops)
  ∧ (sb_error (foldl apply_op sb ops) = false →
     sb_error sb = false ∧ sb_text (foldl apply_op sb ops) = sb_text sb ++ ops_text ops).
Proof.
  revert sb. induction ops as [|op ops IH]; intros sb H; cbn [foldl].
  - split; [done|]. intros E. split; [done|]. by rewrite app_nil_r.
  - destruct (apply_op_ok sb op H) as [H1 H2]. destruct (IH _ H1) as [H3 H4]. split; [done|].
    intros E. destruct (H4 E) as [E1 ->]. destruct (H2 E1) as [E2 ->]. split; [done|].
    unfold ops_text. cbn [mbind list_bind]. by rewrite app_assoc.
Qed.

(** Text that fits below the reserved bytes is appended whole. *)
Lemma apply_ops_fit ops sb :
  sb_error sb = false → slen (sb_text sb) + slen (ops_text ops) < end_ptr →
  sb_error (foldl apply_op sb ops) = false
  ∧ sb_text (foldl apply_op sb ops) = sb_text sb ++ ops_text ops.
Proof.
  revert sb. induction ops as [|op ops IH]; intros sb He Hlen; cbn [foldl].
  - by rewrite app_nil_r.
  - unfold ops_text in *. cbn [mbind list_bind] in *. rewrite slen_app in Hlen.
    change (ops ≫= op_text) with (ops_text ops) in *.
    pose proof (slen_nonneg (sb_text sb)). pose proof (slen_nonneg (ops_text ops)).
    pose proof (slen_nonneg (op_text op)).
    assert (apply_op sb op = mkSB (sb_text sb ++ op_text op) false) as ->.
    { destruct op as [s|c|x]; cbn [apply_op op_text] in *.
      - unfold append_slice, reserve. rewrite He.
        replace (_ <? end_ptr) with true by lia. by replace (_ <=? _) with true by lia.
      - unfold append_char, append_small. rewrite He. by replace (_ <? end_ptr) with true by lia.
      - unfold append_int, append_small. rewrite He. by replace (_ <? end_ptr) with true by lia. }
    destruct (IH (mkSB (sb_text sb ++ op_text op) false)) as [E1 E2]; simpl; [done|rewrite slen_app; lia|].
    rewrite E1, E2. simpl. by rewrite app_assoc.
Qed.

Lemma add_header_ops sb key value : add_header sb key value = foldl apply_op sb (header_ops key value).
Proof. done. Qed.

Lemma init_status_line_ops code : init_status_line code = foldl apply_op new_builder (status_ops code).
Proof. done. Qed.

(** The lengths of the parts of a header. *)
Lemma ops_text_app l k : ops_text (l ++ k) = ops_text l ++ ops_text k.
Proof. unfold ops_text. by rewrite bind_app. Qed.

Lemma header_ops_length key value : slen (ops_text (header_ops key value)) = slen key + slen value + 4.
Proof.
  unfold ops_text, header_ops. cbn [mbind list_bind op_text]. rewrite !slen_app.
  change (slen (lit ": ")) with 2. change (slen crlf) with 2. change (slen (@nil ascii)) with 0. lia.
Qed.

Lemma status_ops_length code : slen (ops_text (status_ops code)) <= 100.
Proof.
  unfold ops_text, status_ops. cbn [mbind list_bind op_text]. rewrite !slen_app.
  pose proof (print_int_length 32 code).
  pose proof (get_status_line_length code).
  generalize dependent (get_status_line code). generalize dependent (print_int 32 code).
  intros num Hn line Hl.
  change (slen (lit "HTTP/1.1 ")) with 9. change (slen [" "%char]) with 1.
  change (slen crlf) with 2. change (slen (@nil ascii)) with 0. lia.
Qed.

(** A header that fits is finished. *)
Lemma finish_fit ops :
  slen (ops_text ops) + 2 < end_ptr →
  finish (foldl apply_op new_builder ops) [] = Some (Ok (ops_text ops ++ crlf)).
Proof.
  intros H. unfold finish. cbn [bool_decide negb].
  change (append_slice (foldl apply_op new_builder ops) crlf)
    with (apply_op (foldl apply_op new_builder ops) (OpSlice crlf)).
  change (apply_op (foldl apply_op new_builder ops) (OpSlice crlf))
    with (foldl apply_op (foldl apply_op new_builder ops) [OpSlice crlf]).
  rewrite <- foldl_app.
  assert (ops_text (ops ++ [OpSlice crlf]) = ops_text ops ++ crlf) as Et
    by (unfold ops_text; by rewrite bind_app).
  destruct (apply_ops_fit (ops ++ [OpSlice crlf]) new_builder) as [E1 E2]; [done| |].
  { rewrite Et, slen_app. change (slen crlf) with 2. change (slen (sb_text new_builder)) with 0. lia. }
  rewrite bool_decide_true by done. cbn [negb]. rewrite E1. unfold as_cslice. rewrite E2, Et.
  cbn [new_builder sb_text app].
  replace (_ <=? _) with false; [done|]. symmetry. apply Z.leb_gt.
  rewrite slen_app. change (slen crlf) with 2. unfold RESERVED_SIZE. lia.
Qed.

(** ** Properties *)

(** However many header fields are added, the header is the full text of all of them or the error Too
    many headers, within its 4 KiB buffer; nothing is ever cut. *)
Theorem header_never_truncated ops content r :
  finish (foldl apply_op new_builder ops) content = r →
  r = Some (Ok (ops_text ops ++ crlf ++ content)) ∧ slen (ops_text ops ++ crlf ++ content) < MAX_HEADER
  ∨ r = Some (Err 0 (lit "Too many headers")) ∧ end_ptr <= slen (ops_text ops ++ crlf ++ content).
Proof.
  intros <-. unfold finish.
  set (ops' := ops ++ OpSlice crlf :: if bool_decide (content = []) then [] else [OpSlice content]).
  assert (ops_text ops' = ops_text ops ++ crlf ++ content) as Et.
  { subst ops'. unfold ops_text. rewrite bind_app. f_equal. cbn [mbind list_bind op_text]. f_equal.
    case_bool_decide as Ec; [by subst|]. cbn [mbind list_bind op_text]. by rewrite app_nil_r. }
  assert ((if negb (bool_decide (content = []))
           then append_slice (append_slice (foldl apply_op new_builder ops) crlf) content
           else append_slice (foldl apply_op new_builder ops) crlf)
          = foldl apply_op new_builder ops') as ->.
  { subst ops'. rewrite foldl_app. cbn [foldl apply_op]. by case_bool_decide. }
  destruct (apply_ops_ok ops' new_builder) as [Hok Htext]; [done|].
  rewrite <- Et. destruct (sb_error (foldl apply_op new_builder ops')) eqn:Ee.
  - right. split; [done|]. destruct (Z.ltb_spec (slen (ops_text ops')) end_ptr) as [Hlt|]; [|done].
    destruct (apply_ops_fit ops' new_builder) as [E _]; [done|done|congruence].
  - left. destruct (Htext eq_refl) as [_ E]. cbn [new_builder sb_text app] in E.
    unfold sb_ok, as_cslice in *. rewrite E in Hok |- *. unfold end_ptr, RESERVED_SIZE.
    replace (_ <=? _) with false by lia. split; [done|lia].
Qed.

Lemma header_never_truncated_witness :
  let ops := status_ops 206 ++ header_ops (lit "Content-Length") (print_uint 5) in
  finish (add_header (init_status_line 206) (lit "Content-Length") (print_uint 5)) []
  = Some (Ok (ops_text ops ++ crlf)).
Proof.
  destruct (header_never_truncated (status_ops 206 ++ header_ops (lit "Content-Length") (print_uint 5)) []
              _ eq_refl) as [[H _]|[_ H]].
  - exact H.
  - exfalso. vm_compute in H. apply H. reflexivity.
Defined.

(** A builder that the creator's calls made, and that it always can be finished. *)
Definition built (sb : StringBuilder) : Prop := ∃ ops, sb = foldl apply_op new_builder ops.

Lemma built_add sb key value : built sb → built (add_header sb key value).
Proof. intros [ops ->]. exists (ops ++ header_ops key value). by rewrite foldl_app. Qed.

Lemma built_add_unless (b : bool) sb key value : built sb → built (if b then sb else add_header sb key value).
Proof. intros Hsb. destruct b; [done|by apply built_add]. Qed.

Lemma built_post url : built (init_post url).
Proof. by exists [OpSlice (lit "POST "); OpSlice url; OpSlice (lit " HTTP/1.1" ++ crlf)]. Qed.

Lemma finish_total sb content : built sb → is_Some (finish sb content).
Proof.
  intros [ops ->]. destruct (header_never_truncated ops content _ eq_refl) as [[E _]|[E _]]; rewrite E; eauto.
Qed.
