(* ===== verification/FileStreamCursor.v ===== *)
(** * The cursor of one stream

    [struct FileStreamCursor] of server/FileStreamCore.h with the operations of
    server/FileStreamCursor.cpp: the window [start_offset, end_offset] of the
    file that the response carries, the next byte to send and the contiguous
    prefix that TDLib has downloaded.

    [cursor_ok] is the invariant every operation keeps, whatever the arguments;
    under it no [int64] expression of the code overflows, reads and commits stay
    inside what is downloaded and requested ([cursor_run_invariant]), and the
    read/commit loop sends the requested window exactly once, in order, and
    stops ([stream_window_exact]). *)

From S2P Require Import Prelude.

(** ** FileStreamCore.h *)

Record FileStreamCursor := mkCursor {
  total_size : Z;
  start_offset : Z;
  end_offset : Z;
  next_offset : Z;
  contiguous_end : Z;
}.

(** The default member initializers. *)
Definition new_cursor : FileStreamCursor := mkCursor (-1) 0 (-1) 0 0.

Definition set_total_size (c : FileStreamCursor) (size : Z) : FileStreamCursor :=
  mkCursor size (start_offset c) (end_offset c) (next_offset c) (contiguous_end c).

Definition set_range (c : FileStreamCursor) (start fin : Z) : FileStreamCursor :=
  mkCursor (total_size c) start fin start (contiguous_end c).

Definition is_complete (c : FileStreamCursor) : bool :=
  (total_size c =? 0)
  || ((0 <? total_size c) && (start_offset c <=? end_offset c)
      && (next_offset c =? end_offset c + 1)).

(** ** FileStreamCursor.cpp *)

(** [update_progress] returns the status and the cursor it leaves; a rejected
    report leaves the cursor alone. *)
Definition update_progress (c : FileStreamCursor)
    (download_offset downloaded_prefix_size : Z) (is_completed : bool) :
    status * FileStreamCursor :=
  if (total_size c <? 0) || (download_offset <? 0) || (downloaded_prefix_size <? 0)
     || (total_size c <? download_offset)
     || (total_size c - download_offset <? downloaded_prefix_size)
  then (Err 500 (lit "Inconsistent file download progress"), c)
  else
    let end1 :=
      if (end_offset c <? start_offset c) && (0 <? total_size c) && (start_offset c =? 0)
      then total_size c - 1 else end_offset c in
    let contiguous1 :=
      if (download_offset =? 0) && (contiguous_end c <? downloaded_prefix_size)
      then downloaded_prefix_size else contiguous_end c in
    let contiguous2 :=
      if is_completed && (download_offset =? 0) && (downloaded_prefix_size =? total_size c)
      then total_size c else contiguous1 in
    (Ok tt, mkCursor (total_size c) (start_offset c) end1 (next_offset c) contiguous2).

Definition next_read_size (c : FileStreamCursor) (chunk_size : Z) : Z :=
  if (chunk_size <=? 0) || (total_size c <? 0) || (end_offset c <? start_offset c)
     || (end_offset c <? next_offset c) || (contiguous_end c <=? next_offset c)
  then 0
  else Z.min chunk_size
         (Z.min (contiguous_end c - next_offset c) (end_offset c + 1 - next_offset c)).

Definition commit (c : FileStreamCursor) (offset size : Z) : status * FileStreamCursor :=
  if negb (offset =? next_offset c) || (size <=? 0)
     || (contiguous_end c - next_offset c <? size)
     || (end_offset c + 1 - next_offset c <? size)
  then (Err 500 (lit "Out-of-order, duplicate, or incomplete file stream block"), c)
  else (Ok tt, mkCursor (total_size c) (start_offset c) (end_offset c)
                 (next_offset c + size) (contiguous_end c)).

(** ** Specification *)

(** The window is empty ([0 .. -1], before the range is known or for an empty
    file) or inside the file, and the next byte is inside it or just past it. *)
Record cursor_ok (c : FileStreamCursor) : Prop := {
  ok_size : 0 <= total_size c <= INT64_MAX;
  ok_contiguous : 0 <= contiguous_end c <= total_size c;
  ok_start : 0 <= start_offset c <= next_offset c;
  ok_window : (start_offset c <= end_offset c < total_size c ∧ next_offset c <= end_offset c + 1)
              ∨ (start_offset c = 0 ∧ end_offset c = -1 ∧ next_offset c = 0);
}.

(** One call of an operation that changes the cursor. *)
Inductive cursor_op :=
| OpProgress (download_offset downloaded_prefix_size : Z) (is_completed : bool)
| OpCommit (offset size : Z).

Definition cursor_step (c : FileStreamCursor) (op : cursor_op) : FileStreamCursor :=
  match op with
  | OpProgress o n is_completed => (update_progress c o n is_completed).2
  | OpCommit o n => (commit c o n).2
  end.

(** Every [int64] sum and difference of FileStreamCursor.cpp that the short
    circuits let the code evaluate, for arguments [o] and [n]. *)
Definition cursor_exprs_in_int64 (c : FileStreamCursor) (o n : Z) : Prop :=
  (0 <= o <= total_size c → in_int64 (total_size c - o)) ∧
  in_int64 (total_size c - 1) ∧ in_int64 (end_offset c + 1) ∧
  in_int64 (contiguous_end c - next_offset c) ∧
  in_int64 (end_offset c + 1 - next_offset c) ∧
  ((commit c o n).1 = Ok tt → in_int64 (next_offset c + n)).

(** A part [o, o + n) of a byte string. *)
Definition part {A} (content : list A) (o n : Z) : list A :=
  take (Z.to_nat n) (drop (Z.to_nat o) content).

(** The loop of a consumer for which everything is already downloaded: read
    the next piece, write it, commit it, until the cursor is complete. *)
Fixpoint stream_window (fuel : nat) (c : FileStreamCursor) (chunk_size : Z)
    (content : slice) : option (slice * FileStreamCursor) :=
  if is_complete c then Some ([], c)
  else match fuel with
  | O => None
  | S fuel =>
      let n := next_read_size c chunk_size in
      match commit c (next_offset c) n with
      | (Ok _, c') =>
          '(rest, c'') ← stream_window fuel c' chunk_size content;
          Some (part content (next_offset c) n ++ rest, c'')
      | (Err _ _, _) => None
      end
  end.

(** Fuel that is always enough: one round per byte of the window. *)
Definition window_fuel (c : FileStreamCursor) : nat :=
  Z.to_nat (end_offset c + 1 - next_offset c).

(** ** Facts *)

Lemma part_app {A} (content : list A) o n m :
  0 <= o → 0 <= n → 0 <= m →
  part content o n ++ part content (o + n) m = part content o (n + m).
Proof.
  intros. unfold part. rewrite !Z2Nat.inj_add by lia.
  rewrite <- (take_take_drop (drop (Z.to_nat o) content) (Z.to_nat n) (Z.to_nat m)).
  by rewrite drop_drop.
Qed.

Lemma part_length {A} (content : list A) o n :
  0 <= o → 0 <= n → o + n <= slen content → slen (part content o n) = n.
Proof. intros. unfold part, slen in *. rewrite length_take, length_drop. lia. Qed.

Lemma part_zero {A} (content : list A) o : part content o 0 = [].
Proof. done. Qed.

Lemma part_all {A} (content : list A) : part content 0 (slen content) = content.
Proof. unfold part, slen. rewrite Nat2Z.id, drop_0. apply firstn_all. Qed.

Lemma set_range_ok size start fin :
  0 <= size <= INT64_MAX → (0 <= start <= fin ∧ fin < size) ∨ (start = 0 ∧ fin = -1) →
  cursor_ok (set_range (set_total_size new_cursor size) start fin).
Proof. intros Hs H. destruct H; split; simpl; lia. Qed.

Lemma update_progress_ok_aux c o n done st c' :
  cursor_ok c → update_progress c o n done = (st, c') → cursor_ok c'.
Proof.
  intros [Hs Hc Ha Hw]. unfold update_progress. intros H. split_ifs; inv H;
    try (by split; simpl in *); split; simpl in *; lia.
Qed.

Lemma update_progress_monotone_aux c o n done st c' :
  cursor_ok c → update_progress c o n done = (st, c') →
  contiguous_end c <= contiguous_end c' ∧ next_offset c' = next_offset c
  ∧ start_offset c' = start_offset c ∧ total_size c' = total_size c.
Proof.
  intros [Hs Hc Ha Hw]. unfold update_progress. intros H.
  split_ifs; inv H; simpl in *; lia.
Qed.

Lemma next_read_size_range c chunk :
  cursor_ok c → 0 < next_read_size c chunk →
  next_read_size c chunk <= chunk
  ∧ next_offset c + next_read_size c chunk <= contiguous_end c
  ∧ next_offset c + next_read_size c chunk <= end_offset c + 1.
Proof. unfold next_read_size. intros _. split_ifs; lia. Qed.

Lemma next_read_size_nonneg c chunk : cursor_ok c → 0 <= next_read_size c chunk.
Proof. intros [Hs Hc Ha Hw]. unfold next_read_size. split_ifs; lia. Qed.

(** A read is possible exactly when something requested is downloaded. *)
Lemma next_read_size_pos c chunk :
  cursor_ok c → 0 < chunk →
  0 < next_read_size c chunk ↔
  next_offset c < contiguous_end c ∧ start_offset c <= end_offset c
  ∧ next_offset c <= end_offset c.
Proof. intros [Hs Hc Ha Hw] Hk. unfold next_read_size. split_ifs; lia. Qed.

Lemma commit_ok_iff c o n st c' :
  commit c o n = (st, c') →
  (st = Ok tt ↔ o = next_offset c ∧ 0 < n ∧ next_offset c + n <= contiguous_end c
                ∧ next_offset c + n <= end_offset c + 1)
  ∧ (st = Ok tt → c' = mkCursor (total_size c) (start_offset c) (end_offset c)
                        (next_offset c + n) (contiguous_end c))
  ∧ (st ≠ Ok tt → c' = c).
Proof.
  unfold commit. intros H. split_ifs; inv H; split_and!; try done; split; try done; lia.
Qed.

Lemma commit_preserves c o n st c' :
  cursor_ok c → commit c o n = (st, c') → cursor_ok c'.
Proof.
  intros Hok H. destruct (commit_ok_iff _ _ _ _ _ H) as (H1 & H2 & H3).
  destruct st as [[]|e m]; [|by rewrite H3].
  rewrite H2 by done. destruct H1 as [H1 _]. specialize (H1 eq_refl).
  destruct Hok as [Hs Hc Ha Hw]. split; simpl; lia.
Qed.

Lemma commit_next c chunk :
  cursor_ok c → 0 < next_read_size c chunk →
  commit c (next_offset c) (next_read_size c chunk)
  = (Ok tt, mkCursor (total_size c) (start_offset c) (end_offset c)
              (next_offset c + next_read_size c chunk) (contiguous_end c)).
Proof.
  intros Hok Hn. pose proof (next_read_size_range _ _ Hok Hn) as H.
  unfold commit. split_ifs; [lia|done].
Qed.

Lemma is_complete_iff c :
  cursor_ok c →
  is_complete c = true ↔
  total_size c = 0 ∨ (start_offset c <= end_offset c ∧ next_offset c = end_offset c + 1).
Proof. intros [Hs Hc Ha Hw]. unfold is_complete. lia. Qed.

Lemma stream_window_result fuel c chunk content :
  cursor_ok c → 0 < chunk → start_offset c <= end_offset c →
  contiguous_end c = total_size c →
  (window_fuel c <= fuel)%nat →
  ∃ c', stream_window fuel c chunk content
        = Some (part content (next_offset c) (end_offset c + 1 - next_offset c), c')
        ∧ is_complete c' = true ∧ next_offset c' = end_offset c + 1.
Proof.
  intros Hok Hchunk Hwin Hall. unfold window_fuel.
  revert c Hok Hwin Hall; induction fuel as [|fuel IH]; intros c Hok Hwin Hall Hf.
  - pose proof Hok as [Hs Hc Ha Hw].
    assert (next_offset c = end_offset c + 1) as E by lia.
    assert (is_complete c = true) as Hcomp by (apply is_complete_iff; [done|right; lia]).
    exists c. cbn [stream_window]. rewrite Hcomp. rewrite E, Z.sub_diag. split_and!; done.
  - cbn [stream_window]. destruct (is_complete c) eqn:Hcomp.
    + apply is_complete_iff in Hcomp; [|done].
      pose proof Hok as [Hs Hc Ha Hw].
      destruct Hcomp as [H0|[_ E]]; [lia|].
      exists c. rewrite E, Z.sub_diag. split_and!; try done.
      apply is_complete_iff; [done|right; lia].
    + assert (0 < next_read_size c chunk) as Hn.
      { apply next_read_size_pos; [done|done|].
        pose proof (proj2 (is_complete_iff c Hok)) as Hi. rewrite Hcomp in Hi.
        destruct Hok as [Hs Hc Ha Hw].
        assert (next_offset c ≠ end_offset c + 1) by (intros E; discriminate Hi; right; lia).
        lia. }
      pose proof (next_read_size_range _ _ Hok Hn) as Hr.
      pose proof (commit_next c chunk Hok Hn) as Hcm. rewrite Hcm.
      pose proof (commit_preserves _ _ _ _ _ Hok Hcm) as Hok'.
      set (n := next_read_size c chunk) in *.
      destruct (IH _ Hok' ltac:(done) ltac:(done) ltac:(simpl; lia)) as (c' & E & H1 & H2).
      rewrite E. simpl in *. exists c'. split_and!; [|done|done].
      do 2 f_equal. destruct Hok as [Hs Hc Ha Hw].
      rewrite part_app by lia. f_equal. lia.
Qed.

(** What is committed was downloaded: past its start the cursor never runs
    ahead of the contiguous prefix. *)
Definition cursor_backed (start : Z) (c : FileStreamCursor) : Prop :=
  start_offset c = start ∧ (next_offset c = start ∨ next_offset c <= contiguous_end c).

Lemma cursor_step_ok start c op :
  cursor_ok c → cursor_backed start c →
  cursor_ok (cursor_step c op) ∧ cursor_backed start (cursor_step c op)
  ∧ next_offset c <= next_offset (cursor_step c op)
  ∧ contiguous_end c <= contiguous_end (cursor_step c op).
Proof.
  intros Hok [Hb1 Hb2]. unfold cursor_backed. destruct op as [o n d|o n]; simpl.
  - destruct (update_progress c o n d) as [st c'] eqn:E. simpl.
    pose proof (update_progress_ok_aux _ _ _ _ _ _ Hok E).
    pose proof (update_progress_monotone_aux _ _ _ _ _ _ Hok E) as (? & ? & ? & ?).
    split_and!; try done; lia.
  - destruct (commit c o n) as [st c'] eqn:E. simpl.
    pose proof (commit_preserves _ _ _ _ _ Hok E).
    destruct (commit_ok_iff _ _ _ _ _ E) as (H1 & H2 & H3).
    destruct st as [[]|e m]; [|rewrite H3 in * by done; split_and!; try done; lia].
    rewrite H2 in * by done. simpl in *. destruct H1 as [H1 _]. specialize (H1 eq_refl).
    split_and!; try done; lia.
Qed.

Lemma cursor_exprs_ok c o n : cursor_ok c → cursor_exprs_in_int64 c o n.
Proof.
  intros Hok. pose proof Hok as [Hs Hc Ha Hw].
  assert (INT64_MAX = 9223372036854775807) as Em by reflexivity.
  unfold cursor_exprs_in_int64, in_int64. split_and!; try lia.
  destruct (commit c o n) as [st c'] eqn:E. simpl. intros ->.
  destruct (commit_ok_iff _ _ _ _ _ E) as ([H1 _] & _). specialize (H1 eq_refl). lia.
Qed.

(** ** Properties *)

(** Whatever progress reports and commits a cursor gets, it keeps its offsets ordered within the file
    and within 64 bits, never goes back, only offers bytes that are downloaded, and accepts the commit of
    what it offered. *)
Theorem cursor_run_invariant size start fin ops op o n chunk :
  0 <= size <= INT64_MAX →
  (0 <= start <= fin ∧ fin < size) ∨ (start = 0 ∧ fin = -1) →
  let c := foldl cursor_step (set_range (set_total_size new_cursor size) start fin) ops in
  cursor_ok c ∧ cursor_backed start c ∧ cursor_exprs_in_int64 c o n
  ∧ next_offset c <= next_offset (cursor_step c op)
  ∧ contiguous_end c <= contiguous_end (cursor_step c op)
  ∧ (0 < next_read_size c chunk →
       next_read_size c chunk <= chunk
       ∧ (commit c (next_offset c) (next_read_size c chunk)).1 = Ok tt).
Proof.
  intros Hs Hw c.
  assert (cursor_ok c ∧ cursor_backed start c) as [Hok Hb].
  { subst c. assert (cursor_ok (set_range (set_total_size new_cursor size) start fin)) as H0
      by (by apply set_range_ok).
    assert (cursor_backed start (set_range (set_total_size new_cursor size) start fin)) as H1
      by (split; [done|by left]).
    revert H0 H1. generalize (set_range (set_total_size new_cursor size) start fin).
    induction ops as [|op' ops IH]; intros c0 H0 H1; [done|]. simpl.
    destruct (cursor_step_ok start c0 op' H0 H1) as (? & ? & _). by apply IH. }
  destruct (cursor_step_ok start c op Hok Hb) as (_ & _ & Hn & Hc).
  split_and!; [done|done|by apply cursor_exprs_ok|done|done|].
  intros Hr. split; [by apply next_read_size_range|]. by rewrite commit_next.
Qed.

Lemma cursor_run_invariant_witness :
  (0 <= 10 <= INT64_MAX) ∧
  let c := foldl cursor_step (set_range (set_total_size new_cursor 10) 2 6)
             [OpProgress 0 5 false; OpCommit 2 3; OpCommit 2 3] in
  next_offset c = 5 ∧ cursor_ok c.
Proof.
  split; [vm_compute; split; congruence|]. split; [reflexivity|].
  refine (proj1 (cursor_run_invariant 10 2 6
    [OpProgress 0 5 false; OpCommit 2 3; OpCommit 2 3] (OpCommit 0 0) 0 0 4 _ _)).
  - vm_compute; split; congruence.
  - left; vm_compute; split; [split|]; congruence.
Defined.

(** Reading and committing chunk after chunk of a downloaded file produces exactly the bytes of the
    requested window and ends with a complete cursor. *)
Theorem stream_window_exact size start fin chunk content fuel :
  0 < size <= INT64_MAX → 0 <= start <= fin → fin < size → 0 < chunk →
  slen content = size → (Z.to_nat (fin + 1 - start) <= fuel)%nat →
  let c := (update_progress (set_range (set_total_size new_cursor size) start fin) 0 size true).2 in
  ∃ c', stream_window fuel c chunk content = Some (part content start (fin + 1 - start), c')
        ∧ slen (part content start (fin + 1 - start)) = fin + 1 - start
        ∧ is_complete c' = true ∧ next_offset c' = fin + 1.
Proof.
  intros Hs Hr Hf Hchunk Hlen Hfuel c.
  assert (cursor_ok (set_range (set_total_size new_cursor size) start fin)) as H0
    by (apply set_range_ok; lia).
  assert (c = mkCursor size start fin start size) as Ec.
  { subst c. unfold update_progress. simpl. split_ifs; simpl; try lia; reflexivity. }
  assert (cursor_ok c) as Hok by (rewrite Ec; split; simpl; lia).
  destruct (stream_window_result fuel c chunk content) as (c' & E & H1 & H2);
    [done|done|rewrite Ec; simpl; lia|by rewrite Ec|rewrite Ec; unfold window_fuel; simpl; lia|].
  rewrite Ec in E. simpl in E. exists c'. rewrite Ec. split_and!; [done| |done|].
  - apply part_length; lia.
  - by rewrite Ec in H2.
Qed.

Lemma stream_window_exact_witness :
  0 < 5 <= INT64_MAX ∧
  let c := (update_progress (set_range (set_total_size new_cursor 5) 1 3) 0 5 true).2 in
  ∃ c', stream_window 3 c 2 (lit "hello") = Some (part (lit "hello") 1 3, c')
        ∧ slen (part (lit "hello") 1 3) = 3 ∧ is_complete c' = true ∧ next_offset c' = 4.
Proof.
  split; [split; reflexivity || (vm_compute; congruence)|].
  refine (stream_window_exact 5 1 3 2 (lit "hello") 3 _ _ _ _ _ _);
    [vm_compute; split; congruence|lia|lia|lia|reflexivity|vm_compute; lia].
Defined.
