(* ===== verification/IpAddress.v ===== *)
(** * Network addresses

    [class IPAddress] of td/tdutils/td/utils/port/IPAddress.{h,cpp}: a union of
    socket addresses with a validity flag.  The initializers, the accessors,
    the classification of reserved addresses and the two comparison
    operators.

    [inet_pton] and [inet_ntop] belong to the C library: the first is a
    parameter of the definitions that parse text ([None] is its result 0; the
    result -1 means an unsupported family and does not occur for the two
    families of the program); printing addresses is not modelled. *)

From S2P Require Import Prelude Slices.

(** An IPv4 address is its value in host byte order, an IPv6 address its 16
    bytes; the port is in host byte order. *)
Inductive IPAddress :=
| ip_invalid
| ip_v4 (addr : Z) (port : Z)
| ip_v6 (addr : list Z) (port : Z).

Definition ip_is_valid (a : IPAddress) : bool :=
  match a with ip_invalid => false | _ => true end.
Definition is_ipv4 (a : IPAddress) : bool := match a with ip_v4 _ _ => true | _ => false end.
Definition is_ipv6 (a : IPAddress) : bool := match a with ip_v6 _ _ => true | _ => false end.

(** The [CHECK]s of the accessors are the [None]s. *)
Definition get_ipv4 (a : IPAddress) : option Z :=
  match a with ip_v4 ip _ => Some ip | _ => None end.
Definition get_ipv6 (a : IPAddress) : option (list Z) :=
  match a with ip_v6 ip _ => Some ip | _ => None end.
Definition get_port (a : IPAddress) : Z :=
  match a with ip_invalid => 0 | ip_v4 _ p => p | ip_v6 _ p => p end.
Definition set_port (a : IPAddress) (port : Z) : option IPAddress :=
  match a with
  | ip_invalid => None
  | ip_v4 ip _ => Some (ip_v4 ip (wrap 16 port))
  | ip_v6 ip _ => Some (ip_v6 ip (wrap 16 port))
  end.
Definition get_any_addr (a : IPAddress) : option IPAddress :=
  match a with
  | ip_invalid => None
  | ip_v6 _ _ => Some (ip_v6 (replicate 16 0) 0)
  | ip_v4 _ _ => Some (ip_v4 0 0)
  end.

(** [clear_ipv6_interface] zeroes the last 8 bytes. *)
Definition clear_ipv6_interface (a : IPAddress) : IPAddress :=
  match a with
  | ip_v6 ip p => ip_v6 (take 8 ip ++ replicate 8 0) p
  | _ => a
  end.

Section Text.
  Context (inet_pton4 : slice → option Z) (inet_pton6 : slice → option (list Z)).

  (** The text up to the first NUL, as [c_str()] hands it to the C library. *)
Definition c_str (s : slice) : slice := take_while (fun c => negb (bool_decide (c = "000"%char))) s.

Definition port_is_valid (port : Z) : bool := (0 <? port) && (port <? 65536).

  (** Each initializer returns its status and the address it leaves. *)
Definition init_ipv4_port (ipv4 : slice) (port : Z) : status * IPAddress :=
  if negb (port_is_valid port) then (Err 0 (lit "Invalid [IPv4 address port]"), ip_invalid)
  else match inet_pton4 (c_str ipv4) with
  | Some ip => (Ok tt, ip_v4 ip port)
  | None => (Err 0 (lit "Failed inet_pton(AF_INET, " ++ ipv4 ++ lit ")"), ip_invalid)
  end.

  (** Brackets around an IPv6 literal are dropped. *)
Definition strip_brackets (s : slice) : slice :=
  if (2 <? length s)%nat && bool_decide (head s = Some "["%char)
     && bool_decide (last s = Some "]"%char)
  then take (length s - 2) (drop 1 s) else s.

Definition init_ipv6_port (ipv6 : slice) (port : Z) : status * IPAddress :=
  if negb (port_is_valid port) then (Err 0 (lit "Invalid [IPv6 address port]"), ip_invalid)
  else match inet_pton6 (c_str (strip_brackets ipv6)) with
  | Some ip => (Ok tt, ip_v6 ip port)
  | None => (Err 0 (lit "Failed inet_pton(AF_INET6, " ++ ipv6 ++ lit ")"), ip_invalid)
  end.

Definition init_ipv6_as_ipv4_port (ipv4 : slice) (port : Z) : status * IPAddress :=
  init_ipv6_port (lit "::FFFF:" ++ ipv4) port.

Definition get_ipv6_address (host : slice) : result IPAddress :=
  match init_ipv6_port host 1 with
  | (Ok _, a) => Ok a
  | (Err _ _, _) => Err 0 (["034"%char] ++ host ++ ["034"%char] ++ lit " is not a valid IPv6 address")
  end.

Definition reserved_blocks : list (slice * Z) :=
  [(lit "0.0.0.0", 8); (lit "10.0.0.0", 8); (lit "100.64.0.0", 10); (lit "127.0.0.0", 8);
   (lit "169.254.0.0", 16); (lit "172.16.0.0", 12); (lit "192.0.0.0", 24); (lit "192.0.2.0", 24);
   (lit "192.88.99.0", 24); (lit "192.168.0.0", 16); (lit "198.18.0.0", 15);
   (lit "198.51.100.0", 24); (lit "203.0.113.0", 24); (lit "224.0.0.0", 3)].

Definition block_mask (mask : Z) : Z :=
  wrap 32 (Z.shiftl (Z.shiftr (2 ^ 32 - 1) (32 - mask)) (32 - mask)).

Fixpoint in_reserved (blocks : list (slice * Z)) (ip : Z) : option bool :=
  match blocks with
  | [] => Some false
  | (text, mask) :: blocks =>
      match init_ipv4_port text 80 with
      | (Ok _, a) =>
          range ← get_ipv4 a;
          if Z.land ip (block_mask mask) =? Z.land range (block_mask mask) then Some true
          else in_reserved blocks ip
      | (Err _ _, _) => None
      end
  end.

  (** [is_reserved]; [ensure()] and the [CHECK]s abort. *)
Definition is_reserved (a : IPAddress) : option bool :=
  match a with
  | ip_invalid => None
  | ip_v6 _ _ => Some true
  | ip_v4 ip _ => in_reserved reserved_blocks ip
  end.
End Text.

(** ** Comparison *)

(** A port as it is stored, in network byte order, read by a little-endian
    machine. *)
Definition swap16 (p : Z) : Z := (p mod 256) * 256 + p / 256.

(** [memcmp] on byte strings of the same length. *)
Fixpoint memcmp (a b : list Z) : Z :=
  match a, b with
  | x :: a', y :: b' => if x <? y then -1 else if y <? x then 1 else memcmp a' b'
  | _, _ => 0
  end.

Definition be_bytes4 (ip : Z) : list Z :=
  [ip / 2 ^ 24; (ip / 2 ^ 16) mod 256; (ip / 2 ^ 8) mod 256; ip mod 256].

Definition ip_eqb (a b : IPAddress) : bool :=
  match a, b with
  | ip_v4 x p, ip_v4 y q => (p =? q) && (memcmp (be_bytes4 x) (be_bytes4 y) =? 0)
  | ip_v6 x p, ip_v6 y q => (p =? q) && (memcmp x y =? 0)
  | ip_invalid, ip_invalid => true
  | _, _ => false
  end.

Definition ip_ltb (a b : IPAddress) : bool :=
  match a, b with
  | ip_invalid, _ => ip_is_valid b
  | _, ip_invalid => false
  | ip_v4 _ _, ip_v6 _ _ => true
  | ip_v6 _ _, ip_v4 _ _ => false
  | ip_v4 x p, ip_v4 y q =>
      if negb (p =? q) then swap16 p <? swap16 q else memcmp (be_bytes4 x) (be_bytes4 y) <? 0
  | ip_v6 x p, ip_v6 y q =>
      if negb (p =? q) then swap16 p <? swap16 q else memcmp x y <? 0
  end.

(** ** Specification and facts *)

Definition byte_list (l : list Z) : Prop := Forall (fun b => 0 <= b < 256) l.

(** What the socket layer and the parsers can produce. *)
Definition ip_ok (a : IPAddress) : Prop :=
  match a with
  | ip_invalid => True
  | ip_v4 ip p => 0 <= ip < 2 ^ 32 ∧ 0 <= p < 65536
  | ip_v6 ip p => length ip = 16%nat ∧ byte_list ip ∧ 0 <= p < 65536
  end.

(** The number a big-endian byte string stands for. *)
Definition be_value (acc : Z) (l : list Z) : Z := foldl (fun acc b => acc * 256 + b) acc l.

Lemma be_value_app acc l k : be_value acc (l ++ k) = be_value (be_value acc l) k.
Proof. apply foldl_app. Qed.

Lemma be_value_shift acc l : be_value acc l = acc * 256 ^ slen l + be_value 0 l.
Proof.
  revert acc. induction l as [|x l IH] using rev_ind; intros acc.
  { unfold be_value, slen. simpl. lia. }
  rewrite !be_value_app. simpl. rewrite (IH acc). rewrite slen_app.
  change (slen [x]) with 1. rewrite Z.pow_add_r by (try apply slen_nonneg; lia). lia.
Qed.

Lemma be_value_range l : byte_list l → 0 <= be_value 0 l < 256 ^ slen l.
Proof.
  induction l as [|x l IH] using rev_ind; intros H; [done|].
  apply Forall_app in H as [H1 H2]. rewrite Forall_singleton in H2.
  rewrite be_value_app, slen_app. change (slen [x]) with 1.
  change (be_value (be_value 0 l) [x]) with (be_value 0 l * 256 + x).
  rewrite Z.pow_add_r by (try apply slen_nonneg; lia). specialize (IH H1).
  change (256 ^ 1) with 256. lia.
Qed.

Lemma be_value_inj l k :
  length l = length k → byte_list l → byte_list k → be_value 0 l = be_value 0 k → l = k.
Proof.
  revert k. induction l as [|x l IH] using rev_ind; intros k Hlen Hl Hk E.
  - by destruct k.
  - destruct k as [|y k _] using rev_ind; [rewrite length_app in Hlen; simpl in Hlen; lia|].
    rewrite !length_app in Hlen. simpl in Hlen.
    apply Forall_app in Hl as [Hl Hx]. apply Forall_app in Hk as [Hk Hy].
    rewrite Forall_singleton in Hx, Hy. rewrite !be_value_app in E. simpl in E.
    assert (be_value 0 l = be_value 0 k ∧ x = y) as [E1 ->] by lia.
    f_equal. apply IH; [lia|done..].
Qed.

(** [memcmp] compares the numbers. *)
Lemma memcmp_spec l k :
  length l = length k → byte_list l → byte_list k →
  memcmp l k = match be_value 0 l ?= be_value 0 k with Lt => -1 | Eq => 0 | Gt => 1 end.
Proof.
  revert k. induction l as [|x l IH]; intros [|y k] Hlen Hl Hk; try done.
  apply Forall_cons in Hl as [Hx Hl]. apply Forall_cons in Hk as [Hy Hk].
  injection Hlen as Hlen. cbn [memcmp]. unfold be_value. cbn [foldl]. fold (be_value (0 * 256 + x) l).
  fold (be_value (0 * 256 + y) k). rewrite (be_value_shift _ l), (be_value_shift _ k).
  assert (slen k = slen l) as -> by (unfold slen; by rewrite Hlen).
  pose proof (be_value_range l Hl) as Rl. pose proof (be_value_range k Hk) as Rk.
  assert (slen k = slen l) as Es by (unfold slen; by rewrite Hlen). rewrite Es in Rk.
  rewrite (IH k Hlen Hl Hk).
  destruct (Z.ltb_spec x y); [|destruct (Z.ltb_spec y x)].
  - assert (((0 * 256 + x) * 256 ^ slen l + be_value 0 l
             ?= (0 * 256 + y) * 256 ^ slen l + be_value 0 k) = Lt) as -> by (apply Z.compare_lt_iff; nia).
    done.
  - assert (((0 * 256 + x) * 256 ^ slen l + be_value 0 l
             ?= (0 * 256 + y) * 256 ^ slen l + be_value 0 k) = Gt) as -> by (apply Z.compare_gt_iff; nia).
    done.
  - assert (x = y) as -> by lia. by rewrite Z.add_compare_mono_l.
Qed.

Lemma be_bytes4_ok ip :
  0 <= ip < 2 ^ 32 → byte_list (be_bytes4 ip) ∧ be_value 0 (be_bytes4 ip) = ip.
Proof.
  intros H. unfold be_bytes4, byte_list, be_value. cbn [foldl].
  change (2 ^ 32) with 4294967296 in *. change (2 ^ 24) with 16777216.
  change (2 ^ 16) with 65536. change (2 ^ 8) with 256.
  split; [repeat apply Forall_cons_2; try apply Forall_nil_2|];
    Z.to_euclidean_division_equations; lia.
Qed.

(** The stored port is a permutation of the ports. *)
Lemma swap16_inj p q : 0 <= p < 65536 → 0 <= q < 65536 → swap16 p = swap16 q → p = q.
Proof. unfold swap16. intros. Z.to_euclidean_division_equations. lia. Qed.

(** The sort key of an address. *)
Definition ip_key (a : IPAddress) : Z * Z * Z :=
  match a with
  | ip_invalid => (0, 0, 0)
  | ip_v4 ip p => (1, swap16 p, ip)
  | ip_v6 ip p => (2, swap16 p, be_value 0 ip)
  end.

Definition key_lt (a b : Z * Z * Z) : Prop :=
  let '(a1, a2, a3) := a in let '(b1, b2, b3) := b in
  a1 < b1 ∨ a1 = b1 ∧ (a2 < b2 ∨ a2 = b2 ∧ a3 < b3).

Lemma memcmp_v4 x y :
  0 <= x < 2 ^ 32 → 0 <= y < 2 ^ 32 →
  memcmp (be_bytes4 x) (be_bytes4 y) = match x ?= y with Lt => -1 | Eq => 0 | Gt => 1 end.
Proof.
  intros Hx Hy. destruct (be_bytes4_ok _ Hx) as [? Ex], (be_bytes4_ok _ Hy) as [? Ey].
  rewrite memcmp_spec by done. by rewrite Ex, Ey.
Qed.

Lemma memcmp_v6 x y :
  length x = 16%nat → byte_list x → length y = 16%nat → byte_list y →
  memcmp x y = match be_value 0 x ?= be_value 0 y with Lt => -1 | Eq => 0 | Gt => 1 end.
Proof. intros. apply memcmp_spec; [congruence|done..]. Qed.

Lemma ip_ltb_key a b : ip_ok a → ip_ok b → ip_ltb a b = true ↔ key_lt (ip_key a) (ip_key b).
Proof.
  destruct a as [|x p|x p], b as [|y q|y q]; cbn [ip_ltb ip_ok ip_key ip_is_valid key_lt];
    intros Ha Hb; try lia; try done.
  - destruct Ha, Hb. rewrite memcmp_v4 by done. destruct (Z.eqb_spec p q) as [->|Hpq]; cbn [negb].
    + destruct (Z.compare_spec x y); lia.
    + pose proof (swap16_inj p q). lia.
  - destruct Ha as (? & ? & ?), Hb as (? & ? & ?). rewrite memcmp_v6 by done.
    destruct (Z.eqb_spec p q) as [->|Hpq]; cbn [negb].
    + destruct (Z.compare_spec (be_value 0 x) (be_value 0 y)); lia.
    + pose proof (swap16_inj p q). lia.
Qed.

Lemma ip_key_inj a b : ip_ok a → ip_ok b → ip_key a = ip_key b → a = b.
Proof.
  destruct a as [|x p|x p], b as [|y q|y q]; cbn [ip_ok ip_key]; intros Ha Hb E; try done.
  - injection E as E1 E2. rewrite (swap16_inj p q) by lia. by rewrite E2.
  - injection E as E1 E2. destruct Ha as (? & ? & ?), Hb as (? & ? & ?).
    rewrite (swap16_inj p q) by done. rewrite (be_value_inj x y); [done|congruence|done..].
Qed.

Lemma ip_eqb_eq a b : ip_ok a → ip_ok b → ip_eqb a b = true ↔ a = b.
Proof.
  destruct a as [|x p|x p], b as [|y q|y q]; cbn [ip_eqb ip_ok]; intros Ha Hb; try done.
  - destruct Ha, Hb. rewrite memcmp_v4 by done. rewrite andb_true_iff, !Z.eqb_eq.
    split; [|intros E; injection E as -> ->; rewrite Z.compare_refl; lia].
    intros [-> E]. destruct (Z.compare_spec x y); subst; done.
  - destruct Ha as (? & ? & ?), Hb as (? & ? & ?). rewrite memcmp_v6 by done.
    rewrite andb_true_iff, !Z.eqb_eq.
    split; [|intros E; injection E as -> ->; rewrite Z.compare_refl; lia].
    intros [-> E]. f_equal. apply be_value_inj; [congruence|done..|].
    by destruct (Z.compare_spec (be_value 0 x) (be_value 0 y)).
Qed.

(** ** Properties *)

(** Equality of addresses is equality and their order is a strict total order, as the containers keyed
    by them need. *)
Theorem ip_order_strict_total a b c :
  ip_ok a → ip_ok b → ip_ok c →
  (ip_eqb a b = true ↔ a = b)
  ∧ ip_ltb a a = false
  ∧ (ip_ltb a b = true → ip_ltb b c = true → ip_ltb a c = true)
  ∧ (ip_ltb a b = true ∨ a = b ∨ ip_ltb b a = true).
Proof.
  intros Ha Hb Hc.
  pose proof (ip_ltb_key a b Ha Hb) as Eab. pose proof (ip_ltb_key b a Hb Ha) as Eba.
  pose proof (ip_ltb_key b c Hb Hc) as Ebc. pose proof (ip_ltb_key a c Ha Hc) as Eac.
  pose proof (ip_ltb_key a a Ha Ha) as Eaa. pose proof (ip_key_inj a b Ha Hb) as Hinj.
  split; [by apply ip_eqb_eq|].
  unfold key_lt in *. destruct (ip_key a) as [[a1 a2] a3], (ip_key b) as [[b1 b2] b3],
    (ip_key c) as [[c1 c2] c3]. split_and!.
  - destruct (ip_ltb a a); [|done]. destruct Eaa as [H _]. specialize (H eq_refl). lia.
  - rewrite Eab, Ebc, Eac. lia.
  - rewrite Eab, Eba. assert (a1 = b1 ∧ a2 = b2 ∧ a3 = b3 ∨ ¬ (a1 = b1 ∧ a2 = b2 ∧ a3 = b3))
      as [(-> & -> & ->)|] by lia; [right; left; by apply Hinj|lia].
Qed.

Lemma ip_order_strict_total_witness :
  ip_ltb (ip_v4 1 80) (ip_v4 2 80) = true ∧ ip_ltb (ip_v4 1 80) (ip_v4 1 80) = false.
Proof.
  split; [reflexivity|].
  refine (proj1 (proj2 (ip_order_strict_total (ip_v4 1 80) (ip_v4 2 80) ip_invalid _ _ _)));
    simpl; lia || exact I.
Defined.
