(* ===== verification/PathView.v ===== *)
(** * Paths

    [class PathView] of [tdutils/td/utils/PathView.h] and [PathView.cpp]: a
    path cut at its last slash and at the last dot of its file name.  The
    positions are [int32]; the constructor's [narrow_cast] aborts the process
    on a path that is too long.

    [path_view_decomposes] says what the views of a path are. *)

From S2P Require Import Prelude Slices.

(** [PathView::is_slash] *)
Definition is_slash (c : ascii) : bool := bool_decide (c = "/"%char) || bool_decide (c = "\"%char).

Record PathView := mkPathView { path_ : slice; last_slash_ : Z; last_dot_ : Z }.

(** The loops of the constructor, which go left from a position. *)
Fixpoint slash_below (path : slice) (pos : nat) : Z :=
  match pos with
  | O => -1
  | S pos =>
      if is_slash (nth pos path "000"%char) then Z.of_nat pos else slash_below path pos
  end.
Fixpoint dot_below (path : slice) (last_slash : Z) (pos : nat) : Z :=
  match pos with
  | O => slen path
  | S pos =>
      if last_slash + 1 <? Z.of_nat pos then
        if bool_decide (nth pos path "000"%char = "."%char) then Z.of_nat pos
        else dot_below path last_slash pos
      else slen path
  end.

(** [PathView(Slice)] *)
Definition new_PathView (path : slice) : option PathView :=
  (CHECK! slen path <=? INT32_MAX ;;
   let last_slash := slash_below path (length path) in
   Some (mkPathView path last_slash (dot_below path last_slash (length path))))%td.

Section Views.
Context (v : PathView).

Definition is_dir : bool :=
  match last (path_ v) with Some c => is_slash c | None => false end.
Definition parent_dir : slice := take (Z.to_nat (last_slash_ v + 1)) (path_ v).
Definition parent_dir_noslash : slice :=
  if last_slash_ v <? 0 then lit "."
  else if last_slash_ v =? 0 then lit "/"
  else take (Z.to_nat (last_slash_ v)) (path_ v).
Definition extension : slice :=
  if last_dot_ v =? slen (path_ v) then [] else drop (Z.to_nat (last_dot_ v + 1)) (path_ v).
Definition without_extension : slice := take (Z.to_nat (last_dot_ v)) (path_ v).
Definition file_stem : slice :=
  take (Z.to_nat (last_dot_ v - last_slash_ v - 1)) (drop (Z.to_nat (last_slash_ v + 1)) (path_ v)).
Definition file_name : slice := drop (Z.to_nat (last_slash_ v + 1)) (path_ v).
Definition is_absolute : bool :=
  match path_ v with
  | [] => false
  | c :: _ =>
      is_slash c
      || (3 <=? slen (path_ v)) && bool_decide (nth 1 (path_ v) "000"%char = ":"%char)
         && is_slash (nth 2 (path_ v) "000"%char)
  end.
Definition is_relative : bool := negb is_absolute.
End Views.

(** [PathView::relative] *)
Definition relative (path dir : slice) (force : bool) : slice :=
  if begins_with path dir then drop (length dir) path else if force then [] else path.

(** [PathView::dir_and_file], for paths whose size is an [int32]. *)
Definition dir_and_file (path : slice) : slice :=
  let last_slash := slash_below path (length path) in
  if last_slash <? 0 then []
  else
    let last_slash := slash_below path (Z.to_nat last_slash) in
    if last_slash <? 0 then [] else drop (Z.to_nat (last_slash + 1)) path.

(** ** Facts *)

Lemma slash_below_spec path pos :
  let s := slash_below path pos in
  -1 <= s < Z.max 0 (Z.of_nat pos)
  ∧ (∀ i, s < Z.of_nat i < Z.of_nat pos → is_slash (nth i path "000"%char) = false)
  ∧ (0 <= s → is_slash (nth (Z.to_nat s) path "000"%char) = true).
Proof.
  induction pos as [|pos IH]; cbn [slash_below]; cbv zeta; [split_and!; intros; lia|].
  destruct (is_slash _) eqn:E.
  - split_and!; [lia|lia|intros; lia|]. intros _. by rewrite Nat2Z.id.
  - destruct IH as (H1 & H2 & H3). split_and!; [lia|lia| |done]. intros i Hi.
    destruct (decide (i = pos)) as [->|]; [done|]. apply H2. lia.
Qed.

Lemma dot_below_spec path low pos :
  Z.of_nat pos <= slen path →
  let d := dot_below path low pos in
  d = slen path
  ∨ low + 1 < d < Z.of_nat pos ∧ nth (Z.to_nat d) path "000"%char = "."%char
    ∧ ∀ i, d < Z.of_nat i < Z.of_nat pos → nth i path "000"%char ≠ "."%char.
Proof.
  intros Hpos. induction pos as [|pos IH]; cbn [dot_below]; cbv zeta; [by left|].
  destruct (low + 1 <? Z.of_nat pos) eqn:El; [|by left].
  case_bool_decide as E.
  - right. rewrite Nat2Z.id. split_and!; [lia|lia|done|lia].
  - destruct IH as [?|(H1 & H2 & H3)]; [lia|by left|]. right.
    split_and!; [lia|lia|done|]. intros i Hi.
    destruct (decide (i = pos)) as [->|]; [done|]. apply H3. lia.
Qed.

(** A property of all the characters of a suffix, by their positions. *)
Lemma Forall_drop_nth (P : ascii → Prop) (l : slice) n d :
  (∀ i, (n <= i < length l)%nat → P (nth i l d)) → Forall P (drop n l).
Proof.
  intros H. apply Forall_lookup. intros i x Hx. rewrite lookup_drop in Hx.
  pose proof (lookup_lt_Some _ _ _ Hx). rewrite <- (nth_lookup_Some _ _ d _ Hx).
  apply H. lia.
Qed.

Lemma drop_nth_cons (l : slice) n d :
  (n < length l)%nat → drop n l = nth n l d :: drop (S n) l.
Proof.
  intros H. destruct (lookup_lt_is_Some_2 l n H) as [x Hx].
  rewrite (drop_S _ _ _ Hx). f_equal. symmetry. by apply nth_lookup_Some.
Qed.

Lemma new_PathView_ok path :
  slen path <= INT32_MAX → is_Some (new_PathView path).
Proof. intros H. unfold new_PathView, CHECK. replace (_ <=? _) with true by lia. eauto. Qed.

Lemma file_name_no_slash path v :
  new_PathView path = Some v → Forall (fun c => is_slash c = false) (file_name v).
Proof.
  unfold new_PathView, CHECK. case_match; [|done]. intros [= <-]. unfold file_name. cbn.
  destruct (slash_below_spec path (length path)) as (H1 & H2 & _).
  apply (Forall_drop_nth _ _ _ "000"%char). intros i Hi. apply H2. lia.
Qed.

(** The name is what follows the last slash. *)
Lemma file_name_app l c name v :
  is_slash c = true → Forall (fun c => is_slash c = false) name →
  new_PathView (l ++ c :: name) = Some v → file_name v = name.
Proof.
  intros Hc Hname. unfold new_PathView, CHECK. case_match; [|done]. intros [= <-]. unfold file_name. cbn.
  destruct (slash_below_spec (l ++ c :: name) (length (l ++ c :: name))) as (H1 & H2 & H3).
  set (s := slash_below _ _) in *. rewrite length_app in *. cbn [length] in *.
  assert (s = slen l) as ->.
  { unfold slen. destruct (decide (s < slen l)) as [Hlt|Hge]; unfold slen in *.
    - specialize (H2 (length l) ltac:(lia)). rewrite app_nth2, Nat.sub_diag in H2 by lia. cbn in H2. congruence.
    - destruct (decide (s = Z.of_nat (length l))) as [|Hne]; [done|]. specialize (H3 ltac:(lia)).
      rewrite app_nth2 in H3 by lia. destruct (Z.to_nat s - length l)%nat as [|k] eqn:Ek; [lia|]. cbn in H3.
      rewrite Forall_forall in Hname. rewrite (Hname (nth k name "000"%char)) in H3; [done|].
      apply list_elem_of_In, nth_In. lia. }
  unfold slen. replace (Z.to_nat (Z.of_nat (length l) + 1)) with (length (l ++ [c]))
    by (rewrite length_app; cbn; lia).
  change (c :: name) with ([c] ++ name). rewrite (assoc_L (++)). apply drop_app_length.
Qed.

(** The views of a path: directory and name, the name without a slash, the
    directory empty or ended by one; stem and extension of the name, the
    extension without a dot and the stem not empty when there is a dot. *)
Theorem path_view_decomposes path v :
  new_PathView path = Some v →
  path_ v = path
  ∧ parent_dir v ++ file_name v = path
  ∧ Forall (fun c => is_slash c = false) (file_name v)
  ∧ (parent_dir v = [] ∨ ∃ l c, parent_dir v = l ++ [c] ∧ is_slash c = true)
  ∧ (file_stem v = file_name v ∧ extension v = [] ∧ without_extension v = path
     ∨ file_name v = file_stem v ++ "."%char :: extension v ∧ file_stem v ≠ []
       ∧ without_extension v = parent_dir v ++ file_stem v
       ∧ "."%char ∉ extension v).
Proof.
  intros Hv. pose proof (file_name_no_slash path v Hv) as Hname. revert Hv Hname.
  unfold new_PathView, CHECK. case_match; [|done]. intros [= <-] Hname.
  destruct (slash_below_spec path (length path)) as (Hs & _ & Hs').
  pose proof (dot_below_spec path (slash_below path (length path)) (length path) ltac:(done)) as Hd.
  revert Hname Hs Hs' Hd. cbv zeta. unfold file_name, parent_dir, file_stem, extension, without_extension. cbn.
  generalize (dot_below path (slash_below path (length path)) (length path)) as d.
  generalize (slash_below path (length path)) as s. intros s d Hname Hs Hs' Hd.
  split_and!; [done|apply take_drop|done| |].
  - destruct (decide (s < 0)) as [Hneg|Hpos]; [left; by replace (Z.to_nat (s + 1)) with 0%nat by lia|right].
    exists (take (Z.to_nat s) path), (nth (Z.to_nat s) path "000"%char). split; [|apply Hs'; lia].
    replace (Z.to_nat (s + 1)) with (S (Z.to_nat s)) by lia. apply take_S_nth. lia.
  - destruct Hd as [->|(Hd & Hc & Hd')]; [left|right].
    + rewrite Z.eqb_refl. unfold slen. split_and!; [|done|rewrite Nat2Z.id; apply firstn_all].
      apply take_ge. rewrite length_drop. lia.
    + assert (d < slen path) by (unfold slen; lia). replace (d =? slen path) with false by lia.
      replace (Z.to_nat (d + 1)) with (S (Z.to_nat d)) by lia.
      replace (Z.to_nat (d - s - 1)) with (Z.to_nat d - Z.to_nat (s + 1))%nat by lia.
      split_and!.
      * rewrite <- Hc, <- drop_nth_cons by lia.
        rewrite <- (take_drop (Z.to_nat d - Z.to_nat (s + 1)) (drop (Z.to_nat (s + 1)) path)) at 1.
        rewrite drop_drop. do 2 f_equal. lia.
      * intros E%(f_equal length). rewrite length_take, length_drop in E. cbn in E. lia.
      * rewrite <- (take_drop (Z.to_nat (s + 1)) (take (Z.to_nat d) path)) at 1.
        rewrite take_take, Nat.min_l by lia. by rewrite skipn_firstn_comm.
      * assert (Forall (λ c, c ≠ "."%char) (drop (S (Z.to_nat d)) path)) as HF.
        { apply (Forall_drop_nth _ _ _ "000"%char). intros i Hi. apply Hd'. lia. }
        intros Hin. rewrite Forall_forall in HF. by apply (HF _ Hin).
Qed.

Lemma path_view_decomposes_witness :
  ∃ v, new_PathView (lit "/w/bot/documents/file_7.tar.gz") = Some v
  ∧ (file_name v, file_stem v, extension v) = (lit "file_7.tar.gz", lit "file_7.tar", lit "gz")
  ∧ parent_dir v ++ file_name v = lit "/w/bot/documents/file_7.tar.gz".
Proof.
  eexists. split; [reflexivity|]. split; [vm_compute; reflexivity|].
  refine (proj1 (proj2 (path_view_decomposes _ _ _))). reflexivity.
Defined.
