(* ===== verification/Query.v ===== *)
(** * Queries and their JSON answers

    [server/Query.h] and [server/Query.cpp]: a Bot API request, the answer it
    gets once, and the JSON objects answers are made of.  The statistics a
    query sends and the list of pending queries are not modelled. *)

From S2P Require Import Prelude Slices Integers Utf8 Json IpAddress.

(** ** Answers *)

(** [JsonQueryError]; an empty [parameters] is left out. *)
Definition JsonQueryError (error_code : Z) (description : slice) (parameters : list (slice * JsonValue)) : JsonValue :=
  JsonObject ([(lit "ok", JsonBoolean false);
               (lit "error_code", JsonNumber (print_int 32 error_code));
               (lit "description", JsonStr description)] ++
              match parameters with [] => [] | _ => [(lit "parameters", JsonObject parameters)] end).

(** [JsonQueryOk] *)
Definition JsonQueryOk (result : JsonValue) (description : slice) : JsonValue :=
  JsonObject ([(lit "ok", JsonBoolean true); (lit "result", result)] ++
              match description with [] => [] | _ => [(lit "description", JsonStr description)] end).

Definition json_query_error (code : Z) (description : slice) : option slice :=
  json_encode (JsonQueryError code description []) false.

(** ** Queries *)

Inductive QueryState := StQuery | StOK | StError.
#[export] Instance QueryState_eq_dec : EqDecision QueryState.
Proof. solve_decision. Defined.

Record Query := mkQuery {
  q_token : slice;
  q_is_test_dc : bool;
  q_method : slice;
  q_args : list (slice * slice);
  q_headers : list (slice * slice);
  q_files : list (slice * Z);
  q_peer_ip_address : IPAddress;
  q_is_internal : bool;
  q_state : QueryState;
  q_answer : slice;
  q_http_status_code : Z;
  q_retry_after : Z
}.

(** [std::find_if] by the name. *)
Fixpoint find_value {A} (l : list (slice * A)) (key : slice) : option A :=
  match l with
  | [] => None
  | (k, v) :: l => if bool_decide (k = key) then Some v else find_value l key
  end.

Definition has_arg (q : Query) (key : slice) : bool :=
  match find_value (q_args q) key with Some _ => true | None => false end.
Definition arg (q : Query) (key : slice) : slice := default [] (find_value (q_args q) key).
Definition get_header (q : Query) (key : slice) : slice := default [] (find_value (q_headers q) key).
Definition file_size (q : Query) (key : slice) : option Z := find_value (q_files q) key.

Definition files_size (q : Query) : Z := foldl (fun acc f => acc + f.2) 0 (q_files q).
Definition files_max_size (q : Query) : Z := foldl (fun acc f => Z.max acc f.2) 0 (q_files q).

(** The constructor: an empty method comes from the arguments, and is lowered. *)
Definition new_query (token : slice) (is_test_dc : bool) (method : slice) (args headers : list (slice * slice))
    (files : list (slice * Z)) (peer : IPAddress) (is_internal : bool) : Query :=
  let q := mkQuery token is_test_dc method args headers files peer is_internal StQuery [] 0 0 in
  let method := match method with [] => arg q (lit "method") | _ => method end in
  mkQuery token is_test_dc (to_lower_slice method) args headers files peer is_internal StQuery [] 0 0.

Definition is_ready (q : Query) : bool := negb (bool_decide (q_state q = StQuery)).

Definition set_answer (q : Query) (state : QueryState) (code : Z) (result : slice) : Query :=
  mkQuery (q_token q) (q_is_test_dc q) (q_method q) (q_args q) (q_headers q) (q_files q) (q_peer_ip_address q)
    (q_is_internal q) state result code (q_retry_after q).

Definition set_retry_after (q : Query) (retry_after : Z) : Query :=
  mkQuery (q_token q) (q_is_test_dc q) (q_method q) (q_args q) (q_headers q) (q_files q) (q_peer_ip_address q)
    (q_is_internal q) (q_state q) (q_answer q) (q_http_status_code q) retry_after.

(** [None]: a query is answered twice, or the answer's text is not UTF-8. *)
Definition set_ok (q : Query) (result : slice) : option Query :=
  CHECK (bool_decide (q_state q = StQuery)) (Some (set_answer q StOK 200 result)).

Definition set_error (q : Query) (http_status_code : Z) (result : slice) : option Query :=
  CHECK (bool_decide (q_state q = StQuery)) (Some (set_answer q StError http_status_code result)).

Definition set_retry_after_error (q : Query) (retry_after : Z) : option Query :=
  let q := set_retry_after q retry_after in
  content ← json_encode (JsonQueryError 429 (lit "Too Many Requests: retry after " ++ print_int 32 retry_after)
                           [(lit "retry_after", JsonNumber (print_int 64 retry_after))]) false;
  set_error q 429 content.

Definition answer_query (result : JsonValue) (q : Query) (description : slice) : option Query :=
  content ← json_encode (JsonQueryOk result description) false; set_ok q content.

Definition fail_query (http_status_code : Z) (description : slice) (q : Query) (parameters : list (slice * JsonValue)) :
  option Query :=
  content ← json_encode (JsonQueryError http_status_code description parameters) false;
  set_error q http_status_code content.

(** [PromiseDeleter]: what the owner of the promise gets when the query is
    let go. *)
Definition delete_query (q : Query) : option Query :=
  if is_ready q then Some q else set_retry_after_error q 5.

Section Peer.
Context (inet_pton4 : slice → option Z) (ip_str : IPAddress → slice).

(** [get_ip_str] is the system's [inet_ntop]. *)
Definition get_peer_ip_address (q : Query) : option slice :=
  if ip_is_valid (q_peer_ip_address q) then
    reserved ← is_reserved inet_pton4 (q_peer_ip_address q);
    Some (if (reserved : bool) then get_header q (lit "x-real-ip") else ip_str (q_peer_ip_address q))
  else Some (get_header q (lit "x-real-ip")).
End Peer.

(** ** Facts *)

Lemma digits_number s : Forall (fun c => is_digit c = true) s → s ≠ [] → number_ok s = true.
Proof.
  assert (Hd : ∀ c, is_digit c = true → is_number_start c = true ∧ is_number_char c = true)
    by (intros c; all_chars c; naive_solver).
  intros Hs Hnil. destruct s as [|c s]; [done|]. unfold number_ok.
  assert (forallb is_number_char (c :: s) = true) as Hn.
  { apply forallb_forall. intros x Hx. rewrite Forall_forall in Hs. apply Hd, Hs. by apply list_elem_of_In. }
  rewrite Hn, andb_true_r. apply Forall_cons in Hs as [Hc _]. by apply Hd.
Qed.

Lemma print_int_number w x : is_width w = true → signed_range w x → number_ok (print_int w x) = true.
Proof.
  intros Hw Hx.
  assert (Hneg : ∀ s, Forall (fun c => is_digit c = true) s → number_ok ("-"%char :: s) = true).
  { intros s Hs. unfold number_ok. simpl. apply forallb_forall. intros c Hc. rewrite Forall_forall in Hs.
    specialize (Hs c ltac:(by apply list_elem_of_In)). revert Hs. all_chars c. }
  destruct (Z.eqb_spec x (- 2 ^ (w - 1))) as [->|Hne].
  - destruct (print_int_min w Hw) as (s & -> & Hs & _). by apply Hneg.
  - unfold print_int. destruct (Z.ltb_spec x 0).
    + replace (x =? _) with false by lia. apply Hneg, print_uint_digits. lia.
    + by apply digits_number; apply print_uint_digits.
Qed.

Lemma error_json_ok code description parameters :
  signed_range 32 code → check_utf8 description = true → forallb (fun f => check_utf8 f.1 && json_ok f.2) parameters = true →
  json_ok (JsonQueryError code description parameters) = true.
Proof.
  intros Hc Hd Hp. unfold JsonQueryError.
  assert (check_utf8 (lit "ok") = true ∧ check_utf8 (lit "error_code") = true ∧
          check_utf8 (lit "description") = true ∧ check_utf8 (lit "parameters") = true) as (E1 & E2 & E3 & E4)
    by (split_and!; reflexivity).
  destruct parameters as [|p ps]; [|revert Hp; set (l := p :: ps); intros Hp];
    cbn [app json_ok forallb fst snd]; rewrite ?E1, ?E2, ?E3, ?E4, ?Hd, ?Hp, print_int_number by done; done.
Qed.

Lemma error_json_depth code description parameters :
  Forall (fun f => json_depth f.2 = 0) parameters → json_depth (JsonQueryError code description parameters) <= 3.
Proof.
  intros Hp. unfold JsonQueryError. destruct parameters as [|p ps]; [vm_compute; discriminate|].
  set (l := p :: ps) in *.
  assert (json_depth (JsonObject l) <= 1).
  { cbn [json_depth]. clearbody l. induction Hp as [|f l Hf _ IH]; simpl in *; lia. }
  cbn [json_depth app map foldr fst snd] in *. lia.
Qed.

Lemma error_json_decodes code description parameters :
  signed_range 32 code → check_utf8 description = true → forallb (fun f => check_utf8 f.1 && json_ok f.2) parameters = true →
  Forall (fun f => json_depth f.2 = 0) parameters →
  ∃ body, json_encode (JsonQueryError code description parameters) false = Some body ∧
          json_decode body = Some (Ok (JsonQueryError code description parameters)).
Proof.
  intros. apply json_encode_decode; [by apply error_json_ok|].
  pose proof (error_json_depth code description parameters). specialize (H3 H2). lia.
Qed.

(** *** Exactly one answer *)

(** What may happen to a query before it is let go. *)
Inductive answer :=
| AnswerOk (result : JsonValue) (description : slice)
| AnswerError (code : Z) (description : slice) (parameters : list (slice * JsonValue))
| AnswerRetry (retry_after : Z).

Definition give_answer (q : Query) (a : answer) : option Query :=
  match a with
  | AnswerOk result description => answer_query result q description
  | AnswerError code description parameters => fail_query code description q parameters
  | AnswerRetry retry_after => set_retry_after_error q retry_after
  end.

Fixpoint give_answers (q : Query) (l : list answer) : option Query :=
  match l with [] => Some q | a :: l => q' ← give_answer q a; give_answers q' l end.

(** The HTTP code, the JSON value of the answer and the [Retry-After] value. *)
Definition answer_content (a : answer) : Z * JsonValue * Z :=
  match a with
  | AnswerOk result description => (200, JsonQueryOk result description, 0)
  | AnswerError code description parameters => (code, JsonQueryError code description parameters, 0)
  | AnswerRetry n =>
      (429, JsonQueryError 429 (lit "Too Many Requests: retry after " ++ print_int 32 n)
              [(lit "retry_after", JsonNumber (print_int 64 n))], n)
  end.

Lemma set_answer_state q st code r : q_state (set_answer q st code r) = st.
Proof. done. Qed.

(** The answers that do not depend on a request can always be given. *)
Lemma give_answer_total q a :
  q_state q = StQuery →
  match a with
  | AnswerOk result description => json_prints result = true ∧ check_utf8 description = true
  | AnswerError code description parameters => signed_range 32 code ∧ check_utf8 description = true ∧ parameters = []
  | AnswerRetry n => 0 <= n
  end → is_Some (give_answer q a).
Proof.
  intros Hst Ha.
  assert (Hset : ∀ v st, json_prints v = true →
    is_Some (content ← json_encode v false; CHECK (bool_decide (q_state q = StQuery)) (Some (st content : Query)))).
  { intros v st Hv. unfold json_encode. destruct (store_prints v (if false then 0 else -1) Hv) as [out ->].
    rewrite bool_decide_eq_true_2 by done. by eexists. }
  destruct a as [result description|code description parameters|n]; simpl.
  - destruct Ha as [Hr Hd]. apply Hset. unfold JsonQueryOk. cbn [json_prints forallb fst snd app].
    destruct description; cbn [forallb fst snd json_prints]; rewrite ?Hr, ?Hd; done.
  - destruct Ha as (Hc & Hd & ->). by apply Hset, json_ok_prints, error_json_ok.
  - destruct (print_uint_digits n Ha) as [Hdig Hnil].
    assert (∀ w, print_int w n = print_uint n) as Hp by (intros w; unfold print_int; by replace (n <? 0) with false by lia).
    unfold set_retry_after_error. rewrite !Hp. apply (Hset _ (set_answer (set_retry_after q n) StError 429)).
    apply json_ok_prints, error_json_ok; [unfold signed_range; lia| |].
    + apply check_utf8_ascii, Forall_app. split; [by repeat constructor|].
      eapply Forall_impl; [exact Hdig|]. intros c. all_chars c.
    + cbn [forallb fst snd json_ok]. by rewrite digits_number.
Qed.

Lemma give_answer_state q a q' : give_answer q a = Some q' → q_state q' ≠ StQuery.
Proof.
  intros Ha. destruct a; simpl in Ha; unfold answer_query, fail_query, set_retry_after_error in Ha;
    destruct (json_encode _ _); simpl in Ha; try done;
    unfold set_ok, set_error, CHECK in Ha; case_bool_decide; by simplify_eq.
Qed.

Lemma give_answer_deleted q a q' : give_answer q a = Some q' → delete_query q' = Some q'.
Proof.
  intros Ha%give_answer_state. unfold delete_query, is_ready. by rewrite bool_decide_eq_false_2.
Qed.

Lemma give_answer_twice q a q' b : give_answer q a = Some q' → give_answer q' b = None.
Proof.
  intros Hst%give_answer_state.
  destruct b; simpl; unfold answer_query, fail_query, set_retry_after_error;
    destruct (json_encode _ _); simpl; try done;
    unfold set_ok, set_error, CHECK; by rewrite bool_decide_eq_false_2.
Qed.

Lemma give_answer_spec q a q' :
  q_state q = StQuery → q_retry_after q = 0 → give_answer q a = Some q' →
  let '(code, v, retry) := answer_content a in
  q_http_status_code q' = code ∧ q_retry_after q' = retry ∧ is_ready q' = true ∧
  json_encode v false = Some (q_answer q').
Proof.
  intros Hst Hr Ha. destruct a; simpl in *; unfold answer_query, fail_query, set_retry_after_error in Ha;
    destruct (json_encode _ _) as [body|]; simpl in Ha; try done;
    unfold set_ok, set_error, CHECK in Ha; rewrite bool_decide_eq_true_2 in Ha by done;
    injection Ha as <-; simpl; rewrite ?Hr; done.
Qed.

(** C36: A query is answered exactly once, by its first answer or by a 429 with retry 5 when it is let go
    unanswered; a second answer aborts; the answer is the JSON object of its kind and parses back to it. *)
Theorem query_answered_once q l q1 :
  q_state q = StQuery → q_retry_after q = 0 → give_answers q l = Some q1 →
  ∃ q2 a, delete_query q1 = Some q2 ∧ (l = [] ∧ a = AnswerRetry 5 ∨ l = [a]) ∧
    (q_http_status_code q2, q_retry_after q2) = ((answer_content a).1.1, (answer_content a).2) ∧
    json_encode (answer_content a).1.2 false = Some (q_answer q2) ∧
    (json_ok (answer_content a).1.2 = true → json_depth (answer_content a).1.2 <= 100 →
     json_decode (q_answer q2) = Some (Ok (answer_content a).1.2)).
Proof.
  intros Hst Hr Hl.
  assert (∃ q2 a, delete_query q1 = Some q2 ∧ (l = [] ∧ a = AnswerRetry 5 ∨ l = [a]) ∧ give_answer q a = Some q2)
    as (q2 & a & Hdel & Hcase & Ha).
  { destruct l as [|a [|b l]]; simpl in Hl.
    - injection Hl as <-. unfold delete_query, is_ready. rewrite bool_decide_eq_true_2 by done. simpl.
      assert (is_Some (give_answer q (AnswerRetry 5))) as [q2 Hq2].
      { simpl. unfold set_retry_after_error.
        destruct (json_encode _ _) eqn:E; [|vm_compute in E; discriminate]. simpl.
        unfold set_error, CHECK. by rewrite bool_decide_eq_true_2. }
      exists q2, (AnswerRetry 5). split; [exact Hq2|]. split; [by left|done].
    - destruct (give_answer q a) as [q'|] eqn:Ha; [|done]. injection Hl as <-.
      pose proof (give_answer_spec q a q' Hst Hr Ha) as Hs.
      destruct (answer_content a) as [[code v] retry]. destruct Hs as (_ & _ & Hready & _).
      exists q', a. unfold delete_query. rewrite Hready. split; [done|]. by split; [right|].
    - destruct (give_answer q a) as [q'|] eqn:Ha; [|done]. simpl in Hl.
      by rewrite (give_answer_twice q a q' b Ha) in Hl. }
  exists q2, a. split; [done|]. split; [done|].
  pose proof (give_answer_spec q a q2 Hst Hr Ha) as Hs.
  destruct (answer_content a) as [[code v] retry]. destruct Hs as (-> & -> & _ & Hbody). simpl.
  split; [done|]. split; [done|]. intros Hok Hd.
  destruct (json_encode_decode v false Hok Hd) as (out & Ho & Hdec). congruence.
Qed.

Definition demo_query : Query := new_query (lit "1:x") false (lit "getMe") [] [] [] ip_invalid false.

Lemma query_answered_once_witness :
  ∃ q2, delete_query demo_query = Some q2 ∧ q_http_status_code q2 = 429 ∧ q_retry_after q2 = 5.
Proof.
  destruct (query_answered_once demo_query [] demo_query eq_refl eq_refl eq_refl)
    as (q2 & a & Hdel & [[_ ->]|Hl] & Hc & _); [|discriminate].
  exists q2. split; [exact Hdel|]. injection Hc as -> ->. split; reflexivity.
Defined.
