(* ===== verification/QueryErrors.v ===== *)
(** * Errors of TDLib turned into answers

    [Client::fail_query_with_error] and [Client::get_retry_after_time] of
    [server/Client.cpp]: the code and the message TDLib failed with become the
    code and the description of the answer.

    [errors_normalized] is what a caller of the Bot API can rely on. *)

From S2P Require Import Prelude Slices Integers Json Query.

(** [Client::get_retry_after_time] *)
Definition retry_prefix : slice := lit "Too Many Requests: retry after ".
Definition get_retry_after_time (error_message : slice) : Z :=
  if begins_with error_message retry_prefix then
    match to_integer_safe 32 (drop (length retry_prefix) error_message) with
    | Ok n => if 0 <? n then n else 0
    | Err _ _ => 0
    end
  else 0.

(** The messages of code 400 with a text of their own; the code changes for
    the first two of the second group. *)
Definition known_errors : list (slice * (Z * slice)) :=
  [(lit "MESSAGE_NOT_MODIFIED",
    (400, lit "message is not modified: specified new message content and reply markup are exactly the same as a current content and reply markup of the message"));
   (lit "WC_CONVERT_URL_INVALID", (400, lit "Wrong HTTP URL specified"));
   (lit "EXTERNAL_URL_INVALID", (400, lit "Wrong HTTP URL specified"));
   (lit "WEBPAGE_CURL_FAILED", (400, lit "Failed to get HTTP URL content"));
   (lit "WEBPAGE_MEDIA_EMPTY", (400, lit "Wrong type of the web page content"));
   (lit "MEDIA_GROUPED_INVALID", (400, lit "Can't use the media of the specified type in the album"));
   (lit "REPLY_MARKUP_TOO_LONG", (400, lit "reply markup is too long"));
   (lit "INPUT_USER_DEACTIVATED", (403, lit "Forbidden: user is deactivated"));
   (lit "USER_IS_BLOCKED", (403, lit "bot was blocked by the user"));
   (lit "USER_ADMIN_INVALID", (400, lit "user is an administrator of the chat"));
   (lit "File generation failed", (400, lit "can't upload file by URL"));
   (lit "CHAT_ABOUT_NOT_MODIFIED", (400, lit "chat description is not modified"));
   (lit "PACK_SHORT_NAME_INVALID", (400, lit "invalid sticker set name is specified"));
   (lit "PACK_SHORT_NAME_OCCUPIED", (400, lit "sticker set name is already occupied"));
   (lit "STICKER_EMOJI_INVALID", (400, lit "invalid sticker emojis"));
   (lit "QUERY_ID_INVALID", (400, lit "query is too old and response timeout expired or query ID is invalid"));
   (lit "MESSAGE_DELETE_FORBIDDEN", (400, lit "message can't be deleted"))].
Definition rank_errors : list slice :=
  [lit "RANK_CHANGE_FORBIDDEN"; lit "RANK_EMOJI_NOT_ALLOWED"; lit "RANK_INVALID"].

Definition rewrite_error (method : slice) (error_message : slice) : Z * slice :=
  match find_value known_errors error_message with
  | Some e => e
  | None =>
      if existsb (fun m => bool_decide (error_message = m)) rank_errors then
        (400, (if bool_decide (method = lit "setchatmembertag") then lit "TAG" else lit "CUSTOM_TITLE")
              ++ drop 4 error_message)
      else (400, error_message)
  end.

(** The error names TDLib gets from the server are in capitals. *)
Definition server_error_char (c : ascii) : bool :=
  bool_decide (c = "_"%char) || ((65 <=? char_code c) && (char_code c <=? 90)) || is_digit c.

(** The code after the first test. *)
Definition error_class (error_code : Z) (error_message : slice) : Z :=
  if (error_code <? 400) || (error_code =? 404) then 400
  else if error_code =? 403 then if forallb server_error_char error_message then 400 else 403
  else error_code.

Definition error_prefix (error_code : Z) : option slice :=
  if error_code =? 400 then Some (lit "Bad Request")
  else if error_code =? 401 then Some (lit "Unauthorized")
  else if error_code =? 403 then Some (lit "Forbidden")
  else if error_code =? 500 then Some (lit "Internal Server Error")
  else None.

(** The second character tells a constant's name from a sentence; [char] is
    signed, and no character above 127 is in either range. *)
Definition error_text (prefix error_message : slice) : slice :=
  match error_message with
  | [] => prefix
  | c :: rest =>
      prefix ++ lit ": " ++
      match rest with
      | d :: _ =>
          if bool_decide (d = "_"%char) || ((65 <=? char_code d) && (char_code d <=? 90))
          then error_message else to_lower c :: rest
      | [] => to_lower c :: rest
      end
  end.

(** [Client::fail_query_with_error]: the answer a query gets. *)
Definition error_answer (method : slice) (error_code : Z) (error_message default_message : slice) : answer :=
  if error_code =? 429 then
    let retry_after_time := get_retry_after_time error_message in
    if 0 <? retry_after_time then AnswerRetry retry_after_time
    else AnswerError 500 error_message []
  else
    let code := error_class error_code error_message in
    let '(code, message) :=
      if code =? 400 then
        rewrite_error method (if bool_decide (default_message = []) then error_message else default_message)
      else (code, error_message) in
    match error_prefix code with
    | None => AnswerError 400 (lit "Bad Request: " ++ message) []
    | Some prefix =>
        if begins_with message prefix then AnswerError code message []
        else AnswerError code (error_text prefix message) []
    end.
Definition fail_query_with_error (q : Query) (error_code : Z) (error_message default_message : slice) : option Query :=
  give_answer q (error_answer (q_method q) error_code error_message default_message).

(** ** Facts *)

#[local] Arguments lit : simpl never.

Lemma check_utf8_cons_ascii c s : char_code c < 128 → check_utf8 (c :: s) = check_utf8 s.
Proof.
  intros Hc. unfold check_utf8. cbn [app check_utf8_loop].
  replace (Z.land (char_code c) 128 =? 0) with true.
  - by destruct s.
  - symmetry. apply Z.eqb_eq. revert Hc. all_chars c.
Qed.

Lemma check_utf8_app_ascii l s :
  forallb (fun c => char_code c <? 128) l = true → check_utf8 (l ++ s) = check_utf8 s.
Proof.
  induction l as [|c l IH]; [done|]. cbn [forallb app]. rewrite andb_true_iff, Z.ltb_lt. intros [Hc Hl].
  rewrite check_utf8_cons_ascii by done. by apply IH.
Qed.

Lemma to_lower_high c : 128 <= char_code c → to_lower c = c.
Proof. unfold to_lower. intros H. by replace (char_code c <=? 90) with false by lia; rewrite andb_false_r. Qed.

Lemma to_lower_low c : char_code c < 128 → char_code (to_lower c) < 128.
Proof.
  unfold to_lower. intros H. destruct (_ && _) eqn:E; [|done]. apply andb_true_iff in E as [E1 E2].
  rewrite char_code_chr by lia. lia.
Qed.

Lemma check_utf8_to_lower c s : check_utf8 (to_lower c :: s) = check_utf8 (c :: s).
Proof.
  destruct (decide (char_code c < 128)) as [H|H]; [|by rewrite to_lower_high by lia].
  by rewrite !check_utf8_cons_ascii by (done || by apply to_lower_low).
Qed.

Lemma find_value_in {A} (l : list (slice * A)) k v : find_value l k = Some v → (k, v) ∈ l.
Proof.
  induction l as [|[k' v'] l IH]; [done|]. cbn [find_value]. case_bool_decide as E.
  - intros [= <-]. subst. by left.
  - intros H. right. by apply IH.
Qed.

Lemma begins_with_app prefix s : begins_with (prefix ++ s) prefix = true.
Proof.
  unfold begins_with. rewrite length_app, take_app_length.
  apply andb_true_iff. split; [apply Nat.leb_le; lia|by apply bool_decide_eq_true].
Qed.

(** The texts of the table are ASCII. *)
Lemma known_errors_ok e :
  e ∈ known_errors → (e.2.1 = 400 ∨ e.2.1 = 403) ∧ check_utf8 e.2.2 = true.
Proof.
  intros He.
  assert (forallb (fun e => ((e.2.1 =? 400) || (e.2.1 =? 403)) && check_utf8 e.2.2) known_errors = true) as Hall
    by (vm_compute; reflexivity).
  rewrite forallb_forall in Hall. apply list_elem_of_In, Hall, andb_true_iff in He as [H1 H2].
  split; [|done]. apply orb_true_iff in H1 as [?%Z.eqb_eq|?%Z.eqb_eq]; auto.
Qed.

Lemma rank_errors_utf8 method m :
  existsb (fun m' => bool_decide (m = m')) rank_errors = true →
  check_utf8 ((if bool_decide (method = lit "setchatmembertag") then lit "TAG" else lit "CUSTOM_TITLE") ++ drop 4 m) = true.
Proof.
  intros H. apply existsb_exists in H as (m' & Hin & ->%bool_decide_eq_true).
  rewrite check_utf8_app_ascii by (case_bool_decide; by vm_compute).
  cbn [rank_errors In] in Hin. by destruct Hin as [<-|[<-|[<-|[]]]]; vm_compute.
Qed.

(** The message is rewritten to a text in UTF-8, the code stays or is 403. *)
Lemma rewrite_error_ok method m :
  check_utf8 m = true →
  let '(code, message) := rewrite_error method m in
  (code = 400 ∨ code = 403) ∧ check_utf8 message = true.
Proof.
  intros Hm. unfold rewrite_error. destruct (find_value known_errors m) as [[code text]|] eqn:E.
  - apply find_value_in, known_errors_ok in E as [? ?]. done.
  - destruct (existsb _ _) eqn:Er; (split; [by left|]); [by apply rank_errors_utf8|done].
Qed.

Lemma error_class_cases code m :
  code ≠ 429 →
  (error_class code m = 400 ∨ error_class code m = code ∧ 400 <= code).
Proof. intros H. unfold error_class. split_ifs; auto; right; lia. Qed.

Lemma error_prefix_some code :
  is_Some (error_prefix code) ↔ code = 400 ∨ code = 401 ∨ code = 403 ∨ code = 500.
Proof.
  unfold error_prefix. destruct (Z.eqb_spec code 400), (Z.eqb_spec code 401), (Z.eqb_spec code 403),
    (Z.eqb_spec code 500); subst; (split; [|eauto]); auto; intros [? [=]] || lia.
Qed.

Lemma error_prefix_ascii code prefix :
  error_prefix code = Some prefix → forallb (fun c => char_code c <? 128) prefix = true.
Proof. unfold error_prefix. split_ifs; intros [= <-]; by vm_compute. Qed.

Lemma error_text_begins prefix m : begins_with (error_text prefix m) prefix = true.
Proof.
  unfold error_text. destruct m as [|c m]; [|apply begins_with_app].
  pose proof (begins_with_app prefix []) as H. by rewrite app_nil_r in H.
Qed.

Lemma error_text_utf8 code prefix m :
  error_prefix code = Some prefix → check_utf8 m = true → check_utf8 (error_text prefix m) = true.
Proof.
  intros Hp Hm. apply error_prefix_ascii in Hp. unfold error_text. destruct m as [|c rest].
  - rewrite <- (app_nil_r prefix). by rewrite check_utf8_app_ascii.
  - rewrite check_utf8_app_ascii, check_utf8_app_ascii by (done || by vm_compute).
    destruct rest as [|d rest]; [by rewrite check_utf8_to_lower|].
    destruct (_ || _); [done|by rewrite check_utf8_to_lower].
Qed.

(** What [error_answer] gives for a code that is not 429. *)
Lemma error_answer_plain method code m default :
  code ≠ 429 → check_utf8 m = true → check_utf8 default = true →
  ∃ c d prefix, error_answer method code m default = AnswerError c d []
    ∧ error_prefix c = Some prefix ∧ begins_with d prefix = true ∧ check_utf8 d = true
    ∧ (c = 400 ∨ c = code ∨ c = 403 ∧ (code < 400 ∨ code = 400 ∨ code = 404)).
Proof.
  intros Hcode Hm Hd. unfold error_answer. replace (code =? 429) with false by lia.
  set (cls := error_class code m).
  assert (let '(c, t) := if cls =? 400 then rewrite_error method (if bool_decide (default = []) then m else default)
                         else (cls, m) in
          check_utf8 t = true ∧ (c = 400 ∨ c = code ∨ c = 403 ∧ cls = 400)) as H.
  { destruct (Z.eqb_spec cls 400) as [E|E].
    - pose proof (rewrite_error_ok method (if bool_decide (default = []) then m else default)
        ltac:(by case_bool_decide)) as Hr.
      destruct (rewrite_error _ _) as [c t]. destruct Hr as [[->| ->] ?]; auto.
    - destruct (error_class_cases code m Hcode) as [?|[? _]]; [done|]. auto. }
  destruct (if cls =? 400 then _ else _) as [c t]. destruct H as [Ht Hc].
  destruct (error_prefix c) as [prefix|] eqn:Ep.
  - assert (c = 400 ∨ c = code ∨ c = 403 ∧ (code < 400 ∨ code = 400 ∨ code = 404)) as Hc'.
    { destruct Hc as [?|[?|[? Hcls]]]; [auto|auto|]. unfold cls, error_class in Hcls.
      destruct (code <? 400) eqn:?, (code =? 404) eqn:?; cbn [orb] in Hcls; [right; right; lia..|].
      destruct (code =? 403) eqn:?; [right; left; lia|]. right; right; lia. }
    destruct (begins_with t prefix) eqn:Eb.
    + by exists c, t, prefix.
    + exists c, (error_text prefix t), prefix. split_and!; [done|done|apply error_text_begins| |done].
      by eapply error_text_utf8.
  - exists 400, (lit "Bad Request: " ++ t), (lit "Bad Request"). split_and!; [done|done| | |by left].
    + apply (begins_with_app (lit "Bad Request") (lit ": " ++ t)).
    + by rewrite check_utf8_app_ascii by (by vm_compute).
Qed.

Lemma get_retry_after_time_spec m n :
  0 < n → (get_retry_after_time m = n ↔ signed_range 32 n ∧ m = retry_prefix ++ print_int 32 n).
Proof.
  intros Hn. unfold get_retry_after_time. destruct (begins_with m retry_prefix) eqn:Eb.
  - assert (m = retry_prefix ++ drop (length retry_prefix) m) as Em.
    { unfold begins_with in Eb. apply andb_true_iff in Eb as [_ Eb%bool_decide_eq_true].
      rewrite Eb at 1. by rewrite take_drop. }
    destruct (to_integer_safe 32 (drop (length retry_prefix) m)) as [k|] eqn:Es.
    + apply to_integer_safe_ok in Es as [Hr Hk]; [|done]. split.
      * destruct (0 <? k); [intros <-; split; [done|congruence]|lia].
      * intros [Hr' E]. rewrite Em in E. apply app_inv_head in E. rewrite Hk in E.
        apply print_int_inj in E; [|done..]. subst. by replace (0 <? n) with true by lia.
    + split; [lia|]. intros [Hr E]. exfalso. rewrite E, drop_app_length in Es.
      assert (to_integer_safe 32 (print_int 32 n) = Ok n) by (by apply to_integer_safe_ok). congruence.
  - split; [lia|]. intros [_ ->]. by rewrite begins_with_app in Eb.
Qed.

(** C37: Whatever TDLib failed with, the query gets exactly one answer: for a 429 with a waiting time that
    time, for a 429 without one a 500 with the message, and otherwise a 400, 401, 403 or 500 whose
    description begins with the text of its code; other codes than 400 and 403 are only passed on. *)
Theorem errors_normalized q code m default :
  q_state q = StQuery → signed_range 32 code → check_utf8 m = true → check_utf8 default = true →
  ∃ q' a, fail_query_with_error q code m default = Some q' ∧ give_answer q a = Some q'
  ∧ match a with
    | AnswerRetry n => code = 429 ∧ 0 < n ∧ m = retry_prefix ++ print_int 32 n
    | AnswerError c d parameters =>
        parameters = []
        ∧ (code = 429 ∧ c = 500 ∧ d = m ∧ (∀ n, 0 < n → signed_range 32 n → m ≠ retry_prefix ++ print_int 32 n)
           ∨ code ≠ 429 ∧ (∃ prefix, error_prefix c = Some prefix ∧ begins_with d prefix = true)
             ∧ (c = 400 ∨ c = code ∨ c = 403 ∧ (code < 400 ∨ code = 400 ∨ code = 404)))
    | AnswerOk _ _ => False
    end.
Proof.
  intros Hst Hr Hm Hd. unfold fail_query_with_error.
  destruct (Z.eq_dec code 429) as [->|Hcode].
  - unfold error_answer. cbn [Z.eqb Pos.eqb].
    destruct (0 <? get_retry_after_time m) eqn:E.
    + destruct (give_answer_total q (AnswerRetry (get_retry_after_time m)) Hst ltac:(cbn; lia)) as [q' Hq].
      exists q', (AnswerRetry (get_retry_after_time m)). split_and!; [done|done|done|lia|].
      by apply (get_retry_after_time_spec m (get_retry_after_time m)); [lia|].
    + destruct (give_answer_total q (AnswerError 500 m []) Hst) as [q' Hq]; [by cbn|].
      exists q', (AnswerError 500 m []). split_and!; [done|done|done|]. left. split_and!; [done..|].
      intros n Hn Hnr Hmn. apply Z.ltb_ge in E.
      assert (get_retry_after_time m = n) by (by apply get_retry_after_time_spec). lia.
  - destruct (error_answer_plain (q_method q) code m default Hcode Hm Hd)
      as (c & d & prefix & -> & Hp & Hb & Hu & Hc).
    assert (signed_range 32 c) as Hcr.
    { assert (is_Some (error_prefix c)) as Hs%error_prefix_some by eauto. unfold signed_range. lia. }
    destruct (give_answer_total q (AnswerError c d []) Hst) as [q' Hq]; [by cbn|].
    exists q', (AnswerError c d []). split_and!; [done|done|done|]. right. split_and!; [done|by exists prefix|done].
Qed.


Lemma errors_normalized_witness :
  ∃ q' a, fail_query_with_error demo_query 400 (lit "USER_IS_BLOCKED") [] = Some q'
  ∧ give_answer demo_query a = Some q'
  ∧ q_http_status_code q' = 403
  ∧ error_answer (lit "getme") 400 (lit "USER_IS_BLOCKED") []
    = AnswerError 403 (lit "Forbidden: bot was blocked by the user") [].
Proof.
  destruct (errors_normalized demo_query 400 (lit "USER_IS_BLOCKED") []) as (q' & a & Hq & Ha & _);
    [done|done|by vm_compute|by vm_compute|].
  exists q', a. split; [exact Hq|]. split; [exact Ha|].
  split; [vm_compute in Hq; injection Hq as <-; reflexivity|vm_compute; reflexivity].
Defined.
