(* ===== verification/FileStreamRoute.v ===== *)
(** * The request of a stream: address, route, size hint and range

    server/FileStreamRoute.cpp with the records of server/FileStreamCore.h:
    the policy on peer addresses ([is_file_stream_ip_allowed]), the parsers of
    the URL ([parse_file_stream_route]), of the X-Telegram-File-Size and
    cache headers and of the Range header ([parse_file_stream_range]).

    The allow list is read through views into one buffer, because the code
    makes [td::CSlice]s of them, whose constructor [CHECK]s the byte after the
    view; see [CSlice_of]. *)

From S2P Require Import Prelude Slices Codecs Integers Parser IpAddress.

(** ** FileStreamCore.h *)

Record FileStreamRoute := mkRoute {
  fr_token : slice;
  fr_file_id : slice;
  fr_is_test_dc : bool;
  fr_expected_size : Z;
  fr_no_cache : bool;
  fr_range : slice;
  fr_head_only : bool;
}.

Record FileStreamRange := mkRange {
  is_partial : bool;
  range_start : Z;
  range_end : Z;
}.

(** ** Peer addresses *)

Record IpPrefix := mkPrefix {
  pfx_ipv4 : Z;
  pfx_ipv6 : list Z;
  pfx_is_ipv4 : bool;
  pfx_len : Z;
}.
Definition new_IpPrefix : IpPrefix := mkPrefix 0 (replicate 16 0) false 0.

(** A [td::Slice] as a window of a NUL-terminated buffer: its text and what
    follows it, the terminator included. *)
Record view := mkView { v_text : slice; v_rest : slice }.

Definition view_take (n : nat) (v : view) : view :=
  mkView (take n (v_text v)) (drop n (v_text v) ++ v_rest v).
Definition view_drop (n : nat) (v : view) : view := mkView (drop n (v_text v)) (v_rest v).
Definition view_trim (v : view) : view :=
  let s := drop_while is_space (v_text v) in
  view_take (length (drop_spaces_back s)) (mkView s (v_rest v)).

(** [td::CSlice(begin, end)]: [CHECK( *end == '\0')]. *)
Definition CSlice_of (v : view) : option slice :=
  CHECK (bool_decide (head (v_rest v) = Some "000"%char)) (Some (v_text v)).

Section AllowList.
  Context (inet_pton4 : slice → option Z) (inet_pton6 : slice → option (list Z)).

Definition parse_ipv6_prefix (text : view) : option (option (list Z)) :=
  s ← CSlice_of text;
  match init_ipv6_port inet_pton6 s 0 with
  | (Ok _, addr) =>
      v6 ← get_ipv6 addr;
      Some (if negb (length v6 =? 16)%nat then None else Some v6)
  | (Err _ _, _) => Some None
  end.

  (** The part of the entry after its last slash: [None] when it is not a
      prefix length. *)
Definition parse_prefix_len (prefix_part : slice) : option Z :=
  if bool_decide (prefix_part = []) then None
  else if negb (forallb is_digit prefix_part) then None
  else match to_integer_safe 32 prefix_part with Ok n => Some n | Err _ _ => None end.

  (** The address part, first as IPv4, then as IPv6; a default length is taken
      when [prefix_len] is negative. *)
Definition parse_allow_ip_address (addr_part : view) (prefix_len : Z) : option (bool * IpPrefix) :=
  s ← CSlice_of addr_part;
  match init_ipv4_port inet_pton4 s 0 with
  | (Ok _, addr) =>
      ip ← get_ipv4 addr;
      let len := if prefix_len <? 0 then 32 else prefix_len in
      Some ((0 <=? len) && (len <=? 32), mkPrefix ip (replicate 16 0) true len)
  | (Err _ _, _) =>
      v6 ← parse_ipv6_prefix addr_part;
      match v6 with
      | Some v6 =>
          let len := if prefix_len <? 0 then 128 else prefix_len in
          Some ((0 <=? len) && (len <=? 128), mkPrefix 0 v6 false len)
      | None => Some (false, new_IpPrefix)
      end
  end.

Definition parse_allow_ip_entry (entry : view) : option (bool * IpPrefix) :=
  let entry := view_trim entry in
  if bool_decide (v_text entry = []) then Some (false, new_IpPrefix)
  else match rfind "/" (v_text entry) with
  | None => parse_allow_ip_address entry (-1)
  | Some slash_pos =>
      match parse_prefix_len (drop (slash_pos + 1) (v_text entry)) with
      | None => Some (false, new_IpPrefix)
      | Some prefix_len => parse_allow_ip_address (view_take slash_pos entry) prefix_len
      end
  end.

Definition is_private_or_loopback (addr : IPAddress) : bool :=
  match addr with
  | ip_invalid => false
  | ip_v4 ip _ =>
      (Z.shiftr ip 24 =? 0) || (Z.shiftr ip 24 =? 10) || (Z.shiftr ip 24 =? 127)
      || (Z.shiftr ip 16 =? 43518) || (Z.land (Z.shiftr ip 20) 4095 =? 2753)
      || (Z.shiftr ip 16 =? 49320)
  | ip_v6 v6 _ =>
      if negb (length v6 =? 16)%nat then false
      else if forallb (fun b => b =? 0) (take 15 v6) && (nth 15 v6 0 =? 1) then true
      else Z.land (nth 0 v6 0) 254 =? 252
  end.

Definition ipv4_matches (prefix : IpPrefix) (ip : Z) : bool :=
  let mask := if pfx_len prefix =? 0 then 0
              else wrap 32 (Z.shiftl (2 ^ 32 - 1) (32 - pfx_len prefix)) in
  Z.land (pfx_ipv4 prefix) mask =? Z.land ip mask.

Definition ipv6_matches (prefix : IpPrefix) (ip : list Z) : bool :=
  let full_bytes := Z.to_nat (pfx_len prefix / 8) in
  let rem_bits := pfx_len prefix mod 8 in
  if negb (bool_decide (take full_bytes (pfx_ipv6 prefix) = take full_bytes ip)) then false
  else if 0 <? rem_bits then
    let mask := wrap 8 (Z.shiftl 255 (8 - rem_bits)) in
    Z.land (nth full_bytes (pfx_ipv6 prefix) 0) mask =? Z.land (nth full_bytes ip 0) mask
  else true.

  (** What the loop does with a parsed entry. *)
Definition prefix_allows (prefix : IpPrefix) (peer_address : IPAddress) : bool :=
  match peer_address with
  | ip_v4 ip _ => pfx_is_ipv4 prefix && ipv4_matches prefix ip
  | ip_v6 v6 _ => negb (pfx_is_ipv4 prefix) && (length v6 =? 16)%nat && ipv6_matches prefix v6
  | ip_invalid => false
  end.

  (** Every round reads at least one character of [allow_ip]. *)
Fixpoint allow_loop (fuel : nat) (p : parser) (peer_address : IPAddress) : option bool :=
  if p_empty p then Some false
  else match fuel with
  | O => None
  | S fuel =>
      let '(entry, p1) := read_till_nofail "," p in
      let p2 := skip_nofail "," p1 in
      '(parsed, prefix) ← parse_allow_ip_entry (mkView entry (p_data p1 ++ ["000"%char]));
      if parsed && prefix_allows prefix peer_address then Some true
      else allow_loop fuel p2 peer_address
  end.

Definition is_file_stream_ip_allowed (peer_address : IPAddress) (allow_ip : slice) : option bool :=
  if negb (ip_is_valid peer_address) then Some false
  else if bool_decide (allow_ip = []) then Some (is_private_or_loopback peer_address)
  else allow_loop (length allow_ip) (new_parser allow_ip) peer_address.
End AllowList.

(** ** Headers and URL *)

Definition is_hex (c : ascii) : bool :=
  let z := char_code c in
  ((48 <=? z) && (z <=? 57)) || ((97 <=? z) && (z <=? 102)) || ((65 <=? z) && (z <=? 70)).

Fixpoint validate_url_encoding (value : slice) : status :=
  match value with
  | [] => Ok tt
  | c :: rest =>
      if bool_decide (c = "%"%char) then
        match rest with
        | h :: l :: rest' =>
            if is_hex h && is_hex l then validate_url_encoding rest'
            else Err 400 (lit "Invalid percent-encoding in file_id")
        | _ => Err 400 (lit "Invalid percent-encoding in file_id")
        end
      else validate_url_encoding rest
  end.

Definition parse_file_stream_size_hint (value : slice) : result Z :=
  let error := Err 400 (lit "Invalid X-Telegram-File-Size header") in
  if bool_decide (value = []) then Ok (-1)
  else if negb (forallb is_digit value) then error
  else match to_integer_safe 64 value with
  | Ok size => if size <=? 0 then error else Ok size
  | Err _ _ => error
  end.

Definition parse_file_stream_no_cache (value : slice) : bool :=
  let value := trim value in
  bool_decide (value = lit "1") || bool_decide (to_lower_slice value = lit "true").

Definition range_error : result FileStreamRange := Err 416 (lit "Range Not Satisfiable").

(** The last part of [parse_file_stream_range], on the trimmed texts of the two
    bounds. *)
Definition parse_range_bounds (start_value end_value : slice) (total_size : Z) :
    result FileStreamRange :=
  if bool_decide (start_value = []) && bool_decide (end_value = []) then range_error
  else if bool_decide (start_value = []) then
    match to_integer_safe 64 end_value with
    | Ok suffix_size =>
        if (suffix_size <=? 0) || (total_size =? 0) then range_error
        else let length := Z.min suffix_size total_size in
             Ok (mkRange true (total_size - length) (total_size - 1))
    | Err _ _ => range_error
    end
  else match to_integer_safe 64 start_value with
  | Ok start =>
      if (start <? 0) || (total_size <=? start) then range_error
      else if bool_decide (end_value = []) then Ok (mkRange true start (total_size - 1))
      else match to_integer_safe 64 end_value with
      | Ok parsed_end =>
          if parsed_end <? start then range_error
          else Ok (mkRange true start (Z.min parsed_end (total_size - 1)))
      | Err _ _ => range_error
      end
  | Err _ _ => range_error
  end.

Definition parse_file_stream_range (value : slice) (total_size : Z) : result FileStreamRange :=
  if total_size <? 0 then range_error
  else
  let value := trim value in
  if bool_decide (value = []) then Ok (mkRange false 0 (total_size - 1))
  else if negb (begins_with value (lit "bytes=")) then range_error
  else
  let value := drop 6 value in
  if bool_decide (value = []) || negb (bool_decide (find "," value = None)) then range_error
  else match find "-" value with
  | None => range_error
  | Some dash_pos =>
      parse_range_bounds (trim (take dash_pos value)) (trim (drop (dash_pos + 1) value)) total_size
  end.

Definition resolve_file_stream_size (tdlib_size expected_size : Z) : result Z :=
  if 0 <? tdlib_size then Ok tdlib_size
  else Err 502 (lit "Exact file size is unavailable from Telegram").

(** The last part of [parse_file_stream_route], on the path after the token. *)
Definition parse_route_tail (token : slice) (test : bool) (encoded_file_id : slice) :
    result FileStreamRoute :=
  if bool_decide (encoded_file_id = []) || negb (bool_decide (find "/" encoded_file_id = None))
  then Err 400 (lit "Invalid file_id path")
  else
  _ ← validate_url_encoding encoded_file_id;
  let file_id := url_decode encoded_file_id false in
  if bool_decide (file_id = []) || (4096 <? slen file_id)
     || negb (bool_decide (find "/" file_id = None))
     || negb (bool_decide (find "000" file_id = None))
  then Err 400 (lit "Invalid file_id specified")
  else Ok (mkRoute token file_id test (-1) false [] false).

Definition parse_file_stream_route (path : slice) : result FileStreamRoute :=
  let '(skipped, p0) := try_skip (lit "/stream/file/bot") (new_parser path) in
  if negb skipped then Err 404 (lit "Not Found")
  else
  let '(token, p1) := read_till "/" p0 in
  if bool_decide (token = []) then Err 400 (lit "Token is empty")
  else
  let p2 := skip "/" p1 in
  if negb (is_ok (p_status p2)) then Err 400 (lit "file_id is missing")
  else
  let '(is_test_dc, p3) := try_skip (lit "test/") p2 in
  parse_route_tail token is_test_dc (p_data p3).

(** ** Prefixes *)

Lemma testbit_high w a n : 0 <= a < 2 ^ w → 0 <= w <= n → Z.testbit a n = false.
Proof.
  intros Ha Hn. rewrite <- (Z.mod_small a (2 ^ w)) by done. by apply Z.mod_pow2_bits_high.
Qed.

(** Masking with the [w - k] top bits clears the [k] low ones. *)
Lemma land_mask w k a :
  0 <= k <= w → 0 <= a < 2 ^ w →
  Z.land a (wrap w (Z.shiftl (2 ^ w - 1) k)) = (a / 2 ^ k) * 2 ^ k.
Proof.
  intros Hk Ha. unfold wrap. rewrite <- Z.shiftr_div_pow2, <- Z.shiftl_mul_pow2 by lia.
  replace (2 ^ w - 1) with (Z.ones w) by (rewrite Z.ones_equiv; lia).
  rewrite <- Z.land_ones by lia. apply Z.bits_inj'. intros n Hn.
  rewrite !Z.land_spec. destruct (Z.ltb_spec n w).
  - rewrite (Z.ones_spec_low w n) by lia. destruct (Z.ltb_spec n k).
    + rewrite !Z.shiftl_spec_low by lia. by rewrite andb_false_r.
    + rewrite !Z.shiftl_spec by lia. rewrite Z.ones_spec_low, Z.shiftr_spec by lia.
      rewrite !andb_true_r. f_equal. lia.
  - rewrite (testbit_high w a n) by lia. simpl. symmetry.
    rewrite Z.shiftl_spec, Z.shiftr_spec by lia. apply (testbit_high w); lia.
Qed.

Lemma mask_eq w k a b :
  0 <= k <= w → 0 <= a < 2 ^ w → 0 <= b < 2 ^ w →
  Z.land a (wrap w (Z.shiftl (2 ^ w - 1) k)) = Z.land b (wrap w (Z.shiftl (2 ^ w - 1) k))
  ↔ a / 2 ^ k = b / 2 ^ k.
Proof. intros. rewrite !land_mask by done. split; [|by intros ->]. nia. Qed.

(** What [parse_allow_ip_entry] accepts. *)
Definition prefix_ok (p : IpPrefix) : Prop :=
  if pfx_is_ipv4 p then 0 <= pfx_ipv4 p < 2 ^ 32 ∧ 0 <= pfx_len p <= 32
  else length (pfx_ipv6 p) = 16%nat ∧ byte_list (pfx_ipv6 p) ∧ 0 <= pfx_len p <= 128.

Lemma ipv4_matches_spec p ip :
  0 <= pfx_ipv4 p < 2 ^ 32 → 0 <= pfx_len p <= 32 → 0 <= ip < 2 ^ 32 →
  ipv4_matches p ip = true ↔
  pfx_ipv4 p / 2 ^ (32 - pfx_len p) = ip / 2 ^ (32 - pfx_len p).
Proof.
  intros Hp Hl Hip. unfold ipv4_matches. rewrite Z.eqb_eq.
  destruct (Z.eqb_spec (pfx_len p) 0) as [->|].
  - rewrite !Z.land_0_r. rewrite !Z.div_small by (change (32 - 0) with 32; lia). done.
  - apply mask_eq; lia.
Qed.

(** The number of the first [n] bytes of an address. *)
Lemma be_value_take l n :
  byte_list l → (n <= length l)%nat →
  be_value 0 l / 256 ^ (slen l - Z.of_nat n) = be_value 0 (take n l).
Proof.
  intros Hl Hn. rewrite <- (take_drop n l) at 1. rewrite be_value_app.
  rewrite be_value_shift.
  assert (slen (drop n l) = slen l - Z.of_nat n) as -> by (unfold slen; rewrite length_drop; lia).
  assert (byte_list (drop n l)) as Hd by (by apply Forall_drop).
  pose proof (be_value_range _ Hd) as Hr.
  assert (slen (drop n l) = slen l - Z.of_nat n) as E by (unfold slen; rewrite length_drop; lia).
  rewrite E in Hr. rewrite Z.div_add_l by lia. rewrite Z.div_small by lia. lia.
Qed.

Lemma nth_byte l n : byte_list l → 0 <= nth n l 0 < 256.
Proof.
  intros Hl. destruct (decide (n < length l)%nat) as [H|H].
  - destruct (lookup_lt_is_Some_2 l n H) as [x E].
    rewrite (nth_lookup_Some _ _ _ _ E). unfold byte_list in Hl. rewrite Forall_lookup in Hl. by apply (Hl n).
  - rewrite nth_overflow; lia.
Qed.
(** The top bits of an IPv6 address: whole bytes, then bits of one byte. *)
Lemma ipv6_top_bits l full rem :
  byte_list l → length l = 16%nat → (full < 16)%nat → 0 < rem < 8 →
  be_value 0 l / 2 ^ (128 - (8 * Z.of_nat full + rem))
  = be_value 0 (take full l) * 2 ^ rem + nth full l 0 / 2 ^ (8 - rem).
Proof.
  intros Hl Hlen Hf Hr.
  replace (2 ^ (128 - (8 * Z.of_nat full + rem)))
    with (256 ^ (16 - Z.of_nat (S full)) * 2 ^ (8 - rem)).
  2: { change 256 with (2 ^ 8). rewrite <- Z.pow_mul_r, <- Z.pow_add_r by lia. f_equal. lia. }
  rewrite <- Z.div_div by lia.
  replace 16 with (slen l) by (unfold slen; lia).
  rewrite be_value_take by (done || lia). rewrite (take_S_nth _ _ (0 : Z)) by lia.
  rewrite be_value_app.
  change (be_value (be_value 0 (take full l)) [nth full l 0])
    with (be_value 0 (take full l) * 256 + nth full l 0).
  replace 256 with (2 ^ rem * 2 ^ (8 - rem)) 
    by (rewrite <- Z.pow_add_r by lia; replace (rem + (8 - rem)) with 8 by lia; done).
  rewrite Z.mul_assoc, Z.div_add_l by lia. done.
Qed.

Lemma ipv6_matches_spec p ip :
  length (pfx_ipv6 p) = 16%nat → byte_list (pfx_ipv6 p) → 0 <= pfx_len p <= 128 →
  length ip = 16%nat → byte_list ip →
  ipv6_matches p ip = true ↔
  be_value 0 (pfx_ipv6 p) / 2 ^ (128 - pfx_len p) = be_value 0 ip / 2 ^ (128 - pfx_len p).
Proof.
  intros Hpl Hpb Hl Hil Hib. unfold ipv6_matches.
  set (full := Z.to_nat (pfx_len p / 8)). set (rem := pfx_len p mod 8).
  assert (pfx_len p = 8 * Z.of_nat full + rem ∧ 0 <= rem < 8 ∧ (full <= 16)%nat) as (E & Hrem & Hf)
    by (subst full rem; Z.to_euclidean_division_equations; lia).
  rewrite E.
  assert (∀ a b, byte_list a → byte_list b → length a = 16%nat → length b = 16%nat →
    take full a = take full b ↔ be_value 0 (take full a) = be_value 0 (take full b)) as Htake.
  { intros a b Ha Hb Hla Hlb. split; [by intros ->|]. intros Heq.
    apply be_value_inj; [rewrite !length_take; lia|by apply Forall_take..|done]. }
  specialize (Htake _ _ Hpb Hib Hpl Hil).
  destruct (Z.ltb_spec 0 rem).
  - rewrite !ipv6_top_bits by (done || lia).
    pose proof (nth_byte _ full Hpb). pose proof (nth_byte _ full Hib).
    pose proof (mask_eq 8 (8 - rem) (nth full (pfx_ipv6 p) 0) (nth full ip 0)) as Hm.
    change (2 ^ 8 - 1) with 255 in Hm.
    assert (∀ x, 0 <= x < 256 → 0 <= x / 2 ^ (8 - rem) < 2 ^ rem) as Hdiv.
    { intros x Hx. split; [apply Z.div_pos; lia|]. apply Z.div_lt_upper_bound; [lia|].
      rewrite <- Z.pow_add_r by lia. replace (8 - rem + rem) with 8 by lia. lia. }
    pose proof (Hdiv _ (nth_byte _ full Hpb)). pose proof (Hdiv _ (nth_byte _ full Hib)).
    case_bool_decide as Et; cbn [negb].
    + rewrite Z.eqb_eq, Hm by lia. rewrite Htake in Et. rewrite Et. lia.
    + split; [done|]. rewrite Htake in Et. intros Heq. exfalso. apply Et. nia.
  - assert (rem = 0) as Er by lia. rewrite Er.
    replace (2 ^ (128 - (8 * Z.of_nat full + 0))) with (256 ^ (16 - Z.of_nat full)).
    2: { change 256 with (2 ^ 8). rewrite <- Z.pow_mul_r by lia. f_equal. lia. }
    replace 16 with (slen (pfx_ipv6 p)) at 1 by (unfold slen; lia).
    rewrite be_value_take by (done || lia).
    replace 16 with (slen ip) by (unfold slen; lia).
    rewrite be_value_take by (done || lia).
    rewrite <- Htake. case_bool_decide; naive_solver.
Qed.

(** ** The address policy *)

(** The network [a.b.c.d]. *)
Definition ip4 (a b c d : Z) : Z := ((a * 256 + b) * 256 + c) * 256 + d.

(** The networks the comment of [is_private_or_loopback] names. *)
Definition private_network (peer : IPAddress) : Prop :=
  match peer with
  | ip_invalid => False
  | ip_v4 ip _ =>
      ip4 0 0 0 0 <= ip <= ip4 0 255 255 255 ∨ ip4 10 0 0 0 <= ip <= ip4 10 255 255 255
      ∨ ip4 127 0 0 0 <= ip <= ip4 127 255 255 255
      ∨ ip4 169 254 0 0 <= ip <= ip4 169 254 255 255
      ∨ ip4 172 16 0 0 <= ip <= ip4 172 31 255 255
      ∨ ip4 192 168 0 0 <= ip <= ip4 192 168 255 255
  | ip_v6 ip _ =>
      be_value 0 ip = 1 ∨ 252 * 2 ^ 120 <= be_value 0 ip < 254 * 2 ^ 120
  end.

(** The addresses that share the first [pfx_len] bits of the prefix. *)
Definition in_network (p : IpPrefix) (peer : IPAddress) : Prop :=
  match peer with
  | ip_invalid => False
  | ip_v4 ip _ =>
      pfx_is_ipv4 p = true ∧ pfx_ipv4 p / 2 ^ (32 - pfx_len p) = ip / 2 ^ (32 - pfx_len p)
  | ip_v6 ip _ =>
      pfx_is_ipv4 p = false
      ∧ be_value 0 (pfx_ipv6 p) / 2 ^ (128 - pfx_len p) = be_value 0 ip / 2 ^ (128 - pfx_len p)
  end.

Lemma private_v4 ip port :
  0 <= ip < 2 ^ 32 →
  is_private_or_loopback (ip_v4 ip port) = true ↔ private_network (ip_v4 ip port).
Proof.
  intros H. unfold is_private_or_loopback, private_network, ip4.
  change 4095 with (Z.ones 12). rewrite Z.land_ones by lia.
  rewrite !Z.shiftr_div_pow2 by lia. rewrite !orb_true_iff, !Z.eqb_eq.
  change (2 ^ 32) with 4294967296 in H. change (2 ^ 24) with 16777216.
  change (2 ^ 16) with 65536. change (2 ^ 20) with 1048576. change (2 ^ 12) with 4096.
  Z.to_euclidean_division_equations. lia.
Qed.

Lemma land_254 x : 0 <= x < 256 → Z.land x 254 = 252 ↔ 252 <= x < 254.
Proof.
  intros Hx. pose proof (land_mask 8 1 x ltac:(lia) Hx) as E.
  change (wrap 8 (Z.shiftl (2 ^ 8 - 1) 1)) with 254 in E. rewrite E.
  change (2 ^ 1) with 2. Z.to_euclidean_division_equations. lia.
Qed.

Lemma forallb_zero l : forallb (fun b => b =? 0) l = true → be_value 0 l = 0.
Proof.
  induction l as [|x l IH]; [done|]. cbn [forallb]. rewrite andb_true_iff, Z.eqb_eq.
  intros [-> H]. unfold be_value in *. cbn [foldl]. by apply IH.
Qed.

Lemma be_value_zero l : byte_list l → be_value 0 l = 0 → forallb (fun b => b =? 0) l = true.
Proof.
  induction l as [|x l IH] using rev_ind; intros Hl E; [done|].
  apply Forall_app in Hl as [Hl Hx]. rewrite Forall_singleton in Hx.
  rewrite be_value_app in E.
  change (be_value (be_value 0 l) [x]) with (be_value 0 l * 256 + x) in E.
  pose proof (be_value_range _ Hl). rewrite forallb_app, IH by (done || lia).
  cbn [forallb]. rewrite andb_true_iff, !andb_true_r. split; [done|lia].
Qed.

Lemma private_v6 v6 port :
  length v6 = 16%nat → byte_list v6 →
  is_private_or_loopback (ip_v6 v6 port) = true ↔ private_network (ip_v6 v6 port).
Proof.
  intros Hlen Hb. unfold is_private_or_loopback, private_network.
  rewrite Hlen. cbn [Nat.eqb negb].
  assert (be_value 0 v6 = be_value 0 (take 15 v6) * 256 + nth 15 v6 0) as Elast.
  { rewrite <- (take_ge v6 16) at 1 by lia. rewrite (take_S_nth v6 15 0) by lia.
    by rewrite be_value_app. }
  assert (be_value 0 v6 / 2 ^ 120 = nth 0 v6 0) as Efirst.
  { pose proof (be_value_take v6 1 Hb ltac:(lia)) as E.
    rewrite (take_S_nth v6 0 0) in E by lia. unfold slen in E. rewrite Hlen in E.
    change (be_value 0 (take 0 v6 ++ [nth 0 v6 0])) with (nth 0 v6 0) in E.
    rewrite <- E. reflexivity. }
  pose proof (nth_byte _ 15 Hb). pose proof (nth_byte _ 0 Hb).
  pose proof (be_value_range _ (Forall_take _ 15 _ Hb)) as Ht.
  assert (252 <= nth 0 v6 0 < 254 ↔ 252 * 2 ^ 120 <= be_value 0 v6 < 254 * 2 ^ 120) as Hfirst.
  { rewrite <- Efirst. pose proof (Z.div_mod (be_value 0 v6) (2 ^ 120) ltac:(lia)).
    pose proof (Z.mod_pos_bound (be_value 0 v6) (2 ^ 120) ltac:(lia)). nia. }
  rewrite <- Hfirst, <- land_254 by done.
  destruct (forallb (fun b => b =? 0) (take 15 v6)) eqn:E; cbn [andb].
  - apply forallb_zero in E. destruct (Z.eqb_spec (nth 15 v6 0) 1); [naive_solver lia|].
    rewrite Z.eqb_eq. naive_solver lia.
  - rewrite Z.eqb_eq. split; [by right|]. intros [E1|]; [|done].
    rewrite be_value_zero in E; [done|by apply Forall_take|lia].
Qed.

Section AllowListFacts.
  Context (inet_pton4 : slice → option Z) (inet_pton6 : slice → option (list Z)).

  (** The address parsers are called with port 0, which they refuse. *)
Lemma parse_allow_ip_address_false v len b p :
  parse_allow_ip_address inet_pton4 inet_pton6 v len = Some (b, p) → b = false.
Proof.
  unfold parse_allow_ip_address, parse_ipv6_prefix, CSlice_of, CHECK.
  destruct (bool_decide _); simpl; [|done]. by intros [= <- _].
Qed.

Lemma parse_allow_ip_address_check v len :
  parse_allow_ip_address inet_pton4 inet_pton6 v len = None ↔ head (v_rest v) ≠ Some "000"%char.
Proof.
  unfold parse_allow_ip_address, parse_ipv6_prefix, CSlice_of, CHECK.
  case_bool_decide; simpl; naive_solver.
Qed.

Lemma parse_allow_ip_entry_false e b p :
  parse_allow_ip_entry inet_pton4 inet_pton6 e = Some (b, p) → b = false.
Proof.
  unfold parse_allow_ip_entry. case_bool_decide; [by intros [= <- _]|].
  destruct (rfind _ _); [|by apply parse_allow_ip_address_false].
  destruct (parse_prefix_len _); [by apply parse_allow_ip_address_false|by intros [= <- _]].
Qed.

Lemma allow_loop_never fuel p peer :
  allow_loop inet_pton4 inet_pton6 fuel p peer ≠ Some true.
Proof.
  revert p; induction fuel as [|fuel IH]; intros p; cbn [allow_loop];
    destruct (p_empty p); try done.
  destruct (read_till_nofail "," p) as [entry p1].
  destruct (parse_allow_ip_entry _ _ _) as [[b pf]|] eqn:E; simpl; [|done].
  apply parse_allow_ip_entry_false in E as ->. simpl. apply IH.
Qed.
End AllowListFacts.

Definition plain_char (c : ascii) : bool :=
  negb (is_space c) && negb (bool_decide (c = ","%char)) && negb (bool_decide (c = "/"%char)).

Lemma plain_no c s : plain_char c = false → Forall (fun c => plain_char c = true) s → c ∉ s.
Proof. intros Hc Hs Hin. rewrite Forall_forall in Hs. apply Hs in Hin. congruence. Qed.

Lemma plain_trim s r :
  Forall (fun c => plain_char c = true) s → view_trim (mkView s r) = mkView s r.
Proof.
  intros H. assert (Forall (fun c => is_space c = false) s) as Hs.
  { eapply Forall_impl; [exact H|]. intros c. unfold plain_char. by destruct (is_space c). }
  unfold view_trim. cbn [v_text v_rest]. rewrite drop_while_id by done.
  assert (drop_spaces_back s = s) as E.
  { unfold drop_spaces_back. rewrite drop_while_id; [by apply rev_involutive|].
    by apply Forall_rev. }
  unfold view_take. cbn [v_text v_rest]. by rewrite E, firstn_all, drop_all.
Qed.

Lemma rfind_last c s t : c ∉ t → rfind c (s ++ c :: t) = Some (length s).
Proof.
  intros Ht. unfold rfind. rewrite length_app. cbn [length].
  assert (∀ k, (k <= length t)%nat →
    rfind_below c (s ++ c :: t) (length s + S k) = Some (length s)) as H; [|by apply H].
  induction k as [|k IH]; intros Hk; rewrite Nat.add_succ_r; cbn [rfind_below].
  - rewrite Nat.add_0_r, list_lookup_middle by done. by rewrite bool_decide_true.
  - rewrite lookup_app_r by lia. replace (length s + S k - length s)%nat with (S k) by lia.
    cbn [lookup list_lookup]. rewrite bool_decide_false; [apply IH; lia|].
    intros E. apply Ht. by eapply list_elem_of_lookup_2.
Qed.

(** A decimal prefix length. *)
Lemma parse_prefix_len_digits n :
  0 <= n < 2 ^ 31 →
  parse_prefix_len (print_int 32 n) = Some n
  ∧ Forall (fun c => is_digit c = true) (print_int 32 n) ∧ print_int 32 n ≠ [].
Proof.
  intros Hn. assert (print_int 32 n = print_uint n) as E.
  { unfold print_int. by replace (n <? 0) with false by lia. }
  destruct (print_uint_spec n) as (Hd & Hv & Hne); [lia|]. rewrite <- E in *.
  split; [|done]. unfold parse_prefix_len. rewrite bool_decide_false by done.
  assert (forallb is_digit (print_int 32 n) = true) as ->.
  { apply forallb_forall. intros c Hc. rewrite Forall_forall in Hd. apply Hd.
    by apply list_elem_of_In. }
  assert (to_integer_safe 32 (print_int 32 n) = Ok n) as ->; [|done].
  apply to_integer_safe_ok; [done|]. split; [unfold signed_range; lia|done].
Qed.

Lemma digits_plain s :
  Forall (fun c => is_digit c = true) s → Forall (fun c => plain_char c = true) s.
Proof. intros H. eapply Forall_impl; [exact H|]. intros c. all_chars c. Qed.

(** The address part of an entry with a length ends at the slash, where the
    constructor of [td::CSlice] expects a NUL. *)
Lemma entry_with_length_aborts p4 p6 addr n rest :
  Forall (fun c => plain_char c = true) addr → 0 <= n < 2 ^ 31 →
  parse_allow_ip_entry p4 p6 (mkView (addr ++ "/"%char :: print_int 32 n) rest) = None.
Proof.
  intros Ha Hn. destruct (parse_prefix_len_digits n Hn) as (Hp & Hd & Hne).
  apply digits_plain in Hd.
  unfold parse_allow_ip_entry.
  assert (view_trim (mkView (addr ++ "/"%char :: print_int 32 n) rest)
          = mkView (addr ++ "/"%char :: print_int 32 n) rest) as ->.
  { assert (trim (addr ++ "/"%char :: print_int 32 n) = addr ++ "/"%char :: print_int 32 n) as Et.
    { apply trim_no_space. rewrite Forall_forall. intros c Hc.
      rewrite Forall_forall in Ha, Hd. apply elem_of_app in Hc as [Hc|Hc].
      - apply Ha in Hc. unfold plain_char in Hc. by destruct (is_space c).
      - apply elem_of_cons in Hc as [->|Hc]; [done|].
        apply Hd in Hc. unfold plain_char in Hc. by destruct (is_space c). }
    assert (drop_while is_space (addr ++ "/"%char :: print_int 32 n)
            = addr ++ "/"%char :: print_int 32 n) as Ed.
    { destruct addr as [|c addr]; [done|]. apply Forall_cons in Ha as [Hc _].
      simpl. unfold plain_char in Hc. by destruct (is_space c). }
    unfold view_trim. cbn [v_text v_rest]. unfold trim in Et. rewrite Ed in *. rewrite Et.
    unfold view_take. cbn [v_text v_rest]. by rewrite firstn_all, drop_all. }
  cbn [v_text]. rewrite bool_decide_false by (by destruct addr).
  rewrite rfind_last by (by eapply plain_no; [|exact Hd]).
  replace (drop (length addr + 1) (addr ++ "/"%char :: print_int 32 n)) with (print_int 32 n).
  2: { rewrite drop_app_ge by lia. by replace (length addr + 1 - length addr)%nat with 1%nat by lia. }
  rewrite Hp. apply parse_allow_ip_address_check. unfold view_take. cbn [v_text v_rest].
  rewrite drop_app_length. done.
Qed.

(** ** Properties of the address policy *)

(** C31: With no --file-stream-allow-ip a valid peer may stream exactly when its address is in 0.0.0.0/8,
    10.0.0.0/8, 127.0.0.0/8, 169.254.0.0/16, 172.16.0.0/12 or 192.168.0.0/16, or is ::1 or in fc00::/7. *)
Theorem default_address_policy p4 p6 peer :
  ip_ok peer →
  ∃ b, is_file_stream_ip_allowed p4 p6 peer [] = Some b ∧ (b = true ↔ private_network peer).
Proof.
  intros Hok. unfold is_file_stream_ip_allowed. destruct peer as [|ip port|v6 port].
  - by exists false.
  - exists (is_private_or_loopback (ip_v4 ip port)). split; [done|]. by apply private_v4, Hok.
  - exists (is_private_or_loopback (ip_v6 v6 port)). split; [done|]. by apply private_v6; apply Hok.
Qed.

Lemma default_address_policy_witness :
  ip_ok (ip_v4 (ip4 192 168 1 7) 443) ∧
  ∃ b, is_file_stream_ip_allowed (fun _ => None) (fun _ => None) (ip_v4 (ip4 192 168 1 7) 443) []
       = Some b ∧ (b = true ↔ private_network (ip_v4 (ip4 192 168 1 7) 443)).
Proof.
  assert (ip_ok (ip_v4 (ip4 192 168 1 7) 443)) as H
    by (split; vm_compute; split; congruence).
  split; [exact H|].
  exact (default_address_policy (fun _ => None) (fun _ => None) (ip_v4 (ip4 192 168 1 7) 443) H).
Defined.

(** A well-formed address prefix matches a peer exactly when the peer's address lies in the network of
    the prefix. *)
Theorem prefix_allows_network p peer :
  prefix_ok p → ip_ok peer → prefix_allows p peer = true ↔ in_network p peer.
Proof.
  unfold prefix_ok, prefix_allows, in_network.
  destruct peer as [|ip port|v6 port], p as [q4 q6 is4 len]; simpl; intros Hp Hok.
  - done.
  - destruct is4; simpl; [|naive_solver].
    pose proof (ipv4_matches_spec (mkPrefix q4 q6 true len) ip) as H. simpl in H.
    rewrite H by lia. naive_solver.
  - destruct is4; simpl; [naive_solver|]. destruct Hok as (Hlen & Hb & _).
    rewrite Hlen. simpl.
    pose proof (ipv6_matches_spec (mkPrefix q4 q6 false len) v6) as H. simpl in H.
    rewrite H by (done || apply Hp). naive_solver.
Qed.

Lemma prefix_allows_network_witness :
  let p := mkPrefix (ip4 10 1 0 0) [] true 12 in
  prefix_allows p (ip_v4 (ip4 10 15 2 3) 0) = true
  ∧ prefix_allows p (ip_v4 (ip4 10 16 2 3) 0) = false
  ∧ in_network p (ip_v4 (ip4 10 15 2 3) 0).
Proof.
  split; [reflexivity|]. split; [reflexivity|].
  refine (proj1 (prefix_allows_network (mkPrefix (ip4 10 1 0 0) [] true 12)
                   (ip_v4 (ip4 10 15 2 3) 0) _ _) eq_refl);
    vm_compute; (repeat split); congruence.
Defined.

(** A single address without a length reaches the refused parsers. *)
Lemma allow_single_denied p4 p6 fuel peer addr :
  Forall (fun c => plain_char c = true) addr → addr ≠ [] →
  allow_loop p4 p6 (S fuel) (new_parser addr) peer = Some false.
Proof.
  intros Ha Hane. assert ((","%char) ∉ addr) as Hc by (by eapply plain_no; [|exact Ha]).
  cbn [allow_loop]. unfold p_empty, read_till_nofail, new_parser. cbn [p_data p_status is_ok negb].
  rewrite bool_decide_false by done. apply find_None in Hc as ->.
  cbn [p_data with_data app]. unfold parse_allow_ip_entry. rewrite plain_trim by done.
  cbn [v_text]. rewrite bool_decide_false by done.
  assert (rfind "/" addr = None) as ->.
  { destruct (rfind "/" addr) as [pos|] eqn:E; [|done]. apply rfind_Some in E.
    apply list_elem_of_lookup_2 in E. exfalso. revert E. by eapply plain_no; [|exact Ha]. }
  destruct (parse_allow_ip_address p4 p6 (mkView addr ["000"%char]) (-1)) as [[b pf]|] eqn:E.
  - apply parse_allow_ip_address_false in E as ->. simpl. by destruct fuel.
  - by apply parse_allow_ip_address_check in E.
Qed.

(** A list whose first entry has a length aborts the process. *)
Lemma allow_network_aborts p4 p6 fuel peer addr n tail :
  Forall (fun c => plain_char c = true) addr → 0 <= n < 2 ^ 31 →
  (tail = [] ∨ head tail = Some ","%char) →
  allow_loop p4 p6 (S fuel) (new_parser (addr ++ "/"%char :: print_int 32 n ++ tail)) peer = None.
Proof.
  intros Ha Hn Ht. destruct (parse_prefix_len_digits n Hn) as (_ & Hd & _). apply digits_plain in Hd.
  set (entry := addr ++ "/"%char :: print_int 32 n).
  assert ((","%char) ∉ entry) as Hc.
  { subst entry. rewrite elem_of_app, elem_of_cons.
    intros [H|[H|H]]; [revert H; by eapply plain_no; [|exact Ha]|done|].
    revert H. by eapply plain_no; [|exact Hd]. }
  assert (read_till_nofail "," (new_parser (addr ++ "/"%char :: print_int 32 n ++ tail))
          = (entry, with_data (new_parser (addr ++ "/"%char :: print_int 32 n ++ tail)) tail)) as Er.
  { unfold read_till_nofail, new_parser. cbn [p_data p_status is_ok negb].
    replace (addr ++ "/"%char :: print_int 32 n ++ tail) with (entry ++ tail)
      by (subst entry; by rewrite <- app_assoc).
    destruct Ht as [->|Ht].
    - rewrite app_nil_r. by apply find_None in Hc as ->.
    - destruct tail as [|c tail]; [done|]. injection Ht as ->. rewrite find_app by done.
      by rewrite take_app_length, drop_app_length. }
  cbn [allow_loop]. rewrite Er. unfold p_empty, new_parser. cbn [p_data].
  rewrite bool_decide_false by (by destruct addr).
  subst entry. by rewrite entry_with_length_aborts.
Qed.

(** With a non-empty --file-stream-allow-ip no peer is ever allowed, because entries are parsed with
    the port 0 that IPAddress rejects; and an entry with a prefix length aborts the process, because its
    address is not followed by a zero byte. *)
Theorem allow_list_grants_nobody p4 p6 peer allow_ip addr n tail :
  allow_ip ≠ [] → addr ≠ [] →
  Forall (fun c => plain_char c = true) addr → 0 <= n < 2 ^ 31 →
  (tail = [] ∨ head tail = Some ","%char) → ip_is_valid peer = true →
  is_file_stream_ip_allowed p4 p6 peer allow_ip ≠ Some true
  ∧ is_file_stream_ip_allowed p4 p6 peer addr = Some false
  ∧ is_file_stream_ip_allowed p4 p6 peer (addr ++ "/"%char :: print_int 32 n ++ tail) = None.
Proof.
  intros Hne Hane Ha Hn Ht Hv. unfold is_file_stream_ip_allowed. rewrite Hv. cbn [negb].
  rewrite (bool_decide_false (allow_ip = [])), (bool_decide_false (addr = [])) by done.
  rewrite bool_decide_false by (by destruct addr).
  destruct addr as [|c addr]; [done|].
  split; [apply allow_loop_never|]. split; [by apply allow_single_denied|].
  by apply (allow_network_aborts p4 p6 _ peer (c :: addr)).
Qed.

Lemma allow_list_grants_nobody_witness :
  let p4 := fun _ => Some (ip4 10 0 0 1) in
  is_file_stream_ip_allowed p4 (fun _ => None) (ip_v4 (ip4 10 0 0 1) 1000) (lit "10.0.0.1")
    = Some false
  ∧ is_file_stream_ip_allowed p4 (fun _ => None) (ip_v4 (ip4 10 0 0 1) 1000) (lit "10.0.0.1/8")
    = None.
Proof.
  refine (proj2 (allow_list_grants_nobody (fun _ => Some (ip4 10 0 0 1)) (fun _ => None)
    (ip_v4 (ip4 10 0 0 1) 1000) (lit "10.0.0.1") (lit "10.0.0.1") 8 [] _ _ _ _ _ _));
    [discriminate|discriminate|repeat constructor|lia|by left|reflexivity].
Defined.

(** ** Properties of the URL and the headers *)

(** A percent sign is followed by two hexadecimal digits. *)
Inductive percent_ok : slice → Prop :=
| percent_nil : percent_ok []
| percent_plain c s : c ≠ "%"%char → percent_ok s → percent_ok (c :: s)
| percent_code h l s :
    is_hex h = true → is_hex l = true → percent_ok s → percent_ok ("%"%char :: h :: l :: s).

Lemma validate_url_encoding_spec s :
  (validate_url_encoding s = Ok tt ↔ percent_ok s)
  ∧ (validate_url_encoding s ≠ Ok tt →
     validate_url_encoding s = Err 400 (lit "Invalid percent-encoding in file_id")).
Proof.
  induction s as [s IH] using (induction_ltof1 _ (@length ascii)); unfold ltof in IH.
  destruct s as [|c s]; [split; [split; [constructor|done]|done]|].
  cbn [validate_url_encoding]. case_bool_decide as Hc.
  - subst c. destruct s as [|h [|l s]].
    + split; [split; [done|inversion 1; congruence]|done].
    + split; [split; [done|inversion 1; congruence]|done].
    + destruct (is_hex h && is_hex l) eqn:E.
      * apply andb_true_iff in E as [Hh Hl]. destruct (IH s ltac:(simpl; lia)) as [H1 H2].
        split; [|done]. rewrite H1. split; [by constructor|]. by inversion 1.
      * split; [split; [done|]|done]. intros H. inversion H; subst; [congruence|].
        rewrite andb_false_iff in E. destruct E; congruence.
  - destruct (IH s ltac:(simpl; lia)) as [H1 H2]. split; [|done]. rewrite H1.
    split; [by constructor|]. by inversion 1.
Qed.

Lemma percent_ok_encode data : percent_ok (url_encode_loop data).
Proof.
  induction data as [|c data IH]; [constructor|]. cbn [url_encode_loop].
  destruct (is_url_char c) eqn:Hc.
  - apply percent_plain; [|done]. by apply url_char_plain.
  - apply percent_code; [| |done]; clear; all_chars c.
Qed.

Lemma url_encode_no_slash data : ("/"%char) ∉ url_encode_loop data.
Proof.
  induction data as [|c data IH]; [apply not_elem_of_nil|]. cbn [url_encode_loop].
  destruct (is_url_char c) eqn:Hc; rewrite !elem_of_cons.
  - intros [<-|H]; done.
  - intros [H|[H|[H|H]]]; [done| | |done]; revert H; clear; all_chars c.
Qed.

(** The routes the server serves, and the path of each. *)
Definition route_path (token encoded : slice) (test : bool) : slice :=
  lit "/stream/file/bot" ++ token ++ lit "/" ++ (if test then lit "test/" else []) ++ encoded.

Definition route_file_id_ok (file_id : slice) : Prop :=
  file_id ≠ [] ∧ slen file_id <= 4096 ∧ (("/"%char) ∉ file_id) ∧ (("000"%char) ∉ file_id).

Definition route_of_path (path : slice) (r : FileStreamRoute) : Prop :=
  ∃ token encoded test,
    path = route_path token encoded test
    ∧ token ≠ [] ∧ (("/"%char) ∉ token)
    ∧ encoded ≠ [] ∧ (("/"%char) ∉ encoded) ∧ percent_ok encoded
    ∧ route_file_id_ok (url_decode encoded false)
    ∧ r = mkRoute token (url_decode encoded false) test (-1) false [] false.

Lemma parse_route_tail_spec token test enc r :
  parse_route_tail token test enc = Ok r ↔
  enc ≠ [] ∧ (("/"%char) ∉ enc) ∧ percent_ok enc ∧ route_file_id_ok (url_decode enc false)
  ∧ r = mkRoute token (url_decode enc false) test (-1) false [] false.
Proof.
  unfold parse_route_tail, route_file_id_ok. rewrite <- !find_None.
  destruct (validate_url_encoding_spec enc) as [Hv1 Hv2].
  case_bool_decide as H1; simpl; [naive_solver|].
  case_bool_decide as H2; simpl; [|naive_solver].
  rewrite <- Hv1. destruct (validate_url_encoding enc) as [[]|e m] eqn:Ev; simpl; [|naive_solver].
  case_bool_decide as H3; simpl; [naive_solver|].
  destruct (Z.ltb_spec 4096 (slen (url_decode enc false))); simpl; [split; [done|naive_solver lia]|].
  case_bool_decide as H4; simpl; [|naive_solver].
  case_bool_decide as H5; simpl; [|naive_solver].
  split; [intros [= <-]; by split_and!|]. by intros (? & ? & ? & ? & ->).
Qed.

Lemma parse_route_tail_error token test enc code msg :
  parse_route_tail token test enc = Err code msg → code = 400.
Proof.
  unfold parse_route_tail. destruct (validate_url_encoding_spec enc) as [_ Hv2].
  case_match; [by intros [= <- _]|].
  destruct (validate_url_encoding enc) as [[]|e m]; simpl.
  - case_match; by intros [= <- _].
  - specialize (Hv2 ltac:(done)). injection Hv2 as -> ->. by intros [= <- _].
Qed.

(** The parser on its prefix, token and tail. *)
Lemma parse_route_unfold path :
  (¬ (∃ rest, path = lit "/stream/file/bot" ++ rest)
     ∧ parse_file_stream_route path = Err 404 (lit "Not Found"))
  ∨ (∃ rest, path = lit "/stream/file/bot" ++ rest
      ∧ ((((("/"%char) ∉ rest) ∨ head rest = Some "/"%char)
          ∧ parse_file_stream_route path = Err 400 (lit "Token is empty"))
         ∨ ∃ token tail, rest = token ++ "/"%char :: tail ∧ token ≠ [] ∧ (("/"%char) ∉ token)
           ∧ ((∃ enc, tail = lit "test/" ++ enc
                      ∧ parse_file_stream_route path = parse_route_tail token true enc)
              ∨ (¬ (∃ enc, tail = lit "test/" ++ enc)
                 ∧ parse_file_stream_route path = parse_route_tail token false tail)))).
Proof.
  unfold parse_file_stream_route.
  destruct (try_skip (lit "/stream/file/bot") (new_parser path)) as [[] p0] eqn:E0.
  2: { left. apply try_skip_false in E0 as [-> H]. by split. }
  right. apply try_skip_true in E0 as [E0 S0]. exists (p_data p0). split; [exact E0|].
  cbn [negb]. pose proof (read_till_spec "/" p0 S0) as Hr.
  destruct (read_till "/" p0) as [token p1].
  destruct Hr as [(S1 & Hnot & tail & D1 & D0)|(S1 & -> & D1 & Hnot)].
  2: { left. split; [by left|done]. }
  case_bool_decide as Ht.
  { subst token. left. split; [right; by rewrite D0|done]. }
  right. exists token, tail. split; [done|]. split; [done|]. split; [done|].
  assert (skip "/" p1 = with_data p1 tail) as ->.
  { unfold skip. rewrite S1. simpl. rewrite D1. by rewrite bool_decide_true. }
  cbn [p_status with_data]. rewrite S1. cbn [is_ok negb].
  destruct (try_skip (lit "test/") (with_data p1 tail)) as [[] p3] eqn:E3.
  - apply try_skip_true in E3 as [E3 _]. left. exists (p_data p3). by split.
  - apply try_skip_false in E3 as [-> H3]. right. by split.
Qed.

Lemma split_at_inj (c : ascii) t u x y :
  (c ∉ t) → (c ∉ u) → t ++ c :: x = u ++ c :: y → t = u ∧ x = y.
Proof.
  intros Ht Hu E. pose proof (find_app _ _ x Ht) as F1.
  pose proof (find_app _ _ y Hu) as F2. rewrite E, F2 in F1. injection F1 as F1.
  by apply app_inj_1 in E as [-> [= ->]].
Qed.

(** The parser on the path of a route is its tail parser. *)
Lemma parse_route_path token enc test :
  token ≠ [] → (("/"%char) ∉ token) → (("/"%char) ∉ enc) →
  parse_file_stream_route (route_path token enc test) = parse_route_tail token test enc.
Proof.
  intros Ht Hs Hes.
  destruct (parse_route_unfold (route_path token enc test))
    as [[H0 _]|(rest & E & H)]; [exfalso; apply H0; by eexists|].
  apply (app_inv_head (lit "/stream/file/bot")) in E. subst rest.
  destruct H as [[[Hn|Hh] _]|(token' & tail & Eq & Ht' & Hs' & H)].
  { exfalso. apply Hn. rewrite !elem_of_app. right. left. apply elem_of_cons. by left. }
  { destruct token as [|c token]; [done|]. injection Hh as ->. exfalso. apply Hs.
    apply elem_of_cons. by left. }
  apply split_at_inj in Eq as [<- <-]; [|done|done].
  destruct H as [(enc' & E1 & ->)|[H1 ->]]; destruct test; cbn [app] in *.
  - by apply app_inv_head in E1 as ->.
  - exfalso. apply Hes. rewrite E1. apply elem_of_app. left. vm_compute lit.
    repeat (apply elem_of_cons; (by left) || right).
  - exfalso. apply H1. by exists enc.
  - done.
Qed.

(** C32: The route parser accepts exactly the paths of the form /stream/file/bot<token>/[test/]<file_id>,
    with the file identifier percent-decoded, and every refusal is a 400, or a 404 for a path outside
    /stream/file/bot. *)
Theorem parse_file_stream_route_spec path r :
  (parse_file_stream_route path = Ok r ↔ route_of_path path r)
  ∧ (∀ code msg, parse_file_stream_route path = Err code msg →
       code = 400 ∨ (code = 404 ∧ ¬ ∃ rest, path = lit "/stream/file/bot" ++ rest)).
Proof.
  unfold route_of_path. split; [split|].
  - destruct (parse_route_unfold path)
      as [[_ ->]|(rest & -> & [[_ ->]|(token & tail & -> & Ht & Hs & H)])]; try done.
    destruct H as [(enc & -> & ->)|[_ ->]]; rewrite parse_route_tail_spec;
      intros (? & ? & ? & ? & ->); [exists token, enc, true|exists token, tail, false];
      by split_and!.
  - intros (token & enc & test & -> & Ht & Hs & He & Hes & Hpct & Hid & ->).
    rewrite parse_route_path by done. by apply parse_route_tail_spec.
  - intros code msg. destruct (parse_route_unfold path)
      as [[H ->]|(rest & -> & [[_ ->]|(token & tail & -> & _ & _ & [(enc & -> & ->)|[_ ->]])])].
    + intros [= <- _]. by right.
    + intros [= <- _]. by left.
    + intros H. left. by eapply parse_route_tail_error.
    + intros H. left. by eapply parse_route_tail_error.
Qed.

(** Any token without a slash and any admissible file identifier, percent-encoded into a path, are read
    back by the route parser. *)
Theorem route_roundtrip token file_id test :
  token ≠ [] → (("/"%char) ∉ token) → route_file_id_ok file_id →
  ∃ encoded, url_encode file_id = Some encoded
    ∧ parse_file_stream_route (route_path token encoded test)
      = Ok (mkRoute token file_id test (-1) false [] false).
Proof.
  intros Ht Hs Hid. exists (url_encode_loop file_id). split; [apply url_encode_total|].
  rewrite parse_route_path by (done || apply url_encode_no_slash).
  apply parse_route_tail_spec. rewrite url_decode_encode_loop.
  split_and!; try done; [|apply url_encode_no_slash|apply percent_ok_encode].
  destruct Hid as [Hne _]. destruct file_id; [done|]. simpl. by destruct (is_url_char _).
Qed.

Lemma route_roundtrip_witness :
  ∃ encoded, url_encode (lit "a b%") = Some encoded
    ∧ parse_file_stream_route (route_path (lit "1:x") encoded false)
      = Ok (mkRoute (lit "1:x") (lit "a b%") false (-1) false [] false).
Proof.
  assert (∀ c s, bool_decide (c ∈ s) = false → (c ∉ (s : slice))) as Hdec
    by (intros c s; by rewrite bool_decide_eq_false).
  apply (route_roundtrip (lit "1:x") (lit "a b%") false).
  - discriminate.
  - by apply Hdec.
  - split_and!; [discriminate|vm_compute; congruence|by apply Hdec|by apply Hdec].
Defined.

(** The X-Telegram-File-Size header is read as -1 when absent and as a positive 64-bit number written
    canonically; anything else is a 400. *)
Theorem size_hint_spec value n :
  (parse_file_stream_size_hint value = Ok n ↔
     (value = [] ∧ n = -1) ∨ (0 < n <= INT64_MAX ∧ value = print_int 64 n))
  ∧ (∀ code msg, parse_file_stream_size_hint value = Err code msg → code = 400).
Proof.
  unfold parse_file_stream_size_hint. split.
  - case_bool_decide as Hv.
    { split; [intros [= <-]; by left|]. intros [[_ ->]|[Hn ->]]; [done|].
      destruct (print_uint_spec n) as (_ & _ & Hne); [unfold INT64_MAX in Hn; lia|].
      unfold print_int in Hv. replace (n <? 0) with false in Hv by lia. done. }
    pose proof (to_integer_safe_ok 64 value) as Hi.
    destruct (forallb is_digit value) eqn:Hd; cbn [negb].
    + destruct (to_integer_safe 64 value) as [size|e m].
      * destruct (proj1 (Hi size eq_refl) eq_refl) as [Hr Hp].
        unfold signed_range in Hr. unfold INT64_MAX.
        destruct (Z.leb_spec size 0).
        -- split; [done|]. intros [[? _]|[Hn E]]; [done|]. exfalso.
           rewrite Hp in E. apply print_int_inj in E; [lia|done|unfold signed_range; lia..].
        -- split; [intros [= <-]; right; split; [lia|done]|].
           intros [[? _]|[Hn E]]; [done|]. rewrite Hp in E.
           apply print_int_inj in E; [by rewrite E|done|unfold signed_range; lia..].
      * split; [done|]. intros [[? _]|[Hn E]]; [done|].
        assert (Err e m = Ok n) as H; [|done]. apply Hi; [done|]. split; [|done].
        unfold signed_range, INT64_MAX in *. lia.
    + split; [done|]. intros [[? _]|[Hn E]]; [done|]. exfalso.
      destruct (print_uint_spec n) as (Hf & _ & _); [unfold INT64_MAX in Hn; lia|].
      unfold print_int in E. replace (n <? 0) with false in E by lia. rewrite E in Hd.
      assert (forallb is_digit (print_uint n) = true); [|congruence].
      apply forallb_forall. intros c Hc. rewrite Forall_forall in Hf. apply Hf.
      by apply list_elem_of_In.
  - intros code msg. repeat case_match; by intros [= <- _].
Qed.

(** What the Range header asks for: the texts of its two bounds. *)
Definition range_parts (value s e : slice) : Prop :=
  ∃ s0 e0, trim value = lit "bytes=" ++ s0 ++ "-"%char :: e0
           ∧ ((","%char) ∉ s0 ++ "-"%char :: e0) ∧ (("-"%char) ∉ s0) ∧ s = trim s0 ∧ e = trim e0.

Definition decimal (s : slice) (n : Z) : Prop := signed_range 64 n ∧ s = print_int 64 n.

(** The window a header denotes for a file of [total] bytes. *)
Definition range_denotes (value : slice) (total : Z) (r : FileStreamRange) : Prop :=
  (trim value = [] ∧ r = mkRange false 0 (total - 1))
  ∨ (∃ e n, range_parts value [] e ∧ decimal e n ∧ 0 < n ∧ 0 < total
            ∧ r = mkRange true (total - Z.min n total) (total - 1))
  ∨ (∃ s a, range_parts value s [] ∧ decimal s a ∧ 0 <= a < total
            ∧ r = mkRange true a (total - 1))
  ∨ (∃ s e a b, range_parts value s e ∧ decimal s a ∧ decimal e b ∧ 0 <= a < total ∧ a <= b
            ∧ r = mkRange true a (Z.min b (total - 1))).


Lemma to_integer_decimal s : (∃ n, decimal s n ∧ to_integer_safe 64 s = Ok n)
  ∨ (¬ (∃ n, decimal s n) ∧ ∃ e m, to_integer_safe 64 s = Err e m).
Proof.
  destruct (to_integer_safe 64 s) as [n|e m] eqn:E.
  - left. exists n. split; [|done]. by apply to_integer_safe_ok.
  - right. split; [|by eauto]. intros [n Hn].
    apply (to_integer_safe_ok 64) in Hn; [congruence|done].
Qed.

Lemma decimal_inj s n m : decimal s n → decimal s m → n = m.
Proof. intros [Hn ->] [Hm E]. by apply print_int_inj in E. Qed.

Lemma decimal_nonempty n : ¬ decimal [] n.
Proof.
  intros [Hr E]. unfold signed_range in Hr.
  assert (print_int 64 n ≠ []) as H; [|congruence].
  unfold print_int. destruct (Z.ltb_spec n 0).
  - destruct (Z.eqb_spec n (- 2 ^ (64 - 1))) as [->|]; [by vm_compute|done].
  - apply print_uint_spec; lia.
Qed.

Lemma parse_range_bounds_ok s e total r :
  parse_range_bounds s e total = Ok r ↔
  (s = [] ∧ ∃ n, decimal e n ∧ 0 < n ∧ total ≠ 0
            ∧ r = mkRange true (total - Z.min n total) (total - 1))
  ∨ (∃ a, decimal s a ∧ 0 <= a < total
          ∧ ((e = [] ∧ r = mkRange true a (total - 1))
             ∨ ∃ b, decimal e b ∧ a <= b ∧ r = mkRange true a (Z.min b (total - 1)))).
Proof.
  unfold parse_range_bounds, range_error. pose proof decimal_nonempty as Hnil.
  case_bool_decide as Hs; [subst s|]; cbn [andb].
  - case_bool_decide as He; [subst e; naive_solver|].
    destruct (to_integer_decimal e) as [(n & Hn & ->)|(Hno & c & m & ->)]; [|naive_solver].
    split_ifs.
    + split; [done|]. intros [(_ & k & Hk & ? & ? & _)|(a & Ha & _)]; [|by apply Hnil in Ha].
      pose proof (decimal_inj _ _ _ Hn Hk). lia.
    + split; [intros [= <-]; left; split; [done|]; exists n; split_and!; [done|lia|lia|done]|].
      intros [(_ & k & Hk & _ & _ & ->)|(a & Ha & _)]; [|by apply Hnil in Ha].
      by rewrite (decimal_inj _ _ _ Hn Hk).
  - destruct (to_integer_decimal s) as [(a & Ha & ->)|(Hno & c & m & ->)]; [|naive_solver].
    assert (∀ a', decimal s a' → a' = a) as Huniq by (intros; by eapply decimal_inj).
    destruct ((a <? 0) || (total <=? a)) eqn:Hr.
    { split; [done|]. intros [[? _]|(a' & Ha' & ? & _)]; [done|]. apply Huniq in Ha'. lia. }
    case_bool_decide as He; [subst e|].
    + split; [intros [= <-]; right; exists a; split_and!; [done|lia|lia|by left]|].
      intros [[? _]|(a' & Ha' & _ & [[_ ->]|(b & Hb & _)])]; [done| |by apply Hnil in Hb].
      by apply Huniq in Ha' as ->.
    + destruct (to_integer_decimal e) as [(b & Hb & ->)|(Hno & c & m & ->)]; [|naive_solver].
      destruct (Z.ltb_spec b a).
      * split; [done|]. intros [[? _]|(a' & Ha' & _ & [[? _]|(b' & Hb' & ? & _)])]; [done|done|].
        pose proof (decimal_inj _ _ _ Hb Hb'). apply Huniq in Ha'. lia.
      * split.
        -- intros [= <-]. right. exists a. split_and!; [done|lia|lia|]. right. by exists b.
        -- intros [[? _]|(a' & Ha' & _ & [[? _]|(b' & Hb' & ? & ->)])]; [done|done|].
           apply Huniq in Ha' as ->. by rewrite (decimal_inj _ _ _ Hb Hb').
Qed.

(** The header cut into its bounds. *)
Lemma parse_range_cut value total :
  0 <= total → trim value ≠ [] →
  (parse_file_stream_range value total = range_error ∧ ¬ ∃ s e, range_parts value s e)
  ∨ (∃ s e, range_parts value s e
      ∧ parse_file_stream_range value total = parse_range_bounds s e total).
Proof.
  intros Ht Hne. unfold parse_file_stream_range, range_parts.
  replace (total <? 0) with false by lia. rewrite bool_decide_false by done.
  destruct (begins_with (trim value) (lit "bytes=")) eqn:Hb; cbn [negb].
  2: { left. split; [done|]. intros (s & e & s0 & e0 & E & _).
       assert (begins_with (trim value) (lit "bytes=") = true); [|congruence].
       apply begins_with_spec. by eexists. }
  apply begins_with_spec in Hb as [rest Hb]. rewrite Hb.
  replace (drop 6 (lit "bytes=" ++ rest)) with rest by done.
  assert (∀ s0 e0, lit "bytes=" ++ rest = lit "bytes=" ++ s0 ++ "-"%char :: e0 →
            rest = s0 ++ "-"%char :: e0) as Hinj by (intros s0 e0 E; by apply app_inv_head in E).
  case_bool_decide as H1; cbn [orb].
  { left. split; [done|]. intros (s & e & s0 & e0 & E & _). apply Hinj in E. subst rest.
    by destruct s0. }
  case_bool_decide as H2; cbn [negb].
  2: { left. split; [done|]. intros (s & e & s0 & e0 & E & Hc & _). apply Hinj in E as ->.
       apply H2. by apply find_None. }
  apply find_None in H2. destruct (find "-" rest) as [pos|] eqn:Ed.
  - apply find_Some in Ed as [E Hd]. right. eexists _, _. split; [|done].
    exists (take pos rest), (drop (pos + 1) rest). rewrite <- E. by split_and!.
  - left. split; [done|]. intros (s & e & s0 & e0 & E & _). apply Hinj in E as ->.
    apply find_None in Ed. apply Ed. apply elem_of_app. right. apply elem_of_cons. by left.
Qed.

Lemma range_parts_inj value s e s' e' :
  range_parts value s e → range_parts value s' e' → s = s' ∧ e = e'.
Proof.
  intros (s0 & e0 & E & _ & Hd & -> & ->) (s1 & e1 & E' & _ & Hd' & -> & ->).
  rewrite E in E'. apply app_inv_head in E'. by apply split_at_inj in E' as [-> ->].
Qed.

(** The window of an accepted header is inside the file. *)
Definition window_in (total : Z) (r : FileStreamRange) : Prop :=
  if is_partial r then 0 <= range_start r <= range_end r ∧ range_end r < total
  else range_start r = 0 ∧ range_end r = total - 1.

Lemma parse_range_window value total r :
  0 <= total → parse_file_stream_range value total = Ok r → window_in total r.
Proof.
  intros Ht. destruct (decide (trim value = [])) as [Hv|Hv].
  - unfold parse_file_stream_range. replace (total <? 0) with false by lia.
    rewrite bool_decide_true by done. by intros [= <-].
  - destruct (parse_range_cut value total Ht Hv) as [[-> _]|(s & e & _ & ->)]; [done|].
    rewrite parse_range_bounds_ok. unfold window_in.
    intros [(-> & n & Hn & ? & ? & ->)|(a & Ha & ? & [[-> ->]|(b & Hb & ? & ->)])]; simpl; lia.
Qed.

(** C33: The Range parser accepts exactly the absent header and the single byte ranges, suffix ranges
    included, with canonical decimal bounds that select a part of the file; it yields a window inside the
    file and refuses everything else with 416. *)
Theorem parse_file_stream_range_spec value total r :
  0 <= total →
  (parse_file_stream_range value total = Ok r ↔ range_denotes value total r)
  ∧ (∀ code msg, parse_file_stream_range value total = Err code msg → code = 416)
  ∧ (parse_file_stream_range value total = Ok r → window_in total r).
Proof.
  intros Ht. unfold range_denotes. destruct (decide (trim value = [])) as [Hv|Hv].
  - assert (parse_file_stream_range value total = Ok (mkRange false 0 (total - 1))) as E.
    { unfold parse_file_stream_range. replace (total <? 0) with false by lia.
      by rewrite bool_decide_true. }
    assert (∀ s e, ¬ range_parts value s e) as Hno.
    { intros s e (s0 & e0 & Ep & _). rewrite Hv in Ep. by destruct s0. }
    rewrite E. split_and!; [|done|by intros [= <-]].
    split; [intros [= <-]; by left|]. naive_solver.
  - destruct (parse_range_cut value total Ht Hv) as [[-> Hno]|(s & e & Hp & ->)].
    + split_and!; [|by intros code msg [= <- _]|done]. split; [done|]. naive_solver.
    + split_and!.
      * rewrite parse_range_bounds_ok. split.
        -- intros [(-> & n & Hn & ? & ? & ->)|(a & Ha & ? & [[-> ->]|(b & Hb & ? & ->)])].
           ++ right; left. exists e, n. split_and!; (done || lia).
           ++ right; right; left. exists s, a. split_and!; (done || lia).
           ++ right; right; right. exists s, e, a, b. split_and!; (done || lia).
        -- intros [[? _]|[(e' & n & Hp' & Hn & ? & ? & ->)|[(s' & a & Hp' & Ha & ? & ->)|
             (s' & e' & a & b & Hp' & Ha & Hb & ? & ? & ->)]]]; [done| | |];
             destruct (range_parts_inj _ _ _ _ _ Hp Hp') as [-> ->].
           ++ left. split; [done|]. exists n. split_and!; (done || lia).
           ++ right. exists a. split_and!; try (done || lia). by left.
           ++ right. exists a. split_and!; try (done || lia). right. by exists b.
      * unfold parse_range_bounds, range_error. intros code msg. repeat case_match; by intros [= <- _].
      * rewrite parse_range_bounds_ok.
        intros [(-> & n & Hn & ? & ? & ->)|(a & Ha & ? & [[-> ->]|(b & Hb & ? & ->)])]; unfold window_in; simpl; lia.
Qed.

Lemma parse_file_stream_range_spec_witness :
  parse_file_stream_range (lit " bytes=5-100 ") 10 = Ok (mkRange true 5 9)
  ∧ parse_file_stream_range (lit "bytes=-3") 10 = Ok (mkRange true 7 9)
  ∧ range_denotes (lit "bytes=-3") 10 (mkRange true 7 9).
Proof.
  split; [reflexivity|]. split; [reflexivity|].
  exact (proj1 (proj1 (parse_file_stream_range_spec (lit "bytes=-3") 10 (mkRange true 7 9)
    ltac:(lia))) eq_refl).
Defined.
