(* ===== verification/FileStreamConn.v ===== *)
(** * One streaming connection

    The actor [FileStreamConnection] of server/FileStream.{h,cpp}: its state, and
    one definition per handler.  A handler maps the state to the next one and
    appends the messages it sends to [outs]; [None] is the abort of a failed
    [CHECK] (the JSON writer's, on an error message that is not UTF-8).

    What TDLib's local file looks like when a handler reads it is an argument
    of the handler ([fs_view]): [open] and [pread] are system calls.

    The theorems follow the actor through arbitrary sequences of events
    ([reach]): what was written is always the header and then a prefix of the
    requested window ([stream_body_exact]), a stream that ends well sent it
    all, every stream ends with exactly one final message
    ([stream_ends_once]), and with the file complete and a client that reads,
    it ends ([stream_finishes]). *)

From S2P Require Import Prelude Slices Integers Utf8 Json Query HttpHeader FileStreamCursor FileStreamRoute.

(** ** Messages *)

(** Everything the actor sends to other actors or to the scheduler. *)
Inductive action :=
| SendFileStream (stream_id : Z) (token : slice) (is_test_dc : bool) (file_id : slice) (expected_size : Z)
    (peer_ip : slice)
| RetainFile (path : slice)
| ReleaseFile (path : slice)
| WriteHeaders (data : slice)
| WriteChunk (data : slice)
| WriteNoflush (data : slice)
| WriteOk
| WriteError (code : Z) (msg : slice)
| TouchActivity
| SetTimeout (seconds : Z)
| CancelTimeout
| Stop
| ReleaseFileStream (stream_id : Z)
| RemoveFileStream (stream_id file_id : Z) (delete_local_copy : bool).

(** [FileStreamConfig]; the timeouts are in seconds. *)
Record FileStreamConfig := mkConfig {
  enabled : bool;
  chunk_size : Z;
  max_connections : Z;
  first_byte_timeout : Z;
  idle_timeout : Z;
  write_high_watermark : Z;
  max_size : Z;
  allow_ip : slice;
}.
Definition default_config : FileStreamConfig :=
  mkConfig false (256 * 1024) 100 30 60 (1024 * 1024) 0 [].

(** What the constructor fixes: the stream's identifier, its route, the
    configuration, whether there is a cleanup manager and the text of the
    client's address. *)
Record conn_env := mkConnEnv {
  stream_id_ : Z;
  route_ : FileStreamRoute;
  config_ : FileStreamConfig;
  cleanup_manager_ : bool;
  peer_ip_ : slice;
}.

Record conn := mkConn {
  client_ : bool;
  connection_ : bool;
  file_id_ : Z;
  local_path_ : slice;
  local_file_ : option slice;
  cursor_ : FileStreamCursor;
  headers_sent_ : bool;
  read_in_flight_ : bool;
  write_in_flight_ : bool;
  download_completed_ : bool;
  first_byte_sent_ : bool;
  completed_ok_ : bool;
  partial_response_ : bool;
  pending_write_offset_ : Z;
  pending_write_size_ : Z;
  finished_ : bool;
  outs : list action;
}.

Definition new_conn : conn :=
  mkConn false true 0 [] None new_cursor false false false false false false false (-1) 0 false [].

Definition set_client_ (v : bool) (c : conn) : conn :=
  mkConn v (connection_ c) (file_id_ c) (local_path_ c) (local_file_ c) (cursor_ c)
    (headers_sent_ c) (read_in_flight_ c) (write_in_flight_ c) (download_completed_ c)
    (first_byte_sent_ c) (completed_ok_ c) (partial_response_ c) (pending_write_offset_ c)
    (pending_write_size_ c) (finished_ c) (outs c).
Definition set_connection_ (v : bool) (c : conn) : conn :=
  mkConn (client_ c) v (file_id_ c) (local_path_ c) (local_file_ c) (cursor_ c)
    (headers_sent_ c) (read_in_flight_ c) (write_in_flight_ c) (download_completed_ c)
    (first_byte_sent_ c) (completed_ok_ c) (partial_response_ c) (pending_write_offset_ c)
    (pending_write_size_ c) (finished_ c) (outs c).
Definition set_file_id_ (v : Z) (c : conn) : conn :=
  mkConn (client_ c) (connection_ c) v (local_path_ c) (local_file_ c) (cursor_ c)
    (headers_sent_ c) (read_in_flight_ c) (write_in_flight_ c) (download_completed_ c)
    (first_byte_sent_ c) (completed_ok_ c) (partial_response_ c) (pending_write_offset_ c)
    (pending_write_size_ c) (finished_ c) (outs c).
Definition set_local_path_ (v : slice) (c : conn) : conn :=
  mkConn (client_ c) (connection_ c) (file_id_ c) v (local_file_ c) (cursor_ c)
    (headers_sent_ c) (read_in_flight_ c) (write_in_flight_ c) (download_completed_ c)
    (first_byte_sent_ c) (completed_ok_ c) (partial_response_ c) (pending_write_offset_ c)
    (pending_write_size_ c) (finished_ c) (outs c).
Definition set_local_file_ (v : option slice) (c : conn) : conn :=
  mkConn (client_ c) (connection_ c) (file_id_ c) (local_path_ c) v (cursor_ c)
    (headers_sent_ c) (read_in_flight_ c) (write_in_flight_ c) (download_completed_ c)
    (first_byte_sent_ c) (completed_ok_ c) (partial_response_ c) (pending_write_offset_ c)
    (pending_write_size_ c) (finished_ c) (outs c).
Definition set_cursor_ (v : FileStreamCursor) (c : conn) : conn :=
  mkConn (client_ c) (connection_ c) (file_id_ c) (local_path_ c) (local_file_ c) v
    (headers_sent_ c) (read_in_flight_ c) (write_in_flight_ c) (download_completed_ c)
    (first_byte_sent_ c) (completed_ok_ c) (partial_response_ c) (pending_write_offset_ c)
    (pending_write_size_ c) (finished_ c) (outs c).
Definition set_headers_sent_ (v : bool) (c : conn) : conn :=
  mkConn (client_ c) (connection_ c) (file_id_ c) (local_path_ c) (local_file_ c) (cursor_
    c) v (read_in_flight_ c) (write_in_flight_ c) (download_completed_ c) (first_byte_sent_ c)
    (completed_ok_ c) (partial_response_ c) (pending_write_offset_ c) (pending_write_size_ c)
    (finished_ c) (outs c).
Definition set_read_in_flight_ (v : bool) (c : conn) : conn :=
  mkConn (client_ c) (connection_ c) (file_id_ c) (local_path_ c) (local_file_ c) (cursor_
    c) (headers_sent_ c) v (write_in_flight_ c) (download_completed_ c) (first_byte_sent_ c)
    (completed_ok_ c) (partial_response_ c) (pending_write_offset_ c) (pending_write_size_ c)
    (finished_ c) (outs c).
Definition set_write_in_flight_ (v : bool) (c : conn) : conn :=
  mkConn (client_ c) (connection_ c) (file_id_ c) (local_path_ c) (local_file_ c) (cursor_
    c) (headers_sent_ c) (read_in_flight_ c) v (download_completed_ c) (first_byte_sent_ c)
    (completed_ok_ c) (partial_response_ c) (pending_write_offset_ c) (pending_write_size_ c)
    (finished_ c) (outs c).
Definition set_download_completed_ (v : bool) (c : conn) : conn :=
  mkConn (client_ c) (connection_ c) (file_id_ c) (local_path_ c) (local_file_ c) (cursor_
    c) (headers_sent_ c) (read_in_flight_ c) (write_in_flight_ c) v (first_byte_sent_ c)
    (completed_ok_ c) (partial_response_ c) (pending_write_offset_ c) (pending_write_size_ c)
    (finished_ c) (outs c).
Definition set_first_byte_sent_ (v : bool) (c : conn) : conn :=
  mkConn (client_ c) (connection_ c) (file_id_ c) (local_path_ c) (local_file_ c) (cursor_
    c) (headers_sent_ c) (read_in_flight_ c) (write_in_flight_ c) (download_completed_ c) v
    (completed_ok_ c) (partial_response_ c) (pending_write_offset_ c) (pending_write_size_ c)
    (finished_ c) (outs c).
Definition set_completed_ok_ (v : bool) (c : conn) : conn :=
  mkConn (client_ c) (connection_ c) (file_id_ c) (local_path_ c) (local_file_ c) (cursor_
    c) (headers_sent_ c) (read_in_flight_ c) (write_in_flight_ c) (download_completed_ c)
    (first_byte_sent_ c) v (partial_response_ c) (pending_write_offset_ c)
    (pending_write_size_ c) (finished_ c) (outs c).
Definition set_partial_response_ (v : bool) (c : conn) : conn :=
  mkConn (client_ c) (connection_ c) (file_id_ c) (local_path_ c) (local_file_ c) (cursor_
    c) (headers_sent_ c) (read_in_flight_ c) (write_in_flight_ c) (download_completed_ c)
    (first_byte_sent_ c) (completed_ok_ c) v (pending_write_offset_ c) (pending_write_size_ c)
    (finished_ c) (outs c).
Definition set_pending_write_offset_ (v : Z) (c : conn) : conn :=
  mkConn (client_ c) (connection_ c) (file_id_ c) (local_path_ c) (local_file_ c) (cursor_
    c) (headers_sent_ c) (read_in_flight_ c) (write_in_flight_ c) (download_completed_ c)
    (first_byte_sent_ c) (completed_ok_ c) (partial_response_ c) v (pending_write_size_ c)
    (finished_ c) (outs c).
Definition set_pending_write_size_ (v : Z) (c : conn) : conn :=
  mkConn (client_ c) (connection_ c) (file_id_ c) (local_path_ c) (local_file_ c) (cursor_
    c) (headers_sent_ c) (read_in_flight_ c) (write_in_flight_ c) (download_completed_ c)
    (first_byte_sent_ c) (completed_ok_ c) (partial_response_ c) (pending_write_offset_ c) v
    (finished_ c) (outs c).
Definition set_finished_ (v : bool) (c : conn) : conn :=
  mkConn (client_ c) (connection_ c) (file_id_ c) (local_path_ c) (local_file_ c) (cursor_
    c) (headers_sent_ c) (read_in_flight_ c) (write_in_flight_ c) (download_completed_ c)
    (first_byte_sent_ c) (completed_ok_ c) (partial_response_ c) (pending_write_offset_ c)
    (pending_write_size_ c) v (outs c).
Definition set_outs (v : list action) (c : conn) : conn :=
  mkConn (client_ c) (connection_ c) (file_id_ c) (local_path_ c) (local_file_ c) (cursor_
    c) (headers_sent_ c) (read_in_flight_ c) (write_in_flight_ c) (download_completed_ c)
    (first_byte_sent_ c) (completed_ok_ c) (partial_response_ c) (pending_write_offset_ c)
    (pending_write_size_ c) (finished_ c) v.

(** The system calls a handler makes. *)
Record fs_view := mkFs {
  fs_open : slice → result unit;
  fs_pread : slice → Z → Z → result slice;
}.

Definition send (a : action) (c : conn) : conn := set_outs (outs c ++ [a]) c.
Definition send_if (b : bool) (a : action) (c : conn) : conn := if b then send a c else c.

(** ** Handlers *)

Section Handlers.
  Context (e : conn_env).

Definition start_up (c : conn) : conn :=
  send (SendFileStream (stream_id_ e) (fr_token (route_ e)) (fr_is_test_dc (route_ e))
          (fr_file_id (route_ e)) (fr_expected_size (route_ e)) (peer_ip_ e))
    (send (SetTimeout (first_byte_timeout (config_ e))) c).

Definition set_client (c : conn) : conn := set_client_ true c.

(** [send_closure(std::move(connection_), ...)] gives the connection away. *)
Definition send_final (a : action) (c : conn) : conn := set_connection_ false (send a c).

Definition abort (code : Z) (msg : slice) (c : conn) : conn :=
  if finished_ c then c
  else
    let c := send CancelTimeout (set_finished_ true c) in
    let c := if connection_ c then send_final (WriteError code msg) c else c in
    send Stop c.

Definition fail (http_status_code : Z) (message : slice) (c : conn) : option conn :=
  if finished_ c then Some c
  else if headers_sent_ c then Some (abort http_status_code message c)
  else
    content ← json_query_error http_status_code message;
    let hc := init_status_line http_status_code in
    let hc := set_content_type hc (lit "application/json") in
    let hc := if (http_status_code =? 416) && (0 <=? total_size (cursor_ c))
              then add_header hc (lit "Content-Range")
                     (lit "bytes */" ++ print_int 64 (total_size (cursor_ c)))
              else hc in
    let hc := set_content_size hc (slen content) in
    header ← finish hc [];
    let c := send CancelTimeout (set_finished_ true c) in
    let c :=
      match header with
      | Err code msg => send_final (WriteError code msg) c
      | Ok header =>
          let c := send (WriteNoflush header) c in
          let c := send_if (negb (fr_head_only (route_ e))) (WriteNoflush content) c in
          send_final WriteOk c
      end in
    Some (send Stop c).

Definition send_headers (c : conn) : option conn :=
  if headers_sent_ c then Some c
  else
    let content_start := start_offset (cursor_ c) in
    let content_end := end_offset (cursor_ c) in
    let content_size := if total_size (cursor_ c) =? 0 then 0 else content_end - content_start + 1 in
    let hc := init_status_line (if partial_response_ c then 206 else 200) in
    let hc := set_keep_alive hc in
    let hc := set_content_type hc (lit "application/octet-stream") in
    let hc := set_content_size hc (wrap 64 content_size) in
    let hc := add_header hc (lit "Accept-Ranges") (lit "bytes") in
    let hc := if partial_response_ c
              then add_header hc (lit "Content-Range")
                     (lit "bytes " ++ print_int 64 content_start ++ lit "-"
                      ++ print_int 64 content_end ++ lit "/" ++ print_int 64 (total_size (cursor_ c)))
              else hc in
    let hc := add_header hc (lit "Content-Disposition") (lit "attachment") in
    let hc := add_header hc (lit "Cache-Control") (lit "private") in
    header ← finish hc [];
    match header with
    | Err _ _ => fail 500 (lit "Failed to create streaming response headers") c
    | Ok header => Some (send (WriteHeaders header) (set_headers_sent_ true c))
    end.

Definition finish_stream (c : conn) : conn :=
  if finished_ c then c
  else if negb (is_complete (cursor_ c)) || read_in_flight_ c || write_in_flight_ c
  then abort 500 (lit "Attempted to finish an incomplete stream") c
  else
    let c := send CancelTimeout (set_completed_ok_ true (set_finished_ true c)) in
    let c := if connection_ c then send_final WriteOk c else c in
    send Stop c.

Definition effective_chunk_size : Z := Z.min (chunk_size (config_ e)) (write_high_watermark (config_ e)).

Definition on_file_data (offset : Z) (data : result slice) (c : conn) : conn :=
  let c := set_read_in_flight_ false c in
  if finished_ c then c
  else match data with
  | Err _ msg => abort 502 msg c
  | Ok data =>
      let expected_size := next_read_size (cursor_ c) effective_chunk_size in
      if negb (slen data =? expected_size) || bool_decide (data = [])
      then abort 500 (lit "TDLib local file returned an incomplete part") c
      else
        let c := set_write_in_flight_ true c in
        let c := set_pending_write_offset_ offset c in
        let c := set_pending_write_size_ (slen data) c in
        send (WriteChunk data) c
  end.

(** [try_read] once the local file is open. *)
Definition read_chunk (fs : fs_view) (path : slice) (count : Z) (c : conn) : conn :=
  let c := set_read_in_flight_ true c in
  match fs_pread fs path (next_offset (cursor_ c)) count with
  | Err _ msg =>
      abort 500 (lit "Failed to read TDLib local file: " ++ msg) (set_read_in_flight_ false c)
  | Ok data =>
      if negb (slen data =? count) then
        let c := set_read_in_flight_ false c in
        if negb (download_completed_ c) then set_local_file_ None c
        else abort 500 (lit "TDLib local file returned an incomplete part") c
      else on_file_data (next_offset (cursor_ c)) (Ok data) c
  end.

Definition try_read (fs : fs_view) (c : conn) : conn :=
  if finished_ c || read_in_flight_ c || write_in_flight_ c || (total_size (cursor_ c) <? 0) then c
  else if is_complete (cursor_ c) then finish_stream c
  else
  let count := next_read_size (cursor_ c) effective_chunk_size in
  if count =? 0 then c
  else if count <? 0 then abort 500 (lit "Invalid stream read size") c
  else if bool_decide (local_path_ c = []) then c
  else match local_file_ c with
  | Some path => read_chunk fs path count c
  | None =>
      match fs_open fs (local_path_ c) with
      | Err _ msg =>
          if negb (download_completed_ c) then c
          else abort 500 (lit "Failed to open TDLib local file: " ++ msg) c
      | Ok _ =>
          let c := set_local_file_ (Some (local_path_ c)) c in
          read_chunk fs (local_path_ c) count c
      end
  end.

(** The change of the local path, which moves the retained file. *)
Definition change_path (local_path : slice) (c : conn) : conn :=
  let c := send_if (negb (bool_decide (local_path_ c = [])) && cleanup_manager_ e)
             (ReleaseFile (local_path_ c)) c in
  let c := set_local_path_ local_path c in
  send_if (cleanup_manager_ e) (RetainFile local_path) c.

Definition path_changes (local_path : slice) (c : conn) : bool :=
  negb (bool_decide (local_path = [])) && negb (bool_decide (local_path_ c = local_path)).

Definition on_file_ready (fs : fs_view) (file_id total_size : Z) (local_path : slice)
    (download_offset downloaded_prefix_size : Z) (is_completed : bool) (c : conn) : option conn :=
  if finished_ c then Some c
  else if (file_id <=? 0) || (total_size <? 0)
  then fail 500 (lit "Invalid file metadata received from TDLib") c
  else
  let c := set_file_id_ file_id c in
  let c := if path_changes local_path c then change_path local_path c else c in
  if 2 ^ 64 - 1 <? total_size then fail 413 (lit "File is too large for this build") c
  else if (0 <? max_size (config_ e)) && (max_size (config_ e) <? total_size)
  then fail 413 (lit "File is too large for the streaming endpoint") c
  else
  let c := set_cursor_ (set_total_size (cursor_ c) total_size) c in
  match parse_file_stream_range (fr_range (route_ e)) total_size with
  | Err _ _ => fail 416 (lit "Range Not Satisfiable") c
  | Ok parsed_range =>
      let c := set_partial_response_ (is_partial parsed_range) c in
      let c := send (SetTimeout (first_byte_timeout (config_ e))) c in
      let c := set_cursor_ (set_range (cursor_ c) (range_start parsed_range) (range_end parsed_range)) c in
      let '(status, cursor) :=
        update_progress (cursor_ c) download_offset downloaded_prefix_size is_completed in
      let c := set_cursor_ cursor c in
      match status with
      | Err _ msg => fail 502 msg c
      | Ok _ =>
          let c := set_download_completed_ is_completed c in
          if download_completed_ c && (contiguous_end (cursor_ c) <? FileStreamCursor.total_size (cursor_ c))
          then fail 502 (lit "Telegram download completed with an incomplete file") c
          else
          c ← send_headers c;
          Some (if fr_head_only (route_ e) then c else try_read fs c)
      end
  end.

Definition on_file_progress (fs : fs_view) (reported_total_size : Z) (local_path : slice)
    (download_offset downloaded_prefix_size : Z) (is_completed is_downloading_active : bool)
    (c : conn) : conn :=
  if finished_ c || (total_size (cursor_ c) <? 0) then c
  else if (0 <? reported_total_size) && negb (reported_total_size =? total_size (cursor_ c))
  then abort 502 (lit "File size metadata changed during download") c
  else
  let c := if path_changes local_path c
           then change_path local_path (set_local_file_ None c) else c in
  let '(status, cursor) :=
    update_progress (cursor_ c) download_offset downloaded_prefix_size is_completed in
  let c := set_cursor_ cursor c in
  match status with
  | Err code msg => abort code msg c
  | Ok _ =>
      let c := set_download_completed_ (download_completed_ c || is_completed) c in
      if negb (download_completed_ c) && negb is_downloading_active
      then abort 502 (lit "Telegram file download stopped before completion") c
      else if download_completed_ c && (contiguous_end (cursor_ c) <? total_size (cursor_ c))
      then abort 502 (lit "Telegram download completed with an incomplete file") c
      else try_read fs c
  end.

Definition on_chunk_flushed (fs : fs_view) (result : status) (c : conn) : conn :=
  let c := set_write_in_flight_ false c in
  if finished_ c then c
  else match result with
  | Err code msg => abort code msg c
  | Ok _ =>
      let '(status, cursor) := commit (cursor_ c) (pending_write_offset_ c) (pending_write_size_ c) in
      let c := set_cursor_ cursor c in
      let c := set_pending_write_size_ 0 (set_pending_write_offset_ (-1) c) in
      match status with
      | Err code msg => abort code msg c
      | Ok _ =>
          let c := set_first_byte_sent_ true c in
          let c := send_if (connection_ c) TouchActivity c in
          let c := send (SetTimeout (idle_timeout (config_ e))) c in
          try_read fs c
      end
  end.

Definition on_headers_flushed (result : status) (c : conn) : conn :=
  if finished_ c then c
  else match result with
  | Err code msg => abort code msg c
  | Ok _ =>
      if fr_head_only (route_ e) then
        let c := send CancelTimeout (set_finished_ true c) in
        let c := if connection_ c then send_final WriteOk c else c in
        send Stop c
      else c
  end.

Definition on_file_error (code : Z) (msg : slice) (c : conn) : option conn :=
  if finished_ c then Some c
  else
    let http_code := if (code <? 400) || (599 <? code) then 502 else code in
    if negb (headers_sent_ c) then fail http_code msg c
    else Some (abort code msg c).

Definition timeout_expired (c : conn) : option conn :=
  on_file_error 504 (if first_byte_sent_ c then lit "File stream stalled"
                     else lit "File stream first byte timeout") c.

Definition tear_down (c : conn) : conn :=
  let c := set_local_file_ None c in
  let c := send_if (negb (bool_decide (local_path_ c = [])) && cleanup_manager_ e)
             (ReleaseFile (local_path_ c)) c in
  let c := send (ReleaseFileStream (stream_id_ e)) c in
  let c := send_if (client_ c)
             (RemoveFileStream (stream_id_ e) (file_id_ c)
                (fr_no_cache (route_ e) && completed_ok_ c)) c in
  set_connection_ false c.
End Handlers.

(** ** The actor as a transition system *)

Inductive event :=
| EvClient
| EvReady (fs : fs_view) (file_id total_size : Z) (local_path : slice)
    (download_offset downloaded_prefix_size : Z) (is_completed : bool)
| EvProgress (fs : fs_view) (reported_total_size : Z) (local_path : slice)
    (download_offset downloaded_prefix_size : Z) (is_completed is_downloading_active : bool)
| EvHeadersFlushed (result : status)
| EvChunkFlushed (fs : fs_view) (result : status)
| EvError (code : Z) (msg : slice)
| EvTimeout.

Definition conn_step (e : conn_env) (ev : event) (c : conn) : option conn :=
  match ev with
  | EvClient => Some (set_client c)
  | EvReady fs id total path off n done => on_file_ready e fs id total path off n done c
  | EvProgress fs total path off n done active =>
      Some (on_file_progress e fs total path off n done active c)
  | EvHeadersFlushed r => Some (on_headers_flushed e r c)
  | EvChunkFlushed fs r => Some (on_chunk_flushed e fs r c)
  | EvError code msg => on_file_error e code msg c
  | EvTimeout => timeout_expired e c
  end.

Definition event_fs (ev : event) : option fs_view :=
  match ev with
  | EvReady fs _ _ _ _ _ _ => Some fs
  | EvProgress fs _ _ _ _ _ _ => Some fs
  | EvChunkFlushed fs _ => Some fs
  | _ => None
  end.

(** What the stream relies on: TDLib's local file holds the content of the
    remote file up to the prefix it has reported. *)
Definition fs_faithful (content : slice) (bound : Z) (fs : fs_view) : Prop :=
  ∀ path off n data, fs_pread fs path off n = Ok data → slen data = n → 0 <= off → off + n <= bound →
    data = part content off n.

(** The states of a connection: [Client] reports a stream ready once; every
    other event comes in any order, any number of times. *)
Inductive reach (e : conn_env) (content : slice) : conn → Prop :=
| reach_start : reach e content (start_up e new_conn)
| reach_step c ev c' :
    reach e content c → conn_step e ev c = Some c' →
    (∀ fs id total path off n done, ev = EvReady fs id total path off n done →
       total_size (cursor_ c) < 0 ∧ in_int64 total) →
    (∀ fs, event_fs ev = Some fs → fs_faithful content (contiguous_end (cursor_ c')) fs) →
    reach e content c'.

(** ** Specification *)

Definition is_final (a : action) : bool :=
  match a with WriteOk | WriteError _ _ | Stop => true | _ => false end.
Definition is_data (a : action) : bool :=
  match a with WriteHeaders _ | WriteChunk _ => true | _ => false end.
Definition data_out (l : list action) : list action := List.filter is_data l.

Definition stream_header_ops (partial : bool) (start fin total : Z) : list header_op :=
  status_ops (if partial then 206 else 200)
  ++ header_ops (lit "Connection") (lit "keep-alive")
  ++ header_ops (lit "Content-Type") (lit "application/octet-stream")
  ++ header_ops (lit "Content-Length") (print_uint (fin - start + 1))
  ++ header_ops (lit "Accept-Ranges") (lit "bytes")
  ++ (if partial
      then header_ops (lit "Content-Range")
             (lit "bytes " ++ print_int 64 start ++ lit "-" ++ print_int 64 fin ++ lit "/"
              ++ print_int 64 total)
      else [])
  ++ header_ops (lit "Content-Disposition") (lit "attachment")
  ++ header_ops (lit "Cache-Control") (lit "private").

(** The header of a response: it announces exactly the bytes of the window. *)
Definition stream_header (partial : bool) (start fin total : Z) : slice :=
  ops_text (stream_header_ops partial start fin total) ++ crlf.

(** What a stream has written: the header of its window and the first [n]
    bytes of it. *)
Definition wrote (e : conn_env) (content : slice) (c : conn) (n : Z) : Prop :=
  let w := cursor_ c in
  parse_file_stream_range (fr_range (route_ e)) (total_size w)
    = Ok (mkRange (partial_response_ c) (start_offset w) (end_offset w))
  ∧ 0 <= n <= end_offset w + 1 - start_offset w
  ∧ ∃ chunks,
      data_out (outs c)
      = WriteHeaders (stream_header (partial_response_ c) (start_offset w) (end_offset w) (total_size w))
        :: (WriteChunk <$> chunks)
      ∧ mjoin chunks = part content (start_offset w) n.

(** The bytes handed to the connection so far. *)
Definition sent_size (c : conn) : Z :=
  next_offset (cursor_ c) - start_offset (cursor_ c)
  + (if write_in_flight_ c then pending_write_size_ c else 0).

Record idle (c : conn) : Prop := {
  i_live : finished_ c = false;
  i_conn : connection_ c = true;
  i_read : read_in_flight_ c = false;
  i_comp : completed_ok_ c = false;
  i_quiet : Forall (fun a => is_final a = false) (outs c);
}.

(** Before the file is ready. *)
Record waiting (c : conn) : Prop := {
  w_idle : idle c;
  w_headers : headers_sent_ c = false;
  w_write : write_in_flight_ c = false;
  w_size : pending_write_size_ c = 0;
  w_total : total_size (cursor_ c) < 0;
  w_contiguous : contiguous_end (cursor_ c) = 0;
  w_data : data_out (outs c) = [];
}.

(** While it streams. *)
Record streaming (e : conn_env) (content : slice) (c : conn) : Prop := {
  s_idle : idle c;
  s_headers : headers_sent_ c = true;
  s_cursor : cursor_ok (cursor_ c);
  s_pending : write_in_flight_ c = true →
    pending_write_offset_ c = next_offset (cursor_ c) ∧ 0 < pending_write_size_ c
    ∧ next_offset (cursor_ c) + pending_write_size_ c <= contiguous_end (cursor_ c)
    ∧ next_offset (cursor_ c) + pending_write_size_ c <= end_offset (cursor_ c) + 1;
  s_none : write_in_flight_ c = false → pending_write_size_ c = 0;
  s_wrote : wrote e content c (sent_size c);
}.

(** After it ended: the last two messages are a final one and [Stop]. *)
Record ended (e : conn_env) (content : slice) (c : conn) : Prop := {
  e_finished : finished_ c = true;
  e_conn : connection_ c = false;
  e_outs : ∃ pre a, outs c = pre ++ [a; Stop] ∧ Forall (fun a => is_final a = false) pre
                    ∧ is_final a = true ∧ a ≠ Stop;
  e_data : if headers_sent_ c
           then ∃ n, wrote e content c n
                     ∧ (completed_ok_ c = true → n = end_offset (cursor_ c) + 1 - start_offset (cursor_ c))
           else data_out (outs c) = [] ∧ completed_ok_ c = false;
}.

(** ** The header always fits *)

Lemma stream_header_fits partial start fin total :
  slen (ops_text (stream_header_ops partial start fin total)) < 1000.
Proof.
  unfold stream_header_ops. rewrite !ops_text_app, !slen_app, !header_ops_length.
  pose proof (status_ops_length (if partial then 206 else 200)).
  pose proof (print_uint_length (fin - start + 1)).
  generalize dependent (print_uint (fin - start + 1)). intros len Hlen.
  generalize dependent (slen (ops_text (status_ops (if partial then 206 else 200)))). intros sl Hsl.
  assert (slen (ops_text (if partial then header_ops (lit "Content-Range")
             (lit "bytes " ++ print_int 64 start ++ lit "-" ++ print_int 64 fin ++ lit "/"
              ++ print_int 64 total) else [])) <= 120) as Hr.
  { destruct partial; [|vm_compute; congruence]. rewrite header_ops_length, !slen_app.
    pose proof (print_int_length 64 start). pose proof (print_int_length 64 fin).
    pose proof (print_int_length 64 total).
    generalize dependent (print_int 64 start). generalize dependent (print_int 64 fin).
    generalize dependent (print_int 64 total). intros s3 H3 s2 H2 s1 H1.
    change (slen (lit "Content-Range")) with 13. change (slen (lit "bytes ")) with 6.
    change (slen (lit "-")) with 1. change (slen (lit "/")) with 1. lia. }
  match goal with H : ?x <= 120 |- _ => generalize dependent x; intros rl Hrl end.
  change (slen (lit "Connection")) with 10. change (slen (lit "keep-alive")) with 10.
  change (slen (lit "Content-Type")) with 12. change (slen (lit "application/octet-stream")) with 24.
  change (slen (lit "Content-Length")) with 14. change (slen (lit "Accept-Ranges")) with 13.
  change (slen (lit "bytes")) with 5. change (slen (lit "Content-Disposition")) with 19.
  change (slen (lit "attachment")) with 10. change (slen (lit "Cache-Control")) with 13.
  change (slen (lit "private")) with 7. lia.
Qed.

Lemma send_headers_spec e c :
  headers_sent_ c = false → cursor_ok (cursor_ c) →
  send_headers e c =
  Some (send (WriteHeaders (stream_header (partial_response_ c) (start_offset (cursor_ c))
                              (end_offset (cursor_ c)) (total_size (cursor_ c))))
          (set_headers_sent_ true c)).
Proof.
  intros Hh [Hs Hc Ha Hw]. unfold send_headers. rewrite Hh.
  set (size := if total_size (cursor_ c) =? 0 then 0
               else end_offset (cursor_ c) - start_offset (cursor_ c) + 1).
  assert (wrap 64 size = end_offset (cursor_ c) - start_offset (cursor_ c) + 1) as ->.
  { unfold INT64_MAX in Hs. subst size. rewrite wrap_small; [|destruct (Z.eqb_spec (total_size (cursor_ c)) 0); lia].
    destruct (Z.eqb_spec (total_size (cursor_ c)) 0); lia. }
  pose proof (finish_fit (stream_header_ops (partial_response_ c) (start_offset (cursor_ c))
                            (end_offset (cursor_ c)) (total_size (cursor_ c)))) as Hf.
  pose proof (stream_header_fits (partial_response_ c) (start_offset (cursor_ c))
                (end_offset (cursor_ c)) (total_size (cursor_ c))) as Hl.
  match goal with |- (header ← finish ?hc []; _) = _ =>
    replace hc with (foldl apply_op new_builder
      (stream_header_ops (partial_response_ c) (start_offset (cursor_ c))
         (end_offset (cursor_ c)) (total_size (cursor_ c)))) end.
  - rewrite Hf by (unfold end_ptr, MAX_HEADER, RESERVED_SIZE; lia). done.
  - unfold stream_header_ops, set_keep_alive, set_content_type, set_content_size.
    rewrite !foldl_app, init_status_line_ops, !add_header_ops.
    destruct (partial_response_ c); reflexivity.
Qed.

(** ** Invariants of the handlers *)

Lemma data_out_app l k : data_out (l ++ k) = data_out l ++ data_out k.
Proof. apply List.filter_app. Qed.

Lemma data_out_snoc l a : is_data a = false → data_out (l ++ [a]) = data_out l.
Proof. intros H. rewrite data_out_app. cbn. rewrite H. by rewrite app_nil_r. Qed.

Lemma quiet_snoc l a :
  is_final a = false → Forall (fun a => is_final a = false) l →
  Forall (fun a => is_final a = false) (l ++ [a]).
Proof. intros H Hl. apply Forall_app. by split; [|constructor]. Qed.

(** Two states that differ only in what no invariant reads, and in messages
    that are neither data nor final. *)
Record same_core (c c' : conn) : Prop := {
  sc_live : finished_ c' = finished_ c;
  sc_conn : connection_ c' = connection_ c;
  sc_read : read_in_flight_ c' = read_in_flight_ c;
  sc_comp : completed_ok_ c' = completed_ok_ c;
  sc_headers : headers_sent_ c' = headers_sent_ c;
  sc_partial : partial_response_ c' = partial_response_ c;
  sc_cursor : cursor_ c' = cursor_ c;
  sc_write : write_in_flight_ c' = write_in_flight_ c;
  sc_off : pending_write_offset_ c' = pending_write_offset_ c;
  sc_size : pending_write_size_ c' = pending_write_size_ c;
  sc_outs : ∃ l, outs c' = outs c ++ l ∧ Forall (fun a => is_final a = false ∧ is_data a = false) l;
}.

Lemma same_core_refl c : same_core c c.
Proof. split; try done. exists []. by rewrite app_nil_r. Qed.

Lemma same_core_trans c1 c2 c3 : same_core c1 c2 → same_core c2 c3 → same_core c1 c3.
Proof.
  intros [] [? ? ? ? ? ? ? ? ? ? (l2 & E2 & H2)]. destruct sc_outs0 as (l1 & E1 & H1).
  split; try congruence. exists (l1 ++ l2). rewrite E2, E1, app_assoc. split; [done|].
  by apply Forall_app.
Qed.

Lemma same_core_send c a : is_final a = false → is_data a = false → same_core c (send a c).
Proof. intros H1 H2. split; try done. exists [a]. split; [done|]. by constructor. Qed.

Lemma same_core_send_if c b a : is_final a = false → is_data a = false → same_core c (send_if b a c).
Proof. intros. destruct b; [by apply same_core_send|apply same_core_refl]. Qed.

Lemma same_core_change_path e path c : same_core c (change_path e path c).
Proof.
  unfold change_path. set (c1 := send_if _ (ReleaseFile _) c). cbv zeta.
  apply (same_core_trans _ c1); [by apply same_core_send_if|].
  apply (same_core_trans _ (set_local_path_ path c1)); [|by apply same_core_send_if].
  split; try done. exists []. by rewrite app_nil_r.
Qed.

Section Invariants.
  Context (e : conn_env) (content : slice).

Lemma wrote_ext c c' n :
  cursor_ c' = cursor_ c → partial_response_ c' = partial_response_ c →
  data_out (outs c') = data_out (outs c) → wrote e content c n → wrote e content c' n.
Proof. unfold wrote. by intros -> -> ->. Qed.

Lemma same_core_data c c' : same_core c c' → data_out (outs c') = data_out (outs c).
Proof.
  intros [? ? ? ? ? ? ? ? ? ? (l & -> & Hl)]. rewrite data_out_app.
  assert (data_out l = []) as ->; [|by rewrite app_nil_r].
  induction Hl as [|a l [_ Ha] _ IH]; [done|]. cbn. rewrite Ha. exact IH.
Qed.

Lemma same_core_idle c c' : same_core c c' → idle c → idle c'.
Proof.
  intros [? ? ? ? ? ? ? ? ? ? (l & E & Hl)] []. split; try congruence.
  rewrite E. apply Forall_app. split; [done|]. eapply Forall_impl; [exact Hl|]. naive_solver.
Qed.

Lemma same_core_waiting c c' : same_core c c' → waiting c → waiting c'.
Proof.
  intros H [Hi Hh Hw Hz Ht Hcont Hd]. pose proof H as [].
  split; try congruence; [by eapply same_core_idle|by rewrite (same_core_data _ _ H)].
Qed.

Lemma same_core_streaming c c' : same_core c c' → streaming e content c → streaming e content c'.
Proof.
  intros H [Hi Hh Hc Hp Hz Hw]. pose proof H as [].
  split; try congruence;
    [by eapply same_core_idle|by rewrite sc_write0, sc_off0, sc_size0, sc_cursor0
    |by rewrite sc_write0, sc_size0|].
  assert (sent_size c' = sent_size c) as ->
    by (unfold sent_size; by rewrite sc_cursor0, sc_write0, sc_size0).
  apply (wrote_ext c); [done|done|by apply same_core_data|done].
Qed.

(** The end of a stream from a state whose data is accounted for. *)
Definition accounted (c : conn) : Prop :=
  if headers_sent_ c then ∃ n, wrote e content c n else data_out (outs c) = [].

Lemma streaming_accounted c : streaming e content c → accounted c.
Proof. intros [Hi Hh Hc Hp Hz Hw]. unfold accounted. rewrite Hh. by eexists. Qed.

Lemma waiting_accounted c : waiting c → accounted c.
Proof. intros []. unfold accounted. by rewrite w_headers0. Qed.

Lemma abort_ended code msg c : idle c → accounted c → ended e content (abort code msg c).
Proof.
  intros [Hl Hc Hr Hco Hq] Ha. unfold abort. rewrite Hl. cbn [send connection_ set_outs set_finished_].
  rewrite Hc. split; [done|done| |].
  - exists (outs c ++ [CancelTimeout]), (WriteError code msg). cbn. rewrite <- !app_assoc.
    split_and!; [done| |done|done]. by apply quiet_snoc.
  - unfold accounted in Ha. cbn. rewrite Hco. destruct (headers_sent_ c).
    + destruct Ha as [n Hn]. exists n. split; [|done].
      apply (wrote_ext c); try done. cbn. by rewrite !data_out_snoc.
    + split; [|done]. by rewrite !data_out_snoc.
Qed.

(** An error response, before anything was sent. *)
Lemma fail_ended code msg c c' :
  idle c → accounted c → fail e code msg c = Some c' → ended e content c'.
Proof.
  intros Hi Ha. pose proof Hi as [Hl Hc Hr Hco Hq]. unfold fail. rewrite Hl.
  destruct (headers_sent_ c) eqn:Hh; [intros [= <-]; by apply abort_ended|].
  destruct (json_query_error code msg) as [body|]; [|done]. cbn [mbind option_bind].
  destruct (finish _ _) as [r|]; [|done]. cbn [mbind option_bind].
  unfold accounted in Ha. rewrite Hh in Ha. destruct r as [header|code' msg'].
  - intros H; injection H as <-. unfold send_if.
    destruct (fr_head_only (route_ e)); cbn [negb]; (split; [done|done| |]).
    + exists ((outs c ++ [CancelTimeout]) ++ [WriteNoflush header]), WriteOk. cbn.
      rewrite <- !app_assoc. split_and!; [done| |done|done]. rewrite app_assoc.
      by repeat apply quiet_snoc.
    + cbn. rewrite Hh. split; [|done]. by rewrite !data_out_snoc.
    + exists (((outs c ++ [CancelTimeout]) ++ [WriteNoflush header]) ++ [WriteNoflush body]), WriteOk.
      cbn. rewrite <- !app_assoc. split_and!; [done| |done|done]. rewrite !app_assoc.
      by repeat apply quiet_snoc.
    + cbn. rewrite Hh. split; [|done]. by rewrite !data_out_snoc.
  - intros [= <-]. split; [done|done| |].
    + exists (outs c ++ [CancelTimeout]), (WriteError code' msg'). cbn. rewrite <- !app_assoc.
      split_and!; [done| |done|done]. by apply quiet_snoc.
    + cbn. rewrite Hh. split; [|done]. by rewrite !data_out_snoc.
Qed.

(** A complete stream finishes. *)
Lemma finish_ended c :
  streaming e content c → is_complete (cursor_ c) = true → write_in_flight_ c = false →
  ended e content (finish_stream c) ∧ completed_ok_ (finish_stream c) = true.
Proof.
  intros [Hi Hh Hc Hp Hz Hw] Hcomp Hwf. pose proof Hi as [Hl Hconn Hr Hco Hq].
  unfold finish_stream. rewrite Hl, Hcomp, Hr, Hwf. cbn [negb orb].
  cbn [send connection_ set_outs set_finished_ set_completed_ok_]. rewrite Hconn.
  split; [|done]. split; [done|done| |].
  - exists (outs c ++ [CancelTimeout]), WriteOk. cbn. rewrite <- !app_assoc.
    split_and!; [done| |done|done]. by apply quiet_snoc.
  - cbn. rewrite Hh. exists (sent_size c). split.
    + apply (wrote_ext c); try done. cbn. by rewrite !data_out_snoc.
    + intros _. unfold sent_size. rewrite Hwf. apply is_complete_iff in Hcomp; [|done].
      destruct Hw as (Hparse & Hn & _).
      pose proof Hc as [Hs Hcont Hst Hwin].
      destruct Hcomp as [H0|[_ E]]; [|lia].
      apply parse_range_window in Hparse; [|lia]. unfold window_in in Hparse. simpl in Hparse.
      destruct (partial_response_ c); lia.
Qed.
(** What a step leads to. *)
Definition settled (c : conn) : Prop := streaming e content c ∨ ended e content c.

Lemma streaming_settled c : streaming e content c → settled c.
Proof. by left. Qed.

Lemma abort_settled code msg c c' :
  streaming e content c → same_core c c' → settled (abort code msg c').
Proof.
  intros Hs H. right. pose proof (same_core_streaming _ _ H Hs) as Hs'.
  by apply abort_ended; [apply Hs'|apply streaming_accounted].
Qed.

(** A full read is written: the response grows by the next part of the file. *)
Lemma written_streaming data c :
  streaming e content c → write_in_flight_ c = false →
  data = part content (next_offset (cursor_ c)) (slen data) → 0 < slen data →
  next_offset (cursor_ c) + slen data <= contiguous_end (cursor_ c) →
  next_offset (cursor_ c) + slen data <= end_offset (cursor_ c) + 1 →
  streaming e content
    (send (WriteChunk data)
       (set_pending_write_size_ (slen data)
          (set_pending_write_offset_ (next_offset (cursor_ c)) (set_write_in_flight_ true c)))).
Proof.
  intros [Hi Hh Hc Hp Hz Hw] Hwf Hd H0 H1 H2. pose proof Hi as [Hl Hconn Hr Hco Hq].
  split; try done.
  - split; try done. cbn. by apply quiet_snoc.
  - destruct Hw as (Hparse & Hn & chunks & Hout & Hjoin). pose proof Hc as [Hs Hcont Hst Hwin].
    unfold sent_size in Hn, Hjoin. rewrite Hwf in Hn, Hjoin.
    unfold wrote, sent_size. cbn. split_and!; [done|lia|lia|].
    exists (chunks ++ [data]). split.
    + rewrite data_out_app, Hout. cbn. by rewrite fmap_app.
    + rewrite join_app, Hjoin. cbn. rewrite app_nil_r, Hd at 1.
      replace (next_offset (cursor_ c)) with (start_offset (cursor_ c) + (next_offset (cursor_ c) - start_offset (cursor_ c) + 0)) at 2 by lia.
      rewrite part_app by lia. f_equal. lia.
Qed.

Lemma read_chunk_settled fs path count c :
  streaming e content c → write_in_flight_ c = false →
  count = next_read_size (cursor_ c) (effective_chunk_size e) → 0 < count →
  fs_faithful content (contiguous_end (cursor_ c)) fs →
  settled (read_chunk e fs path count c).
Proof.
  intros Hs Hwf Hcount H0 Hfs. pose proof Hs as [Hi Hh Hc Hp Hz Hw]. pose proof Hi as [Hl Hconn Hr Hco Hq].
  assert (same_core c (set_read_in_flight_ false (set_read_in_flight_ true c))) as Hcore.
  { split; try done. exists []. by rewrite app_nil_r. }
  unfold read_chunk. cbn [cursor_ set_read_in_flight_].
  destruct (fs_pread fs path (next_offset (cursor_ c)) count) as [data|code msg] eqn:Er.
  2: { by apply (abort_settled _ _ c). }
  destruct (Z.eqb_spec (slen data) count) as [Ed|Ed]; cbn [negb].
  - pose proof (next_read_size_range (cursor_ c) (effective_chunk_size e) Hc ltac:(lia)) as (_ & R1 & R2).
    rewrite <- Hcount in R1, R2. pose proof Hc as [Hs' Hcont Hst Hwin].
    pose proof (Hfs _ _ _ _ Er Ed ltac:(lia) R1) as Hdata. rewrite <- Ed in Hdata.
    unfold on_file_data. cbn [finished_ cursor_ set_read_in_flight_]. rewrite Hl, <- Hcount, Ed, Z.eqb_refl.
    cbn [negb orb]. rewrite bool_decide_false by (intros ->; change (slen (@nil ascii)) with 0 in Ed; lia).
    left. rewrite <- Ed.
    apply (same_core_streaming _ _ Hcore) in Hs.
    apply (written_streaming data _ Hs); try done; cbn; lia.
  - cbn [download_completed_ set_read_in_flight_].
    destruct (download_completed_ c); cbn [negb]; [by apply (abort_settled _ _ c)|].
    left. apply (same_core_streaming c); [|done]. split; try done. exists []. by rewrite app_nil_r.
Qed.

Lemma try_read_settled fs c :
  streaming e content c → fs_faithful content (contiguous_end (cursor_ c)) fs →
  settled (try_read e fs c).
Proof.
  intros Hs Hfs. pose proof Hs as [Hi Hh Hc Hp Hz Hw]. pose proof Hi as [Hl Hconn Hr Hco Hq].
  unfold try_read. rewrite Hl, Hr. cbn [orb].
  destruct (write_in_flight_ c) eqn:Hwf; cbn [orb]; [by left|].
  pose proof Hc as [Hsz _ _ _]. replace (total_size (cursor_ c) <? 0) with false by lia.
  destruct (is_complete (cursor_ c)) eqn:Hcomp; [right; by apply finish_ended|].
  pose proof (next_read_size_nonneg (cursor_ c) (effective_chunk_size e) Hc).
  destruct (Z.eqb_spec (next_read_size (cursor_ c) (effective_chunk_size e)) 0); [by left|].
  replace (_ <? 0) with false by lia.
  destruct (bool_decide (local_path_ c = [])); [by left|].
  destruct (local_file_ c) as [path|].
  { apply read_chunk_settled; try done. lia. }
  destruct (fs_open fs (local_path_ c)) as [u|code msg].
  - apply read_chunk_settled; try done; [|cbn; lia].
    apply (same_core_streaming c); [|done]. split; try done. exists []. by rewrite app_nil_r.
  - destruct (download_completed_ c); cbn [negb]; [|by left].
    apply (abort_settled _ _ c); [done|apply same_core_refl].
Qed.

(** The window is never moved by a progress report. *)
Lemma progress_window c o n done st cursor :
  streaming e content c → update_progress (cursor_ c) o n done = (st, cursor) →
  cursor_ok cursor ∧ start_offset cursor = start_offset (cursor_ c)
  ∧ end_offset cursor = end_offset (cursor_ c) ∧ total_size cursor = total_size (cursor_ c)
  ∧ next_offset cursor = next_offset (cursor_ c) ∧ contiguous_end (cursor_ c) <= contiguous_end cursor.
Proof.
  intros [Hi Hh Hc Hp _ (Hparse & _)] E. pose proof (update_progress_ok_aux _ _ _ _ _ _ Hc E).
  pose proof (update_progress_monotone_aux _ _ _ _ _ _ Hc E) as (? & ? & ? & ?).
  split_and!; try done. pose proof Hc as [Hs Hcont Hst Hwin].
  apply parse_range_window in Hparse; [|lia]. unfold window_in in Hparse. simpl in Hparse.
  unfold update_progress in E.
  destruct (_ || _) in E; injection E as _ <-; [done|]. cbn [end_offset].
  destruct (_ && _) eqn:Hif; [|done]. destruct (partial_response_ c); lia.
Qed.

Lemma progress_streaming c o n done st cursor :
  streaming e content c → update_progress (cursor_ c) o n done = (st, cursor) →
  streaming e content (set_cursor_ cursor c).
Proof.
  intros Hs E. pose proof (progress_window _ _ _ _ _ _ Hs E) as (Hok & E1 & E2 & E3 & E4 & E5).
  destruct Hs as [Hi Hh Hc Hp Hz Hw]. split; try done.
  - by destruct Hi; split.
  - intros Hwf. destruct (Hp Hwf) as (? & ? & ? & ?). cbn. rewrite E2, E4. split_and!; try done; lia.
  - unfold wrote, sent_size in *. cbn. by rewrite E1, E2, E3, E4.
Qed.
(** ** The handlers, one by one *)

Lemma abort_cursor code msg c : cursor_ (abort code msg c) = cursor_ c.
Proof. unfold abort. destruct (finished_ c); [done|]. cbn. by destruct (connection_ c). Qed.

Lemma read_chunk_cursor fs path count c : cursor_ (read_chunk e fs path count c) = cursor_ c.
Proof.
  unfold read_chunk, on_file_data. repeat case_match; rewrite ?abort_cursor; reflexivity.
Qed.

Lemma try_read_cursor fs c : cursor_ (try_read e fs c) = cursor_ c.
Proof.
  unfold try_read, finish_stream.
  repeat case_match; rewrite ?abort_cursor, ?read_chunk_cursor; try reflexivity.
  all: cbn; by destruct (connection_ c).
Qed.

Lemma ended_ext c c' :
  finished_ c' = finished_ c → connection_ c' = connection_ c → outs c' = outs c →
  headers_sent_ c' = headers_sent_ c → completed_ok_ c' = completed_ok_ c →
  cursor_ c' = cursor_ c → partial_response_ c' = partial_response_ c →
  ended e content c → ended e content c'.
Proof.
  intros E1 E2 E3 E4 E5 E6 E7 [H1 H2 H3 H4]. split; [congruence|congruence|by rewrite E3|].
  rewrite E4, E5, E6, E3. destruct (headers_sent_ c); [|done].
  destruct H4 as (n & Hw & Hn). exists n. split; [|done].
  apply (wrote_ext c); [done|done|by rewrite E3|done].
Qed.

Lemma headers_flushed_settled r c :
  waiting c ∨ settled c → waiting (on_headers_flushed e r c) ∨ settled (on_headers_flushed e r c).
Proof.
  intros H. unfold on_headers_flushed.
  assert (idle c → accounted c → completed_ok_ c = false →
    (∀ code msg, ended e content (abort code msg c))
    ∧ ended e content
        (send Stop (let c := send CancelTimeout (set_finished_ true c) in
                    if connection_ c then send_final WriteOk c else c))) as Hend.
  { intros Hi Ha _. split; [by intros; apply abort_ended|].
    pose proof Hi as [Hl Hconn Hr Hco Hq]. cbn [send connection_ set_outs set_finished_]. rewrite Hconn.
    split; [done|done| |].
    - exists (outs c ++ [CancelTimeout]), WriteOk. cbn. rewrite <- !app_assoc.
      split_and!; [done| |done|done]. by apply quiet_snoc.
    - unfold accounted in Ha. cbn. rewrite Hco. destruct (headers_sent_ c).
      + destruct Ha as [n Hn]. exists n. split; [|done].
        apply (wrote_ext c); try done. cbn. by rewrite !data_out_snoc.
      + split; [|done]. by rewrite !data_out_snoc. }
  destruct H as [Hw|[Hs|He]].
  - pose proof Hw as []. destruct w_idle0 as [Hl Hconn Hr Hco Hq]. rewrite Hl.
    destruct (Hend ltac:(by apply Hw) (waiting_accounted _ Hw) Hco) as [H1 H2].
    destruct r; [|by right; right]. destruct (fr_head_only (route_ e)); [right; by right|by left].
  - pose proof Hs as []. destruct s_idle0 as [Hl Hconn Hr Hco Hq]. rewrite Hl.
    destruct (Hend ltac:(by apply Hs) (streaming_accounted _ Hs) Hco) as [H1 H2].
    destruct r; [|by right; right]. destruct (fr_head_only (route_ e)); [right; by right|by right; left].
  - destruct He as [Hf ? ? ?]. rewrite Hf. right. right. by split.
Qed.

Lemma file_error_settled code msg c c' :
  waiting c ∨ settled c → on_file_error e code msg c = Some c' → settled c'.
Proof.
  intros H. unfold on_file_error. destruct H as [Hw|[Hs|He]].
  - pose proof Hw as []. destruct w_idle0 as [Hl Hconn Hr Hco Hq]. rewrite Hl, w_headers0. cbn [negb].
    intros E. right. eapply fail_ended; [| |exact E]; [by apply Hw|by apply waiting_accounted].
  - pose proof Hs as []. destruct s_idle0 as [Hl Hconn Hr Hco Hq]. rewrite Hl, s_headers0. cbn [negb].
    intros [= <-]. apply (abort_settled _ _ c); [done|apply same_core_refl].
  - destruct He as [Hf ? ? ?]. rewrite Hf. intros [= <-]. right. by split.
Qed.

Lemma progress_settled fs total path o n done active c :
  waiting c ∨ settled c →
  fs_faithful content
    (contiguous_end (cursor_ (on_file_progress e fs total path o n done active c))) fs →
  let c' := on_file_progress e fs total path o n done active c in waiting c' ∨ settled c'.
Proof.
  intros H. cbv zeta. unfold on_file_progress. destruct H as [Hw|[Hs|He]].
  - pose proof Hw as []. replace (total_size (cursor_ c) <? 0) with true by lia.
    rewrite orb_true_r. by left.
  - pose proof Hs as []. destruct s_idle0 as [Hl Hconn Hr Hco Hq]. rewrite Hl.
    destruct s_cursor0 as [Hsz _ _ _]. replace (total_size (cursor_ c) <? 0) with false by lia. cbn [orb].
    intros Hfs. right. destruct (_ && _); [by apply (abort_settled _ _ c), same_core_refl|].
    set (c1 := if path_changes path c then _ else c) in *.
    assert (same_core c c1) as Hc1.
    { subst c1. destruct (path_changes path c); [|apply same_core_refl].
      apply (same_core_trans _ (set_local_file_ None c)); [|apply same_core_change_path].
      split; try done. exists []. by rewrite app_nil_r. }
    pose proof (same_core_streaming _ _ Hc1 Hs) as Hs1.
    destruct (update_progress (cursor_ c1) o n done) as [st cursor] eqn:E.
    pose proof (progress_streaming _ _ _ _ _ _ Hs1 E) as Hs2.
    destruct st as [u|code msg]; [|apply (abort_settled _ _ (set_cursor_ cursor c1)); [done|apply same_core_refl]].
    set (c3 := set_download_completed_ _ _) in *.
    assert (same_core (set_cursor_ cursor c1) c3) as Hc3
      by (split; try done; exists []; by rewrite app_nil_r).
    destruct (_ && _); [by apply (abort_settled _ _ (set_cursor_ cursor c1))|].
    destruct (_ && _); [by apply (abort_settled _ _ (set_cursor_ cursor c1))|].
    rewrite try_read_cursor in Hfs. apply try_read_settled; [by eapply same_core_streaming|done].
  - destruct He as [Hf ? ? ?]. rewrite Hf. cbn [orb]. intros _. right. right. by split.
Qed.

(** A flushed chunk is committed before the next read. *)
Lemma flush_commits fs c :
  streaming e content c → write_in_flight_ c = true →
  ∃ c', on_chunk_flushed e fs (Ok tt) c = try_read e fs c' ∧ streaming e content c'
    ∧ write_in_flight_ c' = false ∧ local_path_ c' = local_path_ c
    ∧ cursor_ c' = mkCursor (total_size (cursor_ c)) (start_offset (cursor_ c)) (end_offset (cursor_ c))
                     (next_offset (cursor_ c) + pending_write_size_ c) (contiguous_end (cursor_ c)).
Proof.
  intros Hs Hwf. pose proof Hs as []. destruct s_idle0 as [Hl Hconn Hr Hco Hq].
  destruct (s_pending0 Hwf) as (Ho & Hpos & Hle1 & Hle2).
  unfold on_chunk_flushed. cbn [finished_ set_write_in_flight_ cursor_ pending_write_offset_ pending_write_size_].
  rewrite Hl. destruct (commit (cursor_ c) (pending_write_offset_ c) (pending_write_size_ c)) as [st cursor] eqn:E.
  destruct (commit_ok_iff _ _ _ _ _ E) as (H1 & H2 & H3).
  assert (st = Ok tt) as -> by (by apply H1). specialize (H2 eq_refl).
  eexists. split; [reflexivity|].
  set (c2 := set_pending_write_size_ 0 _).
  assert (same_core c2 (send (SetTimeout (idle_timeout (config_ e)))
            (send_if (connection_ (set_first_byte_sent_ true c2)) TouchActivity
               (set_first_byte_sent_ true c2)))) as Hcore.
  { apply (same_core_trans _ (set_first_byte_sent_ true c2)).
    { split; try done. exists []. by rewrite app_nil_r. }
    eapply same_core_trans; [|by apply same_core_send]. by apply same_core_send_if. }
  split; [apply (same_core_streaming c2 _ Hcore)|].
  - split; try done.
    + cbn. by eapply commit_preserves.
    + unfold wrote, sent_size in s_wrote0 |- *. rewrite Hwf in s_wrote0.
      subst c2. cbn. rewrite H2. cbn.
      replace (next_offset (cursor_ c) + pending_write_size_ c - start_offset (cursor_ c) + 0)
        with (next_offset (cursor_ c) - start_offset (cursor_ c) + pending_write_size_ c) by lia.
      done.
  - rewrite <- H2. unfold send_if. cbn. rewrite Hconn. done.
Qed.

Lemma chunk_flushed_settled fs r c :
  waiting c ∨ settled c →
  fs_faithful content (contiguous_end (cursor_ (on_chunk_flushed e fs r c))) fs →
  settled (on_chunk_flushed e fs r c).
Proof.
  intros H. unfold on_chunk_flushed. cbn [finished_ set_write_in_flight_ cursor_ pending_write_offset_ pending_write_size_].
  destruct H as [Hw|[Hs|He]].
  - pose proof Hw as []. destruct w_idle0 as [Hl Hconn Hr Hco Hq]. rewrite Hl. intros _. right.
    destruct r as [u|code msg].
    + assert (∃ code msg, commit (cursor_ c) (pending_write_offset_ c) (pending_write_size_ c)
                          = (Err code msg, cursor_ c)) as (code & msg & ->).
      { unfold commit. rewrite w_size0, orb_true_r. by do 2 eexists. }
      apply abort_ended; [by split|]. unfold accounted. cbn. by rewrite w_headers0.
    + apply abort_ended; [by split|]. unfold accounted. cbn. by rewrite w_headers0.
  - pose proof Hs as []. destruct s_idle0 as [Hl Hconn Hr Hco Hq]. rewrite Hl. intros Hfs.
    assert (∀ code msg off size, ended e content
      (abort code msg (set_pending_write_size_ size (set_pending_write_offset_ off
         (set_cursor_ (cursor_ c) (set_write_in_flight_ false c)))))) as Habort.
    { intros. apply abort_ended; [by split|]. unfold accounted. cbn. rewrite s_headers0.
      eexists. by apply (wrote_ext c). }
    destruct r as [[]|code msg].
    2: { right. by apply (Habort code msg (pending_write_offset_ c) (pending_write_size_ c)). }
    destruct (write_in_flight_ c) eqn:Hwf.
    + destruct (flush_commits fs c Hs Hwf) as (c' & E & Hs' & _).
      unfold on_chunk_flushed in E.
      cbn [finished_ set_write_in_flight_ cursor_ pending_write_offset_ pending_write_size_] in E.
      rewrite Hl in E. rewrite E in Hfs |- *. rewrite try_read_cursor in Hfs.
      by apply try_read_settled.
    + assert (∃ code msg, commit (cursor_ c) (pending_write_offset_ c) (pending_write_size_ c)
                          = (Err code msg, cursor_ c)) as (code & msg & ->).
      { unfold commit. rewrite (s_none0 eq_refl), orb_true_r. by do 2 eexists. }
      right. apply Habort.
  - destruct He as [Hf ? ? ?]. rewrite Hf. intros _. right. by split.
Qed.
(** The file becomes ready: an error response, or the header and the first
    read. *)
Lemma ready_settled fs id total path o n done c c' :
  waiting c → in_int64 total →
  on_file_ready e fs id total path o n done c = Some c' →
  fs_faithful content (contiguous_end (cursor_ c')) fs →
  settled c'.
Proof.
  intros Hw Htot. pose proof Hw as []. pose proof w_idle0 as [Hl Hconn Hr Hco Hq].
  assert (∀ c1 code msg, idle c1 → headers_sent_ c1 = false → data_out (outs c1) = [] →
    fail e code msg c1 = Some c' → settled c') as Hfail.
  { intros c1 code msg Hi Hh Hd Hf. right. eapply fail_ended; [exact Hi| |exact Hf].
    unfold accounted. by rewrite Hh. }
  unfold on_file_ready. rewrite Hl.
  destruct ((id <=? 0) || (total <? 0)) eqn:Hid; [intros H _; by eapply Hfail|].
  set (c1 := if path_changes path _ then _ else _).
  assert (same_core c c1) as Hc1.
  { subst c1. apply (same_core_trans _ (set_file_id_ id c)); [split; try done; exists []; by rewrite app_nil_r|].
    destruct (path_changes _ _); [apply same_core_change_path|apply same_core_refl]. }
  pose proof (same_core_waiting _ _ Hc1 Hw) as [Hi1 Hh1 Hwr1 Hz1 Ht1 Hcont1 Hd1].
  destruct (2 ^ 64 - 1 <? total); [intros H _; by apply (Hfail _ _ _ Hi1 Hh1 Hd1 H)|].
  destruct (_ && _); [intros H _; by apply (Hfail _ _ _ Hi1 Hh1 Hd1 H)|].
  set (c2 := set_cursor_ _ c1).
  assert (idle c2) as Hi2 by (by destruct Hi1; split).
  destruct (parse_file_stream_range (fr_range (route_ e)) total) as [r|code msg] eqn:Er.
  2: { intros H _. by apply (Hfail c2 _ _ Hi2 Hh1 Hd1 H). }
  pose proof (parse_range_window (fr_range (route_ e)) total r ltac:(lia) Er) as Hwin.
  cbv zeta. set (c3 := set_cursor_ (set_range _ _ _) _).
  assert (idle c3) as Hi3.
  { subst c3. destruct Hi2. split; try done. cbn. by apply quiet_snoc. }
  assert (data_out (outs c3) = []) as Hd3 by (cbn; by rewrite data_out_snoc).
  assert (cursor_ok (cursor_ c3)) as Hok3.
  { unfold in_int64 in Htot. unfold window_in in Hwin.
    split; cbn; rewrite ?Hcont1; destruct (is_partial r); lia. }
  destruct (update_progress (cursor_ c3) o n done) as [st cursor] eqn:E.
  pose proof (update_progress_ok_aux _ _ _ _ _ _ Hok3 E) as Hok4.
  pose proof (update_progress_monotone_aux _ _ _ _ _ _ Hok3 E) as (_ & En & Es & Et).
  assert (end_offset cursor = range_end r) as Ee.
  { unfold update_progress in E. cbn in E. unfold window_in in Hwin.
    destruct (_ || _) in E; injection E as _ <-; [done|]. cbn [end_offset].
    destruct (_ && _) eqn:Hif; [|done]. destruct (is_partial r); lia. }
  assert (idle (set_cursor_ cursor c3)) as Hi4 by (by destruct Hi3; split).
  destruct st as [u|code msg]; [|intros H _; by apply (Hfail _ _ _ Hi4 Hh1 Hd3 H)].
  set (c5 := set_download_completed_ _ _).
  assert (idle c5) as Hi5 by (by destruct Hi4; split).
  destruct (_ && _); [intros H _; by apply (Hfail _ _ _ Hi5 Hh1 Hd3 H)|].
  rewrite send_headers_spec by done. cbn [mbind option_bind].
  set (c6 := send _ (set_headers_sent_ true c5)).
  assert (streaming e content c6) as Hs6.
  { split; try done.
    - destruct Hi5. split; try done. cbn. by apply quiet_snoc.
    - cbn. by rewrite Hwr1.
    - cbn in En, Es, Et. unfold wrote, sent_size. cbn. rewrite Hwr1, Es, Et, En, Ee.
      unfold window_in in Hwin. split_and!.
      + rewrite Er. by destruct r.
      + lia.
      + destruct (is_partial r); lia.
      + exists []. split; [|by rewrite Z.sub_diag].
        rewrite !data_out_app. cbn in Hd3. rewrite data_out_app in Hd3. by rewrite Hd3. }
  intros [= <-] Hfs. destruct (fr_head_only (route_ e)); [by left|].
  rewrite try_read_cursor in Hfs. by apply try_read_settled.
Qed.

Lemma reach_invariant c : reach e content c → waiting c ∨ settled c.
Proof.
  induction 1 as [|c ev c' _ IH Hstep Honce Hfs].
  - left. split; try done. split; try done. by repeat constructor.
  - destruct ev as [|fs id total path o n done|fs total path o n done active|r|fs r|code msg|];
      cbn [conn_step] in Hstep.
    + injection Hstep as <-. destruct IH as [Hw|[Hs|He]].
      * left. apply (same_core_waiting c); [|done]. split; try done. exists []. by rewrite app_nil_r.
      * right; left. apply (same_core_streaming c); [|done]. split; try done. exists []. by rewrite app_nil_r.
      * right; right. by apply (ended_ext c).
    + destruct (Honce _ _ _ _ _ _ _ eq_refl) as [Hneg Hint].
      destruct IH as [Hw|[Hs|He]].
      * right. by apply (ready_settled fs id total path o n done c c' Hw Hint Hstep), Hfs.
      * destruct Hs as [_ _ [Hsz _ _ _] _ _ _]. lia.
      * right; right. destruct He as [Hf ? ? ?]. unfold on_file_ready in Hstep. rewrite Hf in Hstep.
        injection Hstep as <-. by split.
    + injection Hstep as <-. by apply progress_settled, Hfs.
    + injection Hstep as <-. by apply headers_flushed_settled.
    + injection Hstep as <-. right. by apply chunk_flushed_settled, Hfs.
    + right. by eapply file_error_settled.
    + right. by eapply file_error_settled.
Qed.
End Invariants.

(** ** Progress of a fed stream *)

Section Liveness.
  Context (e : conn_env) (content : slice) (fs : fs_view).

  (** The local file is complete and readable. *)
Definition fs_complete : Prop :=
  (∀ path, fs_open fs path = Ok tt)
  ∧ ∀ path off n, 0 <= off → 0 <= n → off + n <= slen content →
      fs_pread fs path off n = Ok (part content off n).

Record fed (c : conn) : Prop := {
  f_stream : streaming e content c;
  f_write : write_in_flight_ c = true;
  f_all : contiguous_end (cursor_ c) = total_size (cursor_ c);
  f_size : total_size (cursor_ c) = slen content;
  f_path : local_path_ c ≠ [];
}.

Definition flush (c : conn) : conn := on_chunk_flushed e fs (Ok tt) c.

Definition remaining (c : conn) : Z := end_offset (cursor_ c) + 1 - next_offset (cursor_ c).

(** A read from a complete file is written whole. *)
Lemma read_chunk_full path count c :
  fs_complete → streaming e content c → write_in_flight_ c = false →
  count = next_read_size (cursor_ c) (effective_chunk_size e) → 0 < count →
  contiguous_end (cursor_ c) = total_size (cursor_ c) → total_size (cursor_ c) = slen content →
  read_chunk e fs path count c =
  send (WriteChunk (part content (next_offset (cursor_ c)) count))
    (set_pending_write_size_ count
       (set_pending_write_offset_ (next_offset (cursor_ c))
          (set_write_in_flight_ true (set_read_in_flight_ false (set_read_in_flight_ true c))))).
Proof.
  intros [Hopen Hread] [Hi Hh Hc Hp Hz Hw] Hwf Hcount H0 Hall Hsize.
  pose proof Hi as [Hl Hconn Hr Hco Hq]. pose proof Hc as [Hs' Hcont Hst Hwin].
  pose proof (next_read_size_range (cursor_ c) (effective_chunk_size e) Hc ltac:(lia)) as (_ & R1 & R2).
  rewrite <- Hcount in R1, R2.
  unfold read_chunk. cbn [cursor_ set_read_in_flight_]. rewrite Hread by lia.
  assert (slen (part content (next_offset (cursor_ c)) count) = count) as Elen by (apply part_length; lia).
  rewrite Elen, Z.eqb_refl. cbn [negb]. unfold on_file_data.
  cbn [finished_ cursor_ set_read_in_flight_]. rewrite Hl, <- Hcount, Elen, Z.eqb_refl. cbn [negb orb].
  rewrite bool_decide_false; [done|]. intros E. rewrite E in Elen. change (slen (@nil ascii)) with 0 in Elen. lia.
Qed.

Lemma try_read_full c :
  fs_complete → streaming e content c → write_in_flight_ c = false → is_complete (cursor_ c) = false →
  0 < effective_chunk_size e →
  contiguous_end (cursor_ c) = total_size (cursor_ c) → total_size (cursor_ c) = slen content →
  local_path_ c ≠ [] →
  write_in_flight_ (try_read e fs c) = true ∧ local_path_ (try_read e fs c) = local_path_ c
  ∧ finished_ (try_read e fs c) = false.
Proof.
  intros Hfs Hs Hwf Hcomp Heff Hall Hsize Hpath. pose proof Hs as [Hi Hh Hc Hp Hz Hw].
  pose proof Hi as [Hl Hconn Hr Hco Hq]. pose proof Hc as [Hs' Hcont Hst Hwin].
  assert (0 < next_read_size (cursor_ c) (effective_chunk_size e)) as Hn.
  { apply next_read_size_pos; [done|done|].
    pose proof (is_complete_iff _ Hc) as Hci. rewrite Hcomp in Hci.
    assert (¬ (total_size (cursor_ c) = 0 ∨ start_offset (cursor_ c) <= end_offset (cursor_ c)
                 ∧ next_offset (cursor_ c) = end_offset (cursor_ c) + 1)) as Hnot
      by (intros H; apply Hci in H; done).
    destruct Hw as (Hparse & _). apply parse_range_window in Hparse; [|lia].
    unfold window_in in Hparse. simpl in Hparse. destruct (partial_response_ c); lia. }
  unfold try_read. rewrite Hl, Hr, Hwf, Hcomp. cbn [orb].
  replace (total_size (cursor_ c) <? 0) with false by lia.
  replace (next_read_size _ _ =? 0) with false by lia. replace (next_read_size _ _ <? 0) with false by lia.
  rewrite bool_decide_false by done. destruct (local_file_ c) as [path|].
  - rewrite read_chunk_full by (done || lia). by split_and!.
  - assert (streaming e content (set_local_file_ (Some (local_path_ c)) c)) as Hs2.
    { apply (same_core_streaming _ _ c); [|done]. split; try done. exists []. by rewrite app_nil_r. }
    pose proof Hfs as [Hopen _]. rewrite Hopen.
    rewrite read_chunk_full by (done || (cbn; lia)). by split_and!.
Qed.

(** One flush finishes the stream or writes the next chunk. *)
Lemma flush_fed c :
  fs_complete → 0 < effective_chunk_size e → fed c →
  (finished_ (flush c) = true ∧ completed_ok_ (flush c) = true)
  ∨ (fed (flush c) ∧ remaining (flush c) < remaining c ∧ 0 < remaining (flush c)).
Proof.
  intros Hfs Heff [Hs Hwf Hall Hsize Hpath]. pose proof Hs as [Hi Hh Hc Hp Hz Hw].
  destruct (Hp Hwf) as (Ho & Hpos & Hle1 & Hle2).
  destruct (flush_commits e content fs c Hs Hwf) as (c' & E & Hs' & Hwf' & Hpath' & Ec').
  unfold flush. rewrite E. destruct (is_complete (cursor_ c')) eqn:Hcomp.
  - left. pose proof Hs' as [[Hl Hconn Hr Hco Hq] _ Hc' _ _ _]. pose proof Hc' as [Hsz _ _ _].
    assert (try_read e fs c' = finish_stream c') as ->.
    { unfold try_read. rewrite Hl, Hr, Hwf', Hcomp. by replace (total_size (cursor_ c') <? 0) with false by lia. }
    destruct (finish_ended e content c' Hs' Hcomp Hwf') as [[Hf _ _ _] Hok]. done.
  - right. assert (fs_faithful content (contiguous_end (cursor_ c')) fs) as Hfaith.
    { intros path off n data Hd Hlen Hoff Hb. destruct Hfs as [_ Hread].
      pose proof (slen_nonneg data). rewrite Ec' in Hb. cbn in Hb.
      rewrite Hread in Hd by lia. by injection Hd as <-. }
    destruct (try_read_full c') as (Hw2 & Hp2 & Hn2); try done; try (rewrite Ec'; cbn; lia); [by rewrite Hpath'|].
    destruct (try_read_settled e content fs c' Hs' Hfaith) as [Hs2|[Hf2 _ _ _]].
    + unfold remaining. rewrite try_read_cursor, Ec'. cbn.
      pose proof (s_pending _ _ _ Hs2 Hw2) as (_ & Hpos2 & _ & Hle).
      rewrite try_read_cursor, Ec' in Hle. cbn in Hle.
      split; [|lia]. split; try done; try (rewrite try_read_cursor, Ec'; cbn; lia).
      by rewrite Hp2, Hpath'.
    + congruence.
Qed.

Lemma flush_ended n c :
  finished_ c = true → completed_ok_ c = true →
  finished_ (Nat.iter n flush c) = true ∧ completed_ok_ (Nat.iter n flush c) = true.
Proof.
  assert (∀ x, finished_ x = true → completed_ok_ x = true →
            finished_ (flush x) = true ∧ completed_ok_ (flush x) = true) as Hstep.
  { intros x Hf Hc. unfold flush, on_chunk_flushed. cbn [finished_ set_write_in_flight_]. by rewrite Hf. }
  intros Hf Hc. induction n as [|n [IH1 IH2]]; [done|].
  change (Nat.iter (S n) flush c) with (flush (Nat.iter n flush c)). by apply Hstep.
Qed.

Lemma flush_finishes n c :
  fs_complete → 0 < effective_chunk_size e → fed c → remaining c <= Z.of_nat n →
  finished_ (Nat.iter n flush c) = true ∧ completed_ok_ (Nat.iter n flush c) = true.
Proof.
  intros Hfs Heff. revert c. induction n as [|n IH]; intros c Hfed Hn.
  - destruct Hfed as [[_ _ Hc Hp _ _] Hwf _ _ _]. destruct (Hp Hwf) as (_ & ? & _ & ?).
    unfold remaining in Hn. lia.
  - rewrite Nat.iter_succ_r. destruct (flush_fed c Hfs Heff Hfed) as [[Hf Hc]|(Hfed' & Hlt & Hpos)].
    + by apply flush_ended.
    + apply IH; [done|lia].
Qed.
End Liveness.

(** ** Retained files *)

(** Files retained and not yet released. *)
Definition balance (path : slice) (l : list action) : Z :=
  sum_list_Z (fun a => match a with
                       | RetainFile p => if bool_decide (p = path) then 1 else 0
                       | ReleaseFile p => if bool_decide (p = path) then -1 else 0
                       | _ => 0
                       end) l.

(** A list of messages that never holds a file twice, at any point of it. *)
Definition single_hold (path : slice) (l : list action) : Prop :=
  ∀ k, k `prefix_of` l → 0 <= balance path k <= 1.

(** The stream holds its current local file, if there is a cleanup manager. *)
Definition balanced (e : conn_env) (c : conn) : Prop :=
  ∀ path, single_hold path (outs c)
          ∧ balance path (outs c)
            = if cleanup_manager_ e && negb (bool_decide (local_path_ c = []))
                 && bool_decide (local_path_ c = path) then 1 else 0.

Definition neutral (a : action) : bool :=
  match a with RetainFile _ | ReleaseFile _ => false | _ => true end.

(** A handler that does not touch the local path sends no such message. *)
Definition neutral_step (c c' : conn) : Prop :=
  local_path_ c' = local_path_ c
  ∧ ∃ l, outs c' = outs c ++ l ∧ Forall (fun a => neutral a = true) l.

Lemma neutral_refl c : neutral_step c c.
Proof. split; [done|]. exists []. by rewrite app_nil_r. Qed.

Lemma neutral_trans c1 c2 c3 : neutral_step c1 c2 → neutral_step c2 c3 → neutral_step c1 c3.
Proof.
  intros [E1 (l1 & O1 & H1)] [E2 (l2 & O2 & H2)]. split; [congruence|].
  exists (l1 ++ l2). rewrite O2, O1, app_assoc. split; [done|]. by apply Forall_app.
Qed.

Lemma balance_app path l k : balance path (l ++ k) = balance path l + balance path k.
Proof. apply sum_list_Z_app. Qed.

Lemma balance_neutral path l : Forall (fun a => neutral a = true) l → balance path l = 0.
Proof.
  induction 1 as [|a l Ha _ IH]; [done|]. unfold balance in *. cbn [sum_list_Z foldr].
  unfold sum_list_Z in IH. rewrite IH. by destruct a.
Qed.

Lemma single_hold_snoc path l a :
  single_hold path l → 0 <= balance path (l ++ [a]) <= 1 → single_hold path (l ++ [a]).
Proof. intros Hl Ha k [Hk| ->]%prefix_of_snoc; [by apply Hl|done]. Qed.

Lemma single_hold_neutral path l k :
  single_hold path l → Forall (fun a => neutral a = true) k → single_hold path (l ++ k).
Proof.
  intros Hl. induction k as [|a k IH] using rev_ind; intros Hk; [by rewrite app_nil_r|].
  apply Forall_app in Hk as [Hk Ha]. rewrite (assoc_L (++)). apply single_hold_snoc; [by apply IH|].
  rewrite !balance_app, (balance_neutral path k), (balance_neutral path [a]) by done.
  rewrite !Z.add_0_r. by apply Hl.
Qed.

Lemma neutral_balanced e c c' : neutral_step c c' → balanced e c → balanced e c'.
Proof.
  intros [E (l & O & H)] Hb path. destruct (Hb path) as [Hs Hp].
  rewrite O, balance_app, (balance_neutral path l H), E, Hp.
  split; [by apply single_hold_neutral|lia].
Qed.

Lemma abort_neutral code msg c : neutral_step c (abort code msg c).
Proof.
  unfold abort. destruct (finished_ c); [apply neutral_refl|]. split.
  - cbn. by destruct (connection_ c).
  - cbn. destruct (connection_ c); cbn; rewrite <- ?app_assoc; eexists; (split; [reflexivity|]);
      by repeat constructor.
Qed.

Lemma fail_neutral e code msg c c' : fail e code msg c = Some c' → neutral_step c c'.
Proof.
  unfold fail. destruct (finished_ c); [intros [= <-]; apply neutral_refl|].
  destruct (headers_sent_ c); [intros [= <-]; apply abort_neutral|].
  destruct (json_query_error code msg) as [body|]; [|done]. cbn [mbind option_bind].
  destruct (finish _ _) as [r|]; [|done]. cbn [mbind option_bind].
  intros H; injection H as <-. destruct r as [header|]; unfold send_if.
  - destruct (fr_head_only (route_ e)); cbn [negb]; (split; [done|]); cbn; rewrite <- ?app_assoc;
      eexists; (split; [reflexivity|]); by repeat constructor.
  - split; [done|]. cbn. rewrite <- ?app_assoc. eexists. split; [reflexivity|]. by repeat constructor.
Qed.

Lemma finish_neutral c : neutral_step c (finish_stream c).
Proof.
  unfold finish_stream. destruct (finished_ c); [apply neutral_refl|].
  destruct (_ || _); [apply abort_neutral|]. split.
  - cbn. by destruct (connection_ c).
  - cbn. destruct (connection_ c); cbn; rewrite <- ?app_assoc; eexists; (split; [reflexivity|]);
      by repeat constructor.
Qed.

(** Changing only fields that are neither the path nor the messages. *)
Ltac same_fields := split; [reflexivity|]; exists []; cbn; by rewrite app_nil_r.

Lemma read_chunk_neutral e fs path count c : neutral_step c (read_chunk e fs path count c).
Proof.
  unfold read_chunk, on_file_data.
  assert (∀ c1 code msg, neutral_step c c1 → neutral_step c (abort code msg c1)) as Habort
    by (intros; eapply neutral_trans; [done|apply abort_neutral]).
  assert (neutral_step c (set_read_in_flight_ false (set_read_in_flight_ true c))) as Hrd by same_fields.
  repeat case_match; try (by apply Habort).
  - same_fields.
  - apply (neutral_trans _ _ _ Hrd). same_fields.
  - apply (neutral_trans _ _ _ Hrd). split; [done|]. eexists [_]. by split; [|constructor].
Qed.

Lemma try_read_neutral e fs c : neutral_step c (try_read e fs c).
Proof.
  unfold try_read.
  destruct (_ || _); [apply neutral_refl|]. destruct (is_complete _); [apply finish_neutral|].
  destruct (_ =? 0); [apply neutral_refl|]. destruct (_ <? 0); [apply abort_neutral|].
  case_bool_decide; [apply neutral_refl|]. destruct (local_file_ c) as [path|]; [apply read_chunk_neutral|].
  destruct (fs_open fs (local_path_ c)).
  - eapply neutral_trans; [|apply read_chunk_neutral]. same_fields.
  - destruct (negb _); [apply neutral_refl|apply abort_neutral].
Qed.

Lemma send_headers_neutral e c c' : send_headers e c = Some c' → neutral_step c c'.
Proof.
  unfold send_headers. destruct (headers_sent_ c); [intros [= <-]; apply neutral_refl|].
  destruct (finish _ _) as [[header|code msg]|]; [|by apply fail_neutral|done].
  cbn [mbind option_bind]. intros H; injection H as <-. split; [done|].
  eexists [_]. by split; [|constructor].
Qed.

Lemma change_path_balanced e path c :
  path ≠ [] → balanced e c → balanced e (change_path e path c).
Proof.
  intros Hne Hb p. unfold change_path, send_if. destruct (Hb p) as [Hs Hp].
  destruct (cleanup_manager_ e); rewrite ?andb_true_r, ?andb_false_r in *; cbn [andb] in *.
  - case_bool_decide as Hold; cbn [negb] in *; cbn [send outs set_outs set_local_path_ local_path_];
      rewrite (bool_decide_false (path = [])) by done; cbn [negb andb];
      (split; [repeat apply single_hold_snoc; [done|..]|]);
      rewrite !balance_app, Hp; unfold balance; cbn [sum_list_Z foldr];
      repeat case_bool_decide; cbn; lia.
  - cbn [outs set_local_path_ local_path_]. by rewrite Hp.
Qed.

Lemma path_changes_balanced e path c c1 :
  balanced e c1 → balanced e (if path_changes path c then change_path e path c1 else c1).
Proof.
  intros Hb. unfold path_changes. case_bool_decide; [done|]. cbn [negb andb].
  destruct (negb _); [|done]. by apply change_path_balanced.
Qed.

Lemma same_fields_balanced e c c' :
  local_path_ c' = local_path_ c → outs c' = outs c → balanced e c → balanced e c'.
Proof. intros E1 E2 Hb p. rewrite E1, E2. apply Hb. Qed.

Lemma file_error_balanced e code msg c c' :
  balanced e c → on_file_error e code msg c = Some c' → balanced e c'.
Proof.
  intros Hb. unfold on_file_error. destruct (finished_ c); [by intros [= <-]|].
  destruct (negb _).
  - intros H. by eapply neutral_balanced; [eapply fail_neutral|].
  - intros [= <-]. by eapply neutral_balanced; [apply abort_neutral|].
Qed.

Lemma ready_balanced e fs id total path o n done c c' :
  balanced e c → on_file_ready e fs id total path o n done c = Some c' → balanced e c'.
Proof.
  intros Hb. unfold on_file_ready. destruct (finished_ c); [by intros [= <-]|].
  assert (∀ c1 code msg, balanced e c1 → fail e code msg c1 = Some c' → balanced e c') as Hfail
    by (intros c1 code msg H1 H2; eapply neutral_balanced; [by eapply fail_neutral|done]).
  destruct (_ || _); [by apply Hfail|].
  set (c1 := if path_changes path _ then _ else _).
  assert (balanced e c1) as Hb1 by (by apply path_changes_balanced).
  destruct (_ <? total); [by apply Hfail|]. destruct (_ && _); [by apply Hfail|].
  destruct (parse_file_stream_range _ _) as [r|]; [|by apply Hfail].
  cbv zeta. set (c3 := set_cursor_ (set_range _ _ _) _).
  assert (balanced e c3) as Hb3.
  { apply (neutral_balanced e c1); [|done]. split; [done|]. eexists [_]. by split; [|constructor]. }
  destruct (update_progress (cursor_ c3) o n done) as [[u|code msg] cursor]; [|by apply Hfail].
  destruct (_ && _); [by apply Hfail|].
  destruct (send_headers _ _) as [c6|] eqn:E6; [|done]. cbn [mbind option_bind].
  apply send_headers_neutral in E6. apply (neutral_balanced e _ _ E6) in Hb3.
  intros H; injection H as <-. destruct (fr_head_only _); [done|].
  by eapply neutral_balanced; [apply try_read_neutral|].
Qed.

Lemma progress_balanced e fs total path o n done active c :
  balanced e c → balanced e (on_file_progress e fs total path o n done active c).
Proof.
  intros Hb. unfold on_file_progress. destruct (_ || _); [done|].
  destruct (_ && _); [by eapply neutral_balanced; [apply abort_neutral|]|].
  set (c1 := if path_changes path c then _ else c).
  assert (balanced e c1) as Hb1 by (subst c1; unfold path_changes; case_bool_decide; [done|];
    cbn [negb andb]; destruct (negb _); [|done]; by apply change_path_balanced).
  destruct (update_progress (cursor_ c1) o n done) as [[u|code msg] cursor];
    [|eapply neutral_balanced; [apply abort_neutral|done]].
  destruct (_ && _); [eapply neutral_balanced; [apply abort_neutral|done]|].
  destruct (_ && _); [eapply neutral_balanced; [apply abort_neutral|done]|].
  eapply neutral_balanced; [apply try_read_neutral|done].
Qed.

Lemma chunk_flushed_balanced e fs r c :
  balanced e c → balanced e (on_chunk_flushed e fs r c).
Proof.
  intros Hb. unfold on_chunk_flushed. destruct (finished_ _); [done|].
  destruct r as [u|code msg]; [|eapply neutral_balanced; [apply abort_neutral|done]].
  destruct (commit _ _ _) as [[u'|code msg] cursor]; [|eapply neutral_balanced; [apply abort_neutral|done]].
  eapply neutral_balanced; [apply try_read_neutral|].
  unfold send_if. destruct (connection_ _); (apply (neutral_balanced e c); [|done]); (split; [done|]); cbn;
    rewrite <- ?app_assoc; eexists; (split; [reflexivity|]); by repeat constructor.
Qed.

Lemma headers_flushed_balanced e r c : balanced e c → balanced e (on_headers_flushed e r c).
Proof.
  intros Hb. unfold on_headers_flushed. destruct (finished_ c); [done|].
  destruct r; [|eapply neutral_balanced; [apply abort_neutral|done]].
  destruct (fr_head_only _); [|done]. apply (neutral_balanced e c); [|done]. split.
  - cbn. by destruct (connection_ c).
  - cbn. destruct (connection_ c); cbn; rewrite <- ?app_assoc; eexists; (split; [reflexivity|]);
      by repeat constructor.
Qed.

Lemma reach_balanced e content c : reach e content c → balanced e c.
Proof.
  induction 1 as [|c ev c' _ IH Hstep _ _].
  - intros path. cbn. rewrite andb_false_r. split; [|done]. apply (single_hold_neutral path []).
    + intros k ->%prefix_nil_inv. done.
    + by repeat constructor.
  - destruct ev; cbn [conn_step] in Hstep.
    + injection Hstep as <-. by apply (same_fields_balanced e c).
    + by eapply ready_balanced.
    + injection Hstep as <-. by apply progress_balanced.
    + injection Hstep as <-. by apply headers_flushed_balanced.
    + injection Hstep as <-. by apply chunk_flushed_balanced.
    + by eapply file_error_balanced.
    + by eapply file_error_balanced.
Qed.

Lemma tear_down_outs e c :
  outs (tear_down e c) = outs c
    ++ (if negb (bool_decide (local_path_ c = [])) && cleanup_manager_ e
        then [ReleaseFile (local_path_ c)] else [])
    ++ [ReleaseFileStream (stream_id_ e)]
    ++ (if client_ c
        then [RemoveFileStream (stream_id_ e) (file_id_ c) (fr_no_cache (route_ e) && completed_ok_ c)]
        else []).
Proof.
  unfold tear_down, send_if. cbn [local_path_ set_local_file_].
  destruct (negb _ && _); cbn [client_ send set_outs set_local_file_];
    destruct (client_ c); cbn; by rewrite <- ?app_assoc.
Qed.

(** ** Properties *)

(** C1: In every reachable state of a file-stream connection, after the headers the body bytes sent are the
    file's bytes from the start of the requested range, each once and in order, and a stream that completed
    sent the whole range; before the headers nothing of the body is sent. *)
Theorem stream_body_exact e content c :
  reach e content c →
  if headers_sent_ c
  then ∃ n, wrote e content c n
            ∧ (completed_ok_ c = true → n = end_offset (cursor_ c) + 1 - start_offset (cursor_ c))
  else data_out (outs c) = [] ∧ completed_ok_ c = false.
Proof.
  intros H. destruct (reach_invariant e content c H) as [Hw|[Hs|He]].
  - pose proof Hw as []. rewrite w_headers0. split; [done|apply w_idle0].
  - pose proof Hs as []. rewrite s_headers0. exists (sent_size c). split; [done|].
    destruct s_idle0. congruence.
  - apply He.
Qed.

(** C2: A file-stream connection sends exactly one final message (an answer, an error or a close) followed
    by its stop, only when it finishes, and a finished connection sends nothing more. *)
Theorem stream_ends_once e content c :
  reach e content c →
  (if finished_ c
   then connection_ c = false
        ∧ ∃ pre a, outs c = pre ++ [a; Stop] ∧ is_final a = true ∧ a ≠ Stop
                   ∧ Forall (fun a => is_final a = false) pre
   else connection_ c = true ∧ Forall (fun a => is_final a = false) (outs c))
  ∧ (∀ ev c', finished_ c = true → conn_step e ev c = Some c' →
       outs c' = outs c ∧ finished_ c' = true).
Proof.
  intros H. split.
  - destruct (reach_invariant e content c H) as [Hw|[Hs|He]].
    + destruct Hw as [[Hl Hc _ _ Hq] _ _ _ _ _]. by rewrite Hl.
    + destruct Hs as [[Hl Hc _ _ Hq] _ _ _ _ _]. by rewrite Hl.
    + destruct He as [Hf Hc (pre & a & E1 & E2 & E3 & E4) _]. rewrite Hf. split; [done|]. by exists pre, a.
  - intros ev c' Hf. destruct ev; cbn [conn_step];
      unfold on_file_ready, on_file_progress, on_headers_flushed, on_chunk_flushed, timeout_expired,
        on_file_error; cbn [finished_ set_write_in_flight_]; rewrite ?Hf; cbn [orb];
      intros [= <-]; done.
Qed.

(** C3: A connection never holds more than one reference to a file, whatever happens; its tear-down releases
    the last one, gives its stream slot back, and asks for the file's deletion only for a completed no_cache
    stream. *)
Theorem stream_releases_files e content c path :
  reach e content c →
  0 <= balance path (outs c) <= 1
  ∧ balance path (outs (tear_down e c)) = 0
  ∧ (∃ l, outs (tear_down e c) = outs c ++ l ∧ ReleaseFileStream (stream_id_ e) ∈ l
          ∧ (∀ id b, RemoveFileStream (stream_id_ e) id b ∈ l → b = true →
               fr_no_cache (route_ e) = true ∧ completed_ok_ c = true)).
Proof.
  intros H. destruct (reach_balanced e content c H path) as [_ Hb]. split; [rewrite Hb; by destruct (_ && _)|].
  split.
  - rewrite tear_down_outs, !balance_app, Hb. unfold balance.
    destruct (bool_decide (local_path_ c = [])), (cleanup_manager_ e), (client_ c);
      cbn [andb negb sum_list_Z foldr]; try lia; case_bool_decide; lia.
  - rewrite tear_down_outs. eexists. split; [reflexivity|].
    split; [set_solver|]. intros id b Hin ->. rewrite !elem_of_app in Hin.
    destruct Hin as [Hin|[Hin|Hin]].
    + destruct (negb _ && _); [by apply list_elem_of_singleton in Hin|by apply elem_of_nil in Hin].
    + by apply list_elem_of_singleton in Hin.
    + destruct (client_ c); [apply list_elem_of_singleton in Hin|by apply elem_of_nil in Hin].
      injection Hin as _ Hin. by apply eq_sym, andb_true_iff in Hin.
Qed.

(** C4: Once the whole file is downloaded, a stream whose chunks are all written to the socket finishes
    successfully after at most one flush per remaining byte. *)
Theorem stream_finishes e content fs c :
  reach e content c → finished_ c = false → headers_sent_ c = true → write_in_flight_ c = true →
  fs_complete content fs → 0 < effective_chunk_size e →
  contiguous_end (cursor_ c) = slen content → total_size (cursor_ c) = slen content →
  local_path_ c ≠ [] →
  let c' := Nat.iter (Z.to_nat (remaining c)) (flush e fs) c in
  finished_ c' = true ∧ completed_ok_ c' = true.
Proof.
  intros H Hf Hh Hw Hfs Heff Hall Hsize Hpath. cbv zeta.
  destruct (reach_invariant e content c H) as [[_ Hh' _ _ _ _ _]|[Hs|[Hf' _ _ _]]]; [congruence| |congruence].
  apply (flush_finishes e content fs); [done|done| |].
  - split; try done. congruence.
  - pose proof Hs as [_ _ _ Hp _ _]. destruct (Hp Hw) as (_ & ? & _ & ?). unfold remaining. lia.
Qed.

(** ** A concrete stream *)

(** A complete local file. *)
Definition fs_of (content : slice) : fs_view :=
  mkFs (fun _ => Ok tt) (fun _ off n => Ok (part content off n)).

Lemma fs_of_faithful content bound : fs_faithful content bound (fs_of content).
Proof. intros path off n data [= <-] _ _ _. done. Qed.

Definition guarded (ev : event) (c : conn) : bool :=
  match ev with
  | EvReady _ _ total _ _ _ _ => (total_size (cursor_ c) <? 0) && (0 <=? total) && (total <=? INT64_MAX)
  | _ => true
  end.

Fixpoint run (e : conn_env) (evs : list event) (c : conn) : option conn :=
  match evs with
  | [] => Some c
  | ev :: evs =>
      if guarded ev c then c' ← conn_step e ev c; run e evs c' else None
  end.

Lemma run_reach e content evs c c' :
  reach e content c → Forall (fun ev => ∀ fs, event_fs ev = Some fs → fs = fs_of content) evs →
  run e evs c = Some c' → reach e content c'.
Proof.
  intros Hr Hfs. revert c Hr. induction Hfs as [|ev evs Hev _ IH]; intros c Hr; cbn [run].
  - by intros [= <-].
  - destruct (guarded ev c) eqn:Hg; [|done].
    destruct (conn_step e ev c) as [c1|] eqn:E; [|done]. cbn [mbind option_bind].
    apply IH. apply (reach_step _ _ c ev); [done|done| |].
    + intros fs id total path off n done ->. cbn in Hg. unfold in_int64. split; lia.
    + intros fs Hf. rewrite (Hev fs Hf). apply fs_of_faithful.
Qed.

Definition demo_content : slice := lit "hello, world".
Definition demo_env (range : slice) (head : bool) : conn_env :=
  mkConnEnv 7 (mkRoute (lit "1:x") (lit "f") false (-1) true range head)
    (mkConfig true 4 100 30 60 (1024 * 1024) 0 []) true (lit "127.0.0.1").
Definition demo_fs : fs_view := fs_of demo_content.
Definition demo_ready : list event :=
  [EvClient; EvReady demo_fs 5 12 (lit "/tmp/f") 0 12 true; EvHeadersFlushed (Ok tt)].
Definition demo_conn (head : bool) (evs : list event) : option conn :=
  run (demo_env (lit "bytes=2-9") head) evs (start_up (demo_env (lit "bytes=2-9") head) new_conn).

(** The file system of every event of a demonstration is [demo_fs]. *)
Definition demo_event (ev : event) : Prop := ∀ fs, event_fs ev = Some fs → fs = demo_fs.
Lemma demo_event_none ev : event_fs ev = None → demo_event ev.
Proof. intros E fs. by rewrite E. Qed.
Lemma demo_event_some ev : event_fs ev = Some demo_fs → demo_event ev.
Proof. intros E fs. rewrite E. by intros [= <-]. Qed.
Lemma demo_event_cons ev evs : demo_event ev → Forall demo_event evs → Forall demo_event (ev :: evs).
Proof. by constructor. Qed.
Ltac demo_fs_only :=
  unfold demo_ready; cbn [app];
  repeat (apply demo_event_cons;
          [solve [apply demo_event_none; reflexivity|apply demo_event_some; reflexivity]|]);
  apply List.Forall_nil.

Lemma demo_reach head evs c :
  demo_conn head evs = Some c →
  Forall demo_event evs →
  reach (demo_env (lit "bytes=2-9") head) demo_content c.
Proof. intros H Hfs. eapply run_reach; [constructor|exact Hfs|exact H]. Qed.

Lemma stream_body_exact_witness :
  ∃ c, demo_conn false (demo_ready ++ [EvChunkFlushed demo_fs (Ok tt); EvChunkFlushed demo_fs (Ok tt)]) = Some c
       ∧ completed_ok_ c = true
       ∧ ∃ n, wrote (demo_env (lit "bytes=2-9") false) demo_content c n ∧ (completed_ok_ c = true → n = 8).
Proof.
  destruct (demo_conn false (demo_ready ++ [EvChunkFlushed demo_fs (Ok tt); EvChunkFlushed demo_fs (Ok tt)]))
    as [c|] eqn:E; [|vm_compute in E; discriminate].
  exists c. split; [reflexivity|].
  pose proof (stream_body_exact _ _ c (demo_reach _ _ _ E ltac:(demo_fs_only))) as H.
  vm_compute in E. injection E as <-. split; [reflexivity|exact H].
Defined.

Lemma stream_ends_once_witness :
  ∃ c, demo_conn false (demo_ready ++ [EvTimeout; EvChunkFlushed demo_fs (Ok tt)]) = Some c
       ∧ finished_ c = true ∧ connection_ c = false.
Proof.
  destruct (demo_conn false (demo_ready ++ [EvTimeout; EvChunkFlushed demo_fs (Ok tt)]))
    as [c|] eqn:E; [|vm_compute in E; discriminate].
  exists c. split; [reflexivity|].
  pose proof (stream_ends_once _ _ c (demo_reach _ _ _ E ltac:(demo_fs_only))) as [H _].
  assert (finished_ c = true) as Hf by (vm_compute in E; injection E as <-; reflexivity).
  rewrite Hf in H. split; [exact Hf|exact (proj1 H)].
Defined.

Lemma stream_releases_files_witness :
  ∃ c, demo_conn false demo_ready = Some c
       ∧ balance (lit "/tmp/f") (outs c) = 1
       ∧ balance (lit "/tmp/f") (outs (tear_down (demo_env (lit "bytes=2-9") false) c)) = 0.
Proof.
  destruct (demo_conn false demo_ready) as [c|] eqn:E; [|vm_compute in E; discriminate].
  exists c. split; [reflexivity|].
  pose proof (stream_releases_files _ _ c (lit "/tmp/f") (demo_reach _ _ _ E ltac:(demo_fs_only))) as (_ & H & _).
  split; [|exact H]. vm_compute in E. injection E as <-. reflexivity.
Defined.

Lemma demo_complete : fs_complete demo_content demo_fs.
Proof. split; done. Qed.

Lemma stream_finishes_witness :
  ∃ c, demo_conn false demo_ready = Some c
       ∧ finished_ (Nat.iter (Z.to_nat (remaining c)) (flush (demo_env (lit "bytes=2-9") false) demo_fs) c) = true.
Proof.
  destruct (demo_conn false demo_ready) as [c|] eqn:E; [|vm_compute in E; discriminate].
  exists c. split; [reflexivity|].
  refine (proj1 (stream_finishes _ demo_content demo_fs c (demo_reach _ _ _ E ltac:(demo_fs_only))
    _ _ _ demo_complete _ _ _ _));
    vm_compute in E; injection E as <-; vm_compute; reflexivity || discriminate || congruence.
Defined.

(** A HEAD request can be answered with body bytes: progress reports start reads without the test for a
    HEAD request that the ready handler has. *)
Theorem head_request_can_stream_body :
  ∃ e content c data,
    fr_head_only (route_ e) = true ∧ reach e content c ∧ WriteChunk data ∈ outs c ∧ data ≠ []
    ∧ (∀ c', on_file_ready e demo_fs 5 12 (lit "/tmp/f") 0 12 true (start_up e new_conn) = Some c' →
         ∀ d, WriteChunk d ∉ outs c').
Proof.
  destruct (demo_conn true [EvReady demo_fs 5 12 (lit "/tmp/f") 0 12 true;
                            EvProgress demo_fs 12 (lit "/tmp/f") 0 12 true false]) as [c|] eqn:E;
    [|vm_compute in E; discriminate].
  exists (demo_env (lit "bytes=2-9") true), demo_content, c, (lit "llo,"). split_and!.
  - done.
  - eapply demo_reach; [exact E|]. demo_fs_only.
  - vm_compute in E. injection E as <-. apply list_elem_of_In. vm_compute. tauto.
  - done.
  - intros c' Hc d Hin. vm_compute in Hc. injection Hc as <-. apply list_elem_of_In in Hin.
    vm_compute in Hin. intuition discriminate.
Qed.
