(* ===== verification/Container.v ===== *)
(** * Object containers with generation-checked identifiers

    [td::Container] of [tdutils/td/utils/Container.h]: objects in a vector of
    slots, reached through 64-bit identifiers made of the slot number and the
    slot's generation.  The file states as a type class what the container
    promises to its clients (a finite map from live identifiers to objects
    whose fresh identifiers are new) and shows that the slots implement it;
    [ClientManager] and [ClientFiles] are proved against the class. *)

From S2P Require Import Prelude.

(** ** The interface *)

(** The operations a client uses.  [st_contents] is the specification view:
    the objects whose identifiers are in use.  [st_last id] holds of the last
    identifier a slot can have: erasing it retires the slot. *)
Class IdStore (A C : Type) := {
  st_empty : C;
  st_get : C → Z → option A;
  st_update : C → Z → (A → A) → C;
  st_create : C → A → option (Z * C);
  st_erase : C → Z → C;
  st_ids : C → list Z;
  st_is_empty : C → option bool;
  st_wf : C → Prop;
  st_last : Z → bool;
  st_room : C → nat → Prop;
  st_contents : C → gmap Z A
}.

Class IdStoreLaws (A C : Type) `{IdStore A C} : Prop := {
  st_empty_wf : st_wf st_empty;
  st_empty_contents : st_contents st_empty = ∅;
  st_get_live c id a : st_wf c → st_contents c !! id = Some a → st_get c id = Some a;
  st_update_wf c id f : st_wf c → st_wf (st_update c id f);
  st_update_contents c id f a :
    st_wf c → st_contents c !! id = Some a →
    st_contents (st_update c id f) = <[id := f a]> (st_contents c);
  st_create_wf c a id c' : st_wf c → st_create c a = Some (id, c') → st_wf c';
  st_create_contents c a id c' :
    st_wf c → st_create c a = Some (id, c') →
    id ≠ 0 ∧ st_contents c !! id = None ∧ st_contents c' = <[id := a]> (st_contents c);
  st_erase_wf c id : st_wf c → is_Some (st_contents c !! id) → st_wf (st_erase c id);
  st_erase_contents c id a :
    st_wf c → st_contents c !! id = Some a → st_last id = false →
    st_contents (st_erase c id) = delete id (st_contents c);
  st_ids_contents c id : st_wf c → (id ∈ st_ids c) ↔ is_Some (st_contents c !! id);
  st_is_empty_contents c :
    st_wf c → st_is_empty c = Some (bool_decide (st_contents c = ∅));
  st_ids_nodup c : st_wf c → NoDup (st_ids c);
  st_room_create c a n :
    st_wf c → st_room c (S n) → ∃ id c', st_create c a = Some (id, c') ∧ st_room c' n;
  st_room_update c id f n : st_room c n → st_room (st_update c id f) n;
  st_room_erase c id n : st_room c n → st_room (st_erase c id) n;
  st_room_le c n m : (m <= n)%nat → st_room c n → st_room c m
}.

(** ** The slots *)

Definition GENERATION_STEP : Z := Z.shiftl 1 8.
Definition TYPE_MASK : Z := Z.shiftl 1 8 - 1.
(** [~TYPE_MASK] of the 32-bit mask. *)
Definition NOT_TYPE_MASK : Z := Z.lxor TYPE_MASK (2 ^ 32 - 1).

Record slot (A : Type) := mkSlot { generation : Z; data : A }.
Arguments mkSlot {A} generation data.
Arguments generation {A} s.
Arguments data {A} s.

(** [empty_slots] lists the vector [empty_slots_] from its back to its front. *)
Record container (A : Type) := mkContainer { slots : list (slot A); empty_slots : list nat }.
Arguments mkContainer {A} slots empty_slots.
Arguments slots {A} c.
Arguments empty_slots {A} c.

Section Container.
Context {A : Type}.
(** The object [DataT()]. *)
Context (DataT : A).

Definition new_container : container A := mkContainer [] [].

Definition encode (i : nat) (gen : Z) : Z := Z.lor (Z.shiftl (Z.of_nat i) 32) gen.

(** [encode_id]: reading a slot out of the vector's range is undefined and is
    not done for the identifiers the operations build. *)
Definition encode_id (c : container A) (i : nat) : Z :=
  match slots c !! i with Some s => encode i (generation s) | None => 0 end.

Definition decode_id (c : container A) (id : Z) : option nat :=
  let slot_id := to_signed 32 (Z.shiftr id 32) in
  let gen := wrap 32 id in
  if (slot_id <? 0) || (slen (slots c) <=? slot_id) then None
  else match slots c !! Z.to_nat slot_id with
       | Some s => if gen =? generation s then Some (Z.to_nat slot_id) else None
       | None => None
       end.

Definition get (c : container A) (id : Z) : option A :=
  i ← decode_id c id; data <$> slots c !! i.

(** A write through the pointer [get(id)] returned. *)
Definition update (c : container A) (id : Z) (f : A → A) : container A :=
  match decode_id c id with
  | Some i => mkContainer (alter (fun s => mkSlot (generation s) (f (data s))) i (slots c)) (empty_slots c)
  | None => c
  end.

Definition inc_generation (c : container A) (i : nat) : container A :=
  mkContainer (alter (fun s => mkSlot (wrap 32 (generation s + GENERATION_STEP)) (data s)) i (slots c))
              (empty_slots c).

Definition release (c : container A) (i : nat) : container A :=
  let c1 := inc_generation c i in
  let c2 := mkContainer (alter (fun s => mkSlot (generation s) DataT) i (slots c1)) (empty_slots c1) in
  match slots c2 !! i with
  | Some s =>
      if Z.land (generation s) NOT_TYPE_MASK =? 0 then c2
      else mkContainer (slots c2) (i :: empty_slots c2)
  | None => c2
  end.

Definition erase (c : container A) (id : Z) : container A :=
  match decode_id c id with Some i => release c i | None => c end.

Definition extract (c : container A) (id : Z) : option (A * container A) :=
  i ← decode_id c id; a ← data <$> slots c !! i; Some (a, release c i).

Definition reset_id (c : container A) (id : Z) : option (Z * container A) :=
  i ← decode_id c id; let c' := inc_generation c i in Some (encode_id c' i, c').

(** [type] is a byte. *)
Definition store (c : container A) (a : A) (type : Z) : option (nat * container A) :=
  match empty_slots c with
  | pos :: empty' =>
      let set_slot s :=
        mkSlot (Z.lxor (generation s) (Z.lxor (Z.land (generation s) TYPE_MASK) type)) a in
      Some (pos, mkContainer (alter set_slot pos (slots c)) empty')
  | [] =>
      if slen (slots c) <=? INT32_MAX
      then Some (length (slots c), mkContainer (slots c ++ [mkSlot (GENERATION_STEP + type) a]) [])
      else None
  end.

Definition create (c : container A) (a : A) (type : Z) : option (Z * container A) :=
  '(i, c') ← store c a type; Some (encode_id c' i, c').

Definition type_from_id (id : Z) : Z := wrap 8 id.

Definition is_bad (c : container A) (i : nat) : bool := bool_decide (i ∈ empty_slots c).

Definition ids (c : container A) : list Z :=
  encode_id c <$> List.filter (fun i => negb (is_bad c i)) (seq 0 (length (slots c))).

(** [None]: the [CHECK] of [size] fails. *)
Definition size (c : container A) : option Z :=
  if slen (empty_slots c) <=? slen (slots c) then Some (slen (slots c) - slen (empty_slots c)) else None.

Definition empty (c : container A) : option bool := (fun n => n =? 0) <$> size c.

(** ** Specification view *)

Record container_ok (c : container A) : Prop := {
  co_len : slen (slots c) <= 2 ^ 31;
  co_gen : Forall (fun s => 0 <= generation s < 2 ^ 32) (slots c);
  co_nodup : NoDup (empty_slots c);
  co_empty : Forall (fun i => ∃ s, slots c !! i = Some s ∧ generation s / 256 ≠ 0) (empty_slots c)
}.

Definition contents (c : container A) : gmap Z A :=
  list_to_map (omap (fun i => if is_bad c i then None
                              else (fun s => (encode_id c i, data s)) <$> slots c !! i)
                    (seq 0 (length (slots c)))).

(** The last identifier of a slot: one more release makes its generation
    overflow. *)
Definition last_id (id : Z) : bool := wrap 32 id / 256 =? 2 ^ 24 - 1.

End Container.

(** Operations of a container's life, the identifiers [create] returns kept
    in [issued], newest first. *)
Inductive store_op (A : Type) :=
| OpCreate (a : A) (type : Z)
| OpErase (id : Z)
| OpUpdate (id : Z) (f : A → A).
Arguments OpCreate {A} a type.
Arguments OpErase {A} id.
Arguments OpUpdate {A} id f.

Definition store_step {A} (dflt : A) (st : container A * list Z) (op : store_op A) :
  option (container A * list Z) :=
  let '(c, issued) := st in
  match op with
  | OpCreate a type => '(id, c') ← create c a type; Some (c', id :: issued)
  | OpErase id => Some (erase dflt c id, issued)
  | OpUpdate id f => Some (update c id f, issued)
  end.

Fixpoint store_run {A} (dflt : A) (ops : list (store_op A)) (st : container A * list Z) :
  option (container A * list Z) :=
  match ops with
  | [] => Some st
  | op :: ops' => st' ← store_step dflt st op; store_run dflt ops' st'
  end.

(** An operation names identifiers the container gave out, erased or not. *)
Definition op_ok {A} (issued : list Z) (op : store_op A) : Prop :=
  match op with
  | OpCreate _ type => 0 <= type < 256
  | OpErase id | OpUpdate id _ => id ∈ issued
  end.

Fixpoint store_run_ok {A} (dflt : A) (ops : list (store_op A)) (st : container A * list Z) : Prop :=
  match ops with
  | [] => True
  | op :: ops' =>
      op_ok (snd st) op ∧
      match store_step dflt st op with Some st' => store_run_ok dflt ops' st' | None => True end
  end.

(** The reference: a map from the identifiers given out to the objects. *)
Definition map_step {A} (m : gmap Z A) (op : store_op A) (id : Z) : gmap Z A :=
  match op with
  | OpCreate a _ => <[id := a]> m
  | OpErase id' => delete id' m
  | OpUpdate id' f => alter f id' m
  end.

Fixpoint map_run {A} (dflt : A) (ops : list (store_op A)) (st : container A * list Z) (m : gmap Z A) :
  gmap Z A :=
  match ops with
  | [] => m
  | op :: ops' =>
      match store_step dflt st op with
      | Some st' => map_run dflt ops' st' (map_step m op (default 0 (head (snd st'))))
      | None => m
      end
  end.

(** ** Identifiers *)

Lemma land_shifted i g : 0 <= g < 2 ^ 32 → Z.land (Z.shiftl (Z.of_nat i) 32) g = 0.
Proof.
  intros Hg. apply Z.bits_inj'. intros n Hn. rewrite Z.land_spec, Z.bits_0, Z.shiftl_spec by done.
  destruct (decide (n < 32)); [by rewrite Z.testbit_neg_r by lia|].
  rewrite (Z.bits_above_log2 g n); [by rewrite andb_false_r|lia|].
  destruct (decide (g = 0)) as [->|]; [simpl; lia|].
  apply Z.log2_lt_pow2; [lia|]. apply Z.lt_le_trans with (2 ^ 32); [lia|].
  apply Z.pow_le_mono_r; lia.
Qed.

Lemma encode_sum i g : 0 <= g < 2 ^ 32 → encode i g = Z.of_nat i * 2 ^ 32 + g.
Proof.
  intros Hg. pose proof (land_shifted i g Hg) as Hl. unfold encode.
  rewrite <- Z.lxor_lor, <- Z.add_nocarry_lxor by done. by rewrite Z.shiftl_mul_pow2 by lia.
Qed.

Lemma encode_inj i g j h :
  0 <= g < 2 ^ 32 → 0 <= h < 2 ^ 32 → encode i g = encode j h → i = j ∧ g = h.
Proof. intros ??. rewrite !encode_sum by done. lia. Qed.

Lemma encode_slot i g : 0 <= g < 2 ^ 32 → Z.shiftr (encode i g) 32 = Z.of_nat i.
Proof. intros. rewrite encode_sum, Z.shiftr_div_pow2 by lia.
  rewrite Z.div_add_l, Z.div_small by lia. lia. Qed.

Lemma encode_gen i g : 0 <= g < 2 ^ 32 → wrap 32 (encode i g) = g.
Proof. intros. unfold wrap. rewrite encode_sum by lia.
  rewrite Z.add_comm, Z.mod_add by lia. by apply Z.mod_small. Qed.

(** The generation counts in steps of 256: its low byte is the type. *)
Lemma land_type_mask g : 0 <= g → Z.land g TYPE_MASK = g mod 256.
Proof. intros. change TYPE_MASK with (Z.ones 8). by rewrite Z.land_ones by lia. Qed.

Lemma land_not_type_mask g : 0 <= g < 2 ^ 32 → (Z.land g NOT_TYPE_MASK =? 0) = (g / 256 =? 0).
Proof.
  intros Hg. assert (Z.land g NOT_TYPE_MASK = g / 256 * 256) as ->; [|lia].
  change NOT_TYPE_MASK with (Z.shiftl (Z.ones 24) 8).
  change 256 with (2 ^ 8). rewrite <- Z.shiftr_div_pow2, <- Z.shiftl_mul_pow2 by lia.
  rewrite <- (Z.land_ones_low (Z.shiftr g 8) 24), Z.shiftl_land; [|apply Z.shiftr_nonneg; lia|].
  2:{ rewrite Z.shiftr_div_pow2 by lia. destruct (decide (g / 2 ^ 8 = 0)) as [->|]; [simpl; lia|].
      assert (0 <= g / 2 ^ 8 < 2 ^ 24).
      { split; [apply Z.div_pos; lia|apply Z.div_lt_upper_bound; lia]. }
      apply Z.log2_lt_pow2; lia. }
  apply Z.bits_inj'. intros n Hn. rewrite !Z.land_spec, !Z.shiftl_spec by done.
  destruct (decide (n < 8)); [rewrite !(Z.testbit_neg_r _ (n - 8)) by lia; by rewrite !andb_false_r|].
  rewrite Z.shiftr_spec by lia. do 2 f_equal. lia.
Qed.

Lemma set_type g type :
  0 <= g → 0 <= type < 256 →
  Z.lxor g (Z.lxor (Z.land g TYPE_MASK) type) = g / 256 * 256 + type.
Proof.
  intros Hg Ht. rewrite land_type_mask by done.
  assert (Hs : ∀ a b, 0 <= b < 256 → a * 256 + b = Z.lxor (Z.shiftl a 8) b).
  { intros a b Hb. rewrite <- Z.add_nocarry_lxor; [by rewrite Z.shiftl_mul_pow2 by lia|].
    apply Z.bits_inj'. intros n Hn. rewrite Z.land_spec, Z.bits_0, Z.shiftl_spec by done.
    destruct (decide (n < 8)); [by rewrite Z.testbit_neg_r by lia|].
    rewrite (Z.bits_above_log2 b n); [by rewrite andb_false_r|lia|].
    destruct (decide (b = 0)) as [->|]; [simpl; lia|].
    apply Z.log2_lt_pow2; [lia|]. apply Z.lt_le_trans with (2 ^ 8); [lia|].
    apply Z.pow_le_mono_r; lia. }
  rewrite (Hs (g / 256) type Ht).
  replace g with (g / 256 * 256 + g mod 256) at 1
    by (rewrite (Z.div_mod g 256) at 3 by done; ring).
  rewrite Hs by (apply Z.mod_pos_bound; done).
  rewrite Z.lxor_assoc, <- (Z.lxor_assoc (g mod 256)), Z.lxor_nilpotent. by rewrite Z.lxor_0_l.
Qed.

(** A slot in use. *)
Definition live {A} (c : container A) (i : nat) (s : slot A) : Prop :=
  slots c !! i = Some s ∧ i ∉ empty_slots c.

Section Facts.
Context {A : Type} (dflt : A).
Implicit Types (c : container A) (s : slot A).

Lemma slot_index c i s : container_ok c → slots c !! i = Some s → 0 <= generation s < 2 ^ 32 ∧ Z.of_nat i < 2 ^ 31.
Proof.
  intros Hok Hi. pose proof (co_len _ Hok). apply lookup_lt_Some in Hi as Hlt.
  pose proof (co_gen _ Hok) as Hg. rewrite Forall_lookup in Hg. specialize (Hg _ _ Hi).
  unfold slen in *. lia.
Qed.

Lemma decode_encode c i g :
  container_ok c → Z.of_nat i < 2 ^ 31 → 0 <= g < 2 ^ 32 →
  decode_id c (encode i g) =
  match slots c !! i with Some s => if g =? generation s then Some i else None | None => None end.
Proof.
  intros Hok Hi Hg. unfold decode_id. rewrite encode_slot, encode_gen by done.
  assert (to_signed 32 (Z.of_nat i) = Z.of_nat i) as ->.
  { unfold to_signed. rewrite wrap_small by lia. change (32 - 1) with 31.
    by destruct (Z.ltb_spec (Z.of_nat i) (2 ^ 31)); [|lia]. }
  rewrite Nat2Z.id. destruct (Z.ltb_spec (Z.of_nat i) 0); [lia|].
  destruct (Z.leb_spec (slen (slots c)) (Z.of_nat i)) as [Hle|]; simpl; [|done].
  rewrite lookup_ge_None_2; [done|]. unfold slen in Hle. lia.
Qed.

Lemma decode_slot c id i : decode_id c id = Some i → ∃ s, slots c !! i = Some s.
Proof.
  unfold decode_id. destruct (_ || _); [done|].
  destruct (slots c !! _) as [s|] eqn:Hs; [|done].
  destruct (_ =? _); [|done]. intros [= <-]. eauto.
Qed.

Lemma encode_id_eq c i s : slots c !! i = Some s → encode_id c i = encode i (generation s).
Proof. unfold encode_id. by intros ->. Qed.

Lemma elem_keys c id a :
  ((id, a) ∈ omap (fun i => if is_bad c i then None
                            else ((fun s => (encode_id c i, data s)) <$> slots c !! i))
                  (seq 0 (length (slots c)))) ↔
  ∃ i s, slots c !! i = Some s ∧ (i ∉ empty_slots c) ∧ id = encode i (generation s) ∧ a = data s.
Proof.
  rewrite list_elem_of_omap. unfold is_bad. setoid_rewrite elem_of_seq. split.
  - intros (i & _ & Hi). case_bool_decide as Hb; [done|].
    destruct (slots c !! i) as [s|] eqn:Hs; [|done]. injection Hi as <- <-.
    rewrite (encode_id_eq c i s Hs). eauto 10.
  - intros (i & s & Hs & Hb & -> & ->). exists i. split.
    + apply lookup_lt_Some in Hs. lia.
    + rewrite bool_decide_eq_false_2 by done. rewrite Hs. simpl. by rewrite (encode_id_eq c i s).
Qed.

Lemma lookup_contents c id a :
  container_ok c →
  ((contents c !! id) = Some a) ↔
  ∃ i s, slots c !! i = Some s ∧ (i ∉ empty_slots c) ∧ id = encode i (generation s) ∧ a = data s.
Proof.
  intros Hok. rewrite <- elem_keys. symmetry. apply elem_of_list_to_map.
  apply (NoDup_fmap_fst _).
  - intros k a1 a2 H1 H2. apply elem_keys in H1 as (i & s & Hs & _ & -> & ->).
    apply elem_keys in H2 as (j & t & Ht & _ & Hij & ->).
    destruct (slot_index c i s Hok Hs), (slot_index c j t Hok Ht).
    apply encode_inj in Hij as [-> _]; [|done..]. congruence.
  - apply NoDup_omap_inj; [|apply NoDup_seq].
    intros i j p. unfold is_bad. case_bool_decide; [done|]. case_bool_decide; [done|].
    destruct (slots c !! i) as [s|] eqn:Hs; [|done].
    destruct (slots c !! j) as [t|] eqn:Ht; [|done].
    rewrite (encode_id_eq c i s Hs), (encode_id_eq c j t Ht). intros [= <-] [= Hij _].
    destruct (slot_index c i s Hok Hs), (slot_index c j t Hok Ht).
    by apply encode_inj in Hij as [-> _].
Qed.

(** *** The state after each operation *)

Definition freed s : slot A := mkSlot (wrap 32 (generation s + GENERATION_STEP)) dflt.

Lemma release_eq c i s :
  slots c !! i = Some s →
  release dflt c i =
  mkContainer (<[i := freed s]> (slots c))
    (if Z.land (generation (freed s)) NOT_TYPE_MASK =? 0 then empty_slots c else i :: empty_slots c).
Proof.
  intros Hs. unfold release, inc_generation. simpl.
  rewrite list_alter_alter_eq, (list_alter_insert_eq _ _ _ s) by done. simpl.
  rewrite list_lookup_insert_eq by (by apply lookup_lt_Some in Hs).
  unfold freed. simpl. by destruct (_ =? 0).
Qed.

Lemma freed_range s : 0 <= generation (freed s) < 2 ^ 32.
Proof. unfold freed. simpl. apply wrap_range. lia. Qed.
(** *** How a change of one slot shows in the contents *)

Lemma contents_live c id a :
  container_ok c →
  ((contents c !! id) = Some a) ↔ ∃ i s, live c i s ∧ id = encode i (generation s) ∧ a = data s.
Proof. intros Hok. rewrite lookup_contents by done. unfold live. naive_solver. Qed.

Lemma live_inj c i s j t :
  container_ok c → live c i s → live c j t → encode i (generation s) = encode j (generation t) → i = j ∧ s = t.
Proof.
  intros Hok [Hs _] [Ht _] He. destruct (slot_index c i s Hok Hs), (slot_index c j t Hok Ht).
  apply encode_inj in He as [-> _]; [|done..]. split; congruence.
Qed.

Lemma contents_insert c c' i s' :
  container_ok c → container_ok c' →
  (∀ j t, j ≠ i → live c' j t ↔ live c j t) →
  live c' i s' → (∀ s, live c i s → generation s = generation s') →
  contents c' = <[encode i (generation s') := data s']> (contents c).
Proof.
  intros Hok Hok' Hother Hs' Hsame. apply map_eq. intros k. apply option_eq. intros b.
  rewrite contents_live by done. rewrite lookup_insert_Some, contents_live by done. split.
  - intros (j & t & Ht & -> & ->). destruct (decide (j = i)) as [->|Hne].
    + left. assert (t = s') as -> by (destruct Hs', Ht; congruence). done.
    + right. split; [|exists j, t; split; [by apply Hother|done]].
      intros He. by destruct (live_inj c' i s' j t Hok' Hs' Ht He).
  - intros [[<- <-]|[Hne (j & t & Ht & -> & ->)]]; [by exists i, s'|].
    exists j, t. split; [|done]. apply Hother; [|done]. intros ->. apply Hne. by rewrite (Hsame t Ht).
Qed.

Lemma contents_delete c c' i s :
  container_ok c → container_ok c' →
  (∀ j t, j ≠ i → live c' j t ↔ live c j t) →
  live c i s → (∀ t, ¬ live c' i t) →
  contents c' = delete (encode i (generation s)) (contents c).
Proof.
  intros Hok Hok' Hother Hs Hdead. apply map_eq. intros k. apply option_eq. intros b.
  rewrite contents_live by done. rewrite lookup_delete_Some, contents_live by done. split.
  - intros (j & t & Ht & -> & ->). destruct (decide (j = i)) as [->|Hne]; [by destruct (Hdead t)|].
    split; [|exists j, t; split; [by apply Hother|done]]. intros He.
    by destruct (live_inj c i s j t Hok Hs (proj1 (Hother j t Hne) Ht) He).
  - intros [Hne (j & t & Ht & -> & ->)]. exists j, t. split; [|done]. apply Hother; [|done].
    intros ->. apply Hne. assert (t = s) as -> by (destruct Hs, Ht; congruence). done.
Qed.

Lemma get_live c i s : container_ok c → live c i s → decode_id c (encode i (generation s)) = Some i.
Proof.
  intros Hok [Hs _]. destruct (slot_index c i s Hok Hs).
  rewrite decode_encode by done. by rewrite Hs, Z.eqb_refl.
Qed.

(** *** The operations *)

Lemma set_slot_ok c i s s' e' :
  container_ok c → slots c !! i = Some s → 0 <= generation s' < 2 ^ 32 → NoDup e' →
  (∀ j, j ∈ e' → j = i ∧ generation s' / 256 ≠ 0 ∨ j ≠ i ∧ j ∈ empty_slots c) →
  container_ok (mkContainer (<[i := s']> (slots c)) e').
Proof.
  intros Hok Hs Hg Hnd He. split; simpl.
  - unfold slen. rewrite length_insert. apply (co_len _ Hok).
  - apply Forall_insert; [apply (co_gen _ Hok)|done].
  - done.
  - apply Forall_forall. intros j Hj. apply lookup_lt_Some in Hs as Hlt.
    destruct (He j Hj) as [[-> Hhi]|[Hne Hj']].
    + exists s'. split; [by apply list_lookup_insert_eq|done].
    + rewrite list_lookup_insert_ne by done.
      pose proof (co_empty _ Hok) as Hf. rewrite Forall_forall in Hf. by apply Hf.
Qed.

Lemma new_container_ok : container_ok (@new_container A).
Proof. split; simpl; [done|constructor..]. Qed.

Lemma update_eq c id f i s :
  decode_id c id = Some i → slots c !! i = Some s →
  update c id f = mkContainer (<[i := mkSlot (generation s) (f (data s))]> (slots c)) (empty_slots c).
Proof. intros Hd Hs. unfold update. rewrite Hd. by rewrite (list_alter_insert_eq _ _ _ s Hs). Qed.

Lemma update_ok c id f : container_ok c → container_ok (update c id f).
Proof.
  intros Hok. destruct (decode_id c id) as [i|] eqn:Hd; [|by unfold update; rewrite Hd].
  destruct (decode_slot c id i Hd) as [s Hs]. rewrite (update_eq _ _ _ _ _ Hd Hs).
  destruct (slot_index c i s Hok Hs).
  eapply set_slot_ok; [done..|apply (co_nodup _ Hok)|].
  intros j Hj. destruct (decide (j = i)) as [->|]; [left|by right].
  split; [done|]. pose proof (co_empty _ Hok) as Hf. rewrite Forall_forall in Hf.
  destruct (Hf i Hj) as (t & Ht & Hhi). simpl. congruence.
Qed.

Lemma update_contents c id f a :
  container_ok c → contents c !! id = Some a →
  contents (update c id f) = <[id := f a]> (contents c).
Proof.
  intros Hok (i & s & Hs & -> & ->)%contents_live; [|done].
  pose proof (update_ok c (encode i (generation s)) f Hok) as Hok'.
  rewrite (update_eq _ _ f _ _ (get_live c i s Hok Hs) (proj1 Hs)) in Hok' |- *.
  destruct Hs as [Hs Hi]. apply lookup_lt_Some in Hs as Hlt.
  apply (contents_insert c _ i (mkSlot (generation s) (f (data s)))); [done..| | |].
  - intros j t Hne. unfold live. simpl. by rewrite list_lookup_insert_ne by done.
  - split; simpl; [by apply list_lookup_insert_eq|done].
  - intros t [Ht _]. simpl. congruence.
Qed.

Lemma release_ok c i s : container_ok c → live c i s → container_ok (release dflt c i).
Proof.
  intros Hok [Hs Hi]. rewrite (release_eq c i s Hs).
  pose proof (freed_range s) as Hg. rewrite land_not_type_mask by done.
  destruct (Z.eqb_spec (generation (freed s) / 256) 0).
  - eapply set_slot_ok; [done..|apply (co_nodup _ Hok)|]. intros j Hj. right. split; congruence.
  - eapply set_slot_ok; [done..| |].
    + constructor; [done|apply (co_nodup _ Hok)].
    + intros j [->|Hj]%elem_of_cons; [by left|right]. split; congruence.
Qed.

Lemma erase_eq c i s : container_ok c → live c i s → erase dflt c (encode i (generation s)) = release dflt c i.
Proof. intros Hok Hs. unfold erase. by rewrite (get_live c i s Hok Hs). Qed.

Lemma last_id_spec s :
  0 <= generation s < 2 ^ 32 → ∀ i, last_id (encode i (generation s)) = (generation (freed s) / 256 =? 0).
Proof.
  intros Hg i. unfold last_id. rewrite encode_gen by done. unfold freed, wrap, GENERATION_STEP.
  cbn [generation]. change (Z.shiftl 1 8) with 256.
  apply eq_true_iff_eq. rewrite !Z.eqb_eq. Z.to_euclidean_division_equations. lia.
Qed.

Lemma release_others c i s j t :
  slots c !! i = Some s → j ≠ i → live (release dflt c i) j t ↔ live c j t.
Proof.
  intros Hs Hne. rewrite (release_eq c i s Hs). unfold live. simpl.
  rewrite list_lookup_insert_ne by done. destruct (_ =? 0); [done|].
  rewrite not_elem_of_cons. naive_solver.
Qed.

Lemma erase_contents c id a :
  container_ok c → contents c !! id = Some a → last_id id = false →
  contents (erase dflt c id) = delete id (contents c).
Proof.
  intros Hok (i & s & Hs & -> & ->)%contents_live Hlast; [|done].
  destruct (slot_index c i s Hok (proj1 Hs)) as [Hg Hi].
  rewrite last_id_spec in Hlast by done. rewrite erase_eq by done.
  apply contents_delete; [done|by eapply release_ok| |done|].
  - intros j t Hne. by apply (release_others c i s j t (proj1 Hs)).
  - intros t [_ Ht]. rewrite (release_eq c i s (proj1 Hs)) in Ht. cbn [empty_slots] in Ht.
    rewrite land_not_type_mask, Hlast in Ht by apply freed_range. set_solver.
Qed.

(** What [store] did: the slot [s'] at [i] is the only change. *)
Record stored c (a : A) (type : Z) (i : nat) c' s' : Prop := {
  sd_ok : container_ok c';
  sd_live : live c' i s';
  sd_data : data s' = a;
  sd_type : generation s' mod 256 = type;
  sd_hi : generation s' / 256 ≠ 0;
  sd_dead s : ¬ live c i s;
  sd_other j t : j ≠ i → live c' j t ↔ live c j t;
  sd_old s : slots c !! i = Some s → i ∈ empty_slots c ∧ generation s' / 256 = generation s / 256;
  sd_slots j t : j ≠ i → slots c' !! j = Some t ↔ slots c !! j = Some t
}.

Lemma store_new c a type :
  container_ok c → 0 <= type < 256 → empty_slots c = [] → slen (slots c) <= INT32_MAX →
  stored c a type (length (slots c))
    (mkContainer (slots c ++ [mkSlot (GENERATION_STEP + type) a]) []) (mkSlot (GENERATION_STEP + type) a).
Proof.
  intros Hok Ht He Hle. unfold GENERATION_STEP. change (Z.shiftl 1 8) with 256.
  assert (Hdiv : (256 + type) / 256 = 1 ∧ (256 + type) mod 256 = type)
    by (Z.to_euclidean_division_equations; lia).
  destruct Hdiv as [Hd Hm].
  assert (Hnone : slots c !! length (slots c) = None) by (by apply lookup_ge_None_2).
  assert (Hold : ∀ j t, j ≠ length (slots c) →
    (slots c ++ [mkSlot (256 + type) a]) !! j = Some t ↔ slots c !! j = Some t).
  { intros j t Hne. rewrite lookup_app_Some. simpl. split; [|by left].
    intros [?|[? Hj]]; [done|]. apply list_lookup_singleton_Some in Hj. lia. }
  split; simpl; try done.
  - split; simpl; [|apply Forall_app; split; [apply (co_gen _ Hok)|repeat constructor; simpl; lia]|constructor..].
    rewrite slen_app. unfold INT32_MAX, slen in *. simpl. lia.
  - split; simpl; [|set_solver]. rewrite lookup_app_r, Nat.sub_diag by lia. done.
  - simpl. by rewrite Hd.
  - by intros s [Hs _]; rewrite Hnone in Hs.
  - intros j t Hne. unfold live. simpl. rewrite Hold, He by done. done.
  - rewrite Hnone. done.
Qed.

Lemma store_reuse c a type pos e :
  container_ok c → 0 <= type < 256 → empty_slots c = pos :: e →
  ∃ s', stored c a type pos (mkContainer (<[pos := s']> (slots c)) e) s' ∧
        store c a type = Some (pos, mkContainer (<[pos := s']> (slots c)) e).
Proof.
  intros Hok Ht He.
  pose proof (co_empty _ Hok) as Hf. rewrite He, Forall_cons in Hf. destruct Hf as [(s & Hs & Hhi) _].
  pose proof (co_nodup _ Hok) as Hnd. rewrite He, NoDup_cons in Hnd. destruct Hnd as [Hpos Hnd].
  destruct (slot_index c pos s Hok Hs) as [Hg Hi]. apply lookup_lt_Some in Hs as Hlt.
  exists (mkSlot (generation s / 256 * 256 + type) a).
  assert (Hdiv : (generation s / 256 * 256 + type) / 256 = generation s / 256 ∧
                 (generation s / 256 * 256 + type) mod 256 = type ∧
                 0 <= generation s / 256 * 256 + type < 2 ^ 32)
    by (Z.to_euclidean_division_equations; lia).
  destruct Hdiv as (Hd & Hm & Hr). split.
  - split; simpl; try done.
    + eapply set_slot_ok; [done..|]. intros j Hj. right. rewrite He. split; [congruence|by right].
    + split; simpl; [by apply list_lookup_insert_eq|done].
    + simpl. by rewrite Hd.
    + intros t [_ Hn]. rewrite He in Hn. set_solver.
    + intros j t Hne. unfold live. simpl. rewrite list_lookup_insert_ne, He, not_elem_of_cons by done. naive_solver.
    + intros t Ht'. rewrite He. simpl. rewrite Hd. split; [left|congruence].
    + intros j t Hne. by rewrite list_lookup_insert_ne by done.
  - unfold store. rewrite He. cbv zeta. rewrite (list_alter_insert_eq _ _ _ s Hs).
    by rewrite set_type by lia.
Qed.

Lemma store_spec c a type i c' :
  container_ok c → 0 <= type < 256 → store c a type = Some (i, c') → ∃ s', stored c a type i c' s'.
Proof.
  intros Hok Ht. destruct (empty_slots c) as [|pos e] eqn:He.
  - unfold store. rewrite He. destruct (Z.leb_spec (slen (slots c)) INT32_MAX); [|done].
    intros [= <- <-]. eexists. by apply store_new.
  - destruct (store_reuse c a type pos e Hok Ht He) as (s' & Hst & ->). intros [= <- <-]. eauto.
Qed.

Lemma create_spec c a type id c' :
  container_ok c → 0 <= type < 256 → create c a type = Some (id, c') →
  ∃ i s', stored c a type i c' s' ∧ id = encode i (generation s').
Proof.
  intros Hok Ht. unfold create. destruct (store c a type) as [[i c1]|] eqn:Hst; [|done].
  intros [= <- <-]. destruct (store_spec _ _ _ _ _ Hok Ht Hst) as [s' Hs']. exists i, s'.
  split; [done|]. apply encode_id_eq, (sd_live _ _ _ _ _ _ Hs').
Qed.

Lemma create_contents c a type id c' :
  container_ok c → 0 <= type < 256 → create c a type = Some (id, c') →
  id ≠ 0 ∧ contents c !! id = None ∧ contents c' = <[id := a]> (contents c).
Proof.
  intros Hok Ht (i & s' & [] & ->)%create_spec; [|done..].
  destruct (slot_index c' i s' sd_ok0 (proj1 sd_live0)) as [Hg Hi]. repeat split.
  - rewrite encode_sum by done. intros H0.
    assert (generation s' = 0) as E by lia. by rewrite E in sd_hi0.
  - apply eq_None_not_Some. intros [b (j & t & Hj & He & ->)%contents_live]; [|done].
    destruct (slot_index c j t Hok (proj1 Hj)).
    apply encode_inj in He as [<- _]; [|done..]. by destruct (sd_dead0 t).
  - rewrite <- sd_data0. apply contents_insert; [done..|].
    intros t Ht'. by destruct (sd_dead0 t).
Qed.

Lemma create_total c a type : slen (slots c) <= INT32_MAX → ∃ id c', create c a type = Some (id, c').
Proof.
  intros Hle. unfold create, store. destruct (empty_slots c); [|simpl; eauto].
  destruct (Z.leb_spec (slen (slots c)) INT32_MAX); [simpl; eauto|lia].
Qed.

(** *** Enumeration *)

Lemma ids_nodup c : container_ok c → NoDup (ids c).
Proof.
  intros Hok. unfold ids. apply NoDup_fmap_2_strong; [|apply NoDup_ListNoDup, List.NoDup_filter, NoDup_ListNoDup, NoDup_seq].
  intros i j Hi Hj E. apply list_elem_of_In, filter_In in Hi as [Hi _]. apply list_elem_of_In, filter_In in Hj as [Hj _].
  apply list_elem_of_In, elem_of_seq in Hi. apply list_elem_of_In, elem_of_seq in Hj.
  destruct (lookup_lt_is_Some_2 (slots c) i) as [s Hs]; [lia|]. destruct (lookup_lt_is_Some_2 (slots c) j) as [t Ht]; [lia|].
  rewrite (encode_id_eq c i s Hs), (encode_id_eq c j t Ht) in E.
  destruct (slot_index c i s Hok Hs), (slot_index c j t Hok Ht). apply encode_inj in E as [-> _]; done.
Qed.

Lemma elem_of_ids c id : container_ok c → (id ∈ ids c) ↔ is_Some (contents c !! id).
Proof.
  intros Hok. unfold ids. rewrite list_elem_of_fmap. unfold is_bad. split.
  - intros (i & -> & Hi). apply list_elem_of_In, filter_In in Hi as [Hin Hb].
    apply list_elem_of_In, elem_of_seq in Hin. apply negb_true_iff, bool_decide_eq_false in Hb.
    destruct (lookup_lt_is_Some_2 (slots c) i) as [s Hs]; [lia|].
    exists (data s). apply contents_live; [done|]. exists i, s.
    by rewrite (encode_id_eq c i s Hs).
  - intros [a (i & s & [Hs Hi] & -> & ->)%contents_live]; [|done]. exists i.
    split; [by rewrite (encode_id_eq c i s Hs)|]. apply lookup_lt_Some in Hs as Hlt.
    apply list_elem_of_In, filter_In. split; [apply list_elem_of_In, elem_of_seq; lia|].
    by rewrite bool_decide_eq_false_2.
Qed.

Lemma empties_submseteq c : container_ok c → empty_slots c ⊆+ seq 0 (length (slots c)).
Proof.
  intros Hok. apply NoDup_submseteq; [apply (co_nodup _ Hok)|]. intros i Hi. apply elem_of_seq.
  pose proof (co_empty _ Hok) as Hf. rewrite Forall_forall in Hf. destruct (Hf i Hi) as (s & Hs & _).
  apply lookup_lt_Some in Hs. lia.
Qed.

Lemma contents_empty c :
  container_ok c → contents c = ∅ ↔ (∀ i, (i < length (slots c))%nat → i ∈ empty_slots c).
Proof.
  intros Hok. split.
  - intros He i Hi. destruct (decide (i ∈ empty_slots c)) as [|Hn]; [done|].
    destruct (lookup_lt_is_Some_2 (slots c) i Hi) as [s Hs].
    assert (contents c !! encode i (generation s) = Some (data s)) as Hc
      by (apply contents_live; [done|]; by exists i, s).
    by rewrite He in Hc.
  - intros Hall. apply map_empty. intros k. apply eq_None_not_Some.
    intros [a (i & s & [Hs Hi] & _)%contents_live]; [|done]. apply lookup_lt_Some in Hs. by apply Hi, Hall.
Qed.

Lemma empty_contents c : container_ok c → empty c = Some (bool_decide (contents c = ∅)).
Proof.
  intros Hok. unfold empty, size. pose proof (empties_submseteq c Hok) as Hsub.
  pose proof (submseteq_length _ _ Hsub) as Hlen. rewrite length_seq in Hlen.
  destruct (Z.leb_spec (slen (empty_slots c)) (slen (slots c))); [|unfold slen in *; lia].
  simpl. f_equal. apply eq_true_iff_eq. rewrite Z.eqb_eq, bool_decide_eq_true, contents_empty by done.
  unfold slen. split.
  - intros Heq i Hi.
    assert (empty_slots c ≡ₚ seq 0 (length (slots c))) as ->
      by (apply submseteq_length_Permutation; [done|rewrite length_seq; lia]).
    apply elem_of_seq. lia.
  - intros Hall. enough (length (slots c) <= length (empty_slots c))%nat by lia.
    pose proof (submseteq_length (seq 0 (length (slots c))) (empty_slots c)) as Hs.
    rewrite length_seq in Hs. apply Hs.
    apply NoDup_submseteq; [apply NoDup_seq|]. intros i Hi%elem_of_seq. apply Hall. lia.
Qed.

End Facts.

(** ** The container implements the interface *)

(** Room for objects: the vector only grows when no slot is free. *)
Definition has_room {A} (c : container A) (n : nat) : Prop := slen (slots c) + Z.of_nat n <= 2 ^ 31.

Lemma create_room {A} (c : container A) a type :
  slen (slots c) <= INT32_MAX → ∃ id c', create c a type = Some (id, c') ∧ slen (slots c') <= slen (slots c) + 1.
Proof.
  intros Hlen. unfold create, store. destruct (empty_slots c) as [|pos l].
  - rewrite (proj2 (Z.leb_le _ _)) by done. eexists _, _. split; [done|]. cbn. rewrite slen_app. change (slen [_]) with 1. lia.
  - eexists _, _. split; [done|]. cbn. unfold slen. rewrite length_alter. lia.
Qed.

Lemma update_slots {A} (c : container A) id f : slen (slots (update c id f)) = slen (slots c).
Proof. unfold update. destruct (decode_id c id); [|done]. cbn. unfold slen. by rewrite length_alter. Qed.

Lemma erase_slots {A} (dflt : A) (c : container A) id : slen (slots (erase dflt c id)) = slen (slots c).
Proof.
  unfold erase. destruct (decode_id c id) as [i|]; [|done]. unfold release, inc_generation. cbn [slots empty_slots].
  repeat case_match; cbn [slots]; unfold slen; by rewrite !length_alter.
Qed.

Lemma has_room_create {A} (c : container A) a n :
  has_room c (S n) → ∃ id c', create c a 0 = Some (id, c') ∧ has_room c' n.
Proof.
  unfold has_room. intros Hr. destruct (create_room c a 0) as (id & c' & -> & Hlen); [unfold INT32_MAX; lia|].
  exists id, c'. split; [done|]. lia.
Qed.

Section Instances.
Context {A : Type} `{Inhabited A}.

#[export] Instance container_store : IdStore A (container A) := {
  st_empty := new_container;
  st_get := get;
  st_update := update;
  st_create c a := create c a 0;
  st_erase := erase inhabitant;
  st_ids := ids;
  st_is_empty := empty;
  st_wf := container_ok;
  st_last := last_id;
  st_room := has_room;
  st_contents := contents
}.

#[export] Instance container_store_laws : IdStoreLaws A (container A).
Proof.
  split; simpl.
  - apply new_container_ok.
  - done.
  - intros c id a Hok (i & s & Hs & -> & ->)%contents_live; [|done]. unfold get.
    rewrite (get_live c i s Hok Hs). simpl. by rewrite (proj1 Hs).
  - intros. by apply update_ok.
  - intros. by apply update_contents.
  - intros c a id c' Hok (i & s' & [] & _)%create_spec; done.
  - intros c a id c' Hok Hc. by apply create_contents with 0.
  - intros c id Hok [a (i & s & Hs & -> & ->)%contents_live]; [|done].
    rewrite erase_eq by done. by apply release_ok with s.
  - intros. by eapply erase_contents.
  - intros. by apply elem_of_ids.
  - intros. by apply empty_contents.
  - intros. by apply ids_nodup.
  - intros c a n Hok. by apply has_room_create.
  - intros c id f n. unfold has_room. by rewrite update_slots.
  - intros c id n. unfold has_room. by rewrite erase_slots.
  - intros c n m Hle. unfold has_room. lia.
Qed.
End Instances.

(** ** The life of a container *)

Section Life.
Context {A : Type} (dflt : A).
Implicit Types (c : container A) (s : slot A).

(** An identifier given out earlier: its slot is retired, or has a later
    generation, or holds the identifier's object. *)
Definition seen c (id : Z) : Prop :=
  ∃ i g s, id = encode i g ∧ slots c !! i = Some s ∧ 0 <= g < 2 ^ 32 ∧ g / 256 ≠ 0 ∧
    (generation s / 256 = 0 ∨ g / 256 < generation s / 256 ∨ g = generation s ∧ i ∉ empty_slots c).

Lemma seen_decode c id i :
  container_ok c → seen c id → decode_id c id = Some i →
  ∃ s, live c i s ∧ id = encode i (generation s).
Proof.
  intros Hok (j & g & s & -> & Hs & Hg & Hhi & Hstate). destruct (slot_index c j s Hok Hs).
  rewrite decode_encode, Hs by done. destruct (Z.eqb_spec g (generation s)) as [->|]; [|done].
  intros [= <-]. exists s. destruct Hstate as [?|[?|[_ ?]]]; [lia..|]. done.
Qed.

Lemma seen_get c id : container_ok c → seen c id → get c id = contents c !! id.
Proof.
  intros Hok Hseen. unfold get. destruct (decode_id c id) as [i|] eqn:Hd; simpl.
  - destruct (seen_decode c id i Hok Hseen Hd) as (s & Hs & ->). rewrite (proj1 Hs). simpl.
    symmetry. apply contents_live; [done|]. by exists i, s.
  - symmetry. apply eq_None_not_Some. intros [a (i & s & Hs & -> & ->)%contents_live]; [|done].
    by rewrite (get_live c i s Hok Hs) in Hd.
Qed.

Lemma live_seen c i s : container_ok c → live c i s → generation s / 256 ≠ 0 → seen c (encode i (generation s)).
Proof.
  intros Hok [Hs Hi] Hhi. destruct (slot_index c i s Hok Hs). exists i, (generation s), s. auto 10.
Qed.

(** A slot changed to a later generation, or unchanged, keeps what was seen. *)
Lemma seen_change c c' i s s' id :
  container_ok c → slots c !! i = Some s → slots c' !! i = Some s' →
  (∀ j t, j ≠ i → slots c !! j = Some t → slots c' !! j = Some t ∧ (j ∉ empty_slots c → j ∉ empty_slots c')) →
  (generation s' / 256 = 0 ∨ generation s / 256 < generation s' / 256 ∨
   generation s / 256 = generation s' / 256 ∧
   (i ∈ empty_slots c ∨ generation s = generation s' ∧ i ∉ empty_slots c')) →
  (generation s / 256 = 0 → generation s' / 256 = 0) →
  seen c id → seen c' id.
Proof.
  intros Hok Hs Hs' Hother Hch Hret (j & g & t & -> & Ht & Hg & Hhi & Hst).
  destruct (decide (j = i)) as [->|Hne].
  - assert (t = s) as -> by congruence. exists i, g, s'. split; [done|]. split; [done|].
    split; [done|]. split; [done|].
    destruct Hst as [?|[?|[-> ?]]]; destruct Hch as [?|[?|[? [?|[? ?]]]]]; auto; try lia; try done.
  - destruct (Hother j t Hne Ht) as [Ht' Hi]. exists j, g, t. naive_solver.
Qed.

Lemma freed_hi s :
  0 <= generation s < 2 ^ 32 →
  generation (freed dflt s) / 256 = 0 ∨ generation (freed dflt s) / 256 = generation s / 256 + 1.
Proof.
  intros Hg. unfold freed, wrap, GENERATION_STEP. simpl. change (Z.shiftl 1 8) with 256.
  Z.to_euclidean_division_equations. lia.
Qed.

Lemma release_lookup c i s :
  slots c !! i = Some s → slots (release dflt c i) !! i = Some (freed dflt s).
Proof.
  intros Hs. rewrite (release_eq dflt c i s Hs). simpl. apply list_lookup_insert_eq.
  by apply lookup_lt_Some in Hs.
Qed.

Lemma release_seen c i s id :
  container_ok c → live c i s → generation s / 256 ≠ 0 → seen c id → seen (release dflt c i) id.
Proof.
  intros Hok [Hs Hi] Hhi. destruct (slot_index c i s Hok Hs) as [Hg _].
  apply (seen_change c _ i s (freed dflt s)); [done|done|by apply release_lookup| | |done].
  - intros j t Hne Ht. rewrite (release_eq dflt c i s Hs). simpl.
    rewrite list_lookup_insert_ne by done. split; [done|]. destruct (_ =? 0); set_solver.
  - destruct (freed_hi s Hg) as [?|?]; [by left|right; left; lia].
Qed.

Lemma stored_seen c a type i c' s' id :
  container_ok c → stored c a type i c' s' → seen c id → seen c' id ∧ id ≠ encode i (generation s').
Proof.
  intros Hok [] (j & g & t & -> & Ht & Hg & Hhi & Hst).
  destruct (slot_index c' i s' sd_ok0 (proj1 sd_live0)) as [Hg' _].
  destruct (decide (j = i)) as [->|Hne].
  - destruct (sd_old0 t Ht) as [Hi Heq].
    destruct Hst as [?|[?|[_ ?]]]; [congruence| |done]. split.
    + exists i, g, s'. destruct sd_live0. do 4 (split; [done|]). right; left. lia.
    + intros [_ ->]%encode_inj; [lia|done..].
  - split.
    + exists j, g, t. split; [done|]. split; [by apply sd_slots0|]. split; [done|]. split; [done|].
      destruct Hst as [?|[?|[-> Hj]]]; auto. right; right. split; [done|].
      apply (proj2 (sd_other0 j t Hne)). done.
    + by intros [-> _]%encode_inj.
Qed.

(** *** The refinement *)

Record refines (st : container A * list Z) (m : gmap Z A) : Prop := {
  rf_ok : container_ok (fst st);
  rf_nodup : NoDup (snd st);
  rf_seen id : id ∈ snd st → seen (fst st) id;
  rf_get id : id ∈ snd st → contents (fst st) !! id = m !! id
}.

Lemma refines_create c issued m a type id c' :
  refines (c, issued) m → 0 <= type < 256 → create c a type = Some (id, c') →
  refines (c', id :: issued) (<[id := a]> m).
Proof.
  intros [Hok Hnd Hseen Hget] Ht Hc. simpl in *.
  destruct (create_contents _ _ _ _ _ Hok Ht Hc) as (_ & _ & Hcont).
  destruct (create_spec _ _ _ _ _ Hok Ht Hc) as (i & s' & Hst & ->).
  assert (Hnew : ∀ k, k ∈ issued → seen c' k ∧ k ≠ encode i (generation s'))
    by (intros k Hk; eapply stored_seen; eauto).
  pose proof (sd_ok _ _ _ _ _ _ Hst) as Hok'.
  split; simpl; [done| | |].
  - constructor; [|done]. intros Hin. by destruct (Hnew _ Hin).
  - intros k [->|Hk]%elem_of_cons; [|by apply Hnew].
    apply live_seen; [done|apply (sd_live _ _ _ _ _ _ Hst)|apply (sd_hi _ _ _ _ _ _ Hst)].
  - intros k Hk. rewrite Hcont. destruct (decide (k = encode i (generation s'))) as [->|Hne].
    + by rewrite !lookup_insert_eq.
    + rewrite !lookup_insert_ne by done. apply Hget. set_solver.
Qed.

Lemma refines_update c issued m id f :
  refines (c, issued) m → id ∈ issued → refines (update c id f, issued) (alter f id m).
Proof.
  intros [Hok Hnd Hseen Hget] Hin. simpl in *. destruct (decode_id c id) as [i|] eqn:Hd.
  - destruct (seen_decode c id i Hok (Hseen id Hin) Hd) as (s & Hs & ->).
    assert (Hc : contents c !! encode i (generation s) = Some (data s))
      by (apply contents_live; [done|]; by exists i, s).
    pose proof (update_contents c _ f _ Hok Hc) as Hcont.
    split; simpl; [by apply update_ok|done| |].
    + intros k Hk. rewrite (update_eq _ _ f _ _ Hd (proj1 Hs)).
      apply (seen_change c _ i s (mkSlot (generation s) (f (data s)))); [done|apply Hs| | | |done|by apply Hseen].
      * simpl. apply list_lookup_insert_eq. destruct Hs as [Hs _]. by apply lookup_lt_Some in Hs.
      * intros j t Hne Ht. simpl. by rewrite list_lookup_insert_ne by done.
      * right; right. split; [done|]. right. split; [done|apply Hs].
    + intros k Hk. rewrite Hcont. destruct (decide (k = encode i (generation s))) as [->|Hne].
      * by rewrite lookup_insert_eq, lookup_alter_eq, <- Hget, Hc by done.
      * rewrite lookup_insert_ne, lookup_alter_ne by done. by apply Hget.
  - unfold update. rewrite Hd. split; simpl; [done..|].
    intros k Hk. destruct (decide (k = id)) as [->|Hne]; [|rewrite lookup_alter_ne by done; by apply Hget].
    rewrite lookup_alter_eq, <- Hget by done. rewrite <- (seen_get c id Hok (Hseen id Hin)).
    unfold get. by rewrite Hd.
Qed.

Lemma release_contents c i s k :
  container_ok c → live c i s → generation s / 256 ≠ 0 → seen c k →
  contents (release dflt c i) !! k = delete (encode i (generation s)) (contents c) !! k.
Proof.
  intros Hok Hs Hhi Hk. pose proof (release_ok dflt c i s Hok Hs) as Hok'.
  apply option_eq. intros a. rewrite lookup_delete_Some, !contents_live by done. split.
  - intros (j & t & Ht & -> & ->). destruct (decide (j = i)) as [->|Hne].
    + exfalso. destruct Hk as (j & g & u & He & Hu & Hg & Hghi & Hst).
      destruct (slot_index _ i t Hok' (proj1 Ht)) as [Htg _].
      apply encode_inj in He as [-> <-]; [|done..].
      assert (u = s) as -> by (destruct Hs; congruence).
      destruct Ht as [Ht _]. rewrite (release_lookup c j s (proj1 Hs)) in Ht. injection Ht as <-.
      destruct (slot_index c j s Hok Hu) as [Hsg _].
      destruct (freed_hi s Hsg); destruct Hst as [?|[?|[He ?]]]; try lia. rewrite <- He in *. lia.
    + assert (live c j t) as Hl by (by apply (release_others dflt c i s j t (proj1 Hs) Hne)).
      split; [|by exists j, t]. intros He. by destruct (live_inj c i s j t Hok Hs Hl He).
  - intros [Hne (j & t & Ht & -> & ->)]. exists j, t. split; [|done].
    apply (release_others dflt c i s j t (proj1 Hs)); [|done]. intros ->. apply Hne.
    assert (t = s) as -> by (destruct Hs, Ht; congruence). done.
Qed.

Lemma refines_erase c issued m id :
  refines (c, issued) m → id ∈ issued → refines (erase dflt c id, issued) (delete id m).
Proof.
  intros [Hok Hnd Hseen Hget] Hin. simpl in *. unfold erase. destruct (decode_id c id) as [i|] eqn:Hd.
  - destruct (seen_decode c id i Hok (Hseen id Hin) Hd) as (s & Hs & ->).
    assert (generation s / 256 ≠ 0) as Hhi.
    { destruct (Hseen _ Hin) as (j & g & t & He & Ht & Hg & Hghi & _).
      destruct (slot_index c i s Hok (proj1 Hs)). by apply encode_inj in He as [_ <-]. }
    split; simpl; [by eapply release_ok|done| |].
    + intros k Hk. eapply release_seen; eauto.
    + intros k Hk. rewrite (release_contents c i s) by eauto.
      destruct (decide (k = encode i (generation s))) as [->|Hne]; [by rewrite !lookup_delete_eq|].
      rewrite !lookup_delete_ne by done. by apply Hget.
  - split; simpl; [done..|]. intros k Hk.
    destruct (decide (k = id)) as [->|Hne]; [|rewrite lookup_delete_ne by done; by apply Hget].
    rewrite lookup_delete_eq, <- (seen_get c id Hok (Hseen id Hin)). unfold get. by rewrite Hd.
Qed.

Lemma refines_run ops st m st' :
  refines st m → store_run_ok dflt ops st → store_run dflt ops st = Some st' →
  refines st' (map_run dflt ops st m).
Proof.
  revert st m. induction ops as [|op ops IH]; intros [c issued] m Href Hops Hrun; cbn -[store_step] in *.
  { by injection Hrun as <-. }
  destruct Hops as [Hop Hops]. destruct (store_step dflt (c, issued) op) as [[c1 issued1]|] eqn:Hstep; [|done].
  apply (IH (c1, issued1)); [|done..]. destruct op as [a type|id|id f]; simpl in *.
  - destruct (create c a type) as [[id c2]|] eqn:Hc; [|done]. injection Hstep as <- <-.
    by eapply refines_create.
  - injection Hstep as <- <-. by apply refines_erase.
  - injection Hstep as <- <-. by apply refines_update.
Qed.
End Life.

(** C38: Slots with generations implement a map: along any run of creations, updates and erasures every
    identifier given out is new, reads the object the map holds for it, and reads nothing once erased. *)
Theorem container_refines_map {A} (dflt : A) (ops : list (store_op A)) (c : container A) (issued : list Z) :
  store_run_ok dflt ops (new_container, []) →
  store_run dflt ops (new_container, []) = Some (c, issued) →
  NoDup issued ∧
  (∀ id, id ∈ issued → get c id = map_run dflt ops (new_container, []) ∅ !! id) ∧
  (∀ id, id ∈ issued → is_Some (map_run dflt ops (new_container, []) ∅ !! id) → id ∈ ids c).
Proof.
  intros Hops Hrun.
  assert (refines (A := A) (new_container, []) ∅) as Href.
  { split; simpl; [apply new_container_ok|constructor|set_solver..]. }
  destruct (refines_run dflt ops _ _ _ Href Hops Hrun) as [Hok Hnd Hseen Hget]. simpl in *.
  split; [done|]. split.
  - intros id Hid. rewrite <- Hget by done. apply seen_get; [done|by apply Hseen].
  - intros id Hid Hsome. apply elem_of_ids; [done|]. by rewrite Hget.
Qed.

(** One life: two objects, the first one erased twice, its slot reused. *)
Definition demo_ops : list (store_op Z) :=
  [OpCreate 7 0; OpCreate 8 0; OpErase 256; OpErase 256; OpCreate 9 1; OpUpdate 4294967552 (Z.add 1)].

Lemma container_refines_map_witness :
  ∃ c issued, store_run 0 demo_ops (new_container, []) = Some (c, issued) ∧
              NoDup issued ∧ get c 256 = None ∧ get c 513 = Some 9.
Proof.
  destruct (store_run 0 demo_ops (new_container, [])) as [[c issued]|] eqn:Hrun;
    [|vm_compute in Hrun; discriminate].
  exists c, issued. split; [done|].
  assert (Hops : store_run_ok 0 demo_ops (new_container, []))
    by (cbn; repeat split; try lia; repeat constructor).
  destruct (container_refines_map 0 demo_ops c issued Hops Hrun) as (Hnd & Hget & _).
  vm_compute in Hrun. injection Hrun as <- <-.
  split; [exact Hnd|].
  split; [rewrite Hget by (repeat (left || right)); vm_compute; reflexivity|].
  rewrite Hget by (repeat (left || right)); vm_compute; reflexivity.
Defined.

(** Erasing the object of a slot whose generation overflows leaves a live identifier with a default
    object, so the container is never empty again. *)
Theorem retired_slot_counts_as_live {A} (dflt : A) (c : container A) (id : Z) (a : A) :
  container_ok c → contents c !! id = Some a → last_id id = true →
  ∃ id', contents (erase dflt c id) !! id' = Some dflt ∧ id' ∈ ids (erase dflt c id) ∧
         empty (erase dflt c id) = Some false.
Proof.
  intros Hok (i & s & Hs & -> & ->)%contents_live Hlast; [|done].
  destruct (slot_index c i s Hok (proj1 Hs)) as [Hg _].
  rewrite (last_id_spec dflt) in Hlast by done. rewrite erase_eq by done.
  pose proof (release_ok dflt c i s Hok Hs) as Hok'.
  assert (live (release dflt c i) i (freed dflt s)) as Hl.
  { split; [by apply release_lookup, Hs|]. rewrite (release_eq dflt c i s (proj1 Hs)). cbn [empty_slots].
    rewrite land_not_type_mask, Hlast by apply freed_range. apply Hs. }
  assert (contents (release dflt c i) !! encode i (generation (freed dflt s)) = Some dflt) as Hc
    by (apply contents_live; [done|]; by exists i, (freed dflt s)).
  exists (encode i (generation (freed dflt s))). split; [done|].
  split; [apply elem_of_ids; eauto|].
  rewrite empty_contents, bool_decide_eq_false_2 by (done || intros He; by rewrite He in Hc). done.
Qed.

Definition worn_out : container Z := mkContainer [mkSlot (2 ^ 32 - 256) 5] [].

Lemma retired_slot_counts_as_live_witness :
  last_id (2 ^ 32 - 256) = true ∧ empty (erase 0 worn_out (2 ^ 32 - 256)) = Some false.
Proof.
  split; [vm_compute; reflexivity|].
  destruct (retired_slot_counts_as_live 0 worn_out (2 ^ 32 - 256) 5) as (id' & _ & _ & He).
  - split; [done|repeat constructor; simpl; lia|constructor..].
  - vm_compute. reflexivity.
  - vm_compute. reflexivity.
  - exact He.
Defined.
