(* ===== verification/FloodControl.v ===== *)
(** * Flood control

    [td::FloodControlFast] of [tdutils/td/utils/FloodControlFast.h], the token
    buckets that limit the creation of clients.  Times and volumes, [double]
    in the source, are exact rationals here: rounding is not modelled. *)

From Stdlib Require Import QArith Lqa.
From S2P Require Import Prelude.

(** ** The code *)

Definition qmin (a b : Q) : Q := if Qle_bool a b then a else b.
Definition qmax (a b : Q) : Q := if Qle_bool b a then a else b.
Definition qlt (a b : Q) : bool := negb (Qle_bool b a).

Record FloodControlBucket := mkBucket {
  max_capacity_ : Q;
  speed_ : Q;
  volume_ : Q;
  volume_at_ : Q;
  bucket_wakeup_at_ : Q
}.

Definition new_bucket (duration count : Q) : FloodControlBucket :=
  mkBucket (count - 1) (count / duration) (count - 1) 0 0.

Definition update_volume (b : FloodControlBucket) (now : Q) : option FloodControlBucket :=
  (CHECK! Qle_bool (volume_at_ b) now ;;
   let passed := (now - volume_at_ b)%Q in
   Some (mkBucket (max_capacity_ b) (speed_ b)
           (qmin (volume_ b + passed * speed_ b) (max_capacity_ b)) now (bucket_wakeup_at_ b)))%td.

Definition bucket_add_event (b : FloodControlBucket) (now size : Q) : option FloodControlBucket :=
  (CHECK! Qle_bool (bucket_wakeup_at_ b) now ;;
   b ← update_volume b now;
   if Qle_bool size (volume_ b)
   then Some (mkBucket (max_capacity_ b) (speed_ b) (volume_ b - size) (volume_at_ b) (bucket_wakeup_at_ b))
   else
     let size := (size - volume_ b)%Q in
     let wakeup_at := (volume_at_ b + size / speed_ b)%Q in
     Some (mkBucket (max_capacity_ b) (speed_ b) 0 wakeup_at wakeup_at))%td.

Definition bucket_clear_events (b : FloodControlBucket) : FloodControlBucket :=
  mkBucket (max_capacity_ b) (speed_ b) (max_capacity_ b) 0 0.

Record FloodControlFast := mkFlood { wakeup_at_ : Q; buckets_ : list FloodControlBucket }.

Definition new_flood_control : FloodControlFast := mkFlood 0 [].

Definition add_limit (f : FloodControlFast) (duration count : Q) : FloodControlFast :=
  mkFlood (wakeup_at_ f) (buckets_ f ++ [new_bucket duration count]).

Fixpoint add_event_loop (bs : list FloodControlBucket) (wakeup now : Q) :
  option (Q * list FloodControlBucket) :=
  match bs with
  | [] => Some (wakeup, [])
  | b :: bs' =>
      b' ← bucket_add_event b now 1;
      '(w, bs'') ← add_event_loop bs' (qmax wakeup (bucket_wakeup_at_ b')) now;
      Some (w, b' :: bs'')
  end.

Definition add_event (f : FloodControlFast) (now : Q) : option FloodControlFast :=
  '(w, bs) ← add_event_loop (buckets_ f) (wakeup_at_ f) now; Some (mkFlood w bs).

Definition get_wakeup_at (f : FloodControlFast) : Q := wakeup_at_ f.

Definition clear_events (f : FloodControlFast) : FloodControlFast :=
  mkFlood 0 (bucket_clear_events <$> buckets_ f).

(** What every client of the class does: an event at [now] is refused while
    [get_wakeup_at() > now], and added otherwise. *)
Definition try_event (f : FloodControlFast) (now : Q) : option (bool * FloodControlFast) :=
  if qlt now (get_wakeup_at f) then Some (false, f) else f' ← add_event f now; Some (true, f').

Fixpoint try_events (f : FloodControlFast) (times : list Q) : option (list Q * FloodControlFast) :=
  match times with
  | [] => Some ([], f)
  | t :: times' =>
      '(b, f') ← try_event f t;
      '(acc, f'') ← try_events f' times';
      Some (if (b : bool) then t :: acc else acc, f'')
  end.

Definition with_limits (limits : list (Q * Q)) : FloodControlFast :=
  foldl (fun f l => add_limit f (fst l) (snd l)) new_flood_control limits.

(** ** Specification *)

(** At most [count] events at once, and [count] more for each [duration]. *)
Definition within_limit (duration count : Q) (acc : list Q) : Prop :=
  ∀ i j t u, (i <= j)%nat → acc !! i = Some t → acc !! j = Some u →
  (inject_Z (Z.of_nat (j - i) + 1) <= count + (u - t) * (count / duration))%Q.

Definition limit_ok (l : Q * Q) : Prop := (0 < fst l ∧ 1 <= snd l)%Q.

(** Times of a clock that does not run backwards. *)
Fixpoint ascending (from : Q) (times : list Q) : Prop :=
  match times with
  | [] => True
  | t :: times' => (from <= t)%Q ∧ ascending t times'
  end.

(** The reference: an event is accepted exactly when the accepted events stay
    within every limit. *)
Inductive greedy (limits : list (Q * Q)) : list Q → list Q → list Q → Prop :=
| greedy_end acc : greedy limits acc [] []
| greedy_accept acc t times more :
    Forall (fun l => within_limit (fst l) (snd l) (acc ++ [t])) limits →
    greedy limits (acc ++ [t]) times more → greedy limits acc (t :: times) (t :: more)
| greedy_reject acc t times more :
    ¬ Forall (fun l => within_limit (fst l) (snd l) (acc ++ [t])) limits →
    greedy limits acc times more → greedy limits acc (t :: times) more.

(** ** Facts *)

Lemma qmin_spec a b : (qmin a b <= a)%Q ∧ (qmin a b <= b)%Q ∧ (qmin a b = a ∨ qmin a b = b).
Proof.
  unfold qmin. destruct (Qle_bool a b) eqn:E; [apply Qle_bool_iff in E|].
  - split_and!; [apply Qle_refl|done|by left].
  - assert (¬ (a <= b)%Q) by (rewrite <- Qle_bool_iff; congruence).
    split_and!; [lra|apply Qle_refl|by right].
Qed.

Lemma qmax_spec a b : (a <= qmax a b)%Q ∧ (b <= qmax a b)%Q ∧ (qmax a b = a ∨ qmax a b = b).
Proof.
  unfold qmax. destruct (Qle_bool b a) eqn:E; [apply Qle_bool_iff in E|].
  - split_and!; [apply Qle_refl|done|by left].
  - assert (¬ (b <= a)%Q) by (rewrite <- Qle_bool_iff; congruence). split_and!; [lra|apply Qle_refl|by right].
Qed.

Lemma qlt_false a b : qlt a b = false ↔ (b <= a)%Q.
Proof. unfold qlt. by rewrite negb_false_iff, Qle_bool_iff. Qed.

Section Bucket.
Context (duration count : Q) (Hlimit : limit_ok (duration, count)).

(** The volume a bucket would have had at time 0: it only decreases. *)
Definition level (b : FloodControlBucket) : Q := (volume_ b - speed_ b * volume_at_ b)%Q.

Record bucket_ok (b : FloodControlBucket) (last : Q) (acc : list Q) : Prop := {
  bo_capacity : max_capacity_ b = (count - 1)%Q;
  bo_speed : speed_ b = (count / duration)%Q;
  bo_volume : (0 <= volume_ b)%Q;
  bo_at : (volume_at_ b <= last)%Q ∨ (volume_at_ b <= bucket_wakeup_at_ b)%Q;
  bo_spent i t : acc !! i = Some t →
    (level b <= (count - 1) - inject_Z (Z.of_nat (length acc - i)) - (count / duration) * t)%Q;
  bo_tight : (acc = [] ∧ (count - 1 <= level b)%Q) ∨
    ∃ i t, acc !! i = Some t ∧
      ((count - 1) - inject_Z (Z.of_nat (length acc - i)) - (count / duration) * t <= level b)%Q;
  bo_wake : (bucket_wakeup_at_ b <= last)%Q ∨
    (level b == - (count / duration) * bucket_wakeup_at_ b)%Q;
  bo_window : within_limit duration count acc
}.

Lemma speed_positive : (0 < count / duration)%Q.
Proof. destruct Hlimit as [Hd Hc]. simpl in *. apply Qlt_shift_div_l; lra. Qed.

(** The effect of an event on the level. *)
Lemma bucket_event b last acc now :
  bucket_ok b last acc → (last <= now)%Q → (bucket_wakeup_at_ b <= now)%Q →
  ∃ b', bucket_add_event b now 1 = Some b' ∧
    max_capacity_ b' = max_capacity_ b ∧ speed_ b' = speed_ b ∧ (0 <= volume_ b')%Q ∧
    ((volume_at_ b' <= now)%Q ∨ (volume_at_ b' <= bucket_wakeup_at_ b')%Q) ∧
    (level b' <= level b - 1)%Q ∧
    (level b' <= (count - 1) - 1 - (count / duration) * now)%Q ∧
    (- 1 - (count / duration) * now <= level b')%Q ∧
    ((level b' == level b - 1)%Q ∨ (level b' == (count - 1) - 1 - (count / duration) * now)%Q) ∧
    ((bucket_wakeup_at_ b' <= now)%Q ∨ (level b' == - (count / duration) * bucket_wakeup_at_ b')%Q).
Proof.
  intros [Hcap Hspeed Hvol Hat _ _ _ _] Hlast Hwake. pose proof speed_positive as Hpos.
  destruct Hlimit as [_ Hc]. simpl in Hc.
  assert (volume_at_ b <= now)%Q as Hnow by (destruct Hat; lra).
  unfold bucket_add_event, update_volume, CHECK.
  apply Qle_bool_iff in Hwake as Hwake'. rewrite Hwake'. clear Hwake'. apply Qle_bool_iff in Hnow as Hnow'. rewrite Hnow'. simpl.
  destruct (qmin_spec (volume_ b + (now - volume_at_ b) * speed_ b) (max_capacity_ b)) as (H1 & H2 & H3).
  set (v := qmin _ _) in *. rewrite Hcap, Hspeed in *. set (s := (count / duration)%Q) in *.
  assert (0 <= v)%Q as Hv.
  { assert (0 <= (now - volume_at_ b) * s)%Q by (apply Qmult_le_0_compat; lra).
    destruct H3 as [->| ->]; lra. }
  destruct (Qle_bool 1 v) eqn:E.
  - apply Qle_bool_iff in E. eexists. split; [done|]. unfold level. simpl. rewrite Hspeed.
    do 2 (split; [done|]). split; [lra|]. split; [left; lra|]. do 3 (split; [lra|]).
    split; [destruct H3 as [-> | ->]; [left|right]; lra|left; lra].
  - assert (v < 1)%Q as E' by (apply Qnot_le_lt; rewrite <- Qle_bool_iff; congruence).
    eexists. split; [done|]. unfold level. simpl. rewrite Hspeed. fold s.
    assert (s * ((1 - v) / s) == 1 - v)%Q as Hdiv by (field; lra).
    set (w := ((1 - v) / s)%Q) in *.
    do 2 (split; [done|]). split; [lra|]. split; [right; lra|]. do 3 (split; [lra|]).
    split; [destruct H3 as [H3|H3]; rewrite H3 in *; [left|right]; lra|right; lra].
Qed.

Lemma lookup_snoc (acc : list Q) now i t :
  (acc ++ [now]) !! i = Some t → acc !! i = Some t ∧ (i < length acc)%nat ∨ i = length acc ∧ t = now.
Proof.
  rewrite lookup_app_Some. intros [Hi|[Hle Hi]].
  - left. split; [done|]. by apply lookup_lt_Some in Hi.
  - right. apply list_lookup_singleton_Some in Hi as [Hi <-]. split; [lia|done].
Qed.

Lemma spent_snoc (acc : list Q) now i :
  (i < length acc)%nat →
  (inject_Z (Z.of_nat (length (acc ++ [now]) - i)) == inject_Z (Z.of_nat (length acc - i)) + 1)%Q.
Proof.
  intros Hi. rewrite length_app. simpl.
  replace (Z.of_nat (length acc + 1 - i)) with (Z.of_nat (length acc - i) + 1) by lia.
  rewrite inject_Z_plus. reflexivity.
Qed.

Lemma spent_last (acc : list Q) now :
  (inject_Z (Z.of_nat (length (acc ++ [now]) - length acc)) == 1)%Q.
Proof. rewrite length_app. simpl. by replace (Z.of_nat (length acc + 1 - length acc)) with 1 by lia. Qed.

Lemma bucket_step b last acc now :
  bucket_ok b last acc → (0 <= now)%Q → (last <= now)%Q → (bucket_wakeup_at_ b <= now)%Q →
  ∃ b', bucket_add_event b now 1 = Some b' ∧ bucket_ok b' now (acc ++ [now]).
Proof.
  intros Hok H0 Hlast Hwake. pose proof speed_positive as Hpos.
  destruct (bucket_event b last acc now Hok Hlast Hwake)
    as (b' & Hb' & Hcap & Hspeed & Hvol & Hat & Hless & Hnew & Hlow & Htight & Hwake').
  exists b'. split; [done|]. destruct Hok as [Hcap0 Hspeed0 _ _ Hspent Htight0 _ Hwin].
  assert (Hspent' : ∀ i t, (acc ++ [now]) !! i = Some t →
    (level b' <= (count - 1) - inject_Z (Z.of_nat (length (acc ++ [now]) - i)) - (count / duration) * t)%Q).
  { intros i t [[Hi Hlt]|[-> ->]]%lookup_snoc; [|rewrite spent_last; lra].
    specialize (Hspent i t Hi). rewrite spent_snoc by done. lra. }
  assert (Hlast' : (acc ++ [now]) !! length acc = Some now)
    by (rewrite lookup_app_r by lia; by rewrite Nat.sub_diag).
  split; [congruence|congruence|done|done|done| |done|].
  - right. destruct Htight as [Ht|Ht]; [|exists (length acc), now; split; [done|rewrite spent_last; lra]].
    destruct Htight0 as [[-> Hl]|(i & t & Hi & Hl)].
    + exists 0%nat, now. split; [done|]. simpl. change (inject_Z (Z.of_nat 1)) with 1%Q.
      assert (0 <= (count / duration) * now)%Q by (apply Qmult_le_0_compat; lra). lra.
    + apply lookup_lt_Some in Hi as Hlt. exists i, t.
      split; [by rewrite lookup_app_l|]. rewrite spent_snoc by done. lra.
  - intros i j t u Hij Hi Hj. destruct (lookup_snoc acc now j u Hj) as [[Hj' Hlt]|[-> ->]].
    + apply (Hwin i j t u Hij); [|done]. rewrite lookup_app_l in Hi by lia. done.
    + specialize (Hspent' i t Hi). rewrite length_app in Hspent'. simpl in Hspent'.
      replace (Z.of_nat (length acc - i) + 1) with (Z.of_nat (length acc + 1 - i)) by lia.
      set (s := (count / duration)%Q) in *. lra.
Qed.

(** A bucket that refuses an event could not take it within its limit. *)
Lemma bucket_refuses b last acc now :
  bucket_ok b last acc → (0 <= now)%Q → (last <= now)%Q → (now < bucket_wakeup_at_ b)%Q →
  ¬ within_limit duration count (acc ++ [now]).
Proof.
  intros [_ _ _ _ _ Htight Hwake _] H0 Hlast Hlt Hwin. pose proof speed_positive as Hpos.
  destruct Hlimit as [_ Hc]. simpl in Hc.
  destruct Hwake as [?|Hlevel]; [lra|]. set (s := (count / duration)%Q) in *.
  assert (s * now < s * bucket_wakeup_at_ b)%Q as Hlt' by (by apply Qmult_lt_l).
  assert (0 <= s * now)%Q by (apply Qmult_le_0_compat; lra).
  destruct Htight as [[-> Hl]|(i & t & Hi & Hl)]; [lra|].
  apply lookup_lt_Some in Hi as Hilt.
  specialize (Hwin i (length acc) t now ltac:(lia)).
  rewrite lookup_app_l in Hwin by lia. specialize (Hwin Hi).
  rewrite lookup_app_r, Nat.sub_diag in Hwin by lia. specialize (Hwin eq_refl).
  rewrite inject_Z_plus in Hwin. change (inject_Z 1) with 1%Q in Hwin. fold s in Hwin. lra.
Qed.

Lemma bucket_later b last acc now : bucket_ok b last acc → (last <= now)%Q → bucket_ok b now acc.
Proof. intros [] Hle. split; try done. destruct bo_at0; [left; lra|by right].
  destruct bo_wake0; [left; lra|by right]. Qed.

Lemma new_bucket_ok : bucket_ok (new_bucket duration count) 0 [].
Proof.
  destruct Hlimit as [Hd Hc]. simpl in *. split; try done; [simpl; lra|left; simpl; lra| |left; simpl; lra].
  left. split; [done|]. unfold level. simpl. lra.
Qed.
End Bucket.

(** *** All the buckets *)

Record flood_ok (limits : list (Q * Q)) (f : FloodControlFast) (last : Q) (acc : list Q) : Prop := {
  fo_last : (0 <= last)%Q;
  fo_buckets : Forall2 (fun l b => bucket_ok (fst l) (snd l) b last acc) limits (buckets_ f);
  fo_wakeup : Forall (fun b => bucket_wakeup_at_ b <= wakeup_at_ f)%Q (buckets_ f);
  fo_waits : (wakeup_at_ f <= last)%Q ∨ ∃ b, b ∈ buckets_ f ∧ (wakeup_at_ f <= bucket_wakeup_at_ b)%Q
}.

Lemma with_limits_buckets limits :
  buckets_ (with_limits limits) = (fun l => new_bucket (fst l) (snd l)) <$> limits ∧
  wakeup_at_ (with_limits limits) = 0%Q.
Proof.
  unfold with_limits.
  assert (∀ f, buckets_ (foldl (fun f l => add_limit f (fst l) (snd l)) f limits)
               = buckets_ f ++ ((fun l => new_bucket (fst l) (snd l)) <$> limits) ∧
               wakeup_at_ (foldl (fun f l => add_limit f (fst l) (snd l)) f limits) = wakeup_at_ f) as H.
  { induction limits as [|l limits IH]; intros f; simpl; [by rewrite app_nil_r|].
    destruct (IH (add_limit f (fst l) (snd l))) as [-> ->]. simpl. by rewrite <- app_assoc. }
  apply (H new_flood_control).
Qed.

Lemma with_limits_ok limits : Forall limit_ok limits → flood_ok limits (with_limits limits) 0 [].
Proof.
  intros Hl. destruct (with_limits_buckets limits) as [Hb Hw]. split; rewrite ?Hb, ?Hw.
  - lra.
  - apply Forall2_fmap_r. apply Forall_Forall2_diag. eapply Forall_impl; [exact Hl|].
    intros [d c] Hdc. by apply new_bucket_ok.
  - apply Forall_fmap, Forall_true. intros l. simpl. lra.
  - left. lra.
Qed.

Lemma add_event_loop_ok limits bs wakeup now last acc :
  Forall limit_ok limits →
  Forall2 (fun l b => bucket_ok (fst l) (snd l) b last acc) limits bs →
  Forall (fun b => bucket_wakeup_at_ b <= now)%Q bs → (0 <= now)%Q → (last <= now)%Q →
  ∃ w bs', add_event_loop bs wakeup now = Some (w, bs') ∧ (wakeup <= w)%Q ∧
    Forall2 (fun l b => bucket_ok (fst l) (snd l) b now (acc ++ [now])) limits bs' ∧
    Forall (fun b => bucket_wakeup_at_ b <= w)%Q bs' ∧
    ((w <= wakeup)%Q ∨ ∃ b, b ∈ bs' ∧ (w <= bucket_wakeup_at_ b)%Q).
Proof.
  intros Hl Hb. revert wakeup Hl. induction Hb as [|[d c] b limits bs Hb _ IH]; intros wakeup Hl Hw H0 Hlast.
  { exists wakeup, []. split_and!; [done|lra|constructor..|left; lra]. }
  apply Forall_cons in Hl as [Hdc Hl]. apply Forall_cons in Hw as [Hwb Hw].
  destruct (bucket_step d c Hdc b last acc now Hb H0 Hlast Hwb) as (b' & Hb' & Hok').
  destruct (IH (qmax wakeup (bucket_wakeup_at_ b')) Hl Hw H0 Hlast) as (w & bs' & Hloop & Hle & Hf2 & Hf & Hwait).
  destruct (qmax_spec wakeup (bucket_wakeup_at_ b')) as (H1 & H2 & H3).
  exists w, (b' :: bs'). simpl. rewrite Hb'. simpl. rewrite Hloop. simpl.
  split; [done|]. split; [lra|]. split; [by constructor|]. split; [constructor; [lra|done]|].
  destruct Hwait as [Hwait|(b1 & Hin & Hwait)]; [|right; exists b1; split; [by right|done]].
  destruct H3 as [H3|H3]; rewrite H3 in Hwait; [by left|right]. exists b'. split; [by left|done].
Qed.

Lemma flood_within limits f last acc :
  flood_ok limits f last acc → Forall (fun l => within_limit (fst l) (snd l) acc) limits.
Proof.
  intros [_ Hb _ _]. apply Forall_lookup. intros i l Hi.
  destruct (Forall2_lookup_l _ _ _ _ _ Hb Hi) as (b & _ & Hok). apply Hok.
Qed.

Lemma try_event_ok limits f last acc now :
  Forall limit_ok limits → flood_ok limits f last acc → (last <= now)%Q →
  ∃ b f', try_event f now = Some (b, f') ∧
    (b = true ↔ Forall (fun l => within_limit (fst l) (snd l) (acc ++ [now])) limits) ∧
    flood_ok limits f' now (acc ++ if b then [now] else []).
Proof.
  intros Hl Hok Hlast. pose proof Hok as [H0 Hb Hw Hwait].
  assert (0 <= now)%Q as Hnow by lra. unfold try_event, get_wakeup_at.
  destruct (qlt now (wakeup_at_ f)) eqn:E.
  - assert (now < wakeup_at_ f)%Q as Hlt.
    { apply Qnot_le_lt. rewrite <- Qle_bool_iff. unfold qlt in E. by apply negb_true_iff in E as ->. }
    exists false, f. split; [done|]. split.
    + split; [done|]. intros Hwin. exfalso.
      destruct Hwait as [?|(b & Hin & Hle)]; [lra|].
      apply list_elem_of_lookup in Hin as [i Hi].
      destruct (Forall2_lookup_r _ _ _ _ _ Hb Hi) as ([d c] & Hi' & Hbok).
      pose proof (Forall_lookup_1 _ _ _ _ Hl Hi') as Hdc.
      apply (bucket_refuses d c Hdc b last acc now Hbok Hnow Hlast); [lra|].
      apply (Forall_lookup_1 _ _ _ _ Hwin Hi').
    + rewrite app_nil_r. split; [done| |done|].
      * eapply Forall2_impl; [exact Hb|]. intros l b Hbok. by apply bucket_later with last.
      * destruct Hwait; [left; lra|by right].
  - apply qlt_false in E.
    destruct (add_event_loop_ok limits (buckets_ f) (wakeup_at_ f) now last acc)
      as (w & bs' & Hloop & _ & Hf2 & Hf & Hwait'); [done..| |done|done|].
    { eapply Forall_impl; [exact Hw|]. intros b. simpl. lra. }
    exists true, (mkFlood w bs'). unfold add_event. rewrite Hloop. simpl.
    assert (flood_ok limits (mkFlood w bs') now (acc ++ [now])) as Hok'.
    { split; simpl; [done..|]. destruct Hwait'; [left; lra|by right]. }
    split; [done|]. split; [|done]. split; [|done]. intros _. by apply (flood_within _ _ _ _ Hok').
Qed.

Lemma try_events_ok limits times : Forall limit_ok limits → ∀ f last acc,
  flood_ok limits f last acc → ascending last times →
  ∃ more f', try_events f times = Some (more, f') ∧ greedy limits acc times more ∧
             ∃ last', flood_ok limits f' last' (acc ++ more).
Proof.
  intros Hl. induction times as [|t times IH]; intros f last acc Hok Hasc; simpl.
  { exists [], f. split; [done|]. split; [constructor|]. exists last. by rewrite app_nil_r. }
  destruct Hasc as [Hle Hasc].
  destruct (try_event_ok limits f last acc t Hl Hok Hle) as (b & f1 & -> & Hb & Hok1). simpl.
  destruct (IH f1 t _ Hok1 Hasc) as (more & f2 & -> & Hgreedy & last' & Hok2). simpl.
  eexists _, f2. split; [done|]. destruct b; simpl in *.
  - split; [constructor; [by apply Hb|done]|]. exists last'. by rewrite <- app_assoc in Hok2.
  - rewrite app_nil_r in *. split; [|by exists last']. constructor; [|done]. intros Hf. by apply Hb in Hf.
Qed.

(** C39: The token buckets accept an event exactly when the events accepted so far and this one stay within
    every limit: at most count at once and count more per duration. *)
Theorem flood_control_limits (limits : list (Q * Q)) (times : list Q) :
  Forall limit_ok limits → ascending 0 times →
  ∃ accepted f, try_events (with_limits limits) times = Some (accepted, f) ∧
    greedy limits [] times accepted ∧
    Forall (fun l => within_limit (fst l) (snd l) accepted) limits.
Proof.
  intros Hl Hasc.
  destruct (try_events_ok limits times Hl _ 0%Q [] (with_limits_ok limits Hl) Hasc)
    as (acc & f & Hrun & Hgreedy & last & Hok).
  exists acc, f. split; [done|]. split; [done|]. by apply (flood_within limits f last acc).
Qed.

(** 2 in a minute and 3 in an hour. *)
Definition demo_limits : list (Q * Q) := [(60, 2); (3600, 3)]%Q.
Definition demo_times : list Q := [0; 1; 2; 50; 70; 100; 1000]%Q.

Lemma flood_control_limits_witness :
  ∃ f, try_events (with_limits demo_limits) demo_times = Some ([0; 1; 50]%Q, f) ∧
    greedy demo_limits [] demo_times [0; 1; 50]%Q.
Proof.
  destruct (flood_control_limits demo_limits demo_times) as (acc & f & Hrun & Hgreedy & _).
  - repeat constructor; discriminate.
  - simpl. repeat split; discriminate.
  - assert (Hacc : fst <$> try_events (with_limits demo_limits) demo_times = Some [0; 1; 50]%Q)
      by (vm_compute; reflexivity).
    exists f. rewrite Hrun in Hacc. injection Hacc as ->. by split.
Defined.
