(* ===== verification/WorkdirCleanup.v ===== *)
(** * Cleaning of the working directory

    [server/WorkdirCleanupManager.cpp]: which files of the working directory
    may be deleted, one round of cleanup, and the actor that counts the files
    in use and schedules the rounds.

    What the walk of the directory sees, the result of each deletion and the
    free space are arguments; [std::sort] is any function with its contract
    ([CandidateSort]).  A deletion may succeed or fail in any way that depends
    on the deletions tried before. *)

From Stdlib Require Import QArith Lqa.
From stdpp Require Import sorting.
From S2P Require Import Prelude Slices PathView FloodControl.

Local Open Scope Z_scope.

(** ** Candidates *)

(** [std::string::find] of a string: the first position where it occurs. *)
Fixpoint find_string (needle s : slice) : option nat :=
  if begins_with s needle then Some 0%nat
  else match s with [] => None | _ :: s => S <$> find_string needle s end.

(** [is_tdlib_persistent_file] *)
Definition persistent_suffixes : list slice :=
  [lit ".sqlite"; lit ".sqlite-wal"; lit ".sqlite-shm"; lit ".sqlite-journal"].
Definition is_tdlib_persistent_file (path : slice) : option bool :=
  v ← new_PathView path;
  let name := file_name v in
  Some (if bool_decide (name = []) then false
        else if ends_with name (lit ".binlog") || ends_with name (lit ".binlog.new") then true
        else existsb (ends_with name) persistent_suffixes).

(** The working directory with a slash at its end. *)
Definition workdir_root (workdir : slice) : slice :=
  if bool_decide (last workdir = Some "/"%char) then workdir else workdir ++ lit "/".

Definition is_workdir_cleanup_candidate (workdir path : slice) : option bool :=
  if bool_decide (workdir = []) || bool_decide (path = []) then Some false
  else
    let root := workdir_root workdir in
    if negb (begins_with path root) || bool_decide (path = root) then Some false
    else if bool_decide (is_Some (find_string (lit "..") (drop (length root) path))) then Some false
    else negb <$> is_tdlib_persistent_file path.

(** ** One round *)

Record WorkdirCleanupConfig := mkCleanupConfig {
  workdir : slice;
  threshold_bytes : Z;
  target_bytes : Z;
  interval : Q;
  file_ttl : Z;
  min_free_bytes : Z;
}.
Definition default_cleanup_config : WorkdirCleanupConfig :=
  mkCleanupConfig [] (Z.shiftl 20 30) (Z.shiftl 15 30) (3600 # 1) 86400 (Z.shiftl 1 30).

Record WorkdirCleanupResult := mkCleanupResult {
  scanned_bytes : Z;
  scanned_files : Z;
  deleted_bytes : Z;
  deleted_files : Z;
  failed_files : Z;
  free_bytes : Z;
  threshold_cleanup : bool;
  disk_emergency : bool;
}.

Record Candidate := mkCandidate { c_path : slice; c_size : Z; access_time : Z }.

(** An entry of the walk: its path, whether the walk takes it for a regular
    file, and what [stat] says when it is asked ([None] for an error). *)
Record stat_info := mkStat { is_reg_ : bool; size_ : Z; atime_nsec_ : Z }.
Record walk_entry := mkEntry { e_path : slice; e_regular : bool; e_stat : option stat_info }.

(** The order of the candidates, and the contract of [std::sort] on them. *)
Definition older (a b : Candidate) : Prop := access_time a <= access_time b.
#[export] Instance older_dec : RelDecision older.
Proof. intros a b. unfold older. apply _. Defined.
Class CandidateSort := sort_candidates : list Candidate → list Candidate.
Class CandidateSortOk (S : CandidateSort) := {
  sort_perm l : sort_candidates l ≡ₚ l;
  sort_sorted l : Sorted older (sort_candidates l);
}.
#[export] Instance stable_sort : CandidateSort := merge_sort older.

(** What a cleanup knows of the files in use: the map of the manager. *)
Abbreviation active_map := (gmap slice Z).
Definition is_active (active_files : active_map) (path : slice) : bool :=
  match active_files !! path with Some count => 0 <? count | None => false end.

(** [delete_file]: the outcome of a deletion after a history of deletions. *)
Abbreviation deleter := (list slice → slice → bool).

(** The loop of [delete_workdir_file_with_retries], [tries] attempts being
    left; the paths tried are added to the history. *)
Fixpoint delete_attempts (delete_file : deleter) (tries : nat) (path : slice) (log : list slice)
    : bool * list slice :=
  match tries with
  | O => (false, log)
  | S tries =>
      let ok := delete_file log path in
      let log := log ++ [path] in
      if ok then (true, log) else delete_attempts delete_file tries path log
  end.
Definition delete_workdir_file_with_retries (delete_file : deleter) (path : slice) (max_retries : Z)
    (log : list slice) : bool * list slice :=
  delete_attempts delete_file (Z.to_nat (max_retries + 1)) path log.

(** The scan: bytes, files and candidates so far. *)
Record scan_state := mkScan { s_bytes : Z; s_files : Z; s_candidates : list Candidate }.
Definition scan_entry (config : WorkdirCleanupConfig) (active_files : active_map) (s : scan_state)
    (e : walk_entry) : option scan_state :=
  candidate ← (if e_regular e then is_workdir_cleanup_candidate (workdir config) (e_path e) else Some false);
  if negb candidate then Some s
  else
    match e_stat e with
    | None => Some s
    | Some st =>
        if negb (is_reg_ st) then Some s
        else
          let size := Z.max 0 (size_ st) in
          Some (mkScan (s_bytes s + size) (s_files s + 1)
                  (if is_active active_files (e_path e) then s_candidates s
                   else s_candidates s ++ [mkCandidate (e_path e) size (atime_nsec_ st)]))
    end.
Fixpoint scan_entries (config : WorkdirCleanupConfig) (active_files : active_map) (s : scan_state)
    (walk : list walk_entry) : option scan_state :=
  match walk with
  | [] => Some s
  | e :: walk => s ← scan_entry config active_files s e; scan_entries config active_files s walk
  end.

(** [uint64] arithmetic of the retention time. *)
Definition ttl_nsec (config : WorkdirCleanupConfig) : Z :=
  if 0 <? file_ttl config then wrap 64 (wrap 64 (file_ttl config) * 1000000000) else 0.
Definition expired (config : WorkdirCleanupConfig) (now_nsec : Z) (c : Candidate) : bool :=
  (0 <? ttl_nsec config) && (access_time c <=? now_nsec) && (ttl_nsec config <=? now_nsec - access_time c).

(** The loop over the sorted candidates; [remaining] is what is left. *)
Record sweep_state := mkSweep { w_bytes : Z; w_files : Z; w_failed : Z; w_log : list slice }.
Fixpoint sweep (config : WorkdirCleanupConfig) (active_files : active_map) (delete_file : deleter)
    (now_nsec : Z) (threshold : bool) (remaining : Z) (candidates : list Candidate) (s : sweep_state)
    : sweep_state :=
  match candidates with
  | [] => s
  | c :: candidates =>
      let must_reduce := threshold && (target_bytes config <? remaining) in
      if negb must_reduce && negb (expired config now_nsec c) then
        sweep config active_files delete_file now_nsec threshold remaining candidates s
      else if is_active active_files (c_path c) then
        sweep config active_files delete_file now_nsec threshold remaining candidates s
      else
        let '(ok, log) := delete_workdir_file_with_retries delete_file (c_path c) 3 (w_log s) in
        if negb ok then mkSweep (w_bytes s) (w_files s) (w_failed s + 1) log
        else sweep config active_files delete_file now_nsec threshold (remaining - c_size c) candidates
               (mkSweep (w_bytes s + c_size c) (w_files s + 1) (w_failed s) log)
  end.

(** [get_free_space]: [None] is the error of the system. *)
Definition get_free_space (available : option Z) : Z :=
  match available with
  | None => -1
  | Some available => if INT64_MAX <? available then -1 else available
  end.

(** What the round reads of the outside world: the clock, the walk, the
    deletions and the space left after the deletions tried. *)
Record round_input := mkInput {
  in_now : Z;
  in_walk : list walk_entry;
  in_delete : deleter;
  in_space : list slice → option Z;
}.

(** [run_workdir_cleanup], with the paths it tried to delete. *)
Definition run_workdir_cleanup `{CandidateSort} (config : WorkdirCleanupConfig) (active_files : active_map)
    (w : round_input) : option (WorkdirCleanupResult * list slice) :=
  s ← scan_entries config active_files (mkScan 0 0 []) (in_walk w);
  let threshold := (0 <? threshold_bytes config) && (threshold_bytes config <=? s_bytes s) in
  let d := sweep config active_files (in_delete w) (in_now w) threshold (s_bytes s)
             (sort_candidates (s_candidates s)) (mkSweep 0 0 0 []) in
  let free := get_free_space (in_space w (w_log d)) in
  Some (mkCleanupResult (s_bytes s) (s_files s) (w_bytes d) (w_files d) (w_failed d) free threshold
          ((0 <? min_free_bytes config) && (0 <=? free) && (free <? min_free_bytes config)),
        w_log d).

(** ** The actor *)

(** The part of [SharedData] the manager writes. *)
Record WorkdirShared := mkWorkdirShared {
  workdir_bytes_ : Z;
  workdir_files_ : Z;
  workdir_cleanup_runs_ : Z;
  workdir_deleted_bytes_ : Z;
  workdir_disk_emergency_ : bool;
  workdir_shutdown_requested_ : bool;
}.

Record cleaner := mkCleaner {
  shared_data_ : WorkdirShared;
  active_files_ : active_map;
  next_periodic_cleanup_ : Q;
  next_threshold_check_ : Q;
  timeout_at : option Q;
}.
Definition new_cleaner : cleaner :=
  mkCleaner (mkWorkdirShared 0 0 0 0 false false) ∅ 0 0 None.

Definition set_shared_data_ v (m : cleaner) :=
  mkCleaner v (active_files_ m) (next_periodic_cleanup_ m) (next_threshold_check_ m) (timeout_at m).
Definition set_active_files_ v (m : cleaner) :=
  mkCleaner (shared_data_ m) v (next_periodic_cleanup_ m) (next_threshold_check_ m) (timeout_at m).
Definition set_next_periodic_cleanup_ v (m : cleaner) :=
  mkCleaner (shared_data_ m) (active_files_ m) v (next_threshold_check_ m) (timeout_at m).
Definition set_next_threshold_check_ v (m : cleaner) :=
  mkCleaner (shared_data_ m) (active_files_ m) (next_periodic_cleanup_ m) v (timeout_at m).
Definition set_timeout_at v (m : cleaner) :=
  mkCleaner (shared_data_ m) (active_files_ m) (next_periodic_cleanup_ m) (next_threshold_check_ m) v.

Definition THRESHOLD_CHECK_INTERVAL : Q := 300 # 1.

Section Actor.
Context `{CandidateSort} (config : WorkdirCleanupConfig).

Definition retain_file (path : slice) (m : cleaner) : option cleaner :=
  candidate ← is_workdir_cleanup_candidate (workdir config) path;
  Some (if negb candidate then m
        else set_active_files_ (<[path := default 0 (active_files_ m !! path) + 1]> (active_files_ m)) m).

Definition release_file (path : slice) (m : cleaner) : cleaner :=
  match active_files_ m !! path with
  | None => m
  | Some count =>
      set_active_files_ (if count - 1 <=? 0 then delete path (active_files_ m)
                         else <[path := count - 1]> (active_files_ m)) m
  end.

(** [run_cleanup]; its argument only goes to the log. *)
Definition run_cleanup (w : round_input) (m : cleaner) : option cleaner :=
  '(result, _) ← run_workdir_cleanup config (active_files_ m) w;
  let d := shared_data_ m in
  Some (set_shared_data_
    (mkWorkdirShared (scanned_bytes result) (scanned_files result) (workdir_cleanup_runs_ d + 1)
       (workdir_deleted_bytes_ d + deleted_bytes result)
       (workdir_disk_emergency_ d || disk_emergency result)
       (workdir_shutdown_requested_ d || disk_emergency result)) m).

Definition schedule_next (m : cleaner) : cleaner :=
  set_timeout_at (Some (qmin (next_periodic_cleanup_ m) (next_threshold_check_ m))) m.

Definition start_up (now : Q) (m : cleaner) : cleaner :=
  schedule_next (set_next_threshold_check_ now (set_next_periodic_cleanup_ now m)).

Definition trigger_threshold_check (w : round_input) (m : cleaner) : option cleaner := run_cleanup w m.

Definition timeout_expired (now : Q) (w : round_input) (m : cleaner) : option cleaner :=
  let periodic := Qle_bool (next_periodic_cleanup_ m) now in
  m ← run_cleanup w m;
  let m := if periodic then set_next_periodic_cleanup_ (now + interval config)%Q m else m in
  Some (schedule_next (set_next_threshold_check_ (now + qmin THRESHOLD_CHECK_INTERVAL (interval config))%Q m)).
End Actor.

(** ** Candidates, specified *)

(** A text occurs in another one. *)
Definition occurs (needle s : slice) : Prop := ∃ l k, s = l ++ needle ++ k.

Lemma find_string_spec needle s : is_Some (find_string needle s) ↔ occurs needle s.
Proof.
  induction s as [|c s IH]; cbn [find_string];
    destruct (begins_with _ needle) eqn:E;
    try (apply begins_with_spec in E as [k Hk]; rewrite Hk; split; [by exists [], k|eauto]).
  - split; [by intros []|]. intros (l & k & Hk). symmetry in Hk.
    apply app_eq_nil in Hk as [_ Hk]. apply app_eq_nil in Hk as [-> ->]. discriminate E.
  - rewrite fmap_is_Some, IH. split.
    + intros (l & k & ->). by exists (c :: l), k.
    + intros (l & k & Hk). destruct l as [|d l].
      * assert (begins_with (c :: s) needle = true); [|congruence].
        apply begins_with_spec. by exists k.
      * injection Hk as -> ->. by exists l, k.
Qed.

(** What a candidate is: a path strictly under the working directory, without
    two dots in a row there, whose name is not one of TDLib's. *)
Definition persistent_name (name : slice) : Prop :=
  ∃ suffix, suffix ∈ [lit ".binlog"; lit ".binlog.new"] ++ persistent_suffixes ∧ ends_with name suffix = true.
Definition candidate_path (workdir path : slice) : Prop :=
  workdir ≠ [] ∧ ∃ rel v, path = workdir_root workdir ++ rel ∧ rel ≠ [] ∧ ¬ occurs (lit "..") rel
  ∧ new_PathView path = Some v ∧ ¬ persistent_name (file_name v).

Lemma ends_with_nil suffix : suffix ≠ [] → ends_with [] suffix = false.
Proof. by destruct suffix. Qed.

Lemma is_tdlib_persistent_file_spec path v b :
  new_PathView path = Some v → is_tdlib_persistent_file path = Some b →
  (b = true ↔ persistent_name (file_name v)).
Proof.
  intros Hv. unfold is_tdlib_persistent_file. rewrite Hv. cbn [mbind option_bind].
  unfold persistent_name, persistent_suffixes. generalize (file_name v) as name. intros name [= <-].
  case_bool_decide as Hn.
  - subst. split; [done|]. intros (suffix & Hin & E).
    rewrite ends_with_nil in E; [done|]. intros ->. revert Hin.
    apply (bool_decide_unpack (¬ [] ∈ _)). by vm_compute.
  - assert (∀ a b c : bool, (if a || b then true else c) = a || (b || c)) as -> by by intros [] [].
    change (existsb (ends_with name) ([lit ".binlog"; lit ".binlog.new"] ++ persistent_suffixes) = true
            ↔ persistent_name name).
    rewrite existsb_exists. unfold persistent_name. by setoid_rewrite list_elem_of_In.
Qed.

Lemma is_workdir_cleanup_candidate_spec workdir path b :
  is_workdir_cleanup_candidate workdir path = Some b → (b = true ↔ candidate_path workdir path).
Proof.
  unfold is_workdir_cleanup_candidate, candidate_path.
  destruct (bool_decide (workdir = [])) eqn:E1; cbn [orb].
  { apply bool_decide_eq_true in E1. intros [= <-]. naive_solver. }
  apply bool_decide_eq_false in E1.
  destruct (bool_decide (path = [])) eqn:E2; cbn [orb].
  { apply bool_decide_eq_true in E2. intros [= <-]. split; [done|].
    intros (_ & rel & v & Hp & Hr & _). rewrite E2 in Hp. symmetry in Hp.
    by apply app_eq_nil in Hp as [_ ?]. }
  destruct (begins_with path (workdir_root workdir)) eqn:E3; cbn [negb orb].
  2: { intros [= <-]. split; [done|]. intros (_ & rel & v & Hp & _).
       assert (begins_with path (workdir_root workdir) = true); [|congruence].
       apply begins_with_spec. by exists rel. }
  apply begins_with_spec in E3 as [rel ->]. rewrite drop_app_length.
  match goal with |- context [if ?test then Some false else _] => destruct test eqn:E4 end.
  { apply bool_decide_eq_true in E4. intros [= <-]. split; [done|]. intros (_ & rel' & v & Hp & Hr & _).
    apply app_inv_head in Hp as <-. destruct Hr. by apply (app_inv_head (workdir_root workdir)); rewrite app_nil_r. }
  apply bool_decide_eq_false in E4. assert (rel ≠ []) by (intros ->; by rewrite app_nil_r in E4).
  match goal with |- context [if ?test then Some false else _] => destruct test eqn:E5 end.
  { apply bool_decide_eq_true, find_string_spec in E5. intros [= <-]. split; [done|]. intros (_ & rel' & v & Hp & _ & Ho & _).
    by apply app_inv_head in Hp as <-. }
  apply bool_decide_eq_false in E5. rewrite find_string_spec in E5.
  destruct (is_tdlib_persistent_file _) as [p|] eqn:E6; [|done]. cbn. intros [= <-].
  destruct (new_PathView (workdir_root workdir ++ rel)) as [v|] eqn:Ev;
    [|by unfold is_tdlib_persistent_file in E6; rewrite Ev in E6].
  pose proof (is_tdlib_persistent_file_spec _ v p Ev E6) as Hp. destruct p; cbn.
  - split; [done|]. intros (_ & rel' & v' & Heq & _ & _ & Hv & Hn).
    assert (v' = v) as -> by congruence. naive_solver.
  - split; [|done]. intros _. split; [done|]. exists rel, v. naive_solver.
Qed.

(** ** A round, specified *)

(** What the scan counts: regular files that are candidates. *)
Definition counted (config : WorkdirCleanupConfig) (e : walk_entry) (st : stat_info) : Prop :=
  e_regular e = true ∧ candidate_path (workdir config) (e_path e) ∧ e_stat e = Some st ∧ is_reg_ st = true.

(** The candidates of a walk: the counted files that are not in use. *)
Definition idle_file (config : WorkdirCleanupConfig) (active_files : active_map) (walk : list walk_entry)
    (c : Candidate) : Prop :=
  ∃ e st, e ∈ walk ∧ counted config e st ∧ is_active active_files (e_path e) = false
          ∧ c = mkCandidate (e_path e) (Z.max 0 (size_ st)) (atime_nsec_ st).

Lemma scan_entry_spec config active_files s e s' :
  scan_entry config active_files s e = Some s' →
  s' = s ∧ (∀ st, ¬ counted config e st)
  ∨ ∃ st, counted config e st
      ∧ s' = mkScan (s_bytes s + Z.max 0 (size_ st)) (s_files s + 1)
               (s_candidates s ++ if is_active active_files (e_path e) then []
                                  else [mkCandidate (e_path e) (Z.max 0 (size_ st)) (atime_nsec_ st)]).
Proof.
  unfold scan_entry, counted.
  destruct (if e_regular e then _ else _) as [b|] eqn:Eb; [|done]. cbn [mbind option_bind].
  assert (b = true ↔ e_regular e = true ∧ candidate_path (workdir config) (e_path e)) as Hb.
  { destruct (e_regular e); [|injection Eb as <-; naive_solver].
    rewrite (is_workdir_cleanup_candidate_spec _ _ _ Eb). naive_solver. }
  destruct b; cbn [negb]; [|intros [= <-]; left; split; [done|naive_solver]].
  destruct (proj1 Hb eq_refl) as [Hr Hc].
  destruct (e_stat e) as [st|]; [|by intros [= <-]; left; split; [|intros ? (_ & _ & ? & _)]].
  destruct (is_reg_ st) eqn:Est; cbn [negb]; intros [= <-]; [right|left; split; [done|]].
  2: { intros st' (_ & _ & [= <-] & ?). congruence. }
  exists st. split; [done|]. destruct (is_active _ _); by rewrite ?app_nil_r.
Qed.

Lemma idle_file_cons config active_files e walk c :
  idle_file config active_files (e :: walk) c
  ↔ (∃ st, counted config e st ∧ is_active active_files (e_path e) = false
           ∧ c = mkCandidate (e_path e) (Z.max 0 (size_ st)) (atime_nsec_ st))
    ∨ idle_file config active_files walk c.
Proof.
  unfold idle_file. split.
  - intros (e' & st & [->|He]%elem_of_cons & H); [left; by exists st|right; by exists e', st].
  - intros [(st & H)|(e' & st & He & H)]; [exists e, st|exists e', st]; by rewrite elem_of_cons; auto.
Qed.

Lemma counted_fun config e st st' : counted config e st → counted config e st' → st = st'.
Proof. intros (_ & _ & H & _) (_ & _ & H' & _). congruence. Qed.

Lemma scan_entries_spec config active_files walk s s' :
  scan_entries config active_files s walk = Some s' →
  ∃ l, s_candidates s' = s_candidates s ++ l
       ∧ (∀ c, c ∈ l ↔ idle_file config active_files walk c)
       ∧ s_bytes s + sum_list_Z c_size l <= s_bytes s'.
Proof.
  revert s. induction walk as [|e walk IH]; intros s; cbn [scan_entries].
  - intros [= <-]. exists []. rewrite app_nil_r. split_and!; [done| |cbn; lia].
    intros c. split; [by intros ?%elem_of_nil|]. intros (e & st & He & _). by apply elem_of_nil in He.
  - destruct (scan_entry _ _ s e) as [s1|] eqn:E; [|done]. cbn [mbind option_bind].
    intros (l & -> & Hl & Hsum)%IH. setoid_rewrite idle_file_cons. setoid_rewrite <- Hl.
    apply scan_entry_spec in E as [[-> Hn]|(st & Hst & ->)]; cbn [s_candidates s_bytes] in *.
    + exists l. split_and!; [done| |done]. intros c. naive_solver.
    + rewrite <- (assoc_L (++)). eexists. split; [done|]. split.
      * intros c. rewrite elem_of_app.
        destruct (is_active active_files (e_path e)) eqn:Ea.
        -- rewrite elem_of_nil. naive_solver.
        -- rewrite list_elem_of_singleton. split; [naive_solver|].
           intros [(st' & Hst' & _ & ->)|?]; [left|by right].
           by rewrite (counted_fun _ _ _ _ Hst Hst').
      * rewrite sum_list_Z_app. destruct (is_active _ _); cbn; lia.
Qed.

Lemma delete_attempts_log delete_file tries path log ok log' :
  delete_attempts delete_file tries path log = (ok, log') →
  ∃ n, log' = log ++ replicate n path ∧ (n <= tries)%nat
       ∧ if ok then (0 < n)%nat else n = tries.
Proof.
  revert log. induction tries as [|tries IH]; intros log; cbn [delete_attempts].
  - intros [= <- <-]. exists 0%nat. by rewrite app_nil_r.
  - destruct (delete_file log path).
    + intros [= <- <-]. exists 1%nat. split_and!; [done|lia|lia].
    + intros (n & -> & Hn & Hok)%IH. exists (S n). rewrite <- (assoc_L (++)).
      split_and!; [done|lia|]. destruct ok; lia.
Qed.

(** The sweep deletes the first candidates in its order and stops at one that
    is kept for good or that cannot be deleted.  Stated from any point of the
    loop; [bytes] is what remains there. *)
Record swept (config : WorkdirCleanupConfig) (now_nsec : Z) (threshold : bool) (bytes : Z)
    (candidates : list Candidate) (s s' : sweep_state) (gone kept : list Candidate) : Prop := {
  swept_split : candidates = gone ++ kept;
  swept_files : w_files s' = w_files s + slen gone;
  swept_bytes : w_bytes s' = w_bytes s + sum_list_Z c_size gone;
  swept_reason : ∀ i c, gone !! i = Some c →
    threshold = true ∧ target_bytes config < bytes - sum_list_Z c_size (take i gone)
    ∨ expired config now_nsec c = true;
  swept_end : (w_failed s' = w_failed s
      ∧ Forall (fun c => expired config now_nsec c = false) kept
      ∧ (kept = [] ∨ threshold = false ∨ bytes - sum_list_Z c_size gone <= target_bytes config))
    ∨ w_failed s' = w_failed s + 1 ∧ ∃ c rest l, kept = c :: rest ∧ w_log s' = l ++ replicate 4 (c_path c);
  swept_log : ∃ l, w_log s' = w_log s ++ l ∧ (∀ p, p ∈ l → ∃ c, c ∈ candidates ∧ p = c_path c)
    ∧ ∀ c, c ∈ gone → c_path c ∈ l;
}.

Lemma expired_older config now_nsec a b :
  older a b → expired config now_nsec b = true → expired config now_nsec a = true.
Proof. unfold older, expired. rewrite !andb_true_iff, !Z.ltb_lt, !Z.leb_le. lia. Qed.

(** Nothing is deleted any more once a candidate is kept. *)
Lemma sweep_rest config active_files delete_file now_nsec threshold bytes candidates s :
  Forall (fun c => expired config now_nsec c = false) candidates →
  threshold && (target_bytes config <? bytes) = false →
  sweep config active_files delete_file now_nsec threshold bytes candidates s = s.
Proof. intros H Hb. induction H as [|c l Hc _ IH]; [done|]. cbn [sweep]. by rewrite Hb, Hc. Qed.

#[export] Instance older_trans : Transitive older.
Proof. intros a b c. unfold older. lia. Qed.

Lemma expired_rest config now_nsec c l :
  StronglySorted older (c :: l) → expired config now_nsec c = false →
  Forall (fun c => expired config now_nsec c = false) (c :: l).
Proof.
  intros [_ Hall]%StronglySorted_inv Hc. constructor; [done|].
  eapply Forall_impl; [exact Hall|]. intros d Hd. cbn.
  destruct (expired config now_nsec d) eqn:E; [|done].
  by rewrite (expired_older _ _ _ _ Hd E) in Hc.
Qed.

(** The sweep ends without a deletion. *)
Lemma swept_none config now_nsec threshold bytes candidates s s' l :
  w_files s' = w_files s → w_bytes s' = w_bytes s → w_log s' = w_log s ++ l →
  (∀ p, p ∈ l → ∃ c, c ∈ candidates ∧ p = c_path c) →
  (w_failed s' = w_failed s ∧ Forall (fun c => expired config now_nsec c = false) candidates
     ∧ (candidates = [] ∨ threshold = false ∨ bytes <= target_bytes config))
  ∨ (w_failed s' = w_failed s + 1
     ∧ ∃ c rest l', candidates = c :: rest ∧ w_log s' = l' ++ replicate 4 (c_path c)) →
  swept config now_nsec threshold bytes candidates s s' [] candidates.
Proof.
  intros Hf Hb Hl Hp He. split; cbn; [done|unfold slen; cbn; lia|lia|by intros i c| |].
  - by rewrite Z.sub_0_r.
  - exists l. split_and!; [done|done|]. by intros c ?%elem_of_nil.
Qed.

(** One deletion before the rest of the sweep. *)
Lemma swept_one config now_nsec threshold bytes c l s s1 s' gone kept n :
  s1 = mkSweep (w_bytes s + c_size c) (w_files s + 1) (w_failed s) (w_log s ++ replicate n (c_path c)) →
  (0 < n)%nat →
  threshold = true ∧ target_bytes config < bytes ∨ expired config now_nsec c = true →
  swept config now_nsec threshold (bytes - c_size c) l s1 s' gone kept →
  swept config now_nsec threshold bytes (c :: l) s s' (c :: gone) kept.
Proof.
  intros -> Hn Hc [H1 H2 H3 H4 H5 (k & H6 & Hk & Hg)]. cbn [w_bytes w_files w_failed w_log] in *.
  assert (∀ l, sum_list_Z c_size (c :: l) = c_size c + sum_list_Z c_size l) as Hsum by done.
  split.
  - by rewrite H1.
  - rewrite H2. unfold slen. cbn [length]. lia.
  - rewrite H3, Hsum. lia.
  - intros [|i] d; [intros [= <-]; cbn; by rewrite Z.sub_0_r|].
    change ((c :: gone) !! S i) with (gone !! i). cbn [take]. rewrite Hsum. intros Hd.
    destruct (H4 i d Hd) as [[? ?]|?]; [left|by right]. split; [done|lia].
  - destruct H5 as [(? & ? & H5)|H5]; [left|by right]. split_and!; [done|done|]. rewrite Hsum.
    destruct H5 as [?|[?|?]]; [by left|by right; left|right; right; lia].
  - exists (replicate n (c_path c) ++ k). rewrite (assoc_L (++)). split_and!; [done| |].
    + intros p [[-> _]%elem_of_replicate|Hp]%elem_of_app; [exists c; by rewrite elem_of_cons; auto|].
      destruct (Hk p Hp) as (d & ? & ->). exists d. rewrite elem_of_cons. auto.
    + intros d [->|Hd]%elem_of_cons; rewrite elem_of_app; [left|right; by apply Hg].
      apply elem_of_replicate. split; [done|lia].
Qed.

Lemma sweep_spec config active_files delete_file now_nsec threshold bytes candidates s :
  StronglySorted older candidates →
  Forall (fun c => is_active active_files (c_path c) = false) candidates →
  ∃ gone kept, swept config now_nsec threshold bytes candidates s
    (sweep config active_files delete_file now_nsec threshold bytes candidates s) gone kept.
Proof.
  revert bytes s. induction candidates as [|c l IH]; intros bytes s Hsort Hidle; cbn [sweep].
  { exists [], []. apply (swept_none _ _ _ _ _ _ _ []); [done..|by rewrite app_nil_r| |].
    - by intros p ?%elem_of_nil.
    - left. split_and!; [done..|by left]. }
  apply Forall_cons in Hidle as [Hc Hidle]. rewrite Hc.
  destruct (negb _ && _) eqn:Ekeep.
  { apply andb_true_iff in Ekeep as [Em%negb_true_iff Ee%negb_true_iff].
    pose proof (expired_rest _ _ _ _ Hsort Ee) as Hall.
    rewrite sweep_rest by (try done; by apply Forall_cons in Hall as [_ ?]).
    exists [], (c :: l). apply (swept_none _ _ _ _ _ _ _ []); [done..|by rewrite app_nil_r| |].
    - by intros p ?%elem_of_nil.
    - left. split_and!; [done..|]. right. apply andb_false_iff in Em as [?|?]; [by left|right; lia]. }
  destruct (delete_workdir_file_with_retries _ _ _ _) as [ok log] eqn:Ed.
  unfold delete_workdir_file_with_retries in Ed.
  apply delete_attempts_log in Ed as (n & -> & Hn & Hfail). destruct ok; cbn [negb].
  - apply StronglySorted_inv in Hsort as [Hsort _].
    edestruct (IH (bytes - c_size c)) as (gone & kept & H); [done|done|]. exists (c :: gone), kept.
    eapply swept_one; [reflexivity|done| |exact H].
    apply andb_false_iff in Ekeep as [[? ?%Z.ltb_lt]%negb_false_iff%andb_true_iff|?%negb_false_iff]; auto.
  - subst n. exists [], (c :: l).
    eapply (swept_none _ _ _ _ _ _ _ (replicate 4 (c_path c))); [done..| |].
    + intros p [-> _]%elem_of_replicate. exists c. by rewrite elem_of_cons; auto.
    + right. split; [done|]. by exists c, l, (w_log s).
Qed.

#[export] Instance older_total : Total older.
Proof. intros a b. unfold older. lia. Qed.

#[export] Instance stable_sort_ok : CandidateSortOk stable_sort.
Proof.
  split; intros l; unfold sort_candidates, stable_sort; [apply merge_sort_Permutation|].
  apply Sorted_merge_sort. apply _.
Qed.

(** A round, put together. *)
Lemma round_spec `{CandidateSortOk} config active_files w r tried :
  run_workdir_cleanup config active_files w = Some (r, tried) →
  ∃ gone kept d,
    (∀ c, c ∈ gone ++ kept ↔ idle_file config active_files (in_walk w) c)
    ∧ StronglySorted older (gone ++ kept)
    ∧ sum_list_Z c_size (gone ++ kept) <= scanned_bytes r
    ∧ threshold_cleanup r = (0 <? threshold_bytes config) && (threshold_bytes config <=? scanned_bytes r)
    ∧ swept config (in_now w) (threshold_cleanup r) (scanned_bytes r) (gone ++ kept)
        (mkSweep 0 0 0 []) d gone kept
    ∧ deleted_bytes r = w_bytes d ∧ deleted_files r = w_files d ∧ failed_files r = w_failed d
    ∧ tried = w_log d
    ∧ free_bytes r = get_free_space (in_space w tried)
    ∧ disk_emergency r = (0 <? min_free_bytes config) && (0 <=? free_bytes r) && (free_bytes r <? min_free_bytes config).
Proof.
  unfold run_workdir_cleanup. destruct (scan_entries _ _ _ _) as [sc|] eqn:E; [|done]. cbn [mbind option_bind].
  apply scan_entries_spec in E as (l & El & Hl & Hsum). cbn in El, Hsum. rewrite El. intros [= <- <-].
  assert (∀ c, c ∈ sort_candidates l ↔ c ∈ l) as Hperm by (intros c; by rewrite sort_perm).
  edestruct (sweep_spec config active_files (in_delete w) (in_now w)
    ((0 <? threshold_bytes config) && (threshold_bytes config <=? s_bytes sc)) (s_bytes sc)
    (sort_candidates l) (mkSweep 0 0 0 [])) as (gone & kept & Hw).
  - apply Sorted_StronglySorted, sort_sorted. apply _.
  - apply Forall_forall. intros c (e & st & _ & _ & Ha & ->)%Hperm%Hl. done.
  - pose proof (swept_split _ _ _ _ _ _ _ _ _ Hw) as Hs.
    exists gone, kept. eexists. rewrite <- Hs. cbn. split_and!; [|apply Sorted_StronglySorted, sort_sorted; apply _| |done| |done..].
    + intros c. by rewrite Hperm.
    + rewrite (sum_list_Z_perm c_size _ _ (sort_perm l)). lia.
    + exact Hw.
Qed.

(** Paths short enough for [PathView]. *)
Definition short_paths (walk : list walk_entry) : Prop := Forall (fun e => slen (e_path e) <= INT32_MAX) walk.

Lemma is_workdir_cleanup_candidate_total workdir path :
  slen path <= INT32_MAX → is_Some (is_workdir_cleanup_candidate workdir path).
Proof.
  intros H. unfold is_workdir_cleanup_candidate, is_tdlib_persistent_file.
  destruct (new_PathView_ok path H) as [v ->]. cbn. split_ifs; eauto.
Qed.

Lemma scan_entries_total config active_files walk s :
  short_paths walk → is_Some (scan_entries config active_files s walk).
Proof.
  intros H. revert s. induction H as [|e walk He _ IH]; intros s; cbn [scan_entries]; [eauto|].
  assert (is_Some (scan_entry config active_files s e)) as [s' ->]; [|apply IH].
  unfold scan_entry. destruct (is_workdir_cleanup_candidate_total (workdir config) _ He) as [b ->].
  destruct (e_regular e), b, (e_stat e) as [st|]; cbn; try destruct (is_reg_ st); cbn; eauto.
Qed.

(** ** Rounds in a row *)

(** The events of the manager.  The timer does not fire early. *)
Inductive cleaner_event :=
| EvRetainFile (path : slice)
| EvReleaseFile (path : slice)
| EvCleanup (now : Q) (w : round_input)
| EvThreshold (w : round_input).
Definition cleaner_step `{CandidateSort} (config : WorkdirCleanupConfig) (m : cleaner) (ev : cleaner_event)
    : option cleaner :=
  match ev with
  | EvRetainFile path => retain_file config path m
  | EvReleaseFile path => Some (release_file path m)
  | EvCleanup now w => timeout_expired config now w m
  | EvThreshold w => trigger_threshold_check config w m
  end.
Fixpoint cleaner_run `{CandidateSort} (config : WorkdirCleanupConfig) (m : cleaner) (evs : list cleaner_event)
    : option cleaner :=
  match evs with
  | [] => Some m
  | ev :: evs => m ← cleaner_step config m ev; cleaner_run config m evs
  end.

(** The states after [start_up] at [t0], with the time of the last scan by the
    timer. *)
Inductive cleaner_reach `{CandidateSort} (config : WorkdirCleanupConfig) (t0 : Q) : cleaner → option Q → Prop :=
| cr_start : cleaner_reach config t0 (start_up t0 new_cleaner) None
| cr_message m last ev m' :
    cleaner_reach config t0 m last → (∀ now w, ev ≠ EvCleanup now w) →
    cleaner_step config m ev = Some m' → cleaner_reach config t0 m' last
| cr_timer m last t now w m' :
    cleaner_reach config t0 m last → timeout_at m = Some t → (t <= now)%Q →
    timeout_expired config now w m = Some m' → cleaner_reach config t0 m' (Some now).

Lemma run_cleanup_frame `{CandidateSort} config w m m' :
  run_cleanup config w m = Some m' →
  active_files_ m' = active_files_ m ∧ next_periodic_cleanup_ m' = next_periodic_cleanup_ m
  ∧ next_threshold_check_ m' = next_threshold_check_ m ∧ timeout_at m' = timeout_at m.
Proof.
  unfold run_cleanup. destruct (run_workdir_cleanup _ _ _) as [[r tried]|]; [|done]. by intros [= <-].
Qed.

Lemma message_timers `{CandidateSort} config m ev m' :
  (∀ now w, ev ≠ EvCleanup now w) → cleaner_step config m ev = Some m' →
  next_periodic_cleanup_ m' = next_periodic_cleanup_ m
  ∧ next_threshold_check_ m' = next_threshold_check_ m ∧ timeout_at m' = timeout_at m.
Proof.
  intros Hev. destruct ev as [path|path|now w|w]; cbn [cleaner_step].
  - unfold retain_file. destruct (is_workdir_cleanup_candidate _ _) as [[]|]; [| |done]; by intros [= <-].
  - unfold release_file. intros [= <-]. by destruct (_ !! _).
  - by destruct (Hev now w).
  - by intros (_ & ? & ? & ?)%run_cleanup_frame.
Qed.

(** The timers between two scans. *)
Record timers_ok (config : WorkdirCleanupConfig) (t0 : Q) (m : cleaner) (last : option Q) : Prop := {
  timers_set : timeout_at m = Some (qmin (next_periodic_cleanup_ m) (next_threshold_check_ m));
  timers_first : last = None → (next_periodic_cleanup_ m == t0)%Q ∧ (next_threshold_check_ m == t0)%Q;
  timers_next : ∀ l, last = Some l →
    (l < next_periodic_cleanup_ m <= l + interval config)%Q
    ∧ (next_threshold_check_ m == l + qmin THRESHOLD_CHECK_INTERVAL (interval config))%Q;
}.

Lemma cleaner_reach_timers `{CandidateSort} config t0 m last :
  (0 < interval config)%Q → cleaner_reach config t0 m last → timers_ok config t0 m last.
Proof.
  intros Hi. induction 1 as [|m last ev m' _ IH Hev Hm|m last t now w m' _ IH Ht Hnow Hm].
  - split; cbn; [done|done|by intros].
  - destruct (message_timers _ _ _ _ Hev Hm) as (E1 & E2 & E3). destruct IH as [H1 H2 H3].
    split; by rewrite ?E3, ?E1, ?E2.
  - unfold timeout_expired in Hm. destruct (run_cleanup _ _ _) as [m1|] eqn:E; [|done].
    cbn [mbind option_bind] in Hm. apply run_cleanup_frame in E as (_ & E1 & _ & _).
    destruct IH as [H1 H2 H3]. destruct (Qle_bool (next_periodic_cleanup_ m) now) eqn:Ep;
      injection Hm as <-; split; cbn; try done; intros l [= <-].
    + split; [split; lra|lra].
    + rewrite E1. assert (now < next_periodic_cleanup_ m)%Q as Hlt
        by (apply Qnot_le_lt; rewrite <- Qle_bool_iff, Ep; done).
      split; [|lra]. split; [done|]. rewrite Ht in H1. injection H1 as ->.
      destruct (qmin_spec (next_periodic_cleanup_ m) (next_threshold_check_ m)) as (_ & _ & Hq).
      destruct (qmin_spec THRESHOLD_CHECK_INTERVAL (interval config)) as (_ & _ & Hq').
      unfold THRESHOLD_CHECK_INTERVAL in *. destruct last as [l|].
      * destruct (H3 l eq_refl) as [[? ?] ?]. destruct Hq as [Hq|Hq], Hq' as [Hq'|Hq']; rewrite Hq, Hq' in *; lra.
      * destruct (H2 eq_refl) as [? ?]. destruct Hq as [Hq|Hq]; rewrite Hq in *; lra.
Qed.

Lemma run_cleanup_emergency `{CandidateSortOk} config w m m' :
  run_cleanup config w m = Some m' →
  ∃ r tried, run_workdir_cleanup config (active_files_ m) w = Some (r, tried)
    ∧ workdir_disk_emergency_ (shared_data_ m') = workdir_disk_emergency_ (shared_data_ m) || disk_emergency r
    ∧ workdir_shutdown_requested_ (shared_data_ m') = workdir_shutdown_requested_ (shared_data_ m) || disk_emergency r.
Proof.
  unfold run_cleanup. destruct (run_workdir_cleanup _ _ _) as [[r tried]|]; [|done].
  intros [= <-]. by exists r, tried.
Qed.

(** The scan a message makes. *)
Definition event_scan (ev : cleaner_event) : option round_input :=
  match ev with EvCleanup _ w | EvThreshold w => Some w | _ => None end.

Lemma event_emergency `{CandidateSortOk} config m ev m' :
  cleaner_step config m ev = Some m' →
  match event_scan ev with
  | None => shared_data_ m' = shared_data_ m
  | Some w => ∃ r tried, run_workdir_cleanup config (active_files_ m) w = Some (r, tried)
      ∧ workdir_disk_emergency_ (shared_data_ m') = workdir_disk_emergency_ (shared_data_ m) || disk_emergency r
      ∧ workdir_shutdown_requested_ (shared_data_ m') = workdir_shutdown_requested_ (shared_data_ m) || disk_emergency r
  end.
Proof.
  destruct ev as [path|path|now w|w]; cbn [cleaner_step event_scan].
  - unfold retain_file. destruct (is_workdir_cleanup_candidate _ _) as [[]|]; [| |done]; by intros [= <-].
  - unfold release_file. intros [= <-]. by destruct (_ !! _).
  - unfold timeout_expired. destruct (run_cleanup _ _ _) as [m1|] eqn:E; [|done]. cbn [mbind option_bind].
    intros [= <-]. apply run_cleanup_emergency in E as (r & tried & ? & ? & ?). exists r, tried.
    by destruct (Qle_bool _ _).
  - apply run_cleanup_emergency.
Qed.

(** The free space a round saw is known and below the minimum. *)
Definition space_exhausted (config : WorkdirCleanupConfig) (w : round_input) : Prop :=
  ∃ tried available, in_space w tried = Some available ∧ available < min_free_bytes config.

Lemma round_emergency `{CandidateSortOk} config active_files w r tried :
  (∀ tried a, in_space w tried = Some a → 0 <= a) →
  run_workdir_cleanup config active_files w = Some (r, tried) → disk_emergency r = true →
  space_exhausted config w.
Proof.
  intros Hpos (gone & kept & d & _ & _ & _ & _ & _ & _ & _ & _ & _ & Hfree & ->)%round_spec.
  rewrite !andb_true_iff, !Z.ltb_lt, Z.leb_le. intros [[_ ?] ?]. exists tried.
  unfold get_free_space in Hfree. destruct (in_space w tried) as [a|]; [|lia].
  exists a. split; [done|]. destruct (INT64_MAX <? a); lia.
Qed.

Lemma round_total `{CandidateSort} config active_files w :
  short_paths (in_walk w) → ∃ r tried, run_workdir_cleanup config active_files w = Some (r, tried).
Proof.
  intros Hw. destruct (scan_entries_total config active_files _ (mkScan 0 0 []) Hw) as [s Hs].
  unfold run_workdir_cleanup. rewrite Hs. cbn. eauto.
Qed.

(** No failure when every deletion succeeds. *)
Lemma sweep_no_failure config active_files delete_file now_nsec threshold bytes candidates s :
  (∀ log p, delete_file log p = true) →
  w_failed (sweep config active_files delete_file now_nsec threshold bytes candidates s) = w_failed s.
Proof.
  intros Hdel. revert bytes s. induction candidates as [|c l IH]; intros bytes s; [done|]. cbn [sweep].
  destruct (negb _ && _); [apply IH|]. destruct (is_active _ _); [apply IH|].
  unfold delete_workdir_file_with_retries. change (Z.to_nat (3 + 1)) with 4%nat. cbn [delete_attempts].
  rewrite Hdel. cbn [negb]. by rewrite IH.
Qed.

Lemma round_all_deleted `{CandidateSort} config active_files w r tried :
  (∀ log p, in_delete w log p = true) →
  run_workdir_cleanup config active_files w = Some (r, tried) → failed_files r = 0.
Proof.
  intros Hdel. unfold run_workdir_cleanup. destruct (scan_entries _ _ _ _); [|done]. cbn [mbind option_bind].
  intros [= <- _]. cbn. by rewrite sweep_no_failure.
Qed.

(** [Client::get_webhook_certificate_path] *)
Definition get_webhook_certificate_path (dir : slice) : slice := dir ++ lit "cert.pem".

Lemma certificate_is_candidate workdir bot_dir :
  let path := get_webhook_certificate_path (workdir_root workdir ++ bot_dir ++ lit "/") in
  workdir ≠ [] → ¬ occurs (lit "..") (bot_dir ++ lit "/cert.pem") → slen path <= INT32_MAX →
  candidate_path workdir path.
Proof.
  intros path Hwd Hdots Hlen. split; [done|].
  destruct (new_PathView_ok path Hlen) as [v Hv]. exists (bot_dir ++ lit "/cert.pem"), v.
  assert (path = (workdir_root workdir ++ bot_dir) ++ "/"%char :: lit "cert.pem") as Hp.
  { unfold path, get_webhook_certificate_path. rewrite <- !(assoc_L (++)). done. }
  split_and!; [|by destruct bot_dir|done|done|].
  { rewrite Hp. by rewrite <- (assoc_L (++)). }
  rewrite (file_name_app (workdir_root workdir ++ bot_dir) "/"%char (lit "cert.pem") v); [|done| |by rewrite <- Hp].
  - intros (suffix & Hin & Hends).
    assert (Forall (fun s => ends_with (lit "cert.pem") s = false)
      ([lit ".binlog"; lit ".binlog.new"] ++ persistent_suffixes)) as Hall by (by repeat constructor).
    apply (proj1 (Forall_forall _ _) Hall) in Hin. congruence.
  - by repeat constructor.
Qed.

Lemma round_tried `{CandidateSortOk} config active_files w r tried path :
  run_workdir_cleanup config active_files w = Some (r, tried) → path ∈ tried →
  ∃ c, idle_file config active_files (in_walk w) c ∧ path = c_path c.
Proof.
  intros (gone & kept & d & Hl & _ & _ & _ & Hw & _ & _ & _ & -> & _)%round_spec Hp.
  destruct (swept_log _ _ _ _ _ _ _ _ _ Hw) as (l & El & Hlog & _). rewrite El in Hp. cbn in Hp.
  destruct (Hlog path Hp) as (c & Hc%Hl & ->). eauto.
Qed.

Lemma candidate_path_true workdir path :
  candidate_path workdir path → is_workdir_cleanup_candidate workdir path = Some true.
Proof.
  intros H. destruct (is_workdir_cleanup_candidate workdir path) as [b|] eqn:E.
  - f_equal. by apply (is_workdir_cleanup_candidate_spec _ _ _ E).
  - destruct (is_workdir_cleanup_candidate_total workdir path) as [b Hb]; [|congruence].
    destruct H as (_ & rel & v & _ & _ & _ & Hv & _). unfold new_PathView, CHECK in Hv.
    destruct (slen path <=? INT32_MAX) eqn:El; [lia|done].
Qed.

(** ** Properties *)

(** C30: A round only tries to delete files that the walk reports as regular files strictly inside the
    working directory, that are not TDLib's databases and that no stream uses. *)
Theorem cleanup_is_safe `{CandidateSortOk} config active_files w r tried :
  run_workdir_cleanup config active_files w = Some (r, tried) →
  ∀ path, path ∈ tried →
    candidate_path (workdir config) path ∧ (∀ count, active_files !! path = Some count → count <= 0)
    ∧ ∃ e st, e ∈ in_walk w ∧ counted config e st ∧ e_path e = path.
Proof.
  intros Hr path Hp. destruct (round_tried _ _ _ _ _ path Hr Hp) as (c & (e & st & He & Hc & Ha & ->) & ->).
  cbn. split; [apply Hc|]. split; [|by exists e, st].
  intros count Hcount. unfold is_active in Ha. rewrite Hcount in Ha. lia.
Qed.

(** A round of cleanup never aborts on a walk with paths below 2 GiB; it deletes the idle files from
    the least recently used on, each because it is expired or because the directory is over its target after
    a threshold was reached; and unless a deletion failed four times in a row, what it keeps is not expired
    and the target is met or nothing is left to delete. *)
Theorem cleanup_deletes_oldest `{CandidateSortOk} config active_files w :
  short_paths (in_walk w) →
  ∃ r tried gone kept,
    run_workdir_cleanup config active_files w = Some (r, tried)
    ∧ (∀ c, c ∈ gone ++ kept ↔ idle_file config active_files (in_walk w) c)
    ∧ StronglySorted older (gone ++ kept)
    ∧ deleted_files r = slen gone ∧ deleted_bytes r = sum_list_Z c_size gone
    ∧ (∀ c, c ∈ gone → c_path c ∈ tried)
    ∧ (∀ i c, gone !! i = Some c →
         threshold_cleanup r = true ∧ target_bytes config < scanned_bytes r - sum_list_Z c_size (take i gone)
         ∨ expired config (in_now w) c = true)
    ∧ (failed_files r = 0 ∧ Forall (fun c => expired config (in_now w) c = false) kept
         ∧ (kept = [] ∨ threshold_cleanup r = false ∨ scanned_bytes r - deleted_bytes r <= target_bytes config)
       ∨ failed_files r = 1 ∧ ∃ c rest l, kept = c :: rest ∧ tried = l ++ replicate 4 (c_path c)).
Proof.
  intros Hw. destruct (scan_entries_total config active_files _ (mkScan 0 0 []) Hw) as [s Hs].
  destruct (run_workdir_cleanup config active_files w) as [[r tried]|] eqn:E;
    [|by unfold run_workdir_cleanup in E; rewrite Hs in E].
  pose proof E as (gone & kept & d & Hl & Hsort & _ & _ & [_ Hf Hb Hr He Hlog] & E1 & E2 & E3 & E4 & _)%round_spec.
  destruct Hlog as (l & El & _ & Hg). cbn in Hf, Hb, He, El. rewrite El in E4. cbn in E4.
  exists r, tried, gone, kept. rewrite E1, E2, E3, Hb, Hf, E4, <- El.
  split_and!; [done|done|done|lia|lia| |done|].
  - rewrite El. exact Hg.
  - destruct He as [(? & ? & ?)|(? & c & rest & l' & ? & ?)]; [left|right]; [done|].
    split; [lia|]. by exists c, rest, l'.
Qed.

(** The cleanup timer is always set after the last scan and at most five minutes (or the interval)
    later; a scan that is not periodic comes at least that long after the one before; a scan an interval
    after the last one is periodic. *)
Theorem threshold_scans_throttled `{CandidateSort} config t0 m last :
  (0 < interval config)%Q → cleaner_reach config t0 m last →
  let pause := qmin THRESHOLD_CHECK_INTERVAL (interval config) in
  ∃ t, timeout_at m = Some t
    ∧ (last = None → (t == t0)%Q)
    ∧ ∀ l, last = Some l →
        (l < t <= l + pause)%Q
        ∧ (∀ now, (t <= now)%Q → Qle_bool (next_periodic_cleanup_ m) now = false → (l + pause <= now)%Q)
        ∧ (∀ now, (l + interval config <= now)%Q → Qle_bool (next_periodic_cleanup_ m) now = true).
Proof.
  intros Hi Hr pause. destruct (cleaner_reach_timers _ _ _ _ Hi Hr) as [H1 H2 H3].
  eexists. split; [exact H1|].
  destruct (qmin_spec (next_periodic_cleanup_ m) (next_threshold_check_ m)) as (Ha & Hb & Hq).
  destruct (qmin_spec THRESHOLD_CHECK_INTERVAL (interval config)) as (_ & _ & Hq'). fold pause in Hq'.
  assert (0 < pause)%Q as Hpause by (unfold THRESHOLD_CHECK_INTERVAL in Hq'; destruct Hq' as [-> | ->]; lra).
  split.
  - intros Hl. destruct (H2 Hl) as [? ?]. destruct Hq as [-> | ->]; lra.
  - intros l Hl. destruct (H3 l Hl) as [[? ?] Hn]. fold pause in Hn. split_and!.
    + destruct Hq as [-> | ->]; lra.
    + lra.
    + intros now Hnow Hp. assert (now < next_periodic_cleanup_ m)%Q
        by (apply Qnot_le_lt; rewrite <- Qle_bool_iff, Hp; done).
      destruct Hq as [Hq|Hq]; rewrite Hq in *; lra.
    + intros now Hnow. apply Qle_bool_iff. lra.
Qed.

(** The disk emergency is raised only by a round that knows the free space and finds it below the
    minimum, always asks for the shutdown too, and is never withdrawn. *)
Theorem disk_emergency_is_final `{CandidateSortOk} config m evs m' :
  (∀ ev w tried a, ev ∈ evs → event_scan ev = Some w → in_space w tried = Some a → 0 <= a) →
  workdir_shutdown_requested_ (shared_data_ m) = workdir_disk_emergency_ (shared_data_ m) →
  cleaner_run config m evs = Some m' →
  workdir_shutdown_requested_ (shared_data_ m') = workdir_disk_emergency_ (shared_data_ m')
  ∧ (workdir_disk_emergency_ (shared_data_ m) = true → workdir_disk_emergency_ (shared_data_ m') = true)
  ∧ (workdir_disk_emergency_ (shared_data_ m') = true →
       workdir_disk_emergency_ (shared_data_ m) = true
       ∨ ∃ ev w, ev ∈ evs ∧ event_scan ev = Some w ∧ space_exhausted config w).
Proof.
  revert m. induction evs as [|ev evs IH]; intros m Hpos Hm; cbn [cleaner_run].
  { intros [= <-]. auto. }
  destruct (cleaner_step config m ev) as [m1|] eqn:E; [|done]. cbn [mbind option_bind]. intros Hrun.
  apply event_emergency in E. setoid_rewrite elem_of_cons.
  assert (workdir_shutdown_requested_ (shared_data_ m1) = workdir_disk_emergency_ (shared_data_ m1)
    ∧ (workdir_disk_emergency_ (shared_data_ m) = true → workdir_disk_emergency_ (shared_data_ m1) = true)
    ∧ (workdir_disk_emergency_ (shared_data_ m1) = true → workdir_disk_emergency_ (shared_data_ m) = true
       ∨ ∃ w, event_scan ev = Some w ∧ space_exhausted config w)) as (H1 & H2 & H3).
  { destruct (event_scan ev) as [w|] eqn:Ew; [|by rewrite E; auto].
    destruct E as (r & tried & Hr & -> & ->). rewrite Hm. split; [done|].
    destruct (workdir_disk_emergency_ (shared_data_ m)); [by auto|]. split; [done|]. cbn. intros Hd. right.
    exists w. split; [done|]. apply (round_emergency config (active_files_ m) w r tried); [|done|done].
    intros tr a. apply (Hpos ev w); [by left|done]. }
  destruct (IH m1) as (G1 & G2 & G3); [|done|done|].
  { intros ev' w tr a Hin. apply Hpos. by right. }
  split_and!; [done|auto|]. intros Hd. destruct (G3 Hd) as [Hd1|(ev' & w & ? & ? & ?)].
  - destruct (H3 Hd1) as [?|(w & ? & ?)]; [by left|right; exists ev, w; auto].
  - right. exists ev', w. auto.
Qed.

(** The certificate a bot keeps for its webhook is a cleanup candidate like any cached file: a round in
    which deletions succeed deletes it once it has not been read for the retention time. With a retention
    time of 18446744074 seconds the time wraps around and a file is expired after three tenths of a second.
    *)
Theorem cleanup_deletes_certificate `{CandidateSortOk} config active_files w bot_dir e st :
  let path := get_webhook_certificate_path (workdir_root (workdir config) ++ bot_dir ++ lit "/") in
  short_paths (in_walk w) → workdir config ≠ [] → ¬ occurs (lit "..") (bot_dir ++ lit "/cert.pem") →
  e ∈ in_walk w → e_path e = path → e_regular e = true → e_stat e = Some st → is_reg_ st = true →
  active_files !! path = None → (∀ log p, in_delete w log p = true) →
  expired config (in_now w) (mkCandidate path (Z.max 0 (size_ st)) (atime_nsec_ st)) = true →
  (∃ r tried, run_workdir_cleanup config active_files w = Some (r, tried) ∧ path ∈ tried)
  ∧ ∀ now c, file_ttl config = 18446744074 → access_time c + 300000000 <= now → expired config now c = true.
Proof.
  intros path Hshort Hwd Hdots He Hpath Hreg Hst Hisreg Hact Hdel Hexp. split.
  - destruct (round_total config active_files w Hshort) as (r & tried & E). exists r, tried. split; [done|].
    pose proof (round_all_deleted _ _ _ _ _ Hdel E) as Hz.
    apply round_spec in E as (gone & kept & d & Hl & _ & _ & _ & Hw & _ & _ & Hf & -> & _).
    destruct (swept_log _ _ _ _ _ _ _ _ _ Hw) as (l & -> & _ & Hg). apply elem_of_app. right.
    apply (Hg (mkCandidate path (Z.max 0 (size_ st)) (atime_nsec_ st))).
    destruct (swept_end _ _ _ _ _ _ _ _ _ Hw) as [(_ & Hk & _)|(Hw1 & _)]; [|cbn in Hw1; lia].
    assert (mkCandidate path (Z.max 0 (size_ st)) (atime_nsec_ st) ∈ gone ++ kept) as Hin.
    { apply Hl. exists e, st. rewrite Hpath. split_and!; [done| |by unfold is_active; rewrite Hact|done].
      split_and!; [done| |done|done]. rewrite Hpath. apply certificate_is_candidate; [done..|].
      change (slen path <= INT32_MAX). rewrite <- Hpath. by apply (proj1 (Forall_forall _ _) Hshort). }
    apply elem_of_app in Hin as [?|Hin]; [done|].
    apply (proj1 (Forall_forall _ _) Hk) in Hin. congruence.
  - intros now c Httl Hage. unfold expired, ttl_nsec. rewrite Httl.
    change (if 0 <? 18446744074 then _ else _) with 290448384.
    rewrite !andb_true_iff, !Z.leb_le. split_and!; [done|lia|lia].
Qed.

(** ** A small working directory *)

Definition demo_file (name : slice) (size atime : Z) : walk_entry :=
  mkEntry (lit "/w/7:abc/" ++ name) true (Some (mkStat true size atime)).
Definition demo_walk : list walk_entry :=
  [mkEntry (lit "/w/7:abc") false None; demo_file (lit "photo.jpg") 40 100; demo_file (lit "cert.pem") 5 50;
   demo_file (lit "td.binlog") 7 1; demo_file (lit "video.mp4") 30 10; demo_file (lit "new.jpg") 20 900].
Definition demo_round : round_input := mkInput 1000 demo_walk (fun _ _ => true) (fun _ => Some 12).
Definition demo_cleanup : WorkdirCleanupConfig := mkCleanupConfig (lit "/w/") 60 50 (3600 # 1) 0 10.
Definition demo_active : active_map := {[lit "/w/7:abc/video.mp4" := 1]}.

Example demo_cleanup_run :
  run_workdir_cleanup demo_cleanup demo_active demo_round
  = Some (mkCleanupResult 95 4 45 2 0 12 true false, [lit "/w/7:abc/cert.pem"; lit "/w/7:abc/photo.jpg"]).
Proof. vm_compute. reflexivity. Qed.

Lemma cleanup_is_safe_witness :
  candidate_path (lit "/w/") (lit "/w/7:abc/photo.jpg").
Proof.
  refine (proj1 (cleanup_is_safe demo_cleanup demo_active demo_round _ _ _ (lit "/w/7:abc/photo.jpg") _)).
  - vm_compute. reflexivity.
  - by right; left.
Defined.

Lemma cleanup_deletes_oldest_witness :
  ∃ r tried gone kept,
    run_workdir_cleanup demo_cleanup demo_active demo_round = Some (r, tried)
    ∧ deleted_files r = slen gone
    ∧ (∀ c, c ∈ gone ++ kept ↔ idle_file demo_cleanup demo_active demo_walk c).
Proof.
  destruct (cleanup_deletes_oldest demo_cleanup demo_active demo_round) as (r & tried & gone & kept & H);
    [by repeat constructor|].
  exists r, tried, gone, kept. split_and!; apply H.
Defined.

Lemma threshold_scans_throttled_witness :
  ∃ m, cleaner_reach demo_cleanup 5 m (Some (7 # 1)%Q)
  ∧ ∃ t, timeout_at m = Some t ∧ (7 # 1 < t <= (7 # 1) + 300)%Q.
Proof.
  assert (∃ m, cleaner_reach demo_cleanup 5 m (Some (7 # 1)%Q)) as [m H].
  { eexists. eapply (cr_timer _ _ _ _ 5 (7 # 1) demo_round); [apply cr_start|reflexivity|done|].
    vm_compute. reflexivity. }
  exists m. split; [exact H|].
  destruct (threshold_scans_throttled demo_cleanup 5 _ _ ltac:(done) H) as (t & Ht & _ & Hl).
  exists t. split; [exact Ht|]. apply (Hl _ eq_refl).
Defined.

Lemma disk_emergency_is_final_witness :
  ∃ m, cleaner_run demo_cleanup new_cleaner
         [EvThreshold (mkInput 1000 demo_walk (fun _ _ => true) (fun _ => Some 9)); EvThreshold demo_round] = Some m
  ∧ workdir_disk_emergency_ (shared_data_ m) = true
  ∧ workdir_shutdown_requested_ (shared_data_ m) = workdir_disk_emergency_ (shared_data_ m).
Proof.
  eexists. split; [vm_compute; reflexivity|]. split; [reflexivity|].
  refine (proj1 (disk_emergency_is_final demo_cleanup new_cleaner
    [EvThreshold (mkInput 1000 demo_walk (fun _ _ => true) (fun _ => Some 9)); EvThreshold demo_round] _ _ _ _)).
  - intros ev w tried a Hin Hw Ha.
    repeat (apply elem_of_cons in Hin as [->|Hin]; [injection Hw as <-; injection Ha as <-; done|]).
    by apply elem_of_nil in Hin.
  - reflexivity.
  - vm_compute. reflexivity.
Defined.

Lemma cleanup_deletes_certificate_witness :
  ∃ r tried, run_workdir_cleanup (mkCleanupConfig (lit "/w/") 1000 50 (3600 # 1) 1 10) demo_active
               (mkInput 2000000000 demo_walk (fun _ _ => true) (fun _ => Some 12)) = Some (r, tried)
  ∧ lit "/w/7:abc/cert.pem" ∈ tried.
Proof.
  refine (proj1 (cleanup_deletes_certificate (mkCleanupConfig (lit "/w/") 1000 50 (3600 # 1) 1 10) demo_active
    (mkInput 2000000000 demo_walk (fun _ _ => true) (fun _ => Some 12)) (lit "7:abc")
    (demo_file (lit "cert.pem") 5 50) (mkStat true 5 50) _ _ _ _ _ _ _ _ _ _ _)); try done.
  - by repeat constructor.
  - rewrite <- find_string_spec. vm_compute. by intros [].
  - by right; right; left.
Defined.
