(* ===== verification/StreamFiles.v ===== *)
(** * Streams and the cleaning of the working directory

    The composition of [FileStreamConn] and [WorkdirCleanup]: the manager
    receives the messages of any number of streams, each stream's in the order
    it sent them, in any interleaving with the rounds of cleanup.

    [streamed_files_are_kept] is the contract between the two actors: the
    count of a file is the number of streams that hold it, so a round never
    deletes a file that a stream holds, and nothing is counted once every
    stream has let go. *)

From S2P Require Import Prelude Slices PathView FileStreamCursor FileStreamRoute FileStreamConn FloodControl WorkdirCleanup.

(** A message of stream [i], or a round by the timer. *)
Inductive mail :=
| FromStream (i : nat) (a : action)
| Round (now : QArith_base.Q) (w : round_input).

(** What the manager does with it; only two of a stream's messages are its. *)
Definition mail_event (x : mail) : option cleaner_event :=
  match x with
  | FromStream _ (RetainFile path) => Some (EvRetainFile path)
  | FromStream _ (ReleaseFile path) => Some (EvReleaseFile path)
  | FromStream _ _ => None
  | Round now w => Some (EvCleanup now w)
  end.
Definition mail_step `{CandidateSort} (config : WorkdirCleanupConfig) (m : cleaner) (x : mail) : option cleaner :=
  match mail_event x with None => Some m | Some ev => cleaner_step config m ev end.
Fixpoint mail_run `{CandidateSort} (config : WorkdirCleanupConfig) (m : cleaner) (log : list mail) : option cleaner :=
  match log with
  | [] => Some m
  | x :: log => m ← mail_step config m x; mail_run config m log
  end.

Definition sender (x : mail) : option nat := match x with FromStream i _ => Some i | Round _ _ => None end.
Definition message (x : mail) : option action := match x with FromStream _ a => Some a | Round _ _ => None end.
Definition messages (log : list mail) : list action := omap message log.
Definition sent_by (i : nat) (log : list mail) : list action :=
  messages (filter (fun x => sender x = Some i) log).

(** Every stream is a connection that has run for a while and may have been
    torn down; a part of what it sent has arrived. *)
Definition mail_ok (log : list mail) : Prop :=
  ∀ i, ∃ e content c, reach e content c ∧ sent_by i log `prefix_of` outs (tear_down e c).

Definition holds (path : slice) (log : list mail) (i : nat) : Prop := balance path (sent_by i log) = 1.

(** ** Counting *)

Lemma messages_app l k : messages (l ++ k) = messages l ++ messages k.
Proof. apply omap_app. Qed.

Lemma sent_by_app i l k : sent_by i (l ++ k) = sent_by i l ++ sent_by i k.
Proof. unfold sent_by. by rewrite filter_app, messages_app. Qed.

Lemma tear_down_single_hold e content c path : reach e content c → single_hold path (outs (tear_down e c)).
Proof.
  intros H. destruct (reach_balanced e content c H path) as [Hs Hp].
  rewrite tear_down_outs, (assoc_L (++)). apply single_hold_neutral.
  - destruct (negb _ && _) eqn:E; [|by rewrite app_nil_r].
    apply single_hold_snoc; [done|]. rewrite balance_app, Hp.
    apply andb_true_iff in E as [-> ->]. cbn. unfold balance. cbn.
    repeat case_bool_decide; cbn; try lia; congruence.
  - constructor; [done|]. destruct (client_ c); by repeat constructor.
Qed.

(** A stream holds a file at most once, whatever part of its messages came. *)
Lemma sent_by_balance log i path : mail_ok log → 0 <= balance path (sent_by i log) <= 1.
Proof.
  intros H. destruct (H i) as (e & content & c & Hr & Hp).
  exact (tear_down_single_hold e content c path Hr _ Hp).
Qed.

Lemma mail_ok_app l k : mail_ok (l ++ k) → mail_ok l.
Proof.
  intros H i. destruct (H i) as (e & content & c & Hr & Hp). exists e, content, c. split; [done|].
  rewrite sent_by_app in Hp. eapply prefix_app_l, Hp.
Qed.

(** Taking out the messages of one stream. *)
Lemma balance_split path i log :
  balance path (messages log)
  = balance path (sent_by i log) + balance path (messages (filter (fun x => sender x ≠ Some i) log)).
Proof.
  unfold sent_by. induction log as [|x log IH]; [done|].
  change (x :: log) with ([x] ++ log). rewrite messages_app, balance_app, IH, !filter_app, !messages_app, !balance_app.
  rewrite !(filter_cons _ x []), !filter_nil.
  destruct (decide (sender x = Some i)) as [E|E]; [rewrite decide_False by auto|rewrite decide_True by done];
    change (balance path (messages [])) with 0; lia.
Qed.

Lemma sent_by_rest i j log :
  i ≠ j → sent_by j (filter (fun x => sender x ≠ Some i) log) = sent_by j log.
Proof.
  intros Hij. unfold sent_by. f_equal. rewrite list_filter_filter. apply list_filter_iff.
  intros x. split; [by intros [? _]|]. intros H. split; [done|congruence].
Qed.
Lemma sent_by_rest_self i log : sent_by i (filter (fun x => sender x ≠ Some i) log) = [].
Proof.
  unfold sent_by, messages. rewrite list_filter_filter.
  induction log as [|x log IH]; [done|]. rewrite filter_cons_False by tauto. exact IH.
Qed.

(** What holds of the balance of every stream and is closed under sums holds
    of all the messages. *)
Lemma messages_all (P : Z → Prop) path log :
  P 0 → (∀ a b, P a → P b → P (a + b)) →
  (∀ i, P (balance path (sent_by i log))) → P (balance path (messages log)).
Proof.
  intros H0 Hadd. remember (length log) as n eqn:En. revert log En.
  induction (lt_wf n) as [n _ IH]. intros log -> H.
  destruct log as [|[i a|now w] log]; [done| |].
  - rewrite (balance_split path i). apply Hadd; [apply H|]. eapply IH; [|reflexivity|].
    + rewrite filter_cons_False by (intros Hn; by apply Hn). cbn. apply Nat.lt_succ_r, length_filter.
    + intros j. destruct (decide (i = j)) as [<-|Hne]; [by rewrite sent_by_rest_self|].
      by rewrite sent_by_rest.
  - change (messages (Round now w :: log)) with (messages log). eapply (IH (length log)); [cbn; lia|done|].
    intros i. specialize (H i). unfold sent_by in *. by rewrite filter_cons_False in H.
Qed.

(** The messages of all the streams together hold a file at least as often as
    those of one. *)
Lemma messages_at_least path i log :
  mail_ok log → balance path (sent_by i log) <= balance path (messages log).
Proof.
  intros H. rewrite (balance_split path i).
  assert (0 <= balance path (messages (filter (fun x => sender x ≠ Some i) log))); [|lia].
  apply (messages_all (fun z => 0 <= z)); [done|lia|]. intros j. destruct (decide (i = j)) as [<-|Hne].
  - by rewrite sent_by_rest_self.
  - rewrite sent_by_rest by done. by apply sent_by_balance.
Qed.

Lemma messages_zero path log :
  mail_ok log → (∀ i, ¬ holds path log i) → balance path (messages log) = 0.
Proof.
  intros H Hn. apply (messages_all (fun z => z = 0)); [done|lia|]. intros i.
  pose proof (sent_by_balance log i path H). specialize (Hn i). unfold holds in Hn. lia.
Qed.

(** ** The counts of the manager *)

Definition counts (config : WorkdirCleanupConfig) (log : list mail) (m : cleaner) : Prop :=
  ∀ path, active_files_ m !! path
    = if decide (is_workdir_cleanup_candidate (workdir config) path = Some true ∧ balance path (messages log) ≠ 0)
      then Some (balance path (messages log)) else None.

Lemma mail_run_app `{CandidateSort} config m l k :
  mail_run config m (l ++ k) = m ← mail_run config m l; mail_run config m k.
Proof.
  revert m. induction l as [|x l IH]; intros m; [done|]. cbn [mail_run app].
  destruct (mail_step config m x) as [m'|]; [|done]. cbn [mbind option_bind]. apply IH.
Qed.

Lemma messages_balance_nonneg path log : mail_ok log → 0 <= balance path (messages log).
Proof.
  intros H. apply (messages_all (fun z => 0 <= z)); [done|lia|]. intros i. by apply sent_by_balance.
Qed.

Lemma timeout_expired_files `{CandidateSort} config now w m m' :
  WorkdirCleanup.timeout_expired config now w m = Some m' → active_files_ m' = active_files_ m.
Proof.
  unfold WorkdirCleanup.timeout_expired. destruct (run_cleanup _ _ _) as [m1|] eqn:E; [|done].
  apply run_cleanup_frame in E as (E & _). cbn [mbind option_bind]. intros [= <-]. rewrite <- E.
  by destruct (QArith_base.Qle_bool _ _).
Qed.

Lemma balance_retain path p : balance path [RetainFile p] = if bool_decide (p = path) then 1 else 0.
Proof. unfold balance. cbn. lia. Qed.
Lemma balance_release path p : balance path [ReleaseFile p] = if bool_decide (p = path) then -1 else 0.
Proof. unfold balance. cbn. lia. Qed.

Lemma counts_default config log m path :
  counts config log m → is_workdir_cleanup_candidate (workdir config) path = Some true →
  default 0 (active_files_ m !! path) = balance path (messages log).
Proof.
  intros Hc Hcand. rewrite Hc. case_decide as Hd; [done|]. cbn.
  destruct (decide (balance path (messages log) = 0)); [done|]. by destruct Hd.
Qed.

(** A count changes by what a message adds to the balance. *)
Lemma counts_same config log x m m' :
  (∀ path, balance path (messages [x]) = 0) → active_files_ m' = active_files_ m →
  counts config log m → counts config (log ++ [x]) m'.
Proof.
  intros Hx Hm Hc path. rewrite Hm, Hc, messages_app, balance_app, Hx. by rewrite Z.add_0_r.
Qed.

Lemma retain_counts config log i p m m' :
  mail_ok log → counts config log m → retain_file config p m = Some m' →
  counts config (log ++ [FromStream i (RetainFile p)]) m'.
Proof.
  intros Hok Hc. unfold retain_file.
  destruct (is_workdir_cleanup_candidate (workdir config) p) as [b|] eqn:Eb; [|done].
  cbn [mbind option_bind]. intros [= <-] path. rewrite messages_app, balance_app.
  pose proof (messages_balance_nonneg p log Hok) as Hpos.
  change (messages [FromStream i (RetainFile p)]) with [RetainFile p].
  rewrite balance_retain.
  destruct b; cbn [negb]; case_bool_decide as Ep; subst; rewrite ?Z.add_0_r.
  - cbn. rewrite lookup_insert_eq, decide_True by (split; [done|lia]). f_equal.
    by rewrite (counts_default config log m path Hc Eb).
  - cbn. rewrite lookup_insert_ne by done. apply Hc.
  - rewrite Hc. by rewrite !decide_False by (intros [? _]; congruence).
  - apply Hc.
Qed.

Lemma release_counts config log i p m :
  mail_ok (log ++ [FromStream i (ReleaseFile p)]) → counts config log m →
  counts config (log ++ [FromStream i (ReleaseFile p)]) (release_file p m).
Proof.
  intros Hok Hc path. pose proof (messages_balance_nonneg p _ Hok) as Hpos. revert Hpos.
  rewrite !messages_app, !balance_app.
  change (messages [FromStream i (ReleaseFile p)]) with [ReleaseFile p].
  rewrite !balance_release, (bool_decide_true (p = p)) by done. intros Hpos.
  unfold release_file. rewrite (Hc p). case_decide as Hd.
  - case_bool_decide as Ep; subst; rewrite ?Z.add_0_r.
    + destruct (_ <=? 0) eqn:E; cbn.
      * rewrite lookup_delete_eq, decide_False; [done|]. intros [_ ?]. lia.
      * rewrite lookup_insert_eq, decide_True; [f_equal; lia|]. split; [apply Hd|lia].
    + destruct (_ <=? 0); cbn; rewrite ?lookup_delete_ne, ?lookup_insert_ne by done; apply Hc.
  - rewrite Hc. case_bool_decide as Ep; subst; [|by rewrite Z.add_0_r].
    assert (is_workdir_cleanup_candidate (workdir config) path ≠ Some true)
      by (intros Hcand; apply Hd; split; [done|lia]).
    by rewrite !decide_False by (intros [? _]; done).
Qed.

Lemma mail_step_counts `{CandidateSort} config log x m m' :
  mail_ok (log ++ [x]) → counts config log m → mail_step config m x = Some m' → counts config (log ++ [x]) m'.
Proof.
  intros Hok Hc. unfold mail_step. destruct x as [i a|now w]; cbn [mail_event].
  - destruct a; cbn [mail_event cleaner_step];
      try (intros [= <-]; by apply (counts_same config log _ m)).
    + apply retain_counts; [by apply mail_ok_app in Hok|done].
    + intros [= <-]. by apply release_counts.
  - cbn [cleaner_step]. intros E%timeout_expired_files. by apply (counts_same config log _ m).
Qed.

Lemma mail_run_counts `{CandidateSort} config log m :
  mail_ok log → mail_run config new_cleaner log = Some m → counts config log m.
Proof.
  revert m. induction log as [|x log IH] using rev_ind; intros m Hok.
  - intros [= <-] path. cbn. rewrite lookup_empty. by rewrite decide_False by (intros [_ ?]; done).
  - rewrite mail_run_app. destruct (mail_run _ _ log) as [m1|] eqn:E; [|done]. cbn [mbind option_bind mail_run].
    destruct (mail_step config m1 x) as [m2|] eqn:E2; [|done]. cbn [mbind option_bind]. intros [= <-].
    eapply mail_step_counts; [done| |done]. apply IH; [by apply mail_ok_app in Hok|done].
Qed.

(** C29: Whatever rounds of cleanup come between the messages of the streams, a round never tries to delete
    a file that a stream holds as far as its messages have arrived, the count kept for a file of the working
    directory is the number of times the streams hold it, and a file no stream holds is not counted at all.
    *)
Theorem streamed_files_are_kept `{CandidateSortOk} config log m path :
  mail_ok log → mail_run config new_cleaner log = Some m →
  (∀ i w r tried, holds path log i → run_workdir_cleanup config (active_files_ m) w = Some (r, tried) →
     path ∉ tried)
  ∧ (is_workdir_cleanup_candidate (workdir config) path = Some true →
       default 0 (active_files_ m !! path) = balance path (messages log))
  ∧ ((∀ i, ¬ holds path log i) → active_files_ m !! path = None).
Proof.
  intros Hok Hrun. pose proof (mail_run_counts config log m Hok Hrun) as Hc. split_and!.
  - intros i w r tried Hi Hr Hin.
    destruct (round_tried _ _ _ _ _ path Hr Hin) as (c & (e & st & _ & (_ & Hcand & _) & Ha & ->) & Hp).
    cbn in Hp. rewrite <- Hp in Hcand, Ha.
    pose proof (messages_at_least path i log Hok). unfold holds in Hi.
    unfold is_active in Ha. rewrite Hc, decide_True in Ha; [lia|].
    split; [by apply candidate_path_true|lia].
  - by apply counts_default.
  - intros Hn. rewrite Hc. apply decide_False. intros [_ Hne]. by rewrite messages_zero in Hne.
Qed.

(** ** Two streams of one file, the second one over *)

Definition demo_sent : list action :=
  match demo_conn false demo_ready with Some c => outs c | None => [] end.
Definition demo_done : list action :=
  match demo_conn false demo_ready with
  | Some c => outs (tear_down (demo_env (lit "bytes=2-9") false) c)
  | None => []
  end.
Definition demo_config : WorkdirCleanupConfig :=
  mkCleanupConfig (lit "/tmp/") 1 0 (QArith_base.Qmake 3600 1) 0 10.
Definition demo_dir : round_input :=
  mkInput 1000 [mkEntry (lit "/tmp/f") true (Some (mkStat true 12 5)); mkEntry (lit "/tmp/g") true (Some (mkStat true 9 7))]
    (fun _ _ => true) (fun _ => Some 100).
Definition demo_log : list mail :=
  (FromStream 0 <$> demo_sent) ++ [Round (QArith_base.inject_Z 1) demo_dir] ++ (FromStream 1 <$> demo_done).

Lemma demo_log_ok : mail_ok demo_log.
Proof.
  intros i. destruct (demo_conn false demo_ready) as [c|] eqn:E; [|vm_compute in E; discriminate].
  exists (demo_env (lit "bytes=2-9") false), demo_content, c.
  split; [exact (demo_reach _ _ _ E ltac:(demo_fs_only))|].
  vm_compute in E. injection E as <-. destruct i as [|[|i]].
  - exists (drop (length demo_sent) demo_done). vm_compute. reflexivity.
  - exists []. vm_compute. reflexivity.
  - exists demo_done. vm_compute. reflexivity.
Qed.

Lemma streamed_files_are_kept_witness :
  ∃ m, mail_run demo_config new_cleaner demo_log = Some m
  ∧ active_files_ m !! lit "/tmp/f" = Some 1
  ∧ run_workdir_cleanup demo_config (active_files_ m) demo_dir
    = Some (mkCleanupResult 21 2 9 1 0 100 true false, [lit "/tmp/g"])
  ∧ lit "/tmp/f" ∉ [lit "/tmp/g"].
Proof.
  destruct (mail_run demo_config new_cleaner demo_log) as [m|] eqn:E; [|vm_compute in E; discriminate].
  exists m. split; [reflexivity|].
  pose proof (streamed_files_are_kept demo_config demo_log m (lit "/tmp/f") demo_log_ok E) as (H & Hcount & _).
  assert (active_files_ m !! lit "/tmp/f" = Some 1) as Ha by (vm_compute in E; injection E as <-; reflexivity).
  assert (run_workdir_cleanup demo_config (active_files_ m) demo_dir
    = Some (mkCleanupResult 21 2 9 1 0 100 true false, [lit "/tmp/g"])) as Hr
    by (vm_compute in E; injection E as <-; reflexivity).
  split_and!; [exact Ha|exact Hr|]. refine (H 0%nat demo_dir _ _ _ Hr).
  vm_compute. reflexivity.
Defined.
