(* ===== verification/HttpUrl.v ===== *)
(** * URLs

    [tdutils/td/utils/HttpUrl.cpp]: [parse_url], [HttpUrl::get_url],
    [parse_url_query] and the small functions around them.  The system's
    [inet_pton] is a parameter, as in [IpAddress]. *)

From S2P Require Import Prelude Slices Codecs Integers Parser IpAddress.

Inductive Protocol := Http | Https.
#[export] Instance Protocol_eq_dec : EqDecision Protocol.
Proof. solve_decision. Defined.

Record HttpUrl := mkUrl {
  protocol_ : Protocol;
  userinfo_ : slice;
  host_ : slice;
  is_ipv6_ : bool;
  specified_port_ : Z;
  port_ : Z;
  query_ : slice
}.

Definition protocol_prefix (p : Protocol) : slice :=
  match p with Http => lit "http://" | Https => lit "https://" end.

(** [HttpUrl::get_url]; its [LOG_CHECK] wants a query that begins with '/'. *)
Definition get_url (u : HttpUrl) : option slice :=
  (CHECK! bool_decide (head (query_ u) = Some "/"%char) ;;
   Some (protocol_prefix (protocol_ u) ++
         match userinfo_ u with [] => [] | _ => userinfo_ u ++ ["@"%char] end ++
         host_ u ++
         (if 0 <? specified_port_ u then ":"%char :: print_int 32 (specified_port_ u) else []) ++
         query_ u))%td.

(** *** The parts of [parse_url] *)

Definition parse_protocol (url : slice) (default_protocol : Protocol) : result (Protocol * parser) :=
  let '(protocol_text, p) := read_till_nofail_any (lit ":/?#@[]") (new_parser url) in
  let protocol_str := to_lower_slice protocol_text in
  match try_skip (lit "://") p with
  | (true, p') =>
      if bool_decide (protocol_str = lit "http") then Ok (Http, p')
      else if bool_decide (protocol_str = lit "https") then Ok (Https, p')
      else Err 0 (lit "Unsupported URL protocol")
  | (false, _) => Ok (default_protocol, new_parser url)
  end.

(** The pointer [colon] moves left from the last character to the first of
    ':', ']' and '@', and stops at the beginning. *)
Fixpoint colon_from (s : slice) (i : nat) : nat :=
  match i with
  | O => O
  | S j => match s !! i with
           | Some c => if bool_decide (c ∈ [":"; "]"; "@"]%char) then i else colon_from s j
           | None => O
           end
  end.

(** Leading zeros of a port, the last digit kept. *)
Fixpoint strip_zeros (port_slice : slice) : slice :=
  match port_slice with
  | c :: (_ :: _) as rest => if bool_decide (c = "0"%char) then strip_zeros rest else port_slice
  | _ => port_slice
  end.

(** The text before the port and the port, 0 without one and -1 for a wrong one. *)
Definition split_port (userinfo_host_port : slice) : slice * Z :=
  let colon := colon_from userinfo_host_port (length userinfo_host_port - 1) in
  if (0 <? colon)%nat && bool_decide (userinfo_host_port !! colon = Some ":"%char) then
    (take colon userinfo_host_port,
     match to_integer_safe 32 (strip_zeros (drop (colon + 1) userinfo_host_port)) with
     | Ok port => if port =? 0 then -1 else port
     | Err _ _ => -1
     end)
  else (userinfo_host_port, 0).

Definition split_userinfo (userinfo_host : slice) : slice * slice :=
  match rfind "@"%char userinfo_host with
  | Some at_pos => (take at_pos userinfo_host, drop (at_pos + 1) userinfo_host)
  | None => ([], userinfo_host)
  end.

(** The query of the request: a '/' in front, control characters and spaces
    percent-encoded. *)
Definition escape_query_char (c : ascii) : slice :=
  if char_code c <=? 32
  then ["%"%char; table_at hex_table_upper (char_code c / 16); table_at hex_table_upper (char_code c mod 16)]
  else [c].

Definition make_query (rest : slice) : slice :=
  let query := drop_spaces_back rest in
  let query := match query with [] => ["/"%char] | _ => query end in
  (if bool_decide (head query = Some "/"%char) then [] else ["/"%char]) ++ (query ≫= escape_query_char).

Definition allowed_symbol (allow_colon : bool) (c : ascii) : bool :=
  is_alnum c || bool_decide (c ∈ lit ".-_!$,~*'();&+=") || (allow_colon && bool_decide (c = ":"%char)).

(** [check_url_part]; the character after the part is '@' or NUL, which is no
    hexadecimal digit. *)
Fixpoint check_url_part (part name : slice) (allow_colon : bool) : status :=
  match part with
  | [] => Ok tt
  | c :: rest =>
      if allowed_symbol allow_colon c then check_url_part rest name allow_colon
      else if bool_decide (c = "%"%char) then
        match rest with
        | h1 :: h2 :: rest' =>
            if is_hex_digit h1 && is_hex_digit h2 then check_url_part rest' name allow_colon
            else Err 0 (lit "Wrong percent-encoded symbol in URL " ++ name)
        | _ => Err 0 (lit "Wrong percent-encoded symbol in URL " ++ name)
        end
      else if 128 <=? char_code c then check_url_part rest name allow_colon
      else Err 0 (lit "Disallowed character in URL " ++ name)
  end.

Definition ipv6_host_char (c : ascii) : bool :=
  bool_decide (c = ":"%char) || is_digit c || ((97 <=? char_code c) && (char_code c <=? 102)) ||
  bool_decide (c = "."%char).

Definition check_ipv6_host (host_str : slice) : status :=
  if forallb ipv6_host_char (take (length host_str - 2) (drop 1 host_str)) then Ok tt
  else Err 0 (lit "Wrong IPv6 URL host").

Definition is_bracketed (host : slice) : bool :=
  bool_decide (head host = Some "["%char) && bool_decide (last host = Some "]"%char).

Definition default_port_of (protocol : Protocol) (port : Z) : Z :=
  if port =? 0 then match protocol with Http => 80 | Https => 443 end else port.

Section Parse.
Context (inet_pton6 : slice → option (list Z)).

Definition parse_url (url : slice) (default_protocol : Protocol) : result HttpUrl :=
  '(protocol, p) ← parse_protocol url default_protocol;
  let '(userinfo_host_port, p) := read_till_nofail_any (lit "/?#") p in
  let '(userinfo_host, port) := split_port userinfo_host_port in
  if (port <? 0) || (65535 <? port) then Err 0 (lit "Wrong port number specified in the URL") else
  let '(userinfo, host) := split_userinfo userinfo_host in
  let is_ipv6 := is_bracketed host in
  if is_ipv6 && negb (is_ok (init_ipv6_port inet_pton6 host 1).1)
  then Err 0 (lit "Wrong IPv6 address specified in the URL") else
  if bool_decide (host = []) then Err 0 (lit "URL host is empty") else
  if bool_decide (host = lit ".") then Err 0 (lit "Host is invalid") else
  let specified_port := port in
  let port := default_port_of protocol port in
  let query_str := make_query (read_all p).1 in
  let host_str := to_lower_slice host in
  _ ← (if is_ipv6 then check_ipv6_host host_str
       else _ ← check_url_part host_str (lit "host") false; check_url_part userinfo (lit "userinfo") true);
  Ok (mkUrl protocol userinfo host_str is_ipv6 specified_port port query_str).

Definition get_url_host (url : slice) : slice :=
  match parse_url url Http with Ok u => host_ u | Err _ _ => [] end.

(** [find_first_of] of several characters: the length when there is none. *)
Definition get_url_query_file_name (query : slice) : slice :=
  let query_slice := take_while (fun c => negb (bool_decide (c ∈ lit "?#"))) query in
  match rfind "/"%char query_slice with
  | Some slash_pos => drop (slash_pos + 1) query_slice
  | None => query_slice
  end.

Definition get_url_file_name (url : slice) : slice :=
  match parse_url url Http with Ok u => get_url_query_file_name (query_ u) | Err _ _ => [] end.
End Parse.

(** *** [parse_url_query] *)

Record HttpUrlQuery := mkUrlQuery { path_ : list slice; args_ : list (slice * slice) }.

(** The loop over the arguments; every round reads at least one character. *)
Fixpoint parse_args (fuel : nat) (p : parser) : list (slice * slice) :=
  match fuel with
  | O => []
  | S fuel =>
      if bool_decide (p_data p = []) then []
      else
        let '(text, p) := read_till_nofail "&"%char p in
        let '(k, v) := split text "="%char in
        let p := skip_nofail "&"%char p in
        let key := url_decode k true in
        match key with
        | [] => parse_args fuel p
        | _ => (key, url_decode v true) :: parse_args fuel p
        end
  end.

Definition pop_empty_back (path : list slice) : list slice :=
  rev (drop_while (fun s => bool_decide (s = [])) (rev path)).

Definition parse_url_query (query : slice) : HttpUrlQuery :=
  let query := match query with c :: rest => if bool_decide (c = "/"%char) then rest else query | [] => [] end in
  let path_part := take_while (fun c => negb (bool_decide (c ∈ lit "?#"))) query in
  let rest := drop (length path_part) query in
  let path := pop_empty_back ((fun segment => url_decode segment false) <$> full_split path_part "/"%char) in
  match rest with
  | c :: args_text =>
      if bool_decide (c = "?"%char) then
        let args_text := take_while (fun c => negb (bool_decide (c = "#"%char))) args_text in
        mkUrlQuery path (parse_args (length args_text) (new_parser args_text))
      else mkUrlQuery path []
  | [] => mkUrlQuery path []
  end.

Fixpoint find_arg (args : list (slice * slice)) (key : slice) : option slice :=
  match args with
  | [] => None
  | (k, v) :: args => if bool_decide (k = key) then Some v else find_arg args key
  end.

Definition query_has_arg (q : HttpUrlQuery) (key : slice) : bool :=
  match find_arg (args_ q) key with Some _ => true | None => false end.

Definition query_get_arg (q : HttpUrlQuery) (key : slice) : slice := default [] (find_arg (args_ q) key).

(** ** Facts *)

(** *** Reading up to one of several characters *)

Definition not_in (str : slice) (c : ascii) : bool := negb (bool_decide (c ∈ str)).

Lemma take_while_stop {A} (P : A → bool) a x t :
  Forall (fun c => P c = true) a → P x = false →
  take_while P (a ++ x :: t) = a ∧ drop_while P (a ++ x :: t) = x :: t.
Proof.
  intros Ha Hx. induction Ha as [|c a Hc _ [IH1 IH2]]; simpl; [by rewrite Hx|]. rewrite Hc. by rewrite IH1, IH2.
Qed.

Lemma take_while_all {A} (P : A → bool) l : Forall (fun c => P c = true) l → take_while P l = l.
Proof. induction 1 as [|c l Hc _ IH]; simpl; [done|]. by rewrite Hc, IH. Qed.

Lemma take_while_length_cons {A} (P : A → bool) (x : A) l :
  length (take_while P (x :: l)) = if P x then S (length (take_while P l)) else O.
Proof. simpl. by destruct (P x). Qed.

Lemma find_length c s :
  match find c s with Some n => n | None => length s end = length (take_while (not_in [c]) s).
Proof.
  unfold not_in. induction s as [|d s IH]; simpl; [done|].
  destruct (decide (d = c)) as [->|Hne].
  - rewrite (bool_decide_eq_true_2 (c = c)) by done. by rewrite (bool_decide_eq_true_2 (c ∈ [c])) by set_solver.
  - rewrite (bool_decide_eq_false_2 (d = c)) by done. rewrite (bool_decide_eq_false_2 (d ∈ [c])) by set_solver.
    simpl. rewrite <- IH. by destruct (find c s).
Qed.

Lemma not_in_cons c str d : not_in (c :: str) d = negb (bool_decide (d = c)) && not_in str d.
Proof.
  unfold not_in. apply eq_true_iff_eq. rewrite andb_true_iff, !negb_true_iff, !bool_decide_eq_false.
  rewrite not_elem_of_cons. tauto.
Qed.

Lemma take_while_union_length (str : slice) c s :
  length (take_while (not_in (c :: str)) s) =
  Nat.min (length (take_while (not_in [c]) s)) (length (take_while (not_in str) s)).
Proof.
  induction s as [|d s IH]; [done|]. rewrite !take_while_length_cons, !not_in_cons, IH.
  assert (not_in [] d = true) as -> by (unfold not_in; by rewrite bool_decide_eq_false_2 by set_solver).
  destruct (bool_decide (d = c)), (not_in str d); simpl; lia.
Qed.

Lemma best_till_spec data str : best_till data str = length (take_while (not_in str) data).
Proof.
  unfold best_till.
  assert (∀ best, (best <= length data)%nat →
    foldl (fun best c => match find c data with
                         | Some till => if (till <? best)%nat then till else best
                         | None => best
                         end) best str = Nat.min best (length (take_while (not_in str) data))) as H.
  { induction str as [|c str IH]; intros best Hb; simpl.
    - rewrite take_while_all; [lia|]. apply Forall_true. intros d. unfold not_in.
      by rewrite bool_decide_eq_false_2 by set_solver.
    - rewrite take_while_union_length. pose proof (find_length c data) as Hf.
      destruct (find c data) as [till|] eqn:Ec.
      + rewrite <- Hf. apply find_lt in Ec.
        destruct (Nat.ltb_spec till best); rewrite IH by lia; lia.
      + rewrite <- Hf, IH by lia. lia. }
  rewrite H by lia. pose proof (take_drop_while (not_in str) data) as E.
  apply (f_equal length) in E. rewrite length_app in E. lia.
Qed.

Lemma read_till_any_spec str p :
  p_status p = Ok tt →
  read_till_nofail_any str p =
  (take_while (not_in str) (p_data p), with_data p (drop_while (not_in str) (p_data p))).
Proof.
  intros Hs. unfold read_till_nofail_any. rewrite Hs. simpl. rewrite best_till_spec.
  rewrite <- (take_drop_while (not_in str) (p_data p)) at 2 4.
  by rewrite take_app_length, drop_app_length.
Qed.

(** *** Positions from the right *)

Lemma rfind_below_spec c s n :
  (n <= length s)%nat →
  match rfind_below c s n with
  | Some pos => (pos < n)%nat ∧ s !! pos = Some c ∧ ∀ i, (pos < i < n)%nat → s !! i ≠ Some c
  | None => ∀ i, (i < n)%nat → s !! i ≠ Some c
  end.
Proof.
  induction n as [|n IH]; intros Hn; simpl; [intros i; lia|].
  case_bool_decide as E.
  - split; [lia|]. split; [done|]. intros i. lia.
  - specialize (IH ltac:(lia)). destruct (rfind_below c s n) as [pos|].
    + destruct IH as (H1 & H2 & H3). split; [lia|]. split; [done|]. intros i Hi.
      destruct (decide (i = n)) as [->|]; [done|apply H3; lia].
    + intros i Hi. destruct (decide (i = n)) as [->|]; [done|apply IH; lia].
Qed.

Lemma rfind_app c s t : c ∉ t → rfind c (s ++ c :: t) = Some (length s).
Proof.
  intros Ht. unfold rfind. pose proof (rfind_below_spec c (s ++ c :: t) (length (s ++ c :: t)) ltac:(lia)) as H.
  assert (Hs : (s ++ c :: t) !! length s = Some c) by (rewrite lookup_app_r, Nat.sub_diag by lia; done).
  assert (Hlen : length (s ++ c :: t) = S (length s + length t)) by (rewrite length_app; simpl; lia).
  destruct (rfind_below _ _ _) as [pos|]; [|by destruct (H (length s) ltac:(lia))].
  destruct H as (H1 & H2 & H3). f_equal.
  destruct (decide (pos < length s)%nat); [by destruct (H3 (length s) ltac:(lia))|].
  destruct (decide (pos = length s)) as [->|]; [done|]. exfalso. apply Ht.
  rewrite lookup_app_r in H2 by lia. replace (pos - length s)%nat with (S (pos - length s - 1)) in H2 by lia.
  simpl in H2. by apply list_elem_of_lookup_2 in H2.
Qed.

Lemma rfind_none c s : c ∉ s → rfind c s = None.
Proof.
  intros Hs. unfold rfind. pose proof (rfind_below_spec c s (length s) ltac:(lia)) as H.
  destruct (rfind_below c s (length s)) as [pos|]; [|done]. destruct H as (_ & H & _).
  by apply list_elem_of_lookup_2 in H.
Qed.

Lemma split_userinfo_app userinfo host :
  "@"%char ∉ host →
  split_userinfo (match userinfo with [] => [] | _ => userinfo ++ ["@"%char] end ++ host) = (userinfo, host).
Proof.
  intros Hh. unfold split_userinfo. destruct userinfo as [|c u].
  - simpl. by rewrite rfind_none.
  - rewrite <- app_assoc. change (["@"%char] ++ host) with ("@"%char :: host). rewrite rfind_app by done.
    rewrite take_app_length. rewrite drop_app_ge by lia.
    by replace (length (c :: u) + 1 - length (c :: u))%nat with 1%nat by lia.
Qed.

(** The scan for the port stops at the last of ':', ']' and '@'. *)
Definition port_stop (c : ascii) : bool := bool_decide (c ∈ [":"; "]"; "@"]%char).

Lemma colon_from_app a c t n :
  (0 < length a)%nat → port_stop c = true → Forall (fun d => port_stop d = false) t → (n <= length t)%nat →
  colon_from (a ++ c :: t) (length a + n) = length a.
Proof.
  intros Ha Hc Ht. induction n as [|n IH]; intros Hn.
  - rewrite Nat.add_0_r. destruct (length a) as [|k] eqn:E; [lia|]. simpl.
    replace (S k) with (length a) by done.
    rewrite lookup_app_r, Nat.sub_diag by lia. simpl. unfold port_stop in Hc. by rewrite Hc.
  - rewrite Nat.add_succ_r. simpl. rewrite lookup_app_r by lia.
    replace (S (length a + n) - length a)%nat with (S n) by lia. simpl.
    destruct (lookup_lt_is_Some_2 t n ltac:(lia)) as [d Hd]. rewrite Hd.
    apply (Forall_lookup_1 _ _ _ _ Ht) in Hd. unfold port_stop in Hd. rewrite Hd. apply IH. lia.
Qed.

Lemma colon_from_none s n :
  (∀ i c, (0 < i <= n)%nat → s !! i = Some c → port_stop c = false) → (n < length s)%nat → colon_from s n = 0%nat.
Proof.
  induction n as [|n IH]; intros Hs Hn; simpl; [done|].
  destruct (lookup_lt_is_Some_2 s (S n) ltac:(lia)) as [c Hc]. rewrite Hc.
  assert (port_stop c = false) as Hp by (apply (Hs (S n)); [lia|done]). unfold port_stop in Hp. rewrite Hp.
  apply IH; [|lia]. intros i d Hi. apply Hs. lia.
Qed.

Lemma colon_position a c t :
  port_stop c = true → Forall (fun d => port_stop d = false) t →
  colon_from (a ++ c :: t) (length (a ++ c :: t) - 1) = length a.
Proof.
  intros Hc Ht. rewrite length_app. simpl.
  replace (length a + S (length t) - 1)%nat with (length a + length t)%nat by lia.
  destruct a as [|d a]; [|by apply colon_from_app; [simpl; lia|..]].
  simpl length. rewrite Nat.add_0_l. apply colon_from_none; [|simpl; lia].
  intros i d Hi Hd. simpl in Hd. destruct i as [|i]; [lia|]. simpl in Hd. by apply (Forall_lookup_1 _ _ _ _ Ht) in Hd.
Qed.

Lemma split_port_some a t port :
  a ≠ [] → Forall (fun d => port_stop d = false) t → 0 < port →
  to_integer_safe 32 (strip_zeros t) = Ok port →
  split_port (a ++ ":"%char :: t) = (a, port).
Proof.
  intros Ha Ht Hport Hto. unfold split_port. rewrite colon_position by done.
  rewrite lookup_app_r, Nat.sub_diag by lia. change ((":"%char :: t) !! 0%nat) with (Some ":"%char).
  rewrite bool_decide_eq_true_2 by done.
  assert ((0 <? length a)%nat = true) as -> by (apply Nat.ltb_lt; destruct a; simpl; [done|lia]).
  rewrite take_app_length, drop_app_ge by lia.
  replace (length a + 1 - length a)%nat with 1%nat by lia. change (drop 1 (":"%char :: t)) with t.
  cbn [andb]. rewrite Hto.
  by destruct (Z.eqb_spec port 0); [lia|].
Qed.

Lemma split_port_stop a c t :
  port_stop c = true → c ≠ ":"%char → Forall (fun d => port_stop d = false) t →
  split_port (a ++ c :: t) = (a ++ c :: t, 0).
Proof.
  intros Hc Hne Ht. unfold split_port. rewrite colon_position by done.
  rewrite lookup_app_r, Nat.sub_diag by lia. simpl. rewrite bool_decide_eq_false_2 by congruence.
  by rewrite andb_false_r.
Qed.

Lemma split_port_plain s : Forall (fun d => port_stop d = false) s → split_port s = (s, 0).
Proof.
  intros Hs. unfold split_port. destruct s as [|c s]; [done|].
  rewrite colon_from_none; [done| |simpl; lia].
  intros i d _ Hd. by apply (Forall_lookup_1 _ _ _ _ Hs) in Hd.
Qed.

(** *** What [parse_url] accepts *)

Definition host_char (c : ascii) : bool := not_in (lit "/?#@[]") c.

Section Url.
Context (inet_pton6 : slice → option (list Z)).

Record url_ok (u : HttpUrl) : Prop := {
  uo_userinfo : Forall (fun c => not_in (lit "/?#") c = true) (userinfo_ u);
  uo_lower : to_lower_slice (host_ u) = host_ u;
  uo_host : host_ u ≠ [] ∧ host_ u ≠ lit ".";
  uo_kind :
    if is_ipv6_ u
    then is_bracketed (host_ u) = true ∧ is_ok (init_ipv6_port inet_pton6 (host_ u) 1).1 = true ∧
         check_ipv6_host (host_ u) = Ok tt
    else check_url_part (host_ u) (lit "host") false = Ok tt ∧
         check_url_part (userinfo_ u) (lit "userinfo") true = Ok tt;
  uo_port : specified_port_ u = 0 ∨
    0 < specified_port_ u <= 65535 ∧
    strip_zeros (print_int 32 (specified_port_ u)) = print_int 32 (specified_port_ u);
  uo_default : port_ u = default_port_of (protocol_ u) (specified_port_ u);
  uo_query : head (query_ u) = Some "/"%char ∧ Forall (fun c => 32 < char_code c) (query_ u)
}.

(** of a checked part. *)
Lemma allowed_host_char b c : allowed_symbol b c = true → host_char c = true ∧ (b = false → c ≠ ":"%char).
Proof. destruct b; all_chars c; naive_solver. Qed.

Lemma hex_host_char c : is_hex_digit c = true → host_char c = true ∧ c ≠ ":"%char.
Proof. all_chars c; naive_solver. Qed.

Lemma high_host_char c : 128 <= char_code c → host_char c = true ∧ c ≠ ":"%char.
Proof. intros Hc. assert (Hh : (128 <=? char_code c) = true) by lia. revert Hh. clear Hc. all_chars c; naive_solver. Qed.

Lemma checked_chars b name part :
  check_url_part part name b = Ok tt →
  Forall (fun c => host_char c = true ∧ (b = false → c ≠ ":"%char)) part.
Proof.
  assert (∀ n part, (length part <= n)%nat → check_url_part part name b = Ok tt →
    Forall (fun c => host_char c = true ∧ (b = false → c ≠ ":"%char)) part) as H; [|by apply (H (length part))].
  clear part. induction n as [|n IH]; intros [|c part] Hn; simpl in Hn; try lia; [constructor..|]. simpl.
  destruct (allowed_symbol b c) eqn:Ha.
  { intros H. constructor; [by apply allowed_host_char|]. apply IH; [lia|done]. }
  case_bool_decide as Hp.
  - subst c. destruct part as [|h1 [|h2 part]]; try done.
    destruct (is_hex_digit h1 && is_hex_digit h2) eqn:Hh; [|done].
    apply andb_true_iff in Hh as [H1 H2]. intros H.
    destruct (hex_host_char h1 H1), (hex_host_char h2 H2).
    do 3 (constructor; [done|]). apply IH; [simpl in Hn; lia|done].
  - destruct (Z.leb_spec 128 (char_code c)) as [Hc|]; [|done]. intros H.
    destruct (high_host_char c Hc). constructor; [done|]. apply IH; [lia|done].
Qed.

Lemma parse_protocol_prefix pr rest d :
  ∃ p, parse_protocol (protocol_prefix pr ++ rest) d = Ok (pr, p) ∧ p_data p = rest ∧ p_status p = Ok tt.
Proof.
  unfold parse_protocol. rewrite read_till_any_spec by done. simpl p_data.
  set (name := match pr with Http => lit "http" | Https => lit "https" end).
  assert (Hpre : protocol_prefix pr ++ rest = name ++ ":"%char :: ("/"%char :: "/"%char :: rest)) by (by destruct pr).
  assert (Hn : Forall (fun c => not_in (lit ":/?#@[]") c = true) name) by (destruct pr; repeat constructor).
  rewrite Hpre. destruct (take_while_stop (not_in (lit ":/?#@[]")) name ":"%char ("/"%char :: "/"%char :: rest))
    as [-> ->]; [done|done|].
  set (p0 := with_data _ _).
  assert (try_skip (lit "://") p0 = (true, with_data p0 rest)) as -> by (by apply try_skip_true).
  exists (with_data p0 rest). split; [|done]. subst name. by destruct pr.
Qed.

(** The text of the URL before its query. *)
Definition authority (u : HttpUrl) : slice :=
  match userinfo_ u with [] => [] | _ => userinfo_ u ++ ["@"%char] end ++ host_ u ++
  (if 0 <? specified_port_ u then ":"%char :: print_int 32 (specified_port_ u) else []).

Lemma ipv6_host_chars host :
  check_ipv6_host host = Ok tt → is_bracketed host = true → host ≠ [] →
  ∃ body, host = "["%char :: body ++ ["]"%char] ∧ Forall (fun c => ipv6_host_char c = true) body.
Proof.
  unfold check_ipv6_host, is_bracketed. destruct (forallb _ _) eqn:Hf; [|done]. intros _ Hb _.
  apply andb_true_iff in Hb as [Hh Hl]. apply bool_decide_eq_true in Hh, Hl.
  destruct host as [|c host]; [done|]. injection Hh as ->.
  destruct host as [|d body _] using rev_ind; [done|].
  assert (d = "]"%char) as ->.
  { change ("["%char :: body ++ [d]) with (("["%char :: body) ++ [d]) in Hl. rewrite last_snoc in Hl. congruence. }
  exists body. split; [done|].
  change (drop 1 ("["%char :: body ++ ["]"%char])) with (body ++ ["]"%char]) in Hf.
  simpl length in Hf. rewrite length_app in Hf. simpl in Hf.
  replace (length body + 1 - 1)%nat with (length body) in Hf by lia.
  rewrite take_app_length in Hf. apply Forall_forall. intros c Hc.
  rewrite forallb_forall in Hf. apply Hf. by apply list_elem_of_In.
Qed.

Lemma plain_host_char c :
  host_char c = true → c ≠ ":"%char →
  not_in (lit "/?#") c = true ∧ c ≠ "@"%char ∧ c ≠ "["%char ∧ port_stop c = false.
Proof.
  unfold host_char, not_in, port_stop. rewrite !negb_true_iff, !bool_decide_eq_false.
  change (lit "/?#@[]") with ["/"; "?"; "#"; "@"; "["; "]"]%char.
  change (lit "/?#") with ["/"; "?"; "#"]%char. rewrite !not_elem_of_cons. naive_solver.
Qed.

Lemma host_facts u :
  url_ok u →
  Forall (fun c => not_in (lit "/?#") c = true) (host_ u) ∧ ("@"%char ∉ host_ u) ∧
  is_bracketed (host_ u) = is_ipv6_ u ∧
  (is_ipv6_ u = false → Forall (fun c => port_stop c = false) (host_ u)) ∧
  (is_ipv6_ u = true → ∃ body, host_ u = body ++ ["]"%char]).
Proof.
  intros [_ _ [Hne _] Hkind _ _ _]. destruct (is_ipv6_ u).
  - destruct Hkind as (Hb & _ & Hc). destruct (ipv6_host_chars _ Hc Hb Hne) as (body & E & Hbody). rewrite E in *.
    assert (∀ c, ipv6_host_char c = true → not_in (lit "/?#") c = true ∧ c ≠ "@"%char) as Hx
      by (intros c; all_chars c; naive_solver).
    split_and!; [| |done|done|].
    + constructor; [done|]. apply Forall_app. split; [|repeat constructor].
      eapply Forall_impl; [exact Hbody|]. intros c Hcc. by apply Hx.
    + rewrite elem_of_cons, elem_of_app, list_elem_of_singleton. intros [?|[Hin|?]]; [done| |done].
      rewrite Forall_forall in Hbody. by destruct (Hx _ (Hbody _ Hin)).
    + intros _. by exists ("["%char :: body).
  - destruct Hkind as [Hc _]. apply checked_chars in Hc.
    assert (∀ c, host_char c = true ∧ (false = false → c ≠ ":"%char) →
      not_in (lit "/?#") c = true ∧ c ≠ "@"%char ∧ c ≠ "["%char ∧ port_stop c = false) as Hx.
    { intros c [H1 H2]. specialize (H2 eq_refl). by apply plain_host_char. }
    assert (Forall (fun c => not_in (lit "/?#") c = true ∧ c ≠ "@"%char ∧ c ≠ "["%char ∧ port_stop c = false) (host_ u))
      as Hf by (eapply Forall_impl; [exact Hc|done]).
    split_and!; [| | | |done].
    + eapply Forall_impl; [exact Hf|]. naive_solver.
    + rewrite Forall_forall in Hf. intros Hin. destruct (Hf _ Hin). naive_solver.
    + unfold is_bracketed. destruct (host_ u) as [|c host]; [done|].
      apply Forall_cons in Hf as [(_ & _ & Hb & _) _]. simpl.
      by rewrite bool_decide_eq_false_2 by congruence.
    + intros _. eapply Forall_impl; [exact Hf|]. naive_solver.
Qed.

Lemma port_digits u : url_ok u → 0 < specified_port_ u →
  Forall (fun c => is_digit c = true) (print_int 32 (specified_port_ u)) ∧
  to_integer_safe 32 (strip_zeros (print_int 32 (specified_port_ u))) = Ok (specified_port_ u).
Proof.
  intros [_ _ _ _ Hp _ _] Hpos. destruct Hp as [?|[Hr Hz]]; [lia|].
  split.
  - unfold print_int. destruct (Z.ltb_spec (specified_port_ u) 0); [lia|].
    by destruct (print_uint_spec (specified_port_ u) ltac:(lia)).
  - rewrite Hz. apply to_integer_safe_ok; [done|]. split; [unfold signed_range; lia|done].
Qed.

Lemma authority_plain u : url_ok u → Forall (fun c => not_in (lit "/?#") c = true) (authority u).
Proof.
  intros Hok. destruct (host_facts u Hok) as (Hhost & _). unfold authority.
  apply Forall_app. split; [|apply Forall_app; split; [done|]].
  - pose proof (uo_userinfo _ Hok) as Hu. destruct (userinfo_ u); [constructor|].
    apply Forall_app. split; [done|repeat constructor].
  - destruct (Z.ltb_spec 0 (specified_port_ u)) as [Hpos|]; [|constructor]. constructor; [done|].
    destruct (port_digits u Hok Hpos) as [Hd _]. eapply Forall_impl; [exact Hd|]. intros c; all_chars c.
Qed.

Lemma authority_split u :
  url_ok u →
  split_port (authority u) =
  (match userinfo_ u with [] => [] | _ => userinfo_ u ++ ["@"%char] end ++ host_ u, specified_port_ u).
Proof.
  intros Hok. destruct (host_facts u Hok) as (_ & _ & _ & Hplain & Hv6). unfold authority.
  pose proof (uo_host _ Hok) as [Hne _].
  destruct (Z.ltb_spec 0 (specified_port_ u)) as [Hpos|Hle].
  - destruct (port_digits u Hok Hpos) as [Hd Hto]. rewrite app_assoc. apply split_port_some; [|..|done|done].
    + intros He. apply app_eq_nil in He as [_ He]. done.
    + eapply Forall_impl; [exact Hd|]. intros c; all_chars c.
  - assert (specified_port_ u = 0) as -> by (destruct (uo_port _ Hok); lia). rewrite app_nil_r.
    destruct (is_ipv6_ u) eqn:Hk.
    + destruct (Hv6 eq_refl) as [body ->]. rewrite app_assoc. by apply split_port_stop; [..|constructor].
    + specialize (Hplain eq_refl). destruct (userinfo_ u) as [|c ui]; [by apply split_port_plain|].
      rewrite <- app_assoc. by apply split_port_stop.
Qed.

Lemma make_query_id q :
  head q = Some "/"%char → Forall (fun c => 32 < char_code c) q → make_query q = q.
Proof.
  intros Hh Hq. assert (drop_spaces_back q = q) as Hd.
  { unfold drop_spaces_back. rewrite drop_while_id; [apply rev_involutive|].
    apply Forall_rev. eapply Forall_impl; [exact Hq|]. intros c Hc.
    apply Z.ltb_lt in Hc. revert Hc. clear. all_chars c. }
  unfold make_query. rewrite Hd. destruct q as [|c q]; [done|].
  rewrite bool_decide_eq_true_2 by done. rewrite app_nil_l. clear Hh Hd.
  induction Hq as [|d l Hd _ IH]; [done|]. rewrite bind_cons, IH. unfold escape_query_char.
  by destruct (Z.leb_spec (char_code d) 32); [lia|].
Qed.

(** The printed URL parses back to itself. *)
Lemma parse_get_url u d : url_ok u → ∃ s, get_url u = Some s ∧ parse_url inet_pton6 s d = Ok u.
Proof.
  intros Hok. pose proof (uo_query _ Hok) as [Hq0 Hq].
  eexists. split.
  { unfold get_url, CHECK. rewrite bool_decide_eq_true_2 by done. done. }
  set (pre := match userinfo_ u with [] => [] | _ => userinfo_ u ++ ["@"%char] end).
  set (prt := if 0 <? specified_port_ u then _ else _).
  assert (protocol_prefix (protocol_ u) ++ pre ++ host_ u ++ prt ++ query_ u =
          protocol_prefix (protocol_ u) ++ authority u ++ query_ u) as ->
    by (unfold authority; by rewrite <- !app_assoc).
  unfold parse_url.
  destruct (parse_protocol_prefix (protocol_ u) (authority u ++ query_ u) d) as (p & -> & Hp & Hst). cbn [mbind result_bind].
  rewrite read_till_any_spec by done. rewrite Hp.
  destruct (query_ u) as [|c q] eqn:Equery; [done|]. injection Hq0 as ->.
  destruct (take_while_stop (not_in (lit "/?#")) (authority u) "/"%char q) as [-> ->];
    [by apply authority_plain|done|].
  rewrite authority_split by done. fold pre.
  assert (0 <= specified_port_ u <= 65535) as Hport by (destruct (uo_port _ Hok); lia).
  replace ((specified_port_ u <? 0) || (65535 <? specified_port_ u)) with false by lia.
  destruct (host_facts u Hok) as (_ & Hat & Hbr & _). subst pre.
  rewrite split_userinfo_app by done. rewrite Hbr.
  pose proof (uo_host _ Hok) as [Hne Hdot]. rewrite (bool_decide_eq_false_2 (host_ u = [])) by done.
  rewrite (bool_decide_eq_false_2 (host_ u = lit ".")) by done.
  rewrite (uo_lower _ Hok). cbn [read_all fst p_data with_data]. rewrite make_query_id by done.
  rewrite <- (uo_default _ Hok), <- Equery.
  pose proof (uo_kind _ Hok) as Hk. destruct u as [pr ui host v6 sp prt0 qq]. simpl in *.
  destruct v6.
  - destruct Hk as (_ & -> & ->). done.
  - destruct Hk as [-> ->]. done.
Qed.

(** *** Everything [parse_url] returns is such a URL *)

Lemma strip_zeros_idem t : strip_zeros (strip_zeros t) = strip_zeros t.
Proof.
  induction t as [|c [|d t] IH]; [done..|]. change (strip_zeros (c :: d :: t)) with
    (if bool_decide (c = "0"%char) then strip_zeros (d :: t) else c :: d :: t).
  case_bool_decide as E; [done|]. simpl. by rewrite bool_decide_eq_false_2.
Qed.

Lemma split_port_prefix s : ∃ t, s = (split_port s).1 ++ t.
Proof.
  unfold split_port. destruct (_ && _); simpl; [eexists; by rewrite take_drop|exists []; by rewrite app_nil_r].
Qed.

Lemma split_port_port s :
  let port := (split_port s).2 in
  port = 0 ∨ port < 0 ∨ 0 < port ∧ (port <= 65535 → strip_zeros (print_int 32 port) = print_int 32 port).
Proof.
  unfold split_port. destruct (_ && _); simpl; [|by left].
  destruct (to_integer_safe 32 _) as [port|] eqn:Hto; [|right; left; lia].
  destruct (Z.eqb_spec port 0); [right; left; lia|].
  destruct (Z.ltb_spec port 0); [by right; left|]. right; right. split; [lia|]. intros _.
  apply to_integer_safe_ok in Hto as [_ Hto]; [|done]. rewrite <- Hto. apply strip_zeros_idem.
Qed.

Lemma split_userinfo_app_inv s : ∃ m, s = (split_userinfo s).1 ++ m ++ (split_userinfo s).2.
Proof.
  unfold split_userinfo. destruct (rfind "@"%char s) as [pos|] eqn:E; simpl.
  - exists ["@"%char]. apply rfind_Some in E. rewrite Nat.add_1_r. symmetry. by apply take_drop_middle.
  - by exists [].
Qed.

Lemma to_lower_idem c : to_lower (to_lower c) = to_lower c.
Proof. all_chars c. Qed.

Lemma lower_idem s : to_lower_slice (to_lower_slice s) = to_lower_slice s.
Proof. unfold to_lower_slice. rewrite <- list_fmap_compose. apply list_fmap_ext. intros i c _. apply to_lower_idem. Qed.

Lemma bracketed_lower host : is_bracketed (to_lower_slice host) = is_bracketed host.
Proof.
  unfold is_bracketed, to_lower_slice. rewrite fmap_last.
  assert (head (to_lower <$> host) = to_lower <$> head host) as -> by (by destruct host).
  f_equal; apply bool_decide_ext.
  - destruct (head host) as [c|]; simpl; [|done]. split; intros [= E]; f_equal; [|by subst].
    revert E. all_chars c.
  - destruct (last host) as [c|]; simpl; [|done]. split; intros [= E]; f_equal; [|by subst].
    revert E. all_chars c.
Qed.

Lemma c_str_lower s : c_str (to_lower_slice s) = to_lower_slice (c_str s).
Proof.
  unfold c_str, to_lower_slice. induction s as [|c s IH]; simpl; [done|].
  assert (bool_decide (to_lower c = "000"%char) = bool_decide (c = "000"%char)) as -> by (all_chars c).
  destruct (negb _); simpl; [|done]. f_equal. apply IH.
Qed.

Lemma strip_brackets_lower host :
  is_bracketed host = true → strip_brackets (to_lower_slice host) = to_lower_slice (strip_brackets host).
Proof.
  intros Hb. pose proof (bracketed_lower host) as Hl. rewrite Hb in Hl.
  apply andb_true_iff in Hb as [Hh Ht]. apply andb_true_iff in Hl as [Hh' Ht'].
  unfold strip_brackets. rewrite Hh, Ht, Hh', Ht'. unfold to_lower_slice. rewrite length_fmap.
  destruct (2 <? length host)%nat; simpl; [|done]. by rewrite <- fmap_drop, <- fmap_take.
Qed.

(** [inet_pton] reads hexadecimal digits in either case. *)
Context (Hcase : ∀ s, is_Some (inet_pton6 s) → is_Some (inet_pton6 (to_lower_slice s))).

Lemma init_lower host :
  is_bracketed host = true → is_ok (init_ipv6_port inet_pton6 host 1).1 = true →
  is_ok (init_ipv6_port inet_pton6 (to_lower_slice host) 1).1 = true.
Proof.
  intros Hb. unfold init_ipv6_port. change (port_is_valid 1) with true. cbn [negb].
  rewrite strip_brackets_lower, c_str_lower by done.
  destruct (inet_pton6 (c_str (strip_brackets host))) as [v|] eqn:E; [|done]. intros _.
  destruct (Hcase _ (mk_is_Some _ _ E)) as [v' ->]. done.
Qed.

Lemma lower_eq_nil host : to_lower_slice host = [] → host = [].
Proof. by destruct host. Qed.

Lemma lower_eq_dot host : to_lower_slice host = lit "." → host = lit ".".
Proof.
  destruct host as [|c [|d host]]; [done| |done]. intros [= E]. unfold lit. simpl. f_equal. revert E. all_chars c.
Qed.

Lemma escape_visible c : forallb (fun d => 32 <? char_code d) (escape_query_char c) = true.
Proof. all_chars c. Qed.

Lemma make_query_ok rest : head (make_query rest) = Some "/"%char ∧ Forall (fun c => 32 < char_code c) (make_query rest).
Proof.
  assert (Hs : escape_query_char "/"%char = ["/"%char]) by reflexivity.
  unfold make_query. set (q := match drop_spaces_back rest with [] => ["/"%char] | _ => _ end).
  assert (q ≠ []) as Hq by (subst q; by destruct (drop_spaces_back rest)).
  assert (Forall (fun c => 32 < char_code c) (q ≫= escape_query_char)) as Hall.
  { apply Forall_bind, Forall_true. intros c. apply Forall_forall. intros d Hd%list_elem_of_In.
    pose proof (escape_visible c) as He. rewrite forallb_forall in He. specialize (He d Hd). simpl in He. lia. }
  split.
  - destruct q as [|c q']; [done|]. rewrite bind_cons. case_bool_decide as E; [|done].
    injection E as ->. by rewrite Hs.
  - apply Forall_app. split; [|done]. destruct (bool_decide _); repeat constructor.
Qed.

Lemma parse_url_ok url d u : parse_url inet_pton6 url d = Ok u → url_ok u.
Proof.
  unfold parse_url. destruct (parse_protocol url d) as [[pr p]|] eqn:Hproto; [|done]. cbn [mbind result_bind].
  assert (p_status p = Ok tt) as Hst.
  { revert Hproto. unfold parse_protocol. destruct (read_till_nofail_any _ _) as [t p1] eqn:Hr.
    rewrite read_till_any_spec in Hr by done. injection Hr as <- <-.
    destruct (try_skip _ _) as [[] p2] eqn:Hs; [|by intros [= _ <-]].
    apply try_skip_true in Hs as [_ Hs]. do 2 (case_bool_decide; [by intros [= _ <-]|]). done. }
  rewrite read_till_any_spec by done. set (auth := take_while _ _).
  assert (Hauth : Forall (fun c => not_in (lit "/?#") c = true) auth) by apply take_while_Forall.
  destruct (split_port auth) as [uh port] eqn:Hport.
  pose proof (split_port_prefix auth) as [t Ht]. pose proof (split_port_port auth) as Hpp.
  rewrite Hport in Ht, Hpp. simpl in Ht, Hpp.
  destruct ((port <? 0) || (65535 <? port)) eqn:Hrange; [done|].
  destruct (split_userinfo uh) as [ui host] eqn:Hui.
  pose proof (split_userinfo_app_inv uh) as [m Hm]. rewrite Hui in Hm. simpl in Hm.
  destruct (is_bracketed host && _) eqn:Hinit; [done|].
  case_bool_decide as Hne; [done|]. case_bool_decide as Hdot; [done|].
  destruct (if is_bracketed host then _ else _) as [[]|] eqn:Hchk; [|done]. cbn [mbind result_bind].
  intros [= <-]. split; cbn [protocol_ userinfo_ host_ is_ipv6_ specified_port_ port_ query_].
  - rewrite Ht, Hm in Hauth. rewrite !Forall_app in Hauth. apply Hauth.
  - apply lower_idem.
  - split; [intros E; by apply lower_eq_nil in E|intros E; by apply lower_eq_dot in E].
  - destruct (is_bracketed host) eqn:Hb.
    + simpl in Hinit. apply negb_false_iff in Hinit. rewrite bracketed_lower. split_and!; [done| |done].
      by apply init_lower.
    + revert Hchk. destruct (check_url_part (to_lower_slice host) (lit "host") false) as [[]|]; [|done].
      intros Hchk. split; [done|exact Hchk].
  - apply orb_false_iff in Hrange as [?%Z.ltb_ge ?%Z.ltb_ge].
    destruct Hpp as [?|[?|[? Hz]]]; [by left|lia|right]. split; [lia|by apply Hz].
  - done.
  - apply make_query_ok.
Qed.
End Url.

(** A URL that parses has a canonical text that parses, under any default protocol, to the same URL. *)
Theorem parse_url_canonical (inet_pton6 : slice → option (list Z)) (url : slice) (d d' : Protocol) (u : HttpUrl)
  (Hcase : ∀ s, is_Some (inet_pton6 s) → is_Some (inet_pton6 (to_lower_slice s)))
  (Hparse : parse_url inet_pton6 url d = Ok u) :
  ∃ s, get_url u = Some s ∧ parse_url inet_pton6 s d' = Ok u.
Proof. apply parse_get_url. by apply (parse_url_ok inet_pton6 Hcase url d). Qed.

(** An [inet_pton] that knows one address, in either case of its letters. *)
Definition demo_pton6 (s : slice) : option (list Z) :=
  if bool_decide (to_lower_slice s = lit "fe80::1") then Some [254; 128] else None.

Definition demo_url : slice := lit "HTTPS://u:p@[FE80::1]:0080?a b".

Lemma parse_url_canonical_witness :
  ∃ u s, parse_url demo_pton6 demo_url Http = Ok u ∧ get_url u = Some s ∧
         s = lit "https://u:p@[fe80::1]:80/?a%20b" ∧ parse_url demo_pton6 s Http = Ok u.
Proof.
  destruct (parse_url demo_pton6 demo_url Http) as [u|] eqn:Hparse; [|vm_compute in Hparse; discriminate].
  destruct (parse_url_canonical demo_pton6 demo_url Http Http u) as (s & Hs & Hp); [|exact Hparse|].
  - intros s Hs. unfold demo_pton6 in *. rewrite lower_idem. done.
  - exists u, s. split; [done|]. split; [exact Hs|]. split; [|exact Hp].
    vm_compute in Hparse. injection Hparse as <-. vm_compute in Hs. injection Hs as <-. reflexivity.
Defined.

(** *** Queries *)

(** The text of a path and of arguments, each name and value percent-encoded. *)
Definition encode_arg (arg : slice * slice) : slice :=
  url_encode_loop (fst arg) ++ "="%char :: url_encode_loop (snd arg).

Definition query_text (path : list slice) (args : list (slice * slice)) : slice :=
  "/"%char :: implode (url_encode_loop <$> path) "/"%char ++
  match args with [] => [] | _ => "?"%char :: implode (encode_arg <$> args) "&"%char end.

Definition encoded_char (c : ascii) : bool := is_url_char c || bool_decide (c = "%"%char).

Lemma encoded_chars data : Forall (fun c => encoded_char c = true) (url_encode_loop data).
Proof.
  destruct (url_decode_encode data false) as (enc & He & _ & Hf). rewrite url_encode_total in He.
  injection He as <-. eapply Forall_impl; [exact Hf|]. unfold encoded_char.
  intros c [-> | ->]; [done|]. by rewrite orb_true_r.
Qed.

Lemma encoded_not_in (d : ascii) data : encoded_char d = false → d ∉ url_encode_loop data.
Proof.
  intros Hd Hin. pose proof (encoded_chars data) as Hf. rewrite Forall_forall in Hf.
  specialize (Hf d Hin). simpl in Hf. congruence.
Qed.

Lemma encode_nonempty data : data ≠ [] → url_encode_loop data ≠ [].
Proof. destruct data as [|c data]; [done|]. intros _. simpl. by destruct (is_url_char c). Qed.

Lemma read_till_stop c a t st :
  c ∉ a → st = Ok tt →
  read_till_nofail c {| p_data := a ++ c :: t; p_status := st |} = (a, {| p_data := c :: t; p_status := st |}).
Proof.
  intros Ha ->. unfold read_till_nofail. simpl. rewrite find_app by done.
  by rewrite take_app_length, drop_app_length.
Qed.

Lemma read_till_end c a st :
  c ∉ a → st = Ok tt →
  read_till_nofail c {| p_data := a; p_status := st |} = (a, {| p_data := []; p_status := st |}).
Proof. intros Ha ->. unfold read_till_nofail. simpl. apply find_None in Ha as ->. done. Qed.

Lemma split_encode_arg arg : split (encode_arg arg) "="%char = (url_encode_loop (fst arg), url_encode_loop (snd arg)).
Proof.
  unfold split, encode_arg. rewrite find_app by (by apply encoded_not_in).
  rewrite take_app_length, drop_app_ge by lia.
  by replace (length (url_encode_loop arg.1) + 1 - length (url_encode_loop arg.1))%nat with 1%nat by lia.
Qed.

Lemma encode_arg_not_in (d : ascii) arg : encoded_char d = false → d ≠ "="%char → d ∉ encode_arg arg.
Proof.
  intros Hd Hne. unfold encode_arg. rewrite elem_of_app, elem_of_cons.
  intros [H|[H|H]]; [by apply encoded_not_in in H|done|by apply encoded_not_in in H].
Qed.

Lemma parse_args_text args fuel :
  Forall (fun a => fst a ≠ []) args → (length (implode (encode_arg <$> args) "&"%char) <= fuel)%nat →
  parse_args fuel (new_parser (implode (encode_arg <$> args) "&"%char)) = args.
Proof.
  revert fuel. induction args as [|[k v] args IH]; intros fuel Hk Hf.
  { by destruct fuel. }
  apply Forall_cons in Hk as [Hk Hks]. simpl in Hk.
  assert (Hne : encode_arg (k, v) ≠ []) by (unfold encode_arg; simpl; by destruct (url_encode_loop k)).
  assert (Hamp : "&"%char ∉ encode_arg (k, v)) by (by apply encode_arg_not_in).
  destruct args as [|arg args].
  - simpl in *. destruct fuel as [|fuel]; [by destruct (encode_arg (k, v)); simpl in *; [|lia]|].
    simpl. rewrite bool_decide_eq_false_2 by done. unfold new_parser. rewrite read_till_end by done.
    rewrite split_encode_arg. simpl. rewrite !url_decode_encode_loop. destruct k as [|c k]; [done|].
    f_equal. by destruct fuel.
  - change (encode_arg <$> (k, v) :: arg :: args) with (encode_arg (k, v) :: (encode_arg <$> arg :: args)) in *.
    rewrite implode_cons in * by done. change (["&"%char] ++ ?l) with ("&"%char :: l) in *.
    set (rest := implode (encode_arg <$> arg :: args) "&"%char) in *.
    rewrite length_app in Hf. simpl in Hf. destruct fuel as [|fuel]; [lia|].
    cbn [parse_args]. simpl p_data. rewrite bool_decide_eq_false_2 by (by destruct (encode_arg (k, v))).
    unfold new_parser. rewrite read_till_stop by done. rewrite split_encode_arg. simpl.
    rewrite !url_decode_encode_loop.
    destruct k as [|c k]; [done|]. f_equal. apply (IH fuel); [done|lia].
Qed.

Lemma pop_empty_back_id path : (∀ s, last path = Some s → s ≠ []) → pop_empty_back path = path.
Proof.
  intros Hl. unfold pop_empty_back. destruct path as [|s path _] using rev_ind; [done|].
  rewrite rev_app_distr. simpl. rewrite bool_decide_eq_false_2 by (apply Hl, last_snoc).
  simpl. by rewrite rev_involutive.
Qed.

Lemma implode_chars (P : ascii → Prop) v d : P d → Forall (Forall P) v → Forall P (implode v d).
Proof.
  intros Hd. induction 1 as [|x v Hx Hv IH]; [constructor|]. destruct v as [|y v]; [done|].
  rewrite implode_cons by done. apply Forall_app. split; [done|]. by constructor.
Qed.

Lemma implode_nonempty v d s : last v = Some s → s ≠ [] → implode v d ≠ [].
Proof.
  induction v as [|x v IH]; intros Hl Hs; [done|]. destruct v as [|y v]; [by injection Hl as ->|].
  rewrite implode_cons by done. by destruct x.
Qed.

Lemma decode_path path :
  path ≠ [] → (∀ s, last path = Some s → s ≠ []) →
  pop_empty_back ((fun segment => url_decode segment false) <$>
                  full_split (implode (url_encode_loop <$> path) "/"%char) "/"%char) = path.
Proof.
  intros Hne Hl. rewrite full_split_implode.
  - rewrite <- list_fmap_compose. rewrite (list_fmap_ext _ id); [|intros i x _; apply url_decode_encode_loop].
    rewrite list_fmap_id. by apply pop_empty_back_id.
  - by destruct path.
  - destruct (last path) as [s|] eqn:E; [|by destruct path as [|? ? _] using rev_ind; [|rewrite last_snoc in E]].
    apply implode_nonempty with (url_encode_loop s); [by rewrite fmap_last, E|by apply encode_nonempty, Hl].
  - apply Forall_fmap, Forall_true. intros s. by apply encoded_not_in.
Qed.

(** Any path segments and arguments, percent-encoded, are read back by the query parser in order. *)
Theorem parse_url_query_roundtrip (path : list slice) (args : list (slice * slice))
  (Hpath : ∀ s, last path = Some s → s ≠ []) (Hargs : Forall (fun a => fst a ≠ []) args) :
  parse_url_query (query_text path args) = mkUrlQuery path args.
Proof.
  unfold query_text, parse_url_query. rewrite (bool_decide_eq_true_2 ("/"%char = "/"%char)) by done.
  set (ptext := implode (url_encode_loop <$> path) "/"%char).
  assert (Hp : Forall (fun c => not_in (lit "?#") c = true) ptext).
  { apply implode_chars; [done|]. apply Forall_fmap, Forall_true. intros s.
    eapply Forall_impl; [apply encoded_chars|]. intros c; all_chars c. }
  assert (Hpth : pop_empty_back ((fun s => url_decode s false) <$> full_split ptext "/"%char) = path)
    by (destruct path; [done|by apply decode_path]).
  destruct args as [|a args].
  - rewrite app_nil_r. change (fun c => negb (bool_decide (c ∈ lit "?#"))) with (not_in (lit "?#")).
    rewrite take_while_all, drop_ge by done. by rewrite Hpth.
  - change (fun c => negb (bool_decide (c ∈ lit "?#"))) with (not_in (lit "?#")).
    set (atext := implode (encode_arg <$> a :: args) "&"%char).
    destruct (take_while_stop (not_in (lit "?#")) ptext "?"%char atext) as [-> _]; [done|done|].
    rewrite drop_app_length, Hpth, bool_decide_eq_true_2 by done.
    assert (take_while (fun c => negb (bool_decide (c = "#"%char))) atext = atext) as ->.
    { apply take_while_all. apply implode_chars; [done|]. apply Forall_fmap, Forall_true. intros x.
      apply Forall_forall. intros c Hc. apply negb_true_iff, bool_decide_eq_false. intros ->.
      by apply encode_arg_not_in in Hc. }
    subst atext. by rewrite parse_args_text by done.
Qed.

Definition demo_path : list slice := [lit "bot1:AB"; lit "send message"].
Definition demo_args : list (slice * slice) := [(lit "text", lit "a&b=c#d"); (lit "x", [])].

Lemma parse_url_query_roundtrip_witness :
  query_text demo_path demo_args = lit "/bot1%3AAB/send%20message?text=a%26b%3Dc%23d&x=" ∧
  parse_url_query (query_text demo_path demo_args) = mkUrlQuery demo_path demo_args.
Proof.
  split; [reflexivity|]. apply parse_url_query_roundtrip.
  - intros s [= <-]. discriminate.
  - repeat constructor; discriminate.
Defined.
