(* ===== verification/TlStorage.v ===== *)
(** * TL serialization

    [td/utils/tl_storers.h] and [tl_parsers.{h,cpp}]: the bytes of integers and
    strings, and the parser that reads them.  Its pointer is the list of the
    bytes from there on; after an error it points to [empty_data].  [None] is a
    failed [CHECK] or a read past the end of the bytes. *)

From S2P Require Import Prelude Slices.

(** ** Storing *)

(** The bytes of an integer of [n] bytes in memory. *)
Fixpoint store_binary (n : nat) (x : Z) : slice :=
  match n with O => [] | S n => chr x :: store_binary n (x / 256) end.
Definition store_int (x : Z) : slice := store_binary 4 x.
Definition store_long (x : Z) : slice := store_binary 8 x.

Definition zeros (n : nat) : slice := replicate n (chr 0).

Definition string_header (len : Z) : slice :=
  if len <? 254 then [chr len]
  else if len <? Z.shiftl 1 24
  then [chr 254; chr (Z.land len 255); chr (Z.land (Z.shiftr len 8) 255); chr (Z.shiftr len 16)]
  else [chr 255; chr (Z.land len 255); chr (Z.land (Z.shiftr len 8) 255); chr (Z.land (Z.shiftr len 16) 255);
        chr (Z.land (Z.shiftr len 24) 255); chr 0; chr 0; chr 0].
Definition string_padding (len : Z) : slice :=
  match Z.land (if len <? 254 then len + 1 else len) 3 with
  | 1 => zeros 3
  | 2 => zeros 2
  | 3 => zeros 1
  | _ => []
  end.
Definition store_string (str : slice) : option slice :=
  let len := slen str in
  if len <? Z.shiftl 1 32 then Some (string_header len ++ str ++ string_padding len) else None.

(** [TlStorerCalcLength] *)
Definition calc_string_length (str : slice) : Z :=
  let add := slen str in
  let add := if add <? 254 then add + 1 else if add <? Z.shiftl 1 24 then add + 4 else add + 8 in
  Z.land (add + 3) (-4).

(** ** Parsing *)

Record TlParser := mkParser { p_data : slice; data_len : Z; left_len : Z; error_pos : Z; error : slice }.
Definition new_parser (s : slice) : TlParser := mkParser s (slen s) (slen s) (2 ^ 64 - 1) [].
Definition set_data v (p : TlParser) := mkParser v (data_len p) (left_len p) (error_pos p) (error p).
Definition empty_data : slice := zeros 64.

Definition set_error (error_message : slice) (p : TlParser) : option TlParser :=
  if bool_decide (error p = []) then
    (CHECK! negb (bool_decide (error_message = [])) ;;
     Some (mkParser empty_data 0 0 (data_len p - left_len p) error_message))%td
  else
    (CHECK! negb (error_pos p =? 2 ^ 64 - 1) && (data_len p =? 0) && (left_len p =? 0) ;;
     Some (set_data empty_data p))%td.
Definition get_status (p : TlParser) : option slice := if bool_decide (error p = []) then None else Some (error p).

Definition check_len (len : Z) (p : TlParser) : option TlParser :=
  if left_len p <? len then set_error (lit "Not enough data to read") p
  else Some (mkParser (p_data p) (data_len p) (left_len p - len) (error_pos p) (error p)).

(** Bytes of memory, which must be there. *)
Definition bytes_at (pos len : nat) (s : slice) : option slice :=
  if (pos + len <=? length s)%nat then Some (take len (drop pos s)) else None.
Definition fetch_binary_unsafe (n : nat) (p : TlParser) : option (slice * TlParser) :=
  b ← bytes_at 0 n (p_data p);
  Some (b, set_data (drop n (p_data p)) p).

Fixpoint binary_value (s : slice) : Z := match s with [] => 0 | c :: s => char_code c + 256 * binary_value s end.

Definition fetch_int (p : TlParser) : option (Z * TlParser) :=
  p ← check_len 4 p;
  '(b, p) ← fetch_binary_unsafe 4 p;
  Some (to_signed 32 (binary_value b), p).
Definition fetch_long (p : TlParser) : option (Z * TlParser) :=
  p ← check_len 8 p;
  '(b, p) ← fetch_binary_unsafe 8 p;
  Some (to_signed 64 (binary_value b), p).

(** The length of a string, where it begins, its aligned length and the size of
    its header. *)
Definition fetch_string_header (p : TlParser) : option (Z * nat * Z * nat * TlParser) :=
  p ← check_len 4 p;
  first ← bytes_at 0 1 (p_data p);
  let result_len := binary_value first in
  if result_len <? 254 then Some (result_len, 1%nat, Z.shiftl (Z.shiftr result_len 2) 2, 4%nat, p)
  else if result_len =? 254 then
    b ← bytes_at 1 3 (p_data p);
    let result_len := binary_value b in
    Some (result_len, 4%nat, Z.shiftl (Z.shiftr (result_len + 3) 2) 2, 4%nat, p)
  else
    p ← check_len 4 p;
    b ← bytes_at 1 7 (p_data p);
    let result_len := binary_value b in
    Some (result_len, 8%nat, Z.shiftl (Z.shiftr (result_len + 3) 2) 2, 8%nat, p).
Definition fetch_string (p : TlParser) : option (slice * TlParser) :=
  '(result_len, begin, result_aligned_len, header, p) ← fetch_string_header p;
  let data := p_data p in
  p ← check_len result_aligned_len (set_data (drop header data) p);
  if negb (bool_decide (error p = [])) then Some ([], p)
  else
    result ← bytes_at begin (Z.to_nat result_len) data;
    Some (result, set_data (drop (Z.to_nat result_aligned_len) (p_data p)) p).

Definition fetch_string_raw (size : Z) (p : TlParser) : option (slice * TlParser) :=
  p ← check_len size p;
  if negb (bool_decide (error p = [])) then Some ([], p)
  else
    '(b, p) ← fetch_binary_unsafe (Z.to_nat size) p;
    Some (b, p).

Definition fetch_end (p : TlParser) : option TlParser :=
  if left_len p =? 0 then Some p else set_error (lit "Too much data to fetch") p.

#[local] Arguments lit : simpl never.
#[local] Arguments zeros : simpl never.

(** ** Bytes of integers *)

Lemma store_binary_length n x : length (store_binary n x) = n.
Proof. revert x. induction n as [|n IH]; intros x; cbn; [done|]. by rewrite IH. Qed.

Lemma char_code_chr_mod x : char_code (chr x) = x mod 256.
Proof.
  assert (chr x = chr (x mod 256)) as -> by (unfold chr; by rewrite Z.mod_mod).
  apply char_code_chr, Z.mod_pos_bound. lia.
Qed.

Lemma chr_mod x : chr (x mod 256) = chr x.
Proof. unfold chr. by rewrite Z.mod_mod. Qed.

Lemma binary_value_store n x : binary_value (store_binary n x) = x mod 256 ^ Z.of_nat n.
Proof.
  revert x. induction n as [|n IH]; intros x; [cbn; by rewrite Z.mod_1_r|]. cbn [store_binary binary_value].
  rewrite IH, char_code_chr_mod, Nat2Z.inj_succ, Z.pow_succ_r, Z.rem_mul_r by lia. lia.
Qed.

Lemma binary_value_range s : 0 <= binary_value s < 256 ^ slen s.
Proof.
  induction s as [|c s IH]; [done|]. cbn [binary_value]. pose proof (char_code_range c). unfold slen in *. cbn [length].
  rewrite Nat2Z.inj_succ, Z.pow_succ_r by lia. nia.
Qed.

Lemma to_signed_mod w x : 0 < w → - 2 ^ (w - 1) <= x < 2 ^ (w - 1) → to_signed w (x mod 2 ^ w) = x.
Proof.
  intros Hw Hx. unfold to_signed, wrap. rewrite Z.mod_mod by lia.
  assert (2 ^ w = 2 * 2 ^ (w - 1)) as E by (rewrite <- Z.pow_succ_r by lia; f_equal; lia). rewrite E in *.
  destruct (Z_lt_le_dec x 0) as [Hn|Hp].
  - assert (x mod (2 * 2 ^ (w - 1)) = x + 2 * 2 ^ (w - 1)) as ->; [symmetry; apply Z.mod_unique with (-1); lia|].
    case_match; lia.
  - rewrite Z.mod_small by lia. case_match; lia.
Qed.

Lemma store_binary_mod n x y : x mod 256 ^ Z.of_nat n = y mod 256 ^ Z.of_nat n → store_binary n x = store_binary n y.
Proof.
  revert x y. induction n as [|n IH]; intros x y E; [done|]. rewrite Nat2Z.inj_succ, Z.pow_succ_r in E by lia.
  assert (0 < 256 ^ Z.of_nat n) by (apply Z.pow_pos_nonneg; lia). rewrite !Z.rem_mul_r in E by lia.
  pose proof (Z.mod_pos_bound x 256). pose proof (Z.mod_pos_bound y 256). cbn [store_binary]. f_equal.
  - rewrite <- (chr_mod x), <- (chr_mod y). f_equal. lia.
  - apply IH. lia.
Qed.

(** ** Parsing what was stored *)

(** A parser with [s] before it and no error. *)
Definition parser_at (total : Z) (s : slice) : TlParser := mkParser s total (slen s) (2 ^ 64 - 1) [].

Lemma check_len_at total s len : 0 <= len <= slen s → check_len len (parser_at total s) = Some (mkParser s total (slen s - len) (2 ^ 64 - 1) []).
Proof. intros Hl. unfold check_len. cbn. by replace (slen s <? len) with false by lia. Qed.

Lemma fetch_binary_at total n b r left :
  length b = n →
  fetch_binary_unsafe n (mkParser (b ++ r) total left (2 ^ 64 - 1) []) = Some (b, mkParser r total left (2 ^ 64 - 1) []).
Proof.
  intros <-. unfold fetch_binary_unsafe, bytes_at. cbn [p_data]. rewrite length_app. cbn [Nat.add].
  replace (length b <=? length b + length r)%nat with true by (symmetry; apply Nat.leb_le; lia). cbn [mbind option_bind].
  rewrite drop_0, take_app_length. unfold set_data. cbn. by rewrite drop_app_length.
Qed.

Lemma fetch_int_store total x r :
  in_int32 x → fetch_int (parser_at total (store_int x ++ r)) = Some (x, parser_at total r).
Proof.
  intros Hx. unfold fetch_int. pose proof (store_binary_length 4 x) as Hlen. fold (store_int x) in Hlen.
  pose proof (slen_nonneg r). assert (slen (store_int x) = 4) as Hs by (unfold slen; by rewrite Hlen).
  rewrite check_len_at by (rewrite slen_app; lia). cbn [mbind option_bind].
  rewrite fetch_binary_at by done. cbn [mbind option_bind]. unfold store_int. rewrite binary_value_store.
  change (256 ^ Z.of_nat 4) with (2 ^ 32). rewrite to_signed_mod by (unfold in_int32, INT32_MAX in Hx; lia).
  fold (store_int x). rewrite slen_app, Hs. unfold parser_at. do 3 f_equal. lia.
Qed.

Lemma fetch_long_store total x r :
  in_int64 x → fetch_long (parser_at total (store_long x ++ r)) = Some (x, parser_at total r).
Proof.
  intros Hx. unfold fetch_long. pose proof (store_binary_length 8 x) as Hlen. fold (store_long x) in Hlen.
  pose proof (slen_nonneg r). assert (slen (store_long x) = 8) as Hs by (unfold slen; by rewrite Hlen).
  rewrite check_len_at by (rewrite slen_app; lia). cbn [mbind option_bind].
  rewrite fetch_binary_at by done. cbn [mbind option_bind]. unfold store_long. rewrite binary_value_store.
  change (256 ^ Z.of_nat 8) with (2 ^ 64). rewrite to_signed_mod by (unfold in_int64, INT64_MAX in Hx; lia).
  fold (store_long x). rewrite slen_app, Hs. unfold parser_at. do 3 f_equal. lia.
Qed.

Lemma fetch_raw_at total b r :
  fetch_string_raw (slen b) (parser_at total (b ++ r)) = Some (b, parser_at total r).
Proof.
  unfold fetch_string_raw. pose proof (slen_nonneg r). pose proof (slen_nonneg b).
  rewrite check_len_at by (rewrite slen_app; lia). cbn [mbind option_bind error bool_decide negb].
  rewrite bool_decide_eq_true_2 by done. cbn [negb]. replace (Z.to_nat (slen b)) with (length b) by (unfold slen; by rewrite Nat2Z.id).
  rewrite fetch_binary_at by done.
  cbn [mbind option_bind]. unfold parser_at. rewrite slen_app. do 3 f_equal. lia.
Qed.

(** *** Strings *)

Lemma land_3 a : Z.land a 3 = a mod 4.
Proof. change 3 with (Z.ones 2). by rewrite Z.land_ones. Qed.

Lemma align_4 a : Z.shiftl (Z.shiftr a 2) 2 = a - a mod 4.
Proof. rewrite Z.shiftl_mul_pow2, Z.shiftr_div_pow2 by lia. change (2 ^ 2) with 4. pose proof (Z.div_mod a 4). lia. Qed.

Lemma land_minus_4 a : Z.land a (-4) = a - a mod 4.
Proof. change (-4) with (Z.lnot (Z.ones 2)). rewrite <- Z.ldiff_land, Z.ldiff_ones_r by lia. apply align_4. Qed.

(** The number of zero bytes after a string. *)
Definition padding (len : Z) : Z := (- (if len <? 254 then len + 1 else len)) mod 4.

Lemma string_padding_zeros len : string_padding len = zeros (Z.to_nat (padding len)).
Proof.
  unfold string_padding, padding. rewrite land_3. generalize (if len <? 254 then len + 1 else len). intros a.
  assert (a mod 4 = 0 ∧ (- a) mod 4 = 0 ∨ a mod 4 = 1 ∧ (- a) mod 4 = 3 ∨ a mod 4 = 2 ∧ (- a) mod 4 = 2
          ∨ a mod 4 = 3 ∧ (- a) mod 4 = 1) as H by (Z.to_euclidean_division_equations; lia).
  by destruct H as [[-> ->]|[[-> ->]|[[-> ->]|[-> ->]]]].
Qed.

Definition header_length (len : Z) : Z := if len <? 254 then 1 else if len <? 2 ^ 24 then 4 else 8.

Lemma string_header_length len : slen (string_header len) = header_length len.
Proof. unfold string_header, header_length. change (Z.shiftl 1 24) with (2 ^ 24). by repeat case_match. Qed.

Lemma padding_range len : 0 <= padding len < 4.
Proof. apply Z.mod_pos_bound. lia. Qed.

Lemma zeros_slen n : 0 <= n → slen (zeros (Z.to_nat n)) = n.
Proof. intros Hn. unfold slen, zeros. rewrite length_replicate. lia. Qed.

(** A string, its header and its padding fill words of 4 bytes, as many as the
    parser expects. *)
Lemma string_aligned len :
  0 <= len →
  let total := header_length len + len + padding len in
  total mod 4 = 0
  ∧ total = (if len <? 254 then 4 + Z.shiftl (Z.shiftr len 2) 2 else header_length len + Z.shiftl (Z.shiftr (len + 3) 2) 2).
Proof.
  intros Hl. cbv zeta. unfold header_length, padding. rewrite !align_4.
  destruct (len <? 254); [|destruct (len <? 2 ^ 24)]; split; Z.to_euclidean_division_equations; lia.
Qed.

Lemma store_string_parts str ss :
  store_string str = Some ss →
  slen str < 2 ^ 32 ∧ ss = string_header (slen str) ++ str ++ zeros (Z.to_nat (padding (slen str)))
  ∧ slen ss = header_length (slen str) + slen str + padding (slen str).
Proof.
  unfold store_string. change (Z.shiftl 1 32) with (2 ^ 32). destruct (Z.ltb_spec (slen str) (2 ^ 32)) as [Hl|]; [|done].
  intros [= <-]. rewrite string_padding_zeros. split; [done|]. split; [done|].
  rewrite !slen_app, string_header_length, zeros_slen by apply padding_range. lia.
Qed.

(** The length that is computed for the buffer is the length that is stored. *)
Lemma calc_string_length_ok str ss : store_string str = Some ss → slen ss = calc_string_length str ∧ slen ss mod 4 = 0.
Proof.
  intros (Hl & _ & E)%store_string_parts. pose proof (slen_nonneg str) as Hn. rewrite E.
  destruct (string_aligned (slen str) Hn) as [Ha _]. split; [|done]. clear E Ha.
  unfold calc_string_length, header_length, padding. change (Z.shiftl 1 24) with (2 ^ 24). rewrite land_minus_4.
  destruct (slen str <? 254); [|destruct (slen str <? 2 ^ 24)]; Z.to_euclidean_division_equations; lia.
Qed.

Lemma land_255 a : Z.land a 255 = a mod 256.
Proof. change 255 with (Z.ones 8). by rewrite Z.land_ones. Qed.

Lemma shiftr_div a n : 0 <= n → Z.shiftr a n = a / 2 ^ n.
Proof. apply Z.shiftr_div_pow2. Qed.

Lemma string_header_bytes len :
  0 <= len < 2 ^ 32 →
  string_header len = (if len <? 254 then [chr len]
                       else if len <? 2 ^ 24 then chr 254 :: store_binary 3 len else chr 255 :: store_binary 7 len).
Proof.
  intros Hl. unfold string_header. change (Z.shiftl 1 24) with (2 ^ 24).
  rewrite !land_255, !shiftr_div by lia. destruct (len <? 254); [done|]. cbn [store_binary].
  rewrite !chr_mod, !Z.div_div by lia. change (2 ^ 8) with 256. change (2 ^ 16) with (256 * 256).
  change (2 ^ 24) with (256 * 256 * 256). rewrite ?Z.mul_assoc. destruct (len <? 256 * 256 * 256); [done|].
  by rewrite (Z.div_small len (256 * 256 * 256 * 256)), (Z.div_small len (256 * 256 * 256 * 256 * 256)),
    (Z.div_small len (256 * 256 * 256 * 256 * 256 * 256)) by lia.
Qed.

Lemma bytes_at_app a b c : bytes_at (length a) (length b) (a ++ b ++ c) = Some b.
Proof.
  unfold bytes_at. rewrite !length_app. rewrite (proj2 (Nat.leb_le _ _)) by lia.
  by rewrite drop_app_length, take_app_length.
Qed.

(** The header of a stored string is read back. *)
Lemma fetch_header_store total len rest :
  0 <= len < 2 ^ 32 → 4 - header_length len <= slen rest →
  fetch_string_header (parser_at total (string_header len ++ rest))
  = Some (len, Z.to_nat (header_length len),
          if len <? 254 then Z.shiftl (Z.shiftr len 2) 2 else Z.shiftl (Z.shiftr (len + 3) 2) 2,
          (if (len <? 2 ^ 24)%Z then 4 else 8)%nat,
          mkParser (string_header len ++ rest) total
            (header_length len + slen rest - (if len <? 2 ^ 24 then 4 else 8)) (2 ^ 64 - 1) []).
Proof.
  intros Hl Hrest. pose proof (string_header_length len) as Hhl. pose proof (slen_nonneg rest).
  assert (1 <= header_length len) as Hh1 by (unfold header_length; repeat case_match; lia).
  unfold fetch_string_header. rewrite check_len_at by (rewrite slen_app, Hhl; lia). cbn [mbind option_bind p_data].
  rewrite slen_app, Hhl. rewrite (string_header_bytes len) by done. unfold header_length.
  destruct (Z.ltb_spec len 254) as [H1|H1].
  - pose proof (bytes_at_app [] [chr len] rest) as E. change (bytes_at 0 1 ([chr len] ++ rest) = Some [chr len]) in E. rewrite E. cbn [mbind option_bind binary_value].
    rewrite char_code_chr, Z.mul_0_r, Z.add_0_r by lia. replace (len <? 254) with true by lia.
    replace (len <? 2 ^ 24) with true by lia. done.
  - destruct (Z.ltb_spec len (2 ^ 24)) as [H2|H2].
    + pose proof (bytes_at_app [] [chr 254] (store_binary 3 len ++ rest)) as E0.
      change (bytes_at 0 1 ((chr 254 :: store_binary 3 len) ++ rest) = Some [chr 254]) in E0. rewrite E0. cbn [mbind option_bind]. change (binary_value [chr 254]) with 254. cbn [Z.ltb Z.compare Z.eqb Pos.compare Pos.compare_cont Pos.eqb].
      pose proof (bytes_at_app [chr 254] (store_binary 3 len) rest) as E. cbn [length] in E. rewrite store_binary_length in E.
      change ((chr 254 :: store_binary 3 len) ++ rest) with ([chr 254] ++ store_binary 3 len ++ rest). rewrite E.
      cbn [mbind option_bind]. rewrite binary_value_store, Z.mod_small by (change (256 ^ Z.of_nat 3) with (2 ^ 24); lia). done.
    + pose proof (bytes_at_app [] [chr 255] (store_binary 7 len ++ rest)) as E0.
      change (bytes_at 0 1 ((chr 255 :: store_binary 7 len) ++ rest) = Some [chr 255]) in E0. rewrite E0. cbn [mbind option_bind]. change (binary_value [chr 255]) with 255. cbn [Z.ltb Z.compare Z.eqb Pos.compare Pos.compare_cont Pos.eqb].
      unfold check_len. cbn [left_len p_data data_len error_pos error].
      replace (8 + slen rest - 4 <? 4) with false by lia. cbn [mbind option_bind p_data].
      pose proof (bytes_at_app [chr 255] (store_binary 7 len) rest) as E. cbn [length] in E. rewrite store_binary_length in E.
      change ((chr 255 :: store_binary 7 len) ++ rest) with ([chr 255] ++ store_binary 7 len ++ rest). rewrite E.
      cbn [mbind option_bind]. rewrite binary_value_store, Z.mod_small by (change (256 ^ Z.of_nat 7) with (2 ^ 56); lia).
      do 2 f_equal. f_equal. lia.
Qed.

Lemma drop_header len rest :
  drop (if (len <? 2 ^ 24)%Z then 4 else 8)%nat (string_header len ++ rest)
  = drop (Z.to_nat ((if len <? 2 ^ 24 then 4 else 8) - header_length len)) rest.
Proof.
  pose proof (string_header_length len) as Hl. unfold slen in Hl.
  replace (if len <? 2 ^ 24 then 4%nat else 8%nat)
    with (length (string_header len) + Z.to_nat ((if len <? 2 ^ 24 then 4 else 8) - header_length len)%Z)%nat.
  - by rewrite <- drop_drop, drop_app_length.
  - unfold header_length in *. repeat case_match; lia.
Qed.

Lemma fetch_string_store total str ss r :
  store_string str = Some ss → fetch_string (parser_at total (ss ++ r)) = Some (str, parser_at total r).
Proof.
  intros (Hl & -> & Es)%store_string_parts. pose proof (slen_nonneg str) as Hn. pose proof (slen_nonneg r) as Hr.
  set (len := slen str) in *. pose proof (padding_range len) as Hp.
  destruct (string_aligned len Hn) as [_ Ha]. cbv zeta in Ha.
  assert (slen ((str ++ zeros (Z.to_nat (padding len))) ++ r) = len + padding len + slen r) as Hrest.
  { rewrite !slen_app, zeros_slen by lia. done. }
  rewrite <- (assoc_L (++) (string_header len)). unfold fetch_string.
  assert (4 <= header_length len + len + padding len) as Hword.
  { rewrite Ha, !align_4. unfold header_length. destruct (Z.ltb_spec len 254), (len <? 2 ^ 24);
      Z.to_euclidean_division_equations; lia. }
  rewrite fetch_header_store; [|lia|rewrite Hrest; lia].
  cbn [mbind option_bind p_data]. rewrite Hrest. unfold check_len, set_data. cbn [left_len p_data data_len error_pos error].
  set (al := if len <? 254 then _ else _). set (h := if len <? 2 ^ 24 then 4 else 8).
  assert (header_length len + len + padding len = h + al) as Hal.
  { rewrite Ha. subst h al. unfold header_length. destruct (Z.ltb_spec len 254), (Z.ltb_spec len (2 ^ 24)); lia. }
  assert (0 <= al) as Hal0 by (subst al; rewrite !align_4; destruct (len <? 254); Z.to_euclidean_division_equations; lia).
  replace (header_length len + (len + padding len + slen r) - h <? al) with false by lia.
  cbn [mbind option_bind error]. rewrite bool_decide_eq_true_2 by done. cbn [negb p_data].
  replace (Z.to_nat len) with (length str) by (subst len; unfold slen; lia).
  assert (Z.to_nat (header_length len) = length (string_header len)) as ->.
  { rewrite <- string_header_length. unfold slen. lia. }
  rewrite <- (assoc_L (++) str), bytes_at_app. cbn [mbind option_bind]. unfold parser_at, set_data. cbn [p_data data_len left_len error_pos error]. do 3 f_equal; [|lia].
  rewrite drop_header. fold h. rewrite drop_drop.
  replace (Z.to_nat (h - header_length len) + Z.to_nat al)%nat with (length (str ++ zeros (Z.to_nat (padding len)))).
  - by rewrite (assoc_L (++)), drop_app_length.
  - rewrite length_app. unfold zeros. rewrite length_replicate.
    assert (header_length len <= h) by (subst h; unfold header_length; destruct (Z.ltb_spec len 254), (Z.ltb_spec len (2 ^ 24)); lia).
    subst len. unfold slen in *. lia.
Qed.

Lemma fetch_end_at total : fetch_end (parser_at total []) = Some (parser_at total []).
Proof. done. Qed.

(** ** The parser on any bytes *)

(** Without an error the bytes that are left are in memory; after one there are
    none left. *)
Definition parser_ok (p : TlParser) : Prop :=
  if bool_decide (error p = [])
  then 0 <= left_len p <= slen (p_data p) ∧ left_len p <= data_len p < 2 ^ 64 - 1
  else left_len p = 0 ∧ data_len p = 0 ∧ error_pos p ≠ 2 ^ 64 - 1.

Lemma new_parser_ok s : slen s < 2 ^ 64 - 1 → parser_ok (new_parser s).
Proof. intros Hs. pose proof (slen_nonneg s). unfold parser_ok. cbn. lia. Qed.

Lemma set_error_ok msg p :
  parser_ok p → msg ≠ [] → ∃ p', set_error msg p = Some p' ∧ parser_ok p' ∧ error p' ≠ [] ∧ p_data p' = empty_data.
Proof.
  intros Hp Hm. unfold parser_ok, set_error, CHECK in *. destruct (bool_decide (error p = [])) eqn:Ee.
  - rewrite (bool_decide_eq_false_2 (msg = [])) by done. cbn [negb]. eexists. split; [done|].
    cbn [error left_len data_len error_pos p_data]. rewrite bool_decide_eq_false_2 by done. split; [lia|done].
  - destruct Hp as (Hl & Hd & He). rewrite (proj2 (Z.eqb_neq _ _) He), Hl, Hd. cbn [negb andb Z.eqb].
    eexists. split; [done|]. unfold set_data. cbn [error left_len data_len error_pos p_data]. rewrite Ee.
    by apply bool_decide_eq_false in Ee.
Qed.

(** After [check_len] there are that many bytes in memory; an error leaves the
    64 zero bytes. *)
Lemma check_len_ok len p :
  parser_ok p → 0 <= len →
  ∃ p', check_len len p = Some p' ∧ parser_ok p'
    ∧ (if bool_decide (error p' = []) then left_len p' + len <= slen (p_data p') ∧ error p = []
       else 0 < len → p_data p' = empty_data).
Proof.
  intros Hp Hl. unfold check_len. destruct (Z.ltb_spec (left_len p) len) as [Hlt|Hge].
  - destruct (set_error_ok (lit "Not enough data to read") p Hp ltac:(done)) as (p' & -> & Hp' & He & Hd).
    exists p'. rewrite bool_decide_eq_false_2 by done. done.
  - eexists. split; [done|]. unfold parser_ok in *. cbn [error left_len data_len error_pos p_data].
    destruct (bool_decide (error p = [])) eqn:Ee; [apply bool_decide_eq_true in Ee; split_and!; [lia..|done]|].
    split; [lia|]. lia.
Qed.

Lemma bytes_at_some pos len s : Z.of_nat (pos + len) <= slen s → is_Some (bytes_at pos len s).
Proof. intros Hl. unfold bytes_at, slen in *. rewrite (proj2 (Nat.leb_le _ _)) by lia. by eexists. Qed.

Lemma checked_bytes len p p' n pos :
  check_len len p = Some p' → parser_ok p' → 0 < len →
  (if bool_decide (error p' = []) then left_len p' + len <= slen (p_data p') ∧ error p = []
   else 0 < len → p_data p' = empty_data) →
  Z.of_nat (pos + n) <= len → len <= 64 → is_Some (bytes_at pos n (p_data p')).
Proof.
  intros _ Hp' Hlen Hb Hn H64. apply bytes_at_some. unfold parser_ok in Hp'. destruct (bool_decide _).
  - destruct Hb as [Hb _]. lia.
  - rewrite Hb by done. change (slen empty_data) with 64. lia.
Qed.

Lemma drop_slen {A} n (s : list A) : slen (drop n s) = Z.max 0 (slen s - Z.of_nat n).
Proof. unfold slen. rewrite length_drop. lia. Qed.

Lemma set_data_ok p n :
  parser_ok p → (error p = [] → left_len p + Z.of_nat n <= slen (p_data p)) → parser_ok (set_data (drop n (p_data p)) p).
Proof.
  unfold parser_ok, set_data. cbn [error left_len data_len error_pos p_data]. rewrite drop_slen. case_bool_decide as E; [|done].
  intros Hp Hn. specialize (Hn E). lia.
Qed.

Lemma fetch_word_ok n p :
  parser_ok p → (0 < n <= 64)%nat →
  ∃ b p', (p ← check_len (Z.of_nat n) p; fetch_binary_unsafe n p) = Some (b, p') ∧ parser_ok p'.
Proof.
  intros Hp Hn. destruct (check_len_ok (Z.of_nat n) p Hp ltac:(lia)) as (p' & E & Hp' & Hb).
  destruct (checked_bytes _ _ _ n 0 E Hp' ltac:(lia) Hb ltac:(lia) ltac:(lia)) as [b Eb].
  rewrite E. cbn [mbind option_bind]. unfold fetch_binary_unsafe. rewrite Eb. cbn [mbind option_bind].
  eexists _, _. split; [done|]. apply set_data_ok; [done|]. intros Ee. rewrite bool_decide_eq_true_2 in Hb by done. lia.
Qed.

Lemma binary_value_bound n s pos b : bytes_at pos n s = Some b → 0 <= binary_value b < 256 ^ Z.of_nat n.
Proof.
  unfold bytes_at. case_match eqn:El; [|done]. intros [= <-]. pose proof (binary_value_range (take n (drop pos s))) as Hr.
  unfold slen in Hr. rewrite length_take, length_drop in Hr. apply Nat.leb_le in El.
  by replace (n `min` (length s - pos))%nat with n in Hr by lia.
Qed.

Lemma short_string_fits x : 0 <= x → 1 + x <= 4 + Z.shiftl (Z.shiftr x 2) 2 ∧ 0 <= Z.shiftl (Z.shiftr x 2) 2.
Proof. intros Hx. rewrite align_4. Z.to_euclidean_division_equations; lia. Qed.

Lemma long_string_fits x : 0 <= x → x <= Z.shiftl (Z.shiftr (x + 3) 2) 2.
Proof. intros Hx. rewrite align_4. Z.to_euclidean_division_equations; lia. Qed.

(** What a header promises: the string lies within its words. *)
Definition header_ok (len : Z) (begin : nat) (aligned : Z) (header : nat) (p : TlParser) : Prop :=
  0 <= len ∧ 0 <= aligned ∧ Z.of_nat begin + len <= Z.of_nat header + aligned
  ∧ (error p = [] → left_len p + Z.of_nat header <= slen (p_data p)).

Lemma fetch_header_ok p :
  parser_ok p →
  ∃ len begin aligned header p', fetch_string_header p = Some (len, begin, aligned, header, p')
    ∧ parser_ok p' ∧ header_ok len begin aligned header p'.
Proof.
  intros Hp. destruct (check_len_ok 4 p Hp ltac:(lia)) as (p1 & E1 & Hp1 & Hb1).
  destruct (checked_bytes _ _ _ 1 0 E1 Hp1 ltac:(lia) Hb1 ltac:(lia) ltac:(lia)) as [b0 Eb0].
  destruct (checked_bytes _ _ _ 3 1 E1 Hp1 ltac:(lia) Hb1 ltac:(lia) ltac:(lia)) as [b3 Eb3].
  unfold fetch_string_header. rewrite E1. cbn [mbind option_bind]. rewrite Eb0. cbn [mbind option_bind].
  pose proof (binary_value_bound _ _ _ _ Eb0) as H0. pose proof (binary_value_bound _ _ _ _ Eb3) as H3.
  assert (error p1 = [] → left_len p1 + 4 <= slen (p_data p1)) as Hl1.
  { intros Ee. rewrite bool_decide_eq_true_2 in Hb1 by done. tauto. }
  destruct (binary_value b0 <? 254); [|destruct (binary_value b0 =? 254)].
  - eexists _, _, _, _, p1. split; [done|]. split; [done|]. destruct (short_string_fits (binary_value b0)); [lia|].
    split_and!; [lia|done|lia|done].
  - rewrite Eb3. cbn [mbind option_bind]. eexists _, _, _, _, p1. split; [done|]. split; [done|].
    pose proof (long_string_fits (binary_value b3) ltac:(lia)). split_and!; [lia|lia|lia|done].
  - destruct (check_len_ok 4 p1 Hp1 ltac:(lia)) as (p2 & E2 & Hp2 & Hb2). rewrite E2. cbn [mbind option_bind].
    assert (error p2 = [] → left_len p2 + 8 <= slen (p_data p2)) as Hl2.
    { intros Ee. rewrite bool_decide_eq_true_2 in Hb2 by done. destruct Hb2 as [_ Ee1]. specialize (Hl1 Ee1).
      unfold check_len in E2. destruct (left_len p1 <? 4).
      - destruct (set_error_ok (lit "Not enough data to read") p1 Hp1 ltac:(done)) as (p' & E' & _ & He & _). congruence.
      - injection E2 as <-. cbn [left_len p_data]. lia. }
    assert (is_Some (bytes_at 1 7 (p_data p2))) as [b7 Eb7].
    { apply bytes_at_some. unfold parser_ok in Hp2. case_bool_decide as Ee; [specialize (Hl2 Ee); lia|].
      rewrite Hb2 by lia. change (slen empty_data) with 64. lia. }
    rewrite Eb7. cbn [mbind option_bind]. pose proof (binary_value_bound _ _ _ _ Eb7).
    eexists _, _, _, _, p2. split; [done|]. split; [done|].
    pose proof (long_string_fits (binary_value b7) ltac:(lia)). split_and!; [lia|lia|lia|done].
Qed.

Lemma fetch_string_ok p : parser_ok p → ∃ s p', fetch_string p = Some (s, p') ∧ parser_ok p'.
Proof.
  intros Hp. destruct (fetch_header_ok p Hp) as (len & begin & aligned & header & p1 & E & Hp1 & Hl & Ha & Hfit & Hleft).
  unfold fetch_string. rewrite E. cbn [mbind option_bind].
  destruct (check_len_ok aligned (set_data (drop header (p_data p1)) p1) (set_data_ok p1 header Hp1 Hleft) Ha)
    as (p2 & E2 & Hp2 & Hb2).
  rewrite E2. cbn [mbind option_bind]. case_bool_decide as Ee; cbn [negb]; [|by exists [], p2].
  destruct Hb2 as [Hb2 Ee1]. unfold set_data in Ee1. cbn [error] in Ee1. specialize (Hleft Ee1).
  assert (p_data p2 = drop header (p_data p1)) as Ed.
  { unfold check_len, set_error in E2. unfold set_data in E2. cbn [left_len p_data data_len error_pos error] in E2.
    destruct (_ <? _); [|by injection E2 as <-]. rewrite bool_decide_eq_true_2 in E2 by done.
    destruct (negb _); cbn [CHECK] in E2; [|done]. injection E2 as <-. by cbn in Ee. }
  assert (is_Some (bytes_at begin (Z.to_nat len) (p_data p1))) as [result Er].
  { apply bytes_at_some. unfold parser_ok in Hp1, Hp2. rewrite bool_decide_eq_true_2 in Hp1, Hp2 by done.
    rewrite Ed, drop_slen in Hb2. lia. }
  rewrite Er. cbn [mbind option_bind]. eexists _, _. split; [done|]. apply set_data_ok; [done|]. intros _. lia.
Qed.

(** ** Any sequence of reads *)

Inductive fetch_op := FetchInt | FetchLong | FetchString | FetchRaw (size : Z) | FetchEnd.
Definition fetch (o : fetch_op) (p : TlParser) : option TlParser :=
  match o with
  | FetchInt => snd <$> fetch_int p
  | FetchLong => snd <$> fetch_long p
  | FetchString => snd <$> fetch_string p
  | FetchRaw size => snd <$> fetch_string_raw size p
  | FetchEnd => fetch_end p
  end.
Definition fetch_all (ops : list fetch_op) (p : TlParser) : option TlParser := foldl (fun p o => p ≫= fetch o) (Some p) ops.

Lemma fetch_ok o p : parser_ok p → (∀ size, o = FetchRaw size → 0 <= size) → ∃ p', fetch o p = Some p' ∧ parser_ok p'.
Proof.
  intros Hp Ho. destruct o as [| | |size|]; cbn [fetch].
  - destruct (fetch_word_ok 4 p Hp ltac:(lia)) as (b & p' & E & Hp'). exists p'. split; [|done]. unfold fetch_int.
    change (Z.of_nat 4) with 4 in E. destruct (check_len 4 p) as [p1|]; [|done]. cbn [mbind option_bind] in *. by rewrite E.
  - destruct (fetch_word_ok 8 p Hp ltac:(lia)) as (b & p' & E & Hp'). exists p'. split; [|done]. unfold fetch_long.
    change (Z.of_nat 8) with 8 in E. destruct (check_len 8 p) as [p1|]; [|done]. cbn [mbind option_bind] in *. by rewrite E.
  - destruct (fetch_string_ok p Hp) as (s & p' & -> & Hp'). by exists p'.
  - specialize (Ho size eq_refl). unfold fetch_string_raw. destruct (check_len_ok size p Hp Ho) as (p1 & -> & Hp1 & Hb1).
    cbn [mbind option_bind]. case_bool_decide as Ee; cbn [negb]; [|by exists p1].
    destruct Hb1 as [Hb1 _]. unfold parser_ok in Hp1. rewrite bool_decide_eq_true_2 in Hp1 by done.
    destruct (bytes_at_some 0 (Z.to_nat size) (p_data p1)) as [b Eb]; [lia|].
    unfold fetch_binary_unsafe. rewrite Eb. cbn [mbind option_bind fmap option_fmap option_map snd]. eexists. split; [done|].
    apply set_data_ok; [unfold parser_ok; by rewrite bool_decide_eq_true_2|]. intros _. lia.
  - unfold fetch_end. destruct (left_len p =? 0); [by exists p|].
    destruct (set_error_ok (lit "Too much data to fetch") p Hp ltac:(done)) as (p' & E & Hp' & _). by exists p'.
Qed.

(** C28: Whatever is fetched from a TlParser, in any order and on any bytes, no byte outside of the data and
    of the zero bytes kept for errors is read, and no check fails. *)
Theorem parser_never_overreads s ops :
  slen s < 2 ^ 64 - 1 → Forall (fun o => ∀ size, o = FetchRaw size → 0 <= size) ops →
  is_Some (fetch_all ops (new_parser s)).
Proof.
  intros Hs Hops. pose proof (new_parser_ok s Hs) as Hp. revert Hp. unfold fetch_all. generalize (new_parser s).
  induction Hops as [|o ops Ho _ IH]; intros p Hp; cbn [foldl]; [by eexists|].
  destruct (fetch_ok o p Hp Ho) as (p' & E & Hp'). cbn [mbind option_bind]. rewrite E. by apply IH.
Qed.

Lemma parser_never_overreads_witness :
  is_Some (fetch_all [FetchString; FetchInt; FetchRaw 2; FetchLong; FetchEnd; FetchString]
             (new_parser [chr 255; chr 9; chr 0; chr 0; chr 0; chr 0])).
Proof.
  apply parser_never_overreads; [vm_compute; reflexivity|]. repeat constructor; intros size [= <-]; discriminate.
Defined.
