(* ===== verification/Binlog.v ===== *)
(** * The binlog

    [td/db/binlog]: the append-only file of events that survives restarts.  An
    event is added, rewritten or erased by appending a record; the processor
    keeps what the records of the file amount to; when the file is much larger
    than that, it is written anew.

    The file is the list of the bytes that were written to it, including those
    still buffered: after a crash it is a prefix of that list, not shorter than
    what was synced.  [crc32] is
    zlib's, an argument.  The key of the database is empty, as for the binlogs
    of the server, so no event is encrypted.  The text of a fatal error is left
    out: [None] is the abort. *)

From stdpp Require Import gmap sorting.
From S2P Require Import Prelude Slices TlStorage.

(** ** Events *)

Definition MAX_SIZE : Z := Z.shiftl 1 24.
Definition HEADER_SIZE : Z := 4 + 8 + 4 + 4 + 8.
Definition TAIL_SIZE : Z := 4.
Definition MIN_SIZE : Z := HEADER_SIZE + TAIL_SIZE.

(** [ServiceTypes::Empty] and [Flags]. *)
Definition Empty : Z := -2.
Definition Rewrite : Z := 1.
Definition Partial : Z := 2.

Record BinlogEvent := mkBinlogEvent {
  offset_ : Z; size_ : Z; id_ : Z; type_ : Z; flags_ : Z; extra_ : Z; crc32_ : Z; raw_event_ : slice
}.
Definition no_event : BinlogEvent := mkBinlogEvent (-1) 0 0 0 0 0 0 [].
Definition set_offset v (e : BinlogEvent) :=
  mkBinlogEvent v (size_ e) (id_ e) (type_ e) (flags_ e) (extra_ e) (crc32_ e) (raw_event_ e).
Definition set_flags v (e : BinlogEvent) :=
  mkBinlogEvent (offset_ e) (size_ e) (id_ e) (type_ e) v (extra_ e) (crc32_ e) (raw_event_ e).
(** [flags & flag] and [flags &= ~flag]. *)
Definition has_flag (flag : Z) (e : BinlogEvent) : bool := negb (Z.land (flags_ e) flag =? 0).
Definition clear_flag (flag : Z) (e : BinlogEvent) : BinlogEvent := set_flags (Z.ldiff (flags_ e) flag) e.

Section Events.
Variable crc32 : slice → Z.

(** [create_raw] of a storer that announces [size] bytes and stores [data]. *)
Definition create_raw (id type flags size : Z) (data : slice) : option slice :=
  let total := size + MIN_SIZE in
  (CHECK! total <=? INT32_MAX ;;
   CHECK! slen data =? size ;;
   let body := store_int total ++ store_long id ++ store_int type ++ store_int flags ++ store_long 0 ++ data in
   Some (body ++ store_int (crc32 body)))%td.

Definition event_init (raw_event : slice) : option BinlogEvent :=
  let parser := new_parser raw_event in
  '(size, parser) ← fetch_int parser;
  let size := wrap 32 size in
  (CHECK! size =? slen raw_event ;;
   '(id, parser) ← fetch_long parser;
   '(type, parser) ← fetch_int parser;
   '(flags, parser) ← fetch_int parser;
   '(extra, parser) ← fetch_long parser;
   (CHECK! MIN_SIZE <=? size ;;
    '(_, parser) ← fetch_string_raw (size - MIN_SIZE) parser;
    '(crc, parser) ← fetch_int parser;
    Some (mkBinlogEvent (-1) size (wrap 64 id) type flags (wrap 64 extra) (wrap 32 crc) raw_event)))%td.

Definition get_data (e : BinlogEvent) : option slice :=
  (CHECK! MIN_SIZE <=? slen (raw_event_ e) ;;
   Some (take (Z.to_nat (slen (raw_event_ e) - MIN_SIZE)) (drop (Z.to_nat HEADER_SIZE) (raw_event_ e))))%td.

(** Whether the event is valid. *)
Definition validate (e : BinlogEvent) : option bool :=
  if slen (raw_event_ e) <? MIN_SIZE then Some false
  else
    let parser := new_parser (raw_event_ e) in
    '(size, parser) ← fetch_int parser;
    let size := wrap 32 size in
    if negb (size_ e =? size) || negb (size_ e =? slen (raw_event_ e)) then Some false
    else
      '(_, parser) ← fetch_string_raw (size_ e - TAIL_SIZE - 4) parser;
      '(stored_crc32, parser) ← fetch_int parser;
      let calculated_crc := crc32 (take (Z.to_nat (size_ e - TAIL_SIZE)) (raw_event_ e)) in
      Some ((calculated_crc =? crc32_ e) && (calculated_crc =? wrap 32 stored_crc32)).

(** ** [BinlogEventsProcessor] *)

(** [event_ids_] and [events_], which have the same length, are one list:
    twice the identifier, and one more when the event was deleted. *)
Record processor := mkProcessor {
  entries : list (Z * BinlogEvent);
  total_events_ : Z; empty_events_ : Z; p_last_event_id : Z; p_offset : Z; total_raw_events_size_ : Z
}.
Definition new_processor : processor := mkProcessor [] 0 0 0 0 0.

Definition is_live (x : Z * BinlogEvent) : bool := Z.land x.1 1 =? 0.
Definition compactify (p : processor) : processor :=
  let live := List.filter is_live (entries p) in
  mkProcessor live (slen live) 0 (p_last_event_id p) (p_offset p) (total_raw_events_size_ p).

(** The position of [std::lower_bound]. *)
Fixpoint lower_bound (fixed : Z) (l : list (Z * BinlogEvent)) : nat :=
  match l with [] => O | x :: l => if x.1 <? fixed then S (lower_bound fixed l) else O end.
Definition back_id (l : list (Z * BinlogEvent)) : option Z := fst <$> last l.

Definition maybe_compactify (p : processor) : processor :=
  if (10 <? total_events_ p) && (total_events_ p * 3 <? empty_events_ p * 4) then compactify p else p.

Definition raw_size (e : BinlogEvent) : Z := slen (raw_event_ e).

(** [do_event]; [None] is the error. *)
Definition processor_do_event (e : BinlogEvent) (p : processor) : option processor :=
  let fixed := wrap 64 (id_ e * 2) in
  if has_flag Rewrite e && match back_id (entries p) with Some b => fixed <=? b | None => false end then
    let pos := lower_bound fixed (entries p) in
    match entries p !! pos with
    | Some (id, old) =>
        if negb (id =? fixed) then None
        else
          let raw := total_raw_events_size_ p - raw_size old in
          Some (maybe_compactify
            (if type_ e =? Empty
             then mkProcessor (<[pos := (id + 1, no_event)]> (entries p)) (total_events_ p) (empty_events_ p + 1)
                    (p_last_event_id p) (offset_ e) raw
             else mkProcessor (<[pos := (id, clear_flag Rewrite e)]> (entries p)) (total_events_ p) (empty_events_ p)
                    (p_last_event_id p) (offset_ e) (raw + raw_size e)))
    | None => None
    end
  else if type_ e <? 0 then
    Some (maybe_compactify (mkProcessor (entries p) (total_events_ p) (empty_events_ p) (p_last_event_id p) (offset_ e)
                              (total_raw_events_size_ p)))
  else
    match back_id (entries p) with
    | Some b => if b <? fixed then Some tt else None
    | None => Some tt
    end;;
    Some (maybe_compactify (mkProcessor (entries p ++ [(fixed, e)]) (total_events_ p + 1) (empty_events_ p) (id_ e) (offset_ e)
                              (total_raw_events_size_ p + raw_size e))).

Fixpoint increasing (l : list Z) : bool :=
  match l with x :: (y :: _) as l' => (x <? y) && increasing l' | _ => true end.
(** [for_each]: the events that were not deleted, in order. *)
Definition live_events (p : processor) : list BinlogEvent := snd <$> List.filter is_live (entries p).
Definition for_each (p : processor) : option (list BinlogEvent) :=
  (CHECK! increasing ((entries p).*1) ;; Some (live_events p))%td.

(** ** [Binlog] *)

Inductive State := Load | Reindex | Run.
Definition AesCtrEncryption : Z := -3.

Record binlog := mkBinlog {
  file : slice; fd_size_ : Z; fd_events_ : Z; processor_ : processor; last_event_id_ : Z; pending_events_ : list BinlogEvent;
  synced : Z
}.
Definition new_binlog : binlog := mkBinlog [] 0 0 new_processor 0 [] 0.
Definition set_processor v (b : binlog) :=
  mkBinlog (file b) (fd_size_ b) (fd_events_ b) v (last_event_id_ b) (pending_events_ b) (synced b).
Definition set_last_event_id v (b : binlog) :=
  mkBinlog (file b) (fd_size_ b) (fd_events_ b) (processor_ b) v (pending_events_ b) (synced b).
Definition set_pending v (b : binlog) :=
  mkBinlog (file b) (fd_size_ b) (fd_events_ b) (processor_ b) (last_event_id_ b) v (synced b).
Definition set_file v size events (b : binlog) :=
  mkBinlog v size events (processor_ b) (last_event_id_ b) (pending_events_ b) (synced b).
(** [sync]: what was written so far survives a crash of the machine. *)
Definition sync (b : binlog) : binlog :=
  mkBinlog (file b) (fd_size_ b) (fd_events_ b) (processor_ b) (last_event_id_ b) (pending_events_ b) (slen (file b)).

(** [do_event]: an event of an encrypted file is a wrong password. *)
Definition do_event (st : State) (e : BinlogEvent) (b : binlog) : option binlog :=
  b ← match st return option binlog with
      | Load => Some b
      | _ =>
          valid ← validate e;
          if (valid : bool) then Some (set_file (file b ++ raw_event_ e) (fd_size_ b) (fd_events_ b) b) else None
      end;
  if type_ e =? AesCtrEncryption then None
  else
    b ← match st return option binlog with
        | Reindex => Some b
        | _ => p ← processor_do_event e (processor_ b); Some (set_processor p b)
        end;
    Some (set_file (file b) (fd_size_ b + raw_size e) (fd_events_ b + 1) b).

Fixpoint do_events (st : State) (es : list BinlogEvent) (b : binlog) : option binlog :=
  match es with [] => Some b | e :: es => b ← do_event st e b; do_events st es b end.

Definition do_add_event (st : State) (e : BinlogEvent) (b : binlog) : option binlog :=
  if has_flag Partial e then Some (set_pending (pending_events_ b ++ [clear_flag Partial e]) b)
  else
    b ← do_events st (pending_events_ b) b;
    do_event st e (set_pending [] b).

(** [opened] tells whether the new file could be opened.  The new file is synced
    before it replaces one that is not empty. *)
Definition do_reindex (opened : bool) (b : binlog) : option binlog :=
  if negb opened then Some b
  else
    es ← for_each (processor_ b);
    b' ← do_events Reindex es (set_file [] 0 0 b);
    Some (if slen (file b) =? 0 then b' else sync b').

Definition need_reindex (b : binlog) : bool :=
  let need min_size rate := (min_size <? fd_size_ b) && (total_raw_events_size_ (processor_ b) <? Z.quot (fd_size_ b) rate) in
  need 50000 5 || need 100000 4 || need 300000 3 || need 500000 2.

Definition add_event (opened : bool) (e : BinlogEvent) (b : binlog) : option binlog :=
  if negb (size_ e mod 4 =? 0) then None
  else
    b ← do_add_event Run e b;
    if need_reindex b then do_reindex opened b else Some b.

Definition next_event_id (b : binlog) : Z * binlog := (last_event_id_ b + 1, set_last_event_id (last_event_id_ b + 1) b).
Definition add_raw_event (opened : bool) (raw_event : option slice) (b : binlog) : option binlog :=
  raw_event ← raw_event;
  e ← event_init raw_event;
  add_event opened e b.

(** A storer is the size that it announces and the bytes that it stores. *)
Definition add (opened : bool) (type size : Z) (data : slice) (b : binlog) : option (Z * binlog) :=
  let '(event_id, b) := next_event_id b in
  b ← add_raw_event opened (create_raw event_id type 0 size data) b;
  Some (event_id, b).
Definition rewrite (opened : bool) (event_id type size : Z) (data : slice) (b : binlog) : option (Z * binlog) :=
  let '(seq_no, b) := next_event_id b in
  b ← add_raw_event opened (create_raw event_id type Rewrite size data) b;
  Some (seq_no, b).
Definition erase (opened : bool) (event_id : Z) (b : binlog) : option (Z * binlog) :=
  let '(seq_no, b) := next_event_id b in
  b ← add_raw_event opened (create_raw event_id Empty Rewrite 0 []) b;
  Some (seq_no, b).
Fixpoint erase_batch (opened : bool) (event_ids : list Z) (b : binlog) : option binlog :=
  match event_ids with
  | [] => Some b
  | event_id :: event_ids => '(_, b) ← erase opened event_id b; erase_batch opened event_ids b
  end.

(** ** Loading *)

(** [BinlogReader::read_next] on the bytes that are left: an event and the rest,
    the size that is needed, or the code of an error. *)
Inductive read_result := ReadEvent (e : BinlogEvent) (rest : slice) | NeedSize (size : Z) | ReadError (code : Z).
Definition read_next (offset : Z) (input : slice) : option read_result :=
  if slen input <? 4 then Some (NeedSize 4)
  else
    '(size, _) ← fetch_int (new_parser (take 4 input));
    let size := wrap 64 size in
    if MAX_SIZE <? size then Some (ReadError (-1))
    else if size <? MIN_SIZE then Some (ReadError (-1))
    else if negb (size mod 4 =? 0) then Some (ReadError (-2))
    else if slen input <? size then Some (NeedSize size)
    else
      e ← event_init (take (Z.to_nat size) input);
      valid ← validate e;
      if (valid : bool) then Some (ReadEvent (set_offset (offset + size) e) (drop (Z.to_nat size) input)) else Some (ReadError (-1)).

(** The loop of [load_binlog]: when more bytes are needed than the file has, the
    reading stops.  The error -2 is fatal, as the bytes after the offset are not
    encrypted. *)
Fixpoint load_loop (fuel : nat) (offset : Z) (input : slice) (b : binlog) : option binlog :=
  match fuel with
  | O => None
  | S fuel =>
      r ← read_next offset input;
      match r with
      | ReadError code => if code =? -2 then None else Some b
      | NeedSize _ => Some b
      | ReadEvent e rest => b ← do_add_event Load e b; load_loop fuel (offset_ e) rest b
      end
  end.

(** The end of [load_binlog]: the events that the callback gets, and the file
    without what follows the last event that was taken. *)
Definition finish_load (b : binlog) : option (list BinlogEvent * binlog) :=
  let offset := p_offset (processor_ b) in
  (CHECK! 0 <=? offset ;;
   es ← for_each (processor_ b);
   (CHECK! fd_size_ b =? offset ;;
    Some (es, set_file (take (Z.to_nat offset) (file b)) (fd_size_ b) (fd_events_ b) b)))%td.

(** [init] on a file with these bytes. *)
Definition init (bytes : slice) : option (list BinlogEvent * binlog) :=
  b ← load_loop (S (length bytes)) 0 bytes (set_file bytes 0 0 new_binlog);
  '(es, b) ← finish_load b;
  Some (es, set_last_event_id (p_last_event_id (processor_ b)) b).
End Events.

#[local] Arguments zeros : simpl never.
#[local] Arguments store_int : simpl never.
#[local] Arguments store_long : simpl never.

(** The events of a binlog: their types and data. *)
Abbreviation map_of := (gmap Z (Z * slice)).

Section Proofs.
Variable crc32 : slice → Z.
Hypothesis crc32_range : ∀ s, 0 <= crc32 s < 2 ^ 32.

(** ** Records *)

Definition body_of (id type flags : Z) (data : slice) : slice :=
  store_int (slen data + MIN_SIZE) ++ store_long id ++ store_int type ++ store_int flags ++ store_long 0 ++ data.
Definition raw_of (id type flags : Z) (data : slice) : slice :=
  body_of id type flags data ++ store_int (crc32 (body_of id type flags data)).

(** The event of a record: its flags may have been cleared since. *)
Definition event_at (offset id type flags raw_flags : Z) (data : slice) : BinlogEvent :=
  mkBinlogEvent offset (slen data + MIN_SIZE) id type flags 0 (crc32 (body_of id type raw_flags data)) (raw_of id type raw_flags data).

(** What the server stores. *)
Record storable (id type flags : Z) (data : slice) : Prop := {
  so_id : 0 <= id < 2 ^ 62;
  so_type : in_int32 type;
  so_flags : in_int32 flags;
  so_size : slen data + MIN_SIZE <= MAX_SIZE;
  so_aligned : slen data mod 4 = 0;
}.

Lemma store_int_slen x : slen (store_int x) = 4.
Proof. unfold slen, store_int. by rewrite store_binary_length. Qed.

Lemma store_long_slen x : slen (store_long x) = 8.
Proof. unfold slen, store_long. by rewrite store_binary_length. Qed.

Lemma body_slen id type flags data : slen (body_of id type flags data) = slen data + HEADER_SIZE.
Proof. unfold body_of. rewrite !slen_app, !store_int_slen, !store_long_slen. unfold HEADER_SIZE. lia. Qed.

Lemma raw_slen id type flags data : slen (raw_of id type flags data) = slen data + MIN_SIZE.
Proof. unfold raw_of. rewrite slen_app, body_slen, store_int_slen. unfold MIN_SIZE, TAIL_SIZE. lia. Qed.

Lemma create_raw_ok id type flags data :
  slen data + MIN_SIZE <= MAX_SIZE → create_raw crc32 id type flags (slen data) data = Some (raw_of id type flags data).
Proof.
  intros Hs. unfold create_raw. rewrite Z.eqb_refl.
  rewrite (proj2 (Z.leb_le _ _)) by (unfold MAX_SIZE, INT32_MAX in *; change (Z.shiftl 1 24) with 16777216 in *; lia). done.
Qed.

(** An unsigned field that is stored, read as signed and cast back. *)
Lemma fetch_int_any total x r :
  ∃ y, fetch_int (parser_at total (store_int x ++ r)) = Some (y, parser_at total r) ∧ wrap 32 y = wrap 32 x.
Proof.
  exists (to_signed 32 x).
  assert (store_int x = store_int (to_signed 32 x)) as ->.
  { unfold store_int. apply store_binary_mod. change (256 ^ Z.of_nat 4) with (2 ^ 32). unfold to_signed, wrap.
    case_match; [by rewrite Z.mod_mod|]. rewrite Zminus_mod, Z.mod_mod, Z.mod_same, Z.sub_0_r, Z.mod_mod by lia. done. }
  split.
  - apply fetch_int_store. unfold to_signed, in_int32, INT32_MAX. pose proof (wrap_range 32 x ltac:(lia)).
    destruct (Z.ltb_spec (wrap 32 x) (2 ^ (32 - 1))); lia.
  - unfold to_signed, wrap. case_match; [by rewrite Z.mod_mod|].
    rewrite Zminus_mod, Z.mod_mod, Z.mod_same, Z.sub_0_r, Z.mod_mod by lia. done.
Qed.

Lemma new_parser_at s : new_parser s = parser_at (slen s) s.
Proof. done. Qed.

Lemma raw_parts id type flags data :
  raw_of id type flags data =
  store_int (slen data + MIN_SIZE) ++ store_long id ++ store_int type ++ store_int flags ++ store_long 0 ++ data
  ++ store_int (crc32 (body_of id type flags data)).
Proof. unfold raw_of. unfold body_of at 1. by rewrite <- !(assoc_L (++)). Qed.

Lemma size_small id type flags data :
  storable id type flags data → 0 <= slen data + MIN_SIZE <= 2 ^ 24 ∧ in_int32 (slen data + MIN_SIZE).
Proof.
  intros [_ _ _ Hs _]. pose proof (slen_nonneg data). unfold MAX_SIZE, MIN_SIZE, HEADER_SIZE, TAIL_SIZE, in_int32, INT32_MAX in *.
  change (Z.shiftl 1 24) with (2 ^ 24) in Hs. lia.
Qed.

Lemma event_init_raw id type flags data :
  storable id type flags data →
  event_init (raw_of id type flags data) = Some (event_at (-1) id type flags flags data).
Proof.
  intros Hs. destruct (size_small _ _ _ _ Hs) as [Hsize Hint]. destruct Hs as [Hid Htype Hflags Hmax _].
  unfold event_init. rewrite new_parser_at, raw_slen, raw_parts.
  rewrite fetch_int_store by done. cbn [mbind option_bind]. rewrite (wrap_small 32 (slen data + MIN_SIZE)) by lia.
  rewrite Z.eqb_refl. cbn [CHECK].
  rewrite fetch_long_store by (unfold in_int64, INT64_MAX; lia). cbn [mbind option_bind].
  rewrite fetch_int_store by done. cbn [mbind option_bind].
  rewrite fetch_int_store by done. cbn [mbind option_bind].
  rewrite fetch_long_store by done. cbn [mbind option_bind].
  pose proof (slen_nonneg data). rewrite (proj2 (Z.leb_le MIN_SIZE (slen data + MIN_SIZE))) by lia. cbn [CHECK].
  replace (slen data + MIN_SIZE - MIN_SIZE) with (slen data) by lia.
  rewrite fetch_raw_at. cbn [mbind option_bind].
  destruct (fetch_int_any (slen data + MIN_SIZE) (crc32 (body_of id type flags data)) []) as (y & Ey & Ewrap).
  rewrite app_nil_r in Ey. rewrite Ey. cbn [mbind option_bind]. rewrite Ewrap, <- raw_parts. unfold event_at.
  rewrite (wrap_small 64 id), (wrap_small 32 (crc32 _)) by (try apply crc32_range; lia). done.
Qed.

Lemma validate_raw offset id type flags raw_flags data :
  storable id type raw_flags data → validate crc32 (event_at offset id type flags raw_flags data) = Some true.
Proof.
  intros Hs. destruct (size_small _ _ _ _ Hs) as [Hsize Hint]. destruct Hs as [Hid Htype Hflags Hmax _].
  unfold validate, event_at. cbn [raw_event_ size_ crc32_]. rewrite new_parser_at, raw_slen.
  pose proof (slen_nonneg data). replace (slen data + MIN_SIZE <? MIN_SIZE) with false by lia.
  rewrite raw_parts. rewrite fetch_int_store by done. cbn [mbind option_bind].
  rewrite (wrap_small 32 (slen data + MIN_SIZE)), Z.eqb_refl by lia. cbn [negb orb].
  set (mid' := store_long id ++ store_int type ++ store_int raw_flags ++ store_long 0 ++ data).
  assert (slen mid' = slen data + MIN_SIZE - TAIL_SIZE - 4) as Hmid.
  { unfold mid'. rewrite !slen_app, !store_int_slen, !store_long_slen. unfold MIN_SIZE, HEADER_SIZE, TAIL_SIZE. lia. }
  destruct (fetch_int_any (slen data + MIN_SIZE) (crc32 (body_of id type raw_flags data)) []) as (y & Ey & Ewrap).
  rewrite app_nil_r in Ey.
  replace (store_long id ++ store_int type ++ store_int raw_flags ++ store_long 0 ++ data ++ store_int (crc32 (body_of id type raw_flags data)))
    with (mid' ++ store_int (crc32 (body_of id type raw_flags data))) by (unfold mid'; by rewrite <- !(assoc_L (++))).
  rewrite <- Hmid, fetch_raw_at. cbn [mbind option_bind]. rewrite Ey. cbn [mbind option_bind].
  rewrite Ewrap, (wrap_small 32 (crc32 _)) by apply crc32_range.
  assert (take (Z.to_nat (slen data + MIN_SIZE - TAIL_SIZE)) (store_int (slen data + MIN_SIZE) ++ mid' ++ store_int (crc32 (body_of id type raw_flags data)))
          = body_of id type raw_flags data) as ->.
  { rewrite (assoc_L (++)). change (store_int (slen data + MIN_SIZE) ++ mid') with (body_of id type raw_flags data).
    replace (Z.to_nat (slen data + MIN_SIZE - TAIL_SIZE)) with (length (body_of id type raw_flags data)); [by rewrite take_app_length|].
    pose proof (body_slen id type raw_flags data) as Hb. unfold slen in *. unfold MIN_SIZE, TAIL_SIZE. lia. }
  by rewrite Z.eqb_refl.
Qed.

Lemma get_data_raw offset id type flags raw_flags data :
  get_data (event_at offset id type flags raw_flags data) = Some data.
Proof.
  unfold get_data, event_at. cbn [raw_event_]. rewrite raw_slen. pose proof (slen_nonneg data).
  rewrite (proj2 (Z.leb_le MIN_SIZE (slen data + MIN_SIZE))) by lia. cbn [CHECK]. f_equal.
  replace (Z.to_nat (slen data + MIN_SIZE - MIN_SIZE)) with (length data) by (unfold slen; lia).
  rewrite raw_parts. set (tail := store_int (crc32 _)). rewrite !(assoc_L (++)). set (head := (((_ ++ _) ++ _) ++ _) ++ store_long 0).
  replace (Z.to_nat HEADER_SIZE) with (length head).
  - by rewrite <- (assoc_L (++) head), drop_app_length, take_app_length.
  - unfold head, store_int, store_long. by rewrite !length_app, !store_binary_length.
Qed.

(** ** The processor *)

(** A record that is kept: an event of the server, with what was cleared of its
    flags. *)
Definition kept (id : Z) (e : BinlogEvent) : Prop :=
  ∃ offset type flags raw_flags data,
    e = event_at offset id type flags raw_flags data ∧ storable id type raw_flags data ∧ 0 <= type
    ∧ (raw_flags = 0 ∨ raw_flags = Rewrite).

Definition entry_ok (last : Z) (x : Z * BinlogEvent) : Prop :=
  0 <= x.1 <= 2 * last + 1 ∧ (is_live x = true → ∃ id, x.1 = 2 * id ∧ kept id x.2).
Definition key_lt (x y : Z * BinlogEvent) : Prop := x.1 / 2 < y.1 / 2.

Lemma key_lt_fst x y : key_lt x y → x.1 < y.1.
Proof. unfold key_lt. intros Hlt. Z.to_euclidean_division_equations. lia. Qed.


Record entries_ok (last : Z) (l : list (Z * BinlogEvent)) : Prop := {
  eo_sorted : StronglySorted key_lt l;
  eo_each : Forall (entry_ok last) l;
}.

(** What the records amount to. *)
Definition payload (e : BinlogEvent) : Z * slice := (type_ e, default [] (get_data e)).
Definition contents_of (l : list (Z * BinlogEvent)) : gmap Z (Z * slice) :=
  list_to_map ((fun x => (id_ x.2, payload x.2)) <$> List.filter is_live l).
Definition contents (p : processor) : gmap Z (Z * slice) := contents_of (entries p).

Lemma is_live_even id e : is_live (2 * id, e) = true.
Proof.
  unfold is_live. cbn [fst]. change 1 with (Z.ones 1). rewrite Z.land_ones by lia. apply Z.eqb_eq. change (2 ^ 1) with 2.
  by rewrite Z.mul_comm, Z.mod_mul.
Qed.

Lemma is_live_odd id e : is_live (2 * id + 1, e) = false.
Proof.
  unfold is_live. cbn [fst]. change 1 with (Z.ones 1) at 2. rewrite Z.land_ones by lia. apply Z.eqb_neq. change (2 ^ 1) with 2.
  Z.to_euclidean_division_equations. lia.
Qed.

Lemma kept_id id e : kept id e → id_ e = id.
Proof. by intros (? & ? & ? & ? & ? & -> & _). Qed.

Lemma sorted_keys l : StronglySorted key_lt l → NoDup l.*1.
Proof.
  induction 1 as [|x l Hs IH Hf]; cbn; constructor; [|done]. intros (y & E & Hy)%list_elem_of_fmap.
  rewrite Forall_forall in Hf. specialize (Hf y Hy). apply key_lt_fst in Hf. lia.
Qed.

Lemma filter_sorted (f : Z * BinlogEvent → bool) l : StronglySorted key_lt l → StronglySorted key_lt (List.filter f l).
Proof.
  induction 1 as [|x l Hs IH Hf]; cbn; [constructor|]. destruct (f x); [|done]. constructor; [done|].
  apply Forall_forall. intros y Hy. apply list_elem_of_In, filter_In in Hy as [Hy _]. apply list_elem_of_In in Hy.
  rewrite Forall_forall in Hf. by apply Hf.
Qed.

Lemma entries_ok_filter last l : entries_ok last l → entries_ok last (List.filter is_live l).
Proof.
  intros [Hs He]. split; [by apply filter_sorted|]. apply Forall_forall. intros x Hx.
  apply list_elem_of_In, filter_In in Hx as [Hx _]. rewrite Forall_forall in He. by apply He, list_elem_of_In.
Qed.

Lemma contents_lookup last l id v :
  entries_ok last l → contents_of l !! id = Some v ↔ ∃ e, (2 * id, e) ∈ l ∧ payload e = v.
Proof.
  intros Hok. pose proof (entries_ok_filter _ _ Hok) as [Hs He]. destruct Hok as [_ He0]. unfold contents_of.
  assert (∀ x, x ∈ List.filter is_live l → x.1 = 2 * id_ x.2) as Hkey.
  { intros x Hx. apply list_elem_of_In, filter_In in Hx as [Hx Hl]. apply list_elem_of_In in Hx.
    rewrite Forall_forall in He0. destruct (He0 x Hx) as [_ Hk]. destruct (Hk Hl) as (i & E & Hi). by rewrite (kept_id _ _ Hi). }
  rewrite <- elem_of_list_to_map.
  - rewrite list_elem_of_fmap. split.
    + intros ([k e] & [= -> ->] & Hx). pose proof (Hkey _ Hx) as E. cbn in E. subst k. exists e. split; [|done].
      by apply list_elem_of_In, filter_In in Hx as [Hx%list_elem_of_In _].
    + intros (e & Hx & <-). exists (2 * id, e). assert ((2 * id, e) ∈ List.filter is_live l) as Hf.
      { apply list_elem_of_In, filter_In. split; [by apply list_elem_of_In|apply is_live_even]. }
      split; [|done]. pose proof (Hkey _ Hf) as E. cbn in E. cbn. f_equal. lia.
  - rewrite <- list_fmap_compose. clear He He0. apply NoDup_fmap_2_strong.
    + intros x y Hx Hy E. cbn in E. apply sorted_keys in Hs.
      assert (x.1 = y.1) as E1 by (rewrite (Hkey x Hx), (Hkey y Hy); lia).
      apply list_elem_of_lookup in Hx as [i Hi], Hy as [j Hj].
      assert (i = j) as ->; [|congruence]. eapply NoDup_lookup; [exact Hs|by rewrite list_lookup_fmap, Hi|].
      by rewrite list_lookup_fmap, Hj, E1.
    + apply (NoDup_fmap_1 fst). by apply sorted_keys.
Qed.

Lemma contents_snoc last l x :
  entries_ok last (l ++ [x]) →
  contents_of (l ++ [x]) = (if is_live x then insert (id_ x.2) (payload x.2) else (fun m => m)) (contents_of l).
Proof.
  intros [Hs He]. apply strongly_sorted_app in Hs as (Hs & _ & Hlt). rewrite Forall_app, Forall_singleton in He.
  destruct He as [He [_ Hx]]. unfold contents_of at 1. rewrite List.filter_app, fmap_app, list_to_map_app.
  change (list_to_map ((fun x0 => (id_ x0.2, payload x0.2)) <$> List.filter is_live l)) with (contents_of l).
  cbn [List.filter]. destruct (is_live x); [|cbn; apply (right_id_L ∅ (∪))]. destruct (Hx eq_refl) as (id & Ek & Hk). cbn.
  rewrite insert_empty. symmetry. apply insert_union_singleton_r.
  apply eq_None_not_Some. intros [v Hv]. apply (contents_lookup last) in Hv as (e & Hin & _); [|by split].
  specialize (Hlt _ x Hin ltac:(by left)). rewrite (kept_id _ _ Hk) in Hlt. unfold key_lt in Hlt. cbn in Hlt. rewrite Ek in Hlt. lia.
Qed.

Definition processor_ok (last : Z) (p : processor) : Prop := entries_ok last (entries p).

Lemma compactify_contents p : contents (maybe_compactify p) = contents p.
Proof.
  unfold maybe_compactify. destruct (_ && _); [|done]. unfold contents, contents_of, compactify. cbn [entries].
  do 2 f_equal. induction (entries p) as [|x l IH]; [done|]. cbn. destruct (is_live x) eqn:E; [|done]. cbn. by rewrite E, IH.
Qed.

Lemma compactify_ok last p : processor_ok last p → processor_ok last (maybe_compactify p).
Proof.
  unfold processor_ok, maybe_compactify. destruct (_ && _); [|done]. apply entries_ok_filter.
Qed.

Lemma compactify_offset p :
  p_offset (maybe_compactify p) = p_offset p ∧ p_last_event_id (maybe_compactify p) = p_last_event_id p.
Proof. unfold maybe_compactify. by destruct (_ && _). Qed.

Lemma lower_bound_middle l1 x l2 :
  StronglySorted key_lt (l1 ++ x :: l2) → lower_bound x.1 (l1 ++ x :: l2) = length l1.
Proof.
  induction l1 as [|y l1 IH]; cbn [app lower_bound length].
  - intros _. by rewrite Z.ltb_irrefl.
  - intros [Hs Hf]%StronglySorted_inv. rewrite Forall_forall in Hf.
    assert (key_lt y x) as Hlt%key_lt_fst by (apply Hf, elem_of_app; right; by left).
    rewrite (proj2 (Z.ltb_lt _ _)) by done. by rewrite IH.
Qed.

Lemma back_id_max l x : StronglySorted key_lt l → x ∈ l → ∃ b, back_id l = Some b ∧ x.1 <= b.
Proof.
  intros Hs Hx. unfold back_id. destruct (exists_last (l := l)) as (l' & y & ->); [by intros ->; apply not_elem_of_nil in Hx|].
  rewrite last_snoc. exists y.1. split; [done|]. apply strongly_sorted_app in Hs as (_ & _ & Hlt).
  apply elem_of_app in Hx as [Hx|Hx%list_elem_of_singleton]; [|by subst].
  specialize (Hlt x y Hx ltac:(by left)). apply key_lt_fst in Hlt. lia.
Qed.

Lemma back_id_bound last l b : entries_ok last l → back_id l = Some b → b <= 2 * last + 1.
Proof.
  intros [_ He]. unfold back_id. destruct l as [|x l _] using rev_ind; [done|]. rewrite last_snoc. intros [= <-].
  rewrite Forall_app, Forall_singleton in He. destruct He as [_ [? _]]. lia.
Qed.

Lemma fixed_id id : 0 <= id < 2 ^ 62 → wrap 64 (id * 2) = 2 * id.
Proof. intros Hid. rewrite wrap_small by lia. lia. Qed.

Lemma payload_at offset id type flags raw_flags data :
  payload (event_at offset id type flags raw_flags data) = (type, data).
Proof. unfold payload. by rewrite get_data_raw. Qed.

Lemma has_rewrite offset id type raw_flags data :
  raw_flags = 0 ∨ raw_flags = Rewrite →
  has_flag Rewrite (event_at offset id type raw_flags raw_flags data) = (raw_flags =? Rewrite)
  ∧ has_flag Partial (event_at offset id type raw_flags raw_flags data) = false.
Proof. by intros [-> | ->]. Qed.

Lemma entries_ok_weaken last last' l : last <= last' → entries_ok last l → entries_ok last' l.
Proof. intros Hl [Hs He]. split; [done|]. eapply Forall_impl; [exact He|]. intros x [? ?]. split; [lia|done]. Qed.

(** A new event. *)
Lemma step_insert last p offset id type raw_flags data :
  processor_ok last p → last < id → storable id type raw_flags data → 0 <= type → raw_flags = 0 ∨ raw_flags = Rewrite →
  ∃ p', processor_do_event (event_at offset id type raw_flags raw_flags data) p = Some p' ∧ processor_ok id p'
    ∧ contents p' = <[id := (type, data)]> (contents p) ∧ p_offset p' = offset ∧ p_last_event_id p' = id.
Proof.
  intros Hok Hlast Hs Htype Hf. destruct (has_rewrite offset id type raw_flags data Hf) as [Hrw _].
  unfold processor_do_event. rewrite Hrw. cbn [id_ type_ offset_ event_at]. rewrite fixed_id by apply Hs.
  assert (∀ b, back_id (entries p) = Some b → b < 2 * id) as Hb.
  { intros b Eb. pose proof (back_id_bound _ _ _ Hok Eb). lia. }
  assert (match back_id (entries p) with Some b => 2 * id <=? b | None => false end = false) as ->.
  { destruct (back_id (entries p)) as [b|]; [|done]. specialize (Hb b eq_refl). lia. }
  rewrite andb_false_r. replace (type <? 0) with false by lia.
  assert (match back_id (entries p) with Some b => if b <? 2 * id then Some tt else None | None => Some tt end = Some tt) as ->.
  { destruct (back_id (entries p)) as [b|]; [|done]. specialize (Hb b eq_refl). by rewrite (proj2 (Z.ltb_lt _ _)). }
  cbn [mbind option_bind]. eexists. split; [done|]. rewrite compactify_contents.
  set (e := event_at offset id type raw_flags raw_flags data). set (p1 := mkProcessor _ _ _ _ _ _).
  assert (processor_ok id p1) as Hok1.
  { destruct (entries_ok_weaken last id _ ltac:(lia) Hok) as [Hso He]. split; cbn [entries p1].
    - apply strongly_sorted_app. split_and!; [done|by repeat constructor|]. intros x y Hx ->%list_elem_of_singleton.
      destruct (back_id_max _ x Hso Hx) as (b & Eb & Hle). specialize (Hb b Eb). unfold key_lt. cbn. Z.to_euclidean_division_equations. lia.
    - apply Forall_app. split; [done|]. apply Forall_singleton. split; [cbn; pose proof (so_id _ _ _ _ Hs); lia|].
      intros _. exists id. split; [done|]. exists offset, type, raw_flags, raw_flags, data. done. }
  split; [by apply compactify_ok|]. destruct (compactify_offset p1) as [-> ->]. split; [|done].
  unfold contents. cbn [entries p1]. rewrite (contents_snoc id) by done. rewrite is_live_even. cbn [snd]. unfold e at 2. by rewrite payload_at.
Qed.

(** The entry of an event that is kept is the one that [lower_bound] finds. *)
Lemma find_entry last p id v :
  processor_ok last p → contents p !! id = Some v →
  ∃ l1 old l2, entries p = l1 ++ (2 * id, old) :: l2 ∧ lower_bound (2 * id) (entries p) = length l1
    ∧ (∃ b, back_id (entries p) = Some b ∧ 2 * id <= b) ∧ payload old = v.
Proof.
  intros Hok Hv. apply (contents_lookup last) in Hv as (old & Hin & Hp); [|done].
  destruct (back_id_max _ _ (eo_sorted _ _ Hok) Hin) as (b & Eb & Hle).
  apply list_elem_of_split in Hin as (l1 & l2 & E). exists l1, old, l2. split; [done|].
  split; [|split; [by exists b|done]]. rewrite E. apply (lower_bound_middle l1 (2 * id, old) l2). rewrite <- E. apply Hok.
Qed.

Lemma entries_replace last l1 old l2 id x :
  entries_ok last (l1 ++ (2 * id, old) :: l2) → 0 <= x.1 <= 2 * last + 1 → x.1 = 2 * id ∨ x.1 = 2 * id + 1 →
  (is_live x = true → x.1 = 2 * id ∧ kept id x.2) → entries_ok last (l1 ++ x :: l2).
Proof.
  intros [Hs He] Hx Hid Hlive. split.
  - apply strongly_sorted_app in Hs as (H1 & [H2 Hf]%StronglySorted_inv & H3). apply strongly_sorted_app. split_and!.
    + done.
    + constructor; [done|]. rewrite Forall_forall in Hf |- *. intros y Hy. specialize (Hf y Hy).
      unfold key_lt in *. cbn in Hf. destruct Hid as [-> | ->]; Z.to_euclidean_division_equations; lia.
    + intros y z Hy [->|Hz]%elem_of_cons; [|apply H3; [done|by right]].
      specialize (H3 y (2 * id, old) Hy ltac:(by left)). unfold key_lt in *. cbn in H3.
      destruct Hid as [-> | ->]; Z.to_euclidean_division_equations; lia.
  - rewrite Forall_app, Forall_cons in He |- *. destruct He as (H1 & _ & H2). split_and!; [done| |done].
    split; [done|]. intros Hl. destruct (Hlive Hl) as [E Hk]. by exists id.
Qed.

(** Both kinds of records that change an event that is there. *)
Lemma step_found last p e id v :
  processor_ok last p → contents p !! id = Some v → id_ e = id → 0 <= id < 2 ^ 62 → has_flag Rewrite e = true →
  ∃ l1 old l2, entries p = l1 ++ (2 * id, old) :: l2 ∧ payload old = v
    ∧ processor_do_event e p = Some (maybe_compactify
          (if type_ e =? Empty
           then mkProcessor (l1 ++ (2 * id + 1, no_event) :: l2) (total_events_ p) (empty_events_ p + 1)
                  (p_last_event_id p) (offset_ e) (total_raw_events_size_ p - raw_size old)
           else mkProcessor (l1 ++ (2 * id, clear_flag Rewrite e) :: l2) (total_events_ p) (empty_events_ p)
                  (p_last_event_id p) (offset_ e) (total_raw_events_size_ p - raw_size old + raw_size e))).
Proof.
  intros Hok Hv <- Hid Hf. destruct (find_entry _ _ _ _ Hok Hv) as (l1 & old & l2 & E & El & (b & Eb & Hb) & Hp).
  exists l1, old, l2. split; [done|]. split; [done|].
  unfold processor_do_event. rewrite fixed_id, Hf, Eb by done. replace (2 * id_ e <=? b) with true by lia. cbn [andb].
  rewrite El, E, list_lookup_middle by done. cbn [mbind option_bind]. rewrite Z.eqb_refl. cbn [negb].
  rewrite !insert_app_r_alt by lia. rewrite Nat.sub_diag. by destruct (type_ e =? Empty).
Qed.

Lemma contents_replaced last p p' l1 old l2 id x :
  processor_ok last p → entries p = l1 ++ (2 * id, old) :: l2 → entries p' = l1 ++ x :: l2 →
  x.1 = 2 * id ∨ x.1 = 2 * id + 1 → processor_ok last p' →
  contents p' = (if is_live x then insert id (payload x.2) else delete id) (contents p).
Proof.
  intros Hok E E' Hx Hok'. apply map_eq. intros i. apply option_eq. intros v. unfold contents.
  rewrite (contents_lookup last (entries p')) by done. rewrite E'.
  assert (∀ e, (2 * i, e) ∈ l1 ++ (2 * id, old) :: l2 ↔ (i = id ∧ e = old) ∨ (2 * i, e) ∈ l1 ++ l2) as Hold.
  { intros e. rewrite !elem_of_app, elem_of_cons. split; [intros [?|[[= ? ->]|?]]; [tauto|left; split; [lia|done]|tauto]|].
    intros [[-> ->]|[?|?]]; tauto. }
  assert (∀ e, (2 * id, e) ∉ l1 ++ l2) as Hfresh.
  { intros e Hin. unfold processor_ok in Hok. rewrite E in Hok. destruct Hok as [Hs%sorted_keys _].
    rewrite fmap_app, fmap_cons in Hs. apply NoDup_app in Hs as (_ & H12 & [Hn _]%NoDup_cons).
    apply elem_of_app in Hin as [Hin|Hin]; apply (list_elem_of_fmap_2 fst) in Hin; cbn in *; [|done].
    apply (H12 _ Hin). by left. }
  destruct (is_live x) eqn:El.
  - assert (x = (2 * id, x.2)) as Ex.
    { destruct x as [k e]. cbn in *. destruct Hx as [-> | ->]; [done|]. by rewrite is_live_odd in El. }
    rewrite lookup_insert_Some, (contents_lookup last (entries p)), E by done. split.
    + intros (e & Hin & <-). rewrite Ex in Hin. apply elem_of_app in Hin as [Hin|[[= Ei ->]|Hin]%elem_of_cons].
      * right. split; [|exists e; rewrite Hold; split; [right; apply elem_of_app; auto|done]].
        intros ->. apply (Hfresh e), elem_of_app. auto.
      * left. split; [lia|done].
      * right. split; [|exists e; rewrite Hold; split; [right; apply elem_of_app; auto|done]].
        intros ->. apply (Hfresh e), elem_of_app. auto.
    + intros [[<- <-]|[Hne (e & [[-> _]|Hin]%Hold & <-)]]; [|done|].
      * exists x.2. split; [|done]. rewrite <- Ex. apply elem_of_app. right. by left.
      * exists e. split; [|done]. apply elem_of_app in Hin as [?|?]; apply elem_of_app; [by left|right; by right].
  - rewrite lookup_delete_Some, (contents_lookup last (entries p)), E by done. split.
    + intros (e & Hin & <-). assert ((2 * i, e) ∈ l1 ++ l2) as Hin'.
      { apply elem_of_app in Hin as [?|[Ex|?]%elem_of_cons]; [apply elem_of_app; auto| |apply elem_of_app; auto].
        exfalso. rewrite <- Ex in El. by rewrite is_live_even in El. }
      split; [|exists e; rewrite Hold; auto]. intros ->. by apply (Hfresh e).
    + intros [Hne (e & [[-> _]|Hin]%Hold & <-)]; [done|]. exists e. split; [|done].
      apply elem_of_app in Hin as [?|?]; apply elem_of_app; [by left|right; by right].
Qed.

Lemma entry_bound last p l1 old l2 id :
  processor_ok last p → entries p = l1 ++ (2 * id, old) :: l2 → 0 <= id <= last.
Proof.
  unfold processor_ok. intros [_ He] E. rewrite E, Forall_app, Forall_cons in He. destruct He as (_ & [? _] & _). cbn in *. lia.
Qed.

(** A rewritten event. *)
Lemma step_rewrite last p offset id type data v :
  processor_ok last p → contents p !! id = Some v → storable id type Rewrite data → 0 <= type →
  ∃ p', processor_do_event (event_at offset id type Rewrite Rewrite data) p = Some p' ∧ processor_ok last p'
    ∧ contents p' = <[id := (type, data)]> (contents p) ∧ p_offset p' = offset ∧ p_last_event_id p' = p_last_event_id p.
Proof.
  intros Hok Hv Hs Ht.
  destruct (step_found last p (event_at offset id type Rewrite Rewrite data) id v Hok Hv eq_refl (so_id _ _ _ _ Hs) eq_refl)
    as (l1 & old & l2 & E & _ & Ep).
  cbn [type_ event_at offset_] in Ep. replace (type =? Empty) with false in Ep by (unfold Empty; lia).
  eexists. split; [exact Ep|]. clear Ep. rewrite compactify_contents. set (p1 := mkProcessor _ _ _ _ _ _).
  pose proof (entry_bound _ _ _ _ _ _ Hok E) as Hid.
  assert (kept id (event_at offset id type 0 Rewrite data)) as Hk by (by exists offset, type, 0, Rewrite, data; auto).
  assert (processor_ok last p1) as Hok1.
  { unfold processor_ok in *. cbn [entries p1]. rewrite E in Hok. eapply entries_replace; [exact Hok|cbn; lia|by left|done]. }
  split; [by apply compactify_ok|]. destruct (compactify_offset p1) as [-> ->]. split; [|done].
  rewrite (contents_replaced last p p1 l1 old l2 id _ Hok E eq_refl (or_introl eq_refl) Hok1).
  rewrite is_live_even. f_equal. apply (payload_at offset id type 0 Rewrite data).
Qed.

(** An erased event. *)
Lemma step_erase last p offset id v :
  processor_ok last p → contents p !! id = Some v → storable id Empty Rewrite [] →
  ∃ p', processor_do_event (event_at offset id Empty Rewrite Rewrite []) p = Some p' ∧ processor_ok last p'
    ∧ contents p' = delete id (contents p) ∧ p_offset p' = offset ∧ p_last_event_id p' = p_last_event_id p.
Proof.
  intros Hok Hv Hs.
  destruct (step_found last p (event_at offset id Empty Rewrite Rewrite []) id v Hok Hv eq_refl (so_id _ _ _ _ Hs) eq_refl)
    as (l1 & old & l2 & E & _ & Ep).
  change (type_ (event_at offset id Empty Rewrite Rewrite []) =? Empty) with true in Ep.
  eexists. split; [exact Ep|]. clear Ep. rewrite compactify_contents. set (p1 := mkProcessor _ _ _ _ _ _).
  pose proof (entry_bound _ _ _ _ _ _ Hok E) as Hid.
  assert (processor_ok last p1) as Hok1.
  { unfold processor_ok in *. cbn [entries p1]. rewrite E in Hok. eapply entries_replace; [exact Hok|cbn; lia|by right|].
    by rewrite is_live_odd. }
  split; [by apply compactify_ok|]. destruct (compactify_offset p1) as [-> ->]. split; [|done].
  rewrite (contents_replaced last p p1 l1 old l2 id _ Hok E eq_refl (or_intror eq_refl) Hok1).
  by rewrite is_live_odd.
Qed.

(** ** Files *)

Record rec := mkRec { r_id : Z; r_type : Z; r_flags : Z; r_data : slice }.
Definition raw_rec (r : rec) : slice := raw_of (r_id r) (r_type r) (r_flags r) (r_data r).
Definition bytes_of (rs : list rec) : slice := mjoin (raw_rec <$> rs).
Definition event_of (offset : Z) (r : rec) : BinlogEvent :=
  event_at offset (r_id r) (r_type r) (r_flags r) (r_flags r) (r_data r).

(** A record and what it makes of the events; [last] is the greatest identifier
    that was added. *)
Inductive rec_step (last : Z) (m : map_of) (r : rec) : Z → map_of → Prop :=
| rec_new : last < r_id r → 0 <= r_type r → r_flags r = 0 ∨ r_flags r = Rewrite →
    rec_step last m r (r_id r) (<[r_id r := (r_type r, r_data r)]> m)
| rec_rewrite v : m !! r_id r = Some v → 0 <= r_type r → r_flags r = Rewrite →
    rec_step last m r last (<[r_id r := (r_type r, r_data r)]> m)
| rec_erase v : m !! r_id r = Some v → r_type r = Empty → r_flags r = Rewrite → r_data r = [] →
    rec_step last m r last (delete (r_id r) m).
Inductive recs_ok : Z → map_of → list rec → Z → map_of → Prop :=
| recs_nil last m : recs_ok last m [] last m
| recs_cons last m r last1 m1 rs last2 m2 :
    storable (r_id r) (r_type r) (r_flags r) (r_data r) → rec_step last m r last1 m1 → recs_ok last1 m1 rs last2 m2 →
    recs_ok last m (r :: rs) last2 m2.

Lemma recs_app last m rs last1 m1 rs' last2 m2 :
  recs_ok last m rs last1 m1 → recs_ok last1 m1 rs' last2 m2 → recs_ok last m (rs ++ rs') last2 m2.
Proof. induction 1; [done|]. intros H2. cbn. econstructor; eauto. Qed.

Lemma recs_split last m rs rs' last2 m2 :
  recs_ok last m (rs ++ rs') last2 m2 → ∃ last1 m1, recs_ok last m rs last1 m1 ∧ recs_ok last1 m1 rs' last2 m2.
Proof.
  revert last m. induction rs as [|r rs IH]; cbn; intros last m Hr.
  - exists last, m. split; [constructor|done].
  - inversion Hr as [|? ? ? l1 m1 ? ? ? Hs Hst Hrest]; subst. destruct (IH _ _ Hrest) as (l & m' & H1 & H2).
    exists l, m'. split; [by econstructor|done].
Qed.

Lemma rec_step_last last m r last1 m1 : rec_step last m r last1 m1 → last <= last1.
Proof. by destruct 1; lia. Qed.

Lemma recs_last last m rs last1 m1 : recs_ok last m rs last1 m1 → last <= last1.
Proof. induction 1 as [|? ? ? ? ? ? ? ? _ Hs%rec_step_last]; lia. Qed.

Lemma flags_of_step last m r last1 m1 : rec_step last m r last1 m1 → r_flags r = 0 ∨ r_flags r = Rewrite.
Proof. destruct 1; auto. Qed.

(** The processor follows the records. *)
Lemma processor_step last m r last1 m1 p offset :
  storable (r_id r) (r_type r) (r_flags r) (r_data r) → rec_step last m r last1 m1 →
  processor_ok last p → contents p = m →
  ∃ p', processor_do_event (event_of offset r) p = Some p' ∧ processor_ok last1 p' ∧ contents p' = m1
    ∧ p_offset p' = offset ∧ p_last_event_id p' = (if last <? last1 then last1 else p_last_event_id p).
Proof.
  intros Hs Hst Hok <-. unfold event_of. destruct Hst as [Hl Ht Hf|v Hv Ht Hf|v Hv Ht Hf Hd].
  - destruct (step_insert last p offset _ _ _ _ Hok Hl Hs Ht Hf) as (p' & E & H1 & H2 & H3 & H4). exists p'.
    rewrite (proj2 (Z.ltb_lt _ _)) by done. auto.
  - rewrite Hf in *. destruct (step_rewrite last p offset _ _ _ _ Hok Hv Hs Ht) as (p' & E & H1 & H2 & H3 & H4). exists p'.
    rewrite Z.ltb_irrefl. auto.
  - rewrite Hf, Ht, Hd in *. destruct (step_erase last p offset _ _ Hok Hv Hs) as (p' & E & H1 & H2 & H3 & H4). exists p'.
    rewrite Z.ltb_irrefl. auto.
Qed.

Lemma type_not_encrypted last m r last1 m1 : rec_step last m r last1 m1 → (r_type r =? AesCtrEncryption) = false.
Proof. unfold AesCtrEncryption. destruct 1 as [? Ht| ? ? Ht |? ? Ht]; rewrite ?Ht; unfold Empty; lia. Qed.

Lemma add_not_partial offset last m r last1 m1 st b :
  rec_step last m r last1 m1 → pending_events_ b = [] →
  do_add_event crc32 st (event_of offset r) b = do_event crc32 st (event_of offset r) b.
Proof.
  intros Hst Hp. unfold do_add_event.
  destruct (has_rewrite offset (r_id r) (r_type r) (r_flags r) (r_data r) (flags_of_step _ _ _ _ _ Hst)) as [_ Hf].
  unfold event_of. rewrite Hf, Hp. cbn [do_events mbind option_bind]. f_equal. destruct b. cbn in *. by subst.
Qed.

Lemma rec_slen r : slen (raw_rec r) = slen (r_data r) + MIN_SIZE.
Proof. apply raw_slen. Qed.

(** What the loop that loads a file has made of some records. *)
Record loaded (last : Z) (m : map_of) (offset : Z) (b : binlog) : Prop := {
  ld_ok : processor_ok last (processor_ b);
  ld_contents : contents (processor_ b) = m;
  ld_pending : pending_events_ b = [];
  ld_size : fd_size_ b = offset;
  ld_offset : p_offset (processor_ b) = offset;
  ld_last : p_last_event_id (processor_ b) = Z.max 0 last;
}.

Lemma take_slen {A} (s t : list A) : take (Z.to_nat (slen s)) (s ++ t) = s.
Proof. unfold slen. by rewrite Nat2Z.id, take_app_length. Qed.

Lemma drop_app_slen {A} (s t : list A) : drop (Z.to_nat (slen s)) (s ++ t) = t.
Proof. unfold slen. by rewrite Nat2Z.id, drop_app_length. Qed.

(** The size at the beginning of a record, or of a part of it. *)
Lemma read_size id type flags data n :
  storable id type flags data → (4 <= n)%nat →
  fetch_int (new_parser (take 4 (take n (raw_of id type flags data)))) = Some (slen data + MIN_SIZE, parser_at 4 []).
Proof.
  intros Hs Hn. destruct (size_small _ _ _ _ Hs) as [_ Hint]. rewrite take_take, Nat.min_l by lia. rewrite raw_parts.
  pose proof (store_int_slen (slen data + MIN_SIZE)) as Hl. unfold slen in Hl at 1.
  rewrite take_app_le, take_ge by lia. rewrite new_parser_at, store_int_slen.
  rewrite <- (app_nil_r (store_int _)). by apply fetch_int_store.
Qed.

Lemma min_size_bounds (data : slice) : 4 < MIN_SIZE <= slen data + MIN_SIZE.
Proof. pose proof (slen_nonneg data). unfold MIN_SIZE, HEADER_SIZE, TAIL_SIZE. lia. Qed.

Lemma load_step last m r last1 m1 b offset fuel tail :
  loaded last m offset b → -1 <= last → storable (r_id r) (r_type r) (r_flags r) (r_data r) → rec_step last m r last1 m1 →
  ∃ b', load_loop crc32 (S fuel) offset (raw_rec r ++ tail) b = load_loop crc32 fuel (offset + slen (raw_rec r)) tail b'
    ∧ loaded last1 m1 (offset + slen (raw_rec r)) b' ∧ file b' = file b ∧ synced b' = synced b.
Proof.
  intros [Hok Hc Hp Hsz Ho Hl] Hlast Hs Hst. pose proof (size_small _ _ _ _ Hs) as [Hsize Hint].
  pose proof (min_size_bounds (r_data r)) as Hmin. pose proof (rec_slen r) as Hraw. pose proof (slen_nonneg tail) as Htail.
  destruct (processor_step last m r last1 m1 (processor_ b) (offset + slen (raw_rec r)) Hs Hst Hok Hc)
    as (p' & Ep & Hok' & Hc' & Ho' & Hl').
  cbn [load_loop]. unfold read_next. rewrite slen_app. replace (slen (raw_rec r) + slen tail <? 4) with false by lia.
  pose proof (read_size (r_id r) (r_type r) (r_flags r) (r_data r) (length (raw_rec r)) Hs ltac:(unfold slen in *; lia)) as Er.
  unfold raw_rec at 1 in Er. rewrite firstn_all in Er. fold (raw_rec r) in Er.
  rewrite take_app_le by (unfold slen in *; lia). rewrite Er. cbn [mbind option_bind].
  rewrite (wrap_small 64) by lia.
  assert ((MAX_SIZE <? slen (r_data r) + MIN_SIZE) = false) as ->.
  { pose proof (so_size _ _ _ _ Hs). lia. }
  replace (slen (r_data r) + MIN_SIZE <? MIN_SIZE) with false by lia.
  assert (((slen (r_data r) + MIN_SIZE) mod 4 =? 0) = true) as ->.
  { apply Z.eqb_eq. rewrite Z.add_mod, (so_aligned _ _ _ _ Hs) by lia. done. }
  cbn [negb]. replace (slen (raw_rec r) + slen tail <? slen (r_data r) + MIN_SIZE) with false by lia.
  rewrite <- Hraw. rewrite take_slen, drop_app_slen.
  pose proof (event_init_raw _ _ _ _ Hs) as Ei. fold (raw_rec r) in Ei. rewrite Ei. cbn [mbind option_bind].
  rewrite validate_raw by done. cbn [mbind option_bind].
  change (set_offset (offset + slen (raw_rec r)) (event_at (-1) (r_id r) (r_type r) (r_flags r) (r_flags r) (r_data r)))
    with (event_of (offset + slen (raw_rec r)) r).
  rewrite (add_not_partial _ _ _ _ _ _ _ _ Hst Hp). unfold do_event. cbn [mbind option_bind].
  change (type_ (event_of (offset + slen (raw_rec r)) r)) with (r_type r). rewrite (type_not_encrypted _ _ _ _ _ Hst), Ep.
  cbn [mbind option_bind]. eexists. split; [done|]. split; [|done]. split; cbn; [done|done|done| |done|].
  - change (raw_size (event_of (offset + slen (raw_rec r)) r)) with (slen (raw_rec r)). lia.
  - rewrite Hl', Hl. pose proof (rec_step_last _ _ _ _ _ Hst).
    destruct (Z.ltb_spec last last1); lia.
Qed.

Lemma load_recs last m rs last1 m1 b offset fuel tail :
  loaded last m offset b → -1 <= last → recs_ok last m rs last1 m1 →
  ∃ b', load_loop crc32 (length rs + fuel) offset (bytes_of rs ++ tail) b
        = load_loop crc32 fuel (offset + slen (bytes_of rs)) tail b'
    ∧ loaded last1 m1 (offset + slen (bytes_of rs)) b' ∧ file b' = file b ∧ synced b' = synced b.
Proof.
  intros Hld Hl Hr. revert b offset Hld. induction Hr as [last m|last m r l1 m1 rs l2 m2 Hs Hst Hr IH]; intros b offset Hld.
  - exists b. change (slen (bytes_of [])) with 0. rewrite Z.add_0_r. done.
  - destruct (load_step last m r l1 m1 b offset (length rs + fuel) (bytes_of rs ++ tail) Hld Hl Hs Hst) as (b1 & E1 & Hld1 & Ef & Esy).
    pose proof (rec_step_last _ _ _ _ _ Hst).
    destruct (IH ltac:(lia) b1 _ Hld1) as (b2 & E2 & Hld2 & Ef2 & Esy2). exists b2.
    change (bytes_of (r :: rs)) with (raw_rec r ++ bytes_of rs). rewrite slen_app, Z.add_assoc, <- (assoc_L (++)).
    split; [|split; [done|split; congruence]]. cbn [length Nat.add]. by rewrite E1, E2.
Qed.

(** A record that is not complete ends the file. *)
Definition partial (t : slice) : Prop :=
  ∃ r n, storable (r_id r) (r_type r) (r_flags r) (r_data r) ∧ t = take n (raw_rec r) ∧ (n < length (raw_rec r))%nat.

Lemma load_stop fuel offset tail b : partial tail → load_loop crc32 (S fuel) offset tail b = Some b.
Proof.
  intros (r & n & Hs & -> & Hn). cbn [load_loop]. unfold read_next.
  assert (slen (take n (raw_rec r)) = Z.of_nat n) as Hlen by (unfold slen; rewrite length_take; lia). rewrite Hlen.
  destruct (Z.ltb_spec (Z.of_nat n) 4) as [H4|H4]; [done|].
  pose proof (read_size _ _ _ _ n Hs ltac:(lia)) as E. fold (raw_rec r) in E. rewrite E. cbn [mbind option_bind].
  pose proof (size_small _ _ _ _ Hs) as [Hsize _]. pose proof (rec_slen r) as Hraw. pose proof (min_size_bounds (r_data r)) as Hmin.
  rewrite (wrap_small 64) by lia. pose proof (so_size _ _ _ _ Hs).
  replace (MAX_SIZE <? slen (r_data r) + MIN_SIZE) with false by lia.
  replace (slen (r_data r) + MIN_SIZE <? MIN_SIZE) with false by lia.
  assert (((slen (r_data r) + MIN_SIZE) mod 4 =? 0) = true) as ->.
  { apply Z.eqb_eq. rewrite Z.add_mod, (so_aligned _ _ _ _ Hs) by lia. done. }
  cbn [negb]. by replace (Z.of_nat n <? slen (r_data r) + MIN_SIZE) with true by (unfold slen in *; lia).
Qed.

Lemma sorted_increasing l : StronglySorted key_lt l → increasing l.*1 = true.
Proof.
  induction 1 as [|x l Hs IH Hf]; [done|]. destruct l as [|y l]; [done|]. cbn [fmap list_fmap increasing] in *.
  apply Forall_cons in Hf as [Hxy%key_lt_fst _]. rewrite (proj2 (Z.ltb_lt _ _)) by done. exact IH.
Qed.

Lemma for_each_ok last p : processor_ok last p → for_each p = Some (live_events p).
Proof. intros [Hs _]. unfold for_each. by rewrite sorted_increasing. Qed.

Lemma recs_length rs : (length rs <= length (bytes_of rs))%nat.
Proof.
  induction rs as [|r rs IH]; [done|]. change (bytes_of (r :: rs)) with (raw_rec r ++ bytes_of rs). rewrite length_app. cbn [length].
  pose proof (rec_slen r). pose proof (min_size_bounds (r_data r)). unfold slen in *. lia.
Qed.

(** ** A binlog that runs *)

Record running (m : map_of) (b : binlog) (rs : list rec) : Prop := {
  rn_file : file b = bytes_of rs;
  rn_recs : ∃ last, recs_ok (-1) ∅ rs last m ∧ last <= last_event_id_ b;
  rn_processor : processor_ok (last_event_id_ b) (processor_ b) ∧ contents (processor_ b) = m;
  rn_pending : pending_events_ b = [];
  rn_size : fd_size_ b = slen (file b);
  rn_synced : synced b <= slen (file b);
  rn_last : 0 <= last_event_id_ b;
}.

(** A file of records, maybe cut in the middle of one, is loaded. *)
Lemma init_ok rs last m tail :
  recs_ok (-1) ∅ rs last m → partial tail →
  ∃ b, init crc32 (bytes_of rs ++ tail) = Some (live_events (processor_ b), b)
    ∧ running m b rs ∧ file b = bytes_of rs ∧ last_event_id_ b = Z.max 0 last.
Proof.
  intros Hr Ht. set (b0 := set_file (bytes_of rs ++ tail) 0 0 new_binlog).
  assert (loaded (-1) ∅ 0 b0) as Hld0 by (split; [split; constructor|done..]).
  destruct (load_recs (-1) ∅ rs last m b0 0 (S (length (bytes_of rs ++ tail) - length rs)) tail Hld0 ltac:(lia) Hr)
    as (b1 & E & Hld & Ef & Esy).
  rewrite load_stop in E by done.
  unfold init. fold b0. pose proof (recs_length rs).
  replace (S (length (bytes_of rs ++ tail))) with (length rs + S (length (bytes_of rs ++ tail) - length rs))%nat
    by (rewrite length_app; lia).
  rewrite E. cbn [mbind option_bind]. unfold finish_load. pose proof (slen_nonneg (bytes_of rs)).
  rewrite (ld_offset _ _ _ _ Hld), (ld_size _ _ _ _ Hld), (proj2 (Z.leb_le _ _)) by lia. cbn [CHECK].
  rewrite (for_each_ok _ _ (ld_ok _ _ _ _ Hld)). cbn [mbind option_bind]. rewrite Z.eqb_refl. cbn [CHECK].
  cbn [mbind option_bind].
  eexists (set_last_event_id _ (set_file _ _ _ b1)). split; [reflexivity|]. rewrite Ef.
  cbn [file set_last_event_id set_file last_event_id_ processor_]. unfold b0. cbn [file set_file].
  rewrite Z.add_0_l in *. rewrite take_slen, (ld_last _ _ _ _ Hld). split; [|done].
  destruct Hld as [Hok Hc Hp Hsz _ Hla]. split; cbn; [done| | |done|done|by rewrite Esy|lia].
  - exists last. split; [done|lia].
  - split; [|done]. eapply entries_ok_weaken; [|exact Hok]. lia.
Qed.

Lemma bytes_app rs rs' : bytes_of (rs ++ rs') = bytes_of rs ++ bytes_of rs'.
Proof. unfold bytes_of. by rewrite fmap_app, join_app. Qed.

(** What is kept, as the records of a new file. *)
Lemma live_recs last l :
  entries_ok last l → -1 <= last →
  ∃ rs last', recs_ok (-1) ∅ rs last' (contents_of l) ∧ last' <= last
    ∧ (raw_rec <$> rs) = raw_event_ <$> (snd <$> List.filter is_live l).
Proof.
  revert last. induction l as [|x l IH] using rev_ind; intros last Hok Hl.
  - exists [], (-1). split_and!; [constructor|done|done].
  - rewrite (contents_snoc last) by done. rewrite List.filter_app, !fmap_app. cbn [List.filter].
    assert (entries_ok last l) as Hok1.
    { destruct Hok as [Hs He]. apply strongly_sorted_app in Hs as (Hs & _). rewrite Forall_app in He.
      by destruct He as [He _]. }
    destruct (is_live x) eqn:El.
    2:{ destruct (IH last Hok1 Hl) as (rs & l' & Hr & Hle & E). exists rs, l'. cbn. by rewrite app_nil_r. }
    destruct Hok as [Hs He]. apply strongly_sorted_app in Hs as (_ & _ & Hlt). rewrite Forall_app, Forall_singleton in He.
    destruct He as [He [Hb Hx]]. destruct (Hx El) as (id & Ek & offset & type & flags & rf & data & Ee & Hst & Ht & Hrf).
    assert (entries_ok (id - 1) l) as Hok2.
    { destruct Hok1 as [Hs1 He1]. split; [done|]. apply Forall_forall. intros y Hy. rewrite Forall_forall in He1.
      destruct (He1 y Hy) as [Hy0 Hy1]. split; [|done]. specialize (Hlt y x Hy ltac:(by left)). unfold key_lt in Hlt.
      rewrite Ek in Hlt. Z.to_euclidean_division_equations. lia. }
    destruct (IH (id - 1) Hok2 ltac:(pose proof (so_id _ _ _ _ Hst); lia)) as (rs & l' & Hr & Hle & E).
    exists (rs ++ [mkRec id type rf data]), id. split_and!.
    + eapply recs_app; [exact Hr|]. rewrite Ee, payload_at. eapply recs_cons; [exact Hst| |constructor]. by apply rec_new; [cbn; lia|..].
    + lia.
    + rewrite fmap_app, E. f_equal. cbn. by rewrite Ee.
Qed.

(** Writing the events of a new file. *)
Lemma rewrite_events l b :
  Forall (fun e => ∃ id, kept id e) l →
  ∃ b', do_events crc32 Reindex l b = Some b' ∧ file b' = file b ++ mjoin (raw_event_ <$> l)
    ∧ fd_size_ b' = fd_size_ b + slen (mjoin (raw_event_ <$> l)) ∧ processor_ b' = processor_ b
    ∧ last_event_id_ b' = last_event_id_ b ∧ pending_events_ b' = pending_events_ b ∧ synced b' = synced b.
Proof.
  intros Hl. revert b. induction Hl as [|e l Hk Hl IH]; intros b; cbn [do_events].
  - exists b. cbn. by rewrite app_nil_r, Z.add_0_r.
  - destruct Hk as (id & offset & type & flags & rf & data & -> & Hst & Ht & _).
    unfold do_event at 1. rewrite validate_raw by done. cbn [mbind option_bind].
    change (type_ (event_at offset id type flags rf data)) with type.
    replace (type =? AesCtrEncryption) with false by (unfold AesCtrEncryption; lia). cbn [mbind option_bind].
    set (b1 := set_file _ _ _ _). destruct (IH b1) as (b' & -> & Ef & Es & Ep & El & Epd & Esy). exists b'.
    split; [done|]. cbn [fmap list_fmap mjoin list_join]. rewrite slen_app, (assoc_L (++)), Z.add_assoc. by split_and!.
Qed.

Lemma live_kept last l : entries_ok last l → Forall (fun e => ∃ id, kept id e) (snd <$> List.filter is_live l).
Proof.
  intros [_ He]. apply Forall_fmap, Forall_forall. intros x Hx. apply list_elem_of_In, filter_In in Hx as [Hx Hl].
  apply list_elem_of_In in Hx. rewrite Forall_forall in He. destruct (He x Hx) as [_ Hk]. destruct (Hk Hl) as (id & _ & ?). by exists id.
Qed.

Lemma reindex_ok m b rs opened :
  running m b rs → file b ≠ [] →
  ∃ b' rs', do_reindex crc32 opened b = Some b' ∧ running m b' rs' ∧ last_event_id_ b' = last_event_id_ b
    ∧ (b' = b ∧ rs' = rs ∨ synced b' = slen (file b')).
Proof.
  intros Hrun Hne. unfold do_reindex. destruct opened; cbn [negb]; [|exists b, rs; split_and!; [done|done|done|by left]].
  pose proof Hrun as [_ _ [Hok Hc] Hp _ _ Hl]. rewrite (for_each_ok _ _ Hok). cbn [mbind option_bind].
  destruct (rewrite_events _ (set_file [] 0 0 b) (live_kept _ _ Hok)) as (b' & E & Ef & Es & Ep & El & Epd & _).
  unfold live_events at 1. rewrite E. cbn [mbind option_bind].
  replace (slen (file b) =? 0) with false by (symmetry; apply Z.eqb_neq; intros Hz%slen_nil; done).
  destruct (live_recs _ _ Hok ltac:(lia)) as (rs' & last' & Hr & Hle & Eraw).
  exists (sync b'), rs'. split; [done|]. cbn in Ef, Es, Ep, El, Epd.
  split; [|split; [exact El|right; reflexivity]]. split; cbn [file processor_ last_event_id_ pending_events_ fd_size_ synced sync].
  - rewrite Ef. unfold bytes_of. by rewrite Eraw.
  - exists last'. rewrite El. unfold contents in Hc. rewrite Hc in Hr. done.
  - by rewrite Ep, El.
  - congruence.
  - rewrite Es, Ef. done.
  - done.
  - lia.
Qed.

Lemma rec_step_mono last last' m r last1 m1 :
  rec_step last m r last1 m1 → last' <= last → ∃ last1', rec_step last' m r last1' m1 ∧ last1' <= last1.
Proof.
  intros Hst Hl. destruct Hst as [H1 H2 H3|v H1 H2 H3|v H1 H2 H3 H4].
  - exists (r_id r). split; [apply rec_new; [lia|done|done]|lia].
  - exists last'. split; [by eapply rec_rewrite|done].
  - exists last'. split; [by eapply rec_erase|done].
Qed.

Lemma raw_not_empty r : raw_rec r ≠ [].
Proof. intros E%slen_nil. rewrite rec_slen in E. pose proof (min_size_bounds (r_data r)). lia. Qed.

(** A record is written: the file grows by it, or is written anew. *)
Lemma write_ok m b rs r last1 m1 L opened :
  running m b rs → storable (r_id r) (r_type r) (r_flags r) (r_data r) →
  rec_step (last_event_id_ b) m r last1 m1 → last1 <= L →
  ∃ b' rs', add_raw_event crc32 opened (Some (raw_rec r)) (set_last_event_id L b) = Some b' ∧ running m1 b' rs'
    ∧ last_event_id_ b' = L ∧ (synced b' = synced b ∧ rs' = rs ++ [r] ∨ synced b' = slen (file b')).
Proof.
  intros [Ef (lf & Hr & Hlf) [Hok Hc] Hp Hsz Hsy Hl] Hs Hst HL. pose proof (rec_step_last _ _ _ _ _ Hst) as Hl1.
  destruct (processor_step _ _ _ _ _ (processor_ b) (-1) Hs Hst Hok Hc) as (p' & Ep & Hok' & Hc' & _).
  destruct (rec_step_mono _ _ _ _ _ _ Hst Hlf) as (lf1 & Hstf & Hlf1).
  unfold add_raw_event. cbn [mbind option_bind]. pose proof (event_init_raw _ _ _ _ Hs) as Ei. fold (raw_rec r) in Ei. rewrite Ei.
  cbn [mbind option_bind]. change (event_at (-1) (r_id r) (r_type r) (r_flags r) (r_flags r) (r_data r)) with (event_of (-1) r).
  unfold add_event. change (size_ (event_of (-1) r)) with (slen (r_data r) + MIN_SIZE).
  assert (((slen (r_data r) + MIN_SIZE) mod 4 =? 0) = true) as ->.
  { apply Z.eqb_eq. rewrite Z.add_mod, (so_aligned _ _ _ _ Hs) by lia. done. }
  cbn [negb]. rewrite (add_not_partial _ _ _ _ _ _ Run (set_last_event_id L b) Hst Hp). unfold do_event.
  pose proof (validate_raw (-1) _ _ (r_flags r) _ _ Hs) as Ev. fold (event_of (-1) r) in Ev. rewrite Ev. cbn [mbind option_bind].
  change (type_ (event_of (-1) r)) with (r_type r). rewrite (type_not_encrypted _ _ _ _ _ Hst).
  change (processor_ (set_file _ _ _ _)) with (processor_ b). rewrite Ep. cbn [mbind option_bind].
  set (b1 := set_file _ _ _ (set_processor p' _)).
  assert (running m1 b1 (rs ++ [r])) as Hrun1.
  { unfold b1. split; cbn.
    - rewrite Ef, bytes_app. f_equal. unfold bytes_of. cbn. by rewrite app_nil_r.
    - exists lf1. split; [|lia]. eapply recs_app; [exact Hr|]. eapply recs_cons; [exact Hs|exact Hstf|constructor].
    - split; [|done]. by eapply entries_ok_weaken.
    - done.
    - change (raw_size (event_of (-1) r)) with (slen (raw_rec r)). rewrite slen_app. fold (raw_rec r). lia.
    - rewrite slen_app. pose proof (slen_nonneg (raw_of (r_id r) (r_type r) (r_flags r) (r_data r))). lia.
    - lia. }
  destruct (need_reindex b1).
  - destruct (reindex_ok m1 b1 _ opened Hrun1) as (b' & rs' & -> & Hrun' & El & Hor).
    { intros E. apply app_eq_nil in E as [_ E]. by apply (raw_not_empty r). }
    exists b', rs'. split; [done|]. split; [done|]. split; [by rewrite El|]. destruct Hor as [[-> ->]|?]; [by left|by right].
  - exists b1, (rs ++ [r]). split; [done|]. split; [done|]. split; [done|by left].
Qed.

(** ** Operations, and what they promise *)

(** A storer announces the size of what it stores. *)
Inductive bop := BAdd (type : Z) (data : slice) | BRewrite (id type : Z) (data : slice) | BErase (id : Z) | BSync.

(** What the events are after an operation; [None] is an operation that the
    callers do not make: an event that is not there is not rewritten or erased,
    and what is stored fits into an event. *)
Definition spec_op (op : bop) (st : Z * map_of) : option (Z * map_of) :=
  let '(last, m) := st in
  let fits type data :=
    (0 <=? type) && (type <=? INT32_MAX) && (slen data + MIN_SIZE <=? MAX_SIZE) && (slen data mod 4 =? 0) in
  if negb (last + 1 <? 2 ^ 62) then None
  else
    match op with
    | BAdd type data => if fits type data then Some (last + 1, <[last + 1 := (type, data)]> m) else None
    | BRewrite id type data => _ ← m !! id; if fits type data then Some (last + 1, <[id := (type, data)]> m) else None
    | BErase id => _ ← m !! id; Some (last + 1, delete id m)
    | BSync => Some (last, m)
    end.
Fixpoint spec_ops (ops : list bop) (st : Z * map_of) : option (Z * map_of) :=
  match ops with [] => Some st | op :: ops => st ← spec_op op st; spec_ops ops st end.

(** Each operation comes with whether a new file could be opened if it was
    needed. *)
Definition run_op (x : bool * bop) (b : binlog) : option binlog :=
  match x.2 with
  | BAdd type data => snd <$> add crc32 x.1 type (slen data) data b
  | BRewrite id type data => snd <$> rewrite crc32 x.1 id type (slen data) data b
  | BErase id => snd <$> erase crc32 x.1 id b
  | BSync => Some (sync b)
  end.
Fixpoint run_ops (ops : list (bool * bop)) (b : binlog) : option binlog :=
  match ops with [] => Some b | x :: ops => b ← run_op x b; run_ops ops b end.

(** The events that are passed to the callback of a binlog that is opened. *)
Definition events_map (es : list BinlogEvent) : map_of := list_to_map ((fun e => (id_ e, payload e)) <$> es).

Lemma spec_snoc ops op st : spec_ops (ops ++ [op]) st = spec_ops ops st ≫= spec_op op.
Proof.
  revert st. induction ops as [|o ops IH]; intros st; cbn [app spec_ops].
  - cbn [mbind option_bind]. by destruct (spec_op op st).
  - destruct (spec_op o st); [apply IH|done].
Qed.

Lemma run_snoc ops x b : run_ops (ops ++ [x]) b = run_ops ops b ≫= run_op x.
Proof.
  revert b. induction ops as [|o ops IH]; intros b; cbn [app run_ops].
  - cbn [mbind option_bind]. by destruct (run_op x b).
  - destruct (run_op o b); [apply IH|done].
Qed.

Lemma running_bound m b rs id v : running m b rs → m !! id = Some v → 0 <= id <= last_event_id_ b.
Proof.
  intros [_ _ [Hok Hc] _ _ _ _] Hv. rewrite <- Hc in Hv. destruct (find_entry _ _ _ _ Hok Hv) as (l1 & old & l2 & E & _).
  by eapply entry_bound.
Qed.

(** The record of an operation that writes one. *)
Lemma write_run m b rs id type flags data m1 last1 opened :
  running m b rs → storable id type flags data → rec_step (last_event_id_ b) m (mkRec id type flags data) last1 m1 →
  last1 <= last_event_id_ b + 1 →
  ∃ b' rs', (let '(_, b) := next_event_id b in add_raw_event crc32 opened (create_raw crc32 id type flags (slen data) data) b) = Some b'
    ∧ running m1 b' rs' ∧ last_event_id_ b' = last_event_id_ b + 1
    ∧ (synced b' = synced b ∧ rs' = rs ++ [mkRec id type flags data] ∨ synced b' = slen (file b')).
Proof.
  intros Hrun Hs Hst Hl. cbn [next_event_id]. rewrite create_raw_ok by apply Hs. by apply (write_ok m b rs (mkRec id type flags data) last1).
Qed.

Lemma fits_storable id type flags data :
  (0 <=? type) && (type <=? INT32_MAX) && (slen data + MIN_SIZE <=? MAX_SIZE) && (slen data mod 4 =? 0) = true →
  0 <= id < 2 ^ 62 → in_int32 flags → storable id type flags data ∧ 0 <= type.
Proof.
  rewrite !andb_true_iff, !Z.leb_le, Z.eqb_eq. unfold INT32_MAX. intros [[[? ?] ?] ?] Hid Hf.
  split; [split; [done| |done..]; unfold in_int32, INT32_MAX; lia|done].
Qed.

Lemma erase_storable id : 0 <= id < 2 ^ 62 → storable id Empty Rewrite [].
Proof. intros Hid. split; [done|done|done|done|done]. Qed.

(** An operation that is allowed succeeds, and does what it should. *)
Lemma op_ok m b rs x last' m' :
  running m b rs → spec_op x.2 (last_event_id_ b, m) = Some (last', m') →
  ∃ b' rs', run_op x b = Some b' ∧ running m' b' rs' ∧ last_event_id_ b' = last'
    ∧ (synced b' = synced b ∧ (∃ r, rs' = rs ++ [r]) ∧ x.2 ≠ BSync ∨ synced b' = slen (file b')).
Proof.
  intros Hrun Hspec. pose proof (rn_last _ _ _ Hrun) as Hl0. destruct x as [opened op]. cbn [snd] in Hspec. unfold spec_op in Hspec.
  destruct (Z.ltb_spec (last_event_id_ b + 1) (2 ^ 62)) as [Hlt|]; [cbn [negb] in Hspec|done]. unfold run_op. cbn [fst snd].
  destruct op as [type data|id type data|id|].
  - case_match eqn:Ef; [|done]. simplify_eq.
    destruct (fits_storable (last_event_id_ b + 1) _ 0 _ Ef ltac:(lia) ltac:(done)) as [Hs Ht].
    destruct (write_run m b rs (last_event_id_ b + 1) type 0 data _ _ opened Hrun Hs
                (rec_new _ _ (mkRec (last_event_id_ b + 1) type 0 data) (Z.lt_succ_diag_r _) Ht (or_introl eq_refl)) ltac:(done))
      as (b' & rs' & E & Hrun' & El & Hor).
    exists b', rs'. unfold add. cbn [next_event_id] in *. rewrite E.
    do 3 (split; [done|]). destruct Hor as [[? ?]|?]; [left|by right]. split_and!; [done|by eexists|done].
  - destruct (m !! id) as [v|] eqn:Ev; [cbn [mbind option_bind] in Hspec|done]. case_match eqn:Ef; [|done]. simplify_eq.
    pose proof (running_bound _ _ _ _ _ Hrun Ev) as Hid.
    destruct (fits_storable id _ Rewrite _ Ef ltac:(lia) ltac:(done)) as [Hs Ht].
    destruct (write_run m b rs id type Rewrite data _ _ opened Hrun Hs
                (rec_rewrite _ _ (mkRec id type Rewrite data) v Ev Ht ltac:(done)) ltac:(lia)) as (b' & rs' & E & Hrun' & El & Hor).
    exists b', rs'. unfold rewrite. cbn [next_event_id] in *. rewrite E.
    do 3 (split; [done|]). destruct Hor as [[? ?]|?]; [left|by right]. split_and!; [done|by eexists|done].
  - destruct (m !! id) as [v|] eqn:Ev; [cbn [mbind option_bind] in Hspec|done]. simplify_eq.
    pose proof (running_bound _ _ _ _ _ Hrun Ev) as Hid.
    destruct (write_run m b rs id Empty Rewrite [] _ _ opened Hrun (erase_storable id ltac:(lia))
                (rec_erase _ _ (mkRec id Empty Rewrite []) v Ev eq_refl eq_refl eq_refl) ltac:(lia)) as (b' & rs' & E & Hrun' & El & Hor).
    exists b', rs'. unfold erase. cbn [next_event_id] in *. change (slen []) with 0 in E. rewrite E.
    do 3 (split; [done|]). destruct Hor as [[? ?]|?]; [left|by right]. split_and!; [done|by eexists|done].
  - simplify_eq. exists (sync b), rs. split; [done|]. split; [|split; [done|by right]].
    by destruct Hrun; split.
Qed.

(** ** Crashes *)

(** No operation after the first [n] is a [BSync]: they may be lost. *)
Definition since_sync (ops : list (bool * bop)) (n : nat) : Prop := ∀ x, x ∈ drop n ops → x.2 ≠ BSync.

(** The records that are not lost, and the operations that each prefix of the
    rest amounts to. *)
Definition durable (ops : list (bool * bop)) (rs : list rec) (b : binlog) : Prop :=
  ∃ rs0 rest, rs = rs0 ++ rest ∧ synced b = slen (bytes_of rs0)
    ∧ ∀ r1 r2, rest = r1 ++ r2 →
      ∃ n last last' m, (n <= length ops)%nat ∧ since_sync ops n ∧ (r2 = [] → n = length ops)
        ∧ spec_ops (take n (snd <$> ops)) (0, ∅) = Some (last, m) ∧ recs_ok (-1) ∅ (rs0 ++ r1) last' m
        ∧ Z.max 0 last' <= last.

Lemma since_sync_all ops : since_sync ops (length ops).
Proof. intros x. by rewrite drop_all, elem_of_nil. Qed.

Lemma durable_synced ops rs m b last :
  spec_ops (snd <$> ops) (0, ∅) = Some (last, m) → running m b rs → last_event_id_ b = last → synced b = slen (file b) →
  durable ops rs b.
Proof.
  intros Hspec Hrun Hlast Hsy. exists rs, []. rewrite app_nil_r. split; [done|].
  destruct Hrun as [Hf (lf & Hr & Hlf) _ _ _ _ Hl0]. split; [by rewrite Hsy, Hf|].
  intros r1 r2 E. symmetry in E. apply app_eq_nil in E as [-> ->]. rewrite app_nil_r. exists (length ops), last, lf, m.
  rewrite firstn_all2 by (rewrite length_fmap; lia). split_and!; [lia|apply since_sync_all|try done; lia..].
Qed.

Lemma durable_snoc ops x rs r b b' m last :
  durable ops rs b → synced b' = synced b → x.2 ≠ BSync →
  spec_ops (snd <$> ops ++ [x]) (0, ∅) = Some (last, m) → running m b' (rs ++ [r]) → last_event_id_ b' = last →
  durable (ops ++ [x]) (rs ++ [r]) b'.
Proof.
  intros (rs0 & rest & -> & Hsy & Hd) Hsy' Hx Hspec Hrun Hlast. exists rs0, (rest ++ [r]).
  rewrite (assoc_L (++)). split; [done|]. split; [congruence|]. intros r1 r2 E.
  destruct r2 as [|r' r2 _] using rev_ind.
  - rewrite app_nil_r in E. subst r1. destruct Hrun as [_ (lf & Hr & Hlf) _ _ _ _ Hl0]. rewrite <- (assoc_L (++)) in Hr.
    exists (length (ops ++ [x])), last, lf, m. rewrite firstn_all2 by (rewrite length_fmap; lia).
    split_and!; [lia|apply since_sync_all|try done; lia..].
  - rewrite (assoc_L (++)) in E. apply app_inj_tail in E as [E ->].
    destruct (Hd r1 r2 E) as (n & l & lf & m' & Hn & Hs & _ & Hsp & Hr & Hle). exists n, l, lf, m'.
    rewrite fmap_app, take_app_le by (rewrite length_fmap; lia). split_and!; [rewrite length_app; cbn; lia| | |done|done|done].
    + intros y Hy. rewrite drop_app_le in Hy by lia. apply elem_of_app in Hy as [Hy| ->%list_elem_of_singleton]; [by apply Hs|done].
    + by intros [_ ?]%app_eq_nil.
Qed.

Lemma running_new : running ∅ new_binlog [].
Proof. split; try done. - exists (-1). split; [constructor|done]. - by repeat constructor. Qed.

Lemma run_ok ops last m :
  spec_ops (snd <$> ops) (0, ∅) = Some (last, m) →
  ∃ b rs, run_ops ops new_binlog = Some b ∧ running m b rs ∧ last_event_id_ b = last ∧ durable ops rs b.
Proof.
  revert last m. induction ops as [|x ops IH] using rev_ind; intros last m Hspec.
  - injection Hspec as <- <-. exists new_binlog, []. split; [done|]. split; [apply running_new|]. split; [done|].
    by eapply durable_synced; [|apply running_new|..].
  - pose proof Hspec as Hs. rewrite fmap_app in Hspec. cbn [fmap list_fmap] in Hspec. rewrite spec_snoc in Hspec.
    destruct (spec_ops (snd <$> ops) (0, ∅)) as [[l1 m1]|] eqn:E1; [|done]. cbn [mbind option_bind] in Hspec.
    destruct (IH l1 m1 eq_refl) as (b & rs & Eb & Hrun & Hl & Hd).
    rewrite <- Hl in Hspec. destruct (op_ok _ _ _ _ _ _ Hrun Hspec) as (b' & rs' & Eb' & Hrun' & Hl' & Hor).
    exists b', rs'. rewrite run_snoc, Eb. split; [done|]. split; [done|]. split; [done|].
    destruct Hor as [(Hsy & (r & ->) & Hx)|Hsy]; [by eapply durable_snoc|by eapply durable_synced].
Qed.

(** Operations that are allowed succeed, from any binlog that runs. *)
Lemma ops_ok ops m b rs last' m' :
  running m b rs → spec_ops (snd <$> ops) (last_event_id_ b, m) = Some (last', m') →
  ∃ b' rs', run_ops ops b = Some b' ∧ running m' b' rs' ∧ last_event_id_ b' = last'.
Proof.
  revert m b rs. induction ops as [|x ops IH]; intros m b rs Hrun; cbn [fmap list_fmap spec_ops run_ops].
  - intros [= <- <-]. by exists b, rs.
  - destruct (spec_op x.2 (last_event_id_ b, m)) as [[l1 m1]|] eqn:E; [|done]. cbn [mbind option_bind]. intros Hs.
    destruct (op_ok _ _ _ _ _ _ Hrun E) as (b1 & rs1 & -> & Hrun1 & Hl & _). cbn [mbind option_bind]. subst l1. by eapply IH.
Qed.

Lemma run_app ops ops' b : run_ops (ops ++ ops') b = run_ops ops b ≫= run_ops ops'.
Proof.
  revert b. induction ops as [|x ops IH]; intros b; [done|]. cbn [app run_ops]. by destruct (run_op x b); [apply IH|].
Qed.

Lemma spec_app ops ops' st : spec_ops (ops ++ ops') st = spec_ops ops st ≫= spec_ops ops'.
Proof.
  revert st. induction ops as [|x ops IH]; intros st; [done|]. cbn [app spec_ops]. by destruct (spec_op x st); [apply IH|].
Qed.

(** What is left of the file of a binlog after a crash. *)
Lemma cut_file rs k :
  (k <= length (bytes_of rs))%nat →
  ∃ r1 r2 t, rs = r1 ++ r2 ∧ take k (bytes_of rs) = bytes_of r1 ++ t
    ∧ match r2 with [] => t = [] | r :: _ => ∃ n, t = take n (raw_rec r) ∧ (n < length (raw_rec r))%nat end.
Proof.
  revert k. induction rs as [|r rs IH]; intros k Hk.
  - exists [], [], []. change (bytes_of []) with (@nil ascii). rewrite take_nil. done.
  - change (bytes_of (r :: rs)) with (raw_rec r ++ bytes_of rs) in *. rewrite length_app in Hk.
    destruct (decide (k < length (raw_rec r))%nat) as [Hlt|Hge].
    + exists [], (r :: rs), (take k (raw_rec r)). split; [done|]. rewrite take_app_le by lia. split; [done|]. by exists k.
    + destruct (IH (k - length (raw_rec r))%nat ltac:(lia)) as (r1 & r2 & t & -> & E & Ht). exists (r :: r1), r2, t.
      split; [done|]. split; [|done]. rewrite take_app_ge by lia. rewrite E. change (bytes_of (r :: r1)) with (raw_rec r ++ bytes_of r1).
      by rewrite <- (assoc_L (++)).
Qed.

Lemma recs_storable last m rs last' m' :
  recs_ok last m rs last' m' → Forall (fun r => storable (r_id r) (r_type r) (r_flags r) (r_data r)) rs.
Proof. induction 1; by constructor. Qed.

Lemma partial_nil : partial [].
Proof.
  exists (mkRec 0 Empty Rewrite []), O. split; [by apply erase_storable|]. split; [done|]. apply Nat.neq_0_lt_0.
  intros E%length_zero_iff_nil. by apply (raw_not_empty (mkRec 0 Empty Rewrite [])).
Qed.

Lemma events_map_live p : events_map (live_events p) = contents p.
Proof. unfold events_map, contents, contents_of, live_events. by rewrite <- list_fmap_compose. Qed.

Definition id_before (e e' : BinlogEvent) : Prop := id_ e < id_ e'.

Lemma live_events_sorted last p : processor_ok last p → StronglySorted id_before (live_events p).
Proof.
  intros Hok. destruct (entries_ok_filter _ _ Hok) as [Hs He]. unfold live_events.
  assert (Forall (fun x => x.1 = 2 * id_ x.2) (List.filter is_live (entries p))) as Hid.
  { rewrite Forall_forall in He |- *. intros x Hx. destruct (He x Hx) as [_ Hk].
    apply list_elem_of_In, filter_In in Hx as [_ Hl]. destruct (Hk Hl) as (id & E & Hi). by rewrite (kept_id _ _ Hi). }
  clear He. induction Hs as [|x l Hs IH Hf]; cbn; constructor.
  - apply Forall_cons in Hid as [_ Hid]. by apply IH.
  - apply Forall_cons in Hid as [Hx Hid]. apply Forall_fmap. rewrite Forall_forall in Hf, Hid |- *. intros y Hy.
    specialize (Hf y Hy). specialize (Hid y Hy). apply key_lt_fst in Hf. unfold id_before, compose. lia.
Qed.

Lemma ids_sorted_nodup es : StronglySorted id_before es → NoDup (id_ <$> es).
Proof.
  induction 1 as [|e es Hs IH Hf]; cbn; constructor; [|done]. intros (y & E & Hy)%list_elem_of_fmap.
  rewrite Forall_forall in Hf. specialize (Hf y Hy). unfold id_before in Hf. lia.
Qed.

(** The prefix of the file that survives is loaded, and holds what some of the
    operations made, none of those before the last [BSync] being lost. *)
Lemma recovered ops b rs m k :
  running m b rs → durable ops rs b → synced b <= Z.of_nat k <= slen (file b) →
  ∃ n last m' es b', (n <= length ops)%nat ∧ since_sync ops n
    ∧ (k = length (file b) → n = length ops)
    ∧ spec_ops (take n (snd <$> ops)) (0, ∅) = Some (last, m')
    ∧ init crc32 (take k (file b)) = Some (es, b') ∧ events_map es = m' ∧ StronglySorted id_before es ∧ (∃ rs', running m' b' rs')
    ∧ last_event_id_ b' <= last.
Proof.
  intros Hrun (rs0 & rest & -> & Hsy & Hd) [Hk1 Hk2]. rewrite (rn_file _ _ _ Hrun) in *.
  destruct (cut_file (rs0 ++ rest) k ltac:(unfold slen in *; lia)) as (r1 & r2 & t & E & Et & Ht).
  assert (slen (bytes_of r1 ++ t) = Z.of_nat k) as Hlen by (rewrite <- Et; unfold slen in *; rewrite length_take; lia).
  assert (∃ r1', r1 = rs0 ++ r1' ∧ rest = r1' ++ r2) as (r1' & -> & ->).
  { apply app_eq_app in E as [l [[-> ->]|[-> ->]]]; [|by exists l]. rewrite bytes_app, slen_app in *.
    destruct l as [|r l]; [exists []; by rewrite !app_nil_r|]. exfalso. destruct Ht as (n & -> & Hn).
    rewrite Hsy in Hk1. change (bytes_of (r :: l)) with (raw_rec r ++ bytes_of l) in Hk1. rewrite slen_app in Hk1.
    assert (slen (take n (raw_rec r)) < slen (raw_rec r)) by (unfold slen; rewrite length_take; lia).
    pose proof (slen_nonneg (bytes_of l)). lia. }
  destruct (Hd r1' r2 eq_refl) as (n & last & lf & m' & Hn & Hs & Hfull & Hspec & Hr & Hle).
  assert (partial t) as Hp.
  { destruct r2 as [|r r2]; [subst; apply partial_nil|]. destruct Ht as (j & -> & Hj). exists r, j. split; [|done].
    destruct Hrun as [_ (lr & Hall & _) _ _ _ _ _]. apply recs_storable in Hall. rewrite !Forall_app in Hall.
    destruct Hall as (_ & _ & Hall). by apply Forall_cons in Hall as [Hr0 _]. }
  destruct (init_ok _ _ _ t Hr Hp) as (b' & Ei & Hld & _ & Hlb). exists n, last, m', (live_events (processor_ b')), b'.
  split; [done|]. split; [done|]. split; [|split; [done|]].
  - intros Hkl. apply Hfull. destruct r2 as [|r r2]; [done|exfalso]. destruct Ht as (j & -> & Hj).
    rewrite (assoc_L (++)), (bytes_app (rs0 ++ r1')) in Hkl. change (bytes_of (r :: r2)) with (raw_rec r ++ bytes_of r2) in Hkl.
    rewrite !length_app in Hkl. unfold slen in Hlen. rewrite length_app, length_take in Hlen. lia.
  - rewrite Et. split; [done|]. rewrite events_map_live. pose proof Hld as [_ _ [Hok Hc] _ _ _ _].
    split; [done|]. split; [by eapply live_events_sorted|]. split; [by eexists|]. by rewrite Hlb.
Qed.

(** C26: From an empty file on, the operations that callers may make succeed, with files written anew on the
    way or not; whatever prefix of the file survives, not shorter than what was synced, is loaded without an
    error and gives exactly the events that the first n operations made, in order of their identifiers, n
    being no less than the operations before the last sync, and all of them when nothing is lost. *)
Theorem binlog_survives_crash ops last m :
  spec_ops (snd <$> ops) (0, ∅) = Some (last, m) →
  ∃ b, run_ops ops new_binlog = Some b ∧ last_event_id_ b = last
    ∧ ∀ k, synced b <= Z.of_nat k <= slen (file b) →
      ∃ n last' m' es b', (n <= length ops)%nat ∧ since_sync ops n ∧ (k = length (file b) → n = length ops)
        ∧ spec_ops (take n (snd <$> ops)) (0, ∅) = Some (last', m')
        ∧ init crc32 (take k (file b)) = Some (es, b') ∧ events_map es = m' ∧ StronglySorted id_before es.
Proof.
  intros Hspec. destruct (run_ok ops last m Hspec) as (b & rs & E & Hrun & Hl & Hd). exists b.
  split; [done|]. split; [done|]. intros k Hk.
  destruct (recovered ops b rs m k Hrun Hd Hk) as (n & l & m' & es & b' & ? & ? & ? & ? & ? & ? & ? & _).
  by exists n, l, m', es, b'.
Qed.
End Proofs.

(** A checksum, and operations with a [sync] among them. *)
Definition demo_crc32 (s : slice) : Z := wrap 32 (foldr (fun c n => Z.of_nat (Ascii.nat_of_ascii c) + 31 * n) 7 s).
Definition demo_ops : list (bool * bop) :=
  [(true, BAdd 5 (lit "ab  ")); (true, BAdd 6 (lit "cdef")); (false, BRewrite 1 7 (lit "abcdefgh")); (true, BSync);
   (true, BErase 2); (true, BAdd 5 [])].

Lemma demo_crc32_range s : 0 <= demo_crc32 s < 2 ^ 32.
Proof. by apply wrap_range. Qed.

Theorem binlog_survives_crash_witness :
  ∃ b, run_ops demo_crc32 demo_ops new_binlog = Some b ∧ last_event_id_ b = 5
    ∧ ∀ k, synced b <= Z.of_nat k <= slen (file b) →
      ∃ n last' m' es b', (n <= length demo_ops)%nat ∧ since_sync demo_ops n ∧ (k = length (file b) → n = length demo_ops)
        ∧ spec_ops (take n (snd <$> demo_ops)) (0, ∅) = Some (last', m')
        ∧ init demo_crc32 (take k (file b)) = Some (es, b') ∧ events_map es = m' ∧ StronglySorted id_before es.
Proof.
  apply (binlog_survives_crash demo_crc32 demo_crc32_range demo_ops 5 (<[5 := (5, [])]> (<[1 := (7, lit "abcdefgh")]> ∅))).
  vm_compute. reflexivity.
Defined.
