(* ===== verification/TQueue.v ===== *)
(** * The queue of updates

    [td/db/TQueue.{h,cpp}]: for each bot the updates that were not taken yet,
    in order of their identifiers, kept in memory and mirrored in a storage
    that a restart reads back.  The last event of a queue is not deleted from
    the storage but emptied, so that the next identifier survives.

    A [std::map] from identifiers to events is the list of the events in order
    (an event holds its own key).  The storage is any implementation of
    [StorageCallback], the interface the queue calls; [TQueueMemoryStorage] is
    one.  The random first identifier and the clock of the garbage collection
    are arguments.  [None] is the abort of a failed [CHECK], or an error that
    is moved out of a [Result] without a test. *)

From stdpp Require Import gmap sorting.
From S2P Require Import Prelude Slices Integers.

(** ** Identifiers *)

Definition MAX_ID : Z := 2000000000.
Definition is_valid_id (id : Z) : bool := (0 <=? id) && (id <? MAX_ID).
Definition from_int32 (id : Z) : result Z := if negb (is_valid_id id) then Err 0 (lit "Invalid ID") else Ok id.
Definition id_empty (id : Z) : bool := id =? 0.
Definition id_valid (id : Z) : bool := negb (id_empty id) && is_valid_id id.
Definition next_id (id : Z) : result Z := from_int32 (id + 1).
(** The sum is a [size_t]. *)
Definition advance (id offset : Z) : result Z :=
  let new_id := wrap 64 (id + offset) in
  if INT32_MAX <? new_id then Err 0 (lit "Narrow cast failed") else from_int32 new_id.

(** ** Events *)

Record Event := mkEvent { e_id : Z; e_expires_at : Z; e_data : slice; e_extra : Z }.
Record RawEvent := mkRawEvent { log_event_id : Z; event_id : Z; expires_at : Z; data : slice; extra : Z }.
#[export] Instance raw_event_eq_dec : EqDecision RawEvent.
Proof. solve_decision. Defined.
Definition set_log_event_id v (ev : RawEvent) : RawEvent :=
  mkRawEvent v (event_id ev) (expires_at ev) (data ev) (extra ev).
Definition set_data v (ev : RawEvent) : RawEvent :=
  mkRawEvent (log_event_id ev) (event_id ev) (expires_at ev) v (extra ev).

(** ** The storage *)

Class StorageCallback (S : Type) := {
  cb_push : S → Z → RawEvent → Z * S;
  cb_pop : S → Z → S;
  cb_pop_batch : S → list Z → S;
  cb_wf : S → Prop;
  cb_stored : S → gmap Z (Z * RawEvent);
}.

(** What the queue relies on: new identifiers grow, an event that has one is
    rewritten in place, and what was popped is gone. *)
Class StorageLaws (S : Type) `{StorageCallback S} : Prop := {
  cb_push_wf s queue_id ev :
    cb_wf s → log_event_id ev = 0 ∨ is_Some (cb_stored s !! log_event_id ev) → cb_wf (cb_push s queue_id ev).2;
  cb_push_new s queue_id ev :
    cb_wf s → log_event_id ev = 0 →
    let '(id, s') := cb_push s queue_id ev in
    0 < id ∧ (∀ id', is_Some (cb_stored s !! id') → id' < id)
    ∧ cb_stored s' = <[id := (queue_id, ev)]> (cb_stored s);
  cb_push_old s queue_id ev :
    cb_wf s → is_Some (cb_stored s !! log_event_id ev) → log_event_id ev ≠ 0 →
    cb_stored (cb_push s queue_id ev).2 = <[log_event_id ev := (queue_id, ev)]> (cb_stored s);
  cb_pop_wf s id : cb_wf s → cb_wf (cb_pop s id);
  cb_pop_stored s id : cb_wf s → cb_stored (cb_pop s id) = delete id (cb_stored s);
  cb_pop_batch_wf s ids : cb_wf s → cb_wf (cb_pop_batch s ids);
  cb_pop_batch_stored s ids :
    cb_wf s → cb_stored (cb_pop_batch s ids) = foldl (fun m id => delete id m) (cb_stored s) ids;
}.

(** *** [TQueueMemoryStorage] *)

Record TQueueMemoryStorage := mkMemory { next_log_event_id_ : Z; events_ : gmap Z (Z * RawEvent) }.
Definition new_memory : TQueueMemoryStorage := mkMemory 1 ∅.

(** The counter is a [uint64], which no run exhausts. *)
Definition memory_push (s : TQueueMemoryStorage) (queue_id : Z) (ev : RawEvent) : Z * TQueueMemoryStorage :=
  let '(id, next) := if log_event_id ev =? 0 then (next_log_event_id_ s, next_log_event_id_ s + 1)
                     else (log_event_id ev, next_log_event_id_ s) in
  (id, mkMemory next (<[id := (queue_id, ev)]> (events_ s))).
Definition memory_pop (s : TQueueMemoryStorage) (id : Z) : TQueueMemoryStorage :=
  mkMemory (next_log_event_id_ s) (delete id (events_ s)).

Definition memory_close (s : TQueueMemoryStorage) : TQueueMemoryStorage := mkMemory (next_log_event_id_ s) ∅.

(** [StorageCallback::pop_batch] *)
Definition pop_one_by_one {S} (pop : S → Z → S) (s : S) (ids : list Z) : S := foldl pop s ids.

Definition memory_wf (s : TQueueMemoryStorage) : Prop :=
  0 < next_log_event_id_ s ∧ ∀ id, is_Some (events_ s !! id) → id < next_log_event_id_ s.

#[export] Instance memory_callback : StorageCallback TQueueMemoryStorage := {
  cb_push := memory_push;
  cb_pop := memory_pop;
  cb_pop_batch := pop_one_by_one memory_pop;
  cb_wf := memory_wf;
  cb_stored := events_;
}.

(** ** Queues *)

Definition MAX_EVENT_LENGTH : Z := 65536 * 8.
Definition MAX_QUEUE_EVENTS : Z := 100000.
Definition MAX_TOTAL_EVENT_LENGTH : Z := Z.shiftl 1 27.

(** [events] is in order of [event_id], its key in the map. *)
Record Queue := mkQueue { tail_id : Z; events : list RawEvent; total_event_length : Z; gc_at : Z }.
Definition new_queue : Queue := mkQueue 0 [] 0 0.
Definition set_tail_id v (q : Queue) := mkQueue v (events q) (total_event_length q) (gc_at q).
Definition set_events v (q : Queue) := mkQueue (tail_id q) v (total_event_length q) (gc_at q).
Definition set_total v (q : Queue) := mkQueue (tail_id q) (events q) v (gc_at q).
Definition set_gc_at v (q : Queue) := mkQueue (tail_id q) (events q) (total_event_length q) v.

Definition get_queue_head (q : Queue) : Z := match events q with [] => tail_id q | ev :: _ => event_id ev end.

Definition is_data_empty (ev : RawEvent) : bool := bool_decide (data ev = []).
Definition get_size_of (q : Queue) : Z :=
  match last (events q) with
  | None => 0
  | Some ev => slen (events q) - (if is_data_empty ev then 1 else 0)
  end.

(** [std::map::emplace]: an event with the identifier is left alone. *)
Fixpoint emplace (ev : RawEvent) (evs : list RawEvent) : list RawEvent :=
  match evs with
  | [] => [ev]
  | ev' :: evs' =>
      if event_id ev <? event_id ev' then ev :: evs
      else if event_id ev =? event_id ev' then evs
      else ev' :: emplace ev evs'
  end.

Definition sub_length (total : Z) (ev : RawEvent) : Z := wrap 64 (total - slen (data ev)).

(** The events before [lower_bound(from_id)]. *)
Definition below (from_id : Z) (ev : RawEvent) : bool := event_id ev <? from_id.

Section TQueue.
Context {S : Type} `{StorageCallback S}.

(** What a loop over the events of a queue changes besides the events: the
    total length of the queue and the storage. *)
Record account := mkAccount { a_total : Z; a_callback : option S }.

(** [pop] of one event: what is left in its place. *)
Definition pop (queue_id tail : Z) (ev : RawEvent) (a : account) : option (list RawEvent * account) :=
  match a_callback a with
  | None => Some ([], mkAccount (sub_length (a_total a) ev) None)
  | Some s =>
      if log_event_id ev =? 0 then Some ([], mkAccount (sub_length (a_total a) ev) (Some s))
      else
        match next_id (event_id ev) with
        | Err _ _ => None
        | Ok next =>
            if next =? tail then
              if is_data_empty ev then Some ([ev], a)
              else
                let ev' := set_data [] ev in
                Some ([ev'], mkAccount (sub_length (a_total a) ev) (Some (cb_push s queue_id ev').2))
            else Some ([], mkAccount (sub_length (a_total a) ev) (Some (cb_pop s (log_event_id ev))))
        end
  end.

(** The loop of [push] that empties a queue. *)
Fixpoint pop_each (queue_id tail : Z) (evs : list RawEvent) (a : account) : option (list RawEvent * account) :=
  match evs with
  | [] => Some ([], a)
  | ev :: evs =>
      '(kept, a) ← pop queue_id tail ev a;
      '(rest, a) ← pop_each queue_id tail evs a;
      Some (kept ++ rest, a)
  end.

(** The first loop of [do_get]. *)
Fixpoint forget_before (queue_id tail from_id : Z) (evs : list RawEvent) (a : account)
    : option (list RawEvent * account) :=
  match evs with
  | [] => Some ([], a)
  | ev :: evs' =>
      if event_id ev <? from_id then
        '(kept, a) ← pop queue_id tail ev a;
        '(rest, a) ← forget_before queue_id tail from_id evs' a;
        Some (kept ++ rest, a)
      else Some (evs, a)
  end.

Definition is_dead (now : Z) (ev : RawEvent) : bool := (expires_at ev <? now) || is_data_empty ev.

(** The second loop of [do_get], with room for [n] events. *)
Fixpoint collect (queue_id tail from_id now : Z) (n : nat) (evs : list RawEvent) (a : account)
    : option (list RawEvent * list Event * account) :=
  match evs with
  | [] => Some ([], [], a)
  | ev :: evs' =>
      if is_dead now ev then
        '(kept, a) ← pop queue_id tail ev a;
        '(rest, out, a) ← collect queue_id tail from_id now n evs' a;
        Some (kept ++ rest, out, a)
      else
        (CHECK! negb (event_id ev <? from_id) ;;
         match n with
         | O => Some (evs, [], a)
         | Datatypes.S n =>
             '(rest, out, a) ← collect queue_id tail from_id now n evs' a;
             Some (ev :: rest, mkEvent (event_id ev) (expires_at ev) (data ev) (extra ev) :: out, a)
         end)%td
  end.

Record tqueue := mkTQueue { queues_ : gmap Z Queue; queue_gc_at_ : gset (Z * Z); callback_ : option S }.
Definition new_tqueue : tqueue := mkTQueue ∅ ∅ None.
Definition set_callback (s : S) (t : tqueue) : tqueue := mkTQueue (queues_ t) (queue_gc_at_ t) (Some s).
Definition extract_callback (t : tqueue) : option S * tqueue :=
  (callback_ t, mkTQueue (queues_ t) (queue_gc_at_ t) None).
(** The storage is told to close. *)
Definition close (t : tqueue) : tqueue := mkTQueue (queues_ t) (queue_gc_at_ t) None.
Definition put_queue (queue_id : Z) (q : Queue) (t : tqueue) : tqueue :=
  mkTQueue (<[queue_id := q]> (queues_ t)) (queue_gc_at_ t) (callback_ t).
(** [queues_[queue_id]] *)
Definition queue_at (queue_id : Z) (t : tqueue) : Queue := default new_queue (queues_ t !! queue_id).

Definition schedule_queue_gc (queue_id : Z) (q : Queue) (at_ : Z) (set : gset (Z * Z)) : option (Queue * gset (Z * Z)) :=
  let step2 (set : gset (Z * Z)) :=
    if negb (at_ =? 0) then
      (CHECK! negb (bool_decide ((at_, queue_id) ∈ set)) ;; Some (set_gc_at at_ q, {[(at_, queue_id)]} ∪ set))%td
    else Some (set_gc_at at_ q, set) in
  if negb (gc_at q =? 0) then
    (CHECK! bool_decide ((gc_at q, queue_id) ∈ set) ;; step2 (set ∖ {[(gc_at q, queue_id)]}))%td
  else step2 set.

Definition result_value {A} (r : result A) : option A := match r with Ok a => Some a | Err _ _ => None end.

(** The last event makes room for a new one when it was emptied. *)
Definition drop_tombstone (evs : list RawEvent) (callback : option S) : list RawEvent * option S :=
  match last evs with
  | Some ev =>
      if is_data_empty ev then
        (removelast evs,
         match callback with
         | Some s => if log_event_id ev =? 0 then Some s else Some (cb_pop s (log_event_id ev))
         | None => None
         end)
      else (evs, callback)
  | None => (evs, callback)
  end.

Definition do_push (queue_id : Z) (raw_event : RawEvent) (t : tqueue) : option (bool * tqueue) :=
  (CHECK! id_valid (event_id raw_event) ;;
   let size := slen (data raw_event) in
   if (MAX_EVENT_LENGTH <? size) || (queue_id =? 0) then Some (false, t)
   else
     let q := queue_at queue_id t in
     let t := put_queue queue_id q t in
     if (MAX_QUEUE_EVENTS <=? slen (events q)) || (MAX_TOTAL_EVENT_LENGTH - size <? total_event_length q)
        || (expires_at raw_event <=? 0) then Some (false, t)
     else if event_id raw_event <? tail_id q then Some (false, t)
     else
       let '(evs, callback) := drop_tombstone (events q) (callback_ t) in
       let q := set_events evs q in
       '(q, set) ← (if bool_decide (evs = []) && negb (is_data_empty raw_event)
                    then schedule_queue_gc queue_id q (expires_at raw_event) (queue_gc_at_ t)
                    else Some (q, queue_gc_at_ t));
       let '(raw_event, callback) :=
         match callback with
         | Some s =>
             if log_event_id raw_event =? 0 then
               let '(id, s) := cb_push s queue_id raw_event in (set_log_event_id id raw_event, Some s)
             else (raw_event, Some s)
         | None => (raw_event, None)
         end in
       tail ← result_value (next_id (event_id raw_event));
       let q := mkQueue tail (emplace raw_event (events q)) (wrap 64 (total_event_length q + size)) (gc_at q) in
       Some (true, mkTQueue (<[queue_id := q]> (queues_ t)) set callback))%td.

(** The loop of [push] that finds the next identifier: [random] is what
    [Random::fast] returns in each round. *)
Fixpoint find_id (fuel : nat) (random : nat → Z) (hint_new_id queue_id : Z) (q : Queue) (callback : option S)
    : option (Z * Queue * option S) :=
  match fuel with
  | O => None
  | Datatypes.S fuel =>
      let q := if id_empty (tail_id q)
               then set_tail_id (if id_empty hint_new_id then random fuel else hint_new_id) q else q in
      (CHECK! id_valid (tail_id q) ;;
       match next_id (tail_id q) with
       | Ok _ => Some (tail_id q, q, callback)
       | Err _ _ =>
           '(evs, a) ← pop_each queue_id 0 (events q) (mkAccount (total_event_length q) callback);
           let q := mkQueue 0 evs (a_total a) (gc_at q) in
           match next_id hint_new_id with
           | Ok _ => find_id fuel random hint_new_id queue_id q (a_callback a)
           | Err _ _ => None
           end
       end)%td
  end.

Definition push (random : nat → Z) (queue_id : Z) (new_data : slice) (expires new_extra hint_new_id : Z) (t : tqueue)
    : option (result Z * tqueue) :=
  if bool_decide (new_data = []) then Some (Err 0 (lit "Data is empty"), t)
  else if MAX_EVENT_LENGTH <? slen new_data then Some (Err 0 (lit "Data is too big"), t)
  else if queue_id =? 0 then Some (Err 0 (lit "Queue identifier is invalid"), t)
  else
    let q := queue_at queue_id t in
    let t := put_queue queue_id q t in
    if MAX_QUEUE_EVENTS <=? slen (events q) then Some (Err 0 (lit "Queue is full"), t)
    else if MAX_TOTAL_EVENT_LENGTH - slen new_data <? total_event_length q
    then Some (Err 0 (lit "Queue size is too big"), t)
    else if expires <=? 0 then Some (Err 0 (lit "Failed to add already expired event"), t)
    else
      '(id, q, callback) ← find_id 2 random hint_new_id queue_id q (callback_ t);
      let t := mkTQueue (<[queue_id := q]> (queues_ t)) (queue_gc_at_ t) callback in
      '(is_added, t) ← do_push queue_id (mkRawEvent 0 id expires new_data new_extra) t;
      (CHECK! is_added ;; Some (Ok id, t))%td.

Definition get_head (queue_id : Z) (t : tqueue) : Z :=
  match queues_ t !! queue_id with Some q => get_queue_head q | None => 0 end.
Definition get_tail (queue_id : Z) (t : tqueue) : Z :=
  match queues_ t !! queue_id with Some q => tail_id q | None => 0 end.
Definition get_size (queue_id : Z) (t : tqueue) : Z :=
  match queues_ t !! queue_id with Some q => get_size_of q | None => 0 end.

(** [forget]: the loop over one event. *)
Fixpoint pop_at (queue_id tail id : Z) (evs : list RawEvent) (a : account) : option (list RawEvent * account) :=
  match evs with
  | [] => Some ([], a)
  | ev :: evs =>
      if event_id ev =? id then '(kept, a) ← pop queue_id tail ev a; Some (kept ++ evs, a)
      else '(rest, a) ← pop_at queue_id tail id evs a; Some (ev :: rest, a)
  end.

Definition put_back (queue_id : Z) (q : Queue) (evs : list RawEvent) (a : account) (t : tqueue) : tqueue :=
  mkTQueue (<[queue_id := mkQueue (tail_id q) evs (a_total a) (gc_at q)]> (queues_ t)) (queue_gc_at_ t) (a_callback a).

Definition forget (queue_id id : Z) (t : tqueue) : option tqueue :=
  match queues_ t !! queue_id with
  | None => Some t
  | Some q =>
      '(evs, a) ← pop_at queue_id (tail_id q) id (events q) (mkAccount (total_event_length q) (callback_ t));
      Some (put_back queue_id q evs a t)
  end.

Definition total_length (evs : list RawEvent) : Z := sum_list_Z (fun ev => slen (data ev)) evs.

(** [clear]: the events it deletes are returned. *)
Definition clear (queue_id : Z) (keep_count : nat) (t : tqueue) : list RawEvent * tqueue :=
  match queues_ t !! queue_id with
  | None => ([], t)
  | Some q =>
      let size := get_size_of q in
      if size <=? Z.of_nat keep_count then ([], t)
      else
        let all := events q in
        let '(end_, all, total, callback) :=
          match keep_count, last all with
          | O, Some ev =>
              match callback_ t with
              | None => (length all, all, total_event_length q, None)
              | Some s =>
                  if log_event_id ev =? 0 then (length all, all, total_event_length q, Some s)
                  else if negb (is_data_empty ev) then
                    let ev' := set_data [] ev in
                    (Nat.pred (length all), removelast all ++ [ev'], sub_length (total_event_length q) ev,
                     Some (cb_push s queue_id ev').2)
                  else (Nat.pred (length all), all, total_event_length q, Some s)
              end
          | _, _ => ((length all - keep_count)%nat, all, total_event_length q, callback_ t)
          end in
        let deleted := take end_ all in
        let rest := drop end_ all in
        let callback :=
          (fun s => cb_pop_batch s (List.filter (fun id => negb (id =? 0)) (log_event_id <$> deleted))) <$> callback in
        let total := if Z.quot size 2 <? Z.of_nat keep_count
                     then foldl sub_length total deleted else total_length rest in
        (deleted, put_back queue_id q rest (mkAccount total callback) t)
  end.

(** [do_get] for at most [n] events. *)
Definition do_get (queue_id : Z) (q : Queue) (from_id : Z) (forget_previous : bool) (now : Z) (n : nat) (callback : option S)
    : option (list RawEvent * list Event * account) :=
  '(evs, a) ← (let a := mkAccount (total_event_length q) callback in
               if forget_previous then forget_before queue_id (tail_id q) from_id (events q) a
               else Some (events q, a));
  let before := take_while (below from_id) evs in
  '(rest, out, a) ← collect queue_id (tail_id q) from_id now n (drop_while (below from_id) evs) a;
  Some (before ++ rest, out, a).

Definition get (queue_id from_id : Z) (forget_previous : bool) (now : Z) (n : nat) (t : tqueue)
    : option (result Z * list Event * tqueue) :=
  match queues_ t !! queue_id with
  | None => Some (Ok 0, [], t)
  | Some q =>
      if tail_id q + 10 <? from_id then Some (Err 0 (lit "Specified from_id is in the future"), [], t)
      else if from_id <? get_queue_head q - MAX_QUEUE_EVENTS
      then Some (Err 0 (lit "Specified from_id is in the past"), [], t)
      else
        '(evs, out, a) ← do_get queue_id q from_id forget_previous now n (callback_ t);
        let t := put_back queue_id q evs a t in
        Some (Ok (get_size_of (queue_at queue_id t)), out, t)
  end.

(** ** Garbage collection *)

(** The first element of the ordered set. *)
Definition pair_le (x y : Z * Z) : bool := (x.1 <? y.1) || (x.1 =? y.1) && (x.2 <=? y.2).
Fixpoint minimum (x : Z * Z) (l : list (Z * Z)) : Z * Z :=
  match l with [] => x | y :: l => minimum (if pair_le x y then x else y) l end.
Definition gc_begin (set : gset (Z * Z)) : option (Z * Z) :=
  match elements set with [] => None | x :: l => Some (minimum x l) end.

(** The loop over the events of a queue: [late] tells from the counter whether
    the time is over.  It returns the events, the time of the next collection,
    the counter, and whether it stopped for lack of time. *)
Fixpoint gc_events (queue_id tail now : Z) (late : Z → bool) (new_gc_at : Z) (evs : list RawEvent) (counter : Z)
    (a : account) : option (list RawEvent * Z * Z * bool * account) :=
  match evs with
  | [] => Some ([], new_gc_at, counter, false, a)
  | ev :: evs' =>
      let counter := counter + 1 in
      if (Z.land counter 128 =? 0) && late counter
      then Some (evs, if new_gc_at =? 0 then expires_at ev else new_gc_at, counter, true, a)
      else if is_dead now ev then
        '(kept, a) ← pop queue_id tail ev a;
        '(rest, gc, counter, stopped, a) ← gc_events queue_id tail now late new_gc_at evs' counter a;
        Some (kept ++ rest, gc, counter, stopped, a)
      else if negb (new_gc_at =? 0) then Some (evs, new_gc_at, counter, false, a)
      else
        '(rest, gc, counter, stopped, a) ← gc_events queue_id tail now late (expires_at ev) evs' counter a;
        Some (ev :: rest, gc, counter, stopped, a)
  end.

(** [run_gc], a round per queue: the time is over after a round when it was
    over within, or when [late_after] says so.  [None] is also the end of the
    fuel. *)
Fixpoint gc_rounds (fuel : nat) (now : Z) (late late_after : Z → bool) (deleted counter : Z) (t : tqueue)
    : option (Z * bool * tqueue) :=
  match gc_begin (queue_gc_at_ t) with
  | None => Some (deleted, true, t)
  | Some (at_, queue_id) =>
      if now <=? at_ then Some (deleted, true, t)
      else
        match fuel with
        | O => None
        | Datatypes.S fuel =>
            let q := queue_at queue_id t in
            (CHECK! gc_at q =? at_ ;;
             '(evs, new_gc_at, counter, stopped, a) ←
               gc_events queue_id (tail_id q) now late 0 (events q) counter
                 (mkAccount (total_event_length q) (callback_ t));
             let q' := mkQueue (tail_id q) evs (a_total a) (gc_at q) in
             (CHECK! get_size_of q' <=? get_size_of q ;;
              let deleted := deleted + (get_size_of q - get_size_of q') in
              '(q', set) ← schedule_queue_gc queue_id q' new_gc_at (queue_gc_at_ t);
              let t := mkTQueue (<[queue_id := q']> (queues_ t)) set (a_callback a) in
              if stopped || late_after counter then Some (deleted, false, t)
              else gc_rounds fuel now late late_after deleted counter t))%td
        end
  end.
Definition run_gc (now : Z) (late late_after : Z → bool) (t : tqueue) : option (Z * bool * tqueue) :=
  gc_rounds (size (queue_gc_at_ t)) now late late_after 0 0 t.
End TQueue.
#[global] Arguments tqueue S : clear implicits.
#[global] Arguments account S : clear implicits.

(** *** [TQueueMemoryStorage::replay]: in order of the identifiers *)

Fixpoint replay_events {S} `{StorageCallback S} (l : list (Z * (Z * RawEvent))) (t : tqueue S) : option (tqueue S) :=
  match l with
  | [] => Some t
  | (id, (queue_id, ev)) :: l =>
      '(is_added, t) ← do_push queue_id (set_log_event_id id ev) t;
      (CHECK! is_added ;; replay_events l t)%td
  end.
Definition by_id : relation (Z * (Z * RawEvent)) := fun x y => x.1 <= y.1.
#[export] Instance by_id_dec : RelDecision by_id := fun x y => decide (x.1 <= y.1).
Definition memory_replay (s : TQueueMemoryStorage) (t : tqueue TQueueMemoryStorage)
    : option (tqueue TQueueMemoryStorage) :=
  replay_events (merge_sort by_id (map_to_list (events_ s))) t.

#[local] Arguments lit : simpl never.

(** ** Well-formed queues *)

Definition id_lt (x y : RawEvent) : Prop := event_id x < event_id y.
Definition log_lt (x y : RawEvent) : Prop := log_event_id x < log_event_id y.

(** An event in a queue with the next identifier [tail]; an emptied one is the
    last. *)
Definition event_ok (tail : Z) (ev : RawEvent) : Prop :=
  0 < event_id ev < tail ∧ slen (data ev) <= MAX_EVENT_LENGTH ∧ 0 < expires_at ev
  ∧ (data ev = [] → event_id ev + 1 = tail).

Record events_ok (tail : Z) (evs : list RawEvent) : Prop := {
  evs_sorted : StronglySorted id_lt evs;
  evs_each : Forall (event_ok tail) evs;
}.

Record queue_ok (q : Queue) : Prop := {
  q_events : events_ok (tail_id q) (events q);
  q_tail : 0 <= tail_id q < MAX_ID;
  q_total : total_event_length q = total_length (events q);
  q_room : total_length (events q) <= MAX_TOTAL_EVENT_LENGTH ∧ slen (events q) <= MAX_QUEUE_EVENTS;
  q_gc : Exists (fun ev => data ev ≠ []) (events q) → gc_at q ≠ 0;
}.

Lemma total_length_app evs evs' : total_length (evs ++ evs') = total_length evs + total_length evs'.
Proof. apply sum_list_Z_app. Qed.

Lemma total_length_cons ev evs : total_length (ev :: evs) = slen (data ev) + total_length evs.
Proof. done. Qed.

Lemma total_length_nonneg evs : 0 <= total_length evs.
Proof. apply sum_list_Z_nonneg. intros ev _. unfold slen. lia. Qed.

(** ** The loops over a queue *)

Section Loops.
Context {S : Type} `{StorageLaws S}.
Context (queue_id T : Z) (callback0 : option S).

(** The storage mirrors the events of the queue, and has what it had of the
    other queues. *)
Record mirrors (s0 s : S) (evs : list RawEvent) : Prop := {
  mir_wf : cb_wf s;
  mir_stored id ev : cb_stored s !! id = Some (queue_id, ev) → set_log_event_id id ev ∈ evs;
  mir_events e :
    e ∈ evs → ∃ ev, cb_stored s !! log_event_id e = Some (queue_id, ev) ∧ set_log_event_id (log_event_id e) ev = e;
  mir_others id queue_id' ev :
    queue_id' ≠ queue_id → cb_stored s !! id = Some (queue_id', ev) ↔ cb_stored s0 !! id = Some (queue_id', ev);
  mir_sorted : StronglySorted log_lt evs;
  mir_ids : Forall (fun ev => 0 < log_event_id ev) evs;
}.

Definition callback_ok (callback : option S) (evs : list RawEvent) : Prop :=
  match callback0, callback with
  | None, None => True
  | Some s0, Some s => mirrors s0 s evs
  | _, _ => False
  end.

Record loop_ok (evs : list RawEvent) (a : account S) : Prop := {
  lo_events : events_ok T evs;
  lo_total : a_total a = total_length evs;
  lo_room : total_length evs <= MAX_TOTAL_EVENT_LENGTH;
  lo_callback : callback_ok (a_callback a) evs;
}.

Lemma events_ok_drop pre ev post : events_ok T (pre ++ ev :: post) → events_ok T (pre ++ post).
Proof.
  intros [Hs He]. split.
  - by apply (sorted_drop_middle _ pre [ev] post).
  - rewrite Forall_app, Forall_cons in He. apply Forall_app. tauto.
Qed.

(** An event of the queue is found in the storage under its own identifier. *)
Lemma mirrors_key s0 s pre ev post :
  mirrors s0 s (pre ++ ev :: post) →
  (∀ e, e ∈ pre ++ post → log_event_id e ≠ log_event_id ev) ∧ 0 < log_event_id ev
  ∧ ∃ ev', cb_stored s !! log_event_id ev = Some (queue_id, ev').
Proof.
  intros [Hwf Hst Hev Hoth Hsort Hids]. split_and!.
  - intros e He. apply strongly_sorted_app in Hsort as (_ & Hs2 & Hs3). apply StronglySorted_inv in Hs2 as [_ Hf].
    rewrite Forall_forall in Hf. apply elem_of_app in He as [He|He].
    + specialize (Hs3 e ev He ltac:(by left)). unfold log_lt in Hs3. lia.
    + specialize (Hf e He). unfold log_lt in Hf. lia.
  - rewrite Forall_app, Forall_cons in Hids; tauto.
  - destruct (Hev ev) as (ev' & ? & _); [apply elem_of_app; right; by left|]. by exists ev'.
Qed.

Lemma elem_of_middle {A} (x y : A) l k : x ∈ l ++ y :: k ↔ x = y ∨ x ∈ l ++ k.
Proof. rewrite !elem_of_app, elem_of_cons. tauto. Qed.

(** An event leaves the queue. *)
Lemma mirrors_drop s0 s pre ev post :
  mirrors s0 s (pre ++ ev :: post) → mirrors s0 (cb_pop s (log_event_id ev)) (pre ++ post).
Proof.
  intros Hm. destruct (mirrors_key _ _ _ _ _ Hm) as (Hne & _ & ev' & Hev'). destruct Hm as [Hwf Hst Hev Hoth Hsort Hids].
  split; [by apply cb_pop_wf|..].
  - intros id e. rewrite cb_pop_stored, lookup_delete_Some by done. intros [Hid [E|E]%Hst%elem_of_middle]; [|done].
    exfalso. apply Hid. by rewrite <- E.
  - intros e He. rewrite cb_pop_stored by done. destruct (Hev e) as (ev1 & ? & ?); [apply elem_of_middle; by right|].
    exists ev1. split; [|done]. rewrite lookup_delete_ne; [done|]. intros E. by apply (Hne e).
  - intros id qid e Hq. rewrite cb_pop_stored by done. rewrite lookup_delete_Some, <- Hoth by done. split; [tauto|].
    intros E. split; [|done]. intros <-. rewrite Hev' in E. by simplify_eq.
  - by apply (sorted_drop_middle _ pre [ev] post).
  - rewrite Forall_app, Forall_cons in Hids. apply Forall_app. tauto.
Qed.

(** The data of an event is emptied. *)
Lemma mirrors_clear s0 s pre ev post :
  mirrors s0 s (pre ++ ev :: post) →
  mirrors s0 (cb_push s queue_id (set_data [] ev)).2 (pre ++ set_data [] ev :: post).
Proof.
  intros Hm. destruct (mirrors_key _ _ _ _ _ Hm) as (Hne & Hpos & ev' & Hev'). destruct Hm as [Hwf Hst Hev Hoth Hsort Hids].
  assert (cb_stored (cb_push s queue_id (set_data [] ev)).2 = <[log_event_id ev := (queue_id, set_data [] ev)]> (cb_stored s)) as Hpush.
  { apply (cb_push_old s queue_id (set_data [] ev)); [done|by eexists; exact Hev'|cbn; lia]. }
  split; [by apply cb_push_wf; [|right; cbn; eauto]|..].
  - intros id e. rewrite Hpush, lookup_insert_Some. intros [[<- [= <-]]|[Hid [E|E]%Hst%elem_of_middle]];
      apply elem_of_middle; [by left; destruct ev| |by right].
    exfalso. apply Hid. by rewrite <- E.
  - intros e [->|He]%elem_of_middle; rewrite Hpush.
    + exists (set_data [] ev). split; [apply lookup_insert_eq|by destruct ev].
    + destruct (Hev e) as (ev1 & ? & ?); [apply elem_of_middle; by right|].
      exists ev1. split; [|done]. rewrite lookup_insert_ne; [done|]. intros E. by apply (Hne e).
  - intros id qid e Hq. rewrite Hpush, lookup_insert_Some, <- Hoth by done. split.
    + intros [[_ [= ]]|[_ E]]; [done|exact E].
    + intros E. right. split; [|done]. intros <-. rewrite Hev' in E. by simplify_eq.
  - eapply sorted_replace; [| |exact Hsort]; unfold log_lt; done.
  - rewrite Forall_app, Forall_cons in Hids |- *. tauto.
Qed.

Hypothesis HT : T < MAX_ID.

Lemma next_id_ok id : 0 <= id → id + 1 < MAX_ID → next_id id = Ok (id + 1).
Proof.
  intros H1 H2. unfold next_id, from_int32, is_valid_id.
  by replace ((0 <=? id + 1) && (id + 1 <? MAX_ID)) with true by lia.
Qed.

Lemma sub_length_ok pre ev post :
  total_length (pre ++ ev :: post) <= MAX_TOTAL_EVENT_LENGTH →
  sub_length (total_length (pre ++ ev :: post)) ev = total_length (pre ++ post).
Proof.
  rewrite !total_length_app, total_length_cons. intros Hroom. unfold sub_length.
  pose proof (total_length_nonneg pre). pose proof (total_length_nonneg post). pose proof (slen_nonneg (data ev)).
  rewrite wrap_small; [lia|]. unfold MAX_TOTAL_EVENT_LENGTH in Hroom. change (Z.shiftl 1 27) with (2 ^ 27) in Hroom. lia.
Qed.

Lemma clear_event_ok pre ev post : events_ok T (pre ++ ev :: post) → event_id ev + 1 = T → events_ok T (pre ++ set_data [] ev :: post).
Proof.
  intros [Hs He] Hnext. split.
  - eapply sorted_replace; [| |exact Hs]; unfold id_lt; done.
  - rewrite Forall_app, Forall_cons in He |- *. destruct He as (? & (Hid & _ & Hexp & _) & ?). split_and!; try done; cbn.
Qed.

Lemma total_length_clear pre ev post : total_length (pre ++ set_data [] ev :: post) = total_length (pre ++ post).
Proof. rewrite !total_length_app, total_length_cons. cbn. unfold slen. cbn. lia. Qed.

Lemma total_length_drop pre ev post : total_length (pre ++ post) <= total_length (pre ++ ev :: post).
Proof. rewrite !total_length_app, total_length_cons. pose proof (slen_nonneg (data ev)). lia. Qed.

(** The last event of a queue, maybe emptied, tells the next identifier; a
    queue with a storage never loses it. *)
Definition anchored (evs : list RawEvent) : Prop :=
  match last evs with Some ev => event_id ev + 1 = T | None => T = 0 end.
Definition keeps_last (evs evs' : list RawEvent) : Prop := is_Some callback0 → anchored evs → anchored evs'.

#[global] Instance keeps_last_preorder : PreOrder keeps_last.
Proof. split; unfold keeps_last; [by intros evs|intros x y z; auto]. Qed.

Lemma anchored_snoc evs ev : anchored (evs ++ [ev]) ↔ event_id ev + 1 = T.
Proof. unfold anchored. by rewrite last_snoc. Qed.

Lemma anchored_app evs ev post : anchored (evs ++ ev :: post) ↔ anchored (ev :: post).
Proof.
  unfold anchored. destruct (exists_last (l := ev :: post)) as (l & x & E); [done|]. by rewrite E, app_assoc, !last_snoc.
Qed.

(** An event goes, and the last one only when it is not the one that is kept. *)
Lemma keeps_last_pop pre ev kept post :
  kept = [] ∨ kept = [ev] ∨ kept = [set_data [] ev] → (kept = [] → event_id ev + 1 ≠ T) →
  keeps_last (pre ++ ev :: post) (pre ++ kept ++ post).
Proof.
  intros Hk Hne _. destruct post as [|e post].
  - rewrite anchored_snoc. intros Hn. destruct Hk as [->|[->| ->]]; [by destruct (Hne eq_refl)|by apply anchored_snoc..].
  - intros Ha%anchored_app. rewrite (app_assoc pre kept). apply anchored_app.
    change (ev :: e :: post) with ([ev] ++ e :: post) in Ha. by apply anchored_app in Ha.
Qed.

Lemma pop_ok pre ev post tail a :
  tail = T ∨ tail = 0 → loop_ok (pre ++ ev :: post) a →
  ∃ kept a', pop queue_id tail ev a = Some (kept, a') ∧ loop_ok (pre ++ kept ++ post) a'
    ∧ (kept = [] ∨ kept = [set_data [] ev] ∧ event_id ev + 1 = tail)
    ∧ (tail = T → keeps_last (pre ++ ev :: post) (pre ++ kept ++ post)).
Proof.
  intros Htail [Hev Htot Hroom Hcb]. destruct a as [total callback]. cbn in Htot, Hcb. subst total.
  pose proof (sub_length_ok _ _ _ Hroom) as Hsub. pose proof (total_length_drop pre ev post) as Hdrop.
  assert (event_ok T ev) as (Hid & _ & _ & _).
  { destruct Hev as [_ He]. rewrite Forall_app, Forall_cons in He. tauto. }
  unfold pop, callback_ok in *. cbn [a_callback a_total]. destruct callback0 as [s0|] eqn:Ec0, callback as [s|]; try done.
  - destruct (mirrors_key _ _ _ _ _ Hcb) as (_ & Hpos & _). rewrite (proj2 (Z.eqb_neq _ 0)) by lia.
    rewrite next_id_ok by lia. destruct (Z.eqb_spec (event_id ev + 1) tail) as [Hnext|Hnext].
    + assert (event_id ev + 1 = T) as HnT by lia. unfold is_data_empty. case_bool_decide as Hd.
      * exists [ev], (mkAccount (total_length (pre ++ ev :: post)) (Some s)). split; [done|]. split.
        -- split; [done|done|done|]. unfold callback_ok. by rewrite Ec0.
        -- split; [right; split; [|done]; destruct ev; cbn in Hd; by subst|]. intros _. by apply keeps_last_pop; auto.
      * exists [set_data [] ev]. eexists. split; [done|]. rewrite Hsub.
        split; [|split; [by right|intros _; by apply keeps_last_pop; auto]].
        split; cbn [a_total a_callback app].
        -- by apply clear_event_ok.
        -- by rewrite total_length_clear.
        -- rewrite total_length_clear. lia.
        -- unfold callback_ok. rewrite Ec0. by apply mirrors_clear.
    + exists []. eexists. split; [done|]. rewrite Hsub.
      split; [|split; [by left|intros ->; apply keeps_last_pop; auto]].
      split; cbn [a_total a_callback app]; [by eapply events_ok_drop|done|lia|].
      unfold callback_ok. rewrite Ec0. by apply mirrors_drop.
  - exists []. eexists. split; [done|]. rewrite Hsub. split; [|split; [by left|intros _ [? E]; congruence]].
    split; cbn [a_total a_callback app]; [by eapply events_ok_drop|done|lia|]. unfold callback_ok. by rewrite Ec0.
Qed.

(** What a loop leaves of some events: some of them in order, maybe the last
    one emptied. *)
Inductive remains : list RawEvent → list RawEvent → Prop :=
| rem_nil : remains [] []
| rem_keep ev evs evs' : remains evs evs' → remains (ev :: evs) (ev :: evs')
| rem_drop ev evs evs' : remains evs evs' → remains (ev :: evs) evs'
| rem_clear ev evs evs' : remains evs evs' → event_id ev + 1 = T → remains (ev :: evs) (set_data [] ev :: evs').

Lemma remains_refl evs : remains evs evs.
Proof. induction evs; by constructor. Qed.

Lemma remains_trans evs1 evs2 evs3 : remains evs1 evs2 → remains evs2 evs3 → remains evs1 evs3.
Proof.
  intros H12. revert evs3. induction H12 as [|ev l l' _ IH|ev l l' _ IH|ev l l' _ IH Hn]; intros evs3 H23.
  - done.
  - inversion H23; subst; [apply rem_keep|apply rem_drop|apply rem_clear]; auto.
  - apply rem_drop. auto.
  - inversion H23 as [|? ? l3 H3|? ? l3 H3|? ? l3 H3]; subst;
      [by apply rem_clear; auto|by apply rem_drop; auto|change (set_data [] (set_data [] ev)) with (set_data [] ev); by apply rem_clear; auto].
Qed.

Lemma remains_pop ev kept evs evs' tail :
  tail = T ∨ tail = 0 → 0 <= event_id ev →
  kept = [] ∨ kept = [set_data [] ev] ∧ event_id ev + 1 = tail → remains evs evs' → remains (ev :: evs) (kept ++ evs').
Proof. intros Ht Hid [->|[-> Hn]] Hr; [by apply rem_drop|]. apply rem_clear; [done|lia]. Qed.

Lemma loop_ok_id pre ev post a : loop_ok (pre ++ ev :: post) a → 0 <= event_id ev.
Proof. intros [[_ He] _ _ _]. rewrite Forall_app, Forall_cons in He. destruct He as (_ & (? & _) & _). lia. Qed.

Lemma pop_each_ok tail pre evs post a :
  tail = T ∨ tail = 0 → loop_ok (pre ++ evs ++ post) a →
  ∃ kept a', pop_each queue_id tail evs a = Some (kept, a') ∧ loop_ok (pre ++ kept ++ post) a' ∧ remains evs kept
    ∧ (tail = 0 → kept = []).
Proof.
  intros Htail. revert pre a. induction evs as [|ev evs IH]; intros pre a Hok; cbn [pop_each].
  - exists [], a. split_and!; [done|done|constructor|done].
  - pose proof (loop_ok_id pre ev (evs ++ post) a Hok) as Hid.
    destruct (pop_ok pre ev (evs ++ post) tail a Htail Hok) as (k1 & a1 & -> & Hok1 & Hk1 & Hlast). cbn [mbind option_bind].
    rewrite (assoc_L (++)) in Hok1. destruct (IH _ _ Hok1) as (k2 & a2 & -> & Hok2 & Hr & Hk2). cbn [mbind option_bind].
    exists (k1 ++ k2), a2. split_and!; [done| | |].
    + by rewrite <- !(assoc_L (++)) in *.
    + by eapply remains_pop.
    + intros ->. rewrite Hk2 by done. destruct Hk1 as [->|[_ Hn]]; [done|lia].
Qed.

Lemma sorted_from from_id evs :
  StronglySorted id_lt evs → Forall (fun ev => from_id <= event_id ev) (drop_while (below from_id) evs).
Proof.
  induction evs as [|ev evs IH]; cbn [drop_while]; [constructor|]. intros [Hs Hf]%StronglySorted_inv.
  unfold below at 1. destruct (Z.ltb_spec (event_id ev) from_id); [by apply IH|]. constructor; [done|].
  eapply Forall_impl; [exact Hf|]. intros e. unfold id_lt. lia.
Qed.

Lemma remains_app l l' k k' : remains l l' → remains k k' → remains (l ++ k) (l' ++ k').
Proof. induction 1; intros; cbn; [done|apply rem_keep|apply rem_drop|apply rem_clear]; auto. Qed.

(** Of the events before [from_id] at most an emptied one is left. *)
Lemma forget_before_ok from_id pre evs post a :
  loop_ok (pre ++ evs ++ post) a →
  ∃ low a', forget_before queue_id T from_id evs a = Some (low ++ drop_while (below from_id) evs, a')
    ∧ loop_ok (pre ++ (low ++ drop_while (below from_id) evs) ++ post) a'
    ∧ remains (take_while (below from_id) evs) low ∧ Forall (fun e => event_id e < from_id ∧ data e = []) low
    ∧ keeps_last (pre ++ evs ++ post) (pre ++ (low ++ drop_while (below from_id) evs) ++ post).
Proof.
  revert pre a. induction evs as [|ev evs IH]; intros pre a Hok; cbn [forget_before drop_while take_while].
  - exists [], a. split_and!; [done|done|constructor|done|done].
  - unfold below at 1 3 5 7. destruct (Z.ltb_spec (event_id ev) from_id).
    + pose proof (loop_ok_id pre ev (evs ++ post) a Hok) as Hid.
      destruct (pop_ok pre ev (evs ++ post) T a (or_introl eq_refl) Hok) as (k1 & a1 & -> & Hok1 & Hk1 & Hlast). cbn [mbind option_bind].
      rewrite (assoc_L (++)) in Hok1. destruct (IH _ _ Hok1) as (k2 & a2 & -> & Hok2 & Hr & Hk2 & Hlast2). cbn [mbind option_bind].
      exists (k1 ++ k2), a2. split_and!.
      * by rewrite <- (assoc_L (++)).
      * by rewrite <- !(assoc_L (++)) in *.
      * by eapply remains_pop; [left|..].
      * apply Forall_app. split; [|done]. destruct Hk1 as [->|[-> _]]; [constructor|]. by repeat constructor.
      * rewrite <- !(assoc_L (++)) in *. by etrans; [by apply Hlast|].
    + exists [], a. split_and!; [done|done|constructor|done|done].
Qed.
Definition event_of (ev : RawEvent) : Event := mkEvent (event_id ev) (expires_at ev) (data ev) (extra ev).
Definition alive (now : Z) (evs : list RawEvent) : list RawEvent := List.filter (fun ev => negb (is_dead now ev)) evs.

Lemma collect_ok from_id now n pre evs post a :
  loop_ok (pre ++ evs ++ post) a → Forall (fun ev => from_id <= event_id ev) evs →
  ∃ kept a', collect queue_id T from_id now n evs a = Some (kept, take n (event_of <$> alive now evs), a')
    ∧ loop_ok (pre ++ kept ++ post) a' ∧ remains evs kept ∧ (∀ e, e ∈ evs → is_dead now e = false → e ∈ kept)
    ∧ keeps_last (pre ++ evs ++ post) (pre ++ kept ++ post).
Proof.
  revert n pre a. induction evs as [|ev evs IH]; intros n pre a Hok Hfrom; cbn [collect].
  - exists [], a. split_and!; [by destruct n|done|constructor|done|done].
  - apply Forall_cons in Hfrom as [Hf Hfrom]. destruct (is_dead now ev) eqn:Ed.
    + pose proof (loop_ok_id pre ev (evs ++ post) a Hok) as Hid.
      destruct (pop_ok pre ev (evs ++ post) T a (or_introl eq_refl) Hok) as (k1 & a1 & -> & Hok1 & Hk1 & Hlast). cbn [mbind option_bind].
      rewrite (assoc_L (++)) in Hok1. destruct (IH n _ _ Hok1 Hfrom) as (k2 & a2 & -> & Hok2 & Hr & Hk2 & Hlast2). cbn [mbind option_bind].
      exists (k1 ++ k2), a2. split_and!.
      * unfold alive. cbn [List.filter]. by rewrite Ed.
      * by rewrite <- !(assoc_L (++)) in *.
      * by eapply remains_pop; [left|..].
      * intros e [->|He]%elem_of_cons Hd; [congruence|]. apply elem_of_app. right. by apply Hk2.
      * rewrite <- !(assoc_L (++)) in *. by etrans; [by apply Hlast|].
    + replace (event_id ev <? from_id) with false by lia. cbn [negb CHECK]. unfold alive. cbn [List.filter]. rewrite Ed. cbn [negb].
      destruct n as [|n].
      * exists (ev :: evs), a. split_and!; [done|done|apply remains_refl|done|done].
      * replace (pre ++ (ev :: evs) ++ post) with ((pre ++ [ev]) ++ evs ++ post) in Hok by by rewrite <- (assoc_L (++)).
        destruct (IH n _ _ Hok Hfrom) as (k2 & a2 & -> & Hok2 & Hr & Hk2 & Hlast2). cbn [mbind option_bind].
        exists (ev :: k2), a2. rewrite <- !(assoc_L (++)) in *. split_and!; [done|done|by constructor| |done].
        intros e [->|He]%elem_of_cons Hd; [by left|right; by apply Hk2].
Qed.

Lemma pop_at_ok id pre evs post a :
  loop_ok (pre ++ evs ++ post) a →
  ∃ kept a', pop_at queue_id T id evs a = Some (kept, a') ∧ loop_ok (pre ++ kept ++ post) a' ∧ remains evs kept
    ∧ (∀ e, e ∈ evs → event_id e ≠ id → e ∈ kept) ∧ keeps_last (pre ++ evs ++ post) (pre ++ kept ++ post).
Proof.
  revert pre a. induction evs as [|ev evs IH]; intros pre a Hok; cbn [pop_at].
  - exists [], a. split_and!; [done|done|constructor|done|done].
  - pose proof (loop_ok_id pre ev (evs ++ post) a Hok) as Hid. destruct (Z.eqb_spec (event_id ev) id) as [<-|Hne].
    + destruct (pop_ok pre ev (evs ++ post) T a (or_introl eq_refl) Hok) as (k1 & a1 & -> & Hok1 & Hk1 & Hlast). cbn [mbind option_bind].
      exists (k1 ++ evs), a1. rewrite <- !(assoc_L (++)) in *. split_and!; [done|done| | |by apply Hlast].
      * eapply remains_pop; [by left|done|done|apply remains_refl].
      * intros e [->|He]%elem_of_cons Hf; [done|]. apply elem_of_app. by right.
    + replace (pre ++ (ev :: evs) ++ post) with ((pre ++ [ev]) ++ evs ++ post) in Hok by by rewrite <- (assoc_L (++)).
      destruct (IH _ _ Hok) as (k2 & a2 & -> & Hok2 & Hr & Hk2 & Hlast2). cbn [mbind option_bind].
      exists (ev :: k2), a2. rewrite <- !(assoc_L (++)) in *. split_and!; [done|done|by constructor| |done].
      intros e [->|He]%elem_of_cons Hf; [by left|right; by apply Hk2].
Qed.

Lemma gc_events_ok now late gc pre evs post counter a :
  loop_ok (pre ++ evs ++ post) a → gc = 0 ∨ now <= gc → 0 <= gc →
  ∃ kept gc' counter' stopped a', gc_events queue_id T now late gc evs counter a = Some (kept, gc', counter', stopped, a')
    ∧ loop_ok (pre ++ kept ++ post) a' ∧ remains evs kept ∧ (∀ e, e ∈ evs → is_dead now e = false → e ∈ kept)
    ∧ (stopped = false → gc' = 0 ∨ now <= gc') ∧ (gc ≠ 0 ∨ Exists (fun e => data e ≠ []) kept → gc' ≠ 0)
    ∧ keeps_last (pre ++ evs ++ post) (pre ++ kept ++ post).
Proof.
  revert gc pre counter a. induction evs as [|ev evs IH]; intros gc pre counter a Hok Hgc Hgc0; cbn [gc_events].
  - exists [], gc, counter, false, a. split_and!; [done|done|constructor|done|done| |done].
    intros [?|He]; [done|by apply Exists_nil in He].
  - assert (0 < expires_at ev) as Hexp.
    { destruct Hok as [[_ He] _ _ _]. cbn [app] in He. rewrite Forall_app, Forall_cons in He.
      destruct He as (_ & (_ & _ & ? & _) & _). done. }
    destruct (_ && late _).
    { eexists (ev :: evs), _, _, true, a. split_and!; [done|done|apply remains_refl|done|done| |done].
      intros _. destruct (Z.eqb_spec gc 0); lia. }
    destruct (is_dead now ev) eqn:Ed.
    + pose proof (loop_ok_id pre ev (evs ++ post) a Hok) as Hid.
      destruct (pop_ok pre ev (evs ++ post) T a (or_introl eq_refl) Hok) as (k1 & a1 & -> & Hok1 & Hk1 & Hlast). cbn [mbind option_bind].
      rewrite (assoc_L (++)) in Hok1.
      destruct (IH gc _ (counter + 1) _ Hok1 Hgc Hgc0) as (k2 & gc2 & c2 & st & a2 & -> & Hok2 & Hr & Hk2 & Hg1 & Hg2 & Hlast2).
      cbn [mbind option_bind]. exists (k1 ++ k2), gc2, c2, st, a2. rewrite <- !(assoc_L (++)) in *.
      split_and!; [done|done| | |done| |by etrans; [by apply Hlast|]].
      * by eapply remains_pop; [left|..].
      * intros e [->|He]%elem_of_cons Hd; [congruence|]. apply elem_of_app. right. by apply Hk2.
      * intros [?|He]; apply Hg2; [by left|right]. apply Exists_app in He as [He|He]; [|done].
        destruct Hk1 as [->|[-> _]]; [by apply Exists_nil in He|]. apply Exists_cons in He as [He|He]; [done|by apply Exists_nil in He].
    + destruct (Z.eqb_spec gc 0) as [->|Hne]; cbn [negb].
      * assert (now <= expires_at ev) as Hlive.
        { unfold is_dead in Ed. apply orb_false_iff in Ed as [Ed _]. lia. }
        replace (pre ++ (ev :: evs) ++ post) with ((pre ++ [ev]) ++ evs ++ post) in Hok by by rewrite <- (assoc_L (++)).
        destruct (IH (expires_at ev) _ (counter + 1) _ Hok ltac:(by right) ltac:(lia))
          as (k2 & gc2 & c2 & st & a2 & -> & Hok2 & Hr & Hk2 & Hg1 & Hg2 & Hlast2). cbn [mbind option_bind].
        exists (ev :: k2), gc2, c2, st, a2. rewrite <- !(assoc_L (++)) in *.
        split_and!; [done|done|by constructor| |done| |done].
        -- intros e [->|He]%elem_of_cons Hd; [by left|right; by apply Hk2].
        -- intros _. apply Hg2. left. lia.
      * exists (ev :: evs), gc, (counter + 1), false, a. split_and!; [done|done|apply remains_refl|done|by intros _|done|done].
Qed.
End Loops.

(** ** Well-formed states *)

Section State.
Context {S : Type} `{StorageLaws S}.

Definition gc_exact (queues : gmap Z Queue) (set : gset (Z * Z)) : Prop :=
  ∀ at_ queue_id, (at_, queue_id) ∈ set ↔ at_ ≠ 0 ∧ ∃ q, queues !! queue_id = Some q ∧ gc_at q = at_.

(** The storage holds exactly the events of the queues. *)
Definition stored_ok (callback : option S) (queues : gmap Z Queue) : Prop :=
  match callback with
  | None => True
  | Some s => ∀ queue_id, mirrors queue_id s s (events (default new_queue (queues !! queue_id)))
  end.

Record tqueue_ok (t : tqueue S) : Prop := {
  tq_queues queue_id q : queues_ t !! queue_id = Some q → queue_id ≠ 0 ∧ queue_ok q;
  tq_gc : gc_exact (queues_ t) (queue_gc_at_ t);
  tq_stored : stored_ok (callback_ t) (queues_ t);
}.

Lemma new_queue_ok : queue_ok new_queue.
Proof.
  split; cbn; try done.
  - split; [constructor|done].
  - by intros ?%Exists_nil.
Qed.

Lemma new_tqueue_ok : tqueue_ok (new_tqueue : tqueue S).
Proof.
  split; [done| |done]. intros at_ queue_id. cbn. split; [set_solver|]. intros [_ (q & Hq & _)]. done.
Qed.

Lemma mirrors_other queue_id queue_id' (s0 s : S) evs evs' :
  mirrors queue_id s0 s evs → queue_id' ≠ queue_id → mirrors queue_id' s0 s0 evs' → mirrors queue_id' s s evs'.
Proof.
  intros [Hwf _ _ Ho _ _] Hne [_ Hst Hev _ Hs Hi]. split; [done| | |done|done|done].
  - intros id ev Hid. apply Hst. by apply Ho.
  - intros e He. destruct (Hev e He) as (ev & Hid & E). exists ev. split; [|done]. by apply Ho.
Qed.

(** One queue and its part of the storage change. *)
Lemma stored_insert queue_id callback callback' queues q :
  stored_ok callback queues → callback_ok queue_id callback callback' (events q) →
  stored_ok callback' (<[queue_id := q]> queues).
Proof.
  unfold stored_ok, callback_ok. destruct callback as [s0|], callback' as [s|]; try done.
  intros Hst Hm qid. destruct (decide (qid = queue_id)) as [->|Hne].
  - rewrite lookup_insert_eq. cbn. destruct Hm as [Hwf Hs He _ Hso Hi]. by split.
  - rewrite lookup_insert_ne by done. by eapply mirrors_other.
Qed.

Lemma queue_loop_ok queue_id q t :
  tqueue_ok t → queues_ t !! queue_id = Some q →
  loop_ok queue_id (tail_id q) (callback_ t) (events q) (mkAccount (total_event_length q) (callback_ t)).
Proof.
  intros [Hq _ Hst] Hl. destruct (Hq _ _ Hl) as [_ [He Ht Htot [Hr _] _]]. split; [done|done|done|]. cbn.
  unfold callback_ok, stored_ok in *. destruct (callback_ t) as [s|]; [|done].
  specialize (Hst queue_id). by rewrite Hl in Hst.
Qed.

Lemma gc_exact_insert queue_id q q' queues set :
  gc_exact queues set → queues !! queue_id = Some q → gc_at q' = gc_at q → gc_exact (<[queue_id := q']> queues) set.
Proof.
  intros Hg Hl E at_ qid. rewrite (Hg at_ qid). destruct (decide (qid = queue_id)) as [->|Hne].
  - rewrite lookup_insert_eq, Hl. split; intros [? (q0 & [= <-] & Hq0)]; (split; [done|]); eexists; (split; [done|]); congruence.
  - by rewrite lookup_insert_ne.
Qed.

(** [queues_[queue_id]] may make a queue. *)
Lemma put_queue_ok queue_id t : queue_id ≠ 0 → tqueue_ok t → tqueue_ok (put_queue queue_id (queue_at queue_id t) t).
Proof.
  intros Hne [Hq Hg Hst]. unfold queue_at. destruct (queues_ t !! queue_id) as [q|] eqn:El; cbn [default].
  - unfold put_queue. rewrite insert_id by done. by destruct t.
  - split; cbn.
    + intros qid q. rewrite lookup_insert_Some. intros [[<- <-]|[_ ?]]; [split; [done|apply new_queue_ok]|by apply Hq].
    + intros at_ qid. rewrite (Hg at_ qid). destruct (decide (qid = queue_id)) as [->|Hn].
      * rewrite lookup_insert_eq, El. split; [by intros [_ (? & ? & _)]|]. intros [Ha (q0 & [= <-] & Hq0)]. done.
      * by rewrite lookup_insert_ne.
    + unfold stored_ok in *. destruct (callback_ t) as [s|]; [|done]. intros qid. specialize (Hst qid).
      destruct (decide (qid = queue_id)) as [->|Hn]; [by rewrite lookup_insert_eq; rewrite El in Hst|by rewrite lookup_insert_ne].
Qed.

Lemma remains_length T evs evs' : remains T evs evs' → slen evs' <= slen evs.
Proof. induction 1; unfold slen in *; cbn [length]; lia. Qed.

Lemma remains_live T evs evs' :
  remains T evs evs' → Exists (fun e => data e ≠ []) evs' → Exists (fun e => data e ≠ []) evs.
Proof.
  induction 1; [done|..]; rewrite ?Exists_cons; tauto.
Qed.

(** An operation that only takes events from one queue. *)
Lemma put_back_ok queue_id q evs a t :
  tqueue_ok t → queues_ t !! queue_id = Some q → loop_ok queue_id (tail_id q) (callback_ t) evs a →
  remains (tail_id q) (events q) evs → tqueue_ok (put_back queue_id q evs a t).
Proof.
  intros Hok Hl [He Htot Hroom Hcb] Hr. pose proof Hok as [Hq Hg Hst]. destruct (Hq _ _ Hl) as [Hne [Hqe Ht _ [_ Hlen] Hgc]].
  split; cbn.
  - intros qid q'. rewrite lookup_insert_Some. intros [[<- <-]|[_ ?]]; [|by apply Hq]. split; [done|].
    split; cbn; [done|done|done| |].
    + split; [done|]. apply remains_length in Hr. lia.
    + intros Hlive. apply Hgc. by eapply remains_live.
  - by eapply gc_exact_insert.
  - by eapply stored_insert.
Qed.

(** With a storage, the events of every queue tell its next identifier. *)
Definition tails_ok (t : tqueue S) : Prop :=
  is_Some (callback_ t) → ∀ queue_id q, queues_ t !! queue_id = Some q → anchored (tail_id q) (events q).

(** An operation on one queue. *)
Record step_ok (queue_id : Z) (t t' : tqueue S) : Prop := {
  st_ok : tqueue_ok t';
  st_others queue_id' : queue_id' ≠ queue_id → queues_ t' !! queue_id' = queues_ t !! queue_id';
  st_callback : is_Some (callback_ t') ↔ is_Some (callback_ t);
  st_tails : tails_ok t → tails_ok t';
}.

Lemma step_ok_refl queue_id t : tqueue_ok t → step_ok queue_id t t.
Proof. by split. Qed.

Lemma queue_at_anchored queue_id t :
  tails_ok t → is_Some (callback_ t) → anchored (tail_id (queue_at queue_id t)) (events (queue_at queue_id t)).
Proof.
  intros Ht Hc. unfold queue_at. destruct (queues_ t !! queue_id) as [q|] eqn:El; [by eapply Ht|done].
Qed.

Lemma tails_step queue_id t t' :
  (∀ queue_id', queue_id' ≠ queue_id → queues_ t' !! queue_id' = queues_ t !! queue_id') →
  (is_Some (callback_ t') → is_Some (callback_ t)) →
  (tails_ok t → is_Some (callback_ t) → anchored (tail_id (queue_at queue_id t')) (events (queue_at queue_id t'))) →
  tails_ok t → tails_ok t'.
Proof.
  intros Ho Hc Hq Ht Hs qid q Hl. destruct (decide (qid = queue_id)) as [->|Hne].
  - unfold queue_at in Hq. rewrite Hl in Hq. auto.
  - rewrite Ho in Hl by done. eapply Ht; eauto.
Qed.

Lemma callback_ok_some queue_id (callback0 callback : option S) evs :
  callback_ok queue_id callback0 callback evs → is_Some callback ↔ is_Some callback0.
Proof. unfold callback_ok. intros Hc. rewrite <- !not_eq_None_Some. by destruct callback0, callback. Qed.

Lemma put_back_step queue_id q evs a t :
  tqueue_ok t → queues_ t !! queue_id = Some q → loop_ok queue_id (tail_id q) (callback_ t) evs a →
  remains (tail_id q) (events q) evs → keeps_last (tail_id q) (callback_ t) (events q) evs →
  step_ok queue_id t (put_back queue_id q evs a t).
Proof.
  intros Hok El Hl Hr Hk.
  assert (∀ queue_id', queue_id' ≠ queue_id → queues_ (put_back queue_id q evs a t) !! queue_id' = queues_ t !! queue_id') as Ho.
  { intros qid Hne. cbn. by rewrite lookup_insert_ne. }
  assert (is_Some (callback_ (put_back queue_id q evs a t)) ↔ is_Some (callback_ t)) as Hc.
  { apply (callback_ok_some queue_id _ _ evs). apply Hl. }
  split; [by apply put_back_ok|done|done|].
  apply (tails_step queue_id); [done|by apply Hc|]. intros Ht Hs. unfold queue_at. cbn. rewrite lookup_insert_eq. cbn.
  apply Hk; [done|]. by eapply Ht.
Qed.

Lemma schedule_ok queue_id q0 q at_ queues set :
  gc_exact queues set → queues !! queue_id = Some q0 → gc_at q = gc_at q0 →
  ∃ set', schedule_queue_gc queue_id q at_ set = Some (set_gc_at at_ q, set')
    ∧ ∀ q', gc_at q' = at_ → gc_exact (<[queue_id := q']> queues) set'.
Proof.
  intros Hg Hl E.
  set (set1 := if gc_at q =? 0 then set else set ∖ {[(gc_at q, queue_id)]}).
  assert (∀ x qid, (x, qid) ∈ set1 ↔ qid ≠ queue_id ∧ x ≠ 0 ∧ ∃ q, queues !! qid = Some q ∧ gc_at q = x) as H1.
  { intros x qid. unfold set1. destruct (Z.eqb_spec (gc_at q) 0) as [Ez|Enz].
    - rewrite (Hg x qid). split; [intros (Hx & q1 & Hq1 & <-)|naive_solver]. split_and!; [intros ->; congruence|done|eauto].
    - rewrite elem_of_difference, (Hg x qid), not_elem_of_singleton. split.
      + intros [(Hx & q1 & Hq1 & <-) Hn]. split_and!; [intros ->; congruence|done|eauto].
      + intros (Hn & Hx & Hex). split; [done|congruence]. }
  assert (schedule_queue_gc queue_id q at_ set =
          if negb (at_ =? 0) then Some (set_gc_at at_ q, {[(at_, queue_id)]} ∪ set1) else Some (set_gc_at at_ q, set1)) as ->.
  { unfold schedule_queue_gc, set1, CHECK. destruct (Z.eqb_spec (gc_at q) 0) as [Ez|Enz]; cbn [negb].
    - destruct (negb (at_ =? 0)); [|done]. rewrite bool_decide_eq_false_2; [done|].
      rewrite (Hg at_ queue_id). intros (Hat & q1 & Hq1 & <-). congruence.
    - rewrite bool_decide_eq_true_2 by (apply Hg; split; [done|exists q0; by rewrite E]).
      destruct (negb (at_ =? 0)); [|done]. rewrite bool_decide_eq_false_2; [done|].
      intros Hin. assert ((at_, queue_id) ∈ set1) as Hin1 by exact Hin.
      apply H1 in Hin1 as [Hn _]. done. }
  destruct (Z.eqb_spec at_ 0) as [Hz|Hnz]; cbn [negb]; (eexists; split; [done|]); intros q' Hq' x qid.
  - rewrite H1. destruct (decide (qid = queue_id)) as [->|Hn].
    + rewrite lookup_insert_eq. split; [by intros [? _]|]. intros (Hx & q1 & [= <-] & <-). congruence.
    + rewrite lookup_insert_ne by done. tauto.
  - rewrite elem_of_union, elem_of_singleton, H1. destruct (decide (qid = queue_id)) as [->|Hn].
    + rewrite lookup_insert_eq. split.
      * intros [[= ->]|[? _]]; [|done]. split; [done|]. eauto.
      * intros (Hx & q1 & [= <-] & <-). left. by rewrite Hq'.
    + rewrite lookup_insert_ne by done. split; [intros [[= _ ->]|[_ ?]]; done|]. intros Hex. right. done.
Qed.

Lemma remains_elem T evs evs' e :
  remains T evs evs' → e ∈ evs' → e ∈ evs ∨ data e = [] ∧ event_id e + 1 = T.
Proof.
  induction 1; rewrite ?elem_of_cons; [by left|naive_solver|naive_solver|].
  intros [->|He]; [by right|naive_solver].
Qed.

Lemma forget_ok queue_id id t :
  tqueue_ok t → ∃ t', forget queue_id id t = Some t' ∧ step_ok queue_id t t'
    ∧ (∀ e, e ∈ events (queue_at queue_id t) → event_id e ≠ id → e ∈ events (queue_at queue_id t')).
Proof.
  intros Hok. unfold forget. destruct (queues_ t !! queue_id) as [q|] eqn:El; [|exists t; by split_and!; [|apply step_ok_refl|]].
  pose proof (queue_loop_ok _ _ _ Hok El) as Hl. destruct (tq_queues _ Hok _ _ El) as [_ Hq].
  rewrite <- (app_nil_r (events q)) in Hl.
  destruct (pop_at_ok queue_id (tail_id q) (callback_ t) ltac:(apply (q_tail _ Hq)) id [] (events q) [] _ Hl)
    as (kept & a & -> & Hl' & Hr & Hk & Hlast). cbn [mbind option_bind app] in *.
  rewrite !app_nil_r in *. eexists. split; [done|]. split; [by apply put_back_step|].
  unfold queue_at. cbn. rewrite El, lookup_insert_eq. cbn. exact Hk.
Qed.

(** What [do_get] finds and leaves. *)
Lemma do_get_ok queue_id q from_id forget_previous now n t :
  tqueue_ok t → queues_ t !! queue_id = Some q →
  ∃ low high a, do_get queue_id q from_id forget_previous now n (callback_ t)
    = Some (low ++ high, take n (event_of <$> alive now (drop_while (below from_id) (events q))), a)
    ∧ loop_ok queue_id (tail_id q) (callback_ t) (low ++ high) a
    ∧ remains (tail_id q) (take_while (below from_id) (events q)) low
    ∧ remains (tail_id q) (drop_while (below from_id) (events q)) high
    ∧ low = (if forget_previous then low else take_while (below from_id) (events q))
    ∧ (forget_previous = true → Forall (fun e => data e = []) low)
    ∧ (∀ e, e ∈ drop_while (below from_id) (events q) → is_dead now e = false → e ∈ high)
    ∧ keeps_last (tail_id q) (callback_ t) (events q) (low ++ high).
Proof.
  intros Hok El. pose proof (queue_loop_ok _ _ _ Hok El) as Hl. destruct (tq_queues _ Hok _ _ El) as [_ Hq].
  pose proof (proj2 (q_tail _ Hq)) as HT.
  pose proof (sorted_from from_id _ (evs_sorted _ _ (q_events _ Hq))) as Hfrom.
  assert (∃ low a, (if forget_previous
                    then forget_before queue_id (tail_id q) from_id (events q) (mkAccount (total_event_length q) (callback_ t))
                    else Some (events q, mkAccount (total_event_length q) (callback_ t)))
                   = Some (low ++ drop_while (below from_id) (events q), a)
          ∧ loop_ok queue_id (tail_id q) (callback_ t) (low ++ drop_while (below from_id) (events q)) a
          ∧ remains (tail_id q) (take_while (below from_id) (events q)) low
          ∧ Forall (fun e => event_id e < from_id) low
          ∧ low = (if forget_previous then low else take_while (below from_id) (events q))
          ∧ (forget_previous = true → Forall (fun e => data e = []) low)
          ∧ keeps_last (tail_id q) (callback_ t) (events q) (low ++ drop_while (below from_id) (events q)))
    as (low & a & E & Hl1 & Hr & Hlow & Hnf & Hf & Hk).
  { destruct forget_previous.
    - rewrite <- (app_nil_r (events q)) in Hl.
      destruct (forget_before_ok queue_id (tail_id q) (callback_ t) HT from_id [] (events q) [] _ Hl)
        as (low & a & -> & Hl' & Hr & Hlow & Hk). cbn [app] in Hl', Hk. rewrite !app_nil_r in *.
      exists low, a. split_and!; [done|done|done| |done|intros _|done]; eapply Forall_impl; [exact Hlow| |exact Hlow|]; naive_solver.
    - exists (take_while (below from_id) (events q)). eexists. rewrite take_drop_while. split_and!; [done|exact Hl| | |done|done|done].
      + apply remains_refl.
      + eapply Forall_impl; [apply take_while_Forall|]. unfold below. cbn. intros e He. lia. }
  assert (take_while (below from_id) (low ++ drop_while (below from_id) (events q)) = low) as Etake.
  { clear -Hlow Hfrom. induction Hlow as [|e low He Hlow IH]; cbn [app take_while].
    - destruct (drop_while _ _) as [|e l]; [done|]. apply Forall_cons in Hfrom as [He _]. cbn [take_while].
      unfold below at 1. by replace (event_id e <? from_id) with false by lia.
    - unfold below at 1. replace (event_id e <? from_id) with true by lia. by rewrite IH. }
  assert (drop_while (below from_id) (low ++ drop_while (below from_id) (events q)) = drop_while (below from_id) (events q)) as Edrop.
  { apply (app_inv_head low). rewrite <- Etake at 1. by rewrite take_drop_while. }
  rewrite <- (app_nil_r (low ++ _)), <- (assoc_L (++)) in Hl1.
  destruct (collect_ok queue_id (tail_id q) (callback_ t) HT from_id now n low _ [] a Hl1 Hfrom) as (high & a' & E2 & Hl2 & Hr2 & Hin & Hk2). rewrite !app_nil_r in *.
  exists low, high, a'. split_and!; [|done|done|done|done|done|done|by etrans].
  unfold do_get. cbv zeta. rewrite E. cbn [mbind option_bind]. rewrite Edrop, E2, Etake. done.
Qed.

(** *** Adding an event *)

Lemma emplace_last ev evs : Forall (fun e => event_id e < event_id ev) evs → emplace ev evs = evs ++ [ev].
Proof.
  induction 1 as [|e evs He Hevs IH]; cbn; [done|].
  replace (event_id ev <? event_id e) with false by lia. replace (event_id ev =? event_id e) with false by lia. by rewrite IH.
Qed.

(** The events that stay when a new one comes. *)
Definition filled (evs : list RawEvent) : list RawEvent :=
  match last evs with Some ev => if is_data_empty ev then removelast evs else evs | None => evs end.

Lemma last_split {A} (l : list A) x : last l = Some x → l = removelast l ++ [x].
Proof.
  destruct l as [|y l] using rev_ind; [done|]. rewrite last_snoc, removelast_last. by intros [= ->].
Qed.

(** Without its emptied last event a queue is full of data. *)
Lemma filled_ok T evs : events_ok T evs → Forall (fun e => data e ≠ []) (filled evs).
Proof.
  intros [Hs He]. unfold filled. destruct (last evs) as [ev|] eqn:El; [|by apply last_None in El as ->].
  pose proof (last_split _ _ El) as E. rewrite E in Hs, He. rewrite strongly_sorted_app in Hs. destruct Hs as (_ & _ & Hlt).
  rewrite Forall_app, Forall_singleton in He. destruct He as [He (Hev & _)].
  assert (Forall (fun e => data e ≠ []) (removelast evs)) as Hne.
  { apply Forall_forall. intros e Hin Hd. rewrite Forall_forall in He. destruct (He e Hin) as (_ & _ & _ & Hnext).
    specialize (Hlt e ev Hin ltac:(by apply list_elem_of_here)). unfold id_lt in Hlt. specialize (Hnext Hd). lia. }
  unfold is_data_empty. case_bool_decide as Hd; [done|]. rewrite E. apply Forall_app. split; [done|]. by constructor.
Qed.

Lemma drop_tombstone_ok queue_id T callback0 evs callback :
  callback_ok queue_id callback0 callback evs → events_ok T evs →
  ∃ callback', drop_tombstone evs callback = (filled evs, callback') ∧ callback_ok queue_id callback0 callback' (filled evs)
    ∧ events_ok T (filled evs).
Proof.
  intros Hcb Hok. unfold drop_tombstone, filled. destruct (last evs) as [ev|] eqn:El; [|by exists callback].
  destruct (is_data_empty ev); [|by exists callback].
  pose proof (last_split _ _ El) as E. unfold callback_ok in *.
  destruct callback0 as [s0|], callback as [s|]; try done.
  - rewrite E in Hcb. destruct (mirrors_key _ _ _ _ _ _ Hcb) as (_ & Hpos & _).
    rewrite (proj2 (Z.eqb_neq _ 0)) by lia. eexists. split; [done|].
    apply mirrors_drop in Hcb. rewrite app_nil_r in Hcb. split; [done|].
    rewrite E in Hok. apply events_ok_drop in Hok. by rewrite app_nil_r in Hok.
  - exists None. split_and!; [done|done|]. rewrite E in Hok. apply events_ok_drop in Hok. by rewrite app_nil_r in Hok.
Qed.

Lemma mirrors_push queue_id (s0 s : S) evs ev :
  mirrors queue_id s0 s evs → log_event_id ev = 0 →
  let '(id, s') := cb_push s queue_id ev in mirrors queue_id s0 s' (evs ++ [set_log_event_id id ev]).
Proof.
  intros [Hwf Hst Hev Hoth Hsort Hids] Hz. pose proof (cb_push_new s queue_id ev Hwf Hz) as Hnew.
  pose proof (cb_push_wf s queue_id ev Hwf (or_introl Hz)) as Hwf'. destruct (cb_push s queue_id ev) as [id s']. cbn in Hwf'.
  destruct Hnew as (Hpos & Hgt & Est).
  assert (∀ e, e ∈ evs → log_event_id e < id) as Hlt.
  { intros e He. destruct (Hev e He) as (e' & Hs & _). apply Hgt. eauto. }
  split; [done|..].
  - intros i e. rewrite Est, lookup_insert_Some, elem_of_app. intros [[<- [= <-]]|[_ Hi]].
    + right. by apply list_elem_of_here.
    + left. by apply Hst.
  - intros e [He| ->%list_elem_of_singleton]%elem_of_app; rewrite Est.
    + destruct (Hev e He) as (e' & Hs & E). exists e'. split; [|done]. rewrite lookup_insert_ne; [done|]. specialize (Hlt e He). lia.
    + exists ev. cbn. split; [apply lookup_insert_eq|by destruct ev].
  - intros i qid e Hne. rewrite Est, <- Hoth by done. rewrite lookup_insert_Some. split; [naive_solver|].
    intros E. right. split; [|done]. intros <-. assert (is_Some (cb_stored s !! id)) as Hs by eauto. apply Hgt in Hs. lia.
  - apply strongly_sorted_app. split_and!; [done|by repeat constructor|].
    intros x y Hx ->%list_elem_of_singleton. unfold log_lt. cbn. by apply Hlt.
  - apply Forall_app. split; [done|]. by repeat constructor.
Qed.

Lemma queue_at_ok queue_id t : tqueue_ok t → queue_ok (queue_at queue_id t).
Proof.
  intros [Hq _ _]. unfold queue_at. destruct (queues_ t !! queue_id) as [q|] eqn:E; [by eapply Hq|apply new_queue_ok].
Qed.

Lemma events_snoc_ok T evs ev :
  events_ok T evs → Forall (fun e => data e ≠ []) evs → 0 < event_id ev → T <= event_id ev →
  slen (data ev) <= MAX_EVENT_LENGTH → 0 < expires_at ev → events_ok (event_id ev + 1) (evs ++ [ev]).
Proof.
  intros [Hs He] Hfull Hpos HT Hlen Hexp. rewrite Forall_forall in He. split.
  - apply strongly_sorted_app. split_and!; [done|by repeat constructor|].
    intros x y Hx ->%list_elem_of_singleton. unfold id_lt. destruct (He x Hx) as (? & _). lia.
  - apply Forall_app. split.
    + apply Forall_forall. intros e Hin. rewrite Forall_forall in Hfull. destruct (He e Hin) as (? & ? & ? & _).
      split_and!; [lia|lia|done|done|]. intros Hd. by destruct (Hfull e Hin).
    + apply Forall_singleton. split_and!; [lia|lia|done|done|done].
Qed.

Lemma filled_length evs : slen (filled evs) <= slen evs.
Proof.
  unfold filled. destruct (last evs) as [ev|] eqn:E; [|done]. destruct (is_data_empty ev); [|done].
  rewrite (last_split _ _ E) at 2. rewrite slen_app. unfold slen. cbn. lia.
Qed.

Lemma filled_total evs : total_length (filled evs) = total_length evs.
Proof.
  unfold filled. destruct (last evs) as [ev|] eqn:E; [|done]. unfold is_data_empty. case_bool_decide as Hd; [|done].
  rewrite (last_split _ _ E) at 2. rewrite total_length_app, total_length_cons, Hd. cbn. unfold slen. cbn. lia.
Qed.

Lemma filled_subseteq evs e : e ∈ filled evs → e ∈ evs.
Proof.
  unfold filled. destruct (last evs) as [x|] eqn:E; [|done]. destruct (is_data_empty x); [|done].
  intros Hin. rewrite (last_split _ _ E). apply elem_of_app. by left.
Qed.

(** The callback gives the event an identifier, if it has none. *)
Definition register (queue_id : Z) (ev : RawEvent) (callback : option S) : RawEvent * option S :=
  match callback with
  | Some s =>
      if log_event_id ev =? 0 then let '(id, s) := cb_push s queue_id ev in (set_log_event_id id ev, Some s)
      else (ev, Some s)
  | None => (ev, None)
  end.

Lemma register_ok queue_id callback0 evs callback ev :
  callback_ok queue_id callback0 callback evs → callback = None ∨ log_event_id ev = 0 →
  ∃ id callback', register queue_id ev callback = (set_log_event_id id ev, callback')
    ∧ callback_ok queue_id callback0 callback' (evs ++ [set_log_event_id id ev])
    ∧ (callback = None → id = log_event_id ev ∧ callback' = None).
Proof.
  unfold callback_ok, register. intros Hcb Hlog. destruct callback0 as [s0|], callback as [s|]; try done.
  - destruct Hlog as [?|Hlog]; [done|]. rewrite Hlog. cbn [Z.eqb].
    pose proof (mirrors_push _ _ _ _ ev Hcb Hlog) as Hm. destruct (cb_push s queue_id ev) as [id s'].
    by exists id, (Some s').
  - exists (log_event_id ev), None. split_and!; [by destruct ev|done|done].
Qed.

Definition pushed (queue_id : Z) (ev : RawEvent) (gc : Z) (set : gset (Z * Z)) (callback : option S) (t : tqueue S) : tqueue S :=
  mkTQueue (<[queue_id := mkQueue (event_id ev + 1) (filled (events (queue_at queue_id t)) ++ [ev])
                           (total_length (events (queue_at queue_id t)) + slen (data ev)) gc]> (queues_ t)) set callback.

(** The first event of a queue schedules its collection. *)
Lemma schedule_push_ok queue_id q ev t :
  tqueue_ok t → queues_ t !! queue_id = Some q →
  ∃ gc set', (if bool_decide (filled (events q) = []) && negb (is_data_empty ev)
              then schedule_queue_gc queue_id (set_events (filled (events q)) q) (expires_at ev) (queue_gc_at_ t)
              else Some (set_events (filled (events q)) q, queue_gc_at_ t))
    = Some (set_gc_at gc (set_events (filled (events q)) q), set')
    ∧ (∀ q', gc_at q' = gc → gc_exact (<[queue_id := q']> (queues_ t)) set')
    ∧ (0 < expires_at ev → data ev ≠ [] ∨ filled (events q) ≠ [] → gc ≠ 0).
Proof.
  intros Hok El. destruct (tq_queues _ Hok _ _ El) as [_ Hq]. pose proof (filled_ok _ _ (q_events _ Hq)) as Hfull.
  destruct (bool_decide (filled (events q) = []) && negb (is_data_empty ev)) eqn:Eg.
  - destruct (schedule_ok queue_id q (set_events (filled (events q)) q) (expires_at ev) _ _ (tq_gc _ Hok) El eq_refl)
      as (set' & E & Hset). exists (expires_at ev), set'. split_and!; [done|done|lia].
  - exists (gc_at q), (queue_gc_at_ t). split_and!; [by destruct q| |].
    + intros q' E. eapply gc_exact_insert; [exact (tq_gc _ Hok)|exact El|done].
    + assert (filled (events q) ≠ [] → gc_at q ≠ 0) as Hne2.
      { intros Hn. apply (q_gc _ Hq). destruct (filled (events q)) as [|e l] eqn:Ef; [done|].
        apply Forall_cons in Hfull as [He _]. apply Exists_exists. exists e. split; [|done].
        apply filled_subseteq. rewrite Ef. by left. }
      intros _ [Hd|Hn]; [|by apply Hne2]. apply Hne2. apply andb_false_iff in Eg as [Eg|Eg].
      * by apply bool_decide_eq_false in Eg.
      * unfold is_data_empty in Eg. rewrite bool_decide_eq_false_2 in Eg by done. done.
Qed.

Lemma do_push_ok queue_id ev t :
  tqueue_ok t → queue_id ≠ 0 → 0 < event_id ev → event_id ev + 1 < MAX_ID → 0 < expires_at ev →
  slen (data ev) <= MAX_EVENT_LENGTH → slen (events (queue_at queue_id t)) < MAX_QUEUE_EVENTS →
  total_length (events (queue_at queue_id t)) + slen (data ev) <= MAX_TOTAL_EVENT_LENGTH →
  tail_id (queue_at queue_id t) <= event_id ev → callback_ t = None ∨ log_event_id ev = 0 →
  ∃ id gc set callback,
    do_push queue_id ev t = Some (true, pushed queue_id (set_log_event_id id ev) gc set callback t)
    ∧ tqueue_ok (pushed queue_id (set_log_event_id id ev) gc set callback t)
    ∧ (callback_ t = None → id = log_event_id ev) ∧ (is_Some callback ↔ is_Some (callback_ t)).
Proof.
  intros Hok Hne Hpos Hmax Hexp Hlen Hroom Htot Htail Hlog.
  pose proof (put_queue_ok _ _ Hne Hok) as Hok1. pose proof (queue_at_ok queue_id _ Hok) as Hq.
  set (q := queue_at queue_id t) in *. set (t1 := put_queue queue_id q t) in *.
  assert (queues_ t1 !! queue_id = Some q) as El by apply lookup_insert_eq.
  pose proof (queue_loop_ok _ _ _ Hok1 El) as [Hev _ _ Hcb]. cbn [a_callback] in Hcb.
  unfold do_push, CHECK. unfold id_valid, id_empty, is_valid_id.
  replace (negb (event_id ev =? 0) && ((0 <=? event_id ev) && (event_id ev <? MAX_ID))) with true by lia.
  cbv zeta. replace ((MAX_EVENT_LENGTH <? slen (data ev)) || (queue_id =? 0)) with false by lia. fold q. fold t1.
  rewrite (q_total _ Hq).
  replace ((MAX_QUEUE_EVENTS <=? slen (events q)) || (MAX_TOTAL_EVENT_LENGTH - slen (data ev) <? total_length (events q))
           || (expires_at ev <=? 0)) with false by lia.
  replace (event_id ev <? tail_id q) with false by lia.
  destruct (drop_tombstone_ok _ _ _ _ _ Hcb Hev) as (cb1 & -> & Hcb1 & Hev1). cbn [fst snd].
  pose proof (filled_ok _ _ Hev) as Hfull.
  destruct (schedule_push_ok queue_id q ev t1 Hok1 El) as (gc & set' & -> & Hset & Hgc).
  cbn [mbind option_bind].
  change (match cb1 with
          | Some s => if log_event_id ev =? 0 then let '(id, s0) := cb_push s queue_id ev in (set_log_event_id id ev, Some s0)
                      else (ev, Some s)
          | None => (ev, None) end) with (register queue_id ev cb1).
  assert (callback_ t = None → cb1 = None) as Hnone.
  { intros E. unfold t1 in Hcb1. cbn [put_queue callback_] in Hcb1. rewrite E in Hcb1. by destruct cb1. }
  destruct (register_ok _ _ _ _ ev Hcb1) as (id & cb2 & -> & Hcb2 & Hid); [destruct Hlog as [E|?]; [left; auto|by right]|].
  rewrite next_id_ok by (cbn; lia). cbn [result_value mbind option_bind events set_gc_at set_events total_event_length].
  rewrite emplace_last, (q_total _ Hq).
  2:{ destruct Hev1 as [_ He]. eapply Forall_impl; [exact He|]. intros e (? & _). cbn. lia. }
  pose proof (total_length_nonneg (events q)). pose proof (slen_nonneg (data ev)).
  rewrite wrap_small by (unfold MAX_TOTAL_EVENT_LENGTH in Htot; change (Z.shiftl 1 27) with (2 ^ 27) in Htot; lia).
  exists id, gc, set', cb2.
  assert (mkTQueue (<[queue_id := mkQueue (event_id ev + 1) (filled (events q) ++ [set_log_event_id id ev])
            (total_length (events q) + slen (data ev)) gc]> (queues_ t1)) set' cb2
          = pushed queue_id (set_log_event_id id ev) gc set' cb2 t) as Epush.
  { unfold pushed, t1. cbn [put_queue queues_]. by rewrite insert_insert_eq. }
  split; [by rewrite <- Epush|]. split; [rewrite <- Epush|split; [by intros E; apply Hid, Hnone|by eapply callback_ok_some]].
  split; cbn [queues_ queue_gc_at_ callback_].
  - intros qid q'. rewrite lookup_insert_Some. intros [[<- <-]|[_ ?]]; [|by apply (tq_queues _ Hok1)]. split; [done|].
    pose proof (filled_length (events q)). split; cbn.
    + apply (events_snoc_ok (tail_id q) (filled (events q)) (set_log_event_id id ev)); done.
    + lia.
    + rewrite total_length_app, filled_total, total_length_cons. cbn. lia.
    + rewrite total_length_app, filled_total, total_length_cons, slen_app. change (total_length []) with 0.
      change (slen [set_log_event_id id ev]) with 1. change (data (set_log_event_id id ev)) with (data ev). lia.
    + rewrite Exists_app. intros He. apply Hgc; [done|]. destruct He as [He|He].
      * right. intros E. rewrite E in He. by apply Exists_nil in He.
      * left. by apply Exists_cons in He as [He|He]; [|apply Exists_nil in He].
  - by apply Hset.
  - eapply stored_insert; [exact (tq_stored _ Hok1)|exact Hcb2].
Qed.

(** Identifiers that [push] may start a queue with. *)
Definition id_usable (id : Z) : Prop := 0 < id ∧ id + 1 < MAX_ID.

Lemma id_usable_valid id : id_usable id → id_valid id = true ∧ next_id id = Ok (id + 1).
Proof.
  intros [? ?]. split; [unfold id_valid, id_empty, is_valid_id; lia|]. by apply next_id_ok; lia.
Qed.

(** The queue from which the next identifier is taken. *)
Definition ready_queue (id : Z) (q q' : Queue) : Prop :=
  tail_id q' = id ∧ id_usable id
  ∧ (if tail_id q + 1 =? MAX_ID then events q' = [] ∧ total_event_length q' = 0
     else events q' = events q ∧ total_event_length q' = total_event_length q ∧ (tail_id q ≠ 0 → id = tail_id q)).

Lemma no_events q : queue_ok q → tail_id q = 0 → events q = [].
Proof.
  intros [[_ He] _ _ _ _] E. destruct (events q) as [|e l]; [done|]. apply Forall_cons in He as [(? & _) _]. lia.
Qed.

Lemma with_queue_ok queue_id q q' callback t :
  tqueue_ok t → queues_ t !! queue_id = Some q → queue_ok q' → gc_at q' = gc_at q →
  callback_ok queue_id (callback_ t) callback (events q') →
  tqueue_ok (mkTQueue (<[queue_id := q']> (queues_ t)) (queue_gc_at_ t) callback).
Proof.
  intros Hok El Hq' Eg Hcb. destruct (tq_queues _ Hok _ _ El) as [Hne _]. split; cbn.
  - intros qid q0. rewrite lookup_insert_Some. intros [[<- <-]|[_ ?]]; [done|by apply (tq_queues _ Hok)].
  - by eapply gc_exact_insert; [apply (tq_gc _ Hok)|..].
  - eapply stored_insert; [apply (tq_stored _ Hok)|done].
Qed.

Lemma queue_callback_ok queue_id q t :
  tqueue_ok t → queues_ t !! queue_id = Some q → callback_ok queue_id (callback_ t) (callback_ t) (events q).
Proof. intros Hok El. by apply (queue_loop_ok _ _ _ Hok El). Qed.

(** A round of the loop that starts with an identifier to use. *)
Lemma find_id_now fuel random hint queue_id q (callback : option S) :
  (if id_empty (tail_id q) then id_usable (if id_empty hint then random fuel else hint) else id_usable (tail_id q)) →
  ∃ id, find_id (Datatypes.S fuel) random hint queue_id q callback = Some (id, set_tail_id id q, callback)
    ∧ id_usable id ∧ (tail_id q ≠ 0 → id = tail_id q).
Proof.
  intros Hu. cbn [find_id]. cbv zeta. unfold id_empty in *. destruct (Z.eqb_spec (tail_id q) 0) as [Ez|Enz].
  - eexists. cbn [tail_id set_tail_id]. destruct (id_usable_valid _ Hu) as [-> ->]. split_and!; [done|done|done].
  - exists (tail_id q). destruct (id_usable_valid _ Hu) as [-> ->]. split_and!; [by destruct q|done|done].
Qed.

(** A round that empties a queue whose identifiers are used up. *)
Lemma find_id_full fuel random hint queue_id q (callback : option S) :
  tail_id q + 1 = MAX_ID →
  find_id (Datatypes.S fuel) random hint queue_id q callback =
  ('(evs, a) ← pop_each queue_id 0 (events q) (mkAccount (total_event_length q) callback);
   match next_id hint with
   | Ok _ => find_id fuel random hint queue_id (mkQueue 0 evs (a_total a) (gc_at q)) (a_callback a)
   | Err _ _ => None
   end).
Proof.
  intros Emax. cbn [find_id]. cbv zeta. assert (id_empty (tail_id q) = false) as -> by (unfold id_empty, MAX_ID in *; lia).
  assert (id_valid (tail_id q) = true) as -> by (unfold id_valid, id_empty, is_valid_id, MAX_ID in *; lia). cbn [CHECK].
  unfold next_id at 1, from_int32, is_valid_id. by replace ((0 <=? tail_id q + 1) && (tail_id q + 1 <? MAX_ID)) with false by lia.
Qed.

Lemma find_id_ok random hint queue_id q t :
  tqueue_ok t → queues_ t !! queue_id = Some q → (∀ n, id_usable (random n)) → hint = 0 ∨ id_usable hint →
  ∃ id q' callback, find_id 2 random hint queue_id q (callback_ t) = Some (id, q', callback) ∧ ready_queue id q q'
    ∧ tqueue_ok (mkTQueue (<[queue_id := q']> (queues_ t)) (queue_gc_at_ t) callback)
    ∧ (is_Some callback ↔ is_Some (callback_ t)).
Proof.
  intros Hok El Hr Hh. destruct (tq_queues _ Hok _ _ El) as [Hne Hq]. pose proof (q_tail _ Hq) as Ht.
  assert (∀ n, id_usable (if id_empty hint then random n else hint)) as Hstart.
  { intros n. unfold id_empty. destruct (Z.eqb_spec hint 0); [apply Hr|]. by destruct Hh. }
  pose proof (queue_callback_ok _ _ _ Hok El) as Hcb. destruct (decide (tail_id q + 1 = MAX_ID)) as [Emax|Emax].
  - pose proof (find_id_full 1 random hint queue_id q (callback_ t) Emax) as Ef.
    pose proof (queue_loop_ok _ _ _ Hok El) as Hl. rewrite <- (app_nil_r (events q)) in Hl.
    destruct (pop_each_ok queue_id (tail_id q) (callback_ t) ltac:(lia) 0 [] (events q) [] _ (or_intror eq_refl) Hl)
      as (kept & a & Ep & Hl' & _ & Hnil). rewrite (Hnil eq_refl) in Ep, Hl'. rewrite Ep in Ef. cbn [mbind option_bind app] in *.
    assert (is_Some (result_value (next_id hint))) as [n Hn].
    { destruct Hh as [->|Hu]; [by eexists|]. destruct (id_usable_valid _ Hu) as [_ ->]. by eexists. }
    destruct (next_id hint) as [n'|]; [|done].
    destruct (find_id_now 0 random hint queue_id (mkQueue 0 [] (a_total a) (gc_at q)) (a_callback a)) as (id & E & Hu & _);
      [apply Hstart|]. rewrite E in Ef. exists id. eexists _, _. split; [exact Ef|]. destruct Hl' as [_ Htot _ Hcb'].
    cbn in Htot. split.
    + split_and!; [done|apply Hu..|]. by rewrite (proj2 (Z.eqb_eq _ _) Emax).
    + split; [|by eapply callback_ok_some]. eapply with_queue_ok; [exact Hok|exact El| |done|exact Hcb']. destruct Hu. split; cbn; try done.
      * split; [constructor|done].
      * lia.
      * by intros ?%Exists_nil.
  - destruct (find_id_now 1 random hint queue_id q (callback_ t)) as (id & E & Hu & Hid).
    { unfold id_empty. destruct (Z.eqb_spec (tail_id q) 0); [apply Hstart|]. split; lia. }
    exists id, (set_tail_id id q), (callback_ t). split; [exact E|]. split.
    + split_and!; [done|apply Hu..|]. by rewrite (proj2 (Z.eqb_neq _ _) Emax).
    + split; [|done]. eapply with_queue_ok; [exact Hok|exact El| |done|exact Hcb]. destruct (decide (tail_id q = 0)) as [Ez|Enz].
      * pose proof (no_events _ Hq Ez) as Ee. destruct Hq as [Hev _ Htot Hroom Hgc], Hu. rewrite Ee in *.
        split; cbn; rewrite ?Ee; try done; [|lia]. split; [constructor|done].
      * rewrite (Hid Enz). by destruct q.
Qed.

(** What [push] asks of an event and of its queue. *)
Record push_allowed (queue_id : Z) (new_data : slice) (expires : Z) (q : Queue) : Prop := {
  pa_data : new_data ≠ [] ∧ slen new_data <= MAX_EVENT_LENGTH;
  pa_queue : queue_id ≠ 0;
  pa_room : slen (events q) < MAX_QUEUE_EVENTS ∧ total_length (events q) + slen new_data <= MAX_TOTAL_EVENT_LENGTH;
  pa_expires : 0 < expires;
}.

Lemma queue_at_put queue_id q t : queue_at queue_id (put_queue queue_id q t : tqueue S) = q.
Proof. unfold queue_at. cbn. by rewrite lookup_insert_eq. Qed.

Lemma put_queue_step queue_id t :
  queue_id ≠ 0 → tqueue_ok t → step_ok queue_id t (put_queue queue_id (queue_at queue_id t) t).
Proof.
  intros Hne Hok. assert (∀ queue_id', queue_id' ≠ queue_id →
    queues_ (put_queue queue_id (queue_at queue_id t) t) !! queue_id' = queues_ t !! queue_id') as Ho.
  { intros qid Hn. cbn. by rewrite lookup_insert_ne. }
  split; [by apply put_queue_ok|done|done|]. apply (tails_step queue_id); [done|done|].
  intros Ht Hc. rewrite queue_at_put. by apply queue_at_anchored.
Qed.

Lemma do_push_new queue_id id new_data expires new_extra q t :
  tqueue_ok t → queues_ t !! queue_id = Some q → push_allowed queue_id new_data expires q → tail_id q = id → id_usable id →
  ∃ lid t', do_push queue_id (mkRawEvent 0 id expires new_data new_extra) t = Some (true, t') ∧ tqueue_ok t'
    ∧ (is_Some (callback_ t') ↔ is_Some (callback_ t))
    ∧ (∀ queue_id', queue_id' ≠ queue_id → queues_ t' !! queue_id' = queues_ t !! queue_id')
    ∧ tail_id (queue_at queue_id t') = id + 1
    ∧ events (queue_at queue_id t') = filled (events q) ++ [mkRawEvent lid id expires new_data new_extra].
Proof.
  intros Hok El [[Hd Hlen] Hne [Hr1 Hr2] Hexp] <- [Hpos Hmax].
  assert (queue_at queue_id t = q) as Eq by (unfold queue_at; by rewrite El).
  destruct (do_push_ok queue_id (mkRawEvent 0 (tail_id q) expires new_data new_extra) t) as (lid & gc & set & cb & E & Hok' & _ & Hcb);
    rewrite ?Eq; try done; [by right|].
  exists lid. eexists. split; [exact E|]. unfold pushed in *. rewrite Eq in *. unfold queue_at. cbn.
  split_and!; [done|done| |by rewrite lookup_insert_eq..]. intros qid Hn. by rewrite lookup_insert_ne.
Qed.

Lemma push_ok random queue_id new_data expires new_extra hint t :
  tqueue_ok t → (∀ n, id_usable (random n)) → hint = 0 ∨ id_usable hint →
  ∃ r t', push random queue_id new_data expires new_extra hint t = Some (r, t') ∧ step_ok queue_id t t'
    ∧ match r with
      | Err _ _ => ¬ push_allowed queue_id new_data expires (queue_at queue_id t)
                   ∧ queue_at queue_id t' = queue_at queue_id t
      | Ok id =>
          push_allowed queue_id new_data expires (queue_at queue_id t)
          ∧ tail_id (queue_at queue_id t') = id + 1 ∧ id_usable id
          ∧ if tail_id (queue_at queue_id t) + 1 =? MAX_ID then
              ∃ lid, events (queue_at queue_id t') = [mkRawEvent lid id expires new_data new_extra]
            else (tail_id (queue_at queue_id t) ≠ 0 → id = tail_id (queue_at queue_id t))
                 ∧ ∃ lid, events (queue_at queue_id t')
                          = filled (events (queue_at queue_id t)) ++ [mkRawEvent lid id expires new_data new_extra]
      end.
Proof.
  intros Hok Hr Hh. unfold push. case_bool_decide as Hd.
  { exists (Err 0 (lit "Data is empty")), t. split; [done|]. split; [by apply step_ok_refl|]. split; [|done]. by intros [[? _] _ _ _]. }
  destruct (Z.ltb_spec MAX_EVENT_LENGTH (slen new_data)) as [Hlen|Hlen].
  { exists (Err 0 (lit "Data is too big")), t. split; [done|]. split; [by apply step_ok_refl|]. split; [|done]. intros [[_ ?] _ _ _]. lia. }
  destruct (Z.eqb_spec queue_id 0) as [->|Hne].
  { exists (Err 0 (lit "Queue identifier is invalid")), t. split; [done|]. split; [by apply step_ok_refl|]. split; [|done]. by intros [_ ? _ _]. }
  cbv zeta. pose proof (queue_at_ok queue_id _ Hok) as Hq. pose proof (put_queue_ok _ _ Hne Hok) as Hok1.
  set (q := queue_at queue_id t) in *. set (t1 := put_queue queue_id q t) in *.
  assert (queue_at queue_id t1 = q) as Eq by apply queue_at_put.
  assert (step_ok queue_id t t1) as Hstep by (by apply put_queue_step).
  rewrite (q_total _ Hq). destruct (Z.leb_spec MAX_QUEUE_EVENTS (slen (events q))) as [Hroom|Hroom].
  { exists (Err 0 (lit "Queue is full")), t1. split; [done|]. split; [done|]. split; [|done]. intros [_ _ [? _] _]. lia. }
  destruct (Z.ltb_spec (MAX_TOTAL_EVENT_LENGTH - slen new_data) (total_length (events q))) as [Htot|Htot].
  { exists (Err 0 (lit "Queue size is too big")), t1. split; [done|]. split; [done|]. split; [|done]. intros [_ _ [_ ?] _]. lia. }
  destruct (Z.leb_spec expires 0) as [Hexp|Hexp].
  { exists (Err 0 (lit "Failed to add already expired event")), t1. split; [done|]. split; [done|]. split; [|done].
    intros [_ _ _ ?]. lia. }
  assert (queues_ t1 !! queue_id = Some q) as El by apply lookup_insert_eq.
  destruct (find_id_ok random hint queue_id q t1 Hok1 El Hr Hh) as (id & q' & cb & E & Hready & Hok2 & Hcb2).
  rewrite E. cbn [mbind option_bind].
  set (t2 := mkTQueue _ _ cb) in *. assert (queues_ t2 !! queue_id = Some q') as El2 by apply lookup_insert_eq.
  destruct Hready as (Ht' & Hu & Hev).
  assert (push_allowed queue_id new_data expires q) as Hallow by (split; [done|done|lia|lia]).
  assert (push_allowed queue_id new_data expires q') as Hallow'.
  { split; [done|done| |lia]. destruct (tail_id q + 1 =? MAX_ID).
    - destruct Hev as [-> _]. unfold slen, MAX_QUEUE_EVENTS, MAX_TOTAL_EVENT_LENGTH, MAX_EVENT_LENGTH in *. cbn.
      change (Z.shiftl 1 27) with 134217728. lia.
    - destruct Hev as (-> & _). lia. }
  destruct (do_push_new queue_id id new_data expires new_extra q' t2 Hok2 El2 Hallow' Ht' Hu)
    as (lid & t3 & -> & Hok3 & Hcb3 & Hoth3 & Htail & Hevs). cbn [mbind option_bind CHECK].
  exists (Ok id), t3. split; [done|]. split.
  - assert (is_Some (callback_ t3) ↔ is_Some (callback_ t)) as Hc by (rewrite Hcb3; apply Hcb2).
    split; [done| |done|].
    + intros qid Hn. rewrite Hoth3 by done. cbn. by rewrite !lookup_insert_ne by done.
    + apply (tails_step queue_id); [|by apply Hc|].
      * intros qid Hn. rewrite Hoth3 by done. cbn. by rewrite !lookup_insert_ne by done.
      * intros _ _. rewrite Hevs, Htail. apply anchored_snoc. done.
  - split_and!; [done|done|apply Hu..|]. destruct (tail_id q + 1 =? MAX_ID).
    + destruct Hev as [Ee _]. exists lid. by rewrite Hevs, Ee.
    + destruct Hev as (Ee & _ & Hid). split; [done|]. exists lid. by rewrite Hevs, Ee.
Qed.

(** *** Reading *)

Lemma from_filter from_id now evs :
  StronglySorted id_lt evs →
  alive now (drop_while (below from_id) evs) = List.filter (fun ev => (from_id <=? event_id ev) && negb (is_dead now ev)) evs.
Proof.
  induction evs as [|ev evs IH]; [done|]. intros [Hs Hf]%StronglySorted_inv. cbn [drop_while List.filter].
  unfold below at 1. destruct (Z.ltb_spec (event_id ev) from_id) as [Hlt|Hge].
  - replace (from_id <=? event_id ev) with false by lia. cbn [andb]. by apply IH.
  - replace (from_id <=? event_id ev) with true by lia. unfold alive. cbn [List.filter andb].
    assert (List.filter (fun e => negb (is_dead now e)) evs
            = List.filter (fun e => (from_id <=? event_id e) && negb (is_dead now e)) evs) as ->; [|done].
    apply filter_ext_in. intros e He%list_elem_of_In. rewrite Forall_forall in Hf. specialize (Hf e He). unfold id_lt in Hf.
    by replace (from_id <=? event_id e) with true by lia.
Qed.

(** The identifiers that [get] accepts. *)
Definition get_range (from_id : Z) (q : Queue) : Prop :=
  get_queue_head q - MAX_QUEUE_EVENTS <= from_id <= tail_id q + 10.

Lemma head_in_range queue_id t : tqueue_ok t → get_range (get_head queue_id t) (queue_at queue_id t).
Proof.
  intros Hok. pose proof (queue_at_ok queue_id t Hok) as Hq.
  assert (get_head queue_id t = get_queue_head (queue_at queue_id t)) as ->.
  { unfold get_head, queue_at. by destruct (queues_ t !! queue_id). }
  unfold get_range, get_queue_head, MAX_QUEUE_EVENTS. destruct (events _) as [|ev evs] eqn:E; [lia|].
  pose proof (evs_each _ _ (q_events _ Hq)) as Hev. rewrite E in Hev. apply Forall_cons in Hev as [(Hid & _) _]. lia.
Qed.

Lemma get_ok queue_id from_id forget_previous now n t :
  tqueue_ok t →
  ∃ r out t', get queue_id from_id forget_previous now n t = Some (r, out, t') ∧ step_ok queue_id t t'
    ∧ match r with
      | Err _ _ => out = [] ∧ t' = t ∧ ¬ get_range from_id (queue_at queue_id t)
      | Ok size =>
          let evs := events (queue_at queue_id t) in
          let evs' := events (queue_at queue_id t') in
          size = get_size_of (queue_at queue_id t') ∧ tail_id (queue_at queue_id t') = tail_id (queue_at queue_id t)
          ∧ out = take n (event_of <$> List.filter (fun ev => (from_id <=? event_id ev) && negb (is_dead now ev)) evs)
          ∧ (∀ e, e ∈ evs' → e ∈ evs ∨ data e = [] ∧ event_id e + 1 = tail_id (queue_at queue_id t))
          ∧ (∀ e, e ∈ evs → is_dead now e = false → (forget_previous = true → from_id <= event_id e) → e ∈ evs')
          ∧ (forget_previous = true → ∀ e, e ∈ evs' → event_id e < from_id → data e = [])
      end.
Proof.
  intros Hok. unfold get. destruct (queues_ t !! queue_id) as [q|] eqn:El.
  2:{ eexists (Ok 0), [], t. split; [done|]. split; [by apply step_ok_refl|]. unfold queue_at. rewrite El. cbn.
      split_and!; [done|done|by destruct n|by left|done|set_solver]. }
  assert (queue_at queue_id t = q) as Eqt by (unfold queue_at; by rewrite El). rewrite Eqt.
  destruct (Z.ltb_spec (tail_id q + 10) from_id).
  { eexists (Err 0 _), [], t. split; [done|]. split; [by apply step_ok_refl|]. unfold get_range. split_and!; [done|done|lia]. }
  destruct (Z.ltb_spec from_id (get_queue_head q - MAX_QUEUE_EVENTS)).
  { eexists (Err 0 _), [], t. split; [done|]. split; [by apply step_ok_refl|]. unfold get_range. split_and!; [done|done|lia]. }
  destruct (do_get_ok queue_id q from_id forget_previous now n t Hok El) as (low & high & a & -> & Hl & Hr1 & Hr2 & Hnf & Hf & Hin & Hk).
  cbn [mbind option_bind]. eexists (Ok _), _, _. split; [done|].
  assert (queue_at queue_id (put_back queue_id q (low ++ high) a t) = mkQueue (tail_id q) (low ++ high) (a_total a) (gc_at q)) as Eq.
  { unfold queue_at. cbn. by rewrite lookup_insert_eq. }
  destruct (tq_queues _ Hok _ _ El) as [_ Hq]. pose proof (evs_sorted _ _ (q_events _ Hq)) as Hsorted.
  split.
  { eapply put_back_step; [done|done|done| |done]. rewrite <- (take_drop_while (below from_id) (events q)). by apply remains_app. }
  rewrite Eq. cbn [events tail_id]. split_and!; [done|done|by rewrite from_filter| | |].
  - intros e [He|He]%elem_of_app.
    + apply (remains_elem _ _ _ _ Hr1) in He as [He|?]; [left|by right].
      rewrite <- (take_drop_while (below from_id) (events q)). apply elem_of_app. by left.
    + apply (remains_elem _ _ _ _ Hr2) in He as [He|?]; [left|by right].
      rewrite <- (take_drop_while (below from_id) (events q)). apply elem_of_app. by right.
  - intros e He Hd Hge. rewrite <- (take_drop_while (below from_id) (events q)) in He.
    apply elem_of_app in He as [He|He]; apply elem_of_app; [left|right; by apply Hin].
    destruct forget_previous; [|by rewrite Hnf]. specialize (Hge eq_refl).
    pose proof (take_while_Forall (below from_id) (events q)) as Htw. rewrite Forall_forall in Htw.
    specialize (Htw e He). unfold below in Htw. cbn in Htw. lia.
  - intros Hfp e [He|He]%elem_of_app Hlt.
    + specialize (Hf Hfp). rewrite Forall_forall in Hf. by apply Hf.
    + apply (remains_elem _ _ _ _ Hr2) in He as [He|[? _]]; [|done].
      pose proof (sorted_from from_id _ Hsorted) as Hs. rewrite Forall_forall in Hs. specialize (Hs e He). lia.
Qed.
End State.
