(* ===== verification/TQueueLife.v ===== *)
(** * The life of the update queue

    Clearing a queue, the garbage collection, runs of operations on all the
    queues, and the restart that reads the storage back. *)

From stdpp Require Import gmap sorting.
From S2P Require Import Prelude Slices Integers TQueue.

#[local] Arguments lit : simpl never.

Section Clear.
Context {S : Type} `{StorageLaws S}.

(** ** Clearing *)

Lemma foldl_delete_lookup {A} (m : gmap Z A) ids id x :
  (foldl (fun m id => delete id m) m ids) !! id = Some x ↔ (id ∉ ids) ∧ m !! id = Some x.
Proof.
  revert m. induction ids as [|i ids IH]; intros m; cbn; [set_solver|].
  rewrite IH, lookup_delete_Some, not_elem_of_cons. naive_solver.
Qed.

Lemma mirrors_batch queue_id (s0 s : S) deleted post :
  mirrors queue_id s0 s (deleted ++ post) → mirrors queue_id s0 (cb_pop_batch s (log_event_id <$> deleted)) post.
Proof.
  intros [Hwf Hst Hev Hoth Hsort Hids]. apply strongly_sorted_app in Hsort as (Hsd & Hsp & Hlt).
  assert (∀ e, e ∈ post → log_event_id e ∉ log_event_id <$> deleted) as Hfresh.
  { intros e He (d & E & Hd)%list_elem_of_fmap. specialize (Hlt d e Hd He). unfold log_lt in Hlt. lia. }
  apply Forall_app in Hids as [_ Hids]. split; [by apply cb_pop_batch_wf| | | |done|done].
  - intros id ev. rewrite cb_pop_batch_stored, foldl_delete_lookup by done. intros [Hn Hs].
    destruct (elem_of_app deleted post (set_log_event_id id ev)) as [Happ _]. destruct (Happ (Hst _ _ Hs)) as [Hin|Hin]; [|done].
    exfalso. apply Hn. by apply (list_elem_of_fmap_2 log_event_id) in Hin.
  - intros e He. destruct (Hev e) as (ev & Hs & E); [apply elem_of_app; by right|]. exists ev. split; [|done].
    rewrite cb_pop_batch_stored by done. apply foldl_delete_lookup. auto.
  - intros id qid ev Hne. rewrite cb_pop_batch_stored, foldl_delete_lookup, <- Hoth by done. split; [tauto|].
    intros Hs. split; [|done]. intros (d & -> & Hd)%list_elem_of_fmap.
    destruct (Hev d) as (ev' & Hs' & _); [apply elem_of_app; by left|]. congruence.
Qed.

Lemma positive_ids queue_id (s0 s : S) deleted post :
  mirrors queue_id s0 s (deleted ++ post) →
  List.filter (fun id => negb (id =? 0)) (log_event_id <$> deleted) = log_event_id <$> deleted.
Proof.
  intros [_ _ _ _ _ Hids]. apply Forall_app in Hids as [Hids _]. induction Hids as [|e l He Hl IH]; [done|]. cbn.
  by rewrite IH, (proj2 (Z.eqb_neq _ 0)) by lia.
Qed.

Lemma foldl_sub_length deleted post :
  total_length (deleted ++ post) <= MAX_TOTAL_EVENT_LENGTH →
  foldl sub_length (total_length (deleted ++ post)) deleted = total_length post.
Proof.
  induction deleted as [|e deleted IH]; [done|]. intros Hroom. cbn [foldl].
  change ((e :: deleted) ++ post) with ([] ++ e :: (deleted ++ post)) in *. rewrite sub_length_ok by done. cbn [app] in *.
  apply IH. pose proof (total_length_drop [] e (deleted ++ post)) as Hd. cbn [app] in Hd. lia.
Qed.

Lemma events_ok_suffix T deleted post : events_ok T (deleted ++ post) → events_ok T post.
Proof. intros [Hs He]. rewrite strongly_sorted_app in Hs. rewrite Forall_app in He. split; tauto. Qed.

Lemma remains_suffix T deleted post : remains T (deleted ++ post) post.
Proof. induction deleted; [apply remains_refl|by apply rem_drop]. Qed.

(** The last part of [clear], from the events that are deleted. *)
Lemma clear_part_ok queue_id T callback0 deleted rest callback (quick : bool) :
  loop_ok queue_id T callback0 (deleted ++ rest) (mkAccount (total_length (deleted ++ rest)) callback) →
  loop_ok queue_id T callback0 rest
    (mkAccount (if quick then foldl sub_length (total_length (deleted ++ rest)) deleted else total_length rest)
       ((fun s => cb_pop_batch s (List.filter (fun id => negb (id =? 0)) (log_event_id <$> deleted))) <$> callback)).
Proof.
  intros [Hev _ Hroom Hcb]. cbn in Hcb. split; cbn.
  - by eapply events_ok_suffix.
  - destruct quick; [|done]. by apply foldl_sub_length.
  - rewrite total_length_app in Hroom. pose proof (total_length_nonneg deleted). lia.
  - unfold callback_ok in *. destruct callback0 as [s0|], callback as [s|]; try done. cbn.
    rewrite (positive_ids _ _ _ _ _ Hcb). by apply mirrors_batch.
Qed.

Lemma keeps_last_suffix T (callback0 : option S) pre post : post ≠ [] → keeps_last T callback0 (pre ++ post) post.
Proof. intros Hne _. destruct post; [done|]. by rewrite anchored_app. Qed.

(** What [clear] does to a queue that has more events than it keeps. *)
Lemma clear_split queue_id k q evs deleted rest callback t :
  tqueue_ok t → queues_ t !! queue_id = Some q →
  loop_ok queue_id (tail_id q) (callback_ t) evs (mkAccount (total_length evs) callback) →
  remains (tail_id q) (events q) evs → keeps_last (tail_id q) (callback_ t) (events q) rest →
  evs = deleted ++ rest →
  step_ok queue_id t
    (put_back queue_id q rest
       (mkAccount (if Z.quot (get_size_of q) 2 <? Z.of_nat k then foldl sub_length (total_length evs) deleted else total_length rest)
          ((fun s => cb_pop_batch s (List.filter (fun id => negb (id =? 0)) (log_event_id <$> deleted))) <$> callback)) t).
Proof.
  intros Hok El Hl Hr Hk ->. apply put_back_step; [done|done|by apply clear_part_ok| |done].
  eapply remains_trans; [exact Hr|apply remains_suffix].
Qed.

Lemma remains_last T pre ev : event_id ev + 1 = T → remains T (pre ++ [ev]) (pre ++ [set_data [] ev]).
Proof. intros Hn. apply remains_app; [apply remains_refl|]. apply rem_clear; [constructor|done]. Qed.

Lemma size_not_empty q : get_size_of q <> 0 → ∃ pre ev, events q = pre ++ [ev].
Proof.
  unfold get_size_of. destruct (events q) as [|ev pre _] using rev_ind; [done|]. by exists pre, ev.
Qed.

Lemma size_le_length q : get_size_of q <= slen (events q).
Proof. unfold get_size_of. destruct (last (events q)); [destruct (is_data_empty _)|pose proof (slen_nonneg (events q))]; lia. Qed.

(** Emptying the last event is [pop] of it. *)
Lemma clear_last_ok queue_id q pre ev s t :
  tqueue_ok t → tails_ok t → queues_ t !! queue_id = Some q → events q = pre ++ [ev] → callback_ t = Some s →
  (log_event_id ev =? 0) = false
  ∧ ∃ total callback,
      (if negb (is_data_empty ev)
       then (pre ++ [set_data [] ev], sub_length (total_length (events q)) ev, Some (cb_push s queue_id (set_data [] ev)).2)
       else (pre ++ [ev], total_length (events q), Some s))
      = (pre ++ [set_data [] ev], total, callback)
      ∧ loop_ok queue_id (tail_id q) (callback_ t) (pre ++ [set_data [] ev]) (mkAccount total callback).
Proof.
  intros Hok Ht El E Ec. pose proof (queue_loop_ok _ _ _ Hok El) as Hl. destruct (tq_queues _ Hok _ _ El) as [_ Hq].
  assert (event_id ev + 1 = tail_id q) as Hnext.
  { specialize (Ht ltac:(eauto) _ _ El). by rewrite E, anchored_snoc in Ht. }
  rewrite E in Hl. pose proof (lo_callback _ _ _ _ _ Hl) as Hcb. cbn [a_callback] in Hcb. unfold callback_ok in Hcb.
  rewrite Ec in Hcb. destruct (mirrors_key _ _ _ _ _ _ Hcb) as (_ & Hpos & _).
  assert ((log_event_id ev =? 0) = false) as Ez by lia. split; [done|].
  pose proof (loop_ok_id _ _ _ _ _ _ _ Hl) as Hid. pose proof (q_tail _ Hq) as HT.
  destruct (pop_ok queue_id (tail_id q) (callback_ t) ltac:(lia) pre ev [] (tail_id q) _ (or_introl eq_refl) Hl)
    as (kept & a' & Ep & Hl' & Hk & _).
  unfold pop in Ep. cbn [a_callback a_total] in Ep. rewrite Ec, Ez, next_id_ok, (proj2 (Z.eqb_eq _ _) Hnext) in Ep by lia.
  rewrite (q_total _ Hq) in Ep.
  destruct (is_data_empty ev) eqn:Ed; cbn [negb]; injection Ep as <- <-.
  - assert (set_data [] ev = ev) as ->.
    { apply bool_decide_eq_true in Ed. destruct ev. cbn in *. by subst. }
    rewrite E. eexists _, _. split; [done|]. by rewrite app_nil_r, Ec, (q_total _ Hq), E in *.
  - eexists _, _. split; [done|]. cbn [app] in Hl'. by rewrite E in *.
Qed.

Lemma clear_ok queue_id k t :
  tqueue_ok t → tails_ok t →
  let q := queue_at queue_id t in
  let '(deleted, t') := clear queue_id k t in
  let q' := queue_at queue_id t' in
  step_ok queue_id t t' ∧ tail_id q' = tail_id q
  ∧ if get_size_of q <=? Z.of_nat k then deleted = [] ∧ t' = t
    else match k, callback_ t with
         | O, Some _ => ∃ pre ev, events q = pre ++ [ev] ∧ deleted = pre ∧ events q' = [set_data [] ev]
         | O, None => deleted = events q ∧ events q' = []
         | _, _ => deleted = take (length (events q) - k) (events q) ∧ events q' = drop (length (events q) - k) (events q)
         end.
Proof.
  intros Hok Ht. unfold clear. cbv zeta. destruct (queues_ t !! queue_id) as [q|] eqn:El.
  2:{ split; [by apply step_ok_refl|]. split; [done|]. unfold queue_at. rewrite El. cbn [default].
      change (get_size_of new_queue) with 0. by rewrite (proj2 (Z.leb_le 0 (Z.of_nat k))) by lia. }
  assert (queue_at queue_id t = q) as -> by (unfold queue_at; by rewrite El).
  destruct (Z.leb_spec (get_size_of q) (Z.of_nat k)) as [Hle|Hlt].
  { split; [by apply step_ok_refl|]. split; [|done]. unfold queue_at. by rewrite El. }
  pose proof (queue_loop_ok _ _ _ Hok El) as Hl. destruct (tq_queues _ Hok _ _ El) as [_ Hq].
  rewrite (q_total _ Hq) in *.
  assert (∀ rest a, queue_at queue_id (put_back queue_id q rest a t) = mkQueue (tail_id q) rest (a_total a) (gc_at q)) as Eq'.
  { intros rest a. unfold queue_at. cbn. by rewrite lookup_insert_eq. }
  destruct k as [|k].
  - destruct (size_not_empty q ltac:(lia)) as (pre & ev & E). rewrite E, last_snoc, removelast_last.
    destruct (callback_ t) as [s|] eqn:Ec.
    + destruct (clear_last_ok _ _ _ _ _ _ Hok Ht El E Ec) as (-> & total & cb & Ecl & Hl').
      match goal with |- context [if negb (is_data_empty ev) then ?v1 else ?v2] =>
        assert ((if negb (is_data_empty ev) then v1 else v2) = (length pre, pre ++ [set_data [] ev], total_length (pre ++ [set_data [] ev]), cb)) as ->
      end.
      { pose proof (lo_total _ _ _ _ _ Hl') as Htot. cbn in Htot. rewrite E in Ecl. subst total.
        rewrite length_app, Nat.add_1_r. cbn [Nat.pred].
        destruct (is_data_empty ev); cbn [negb] in *; congruence. }
      rewrite take_app_length, drop_app_length, Eq'. split; [|split; [done|by exists pre, ev]].
      pose proof (lo_total _ _ _ _ _ Hl') as Htot. cbn in Htot. subst total.
      eapply (clear_split _ O); [done|done|exact Hl'| | |done].
      * rewrite E. apply remains_last. apply (Ht ltac:(eauto)) in El. by rewrite E, anchored_snoc in El.
      * rewrite E. etrans; [apply keeps_last_suffix; done|]. intros _. unfold anchored. done.
    + rewrite take_ge, drop_ge by done. rewrite Eq'. split; [|done]. rewrite <- E.
      eapply (clear_split _ O _ (events q) (events q) []); [done|done|by rewrite Ec|apply remains_refl| |by rewrite app_nil_r].
      rewrite Ec. by intros [? ?].
  - rewrite Eq'. split; [|done].
    eapply clear_split; [done|done|exact Hl|apply remains_refl| |by rewrite take_drop].
    rewrite <- (take_drop (length (events q) - Datatypes.S k) (events q)) at 1. apply keeps_last_suffix.
    intros Hd%(f_equal length). rewrite length_drop in Hd. cbn in Hd.
    pose proof (size_le_length q). unfold slen in *. lia.
Qed.
End Clear.

(** ** Sizes *)

Lemma filled_filter T evs : events_ok T evs → filled evs = List.filter (fun e => negb (is_data_empty e)) evs.
Proof.
  intros Hok. pose proof (filled_ok _ _ Hok) as Hf. unfold filled in *.
  assert (∀ l, Forall (fun e => data e ≠ []) l → List.filter (fun e => negb (is_data_empty e)) l = l) as Hall.
  { induction 1 as [|e l He _ IH]; [done|]. cbn. unfold is_data_empty at 1. rewrite bool_decide_eq_false_2 by done. cbn. by rewrite IH. }
  destruct (last evs) as [ev|] eqn:El; [|by rewrite Hall]. destruct (is_data_empty ev) eqn:Ed; [|by rewrite Hall].
  rewrite (last_split _ _ El) at 2. rewrite List.filter_app, Hall by done. cbn. by rewrite Ed, app_nil_r.
Qed.

(** The size of a queue is the number of its events that have data. *)
Lemma get_size_filled q : get_size_of q = slen (filled (events q)).
Proof.
  unfold get_size_of, filled. destruct (last (events q)) as [ev|] eqn:El; [|by apply last_None in El as ->].
  destruct (is_data_empty ev); [|lia]. rewrite (last_split _ _ El) at 1. rewrite slen_app. unfold slen. cbn. lia.
Qed.

Lemma remains_size T evs evs' :
  remains T evs evs' →
  (length (List.filter (fun e => negb (is_data_empty e)) evs') <= length (List.filter (fun e => negb (is_data_empty e)) evs))%nat.
Proof.
  induction 1 as [|ev l l' _ IH|ev l l' _ IH|ev l l' _ IH _]; cbn; [done| | |]; destruct (negb (is_data_empty ev)); cbn; lia.
Qed.

Lemma remains_get_size q q' :
  events_ok (tail_id q) (events q) → events_ok (tail_id q) (events q') → remains (tail_id q) (events q) (events q') →
  0 <= get_size_of q' <= get_size_of q.
Proof.
  intros H1 H2 Hr%remains_size. rewrite !get_size_filled, !(filled_filter (tail_id q)) by done. unfold slen. lia.
Qed.

(** ** Garbage collection *)

Lemma pair_le_trans x y z : pair_le x y = true → pair_le y z = true → pair_le x z = true.
Proof. unfold pair_le. lia. Qed.

Lemma pair_le_total x y : pair_le x y = true ∨ pair_le y x = true.
Proof. unfold pair_le. lia. Qed.

Lemma minimum_spec x l :
  (minimum x l = x ∨ minimum x l ∈ l) ∧ pair_le (minimum x l) x = true ∧ ∀ y, y ∈ l → pair_le (minimum x l) y = true.
Proof.
  revert x. induction l as [|y l IH]; intros x; cbn [minimum].
  - split_and!; [by left|unfold pair_le; lia|by intros y ?%not_elem_of_nil].
  - destruct (IH (if pair_le x y then x else y)) as (Hin & Hle & Hl).
    assert (pair_le (if pair_le x y then x else y) x = true ∧ pair_le (if pair_le x y then x else y) y = true) as [Hx Hy].
    { destruct (pair_le x y) eqn:E; split; [unfold pair_le; lia|done|by destruct (pair_le_total x y); congruence|unfold pair_le; lia]. }
    split_and!.
    + destruct Hin as [-> |Hin]; [|right; by right]. destruct (pair_le x y); [by left|right; by left].
    + by eapply pair_le_trans.
    + intros z [->|Hz]%elem_of_cons; [by eapply pair_le_trans|by apply Hl].
Qed.

Lemma gc_begin_spec set :
  match gc_begin set with
  | None => set = ∅
  | Some x => x ∈ set ∧ ∀ y, y ∈ set → pair_le x y = true
  end.
Proof.
  unfold gc_begin. destruct (elements set) as [|x l] eqn:E; [by apply elements_empty_iff in E as ?%leibniz_equiv|].
  destruct (minimum_spec x l) as (Hin & Hx & Hl). split.
  - apply elem_of_elements. rewrite E. destruct Hin as [-> |Hin]; [by left|by right].
  - intros y Hy%elem_of_elements. rewrite E in Hy. apply elem_of_cons in Hy as [->|Hy]; auto.
Qed.

(** The number of the updates of all the queues. *)
Definition pending_of (queues : gmap Z Queue) : Z := map_fold (fun _ q n => get_size_of q + n) 0 queues.

Lemma pending_insert queues queue_id q q' :
  queues !! queue_id = Some q → pending_of (<[queue_id := q']> queues) + get_size_of q = pending_of queues + get_size_of q'.
Proof.
  intros Hl. unfold pending_of.
  rewrite (map_fold_delete_L _ 0 queue_id q queues) by (done || (intros; lia)).
  rewrite <- insert_delete_eq, map_fold_insert_L; [lia|intros; lia|apply lookup_delete_eq].
Qed.

Section Collect.
Context {S : Type} `{StorageLaws S}.

(** A part of the collection: what is alive stays where it was. *)
Record swept (now : Z) (t t' : tqueue S) : Prop := {
  sw_ok : tqueue_ok t';
  sw_callback : is_Some (callback_ t') ↔ is_Some (callback_ t);
  sw_tails : tails_ok t → tails_ok t';
  sw_queues queue_id :
    tail_id (queue_at queue_id t') = tail_id (queue_at queue_id t)
    ∧ remains (tail_id (queue_at queue_id t)) (events (queue_at queue_id t)) (events (queue_at queue_id t'))
    ∧ ∀ e, e ∈ events (queue_at queue_id t) → is_dead now e = false → e ∈ events (queue_at queue_id t');
}.

Lemma swept_refl now t : tqueue_ok t → swept now t t.
Proof. intros Hok. split; [done|done|done|]. intros qid. split_and!; [done|apply remains_refl|done]. Qed.

Lemma swept_trans now t1 t2 t3 : swept now t1 t2 → swept now t2 t3 → swept now t1 t3.
Proof.
  intros [_ Hc1 Ht1 Hq1] [Hok Hc2 Ht2 Hq2]. split; [done|by rewrite Hc2|auto|]. intros qid.
  destruct (Hq1 qid) as (E1 & Hr1 & Hin1), (Hq2 qid) as (E2 & Hr2 & Hin2). rewrite E1 in *.
  split_and!; [done|by eapply remains_trans|auto].
Qed.

(** The rounds that are left. *)
Definition due (now : Z) (set : gset (Z * Z)) : gset (Z * Z) := filter (fun x => x.1 < now) set.

(** The collection of one queue. *)
Lemma gc_round_ok now late counter at_ queue_id t :
  tqueue_ok t → (at_, queue_id) ∈ queue_gc_at_ t →
  let q := queue_at queue_id t in
  gc_at q = at_ ∧
  ∃ evs gc' counter' stopped a set',
    gc_events queue_id (tail_id q) now late 0 (events q) counter (mkAccount (total_event_length q) (callback_ t))
      = Some (evs, gc', counter', stopped, a)
    ∧ (let q' := mkQueue (tail_id q) evs (a_total a) (gc_at q) in
       0 <= get_size_of q' <= get_size_of q
       ∧ schedule_queue_gc queue_id q' gc' (queue_gc_at_ t) = Some (set_gc_at gc' q', set')
       ∧ let t' := mkTQueue (<[queue_id := set_gc_at gc' q']> (queues_ t)) set' (a_callback a) in
         swept now t t'
         ∧ pending_of (queues_ t') + get_size_of q = pending_of (queues_ t) + get_size_of q'
         ∧ (stopped = false → due now set' ⊆ due now (queue_gc_at_ t) ∖ {[(at_, queue_id)]})).
Proof.
  intros Hok Hin. cbv zeta. apply (tq_gc _ Hok) in Hin as [Hat (q & El & Eat)].
  assert (queue_at queue_id t = q) as -> by (unfold queue_at; by rewrite El). split; [done|].
  destruct (tq_queues _ Hok _ _ El) as [Hne Hq]. pose proof (queue_loop_ok _ _ _ Hok El) as Hl. rewrite <- (app_nil_r (events q)) in Hl.
  destruct (gc_events_ok queue_id (tail_id q) (callback_ t) ltac:(apply (q_tail _ Hq)) now late 0 [] (events q) [] counter _ Hl
    (or_introl eq_refl) (Z.le_refl 0)) as (evs & gc' & c' & stopped & a & E & Hl' & Hr & Hin & Hg1 & Hg2 & Hk).
  cbn [app] in Hl', Hk. rewrite !app_nil_r in *. set (q' := mkQueue (tail_id q) evs (a_total a) (gc_at q)).
  destruct (schedule_ok queue_id q q' gc' _ _ (tq_gc _ Hok) El eq_refl) as (set' & Es & Hset).
  exists evs, gc', c', stopped, a, set'. split; [done|]. split.
  { apply (remains_get_size q q'); [apply Hq|apply Hl'|done]. }
  split; [done|]. split; [|split].
  - assert (∀ qid, qid ≠ queue_id → queues_ (mkTQueue (<[queue_id := set_gc_at gc' q']> (queues_ t)) set' (a_callback a)) !! qid
                   = queues_ t !! qid) as Ho by (intros qid Hn; cbn; by rewrite lookup_insert_ne).
    pose proof (callback_ok_some queue_id _ _ evs (lo_callback _ _ _ _ _ Hl')) as Hcs.
    assert (queue_ok (set_gc_at gc' q')) as Hq'.
    { destruct Hl' as [He Htot Hroom _]. apply remains_length in Hr. destruct (q_room _ Hq) as [_ Hlen].
      assert (slen evs <= MAX_QUEUE_EVENTS) by lia.
      split; [done|apply Hq|done|done|]. intros Hx. apply Hg2. by right. }
    split.
    + split; cbn; [|by apply Hset|].
      * intros qid q1. rewrite lookup_insert_Some. intros [[<- <-]|[_ ?]]; [done|by apply (tq_queues _ Hok)].
      * eapply stored_insert; [apply (tq_stored _ Hok)|apply Hl'].
    + apply Hcs.
    + apply (tails_step queue_id); [done| |].
      * apply Hcs.
      * intros Ht Hs. unfold queue_at. cbn. rewrite lookup_insert_eq. cbn. apply Hk; [done|]. by eapply Ht.
    + intros qid. unfold queue_at. cbn. destruct (decide (qid = queue_id)) as [->|Hn].
      * rewrite lookup_insert_eq, El. cbn. done.
      * rewrite lookup_insert_ne by done. split_and!; [done|apply remains_refl|done].
  - by apply (pending_insert _ _ _ (set_gc_at gc' q')).
  - intros Hs. intros [x qid] [Hx Hx2]%elem_of_filter. cbn in Hx.
    apply (Hset (set_gc_at gc' q') eq_refl) in Hx2 as [Hx0 (q1 & Hq1 & <-)].
    destruct (decide (qid = queue_id)) as [->|Hn].
    + rewrite lookup_insert_eq in Hq1. injection Hq1 as <-. cbn in *. destruct (Hg1 Hs); [done|lia].
    + rewrite lookup_insert_ne in Hq1 by done. apply elem_of_difference.
      split; [|rewrite not_elem_of_singleton; congruence]. apply elem_of_filter. split; [done|].
      apply (tq_gc _ Hok). eauto.
Qed.

Lemma gc_rounds_ok fuel now late late_after deleted counter t :
  tqueue_ok t → (size (due now (queue_gc_at_ t)) <= fuel)%nat →
  ∃ more finished t', gc_rounds fuel now late late_after deleted counter t = Some (deleted + more, finished, t')
    ∧ swept now t t' ∧ 0 <= more ∧ pending_of (queues_ t') + more = pending_of (queues_ t)
    ∧ (finished = true → due now (queue_gc_at_ t') = ∅).
Proof.
  revert deleted counter t. induction fuel as [|fuel IH]; intros deleted counter t Hok Hfuel; cbn [gc_rounds];
    pose proof (gc_begin_spec (queue_gc_at_ t)) as Hb; destruct (gc_begin (queue_gc_at_ t)) as [[at_ queue_id]|].
  1, 3: destruct Hb as [Hin Hmin]; destruct (Z.leb_spec now at_) as [Hle|Hlt].
  1, 3: exists 0, true, t; rewrite Z.add_0_r; split_and!; [done|by apply swept_refl|done|lia|]; intros _;
    apply set_eq; intros [x qid]; unfold due; rewrite elem_of_filter; cbn; split; [|set_solver];
    intros [Hx Hx2]; specialize (Hmin _ Hx2); unfold pair_le in Hmin; cbn in Hmin; lia.
  3, 4: exists 0, true, t; rewrite Z.add_0_r; split_and!; [done|by apply swept_refl|done|lia|]; intros _; rewrite Hb; set_solver.
  all: assert ((at_, queue_id) ∈ due now (queue_gc_at_ t)) as Hdue by (by apply elem_of_filter).
  - exfalso. assert (size (due now (queue_gc_at_ t)) ≠ 0%nat) as Hn; [|lia].
    apply size_non_empty_iff. intros Ee. rewrite Ee in Hdue. set_solver.
  - destruct (gc_round_ok now late counter at_ queue_id t Hok Hin)
      as (Eat & evs & gc' & c' & stopped & a & set' & -> & Hsize & Es & Hsw & Hpend & Hdec).
    rewrite (proj2 (Z.eqb_eq _ _) Eat). cbn [CHECK mbind option_bind].
    rewrite (proj2 (Z.leb_le _ _)) by apply Hsize. cbn [CHECK]. rewrite Es. cbn [mbind option_bind].
    set (q' := mkQueue _ evs _ _) in *. set (t1 := mkTQueue _ set' _) in *.
    destruct (stopped || late_after c') eqn:Est.
    + eexists _, false, _. split_and!; [done|done|lia|lia|done].
    + apply orb_false_iff in Est as [Est _]. specialize (Hdec Est).
      assert (size (due now set') <= fuel)%nat as Hfuel'.
      { apply subseteq_size in Hdec. rewrite size_difference in Hdec by (by apply singleton_subseteq_l).
        rewrite size_singleton in Hdec. lia. }
      destruct (IH (deleted + (get_size_of (queue_at queue_id t) - get_size_of q')) c' t1 (sw_ok _ _ _ Hsw) Hfuel')
        as (more & fin & t' & -> & Hsw' & Hmore & Hp & Hfin).
      exists (get_size_of (queue_at queue_id t) - get_size_of q' + more), fin, t'. rewrite Z.add_assoc.
      split_and!; [done|by eapply swept_trans|lia|lia|done].
Qed.

Lemma run_gc_ok now late late_after t :
  tqueue_ok t →
  ∃ deleted finished t', run_gc now late late_after t = Some (deleted, finished, t')
    ∧ swept now t t' ∧ 0 <= deleted ∧ pending_of (queues_ t') + deleted = pending_of (queues_ t)
    ∧ (finished = true → due now (queue_gc_at_ t') = ∅).
Proof.
  intros Hok. apply (gc_rounds_ok _ _ _ _ 0 0); [done|]. apply subseteq_size. unfold due. set_solver.
Qed.
End Collect.

(** ** [TQueueMemoryStorage] keeps the promises of a storage *)

#[export] Instance memory_laws : StorageLaws TQueueMemoryStorage.
Proof.
  assert (∀ s id, memory_wf s → memory_wf (memory_pop s id)) as Hpop.
  { intros s id [Hn Hs]. split; [done|]. intros i [x Hx]. cbn in Hx. apply lookup_delete_Some in Hx as [_ Hx]. eauto. }
  assert (∀ ids s, memory_wf s → memory_wf (pop_one_by_one memory_pop s ids)) as Hpops.
  { induction ids as [|id ids IH]; [done|]. intros s Hs. cbn. by apply IH, Hpop. }
  split.
  - intros s queue_id ev [Hn Hs] Hold. cbn in *. unfold memory_push. destruct (Z.eqb_spec (log_event_id ev) 0).
    + split; cbn; [lia|]. intros i. rewrite lookup_insert_is_Some. intros [<-|[_ Hi%Hs]]; lia.
    + split; cbn; [done|]. intros i. rewrite lookup_insert_is_Some. destruct Hold as [?|Hold]; [done|].
      intros [<-|[_ Hi]]; by apply Hs.
  - intros s queue_id ev [Hn Hs] Ez. cbn. unfold memory_push. rewrite Ez. cbn. split_and!; [done|exact Hs|done].
  - intros s queue_id ev Hs [x Hx] Hne. cbn. unfold memory_push. by rewrite (proj2 (Z.eqb_neq _ _) Hne).
  - exact Hpop.
  - done.
  - intros s ids. apply Hpops.
  - intros s ids _. revert s. induction ids as [|id ids IH]; [done|]. intros s. cbn. apply IH.
Qed.

(** ** Restart *)

Section Restart.
Context {S : Type} `{StorageLaws S}.

Lemma queue_at_insert queue_id queue_id' q queues set (callback : option S) :
  queue_at queue_id' (mkTQueue (<[queue_id := q]> queues) set callback)
  = if queue_id =? queue_id' then q else default new_queue (queues !! queue_id').
Proof.
  unfold queue_at. cbn. destruct (Z.eqb_spec queue_id queue_id') as [->|Hne]; [by rewrite lookup_insert_eq|by rewrite lookup_insert_ne].
Qed.

Definition entry_queue (x : Z * (Z * RawEvent)) : Z := x.2.1.
Definition entry_event (x : Z * (Z * RawEvent)) : RawEvent := set_log_event_id x.1 x.2.2.
(** The events of one queue among the records of the storage. *)
Definition of_queue (queue_id : Z) (l : list (Z * (Z * RawEvent))) : list RawEvent :=
  entry_event <$> List.filter (fun x => entry_queue x =? queue_id) l.

Lemma of_queue_app queue_id l l' : of_queue queue_id (l ++ l') = of_queue queue_id l ++ of_queue queue_id l'.
Proof. unfold of_queue. by rewrite List.filter_app, fmap_app. Qed.

Lemma of_queue_snoc queue_id l x :
  of_queue queue_id (l ++ [x]) = of_queue queue_id l ++ if entry_queue x =? queue_id then [entry_event x] else [].
Proof. rewrite of_queue_app. f_equal. unfold of_queue. cbn. by destruct (_ =? _). Qed.

Definition next_after (evs : list RawEvent) : Z := match last evs with Some e => event_id e + 1 | None => 0 end.

(** What a replay has built from some records: the storage is not there yet. *)
Record replayed (l : list (Z * (Z * RawEvent))) (t : tqueue S) : Prop := {
  rp_ok : tqueue_ok t;
  rp_callback : callback_ t = None;
  rp_queues queue_id :
    events (queue_at queue_id t) = of_queue queue_id l
    ∧ tail_id (queue_at queue_id t) = next_after (of_queue queue_id l);
}.

(** A record that can come next. *)
Record replayable (l : list (Z * (Z * RawEvent))) (x : Z * (Z * RawEvent)) : Prop := {
  ra_queue : entry_queue x ≠ 0;
  ra_event T :
    T = event_id (entry_event x) + 1 → T < MAX_ID ∧ events_ok T (of_queue (entry_queue x) l ++ [entry_event x]);
  ra_full : Forall (fun e => data e ≠ []) (of_queue (entry_queue x) l);
  ra_room : total_length (of_queue (entry_queue x) l ++ [entry_event x]) <= MAX_TOTAL_EVENT_LENGTH
    ∧ slen (of_queue (entry_queue x) l ++ [entry_event x]) <= MAX_QUEUE_EVENTS;
}.

Lemma filled_full evs : Forall (fun e => data e ≠ []) evs → filled evs = evs.
Proof.
  intros Hf. unfold filled. destruct (last evs) as [ev|] eqn:El; [|done].
  rewrite (last_split _ _ El) in Hf. apply Forall_app in Hf as [_ [Hd _]%Forall_cons].
  unfold is_data_empty. by rewrite bool_decide_eq_false_2.
Qed.

Lemma replay_step l x t :
  replayed l t → replayable l x →
  ∃ t', do_push (entry_queue x) (entry_event x) t = Some (true, t') ∧ replayed (l ++ [x]) t'.
Proof.
  intros [Hok Hcb Hq] [Hne Hev Hfull [Hroom Hlen]]. set (qid := entry_queue x) in *. set (ev := entry_event x) in *.
  destruct (Hq qid) as [He Ht]. destruct (Hev _ eq_refl) as [Hmax [Hs Hf]].
  rewrite Forall_app, Forall_singleton in Hf. destruct Hf as [_ (Hid & Hsize & Hexp & _)].
  rewrite total_length_app, total_length_cons in Hroom. change (total_length []) with 0 in Hroom.
  rewrite slen_app in Hlen. change (slen [ev]) with 1 in Hlen.
  assert (tail_id (queue_at qid t) <= event_id ev) as Htail.
  { rewrite Ht. unfold next_after. destruct (last (of_queue qid l)) as [e|] eqn:El; [|lia].
    rewrite (last_split _ _ El) in Hs. rewrite <- (assoc_L (++)) in Hs.
    apply strongly_sorted_app in Hs as (_ & [_ Hlt]%StronglySorted_inv & _).
    apply Forall_cons in Hlt as [Hlt _]. unfold id_lt in Hlt. lia. }
  destruct (do_push_ok qid ev t) as (id & gc & set & cb & E & Hok' & Hlog & Hcb'); rewrite ?He; try solve [done|lia|by left]; [].
  rewrite (Hlog Hcb) in *. assert (set_log_event_id (log_event_id ev) ev = ev) as Eev by (by destruct ev). rewrite Eev in *.
  eexists. split; [exact E|]. split; [done|cbn; destruct cb as [s|]; [destruct (proj1 Hcb' (mk_is_Some _ _ eq_refl)); congruence|done]|].
  intros qid'. rewrite of_queue_snoc. fold qid. fold ev. destruct (Hq qid') as [He' Ht'].
  unfold pushed. rewrite queue_at_insert, He. 
  destruct (Z.eqb_spec qid qid') as [<-|Hn].
  - cbn [events tail_id]. rewrite filled_full by done. split; [done|]. unfold next_after. by rewrite last_snoc.
  - by rewrite app_nil_r.
Qed.

Lemma replay_events_ok l done_ t :
  replayed done_ t → (∀ pre x post, l = pre ++ x :: post → replayable (done_ ++ pre) x) →
  ∃ t', replay_events l t = Some t' ∧ replayed (done_ ++ l) t'.
Proof.
  revert done_ t. induction l as [|x l IH]; intros dn t Hr Hall; cbn [replay_events].
  - exists t. by rewrite app_nil_r.
  - destruct (replay_step dn x t Hr) as (t' & E & Hr').
    { rewrite <- (app_nil_r dn). by apply (Hall [] x l). }
    destruct x as [id [qid ev]]. unfold entry_queue, entry_event in E. cbn in E. rewrite E. cbn [mbind option_bind CHECK].
    replace (dn ++ (id, (qid, ev)) :: l) with ((dn ++ [(id, (qid, ev))]) ++ l) by by rewrite <- (assoc_L (++)).
    apply IH; [done|]. intros pre x post ->. rewrite <- (assoc_L (++)). by apply (Hall ((id, (qid, ev)) :: pre) x post).
Qed.

(** The records of the storage, in order. *)
Record records (s : S) (l : list (Z * (Z * RawEvent))) : Prop := {
  rc_sorted : StronglySorted by_id l;
  rc_all : l ≡ₚ map_to_list (cb_stored s);
}.

#[global] Instance log_lt_antisymm : AntiSymm (=) log_lt.
Proof. intros x y. unfold log_lt. lia. Qed.

Lemma records_strict s l : records s l → StronglySorted (fun x y => x.1 < y.1) l.
Proof.
  intros [Hs Hp]. assert (NoDup l.*1) as Hnd by (rewrite Hp; apply NoDup_fst_map_to_list). clear Hp.
  induction Hs as [|x l Hs IH Hf]; [constructor|]. apply NoDup_cons in Hnd as [Hx Hnd]. constructor; [auto|].
  rewrite Forall_forall in Hf |- *. intros y Hy. specialize (Hf y Hy). unfold by_id in Hf.
  assert (x.1 ≠ y.1); [|lia]. intros E. apply Hx. rewrite E. by apply list_elem_of_fmap_2.
Qed.

Lemma of_queue_sorted s l queue_id : records s l → StronglySorted log_lt (of_queue queue_id l).
Proof.
  intros Hr%records_strict. unfold of_queue. induction Hr as [|x l Hs IH Hf]; [constructor|]. cbn.
  destruct (_ =? _); [|done]. cbn. constructor; [done|]. apply Forall_fmap, Forall_forall.
  intros y Hy. apply list_elem_of_In, filter_In in Hy as [Hy _]. apply list_elem_of_In in Hy.
  rewrite Forall_forall in Hf. by apply Hf.
Qed.

Lemma elem_of_queue queue_id l e :
  e ∈ of_queue queue_id l ↔ ∃ id ev, (id, (queue_id, ev)) ∈ l ∧ e = set_log_event_id id ev.
Proof.
  unfold of_queue. rewrite list_elem_of_fmap. split.
  - intros ([id [qid ev]] & -> & Hin). apply list_elem_of_In, filter_In in Hin as [Hin Hq]. cbn in Hq.
    apply Z.eqb_eq in Hq as ->. exists id, ev. by rewrite list_elem_of_In.
  - intros (id & ev & Hin & ->). exists (id, (queue_id, ev)). split; [done|]. apply list_elem_of_In, filter_In.
    rewrite <- list_elem_of_In. split; [done|]. cbn. apply Z.eqb_refl.
Qed.

Lemma sorted_nodup {A} (R : relation A) `{!Irreflexive R} (l : list A) : StronglySorted R l → NoDup l.
Proof.
  induction 1 as [|x l _ IH Hf]; constructor; [|done]. intros Hin. rewrite Forall_forall in Hf.
  by apply (irreflexivity R x), Hf.
Qed.

#[global] Instance log_lt_irreflexive : Irreflexive log_lt.
Proof. intros x. unfold log_lt, complement. lia. Qed.
#[global] Instance id_lt_irreflexive : Irreflexive id_lt.
Proof. intros x. unfold id_lt, complement. lia. Qed.

(** The records of a queue are its events. *)
Lemma records_events s l t queue_id :
  tqueue_ok t → callback_ t = Some s → records s l → of_queue queue_id l = events (queue_at queue_id t).
Proof.
  intros Hok Ec Hr. pose proof (tq_stored _ Hok) as Hst. unfold stored_ok in Hst. rewrite Ec in Hst.
  specialize (Hst queue_id). destruct Hst as [_ Hst Hev _ Hsort _]. fold (queue_at queue_id t) in *.
  pose proof (of_queue_sorted _ _ queue_id Hr) as Hsort'.
  apply (StronglySorted_unique log_lt); [done|done|]. apply NoDup_Permutation; [by apply (sorted_nodup log_lt)|by apply (sorted_nodup log_lt)|].
  intros e. rewrite elem_of_queue. setoid_rewrite (rc_all _ _ Hr). setoid_rewrite elem_of_map_to_list. split.
  - intros (id & ev & Hs & ->). by apply Hst.
  - intros He. destruct (Hev e He) as (ev & Hs & E). by exists (log_event_id e), ev.
Qed.

Lemma events_ok_prefix T pre e post :
  events_ok T (pre ++ e :: post) → events_ok (event_id e + 1) (pre ++ [e]) ∧ Forall (fun e => data e ≠ []) pre ∧ event_id e < T.
Proof.
  intros [Hs He]. apply strongly_sorted_app in Hs as (Hs & _ & Hlt). rewrite Forall_app, Forall_cons in He.
  destruct He as (He & (Hid & Hd & Hx & _) & _).
  assert (Forall (fun e' => event_id e' < event_id e) pre) as Hb.
  { apply Forall_forall. intros e' He'. apply Hlt; [done|by left]. }
  rewrite Forall_forall in He, Hb. split_and!; [split| |lia].
  - apply strongly_sorted_app. split_and!; [done|by repeat constructor|]. intros x y Hx' ->%list_elem_of_singleton.
    by apply Hb.
  - apply Forall_app. split; [|by apply Forall_singleton; split_and!; try done; lia].
    apply Forall_forall. intros e' He'. destruct (He e' He') as (? & ? & ? & Hn). specialize (Hb e' He').
    split_and!; [lia|lia|done|done|]. intros E. specialize (Hn E). lia.
  - apply Forall_forall. intros e' He' E. destruct (He e' He') as (_ & _ & _ & Hn). specialize (Hb e' He'). specialize (Hn E). lia.
Qed.

Lemma records_replayable s l t pre x post :
  tqueue_ok t → callback_ t = Some s → records s l → l = pre ++ x :: post → replayable pre x.
Proof.
  intros Hok Ec Hr ->. pose proof (records_events _ _ _ (entry_queue x) Hok Ec Hr) as E.
  rewrite of_queue_app in E. change (x :: post) with ([x] ++ post) in E. rewrite of_queue_app in E.
  unfold of_queue at 2 in E. cbn in E. rewrite Z.eqb_refl in E. cbn in E. symmetry in E.
  unfold queue_at in E. destruct (queues_ t !! entry_queue x) as [q|] eqn:El; cbn [default] in E.
  2:{ by apply (f_equal length) in E; rewrite length_app in E; cbn in E; lia. }
  destruct (tq_queues _ Hok _ _ El) as [Hne [Hev [_ HT] _ [Hroom Hlen] _]]. change (Datatypes.id q) with q in E.
  rewrite E in Hev, Hroom, Hlen. destruct (events_ok_prefix _ _ _ _ Hev) as (Hp & Hfull & Hlt).
  split; [done| |done|].
  - intros T ->. split; [lia|done].
  - rewrite total_length_app, total_length_cons in Hroom |- *. rewrite slen_app in Hlen |- *.
    pose proof (total_length_nonneg (of_queue (entry_queue x) post)). change (total_length []) with 0.
    unfold slen in *. cbn [length] in *. lia.
Qed.

Lemma restart_ok s l t :
  tqueue_ok t → tails_ok t → callback_ t = Some s → records s l →
  ∃ t', replay_events l new_tqueue = Some t' ∧ tqueue_ok (set_callback s t') ∧ tails_ok (set_callback s t')
    ∧ ∀ queue_id, events (queue_at queue_id (set_callback s t')) = events (queue_at queue_id t)
                  ∧ tail_id (queue_at queue_id (set_callback s t')) = tail_id (queue_at queue_id t).
Proof.
  intros Hok Ht Ec Hr.
  destruct (replay_events_ok l [] (new_tqueue : tqueue S)) as (t' & E & [Hok' _ Hq]).
  { split; [apply new_tqueue_ok|done|done]. }
  { intros pre x post El. by eapply records_replayable. }
  cbn [app] in Hq.
  assert (∀ queue_id, events (queue_at queue_id (set_callback s t')) = events (queue_at queue_id t)
                      ∧ tail_id (queue_at queue_id (set_callback s t')) = tail_id (queue_at queue_id t)) as Hsame.
  { intros qid. destruct (Hq qid) as [He Hn]. rewrite (records_events _ _ _ qid Hok Ec Hr) in He, Hn.
    change (queue_at qid (set_callback s t')) with (queue_at qid t'). split; [done|]. rewrite Hn.
    pose proof (queue_at_anchored qid t Ht ltac:(eauto)) as Ha. unfold anchored in Ha. unfold next_after.
    by destruct (last _). }
  exists t'. split; [done|]. split; [|split; [|done]].
  - destruct Hok' as [Hqs Hg _]. split; [done|done|]. intros qid. destruct (Hsame qid) as [He _].
    change (queue_at qid (set_callback s t')) with (queue_at qid t') in He. unfold queue_at in He. cbn. rewrite He.
    pose proof (tq_stored _ Hok) as Hst. unfold stored_ok in Hst. rewrite Ec in Hst. apply Hst.
  - intros _ qid q El. destruct (Hsame qid) as [He Htl].
    pose proof (queue_at_anchored qid t Ht ltac:(eauto)) as Ha. rewrite <- He, <- Htl in Ha. unfold queue_at in Ha.
    cbn in Ha, El. by rewrite El in Ha.
Qed.
End Restart.

(** ** Runs *)

Section Run.
Context {S : Type} `{StorageLaws S}.

Definition sorted_records (s : S) : list (Z * (Z * RawEvent)) := merge_sort by_id (map_to_list (cb_stored s)).

(** The operations of [TQueue], and the restart of the server: a new queue
    reads the storage and goes on with it. *)
Inductive op :=
| Push (random : nat → Z) (queue_id : Z) (new_data : slice) (expires new_extra hint_new_id : Z)
| Get (queue_id from_id : Z) (forget_previous : bool) (now : Z) (n : nat)
| Forget (queue_id id : Z)
| Clear (queue_id : Z) (keep_count : nat)
| RunGc (now : Z) (late late_after : Z → bool)
| Reload.

Definition perform (o : op) (t : tqueue S) : option (tqueue S) :=
  match o with
  | Push random queue_id new_data expires new_extra hint => snd <$> push random queue_id new_data expires new_extra hint t
  | Get queue_id from_id forget_previous now n => snd <$> get queue_id from_id forget_previous now n t
  | Forget queue_id id => forget queue_id id t
  | Clear queue_id keep_count => Some (clear queue_id keep_count t).2
  | RunGc now late late_after => snd <$> run_gc now late late_after t
  | Reload =>
      match callback_ t with
      | Some s => set_callback s <$> replay_events (sorted_records s) new_tqueue
      | None => None
      end
  end.

(** [Random::fast] draws from the given range, and a hint is an identifier. *)
Definition op_allowed (o : op) : Prop :=
  match o with
  | Push random _ _ _ _ hint =>
      (∀ n, 2 * 1000000 + 1 <= random n <= MAX_ID / 2) ∧ (hint = 0 ∨ id_usable hint)
  | _ => True
  end.

Definition perform_all (ops : list op) (t : tqueue S) : option (tqueue S) := foldl (fun t o => t ≫= perform o) (Some t) ops.

(** The state of a queue with a storage. *)
Record live (t : tqueue S) : Prop := {
  lv_ok : tqueue_ok t;
  lv_tails : tails_ok t;
  lv_storage : is_Some (callback_ t);
}.

(** When an operation leaves an update of a queue alone.  A push does, unless
    the identifiers of the queue are used up: then it pops all of its updates
    before it starts with new identifiers ([push_takes_next_id]). *)
Definition spares (queue_id : Z) (e : RawEvent) (t : tqueue S) (o : op) : Prop :=
  match o with
  | Push _ queue_id' _ _ _ _ => queue_id' ≠ queue_id ∨ tail_id (queue_at queue_id t) + 1 ≠ MAX_ID
  | Get queue_id' from_id forget_previous now _ =>
      queue_id' ≠ queue_id ∨ is_dead now e = false ∧ (forget_previous = true → from_id <= event_id e)
  | Forget queue_id' id => queue_id' ≠ queue_id ∨ id ≠ event_id e
  | Clear queue_id' keep_count =>
      queue_id' ≠ queue_id ∨ e ∈ drop (length (events (queue_at queue_id t)) - keep_count) (events (queue_at queue_id t))
  | RunGc now _ _ => is_dead now e = false
  | Reload => True
  end.

#[global] Instance by_id_total : Total by_id.
Proof. intros x y. unfold by_id. lia. Qed.
#[global] Instance by_id_trans : Transitive by_id.
Proof. intros x y z. unfold by_id. lia. Qed.

Lemma sorted_records_ok s : records s (sorted_records s).
Proof. split; [by apply StronglySorted_merge_sort; apply _|apply merge_sort_Permutation]. Qed.

Lemma random_usable (random : nat → Z) : (∀ n, 2 * 1000000 + 1 <= random n <= MAX_ID / 2) → ∀ n, id_usable (random n).
Proof. intros Hr n. specialize (Hr n). change (MAX_ID / 2) with 1000000000 in Hr. split; unfold MAX_ID; lia. Qed.

Lemma filled_elem T evs e : events_ok T evs → e ∈ evs → data e ≠ [] → e ∈ filled evs.
Proof.
  intros Hok He Hd. rewrite (filled_filter T) by done. apply list_elem_of_In, filter_In. rewrite <- list_elem_of_In.
  split; [done|]. unfold is_data_empty. by rewrite bool_decide_eq_false_2.
Qed.

Lemma step_live queue_id t t' : live t → step_ok queue_id t t' → live t'.
Proof. intros [Hok Ht Hc] [Hok' _ Hs Ht']. split; [done|auto|by apply Hs]. Qed.

Lemma step_other queue_id queue_id' t t' :
  step_ok queue_id t t' → queue_id ≠ queue_id' → queue_at queue_id' t' = queue_at queue_id' t.
Proof. intros Hs Hne. unfold queue_at. by rewrite (st_others _ _ _ Hs) by done. Qed.

(** The updates of all the queues that an operation leaves alone stay. *)
Definition keeps (t t' : tqueue S) (left_alone : Z → RawEvent → Prop) : Prop :=
  ∀ queue_id e, e ∈ events (queue_at queue_id t) → data e ≠ [] → left_alone queue_id e → e ∈ events (queue_at queue_id t').

Lemma step_keeps queue_id t t' (left_alone : Z → RawEvent → Prop) :
  step_ok queue_id t t' →
  (∀ e, e ∈ events (queue_at queue_id t) → data e ≠ [] → left_alone queue_id e → e ∈ events (queue_at queue_id t')) →
  keeps t t' left_alone.
Proof.
  intros Hs Hq qid e He Hd Ha. destruct (decide (queue_id = qid)) as [<-|Hne]; [by apply Hq|]. by rewrite (step_other _ _ _ _ Hs Hne).
Qed.

Lemma perform_push_ok random queue_id new_data expires new_extra hint t :
  let o := Push random queue_id new_data expires new_extra hint in
  live t → op_allowed o → ∃ t', perform o t = Some t' ∧ live t' ∧ keeps t t' (fun queue_id e => spares queue_id e t o).
Proof.
  intros o Hl [Hr Hh]. pose proof (lv_ok _ Hl) as Hok.
  destruct (push_ok random queue_id new_data expires new_extra hint t Hok (random_usable _ Hr) Hh) as (r & t' & E & Hs & Hres).
  exists t'. split; [cbn; by rewrite E|]. split; [by eapply step_live|]. apply (step_keeps queue_id); [done|].
  intros e He Hd [?|Hmax]; [done|]. destruct r as [id|].
  - destruct Hres as (_ & _ & _ & Hres). rewrite (proj2 (Z.eqb_neq _ _) Hmax) in Hres. destruct Hres as (_ & lid & ->).
    apply elem_of_app. left. eapply filled_elem; [apply queue_at_ok, Hok|done|done].
  - destruct Hres as [_ ->]. done.
Qed.

Lemma perform_get_ok queue_id from_id forget_previous now n t :
  let o := Get queue_id from_id forget_previous now n in
  live t → ∃ t', perform o t = Some t' ∧ live t' ∧ keeps t t' (fun queue_id e => spares queue_id e t o).
Proof.
  intros o Hl. destruct (get_ok queue_id from_id forget_previous now n t (lv_ok _ Hl)) as (r & out & t' & E & Hs & Hres).
  exists t'. split; [cbn; by rewrite E|]. split; [by eapply step_live|]. apply (step_keeps queue_id); [done|].
  intros e He Hd [?|[Ha Hf]]; [done|]. destruct r as [size|].
  - destruct Hres as (_ & _ & _ & _ & Hin & _). by apply Hin.
  - destruct Hres as (_ & -> & _). done.
Qed.

Lemma perform_clear_ok queue_id k t :
  let o := Clear queue_id k in
  live t → ∃ t', perform o t = Some t' ∧ live t' ∧ keeps t t' (fun queue_id e => spares queue_id e t o).
Proof.
  intros o Hl. pose proof (clear_ok queue_id k t (lv_ok _ Hl) (lv_tails _ Hl)) as Hc. cbv zeta in Hc. cbn.
  destruct (clear queue_id k t) as [deleted t']. destruct Hc as (Hs & _ & Hres).
  exists t'. split; [done|]. split; [by eapply step_live|]. apply (step_keeps queue_id); [done|].
  intros e He Hd [?|Hin]; [done|]. destruct (_ <=? _); [by destruct Hres as [_ ->]|].
  destruct k as [|k]; [|by destruct Hres as [_ ->]]. by rewrite Nat.sub_0_r, drop_all in Hin; apply not_elem_of_nil in Hin.
Qed.

Lemma perform_ok o t :
  live t → op_allowed o → ∃ t', perform o t = Some t' ∧ live t' ∧ keeps t t' (fun queue_id e => spares queue_id e t o).
Proof.
  intros Hl Ho. destruct o as [random qid new_data expires new_extra hint|qid from forget_previous now n|qid id|qid k|now late la|].
  - by apply perform_push_ok.
  - by apply perform_get_ok.
  - destruct (forget_ok qid id t (lv_ok _ Hl)) as (t' & E & Hs & Hin). exists t'. split; [done|]. split; [by eapply step_live|].
    apply (step_keeps qid); [done|]. intros e He _ [?|Hne]; [done|]. by apply Hin.
  - by apply perform_clear_ok.
  - destruct (run_gc_ok now late la t (lv_ok _ Hl)) as (deleted & fin & t' & E & [Hok Hc Ht Hq] & _).
    exists t'. split; [cbn; by rewrite E|]. destruct Hl as [_ Htl Hs]. split; [split; [done|auto|by apply Hc]|].
    intros queue_id e He _ Ha. destruct (Hq queue_id) as (_ & _ & Hin). by apply Hin.
  - destruct Hl as [Hok Htl [s Ec]]. cbn [perform]. rewrite Ec.
    destruct (restart_ok s _ t Hok Htl Ec (sorted_records_ok s)) as (t' & -> & Hok' & Ht' & Hsame). cbn.
    eexists. split; [done|]. split; [by split; [| |cbn; eauto]|]. intros queue_id e He _ _.
    destruct (Hsame queue_id) as [-> _]. done.
Qed.
End Run.

(** ** What the queue promises *)

Section Promises.
Context {S : Type} `{StorageLaws S}.

Lemma start_live (s : S) : cb_wf s → cb_stored s = ∅ → live (set_callback s new_tqueue).
Proof.
  intros Hwf He. split; [|by intros _ ? ? ?|cbn; eauto]. destruct (new_tqueue_ok (S := S)) as [Hq Hg _]. split; [done|done|].
  intros qid. cbn. split; [done|..].
  - intros id ev. by rewrite He.
  - by intros e ?%not_elem_of_nil.
  - done.
  - constructor.
  - constructor.
Qed.

Lemma perform_all_cons o ops (t : tqueue S) : perform_all (o :: ops) t = perform o t ≫= perform_all ops.
Proof.
  unfold perform_all. cbn. destruct (perform o t) as [t'|]; [done|]. cbn.
  induction ops as [|o' ops IH]; [done|]. done.
Qed.

(** C21: The queue never aborts: any operations, with restarts among them, that start from an empty storage
    run to the end; then the storage holds, in order, exactly the events of every queue, the identifiers of
    a queue grow, and its last event tells the next identifier. *)
Theorem queue_never_aborts (s : S) ops :
  cb_wf s → cb_stored s = ∅ → Forall op_allowed ops →
  ∃ t s', perform_all ops (set_callback s new_tqueue) = Some t ∧ callback_ t = Some s'
    ∧ ∀ queue_id, let q := queue_at queue_id t in
        of_queue queue_id (sorted_records s') = events q
        ∧ StronglySorted id_lt (events q)
        ∧ total_event_length q = total_length (events q)
        ∧ tail_id q = match last (events q) with Some e => event_id e + 1 | None => 0 end.
Proof.
  intros Hwf He Hops. pose proof (start_live s Hwf He) as Hl. revert Hl. generalize (set_callback s new_tqueue).
  induction Hops as [|o ops Ho _ IH]; intros t Hl.
  - destruct Hl as [Hok Ht [s' Ec]]. exists t, s'. split_and!; [done|done|]. intros qid q.
    pose proof (queue_at_ok qid _ Hok) as Hq. pose proof (queue_at_anchored qid _ Ht ltac:(eauto)) as Ha. split_and!.
    + by apply (records_events s'), sorted_records_ok.
    + apply Hq.
    + apply Hq.
    + unfold anchored in Ha. subst q. by destruct (last _).
  - destruct (perform_ok o t Hl Ho) as (t' & E & Hl' & _). rewrite perform_all_cons, E. by apply IH.
Qed.

(** The operations of a run that leave an update alone. *)
Fixpoint all_spare (queue_id : Z) (e : RawEvent) (ops : list op) (t : tqueue S) : Prop :=
  match ops with
  | [] => True
  | o :: ops => op_allowed o ∧ spares queue_id e t o ∧ ∀ t', perform o t = Some t' → all_spare queue_id e ops t'
  end.

(** C22: An update that is not empty stays in its queue, under its identifier and with its data, through
    every run and restart in which it is not forgotten, confirmed by a later offset, cleared or expired, and
    in which nothing is pushed into its queue when the identifiers of the queue are used up (the next one
    would be MAX_ID = 2000000000): TQueue::push then drops every update of the queue before it starts with
    new identifiers. *)
Theorem updates_stay_until_taken queue_id e ops t :
  live t → e ∈ events (queue_at queue_id t) → data e ≠ [] → all_spare queue_id e ops t →
  ∃ t', perform_all ops t = Some t' ∧ live t' ∧ e ∈ events (queue_at queue_id t').
Proof.
  revert t. induction ops as [|o ops IH]; intros t Hl He Hd Hall; [by exists t|]. destruct Hall as (Ho & Hs & Hall).
  destruct (perform_ok o t Hl Ho) as (t1 & E & Hl1 & Hk). rewrite perform_all_cons, E. apply IH; auto.
Qed.

(** Push adds the update at the end of its queue under the next identifier, in place of an emptied last
    event, exactly when the update is neither empty nor too long nor expired and the queue has room; it is
    otherwise refused and the queue is as it was. *)
Theorem push_takes_next_id random queue_id new_data expires new_extra t :
  live t → (∀ n, 2 * 1000000 + 1 <= random n <= MAX_ID / 2) →
  let q := queue_at queue_id t in
  ∃ r t', push random queue_id new_data expires new_extra 0 t = Some (r, t') ∧ live t'
    ∧ match r with
      | Err _ _ => ¬ push_allowed queue_id new_data expires q ∧ queue_at queue_id t' = q
      | Ok id =>
          push_allowed queue_id new_data expires q ∧ tail_id (queue_at queue_id t') = id + 1
          ∧ (tail_id q ≠ 0 → tail_id q + 1 ≠ MAX_ID → id = tail_id q)
          ∧ ∃ lid, events (queue_at queue_id t') =
              (if tail_id q + 1 =? MAX_ID then [] else filled (events q)) ++ [mkRawEvent lid id expires new_data new_extra]
      end.
Proof.
  intros Hl Hr q. destruct (push_ok random queue_id new_data expires new_extra 0 t (lv_ok _ Hl) (random_usable _ Hr)
    (or_introl eq_refl)) as (r & t' & E & Hs & Hres).
  exists r, t'. split; [done|]. split; [by eapply step_live|]. destruct r as [id|]; [|done].
  destruct Hres as (Ha & Ht & _ & Hres). fold q in Ha, Hres. split; [done|]. split; [done|].
  destruct (Z.eqb_spec (tail_id q + 1) MAX_ID) as [Em|Em]; [by split|].
  destruct Hres as [Hid He]. split; [by intros Hn _; apply Hid|done].
Qed.

(** get answers the first n updates from the given identifier that have not expired, in order, deletes
    no live update at or after it, and, when asked to, every update before it; an identifier too far in the
    past or in the future is refused and changes nothing. *)
Theorem get_returns_next_updates queue_id from_id forget_previous now n t :
  live t →
  let q := queue_at queue_id t in
  ∃ r out t', get queue_id from_id forget_previous now n t = Some (r, out, t') ∧ live t'
    ∧ match r with
      | Err _ _ => out = [] ∧ t' = t ∧ ¬ get_range from_id q
      | Ok size =>
          size = get_size_of (queue_at queue_id t') ∧ slen out <= size
          ∧ tail_id (queue_at queue_id t') = tail_id q
          ∧ out = take n (event_of <$> List.filter (fun e => (from_id <=? event_id e) && negb (is_dead now e)) (events q))
          ∧ (∀ e, e ∈ events q → is_dead now e = false → from_id <= event_id e → e ∈ events (queue_at queue_id t'))
          ∧ (forget_previous = true → ∀ e, e ∈ events (queue_at queue_id t') → event_id e < from_id → data e = [])
      end.
Proof.
  intros Hl q. destruct (get_ok queue_id from_id forget_previous now n t (lv_ok _ Hl)) as (r & out & t' & E & Hs & Hres).
  pose proof (step_live _ _ _ Hl Hs) as Hl'. exists r, out, t'. split; [done|]. split; [done|].
  destruct r as [size|]; [|done]. cbv zeta in Hres. destruct Hres as (Hsize & Ht & Hout & _ & Hin & Hf).
  split; [done|]. split; [|by split_and!; auto].
  fold q in Hout. rewrite Hsize, get_size_filled, Hout. unfold slen. rewrite length_take, length_fmap.
  assert (NoDup (events q)) as Hnd by (apply (sorted_nodup id_lt), (queue_at_ok queue_id _ (lv_ok _ Hl))).
  assert (List.filter (fun e => (from_id <=? event_id e) && negb (is_dead now e)) (events q) ⊆+ filled (events (queue_at queue_id t'))) as Hsub;
    [|apply submseteq_length in Hsub; lia].
  apply NoDup_submseteq; [by apply NoDup_ListNoDup, List.NoDup_filter, NoDup_ListNoDup|]. intros e He%list_elem_of_In%filter_In.
  rewrite <- list_elem_of_In in He. destruct He as [He Hb]. apply andb_true_iff in Hb as [Hb Hd%negb_true_iff].
  eapply filled_elem; [apply queue_at_ok, Hl'|apply Hin; [done|done|lia]|].
  intros Ee. unfold is_dead, is_data_empty in Hd. rewrite Ee in Hd. by rewrite orb_true_r in Hd.
Qed.

(** C23: A restart of the server loses nothing: the queues that are read back from the storage have the same
    events and the same next identifiers, also those that have no update left, and go on with the same
    storage. *)
Theorem restart_loses_nothing (t : tqueue S) s :
  live t → callback_ t = Some s →
  ∃ t', replay_events (sorted_records s) new_tqueue = Some t' ∧ live (set_callback s t')
    ∧ ∀ queue_id,
        events (queue_at queue_id t') = events (queue_at queue_id t)
        ∧ get_tail queue_id t' = get_tail queue_id t ∧ get_size queue_id t' = get_size queue_id t.
Proof.
  intros [Hok Ht _] Ec. destruct (restart_ok s _ t Hok Ht Ec (sorted_records_ok s)) as (t' & E & Hok' & Ht' & Hsame).
  exists t'. split; [done|]. split; [split; [done|done|cbn; eauto]|]. intros qid. destruct (Hsame qid) as [He Htl].
  change (queue_at qid (set_callback s t')) with (queue_at qid t') in *. split; [done|].
  unfold get_tail, get_size, queue_at in *.
  destruct (queues_ t' !! qid) as [q'|], (queues_ t !! qid) as [q|]; cbn in He, Htl; (split; [done|]); unfold get_size_of;
    [by rewrite He|by rewrite He|by rewrite <- He|done].
Qed.

(** of a queue with more than k updates leaves the last k entries of the queue: k updates, but
    one fewer when the last entry is an emptied event; with k = 0 it leaves no update. *)
Theorem clear_leaves queue_id k t :
  live t →
  let q := queue_at queue_id t in
  let '(deleted, t') := clear queue_id k t in
  let q' := queue_at queue_id t' in
  live t' ∧ tail_id q' = tail_id q
  ∧ get_size_of q' = if get_size_of q <=? Z.of_nat k then get_size_of q
                     else if (0 <? Z.of_nat k) && (get_size_of q <? slen (events q)) then Z.of_nat k - 1 else Z.of_nat k.
Proof.
  intros Hl. pose proof (clear_ok queue_id k t (lv_ok _ Hl) (lv_tails _ Hl)) as Hc. cbv zeta in *.
  destruct (clear queue_id k t) as [deleted t']. destruct Hc as (Hs & Ht & Hres). split; [by eapply step_live|]. split; [done|].
  set (q := queue_at queue_id t) in *. destruct (Z.leb_spec (get_size_of q) (Z.of_nat k)) as [Hle|Hlt].
  { destruct Hres as [_ ->]. done. }
  destruct k as [|k].
  - destruct (callback_ t) as [s|].
    + destruct Hres as (pre & ev & _ & _ & E). unfold get_size_of. rewrite E. done.
    + destruct Hres as [_ E]. unfold get_size_of. by rewrite E.
  - destruct Hres as [_ E]. destruct (size_not_empty q ltac:(lia)) as (pre & ev & Eq).
    assert (Datatypes.S k <= length (events q))%nat as Hk.
    { pose proof (size_le_length q). unfold slen in *. lia. }
    assert (last (drop (length (events q) - Datatypes.S k) (events q)) = Some ev) as Hlast.
    { rewrite Eq in Hk |- *. rewrite length_app, Nat.add_1_r in *. rewrite drop_app_le by lia. apply last_snoc. }
    assert (get_size_of q = slen (events q) - (if is_data_empty ev then 1 else 0)) as Hq.
    { unfold get_size_of. rewrite Eq at 1. by rewrite last_snoc. }
    unfold get_size_of at 1. rewrite E, Hlast. unfold slen in *. rewrite length_drop, Hq.
    rewrite !Nat2Z.inj_sub by lia. rewrite Nat2Z.inj_succ in *. pose proof (Nat2Z.is_nonneg k).
    set (n := Z.of_nat (length (events q))) in *. set (z := Z.of_nat k) in *. clearbody n z.
    rewrite (proj2 (Z.ltb_lt 0 (Z.succ z))) by lia. cbn [andb].
    destruct (is_data_empty ev); [rewrite (proj2 (Z.ltb_lt _ _)) by lia; lia|rewrite (proj2 (Z.ltb_ge _ _)) by lia; lia].
Qed.

(** C24: The garbage collection ends without a failed check, whatever the clock says; it reports exactly how
    many updates it deleted, deletes none that has not expired, and, unless it ran out of time, leaves
    nothing scheduled before now. *)
Theorem run_gc_deletes_expired now late late_after t :
  live t →
  ∃ deleted finished t', run_gc now late late_after t = Some (deleted, finished, t')
    ∧ live t' ∧ 0 <= deleted ∧ pending_of (queues_ t') + deleted = pending_of (queues_ t)
    ∧ (∀ queue_id e, e ∈ events (queue_at queue_id t) → is_dead now e = false → e ∈ events (queue_at queue_id t'))
    ∧ (finished = true → ∀ at_ queue_id, (at_, queue_id) ∈ queue_gc_at_ t' → now <= at_).
Proof.
  intros [Hok Ht Hs]. destruct (run_gc_ok now late late_after t Hok) as (deleted & fin & t' & E & Hsw & Hd & Hp & Hfin).
  exists deleted, fin, t'. destruct Hsw as [Hok' Hc Ht' Hq]. split_and!; [done|by split; [|auto|apply Hc]|done|done| |].
  - intros qid e He Ha. destruct (Hq qid) as (_ & _ & Hin). by apply Hin.
  - intros Ef at_ qid Hin. specialize (Hfin Ef). destruct (Z_lt_le_dec at_ now) as [Hlt|]; [|done].
    assert ((at_, qid) ∈ due now (queue_gc_at_ t')) as Hx by (by apply elem_of_filter). rewrite Hfin in Hx. set_solver.
Qed.
End Promises.

(** ** A queue that was used *)

Definition demo_start : tqueue TQueueMemoryStorage := set_callback new_memory new_tqueue.
Definition demo_push (text : slice) (expires : Z) : op := Push (fun _ => 2000001) 7 text expires 0 0.
(** Three updates, of which the last has expired when the queue is read. *)
Definition demo_ops : list op :=
  [demo_push (lit "a") 100; demo_push (lit "b") 100; demo_push (lit "c") 10; Get 7 2000001 false 50 2].
Definition demo : tqueue TQueueMemoryStorage := default demo_start (perform_all demo_ops demo_start).

Lemma demo_push_allowed text expires : op_allowed (demo_push text expires).
Proof. split; [intros _; vm_compute; split; discriminate|by left]. Qed.

Lemma demo_allowed : Forall op_allowed demo_ops.
Proof. do 3 (constructor; [apply demo_push_allowed|]). by repeat constructor. Qed.

Lemma new_memory_wf : cb_wf new_memory.
Proof. split; [done|]. intros id [x Hx]. cbn in Hx. by rewrite lookup_empty in Hx. Qed.

Lemma demo_start_live : live demo_start.
Proof. by apply start_live; [exact new_memory_wf|]. Qed.

Lemma perform_all_live {S} `{StorageLaws S} ops (t : tqueue S) :
  live t → Forall op_allowed ops → ∃ t', perform_all ops t = Some t' ∧ live t'.
Proof.
  intros Hl Hops. revert t Hl. induction Hops as [|o ops Ho _ IH]; intros t Hl; [by exists t|].
  destruct (perform_ok o t Hl Ho) as (t1 & E & Hl1 & _). rewrite perform_all_cons, E. by apply IH.
Qed.

Lemma demo_live : live demo.
Proof.
  destruct (perform_all_live demo_ops demo_start demo_start_live demo_allowed) as (t & E & Hl). unfold demo. by rewrite E.
Qed.

Lemma demo_events :
  (fun e => (event_id e, data e)) <$> events (queue_at 7 demo)
  = [(2000001, lit "a"); (2000002, lit "b"); (2000003, [])].
Proof. vm_compute. reflexivity. Qed.

Lemma queue_never_aborts_witness :
  ∃ t s', perform_all (demo_ops ++ [Reload]) demo_start = Some t ∧ callback_ t = Some s'
    ∧ ∀ queue_id, let q := queue_at queue_id t in
        of_queue queue_id (sorted_records s') = events q ∧ StronglySorted id_lt (events q)
        ∧ total_event_length q = total_length (events q)
        ∧ tail_id q = match last (events q) with Some e => event_id e + 1 | None => 0 end.
Proof.
  apply (queue_never_aborts new_memory (demo_ops ++ [Reload])); [exact new_memory_wf|reflexivity|].
  apply Forall_app. split; [exact demo_allowed|by repeat constructor].
Defined.

Lemma updates_stay_until_taken_witness :
  ∃ t', perform_all [Reload; Get 7 2000002 true 60 10; RunGc 90 (fun _ => false) (fun _ => false)] demo = Some t' ∧ live t'
    ∧ mkRawEvent 2 2000002 100 (lit "b") 0 ∈ events (queue_at 7 t').
Proof.
  apply (updates_stay_until_taken 7 (mkRawEvent 2 2000002 100 (lit "b") 0)); [exact demo_live| |done|].
  - apply (bool_decide_unpack _). vm_compute. exact I.
  - split_and!; [done|done|]. intros t1 _. split_and!; [done|right; split; [done|by intros _]|]. intros t2 _.
    by split_and!; [done|done|].
Defined.

Lemma push_takes_next_id_witness :
  ∃ r t', push (fun _ => 2000001) 7 (lit "d") 100 0 0 demo = Some (r, t') ∧ live t'
    ∧ r = Ok 2000004 ∧ (event_id <$> events (queue_at 7 t')) = [2000001; 2000002; 2000004].
Proof.
  destruct (push_takes_next_id (fun _ => 2000001) 7 (lit "d") 100 0 demo demo_live) as (r & t' & E & Hl & _).
  { intros _. vm_compute. split; discriminate. }
  exists r, t'. split; [exact E|]. split; [exact Hl|].
  assert (push (fun _ => 2000001) 7 (lit "d") 100 0 0 demo = Some (r, t')) as E' by exact E.
  vm_compute in E'. injection E' as <- <-. split; [reflexivity|]. vm_compute. reflexivity.
Defined.

Lemma get_returns_next_updates_witness :
  ∃ r out t', get 7 2000002 true 60 10 demo = Some (r, out, t') ∧ live t'
    ∧ r = Ok 1 ∧ out = [mkEvent 2000002 100 (lit "b") 0] ∧ (event_id <$> events (queue_at 7 t')) = [2000002; 2000003].
Proof.
  destruct (get_returns_next_updates 7 2000002 true 60 10 demo demo_live) as (r & out & t' & E & Hl & _).
  exists r, out, t'. split; [exact E|]. split; [exact Hl|].
  assert (get 7 2000002 true 60 10 demo = Some (r, out, t')) as E' by exact E.
  vm_compute in E'. injection E' as <- <- <-. split_and!; vm_compute; reflexivity.
Defined.

Definition demo_storage : TQueueMemoryStorage := default new_memory (callback_ demo).

Lemma restart_loses_nothing_witness :
  ∃ t', memory_replay demo_storage new_tqueue = Some t' ∧ live (set_callback demo_storage t')
    ∧ ∀ queue_id,
        events (queue_at queue_id t') = events (queue_at queue_id demo)
        ∧ get_tail queue_id t' = get_tail queue_id demo ∧ get_size queue_id t' = get_size queue_id demo.
Proof.
  unfold memory_replay. change (merge_sort by_id (map_to_list (events_ demo_storage))) with (sorted_records demo_storage).
  apply (restart_loses_nothing demo demo_storage); [exact demo_live|vm_compute; reflexivity].
Defined.

Lemma clear_leaves_witness :
  get_size_of (queue_at 7 demo) = 2 ∧ live (clear 7 1 demo).2 ∧ get_size_of (queue_at 7 (clear 7 1 demo).2) = 0.
Proof.
  split; [vm_compute; reflexivity|]. pose proof (clear_leaves 7 1 demo demo_live) as Hc. cbv zeta in Hc.
  destruct (clear 7 1 demo) as [deleted t']. destruct Hc as (Hl & _ & E). cbn [snd]. rewrite E. split; [exact Hl|]. vm_compute. reflexivity.
Defined.

Lemma run_gc_deletes_expired_witness :
  ∃ t', run_gc 101 (fun _ => false) (fun _ => false) demo = Some (2, true, t') ∧ live t' ∧ pending_of (queues_ t') = 0.
Proof.
  destruct (run_gc_deletes_expired 101 (fun _ => false) (fun _ => false) demo demo_live) as (d & f & t' & E & Hl & _ & Hp & _).
  assert (run_gc 101 (fun _ => false) (fun _ => false) demo = Some (d, f, t')) as E' by exact E.
  vm_compute in E'. injection E' as <- <- Et. exists t'. split; [exact E|]. split; [exact Hl|]. rewrite <- Et. vm_compute. reflexivity.
Defined.
