(* ===== verification/TQueueBinlog.v ===== *)
(** * The update queue on disk

    [TQueueBinlog] of [td/db/TQueue.cpp]: the storage callback of the queue that
    writes into a binlog, and [ClientManager::start_up], which reads the queue
    back. *)

From stdpp Require Import gmap sorting.
From S2P Require Import Prelude Slices Parser TlStorage Binlog TQueue TQueueLife.

Definition BINLOG_EVENT_TYPE : Z := 2314.

(** ** [TQueueLogEvent] *)

Record TQueueLogEvent := mkLogEvent { le_queue_id : Z; le_event_id : Z; le_expires_at : Z; le_data : slice; le_extra : Z }.

Definition store_log_event (e : TQueueLogEvent) : option slice :=
  s ← store_string (le_data e);
  Some (store_long (le_queue_id e) ++ store_int (le_event_id e) ++ store_int (le_expires_at e) ++ s
        ++ (if negb (le_extra e =? 0) then store_long (le_extra e) else [])).
Definition log_event_size (e : TQueueLogEvent) : Z :=
  8 + 4 + 4 + calc_string_length (le_data e) + (if negb (le_extra e =? 0) then 8 else 0).
Definition parse_log_event (has_extra : Z) (parser : TlParser) : option (TQueueLogEvent * TlParser) :=
  '(queue_id, parser) ← fetch_long parser;
  '(event_id, parser) ← fetch_int parser;
  '(expires_at, parser) ← fetch_int parser;
  '(data, parser) ← fetch_string parser;
  '(extra, parser) ← (if has_extra =? 0 then Some (0, parser) else fetch_long parser);
  Some (mkLogEvent queue_id event_id expires_at data extra, parser).

(** ** [TQueueBinlog] *)

Section Storage.
Variable crc32 : slice → Z.

Definition log_event_of (queue_id : Z) (event : RawEvent) : TQueueLogEvent :=
  mkLogEvent queue_id (event_id event) (expires_at event) (data event) (extra event).
Definition magic_of (e : TQueueLogEvent) : Z := BINLOG_EVENT_TYPE + (if negb (le_extra e =? 0) then 1 else 0).

(** [opened] is for [Binlog::do_reindex]. *)
Definition binlog_push (opened : bool) (queue_id : Z) (event : RawEvent) (b : binlog) : option (Z * binlog) :=
  let log_event := log_event_of queue_id event in
  let magic := magic_of log_event in
  bytes ← store_log_event log_event;
  if log_event_id event =? 0 then add crc32 opened magic (log_event_size log_event) bytes b
  else
    '(_, b) ← rewrite crc32 opened (log_event_id event) magic (log_event_size log_event) bytes b;
    Some (log_event_id event, b).
Definition binlog_pop (opened : bool) (log_event_id : Z) (b : binlog) : option binlog := snd <$> erase crc32 opened log_event_id b.
Definition binlog_pop_batch (opened : bool) (log_event_ids : list Z) (b : binlog) : option binlog :=
  erase_batch crc32 opened log_event_ids b.

(** Whether the event was taken. *)
Definition binlog_replay {S} `{StorageCallback S} (binlog_event : BinlogEvent) (q : tqueue S) : option (bool * tqueue S) :=
  data ← get_data binlog_event;
  let has_extra := type_ binlog_event - BINLOG_EVENT_TYPE in
  if negb (has_extra =? 0) && negb (has_extra =? 1) then Some (false, q)
  else
    '(event, parser) ← parse_log_event has_extra (new_parser data);
    parser ← fetch_end parser;
    match get_status parser with
    | Some _ => Some (false, q)
    | None =>
        match from_int32 (le_event_id event) with
        | Err _ _ => Some (false, q)
        | Ok event_id =>
            do_push (le_queue_id event)
              (mkRawEvent (id_ binlog_event) event_id (le_expires_at event) (le_data event) (le_extra event)) q
        end
    end.

(** ** [ClientManager::start_up]: the update queue *)

(** The callback of [init]: the identifiers of the events that were not taken. *)
Fixpoint replay_all {S} `{StorageCallback S} (es : list BinlogEvent) (q : tqueue S) : option (tqueue S * list Z) :=
  match es with
  | [] => Some (q, [])
  | e :: es =>
      '(is_added, q) ← binlog_replay e q;
      '(q, failed) ← replay_all es q;
      Some (q, if (is_added : bool) then failed else id_ e :: failed)
  end.
Fixpoint erase_failed (opened : bool) (failed : list Z) (b : binlog) : option binlog :=
  match failed with
  | [] => Some b
  | log_event_id :: failed => b ← binlog_pop opened log_event_id b; erase_failed opened failed b
  end.
Definition start_up_tqueue {S} `{StorageCallback S} (opened : bool) (bytes : slice) : option (tqueue S * binlog) :=
  '(es, b) ← init crc32 bytes;
  '(q, failed) ← replay_all es new_tqueue;
  b ← erase_failed opened failed b;
  Some (q, b).

(** ** The calls of the queue, and what they store

    A batch is popped event by event, see [pop_batch_calls]. *)

Inductive call := CPush (queue_id : Z) (event : RawEvent) | CPop (log_event_id : Z) | CSync.

Definition run_call (x : bool * call) (b : binlog) : option binlog :=
  match x.2 with
  | CPush queue_id event => snd <$> binlog_push x.1 queue_id event b
  | CPop log_event_id => binlog_pop x.1 log_event_id b
  | CSync => Some (sync b)
  end.
Fixpoint run_calls (calls : list (bool * call)) (b : binlog) : option binlog :=
  match calls with [] => Some b | x :: calls => b ← run_call x b; run_calls calls b end.
End Storage.

Abbreviation queue_events := (gmap Z (Z * RawEvent)).

(** An event that the queue pushes. *)
Definition pushable (queue_id : Z) (ev : RawEvent) : bool :=
  (- 2 ^ 63 <=? queue_id) && (queue_id <? 2 ^ 63) && (0 <? event_id ev) && (event_id ev + 1 <? MAX_ID)
  && (0 <=? expires_at ev) && (expires_at ev <=? INT32_MAX) && (slen (data ev) <=? MAX_EVENT_LENGTH)
  && (- 2 ^ 63 <=? extra ev) && (extra ev <? 2 ^ 63).

(** What the storage holds after a call, and the greatest identifier of the
    binlog; [None] is a call that the queue does not make. *)
Definition spec_call (c : call) (st : Z * queue_events) : option (Z * queue_events) :=
  let '(last, m) := st in
  if negb (last + 1 <? 2 ^ 62) then None
  else
    match c with
    | CPush queue_id ev =>
        if negb (pushable queue_id ev) then None
        else if log_event_id ev =? 0 then Some (last + 1, <[last + 1 := (queue_id, ev)]> m)
        else _ ← m !! log_event_id ev; Some (last + 1, <[log_event_id ev := (queue_id, ev)]> m)
    | CPop id => _ ← m !! id; Some (last + 1, delete id m)
    | CSync => Some (last, m)
    end.
Fixpoint spec_calls (calls : list call) (st : Z * queue_events) : option (Z * queue_events) :=
  match calls with [] => Some st | c :: calls => st ← spec_call c st; spec_calls calls st end.

(** The same for the binlog. *)
Definition log_bytes (queue_id : Z) (ev : RawEvent) : slice := default [] (store_log_event (log_event_of queue_id ev)).
Definition encode (x : Z * RawEvent) : Z * slice := (magic_of (log_event_of x.1 x.2), log_bytes x.1 x.2).
Definition bop_of (c : call) : bop :=
  match c with
  | CPush queue_id ev =>
      let magic := magic_of (log_event_of queue_id ev) in
      if log_event_id ev =? 0 then BAdd magic (log_bytes queue_id ev)
      else BRewrite (log_event_id ev) magic (log_bytes queue_id ev)
  | CPop id => BErase id
  | CSync => BSync
  end.

#[local] Arguments store_int : simpl never.
#[local] Arguments store_long : simpl never.

(** ** Events as bytes *)

Lemma pushable_bounds queue_id ev :
  pushable queue_id ev = true →
  in_int64 queue_id ∧ (0 < event_id ev ∧ event_id ev + 1 < MAX_ID) ∧ 0 <= expires_at ev <= INT32_MAX ∧ slen (data ev) <= MAX_EVENT_LENGTH
  ∧ in_int64 (extra ev).
Proof.
  unfold pushable. rewrite !andb_true_iff, !Z.leb_le, !Z.ltb_lt. unfold in_int64, INT64_MAX. intros H. decompose [and] H.
  split_and!; lia.
Qed.

Lemma stored_bytes queue_id ev :
  pushable queue_id ev = true →
  ∃ ss, store_string (data ev) = Some ss
    ∧ store_log_event (log_event_of queue_id ev) = Some (log_bytes queue_id ev)
    ∧ log_bytes queue_id ev = store_long queue_id ++ store_int (event_id ev) ++ store_int (expires_at ev) ++ ss
                              ++ (if negb (extra ev =? 0) then store_long (extra ev) else [])
    ∧ slen (log_bytes queue_id ev) = log_event_size (log_event_of queue_id ev)
    ∧ slen (log_bytes queue_id ev) mod 4 = 0 ∧ slen (log_bytes queue_id ev) + MIN_SIZE <= MAX_SIZE.
Proof.
  intros (_ & _ & _ & Hlen & _)%pushable_bounds.
  destruct (store_string (data ev)) as [ss|] eqn:E.
  2:{ unfold store_string in E. rewrite (proj2 (Z.ltb_lt _ _)) in E; [done|].
      change (Z.shiftl 1 32) with (2 ^ 32). unfold MAX_EVENT_LENGTH in Hlen. lia. }
  exists ss. split; [done|]. destruct (calc_string_length_ok _ _ E) as [Hc Hm].
  assert (store_log_event (log_event_of queue_id ev) = Some (log_bytes queue_id ev)) as Es.
  { unfold log_bytes, store_log_event, log_event_of. cbn [le_data]. rewrite E. done. }
  split; [done|]. unfold log_bytes, store_log_event, log_event_of. cbn [le_data le_queue_id le_event_id le_expires_at le_extra].
  rewrite E. cbn [mbind option_bind default]. split; [done|]. unfold log_event_size. cbn [le_data le_extra].
  change (Datatypes.id ?x) with x. rewrite !slen_app, !store_int_slen, store_long_slen, <- Hc.
  assert (slen (if negb (extra ev =? 0) then store_long (extra ev) else []) = if negb (extra ev =? 0) then 8 else 0) as ->.
  { destruct (negb _); [apply store_long_slen|done]. }
  destruct (store_string_parts _ _ E) as (_ & _ & Hparts). pose proof (padding_range (slen (data ev))) as Hp.
  unfold MIN_SIZE, HEADER_SIZE, TAIL_SIZE, MAX_SIZE, MAX_EVENT_LENGTH in *. change (Z.shiftl 1 24) with (2 ^ 24).
  assert (header_length (slen (data ev)) <= 8) by (unfold header_length; repeat case_match; lia).
  split; [by destruct (negb _); lia|]. split; [|destruct (negb _); lia].
  destruct (negb _); Z.to_euclidean_division_equations; lia.
Qed.

Lemma magic_range e : BINLOG_EVENT_TYPE <= magic_of e <= BINLOG_EVENT_TYPE + 1.
Proof. unfold magic_of. destruct (negb _); lia. Qed.

(** What was stored is read back. *)
Lemma parse_stored queue_id ev :
  pushable queue_id ev = true →
  parse_log_event (magic_of (log_event_of queue_id ev) - BINLOG_EVENT_TYPE) (new_parser (log_bytes queue_id ev))
  = Some (log_event_of queue_id ev, parser_at (slen (log_bytes queue_id ev)) []).
Proof.
  intros Hp. destruct (stored_bytes _ _ Hp) as (ss & Es & _ & -> & _).
  destruct (pushable_bounds _ _ Hp) as (Hq & Hid & Hx & _ & Hextra). rewrite new_parser_at.
  set (total := slen _). clearbody total. unfold parse_log_event.
  rewrite fetch_long_store by done. cbn [mbind option_bind].
  rewrite fetch_int_store by (unfold in_int32, INT32_MAX, MAX_ID in *; lia). cbn [mbind option_bind].
  rewrite fetch_int_store by (unfold in_int32; lia). cbn [mbind option_bind].
  rewrite (fetch_string_store _ _ _ _ Es). cbn [mbind option_bind].
  unfold magic_of, log_event_of. cbn [le_extra]. destruct (Z.eqb_spec (extra ev) 0) as [->|Hne]; cbn [negb].
  - replace (BINLOG_EVENT_TYPE + 0 - BINLOG_EVENT_TYPE =? 0) with true by lia. done.
  - replace (BINLOG_EVENT_TYPE + 1 - BINLOG_EVENT_TYPE =? 0) with false by lia.
    rewrite <- (app_nil_r (store_long (extra ev))), fetch_long_store by done. done.
Qed.

Lemma log_bytes_data queue_id ev e :
  pushable queue_id ev = true → default [] (get_data e) = log_bytes queue_id ev → get_data e = Some (log_bytes queue_id ev).
Proof.
  intros Hp E. destruct (get_data e) as [data|]; cbn [default] in E; unfold Datatypes.id in E; [by rewrite E|exfalso].
  destruct (stored_bytes _ _ Hp) as (ss & _ & _ & Eb & _). rewrite Eb in E. apply (f_equal slen) in E.
  rewrite slen_app, store_long_slen in E. change (slen []) with 0 in E.
  pose proof (slen_nonneg (store_int (event_id ev) ++ store_int (expires_at ev) ++ ss
                           ++ (if negb (extra ev =? 0) then store_long (extra ev) else []))). lia.
Qed.

(** Replaying an event pushes what was stored. *)
Lemma replay_stored {S} `{StorageCallback S} e queue_id ev (q : tqueue S) :
  pushable queue_id ev = true → payload e = encode (queue_id, ev) →
  binlog_replay e q = do_push queue_id (set_log_event_id (id_ e) ev) q.
Proof.
  intros Hp. unfold payload, encode. cbn [fst snd]. intros [= Et Eb]. unfold binlog_replay.
  rewrite Et, (log_bytes_data _ _ _ Hp Eb). cbn [mbind option_bind].
  pose proof (magic_range (log_event_of queue_id ev)) as Hm. set (has_extra := magic_of _ - BINLOG_EVENT_TYPE).
  assert (negb (has_extra =? 0) && negb (has_extra =? 1) = false) as ->.
  { assert (has_extra = 0 ∨ has_extra = 1) as [-> | ->] by (unfold has_extra; lia); done. }
  unfold has_extra. rewrite parse_stored by done. cbn [mbind option_bind]. rewrite fetch_end_at. cbn [mbind option_bind].
  unfold get_status. rewrite bool_decide_eq_true_2 by done. cbn [le_event_id log_event_of].
  destruct (pushable_bounds _ _ Hp) as (_ & Hid & _). unfold from_int32, is_valid_id.
  rewrite (proj2 (Z.leb_le 0 _)), (proj2 (Z.ltb_lt _ MAX_ID)) by lia. done.
Qed.

(** A call does the operation of the binlog that it stands for. *)
Lemma run_call_bop crc32 opened c b st :
  is_Some (spec_call c st) → run_call crc32 (opened, c) b = run_op crc32 (opened, bop_of c) b.
Proof.
  destruct st as [last m]. unfold spec_call. intros [st' Hspec]. destruct (negb (last + 1 <? 2 ^ 62)); [done|].
  destruct c as [queue_id ev|id|]; [|done|done]. destruct (pushable queue_id ev) eqn:Hp; [cbn [negb] in Hspec|done].
  destruct (stored_bytes _ _ Hp) as (ss & _ & Es & _ & Hsize & _). unfold run_call, run_op, binlog_push, bop_of. cbn [fst snd].
  rewrite Es. cbn [mbind option_bind]. rewrite <- Hsize. destruct (log_event_id ev =? 0); [done|].
  by destruct (rewrite crc32 opened (log_event_id ev) _ _ (log_bytes queue_id ev) b) as [[? ?]|].
Qed.

Lemma spec_call_bop c last m last' m' :
  spec_call c (last, m) = Some (last', m') → spec_op (bop_of c) (last, encode <$> m) = Some (last', encode <$> m').
Proof.
  unfold spec_call, spec_op. destruct (negb (last + 1 <? 2 ^ 62)); [done|].
  destruct c as [queue_id ev|id|]; cbn [bop_of].
  - destruct (pushable queue_id ev) eqn:Hp; [cbn [negb]|done].
    destruct (stored_bytes _ _ Hp) as (ss & _ & _ & _ & _ & Hm & Hmax). pose proof (magic_range (log_event_of queue_id ev)) as Hmag.
    assert ((0 <=? magic_of (log_event_of queue_id ev)) && (magic_of (log_event_of queue_id ev) <=? INT32_MAX)
            && (slen (log_bytes queue_id ev) + MIN_SIZE <=? MAX_SIZE) && (slen (log_bytes queue_id ev) mod 4 =? 0) = true) as Hfits.
    { rewrite !andb_true_iff, !Z.leb_le, Z.eqb_eq. unfold BINLOG_EVENT_TYPE, INT32_MAX in *. split_and!; [lia|lia|done|done]. }
    destruct (log_event_id ev =? 0).
    + intros [= <- <-]. rewrite Hfits. by rewrite fmap_insert.
    + rewrite lookup_fmap. destruct (m !! log_event_id ev); cbn [fmap option_fmap option_map mbind option_bind]; [|done].
      intros [= <- <-]. rewrite Hfits. by rewrite fmap_insert.
  - rewrite lookup_fmap. destruct (m !! id); cbn [fmap option_fmap option_map mbind option_bind]; [|done].
    intros [= <- <-]. by rewrite fmap_delete.
  - by intros [= <- <-].
Qed.

Lemma spec_calls_bops calls last m last' m' :
  spec_calls calls (last, m) = Some (last', m') →
  spec_ops (bop_of <$> calls) (last, encode <$> m) = Some (last', encode <$> m').
Proof.
  revert last m. induction calls as [|c calls IH]; intros last m; cbn [spec_calls fmap list_fmap spec_ops].
  - by intros [= <- <-].
  - destruct (spec_call c (last, m)) as [[l1 m1]|] eqn:E; [|done]. cbn [mbind option_bind].
    rewrite (spec_call_bop _ _ _ _ _ E). cbn [mbind option_bind]. apply IH.
Qed.

Lemma run_calls_bops crc32 calls st b :
  is_Some (spec_calls (snd <$> calls) st) →
  run_calls crc32 calls b = run_ops crc32 ((fun x => (x.1, bop_of x.2)) <$> calls) b.
Proof.
  revert st b. induction calls as [|[opened c] calls IH]; intros st b; [done|]. cbn [fmap list_fmap snd spec_calls]. intros Hs.
  destruct (spec_call c st) as [st1|] eqn:E; [|by destruct Hs]. cbn [mbind option_bind] in Hs.
  cbn [run_calls run_ops fst snd]. rewrite (run_call_bop _ _ _ _ st) by done. by destruct (run_op _ _ _); [eapply IH|].
Qed.

(** A batch is the calls for its events. *)
Lemma pop_batch_calls crc32 opened ids b :
  binlog_pop_batch crc32 opened ids b = run_calls crc32 ((fun id => (opened, CPop id)) <$> ids) b.
Proof.
  unfold binlog_pop_batch. revert b. induction ids as [|id ids IH]; intros b; [done|].
  cbn [erase_batch fmap list_fmap run_calls]. unfold run_call, binlog_pop. cbn [fst snd].
  destruct (erase crc32 opened id b) as [[? b1]|]; [|done]. apply IH.
Qed.

(** ** Everything that is stored is pushable *)

Definition all_pushable (m : queue_events) : Prop := map_Forall (fun _ x => pushable x.1 x.2 = true) m.

Lemma spec_call_pushable c last m last' m' :
  spec_call c (last, m) = Some (last', m') → all_pushable m → all_pushable m'.
Proof.
  unfold spec_call. destruct (negb (last + 1 <? 2 ^ 62)); [done|]. intros E Hm. destruct c as [queue_id ev|id|].
  - destruct (pushable queue_id ev) eqn:Hp; [cbn [negb] in E|done].
    destruct (log_event_id ev =? 0); [|destruct (m !! log_event_id ev); [cbn [mbind option_bind] in E|done]];
      simplify_eq; by apply map_Forall_insert_2.
  - destruct (m !! id); [cbn [mbind option_bind] in E|done]. simplify_eq. by apply map_Forall_delete.
  - by simplify_eq.
Qed.

Lemma spec_calls_pushable calls last m last' m' :
  spec_calls calls (last, m) = Some (last', m') → all_pushable m → all_pushable m'.
Proof.
  revert last m. induction calls as [|c calls IH]; intros last m; cbn [spec_calls]; [by intros [= _ <-]|].
  destruct (spec_call c (last, m)) as [[l1 m1]|] eqn:E; [|done]. cbn [mbind option_bind]. intros Hs Hm.
  eapply IH; [exact Hs|]. by eapply spec_call_pushable.
Qed.

Lemma spec_calls_take calls n st st' : spec_calls calls st = Some st' → is_Some (spec_calls (take n calls) st).
Proof.
  revert n st. induction calls as [|c calls IH]; intros n st; [by rewrite take_nil; eexists|]. destruct n as [|n]; [by eexists|].
  cbn [take spec_calls]. destruct (spec_call c st); [|done]. cbn [mbind option_bind]. apply IH.
Qed.

Lemma spec_call_last c last m last' m' : spec_call c (last, m) = Some (last', m') → last <= last'.
Proof.
  unfold spec_call. destruct (negb _); [done|]. intros E. destruct c as [queue_id ev|id|]; [| |simplify_eq; done].
  - destruct (negb _); [done|]. destruct (log_event_id ev =? 0); [simplify_eq; lia|]. destruct (m !! _); [|done]. cbn in E. simplify_eq. lia.
  - destruct (m !! _); [|done]. cbn in E. simplify_eq. lia.
Qed.

Lemma spec_calls_last calls n st last m last' m' :
  spec_calls calls st = Some (last, m) → spec_calls (take n calls) st = Some (last', m') → last' <= last.
Proof.
  assert (∀ calls st last m, spec_calls calls st = Some (last, m) → st.1 <= last) as Hmono.
  { clear. induction calls as [|c calls IH]; intros [l0 m0] last m; cbn [spec_calls]; [by intros [= -> ->]|].
    destruct (spec_call c (l0, m0)) as [[l1 m1]|] eqn:E; [|done]. cbn [mbind option_bind]. intros Hs.
    apply spec_call_last in E. specialize (IH _ _ _ Hs). cbn in *. lia. }
  revert n st. induction calls as [|c calls IH]; intros n st; cbn [spec_calls].
  - rewrite take_nil. intros [= ->] [= -> ->]. lia.
  - destruct n as [|n]; cbn [take spec_calls]; intros H1 H2.
    + injection H2 as ->. apply (Hmono (c :: calls) (last', m') last m). exact H1.
    + destruct (spec_call c st); [|done]. by eapply IH.
Qed.

(** ** The events of the binlog are those of the map, in order *)

Definition fst_before {A} (x y : Z * A) : Prop := x.1 < y.1.
#[global] Instance fst_before_antisymm {A} : AntiSymm (=) (@fst_before A).
Proof. intros x y. unfold fst_before. lia. Qed.

Definition sorted_map {A} (m : gmap Z A) (l : list (Z * A)) : Prop := StronglySorted fst_before l ∧ l ≡ₚ map_to_list m.

Lemma sorted_map_unique {A} (m : gmap Z A) l l' : sorted_map m l → sorted_map m l' → l = l'.
Proof. intros [Hs Hp] [Hs' Hp']. apply (StronglySorted_unique fst_before); [done..|]. by rewrite Hp. Qed.

Lemma by_id_sorted (m : queue_events) : sorted_map m (merge_sort by_id (map_to_list m)).
Proof.
  assert (StronglySorted by_id (merge_sort by_id (map_to_list m))) as Hs.
  { apply StronglySorted_merge_sort; apply _. }
  pose proof (merge_sort_Permutation by_id (map_to_list m)) as Hp. split; [|done].
  assert (NoDup (merge_sort by_id (map_to_list m)).*1) as Hnd by (rewrite Hp; apply NoDup_fst_map_to_list). clear Hp.
  induction Hs as [|x l Hs IH Hf]; [constructor|]. apply NoDup_cons in Hnd as [Hx Hnd]. constructor; [auto|].
  rewrite Forall_forall in Hf |- *. intros y Hy. specialize (Hf y Hy). unfold by_id, fst_before in *.
  assert (x.1 ≠ y.1); [|lia]. intros E. apply Hx. rewrite E. by apply list_elem_of_fmap_2.
Qed.

Lemma sorted_map_fmap {A B} (f : A → B) (m : gmap Z A) l : sorted_map m l → sorted_map (f <$> m) (prod_map Datatypes.id f <$> l).
Proof.
  intros [Hs Hp]. split; [|by rewrite map_to_list_fmap, Hp]. clear Hp.
  induction Hs as [|x l Hs IH Hf]; cbn; constructor; [done|]. apply Forall_fmap. eapply Forall_impl; [exact Hf|]. done.
Qed.

Lemma events_sorted_map es : StronglySorted id_before es → sorted_map (events_map es) ((fun e => (id_ e, payload e)) <$> es).
Proof.
  intros Hs. assert (StronglySorted fst_before ((fun e => (id_ e, payload e)) <$> es)) as Hs'.
  { induction Hs as [|e es Hs IH Hf]; cbn; constructor; [done|]. apply Forall_fmap. eapply Forall_impl; [exact Hf|]. done. }
  split; [done|]. unfold events_map. symmetry. apply map_to_list_to_map. clear Hs. revert Hs'. generalize ((fun e => (id_ e, payload e)) <$> es).
  induction 1 as [|x l Hs IH Hf]; cbn; constructor; [|done]. intros (y & E & Hy)%list_elem_of_fmap.
  rewrite Forall_forall in Hf. specialize (Hf y Hy). unfold fst_before in Hf. lia.
Qed.

(** Replaying the binlog pushes what the map holds, as [replay_events] does. *)
Lemma replay_all_events {S} `{StorageCallback S} es (l : list (Z * (Z * RawEvent))) (q q' : tqueue S) :
  ((fun e => (id_ e, payload e)) <$> es) = (prod_map Datatypes.id encode <$> l) →
  Forall (fun x => pushable x.2.1 x.2.2 = true) l →
  replay_events l q = Some q' → replay_all es q = Some (q', []).
Proof.
  revert l q. induction es as [|e es IH]; intros l q E Hl Hr.
  - destruct l; [|done]. cbn in Hr. by simplify_eq.
  - destruct l as [|[id [queue_id ev]] l]; [done|]. apply Forall_cons in Hl as [Hp Hl]. cbn [fmap list_fmap prod_map fst snd] in E.
    injection E as Eid Et Ed E. cbn [replay_all replay_events] in *.
    rewrite (replay_stored e queue_id ev) by (try done; unfold payload, encode; by rewrite Et, Ed).
    unfold Datatypes.id in Eid. rewrite Eid. destruct (do_push queue_id (set_log_event_id id ev) q) as [[[] q1]|]; cbn [mbind option_bind CHECK] in *; [|done..].
    by rewrite (IH l q1 E Hl Hr).
Qed.

(** ** Replaying never aborts *)

Section Total.
Context {S : Type} `{StorageLaws S}.

Lemma do_push_total queue_id ev (t : tqueue S) :
  tqueue_ok t → callback_ t = None → 0 < event_id ev → event_id ev + 1 < MAX_ID →
  ∃ added t', do_push queue_id ev t = Some (added, t') ∧ tqueue_ok t' ∧ callback_ t' = None.
Proof.
  intros Hok Hcb Hpos Hmax.
  destruct ((MAX_EVENT_LENGTH <? slen (data ev)) || (queue_id =? 0)) eqn:E1;
    [|destruct ((MAX_QUEUE_EVENTS <=? slen (events (queue_at queue_id t)))
               || (MAX_TOTAL_EVENT_LENGTH - slen (data ev) <? total_event_length (queue_at queue_id t)) || (expires_at ev <=? 0)) eqn:E2;
     [|destruct (event_id ev <? tail_id (queue_at queue_id t)) eqn:E3]].
  4:{ pose proof (q_total _ (queue_at_ok queue_id _ Hok)) as Htot.
      destruct (do_push_ok queue_id ev t) as (id & gc & set & cb & -> & Hok' & _ & Hc); try solve [done|lia|by left].
      eexists true, _. split; [done|]. split; [done|]. cbn. destruct cb as [s|]; [|done].
      destruct (proj1 Hc (mk_is_Some _ _ eq_refl)). congruence. }
  all: unfold do_push; cbn zeta; rewrite E1; cbv zeta; unfold CHECK, id_valid, id_empty, is_valid_id;
    replace (negb (event_id ev =? 0) && ((0 <=? event_id ev) && (event_id ev <? MAX_ID))) with true by lia.
  - eauto.
  - rewrite E2. eexists false, _. split; [done|]. split; [apply put_queue_ok; [lia|done]|done].
  - rewrite E2, E3. eexists false, _. split; [done|]. split; [apply put_queue_ok; [lia|done]|done].
Qed.

Lemma replay_all_total es (t : tqueue S) :
  tqueue_ok t → callback_ t = None →
  Forall (fun e => ∃ queue_id ev, pushable queue_id ev = true ∧ payload e = encode (queue_id, ev)) es →
  ∃ t' failed, replay_all es t = Some (t', failed) ∧ tqueue_ok t' ∧ callback_ t' = None ∧ sublist failed (id_ <$> es).
Proof.
  intros Hok Hcb Hes. revert t Hok Hcb. induction Hes as [|e es (queue_id & ev & Hp & Hpay) _ IH]; intros t Hok Hcb; cbn [replay_all].
  - exists t, []. by split_and!.
  - rewrite (replay_stored e queue_id ev t Hp Hpay). destruct (pushable_bounds _ _ Hp) as (_ & Hid & _).
    destruct (do_push_total queue_id (set_log_event_id (id_ e) ev) t Hok Hcb) as (added & t1 & -> & Hok1 & Hcb1); [apply Hid..|].
    cbn [mbind option_bind]. destruct (IH t1 Hok1 Hcb1) as (t' & failed & -> & Hok' & Hcb' & Hsub). cbn [mbind option_bind].
    eexists t', _. do 3 (split; [done|]). cbn [fmap list_fmap].
    destruct added; by constructor.
Qed.
End Total.

(** ** The storage survives restarts and crashes *)

Section Survives.
Variable crc32 : slice → Z.
Hypothesis crc32_range : ∀ s, 0 <= crc32 s < 2 ^ 32.
Context {S : Type} `{StorageLaws S}.

Definition calls_since_sync (calls : list (bool * call)) (n : nat) : Prop := ∀ x, x ∈ drop n calls → x.2 ≠ CSync.

Lemma erase_failed_ok opened failed m b rs :
  running crc32 m b rs → NoDup failed → (∀ id, id ∈ failed → is_Some (m !! id)) → last_event_id_ b + slen failed < 2 ^ 62 →
  ∃ b' rs' m', erase_failed crc32 opened failed b = Some b' ∧ running crc32 m' b' rs' ∧ (∀ id, id ∈ failed → m' !! id = None)
    ∧ ∀ id, id ∉ failed → m' !! id = m !! id.
Proof.
  revert m b rs. induction failed as [|id failed IH]; intros m b rs Hrun Hnd Hm Hl; cbn [erase_failed].
  - exists b, rs, m. split_and!; try done. by intros id Hid%not_elem_of_nil.
  - apply NoDup_cons in Hnd as [Hid Hnd]. destruct (Hm id ltac:(by left)) as [v Hv].
    unfold slen in Hl. cbn [length] in Hl.
    destruct (op_ok crc32 crc32_range m b rs (opened, BErase id) (last_event_id_ b + 1) (delete id m) Hrun) as (b1 & rs1 & E & Hrun1 & El & _).
    { unfold spec_op. cbn [snd]. rewrite (proj2 (Z.ltb_lt _ _)) by lia. cbn [negb]. by rewrite Hv. }
    unfold run_op in E. cbn [fst snd] in E. unfold binlog_pop. rewrite E. cbn [mbind option_bind].
    destruct (IH (delete id m) b1 rs1 Hrun1 Hnd) as (b' & rs' & m' & E' & Hrun' & Hin & Hout).
    + intros id' Hid'. rewrite lookup_delete_ne by (intros ->; exact (Hid Hid')). apply Hm. by right.
    + unfold slen. lia.
    + exists b', rs', m'. split; [done|]. split; [done|]. split.
      * intros id' [->|Hid']%elem_of_cons; [|by apply Hin]. rewrite Hout by done. by rewrite lookup_delete_eq.
      * intros id' Hid'. apply not_elem_of_cons in Hid' as [Hne Hid']. rewrite Hout by done. by rewrite lookup_delete_ne.
Qed.

(** Events whose identifiers are distinct and at most [last] are at most that many. *)
Lemma ids_bounded (ids : list Z) last : NoDup ids → (∀ id, id ∈ ids → 0 <= id <= last) → 0 <= last → slen ids <= last + 1.
Proof.
  intros Hnd Hb Hl. assert (ids ⊆+ seqZ 0 (last + 1)) as Hs.
  { apply NoDup_submseteq; [done|]. intros id Hid. apply elem_of_seqZ. specialize (Hb id Hid). lia. }
  apply submseteq_length in Hs. rewrite length_seqZ in Hs. unfold slen. lia.
Qed.

(** What [init] gave is replayed, and what failed is erased. *)
Lemma start_up_ok opened bytes es b (m : queue_events) rs :
  init crc32 bytes = Some (es, b) → events_map es = encode <$> m → StronglySorted id_before es →
  running crc32 (encode <$> m) b rs → all_pushable m → last_event_id_ b < 2 ^ 61 →
  ∃ (q : tqueue S) b', start_up_tqueue crc32 opened bytes = Some (q, b') ∧ tqueue_ok q
    ∧ (∀ q', replay_events (merge_sort by_id (map_to_list m)) new_tqueue = Some q' → q = q' ∧ b' = b).
Proof.
  intros Ei Em Hs Hrun Hp Hl. unfold start_up_tqueue. rewrite Ei. cbn [mbind option_bind].
  set (l := merge_sort by_id (map_to_list m)).
  assert (((fun e => (id_ e, payload e)) <$> es) = (prod_map Datatypes.id encode <$> l)) as El.
  { apply (sorted_map_unique (encode <$> m)); [rewrite <- Em; by apply events_sorted_map|apply sorted_map_fmap, by_id_sorted]. }
  assert (Forall (fun x => pushable x.2.1 x.2.2 = true) l) as Hl'.
  { apply Forall_forall. intros [id x] Hx. unfold l in Hx. rewrite merge_sort_Permutation in Hx.
    apply elem_of_map_to_list in Hx. by apply (Hp id x). }
  assert (Forall (fun e => is_Some (m !! id_ e) ∧ ∃ queue_id ev, pushable queue_id ev = true ∧ payload e = encode (queue_id, ev)) es) as Hes.
  { apply Forall_forall. intros e He. assert ((id_ e, payload e) ∈ (prod_map Datatypes.id encode <$> l)) as Hin.
    { rewrite <- El. by apply (list_elem_of_fmap_2 (fun e => (id_ e, payload e))). }
    apply list_elem_of_fmap in Hin as ([id [queue_id ev]] & [= Eid Et Ed] & Hx). rewrite Forall_forall in Hl'. split.
    - unfold l in Hx. rewrite merge_sort_Permutation in Hx. apply elem_of_map_to_list in Hx. unfold Datatypes.id in Eid. rewrite Eid. by eexists.
    - exists queue_id, ev. split; [exact (Hl' _ Hx)|]. unfold payload, encode. cbn. by rewrite Et, Ed. }
  destruct (replay_all_total es (new_tqueue : tqueue S)) as (q & failed & Er & Hok & Hcb & Hsub);
    [apply new_tqueue_ok|done|by eapply Forall_impl; [exact Hes|intros e [_ ?]]|].
  pose proof (ids_sorted_nodup es Hs) as Hnd.
  assert (∀ id, id ∈ failed → is_Some ((encode <$> m) !! id)) as Hin.
  { intros id Hid. assert (id ∈ (id_ <$> es)) as (e & -> & He)%list_elem_of_fmap by (by eapply elem_of_submseteq, sublist_submseteq).
    rewrite Forall_forall in Hes. destruct (Hes e He) as [[v Hv] _]. rewrite lookup_fmap, Hv. by eexists. }
  assert (NoDup failed) as Hndf by (by eapply sublist_NoDup).
  pose proof (rn_last _ _ _ _ Hrun) as Hl0.
  assert (slen failed <= last_event_id_ b + 1) as Hlen.
  { apply ids_bounded; [done| |done]. intros id Hid. destruct (Hin id Hid) as [v Hv]. by eapply running_bound. }
  destruct (erase_failed_ok opened failed _ b rs Hrun Hndf Hin ltac:(lia)) as (b' & _ & _ & Ee & _).
  exists q, b'. rewrite Er. cbn [mbind option_bind]. rewrite Ee. split; [done|]. split; [done|]. intros q' Hq'.
  rewrite (replay_all_events es l _ q' El Hl' Hq') in Er. injection Er as -> <-. cbn in Ee. by injection Ee.
Qed.

(** C25: The updates of the bots survive a crash: any calls of the queue on its storage succeed from an
    empty file on, and whatever prefix of the file is left, not shorter than what was synced, the server
    comes up with the queue that one gets by pushing again the events that the first n calls stored, n being
    no less than the calls before the last sync, and all of them when nothing is lost. *)
Theorem queue_storage_survives calls last m :
  spec_calls (snd <$> calls) (0, ∅) = Some (last, m) → last < 2 ^ 61 →
  ∃ b, run_calls crc32 calls new_binlog = Some b
    ∧ ∀ k, synced b <= Z.of_nat k <= slen (file b) →
      ∃ n last' m', (n <= length calls)%nat ∧ calls_since_sync calls n ∧ (k = length (file b) → n = length calls)
        ∧ spec_calls (take n (snd <$> calls)) (0, ∅) = Some (last', m')
        ∧ ∀ opened, ∃ (q : tqueue S) b', start_up_tqueue crc32 opened (take k (file b)) = Some (q, b') ∧ tqueue_ok q
          ∧ ∀ q', replay_events (merge_sort by_id (map_to_list m')) new_tqueue = Some q' → q = q'.
Proof.
  intros Hspec Hlast. pose proof (spec_calls_bops _ _ _ _ _ Hspec) as Hb. rewrite fmap_empty in Hb.
  set (ops := (fun x => (x.1, bop_of x.2)) <$> calls).
  assert (bop_of <$> (snd <$> calls) = snd <$> ops) as Eops by (unfold ops; by rewrite <- !list_fmap_compose).
  rewrite Eops in Hb. destruct (run_ok crc32 crc32_range ops _ _ Hb) as (b & rs & Eb & Hrun & _ & Hd).
  exists b. rewrite (run_calls_bops crc32 calls (0, ∅)) by eauto. split; [done|]. intros k Hk.
  destruct (recovered crc32 crc32_range ops b rs _ k Hrun Hd Hk)
    as (n & l & mb & es & b' & Hn & Hs & Hfull & Hsp & Ei & Em & Hsorted & (rs' & Hrun') & Hle).
  destruct (spec_calls_take _ n _ _ Hspec) as [[last' m'] Ht].
  pose proof (spec_calls_bops _ _ _ _ _ Ht) as Hbt. rewrite fmap_empty, fmap_take, Eops, Hsp in Hbt. injection Hbt as <- ->.
  unfold ops in Hn, Hfull. rewrite length_fmap in Hn, Hfull. exists n, l, m'. split; [done|]. split; [|split; [done|split; [done|]]].
  - intros x Hx E. apply (Hs (x.1, bop_of x.2)); [|cbn; by rewrite E]. unfold ops. rewrite <- fmap_drop.
    by apply (list_elem_of_fmap_2 (fun x => (x.1, bop_of x.2))).
  - intros opened. destruct (start_up_ok opened _ es b' m' rs' Ei Em Hsorted Hrun') as (q & b2 & E & Hok & Hq).
    + by eapply spec_calls_pushable.
    + pose proof (spec_calls_last _ n _ _ _ _ _ Hspec Ht). lia.
    + exists q, b2. split; [done|]. split; [done|]. intros q' Hq'. by destruct (Hq q' Hq').
Qed.
End Survives.

Definition demo_event (log id : Z) (text : string) (extra : Z) : RawEvent := mkRawEvent log id 2000000000 (lit text) extra.
Definition demo_calls : list (bool * call) :=
  [(true, CPush 7 (demo_event 0 100 "hello" 0)); (true, CPush 7 (demo_event 0 101 "world" 5)); (true, CPop 1); (true, CSync);
   (false, CPush 7 (demo_event 2 101 "" 5)); (true, CPush 8 (demo_event 0 1 "!" 0))].

Theorem queue_storage_survives_witness :
  ∃ b, run_calls demo_crc32 demo_calls new_binlog = Some b
    ∧ ∀ k, synced b <= Z.of_nat k <= slen (file b) →
      ∃ n last' m', (n <= length demo_calls)%nat ∧ calls_since_sync demo_calls n ∧ (k = length (file b) → n = length demo_calls)
        ∧ spec_calls (take n (snd <$> demo_calls)) (0, ∅) = Some (last', m')
        ∧ ∀ opened, ∃ (q : tqueue TQueueMemoryStorage) b', start_up_tqueue demo_crc32 opened (take k (file b)) = Some (q, b') ∧ tqueue_ok q
          ∧ ∀ q', replay_events (merge_sort by_id (map_to_list m')) new_tqueue = Some q' → q = q'.
Proof.
  apply (queue_storage_survives demo_crc32 demo_crc32_range demo_calls 5
           (<[5 := (8, demo_event 0 1 "!" 0)]> (<[2 := (7, demo_event 2 101 "" 5)]> ∅))); [vm_compute; reflexivity|reflexivity].
Defined.
