(* ===== verification/BinlogKeyValue.v ===== *)
(** * Key-value storage in a binlog

    [td/db/BinlogKeyValue.h] over a [Binlog]: the database of the webhooks.
    [WaitFreeHashMap] is a map; the locks are left out, as the operations of one
    object do not overlap. *)

From stdpp Require Import gmap sorting.
From S2P Require Import Prelude Slices TlStorage Binlog.

Definition MAGIC : Z := 0x2a280000.

(** ** [Event] *)

Definition kv_store (key value : slice) : option slice :=
  k ← store_string key;
  v ← store_string value;
  Some (k ++ v).
Definition kv_size (key value : slice) : Z := calc_string_length key + calc_string_length value.
Definition kv_parse (parser : TlParser) : option (slice * slice * TlParser) :=
  '(key, parser) ← fetch_string parser;
  '(value, parser) ← fetch_string parser;
  Some (key, value, parser).

(** ** [BinlogKeyValue] *)

(** What a key has: its value and the identifier of its event. *)
Abbreviation kv_map := (gmap slice (slice * Z)).
Record BinlogKeyValue := mkKeyValue { map_ : kv_map; binlog_ : binlog }.

Section KeyValue.
Variable crc32 : slice → Z.

(** The callback of [init]. *)
Definition kv_handle (e : BinlogEvent) (m : kv_map) : option kv_map :=
  data ← get_data e;
  '(key, value, parser) ← kv_parse (new_parser data);
  parser ← fetch_end parser;
  (CHECK! bool_decide (get_status parser = None) ;;
   if bool_decide (key = []) then Some m else Some (<[key := (value, id_ e)]> m))%td.
Fixpoint kv_handle_all (es : list BinlogEvent) (m : kv_map) : option kv_map :=
  match es with [] => Some m | e :: es => m ← kv_handle e m; kv_handle_all es m end.

Definition kv_init (bytes : slice) : option BinlogKeyValue :=
  '(es, b) ← init crc32 bytes;
  m ← kv_handle_all es ∅;
  Some (mkKeyValue m b).

(** [opened] is for [Binlog::do_reindex]. *)
Definition kv_set (opened : bool) (key value : slice) (s : BinlogKeyValue) : option (Z * BinlogKeyValue) :=
  (CHECK! negb (bool_decide (key = [])) ;;
   let it := default ([], 0) (map_ s !! key) in
   if negb (it.2 =? 0) && bool_decide (it.1 = value) then Some (0, s)
   else
     let '(seq_no, b) := next_event_id (binlog_ s) in
     let rewrite := negb (it.2 =? 0) in
     let event_id := if rewrite then it.2 else seq_no in
     bytes ← kv_store key value;
     b ← add_raw_event crc32 opened
           (create_raw crc32 event_id MAGIC (if rewrite then Rewrite else 0) (kv_size key value) bytes) b;
     Some (seq_no, mkKeyValue (<[key := (value, event_id)]> (map_ s)) b))%td.

Definition kv_erase (opened : bool) (key : slice) (s : BinlogKeyValue) : option (Z * BinlogKeyValue) :=
  match map_ s !! key with
  | None => Some (0, s)
  | Some (_, event_id) =>
      let '(seq_no, b) := next_event_id (binlog_ s) in
      b ← add_raw_event crc32 opened (create_raw crc32 event_id Empty Rewrite 0 []) b;
      Some (seq_no, mkKeyValue (delete key (map_ s)) b)
  end.

(** The loop of [erase_batch]: the identifiers of the events, and the map. *)
Fixpoint erased_ids (keys : list slice) (m : kv_map) : list Z * kv_map :=
  match keys with
  | [] => ([], m)
  | key :: keys =>
      match m !! key with
      | Some (_, id) => let '(ids, m) := erased_ids keys (delete key m) in (id :: ids, m)
      | None => erased_ids keys m
      end
  end.
Definition kv_erase_batch (opened : bool) (keys : list slice) (s : BinlogKeyValue) : option BinlogKeyValue :=
  let '(log_event_ids, m) := erased_ids keys (map_ s) in
  b ← erase_batch crc32 opened log_event_ids (binlog_ s);
  Some (mkKeyValue m b).

Definition kv_isset (key : slice) (s : BinlogKeyValue) : bool := bool_decide (is_Some (map_ s !! key)).
Definition kv_get (key : slice) (s : BinlogKeyValue) : slice := (default ([], 0) (map_ s !! key)).1.
Definition get_all (s : BinlogKeyValue) : gmap slice slice := fst <$> map_ s.
Definition kv_sync (s : BinlogKeyValue) : BinlogKeyValue := mkKeyValue (map_ s) (sync (binlog_ s)).

(** ** Runs *)

Inductive kv_op := KSet (key value : slice) | KErase (key : slice) | KSync.
Definition run_kv (x : bool * kv_op) (s : BinlogKeyValue) : option BinlogKeyValue :=
  match x.2 with
  | KSet key value => snd <$> kv_set x.1 key value s
  | KErase key => snd <$> kv_erase x.1 key s
  | KSync => Some (kv_sync s)
  end.
Fixpoint run_kvs (ops : list (bool * kv_op)) (s : BinlogKeyValue) : option BinlogKeyValue :=
  match ops with [] => Some s | x :: ops => s ← run_kv x s; run_kvs ops s end.
End KeyValue.

(** The map that a client of the storage has in mind. *)
Definition kv_apply (m : gmap slice slice) (op : kv_op) : gmap slice slice :=
  match op with KSet key value => <[key := value]> m | KErase key => delete key m | KSync => m end.
Definition kv_contents (ops : list kv_op) : gmap slice slice := foldl kv_apply ∅ ops.

(** A key is not empty, and a pair fits into an event. *)
Definition kv_fits (key value : slice) : Prop :=
  key ≠ [] ∧ slen key < 2 ^ 32 ∧ slen value < 2 ^ 32 ∧ kv_size key value + MIN_SIZE <= MAX_SIZE.
Definition kv_allowed (op : kv_op) : Prop := match op with KSet key value => kv_fits key value | _ => True end.

(** ** Events as bytes *)

Definition kv_bytes (key value : slice) : slice := default [] (kv_store key value).
Definition kv_encode (key value : slice) : Z * slice := (MAGIC, kv_bytes key value).

Lemma kv_stored key value :
  kv_fits key value →
  ∃ k v, store_string key = Some k ∧ store_string value = Some v ∧ kv_bytes key value = k ++ v
    ∧ kv_store key value = Some (kv_bytes key value) ∧ slen (kv_bytes key value) = kv_size key value
    ∧ slen (kv_bytes key value) mod 4 = 0.
Proof.
  intros (_ & Hk & Hv & _).
  assert (∀ s, slen s < 2 ^ 32 → is_Some (store_string s)) as Hs.
  { intros s Hs. unfold store_string. change (Z.shiftl 1 32) with (2 ^ 32). rewrite (proj2 (Z.ltb_lt _ _)) by done. by eexists. }
  destruct (Hs _ Hk) as [k Ek], (Hs _ Hv) as [v Ev]. exists k, v. unfold kv_bytes, kv_store. rewrite Ek, Ev. cbn [mbind option_bind default].
  do 4 (split; [done|]). unfold Datatypes.id, kv_size. rewrite slen_app.
  destruct (calc_string_length_ok _ _ Ek) as [E1 H1], (calc_string_length_ok _ _ Ev) as [E2 H2].
  split; [by rewrite E1, E2|]. by rewrite Z.add_mod, H1, H2.
Qed.

Lemma kv_parse_stored key value :
  kv_fits key value →
  kv_parse (new_parser (kv_bytes key value)) = Some (key, value, parser_at (slen (kv_bytes key value)) []).
Proof.
  intros Hf. destruct (kv_stored _ _ Hf) as (k & v & Ek & Ev & -> & _). unfold kv_parse. rewrite new_parser_at.
  set (total := slen _). clearbody total. rewrite (fetch_string_store _ _ _ _ Ek). cbn [mbind option_bind].
  rewrite <- (app_nil_r v). rewrite (fetch_string_store _ _ _ _ Ev). done.
Qed.

Lemma kv_encode_inj key value key' value' :
  kv_fits key value → kv_fits key' value' → kv_encode key value = kv_encode key' value' → key = key' ∧ value = value'.
Proof.
  intros H1%kv_parse_stored H2%kv_parse_stored [= E]. rewrite E, H2 in H1. by injection H1 as -> ->.
Qed.

Lemma kv_bytes_data key value e :
  kv_fits key value → payload e = kv_encode key value → get_data e = Some (kv_bytes key value).
Proof.
  intros Hf [= _ E]. destruct (get_data e) as [data|]; cbn [default] in E; unfold Datatypes.id in E; [by rewrite E|exfalso].
  pose proof (kv_parse_stored _ _ Hf) as Hp. rewrite <- E in Hp.
  destruct Hf as (Hk & _). vm_compute in Hp. injection Hp as <- _ _. done.
Qed.

Lemma kv_handle_stored key value e m :
  kv_fits key value → payload e = kv_encode key value → kv_handle e m = Some (<[key := (value, id_ e)]> m).
Proof.
  intros Hf He. unfold kv_handle. rewrite (kv_bytes_data _ _ _ Hf He). cbn [mbind option_bind].
  rewrite kv_parse_stored by done. cbn [mbind option_bind]. rewrite fetch_end_at. cbn [mbind option_bind].
  change (get_status _) with (@None slice). rewrite bool_decide_eq_true_2 by done. cbn [CHECK].
  destruct Hf as [Hk _]. by rewrite bool_decide_eq_false_2.
Qed.

(** ** The map and the events of the binlog *)

(** Each key has one event, and each event one key. *)
Record kv_rel (map : kv_map) (m : map_of) : Prop := {
  kr_key key value id : map !! key = Some (value, id) → m !! id = Some (kv_encode key value) ∧ kv_fits key value ∧ 0 < id;
  kr_event id x : m !! id = Some x → ∃ key value, map !! key = Some (value, id) ∧ x = kv_encode key value;
}.

Lemma kv_rel_inj map m key value key' value' id :
  kv_rel map m → map !! key = Some (value, id) → map !! key' = Some (value', id) → key = key'.
Proof.
  intros Hr H1 H2. destruct (kr_key _ _ Hr _ _ _ H1) as (E1 & F1 & _), (kr_key _ _ Hr _ _ _ H2) as (E2 & F2 & _).
  rewrite E1 in E2. injection E2 as E. by destruct (kv_encode_inj _ _ _ _ F1 F2) as [-> _]; [unfold kv_encode; by rewrite E|].
Qed.

Lemma kv_rel_set map m key value id :
  kv_rel map m → kv_fits key value → 0 < id → (∀ key' value', map !! key' = Some (value', id) → key' = key) →
  (∀ value' id', map !! key = Some (value', id') → id' = id) →
  kv_rel (<[key := (value, id)]> map) (<[id := kv_encode key value]> m).
Proof.
  intros Hr Hf Hid Hfresh Hsame. split.
  - intros key' value' id' [[<- [= <- <-]]|[Hne Hl]]%lookup_insert_Some; [by rewrite lookup_insert_eq|].
    destruct (kr_key _ _ Hr _ _ _ Hl) as (E & F & H0). split; [|done]. rewrite lookup_insert_ne; [done|].
    intros <-. by apply Hne, symmetry, (Hfresh _ value').
  - intros id' x [[<- <-]|[Hne Hl]]%lookup_insert_Some; [exists key, value; by rewrite lookup_insert_eq|].
    destruct (kr_event _ _ Hr _ _ Hl) as (key' & value' & E & ->). exists key', value'. split; [|done].
    rewrite lookup_insert_ne; [done|]. intros <-. by apply Hne, symmetry, (Hsame value').
Qed.

Lemma kv_rel_erase map m key value id :
  kv_rel map m → map !! key = Some (value, id) → kv_rel (delete key map) (delete id m).
Proof.
  intros Hr Hl. split.
  - intros key' value' id' [Hne Hl']%lookup_delete_Some. destruct (kr_key _ _ Hr _ _ _ Hl') as (E & F & H0). split; [|done].
    rewrite lookup_delete_ne; [done|]. intros <-. by apply Hne, (kv_rel_inj map m key value key' value' id).
  - intros id' x [Hne Hx]%lookup_delete_Some. destruct (kr_event _ _ Hr _ _ Hx) as (key' & value' & E & ->).
    exists key', value'. split; [|done]. rewrite lookup_delete_ne; [done|]. intros <-. rewrite Hl in E. by injection E as _ <-.
Qed.

Definition kv_pair (x : slice * (slice * Z)) : Z * (Z * slice) := (x.2.2, kv_encode x.1 x.2.1).

Lemma kv_rel_perm map m : kv_rel map m → map_to_list m ≡ₚ kv_pair <$> map_to_list map.
Proof.
  intros Hr. apply NoDup_Permutation; [apply NoDup_map_to_list| |].
  - apply NoDup_fmap_2_strong; [|apply NoDup_map_to_list]. intros [k1 [v1 i1]] [k2 [v2 i2]] H1%elem_of_map_to_list H2%elem_of_map_to_list E.
    unfold kv_pair in E. cbn in E. destruct (kr_key _ _ Hr _ _ _ H1) as (_ & F1 & _), (kr_key _ _ Hr _ _ _ H2) as (_ & F2 & _).
    injection E as -> E. destruct (kv_encode_inj _ _ _ _ F1 F2) as [-> ->]; [unfold kv_encode; by rewrite E|done].
  - intros [id x]. rewrite elem_of_map_to_list, list_elem_of_fmap. split.
    + intros Hx. destruct (kr_event _ _ Hr _ _ Hx) as (k & v & E & ->). exists (k, (v, id)). split; [done|]. by apply elem_of_map_to_list.
    + intros ([k [v i]] & [= -> ->] & Hin%elem_of_map_to_list). by apply (kr_key _ _ Hr).
Qed.

(** Reading the events, in any order, gives the map. *)
Lemma handle_all_inserts es l m :
  ((fun e => (id_ e, payload e)) <$> es) = (kv_pair <$> l) → Forall (fun x => kv_fits x.1 x.2.1) l →
  kv_handle_all es m = Some (foldl (fun m x => <[x.1 := x.2]> m) m l).
Proof.
  revert l m. induction es as [|e es IH]; intros [|[k [v id]] l] m E Hl; try done.
  apply Forall_cons in Hl as [Hf Hl]. cbn [fmap list_fmap] in E. unfold kv_pair in E. cbn [fst snd] in E.
  injection E as Eid Ep Eb E. cbn [kv_handle_all foldl fst snd]. rewrite (kv_handle_stored k v) by (try done; unfold payload; by rewrite Ep, Eb).
  cbn [mbind option_bind]. rewrite Eid. by apply IH.
Qed.

Lemma foldl_insert_lookup (l : list (slice * (slice * Z))) (m : kv_map) key :
  NoDup l.*1 →
  (∀ x, (key, x) ∈ l → foldl (fun m x => <[x.1 := x.2]> m) m l !! key = Some x)
  ∧ (key ∉ l.*1 → foldl (fun m x => <[x.1 := x.2]> m) m l !! key = m !! key).
Proof.
  revert m. induction l as [|[k y] l IH]; intros m Hnd; cbn [foldl fst snd].
  - split; [by intros x Hx%not_elem_of_nil|done].
  - apply NoDup_cons in Hnd as [Hk Hnd]. destruct (IH (<[k := y]> m) Hnd) as [Hin Hout]. split.
    + intros x [[= -> ->]|Hx]%elem_of_cons; [|by apply Hin]. rewrite Hout by done. by rewrite lookup_insert_eq.
    + intros [Hne Hl]%not_elem_of_cons. rewrite Hout by done. by rewrite lookup_insert_ne.
Qed.

Lemma foldl_insert_map (l : list (slice * (slice * Z))) (map : kv_map) :
  map_to_list map ≡ₚ l → foldl (fun m x => <[x.1 := x.2]> m) ∅ l = map.
Proof.
  intros Hp. assert (NoDup l.*1) as Hnd by (rewrite <- Hp; apply NoDup_fst_map_to_list). apply map_eq. intros key.
  destruct (foldl_insert_lookup l ∅ key Hnd) as [Hin Hout]. destruct (map !! key) as [x|] eqn:E.
  - apply Hin. rewrite <- Hp. by apply elem_of_map_to_list.
  - rewrite Hout; [apply lookup_empty|]. intros ([k x] & Ek & Hx)%list_elem_of_fmap. cbn in Ek. subst k.
    rewrite <- Hp in Hx. apply elem_of_map_to_list in Hx. congruence.
Qed.

(** The map is read back from the events. *)
Lemma handle_all_ok es map m :
  kv_rel map m → events_map es = m → NoDup (id_ <$> es) → kv_handle_all es ∅ = Some map.
Proof.
  intros Hr Em Hnd.
  assert (((fun e => (id_ e, payload e)) <$> es) ≡ₚ kv_pair <$> map_to_list map) as Hp.
  { rewrite <- (kv_rel_perm map m Hr), <- Em. unfold events_map. symmetry. apply map_to_list_to_map.
    by rewrite <- list_fmap_compose. }
  apply Permutation_map_inv in Hp as (l & El & Hl). rewrite (handle_all_inserts es l ∅ El).
  - by rewrite (foldl_insert_map _ map).
  - rewrite <- Hl. apply Forall_forall. intros [k [v id]] Hx%elem_of_map_to_list. by apply (kr_key _ _ Hr) in Hx as (_ & ? & _).
Qed.

(** ** Operations as operations of the binlog *)

(** What an operation does to the binlog and to the map, whose greatest
    identifier is [last]. *)
Definition kv_plan (op : kv_op) (st : Z * kv_map) : list bop * (Z * kv_map) :=
  let '(last, map) := st in
  match op with
  | KSet key value =>
      let it := default ([], 0) (map !! key) in
      if negb (it.2 =? 0) && bool_decide (it.1 = value) then ([], (last, map))
      else if negb (it.2 =? 0) then ([BRewrite it.2 MAGIC (kv_bytes key value)], (last + 1, <[key := (value, it.2)]> map))
      else ([BAdd MAGIC (kv_bytes key value)], (last + 1, <[key := (value, last + 1)]> map))
  | KErase key =>
      match map !! key with
      | None => ([], (last, map))
      | Some (_, id) => ([BErase id], (last + 1, delete key map))
      end
  | KSync => ([BSync], (last, map))
  end.
Fixpoint kv_plans (ops : list (bool * kv_op)) (st : Z * kv_map) : list (list (bool * bop)) * (Z * kv_map) :=
  match ops with
  | [] => ([], st)
  | x :: ops =>
      let '(l, st) := kv_plan x.2 st in
      let '(ls, st) := kv_plans ops st in
      (((fun o => (x.1, o)) <$> l) :: ls, st)
  end.

Definition ids_at_most (last : Z) (m : map_of) : Prop := ∀ id, is_Some (m !! id) → id <= last.

Lemma run_kv_plan crc32 opened op map b :
  kv_allowed op →
  run_kv crc32 (opened, op) (mkKeyValue map b)
  = mkKeyValue (kv_plan op (last_event_id_ b, map)).2.2 <$>
      run_ops crc32 ((fun o => (opened, o)) <$> (kv_plan op (last_event_id_ b, map)).1) b.
Proof.
  intros Ha. destruct op as [key value|key|]; unfold run_kv; cbn [fst snd].
  - destruct (kv_stored _ _ Ha) as (_ & _ & _ & _ & _ & Es & Esize & _). unfold kv_set, kv_plan. destruct Ha as (Hk & _).
    rewrite bool_decide_eq_false_2 by done. cbn [negb CHECK map_ binlog_].
    set (it := default ([], 0) (map !! key)). destruct (negb (it.2 =? 0) && bool_decide (it.1 = value)); [done|].
    unfold next_event_id. rewrite Es, <- Esize. cbn [mbind option_bind].
    destruct (negb (it.2 =? 0)); cbn [fst snd fmap list_fmap run_ops].
    + unfold run_op, rewrite, next_event_id. cbn [fst snd]. by destruct (add_raw_event _ _ _ _).
    + unfold run_op, add, next_event_id. cbn [fst snd]. by destruct (add_raw_event _ _ _ _).
  - unfold kv_erase, kv_plan. cbn [map_ binlog_]. destruct (map !! key) as [[v id]|]; [|done].
    cbn [fst snd fmap list_fmap run_ops]. unfold run_op, erase, next_event_id. cbn [fst snd]. by destruct (add_raw_event _ _ _ _).
  - done.
Qed.

Lemma kv_magic_fits key value :
  kv_fits key value →
  (0 <=? MAGIC) && (MAGIC <=? INT32_MAX) && (slen (kv_bytes key value) + MIN_SIZE <=? MAX_SIZE) && (slen (kv_bytes key value) mod 4 =? 0) = true.
Proof.
  intros Hf. destruct (kv_stored _ _ Hf) as (_ & _ & _ & _ & _ & _ & Esize & ->). destruct Hf as (_ & _ & _ & Hmax).
  rewrite Esize. change ((0 <=? MAGIC) && (MAGIC <=? INT32_MAX)) with true. rewrite (proj2 (Z.leb_le _ _)) by done. done.
Qed.

Lemma kv_plan_ok op last map m :
  kv_allowed op → kv_rel map m → ids_at_most last m → 0 <= last → last + 1 < 2 ^ 62 →
  ∃ last' map' m', (kv_plan op (last, map)).2 = (last', map')
    ∧ spec_ops (kv_plan op (last, map)).1 (last, m) = Some (last', m') ∧ kv_rel map' m' ∧ ids_at_most last' m'
    ∧ last <= last' <= last + 1 ∧ fst <$> map' = kv_apply (fst <$> map) op.
Proof.
  intros Ha Hr Hids H0 Hlast. assert (negb (last + 1 <? 2 ^ 62) = false) as Hguard by (rewrite (proj2 (Z.ltb_lt _ _)); done).
  destruct op as [key value|key|]; unfold kv_plan.
  - pose proof (kv_magic_fits _ _ Ha) as Hfits. destruct (map !! key) as [[v id]|] eqn:E; cbn [default fst snd].
    + destruct (kr_key _ _ Hr _ _ _ E) as (Em & _ & Hid). unfold Datatypes.id. cbn [fst snd].
      replace (id =? 0) with false by lia. cbn [negb andb]. case_bool_decide as Ev; cbn [fst snd].
      * exists last, map, m. subst. split_and!; try done; [lia|]. cbn. symmetry. apply insert_id. by rewrite lookup_fmap, E.
      * exists (last + 1), (<[key := (value, id)]> map), (<[id := kv_encode key value]> m). split; [done|].
        cbn [spec_ops spec_op]. rewrite Hguard. rewrite Em. cbn [mbind option_bind]. rewrite Hfits. split; [done|].
        split; [|split; [|split; [lia|by rewrite fmap_insert]]].
        -- apply kv_rel_set; [done|done|done| |intros v' i' E'; congruence]. intros key' v' E'. by eapply kv_rel_inj.
        -- intros i [x [[<- _]|[_ Hx]]%lookup_insert_Some]; [specialize (Hids id ltac:(eauto)); lia|].
           specialize (Hids i ltac:(eauto)). lia.
    + exists (last + 1), (<[key := (value, last + 1)]> map), (<[last + 1 := kv_encode key value]> m). split; [done|].
      cbn [Z.eqb negb andb fst snd spec_ops spec_op]. rewrite Hguard, Hfits. split; [done|].
      split; [|split; [|split; [lia|by rewrite fmap_insert]]].
      * apply kv_rel_set; [done|done|lia| |intros v' i' E'; congruence]. intros key' v' E'.
        destruct (kr_key _ _ Hr _ _ _ E') as (Em & _). specialize (Hids (last + 1) ltac:(eauto)). lia.
      * intros i [x [[<- _]|[_ Hx]]%lookup_insert_Some]; [lia|]. specialize (Hids i ltac:(eauto)). lia.
  - destruct (map !! key) as [[v id]|] eqn:E; cbn [fst snd spec_ops].
    + destruct (kr_key _ _ Hr _ _ _ E) as (Em & _). exists (last + 1), (delete key map), (delete id m). split; [done|].
      cbn [spec_op]. rewrite Hguard, Em. split; [done|]. split; [by eapply kv_rel_erase|]. split; [|split; [lia|by rewrite fmap_delete]].
      intros i [x [_ Hx]%lookup_delete_Some]. specialize (Hids i ltac:(eauto)). lia.
    + exists last, map, m. split_and!; try done; [lia|]. cbn. rewrite delete_id; [done|]. by rewrite lookup_fmap, E.
  - exists last, map, m. cbn [fst snd spec_ops spec_op]. rewrite Hguard. split_and!; try done. lia.
Qed.

Lemma kv_plans_ok ops last map m :
  Forall (fun x => kv_allowed x.2) ops → kv_rel map m → ids_at_most last m → 0 <= last → last + slen ops < 2 ^ 62 →
  ∃ last' map' m', (kv_plans ops (last, map)).2 = (last', map')
    ∧ spec_ops (snd <$> concat (kv_plans ops (last, map)).1) (last, m) = Some (last', m') ∧ kv_rel map' m'
    ∧ fst <$> map' = foldl kv_apply (fst <$> map) (snd <$> ops).
Proof.
  intros Hops. revert last map m. induction Hops as [|[opened op] ops Ha _ IH]; intros last map m Hr Hids H0 Hlast; cbn [kv_plans].
  - by exists last, map, m.
  - unfold slen in *. cbn [length] in Hlast.
    destruct (kv_plan_ok op last map m Ha Hr Hids H0 ltac:(lia)) as (l1 & map1 & m1 & E1 & Es1 & Hr1 & Hids1 & Hl1 & Em1).
    destruct (IH l1 map1 m1 Hr1 Hids1 ltac:(lia) ltac:(lia)) as (l2 & map2 & m2 & E2 & Es2 & Hr2 & Em2).
    exists l2, map2, m2. cbn [snd]. destruct (kv_plan op (last, map)) as [bops st1]. cbn [fst snd] in *. subst st1.
    destruct (kv_plans ops (l1, map1)) as [ls st2]. cbn [fst snd] in *. subst st2. split; [done|]. split; [|split; [done|]].
    + cbn [concat]. rewrite fmap_app, <- list_fmap_compose, spec_app.
      assert ((snd ∘ (fun o => (opened, o))) <$> bops = bops) as -> by apply list_fmap_id.
      by rewrite Es1.
    + cbn [fmap list_fmap foldl]. by rewrite Em2, Em1.
Qed.

Lemma kv_plans_take ops j st : (kv_plans (take j ops) st).1 = take j (kv_plans ops st).1.
Proof.
  revert j st. induction ops as [|x ops IH]; intros j st; destruct j as [|j]; [done..|].
  cbn [take kv_plans]. destruct (kv_plan x.2 st) as [l st1]. specialize (IH j st1).
  destruct (kv_plans (take j ops) st1), (kv_plans ops st1). cbn in *. by rewrite IH.
Qed.

Lemma kv_plan_short op st : (length (kv_plan op st).1 <= 1)%nat.
Proof. destruct st as [last map], op; cbn; repeat case_match; cbn; lia. Qed.

Lemma kv_plans_short ops st : Forall (fun l => (length l <= 1)%nat) (kv_plans ops st).1.
Proof.
  revert st. induction ops as [|x ops IH]; intros st; cbn [kv_plans]; [done|].
  pose proof (kv_plan_short x.2 st) as Hs. destruct (kv_plan x.2 st) as [l st1]. specialize (IH st1).
  destruct (kv_plans ops st1) as [ls st2]. cbn in *. constructor; [by rewrite length_fmap|done].
Qed.

Lemma kv_plans_length ops st : length (kv_plans ops st).1 = length ops.
Proof.
  revert st. induction ops as [|x ops IH]; intros st; cbn [kv_plans]; [done|]. destruct (kv_plan x.2 st) as [l st1]. specialize (IH st1).
  destruct (kv_plans ops st1). cbn in *. by rewrite IH.
Qed.

(** A prefix of what short lists amount to is that of some of them. *)
Lemma concat_prefix {A} (ls : list (list A)) n :
  Forall (fun l => (length l <= 1)%nat) ls → (n <= length (concat ls))%nat →
  ∃ j, (j <= length ls)%nat ∧ take n (concat ls) = concat (take j ls) ∧ drop n (concat ls) = concat (drop j ls)
    ∧ (n = length (concat ls) → j = length ls).
Proof.
  intros Hs. revert n. induction Hs as [|l ls Hl Hs IH]; intros n Hn; [cbn in Hn; assert (n = O) as -> by lia; by exists O|].
  cbn [concat] in *. rewrite length_app in Hn |- *.
  destruct l as [|x [|]]; cbn in Hl, Hn; [| |lia].
  - destruct (IH n Hn) as (j & Hj & Ht & Hd & Hf). exists (S j). cbn. split_and!; [lia|done|done|]. intros E. f_equal. by apply Hf.
  - destruct n as [|n]; [exists O; split_and!; [lia|done|done|cbn; lia]|].
    destruct (IH n ltac:(lia)) as (j & Hj & Ht & Hd & Hf). exists (S j). cbn. split_and!; [lia|by rewrite Ht|done|].
    intros E. f_equal. apply Hf. lia.
Qed.

Lemma run_kvs_ok crc32 (Hcrc : ∀ s, 0 <= crc32 s < 2 ^ 32) ops map m b rs :
  Forall (fun x => kv_allowed x.2) ops → running crc32 m b rs → kv_rel map m → ids_at_most (last_event_id_ b) m →
  last_event_id_ b + slen ops < 2 ^ 62 →
  run_kvs crc32 ops (mkKeyValue map b)
  = mkKeyValue (kv_plans ops (last_event_id_ b, map)).2.2 <$> run_ops crc32 (concat (kv_plans ops (last_event_id_ b, map)).1) b.
Proof.
  intros Hops. revert map m b rs. induction Hops as [|[opened op] ops Ha _ IH]; intros map m b rs Hrun Hr Hids Hlast; [done|].
  cbn [run_kvs kv_plans]. rewrite run_kv_plan by done. unfold slen in *. cbn [length snd fst] in *.
  pose proof (rn_last _ _ _ _ Hrun) as H0.
  destruct (kv_plan_ok op _ map m Ha Hr Hids H0 ltac:(lia)) as (l1 & map1 & m1 & E1 & Es1 & Hr1 & Hids1 & Hl1 & _).
  destruct (kv_plan op (last_event_id_ b, map)) as [bops st1]. cbn [fst snd] in *. subst st1. cbn [snd].
  destruct (ops_ok crc32 Hcrc ((fun o => (opened, o)) <$> bops) m b rs l1 m1 Hrun) as (b1 & rs1 & E & Hrun1 & El).
  { rewrite <- list_fmap_compose. assert ((snd ∘ (fun o => (opened, o))) <$> bops = bops) as -> by apply list_fmap_id. done. }
  rewrite E. cbn [fmap option_fmap option_map mbind option_bind]. subst l1.
  rewrite (IH map1 m1 b1 rs1 Hrun1 Hr1 Hids1) by lia.
  destruct (kv_plans ops (last_event_id_ b1, map1)) as [ls st2]. cbn [fst snd concat]. by rewrite run_app, E.
Qed.

(** ** The storage survives crashes *)

Section Survives.
Variable crc32 : slice → Z.
Hypothesis crc32_range : ∀ s, 0 <= crc32 s < 2 ^ 32.

Definition kvs_since_sync (ops : list (bool * kv_op)) (n : nat) : Prop := ∀ x, x ∈ drop n ops → x.2 ≠ KSync.

Lemma kv_rel_empty : kv_rel ∅ ∅.
Proof. split; intros ? *; by rewrite lookup_empty. Qed.

(** The operations of the binlog of those that are certainly not lost. *)
Lemma plans_since_sync ops st j :
  (∀ x, x ∈ concat (drop j (kv_plans ops st).1) → x.2 ≠ BSync) → kvs_since_sync ops j.
Proof.
  revert j st. induction ops as [|x ops IH]; intros j st Hb y Hy; [by rewrite drop_nil in Hy; apply not_elem_of_nil in Hy|].
  cbn [kv_plans] in Hb. destruct (kv_plan x.2 st) as [l st1] eqn:E. specialize (IH (j - 1)%nat st1).
  destruct (kv_plans ops st1) as [ls st2]. cbn [fst] in *. destruct j as [|j]; cbn [drop concat] in *.
  - apply elem_of_cons in Hy as [->|Hy].
    + intros Ey. rewrite Ey in E. destruct st as [last map]. cbn in E. injection E as <- _.
      apply (Hb (x.1, BSync)); [|done]. by left.
    + apply IH; [|by rewrite drop_0]. intros z Hz. apply Hb, elem_of_app. by right.
  - rewrite Nat.sub_succ, Nat.sub_0_r in IH. by apply IH.
Qed.

(** C27: The database of the webhooks is a map from keys to values that survives a crash: its operations
    succeed and do to the map what they say, and whatever prefix of its file is left, not shorter than what
    was synced, is read back as the map that the first n operations made, n being no less than the
    operations before the last sync. *)
Theorem key_value_survives ops :
  Forall (fun x => kv_allowed x.2) ops → slen ops < 2 ^ 62 →
  ∃ s, run_kvs crc32 ops (mkKeyValue ∅ new_binlog) = Some s ∧ get_all s = kv_contents (snd <$> ops)
    ∧ ∀ k, synced (binlog_ s) <= Z.of_nat k <= slen (file (binlog_ s)) →
      ∃ n s', (n <= length ops)%nat ∧ kvs_since_sync ops n ∧ (k = length (file (binlog_ s)) → n = length ops)
        ∧ kv_init crc32 (take k (file (binlog_ s))) = Some s' ∧ get_all s' = kv_contents (take n (snd <$> ops)).
Proof.
  intros Hops Hlen. assert (ids_at_most 0 ∅) as Hids by (intros id [x Hx]; by rewrite lookup_empty in Hx).
  destruct (kv_plans_ok ops 0 ∅ ∅ Hops kv_rel_empty Hids ltac:(done) ltac:(lia)) as (last & map & m & Est & Hspec & Hr & Em).
  destruct (run_ok crc32 crc32_range _ _ _ Hspec) as (b & rs & Eb & Hrun & _ & Hd).
  pose proof (run_kvs_ok crc32 crc32_range ops ∅ ∅ new_binlog [] Hops (running_new crc32) kv_rel_empty Hids) as Er.
  change (last_event_id_ new_binlog) with 0 in Er. rewrite Eb, Est in Er. cbn [snd fmap option_fmap option_map] in Er.
  exists (mkKeyValue map b). rewrite Er by lia. split; [done|]. rewrite fmap_empty in Em. split; [done|].
  cbn [binlog_]. intros k Hk.
  destruct (recovered crc32 crc32_range _ b rs _ k Hrun Hd Hk) as (n & l & mb & es & b' & Hn & Hs & Hfull & Hsp & Ei & Emb & Hsorted & _).
  destruct (concat_prefix _ n (kv_plans_short ops _) Hn) as (j & Hj & Htake & Hdrop & Hall). rewrite kv_plans_length in Hj, Hall.
  assert (Forall (fun x => kv_allowed x.2) (take j ops)) as Hops' by by apply Forall_take.
  destruct (kv_plans_ok (take j ops) 0 ∅ ∅ Hops' kv_rel_empty Hids ltac:(done)) as (l' & map' & m' & _ & Hspec' & Hr' & Em').
  { unfold slen in *. rewrite length_take. lia. }
  rewrite kv_plans_take, <- Htake, fmap_take, Hsp in Hspec'. injection Hspec' as -> ->.
  exists j, (mkKeyValue map' b'). split; [done|]. split; [|split; [by intros Hkl; apply Hall, Hfull|]].
  - apply (plans_since_sync ops (0, ∅)). intros x Hx. apply Hs. by rewrite Hdrop.
  - unfold kv_init. rewrite Ei. cbn [mbind option_bind]. rewrite (handle_all_ok es map' m' Hr' Emb); [|by apply ids_sorted_nodup].
    split; [done|]. unfold get_all. cbn [map_]. rewrite Em', fmap_empty, fmap_take. done.
Qed.
End Survives.

Definition demo_kv_ops : list (bool * kv_op) :=
  [(true, KSet (lit "1:a") (lit "https://x.y/")); (true, KSet (lit "2:b") (lit "#maxc1#https://z/")); (true, KSync);
   (false, KSet (lit "1:a") (lit "https://w/")); (true, KErase (lit "2:b")); (true, KErase (lit "3:c"))].

Theorem key_value_survives_witness :
  ∃ s, run_kvs demo_crc32 demo_kv_ops (mkKeyValue ∅ new_binlog) = Some s ∧ get_all s = kv_contents (snd <$> demo_kv_ops)
    ∧ ∀ k, synced (binlog_ s) <= Z.of_nat k <= slen (file (binlog_ s)) →
      ∃ n s', (n <= length demo_kv_ops)%nat ∧ kvs_since_sync demo_kv_ops n ∧ (k = length (file (binlog_ s)) → n = length demo_kv_ops)
        ∧ kv_init demo_crc32 (take k (file (binlog_ s))) = Some s' ∧ get_all s' = kv_contents (take n (snd <$> demo_kv_ops)).
Proof.
  apply (key_value_survives demo_crc32 demo_crc32_range demo_kv_ops); [|reflexivity].
  repeat constructor; try discriminate; vm_compute; congruence.
Defined.
