(* ===== verification/WebhookActor.v ===== *)
(** * Delivery of updates to a webhook

    The actor [WebhookActor] of [server/WebhookActor.cpp]: it loads updates from
    the update queue, keeps those of one queue in order, sends each over an HTTP
    connection of its own and retries it until it is accepted or about to
    expire.

    The connections are any implementation of [Container.IdStore].  Times,
    [double] in the source, are rationals; a handler reads the clock once here.
    What the system answers - the clock, random numbers, sockets, TLS - is an
    argument.  Log lines and the times kept for them are left out, and the
    counter of all connections is a message. *)

From Stdlib Require Import QArith.
From stdpp Require Import gmap sorting.
From S2P Require Import Prelude Slices Integers HttpHeader IpAddress Container FloodControl TQueue.

Local Open Scope Z_scope.

Definition MIN_PENDING_UPDATES_WARNING : Z := 50.
Definition IP_ADDRESS_CACHE_TIME : Z := 30 * 60.
Definition WEBHOOK_MAX_RESEND_TIMEOUT : Z := 60.
Definition WEBHOOK_DROP_TIMEOUT : Z := 60 * 60 * 23.
Definition TQUEUE_EVENT_BUFFER_SIZE : Z := 1000.

(** ** Data *)

Record Update := mkUpdate {
  id_ : Z; json_ : slice; expires_at_ : Z; last_send_time_ : Q; update_wakeup_at_ : Q; delay_ : Z; fail_count_ : Z; queue_id_ : Z
}.
Definition set_last_send_time_ v (u : Update) :=
  mkUpdate (id_ u) (json_ u) (expires_at_ u) v (update_wakeup_at_ u) (delay_ u) (fail_count_ u) (queue_id_ u).
(** What [on_update_error] changes. *)
Definition delayed (delay : Z) (wakeup_at : Q) (u : Update) :=
  mkUpdate (id_ u) (json_ u) (expires_at_ u) (last_send_time_ u) wakeup_at delay (fail_count_ u + 1) (queue_id_ u).

(** A connection: the identifier of the update that was sent over it, 0 if there
    is none.  Its identifier in the container is the key. *)
Record Connection := mkConnection { event_id_ : Z; conn_ip_generation_ : Z }.
Definition set_event_id_ v (c : Connection) := mkConnection v (conn_ip_generation_ c).

(** [Queue::operator<] and [queues_], a sorted list without equal keys. *)
Definition integer_wakeup_at (wakeup_at : Q) : Z := let t := (wakeup_at * 1000000000)%Q in Z.quot (Qnum t) (Zpos (Qden t)).
Definition queue_less (x y : Q * Z) : bool :=
  (integer_wakeup_at x.1 <? integer_wakeup_at y.1)
  || ((integer_wakeup_at x.1 =? integer_wakeup_at y.1) && (x.2 <? y.2)).
Fixpoint queues_emplace (x : Q * Z) (l : list (Q * Z)) : list (Q * Z) :=
  match l with
  | [] => [x]
  | y :: l' => if queue_less x y then x :: l else if queue_less y x then y :: queues_emplace x l' else l
  end.

(** The answer to a request, as far as the actor looks at it. *)
Record response := mkResponse {
  is_response : bool; keep_alive_ : bool; code_ : Z; reason_ : slice; method_ : slice; retry_after_ : Z; text_ : slice
}.

(** An error of the system and its public message. *)
Record error := mkError { message : slice; public_message : slice }.
Definition plain (m : slice) : error := mkError m m.

(** Messages to other actors and to the system. *)
Inductive waction :=
| WebhookVerified (cached_ip : slice)
| WebhookSuccess
| WebhookError (message : slice)
| WebhookClosed (error : option slice)
| SendQuery (token : slice) (is_test_dc : bool) (r : response)
| ResolveHost
| CreateSslContext
| OpenProxy (id : Z)
| OpenConnection (id : Z)
| WriteRequest (connection : Z) (header body : slice)
| ReleaseConnectionActor (id : Z)
| CloseConnection (id : Z)
| ConnectionCount (change : Z)
| SetTimeoutAt (at_ : Q)
| CloseLater
| Yield
| Stop.

(** What the actor is made with, and how the system reads and prints addresses. *)
Record webhook_env := mkWebhookEnv {
  tqueue_id_ : Z;
  url_is_https : bool; url_host : slice; url_port : Z; url_query : slice; authorization : slice; host_header_ : slice;
  has_cert : bool;
  webhook_proxy : bool;
  local_mode_ : bool;
  fix_ip_address_ : bool;
  from_db_flag_ : bool;
  max_connections_ : Z;
  secret_token_ : slice;
  get_unix_time : Q → Z;
  get_ip_str : IPAddress → slice;
  inet_pton4 : slice → option Z
}.

(** What the system answers in one handler: the clock, [Random::fast], and, for
    the n-th connection that is tried, the socket and the TLS stream. *)
Record io := mkIo { now_ : Q; random_ : Z; socket_error : nat → option error; ssl_error : nat → option error }.

Section Webhook.
Context {C D S : Type} `{IdStore Connection C} `{IdStore unit D} `{StorageCallback S} (e : webhook_env).

Record webhook := mkWebhook {
  callback_ : bool;
  tqueue_empty_ : bool;
  last_pending_update_count_ : Z;
  stop_flag_ : bool;
  was_checked_ : bool;
  tqueue_offset_ : Z;
  max_loaded_updates_ : Z;
  update_map_ : gmap Z Update;
  queue_updates_ : gmap Z (list Z);
  queues_ : list (Q * Z);
  unique_queue_id_ : Z;
  first_error_410_time_ : Q;
  ssl_ctx_ : bool;
  ip_address_ : IPAddress;
  ip_generation_ : Z;
  next_ip_address_resolve_time_ : Q;
  is_ip_address_being_resolved_ : bool;
  pending_sockets_ : D;
  ready_sockets_ : list Z;
  connections_ : C;
  ready_connections_ : list Z;
  active_new_connection_flood_ : FloodControlFast;
  pending_new_connection_flood_ : FloodControlFast;
  last_success_time_ : Q;
  actor_wakeup_at_ : Q;
  last_update_was_successful_ : bool;
  outs : list waction
}.

Definition set_callback_ (v : bool) (w : webhook) : webhook :=
  mkWebhook v (tqueue_empty_ w) (last_pending_update_count_ w) (stop_flag_ w) (was_checked_ w) (tqueue_offset_ w) (max_loaded_updates_ w) (update_map_ w) (queue_updates_ w) (queues_ w) (unique_queue_id_ w) (first_error_410_time_ w) (ssl_ctx_ w) (ip_address_ w) (ip_generation_ w) (next_ip_address_resolve_time_ w) (is_ip_address_being_resolved_ w) (pending_sockets_ w) (ready_sockets_ w) (connections_ w) (ready_connections_ w) (active_new_connection_flood_ w) (pending_new_connection_flood_ w) (last_success_time_ w) (actor_wakeup_at_ w) (last_update_was_successful_ w) (outs w).
Definition set_tqueue_empty_ (v : bool) (w : webhook) : webhook :=
  mkWebhook (callback_ w) v (last_pending_update_count_ w) (stop_flag_ w) (was_checked_ w) (tqueue_offset_ w) (max_loaded_updates_ w) (update_map_ w) (queue_updates_ w) (queues_ w) (unique_queue_id_ w) (first_error_410_time_ w) (ssl_ctx_ w) (ip_address_ w) (ip_generation_ w) (next_ip_address_resolve_time_ w) (is_ip_address_being_resolved_ w) (pending_sockets_ w) (ready_sockets_ w) (connections_ w) (ready_connections_ w) (active_new_connection_flood_ w) (pending_new_connection_flood_ w) (last_success_time_ w) (actor_wakeup_at_ w) (last_update_was_successful_ w) (outs w).
Definition set_last_pending_update_count_ (v : Z) (w : webhook) : webhook :=
  mkWebhook (callback_ w) (tqueue_empty_ w) v (stop_flag_ w) (was_checked_ w) (tqueue_offset_ w) (max_loaded_updates_ w) (update_map_ w) (queue_updates_ w) (queues_ w) (unique_queue_id_ w) (first_error_410_time_ w) (ssl_ctx_ w) (ip_address_ w) (ip_generation_ w) (next_ip_address_resolve_time_ w) (is_ip_address_being_resolved_ w) (pending_sockets_ w) (ready_sockets_ w) (connections_ w) (ready_connections_ w) (active_new_connection_flood_ w) (pending_new_connection_flood_ w) (last_success_time_ w) (actor_wakeup_at_ w) (last_update_was_successful_ w) (outs w).
Definition set_stop_flag_ (v : bool) (w : webhook) : webhook :=
  mkWebhook (callback_ w) (tqueue_empty_ w) (last_pending_update_count_ w) v (was_checked_ w) (tqueue_offset_ w) (max_loaded_updates_ w) (update_map_ w) (queue_updates_ w) (queues_ w) (unique_queue_id_ w) (first_error_410_time_ w) (ssl_ctx_ w) (ip_address_ w) (ip_generation_ w) (next_ip_address_resolve_time_ w) (is_ip_address_being_resolved_ w) (pending_sockets_ w) (ready_sockets_ w) (connections_ w) (ready_connections_ w) (active_new_connection_flood_ w) (pending_new_connection_flood_ w) (last_success_time_ w) (actor_wakeup_at_ w) (last_update_was_successful_ w) (outs w).
Definition set_was_checked_ (v : bool) (w : webhook) : webhook :=
  mkWebhook (callback_ w) (tqueue_empty_ w) (last_pending_update_count_ w) (stop_flag_ w) v (tqueue_offset_ w) (max_loaded_updates_ w) (update_map_ w) (queue_updates_ w) (queues_ w) (unique_queue_id_ w) (first_error_410_time_ w) (ssl_ctx_ w) (ip_address_ w) (ip_generation_ w) (next_ip_address_resolve_time_ w) (is_ip_address_being_resolved_ w) (pending_sockets_ w) (ready_sockets_ w) (connections_ w) (ready_connections_ w) (active_new_connection_flood_ w) (pending_new_connection_flood_ w) (last_success_time_ w) (actor_wakeup_at_ w) (last_update_was_successful_ w) (outs w).
Definition set_tqueue_offset_ (v : Z) (w : webhook) : webhook :=
  mkWebhook (callback_ w) (tqueue_empty_ w) (last_pending_update_count_ w) (stop_flag_ w) (was_checked_ w) v (max_loaded_updates_ w) (update_map_ w) (queue_updates_ w) (queues_ w) (unique_queue_id_ w) (first_error_410_time_ w) (ssl_ctx_ w) (ip_address_ w) (ip_generation_ w) (next_ip_address_resolve_time_ w) (is_ip_address_being_resolved_ w) (pending_sockets_ w) (ready_sockets_ w) (connections_ w) (ready_connections_ w) (active_new_connection_flood_ w) (pending_new_connection_flood_ w) (last_success_time_ w) (actor_wakeup_at_ w) (last_update_was_successful_ w) (outs w).
Definition set_max_loaded_updates_ (v : Z) (w : webhook) : webhook :=
  mkWebhook (callback_ w) (tqueue_empty_ w) (last_pending_update_count_ w) (stop_flag_ w) (was_checked_ w) (tqueue_offset_ w) v (update_map_ w) (queue_updates_ w) (queues_ w) (unique_queue_id_ w) (first_error_410_time_ w) (ssl_ctx_ w) (ip_address_ w) (ip_generation_ w) (next_ip_address_resolve_time_ w) (is_ip_address_being_resolved_ w) (pending_sockets_ w) (ready_sockets_ w) (connections_ w) (ready_connections_ w) (active_new_connection_flood_ w) (pending_new_connection_flood_ w) (last_success_time_ w) (actor_wakeup_at_ w) (last_update_was_successful_ w) (outs w).
Definition set_update_map_ (v : gmap Z Update) (w : webhook) : webhook :=
  mkWebhook (callback_ w) (tqueue_empty_ w) (last_pending_update_count_ w) (stop_flag_ w) (was_checked_ w) (tqueue_offset_ w) (max_loaded_updates_ w) v (queue_updates_ w) (queues_ w) (unique_queue_id_ w) (first_error_410_time_ w) (ssl_ctx_ w) (ip_address_ w) (ip_generation_ w) (next_ip_address_resolve_time_ w) (is_ip_address_being_resolved_ w) (pending_sockets_ w) (ready_sockets_ w) (connections_ w) (ready_connections_ w) (active_new_connection_flood_ w) (pending_new_connection_flood_ w) (last_success_time_ w) (actor_wakeup_at_ w) (last_update_was_successful_ w) (outs w).
Definition set_queue_updates_ (v : gmap Z (list Z)) (w : webhook) : webhook :=
  mkWebhook (callback_ w) (tqueue_empty_ w) (last_pending_update_count_ w) (stop_flag_ w) (was_checked_ w) (tqueue_offset_ w) (max_loaded_updates_ w) (update_map_ w) v (queues_ w) (unique_queue_id_ w) (first_error_410_time_ w) (ssl_ctx_ w) (ip_address_ w) (ip_generation_ w) (next_ip_address_resolve_time_ w) (is_ip_address_being_resolved_ w) (pending_sockets_ w) (ready_sockets_ w) (connections_ w) (ready_connections_ w) (active_new_connection_flood_ w) (pending_new_connection_flood_ w) (last_success_time_ w) (actor_wakeup_at_ w) (last_update_was_successful_ w) (outs w).
Definition set_queues_ (v : list (Q * Z)) (w : webhook) : webhook :=
  mkWebhook (callback_ w) (tqueue_empty_ w) (last_pending_update_count_ w) (stop_flag_ w) (was_checked_ w) (tqueue_offset_ w) (max_loaded_updates_ w) (update_map_ w) (queue_updates_ w) v (unique_queue_id_ w) (first_error_410_time_ w) (ssl_ctx_ w) (ip_address_ w) (ip_generation_ w) (next_ip_address_resolve_time_ w) (is_ip_address_being_resolved_ w) (pending_sockets_ w) (ready_sockets_ w) (connections_ w) (ready_connections_ w) (active_new_connection_flood_ w) (pending_new_connection_flood_ w) (last_success_time_ w) (actor_wakeup_at_ w) (last_update_was_successful_ w) (outs w).
Definition set_unique_queue_id_ (v : Z) (w : webhook) : webhook :=
  mkWebhook (callback_ w) (tqueue_empty_ w) (last_pending_update_count_ w) (stop_flag_ w) (was_checked_ w) (tqueue_offset_ w) (max_loaded_updates_ w) (update_map_ w) (queue_updates_ w) (queues_ w) v (first_error_410_time_ w) (ssl_ctx_ w) (ip_address_ w) (ip_generation_ w) (next_ip_address_resolve_time_ w) (is_ip_address_being_resolved_ w) (pending_sockets_ w) (ready_sockets_ w) (connections_ w) (ready_connections_ w) (active_new_connection_flood_ w) (pending_new_connection_flood_ w) (last_success_time_ w) (actor_wakeup_at_ w) (last_update_was_successful_ w) (outs w).
Definition set_first_error_410_time_ (v : Q) (w : webhook) : webhook :=
  mkWebhook (callback_ w) (tqueue_empty_ w) (last_pending_update_count_ w) (stop_flag_ w) (was_checked_ w) (tqueue_offset_ w) (max_loaded_updates_ w) (update_map_ w) (queue_updates_ w) (queues_ w) (unique_queue_id_ w) v (ssl_ctx_ w) (ip_address_ w) (ip_generation_ w) (next_ip_address_resolve_time_ w) (is_ip_address_being_resolved_ w) (pending_sockets_ w) (ready_sockets_ w) (connections_ w) (ready_connections_ w) (active_new_connection_flood_ w) (pending_new_connection_flood_ w) (last_success_time_ w) (actor_wakeup_at_ w) (last_update_was_successful_ w) (outs w).
Definition set_ssl_ctx_ (v : bool) (w : webhook) : webhook :=
  mkWebhook (callback_ w) (tqueue_empty_ w) (last_pending_update_count_ w) (stop_flag_ w) (was_checked_ w) (tqueue_offset_ w) (max_loaded_updates_ w) (update_map_ w) (queue_updates_ w) (queues_ w) (unique_queue_id_ w) (first_error_410_time_ w) v (ip_address_ w) (ip_generation_ w) (next_ip_address_resolve_time_ w) (is_ip_address_being_resolved_ w) (pending_sockets_ w) (ready_sockets_ w) (connections_ w) (ready_connections_ w) (active_new_connection_flood_ w) (pending_new_connection_flood_ w) (last_success_time_ w) (actor_wakeup_at_ w) (last_update_was_successful_ w) (outs w).
Definition set_ip_address_ (v : IPAddress) (w : webhook) : webhook :=
  mkWebhook (callback_ w) (tqueue_empty_ w) (last_pending_update_count_ w) (stop_flag_ w) (was_checked_ w) (tqueue_offset_ w) (max_loaded_updates_ w) (update_map_ w) (queue_updates_ w) (queues_ w) (unique_queue_id_ w) (first_error_410_time_ w) (ssl_ctx_ w) v (ip_generation_ w) (next_ip_address_resolve_time_ w) (is_ip_address_being_resolved_ w) (pending_sockets_ w) (ready_sockets_ w) (connections_ w) (ready_connections_ w) (active_new_connection_flood_ w) (pending_new_connection_flood_ w) (last_success_time_ w) (actor_wakeup_at_ w) (last_update_was_successful_ w) (outs w).
Definition set_ip_generation_ (v : Z) (w : webhook) : webhook :=
  mkWebhook (callback_ w) (tqueue_empty_ w) (last_pending_update_count_ w) (stop_flag_ w) (was_checked_ w) (tqueue_offset_ w) (max_loaded_updates_ w) (update_map_ w) (queue_updates_ w) (queues_ w) (unique_queue_id_ w) (first_error_410_time_ w) (ssl_ctx_ w) (ip_address_ w) v (next_ip_address_resolve_time_ w) (is_ip_address_being_resolved_ w) (pending_sockets_ w) (ready_sockets_ w) (connections_ w) (ready_connections_ w) (active_new_connection_flood_ w) (pending_new_connection_flood_ w) (last_success_time_ w) (actor_wakeup_at_ w) (last_update_was_successful_ w) (outs w).
Definition set_next_ip_address_resolve_time_ (v : Q) (w : webhook) : webhook :=
  mkWebhook (callback_ w) (tqueue_empty_ w) (last_pending_update_count_ w) (stop_flag_ w) (was_checked_ w) (tqueue_offset_ w) (max_loaded_updates_ w) (update_map_ w) (queue_updates_ w) (queues_ w) (unique_queue_id_ w) (first_error_410_time_ w) (ssl_ctx_ w) (ip_address_ w) (ip_generation_ w) v (is_ip_address_being_resolved_ w) (pending_sockets_ w) (ready_sockets_ w) (connections_ w) (ready_connections_ w) (active_new_connection_flood_ w) (pending_new_connection_flood_ w) (last_success_time_ w) (actor_wakeup_at_ w) (last_update_was_successful_ w) (outs w).
Definition set_is_ip_address_being_resolved_ (v : bool) (w : webhook) : webhook :=
  mkWebhook (callback_ w) (tqueue_empty_ w) (last_pending_update_count_ w) (stop_flag_ w) (was_checked_ w) (tqueue_offset_ w) (max_loaded_updates_ w) (update_map_ w) (queue_updates_ w) (queues_ w) (unique_queue_id_ w) (first_error_410_time_ w) (ssl_ctx_ w) (ip_address_ w) (ip_generation_ w) (next_ip_address_resolve_time_ w) v (pending_sockets_ w) (ready_sockets_ w) (connections_ w) (ready_connections_ w) (active_new_connection_flood_ w) (pending_new_connection_flood_ w) (last_success_time_ w) (actor_wakeup_at_ w) (last_update_was_successful_ w) (outs w).
Definition set_pending_sockets_ (v : D) (w : webhook) : webhook :=
  mkWebhook (callback_ w) (tqueue_empty_ w) (last_pending_update_count_ w) (stop_flag_ w) (was_checked_ w) (tqueue_offset_ w) (max_loaded_updates_ w) (update_map_ w) (queue_updates_ w) (queues_ w) (unique_queue_id_ w) (first_error_410_time_ w) (ssl_ctx_ w) (ip_address_ w) (ip_generation_ w) (next_ip_address_resolve_time_ w) (is_ip_address_being_resolved_ w) v (ready_sockets_ w) (connections_ w) (ready_connections_ w) (active_new_connection_flood_ w) (pending_new_connection_flood_ w) (last_success_time_ w) (actor_wakeup_at_ w) (last_update_was_successful_ w) (outs w).
Definition set_ready_sockets_ (v : list Z) (w : webhook) : webhook :=
  mkWebhook (callback_ w) (tqueue_empty_ w) (last_pending_update_count_ w) (stop_flag_ w) (was_checked_ w) (tqueue_offset_ w) (max_loaded_updates_ w) (update_map_ w) (queue_updates_ w) (queues_ w) (unique_queue_id_ w) (first_error_410_time_ w) (ssl_ctx_ w) (ip_address_ w) (ip_generation_ w) (next_ip_address_resolve_time_ w) (is_ip_address_being_resolved_ w) (pending_sockets_ w) v (connections_ w) (ready_connections_ w) (active_new_connection_flood_ w) (pending_new_connection_flood_ w) (last_success_time_ w) (actor_wakeup_at_ w) (last_update_was_successful_ w) (outs w).
Definition set_connections_ (v : C) (w : webhook) : webhook :=
  mkWebhook (callback_ w) (tqueue_empty_ w) (last_pending_update_count_ w) (stop_flag_ w) (was_checked_ w) (tqueue_offset_ w) (max_loaded_updates_ w) (update_map_ w) (queue_updates_ w) (queues_ w) (unique_queue_id_ w) (first_error_410_time_ w) (ssl_ctx_ w) (ip_address_ w) (ip_generation_ w) (next_ip_address_resolve_time_ w) (is_ip_address_being_resolved_ w) (pending_sockets_ w) (ready_sockets_ w) v (ready_connections_ w) (active_new_connection_flood_ w) (pending_new_connection_flood_ w) (last_success_time_ w) (actor_wakeup_at_ w) (last_update_was_successful_ w) (outs w).
Definition set_ready_connections_ (v : list Z) (w : webhook) : webhook :=
  mkWebhook (callback_ w) (tqueue_empty_ w) (last_pending_update_count_ w) (stop_flag_ w) (was_checked_ w) (tqueue_offset_ w) (max_loaded_updates_ w) (update_map_ w) (queue_updates_ w) (queues_ w) (unique_queue_id_ w) (first_error_410_time_ w) (ssl_ctx_ w) (ip_address_ w) (ip_generation_ w) (next_ip_address_resolve_time_ w) (is_ip_address_being_resolved_ w) (pending_sockets_ w) (ready_sockets_ w) (connections_ w) v (active_new_connection_flood_ w) (pending_new_connection_flood_ w) (last_success_time_ w) (actor_wakeup_at_ w) (last_update_was_successful_ w) (outs w).
Definition set_active_new_connection_flood_ (v : FloodControlFast) (w : webhook) : webhook :=
  mkWebhook (callback_ w) (tqueue_empty_ w) (last_pending_update_count_ w) (stop_flag_ w) (was_checked_ w) (tqueue_offset_ w) (max_loaded_updates_ w) (update_map_ w) (queue_updates_ w) (queues_ w) (unique_queue_id_ w) (first_error_410_time_ w) (ssl_ctx_ w) (ip_address_ w) (ip_generation_ w) (next_ip_address_resolve_time_ w) (is_ip_address_being_resolved_ w) (pending_sockets_ w) (ready_sockets_ w) (connections_ w) (ready_connections_ w) v (pending_new_connection_flood_ w) (last_success_time_ w) (actor_wakeup_at_ w) (last_update_was_successful_ w) (outs w).
Definition set_pending_new_connection_flood_ (v : FloodControlFast) (w : webhook) : webhook :=
  mkWebhook (callback_ w) (tqueue_empty_ w) (last_pending_update_count_ w) (stop_flag_ w) (was_checked_ w) (tqueue_offset_ w) (max_loaded_updates_ w) (update_map_ w) (queue_updates_ w) (queues_ w) (unique_queue_id_ w) (first_error_410_time_ w) (ssl_ctx_ w) (ip_address_ w) (ip_generation_ w) (next_ip_address_resolve_time_ w) (is_ip_address_being_resolved_ w) (pending_sockets_ w) (ready_sockets_ w) (connections_ w) (ready_connections_ w) (active_new_connection_flood_ w) v (last_success_time_ w) (actor_wakeup_at_ w) (last_update_was_successful_ w) (outs w).
Definition set_last_success_time_ (v : Q) (w : webhook) : webhook :=
  mkWebhook (callback_ w) (tqueue_empty_ w) (last_pending_update_count_ w) (stop_flag_ w) (was_checked_ w) (tqueue_offset_ w) (max_loaded_updates_ w) (update_map_ w) (queue_updates_ w) (queues_ w) (unique_queue_id_ w) (first_error_410_time_ w) (ssl_ctx_ w) (ip_address_ w) (ip_generation_ w) (next_ip_address_resolve_time_ w) (is_ip_address_being_resolved_ w) (pending_sockets_ w) (ready_sockets_ w) (connections_ w) (ready_connections_ w) (active_new_connection_flood_ w) (pending_new_connection_flood_ w) v (actor_wakeup_at_ w) (last_update_was_successful_ w) (outs w).
Definition set_actor_wakeup_at_ (v : Q) (w : webhook) : webhook :=
  mkWebhook (callback_ w) (tqueue_empty_ w) (last_pending_update_count_ w) (stop_flag_ w) (was_checked_ w) (tqueue_offset_ w) (max_loaded_updates_ w) (update_map_ w) (queue_updates_ w) (queues_ w) (unique_queue_id_ w) (first_error_410_time_ w) (ssl_ctx_ w) (ip_address_ w) (ip_generation_ w) (next_ip_address_resolve_time_ w) (is_ip_address_being_resolved_ w) (pending_sockets_ w) (ready_sockets_ w) (connections_ w) (ready_connections_ w) (active_new_connection_flood_ w) (pending_new_connection_flood_ w) (last_success_time_ w) v (last_update_was_successful_ w) (outs w).
Definition set_last_update_was_successful_ (v : bool) (w : webhook) : webhook :=
  mkWebhook (callback_ w) (tqueue_empty_ w) (last_pending_update_count_ w) (stop_flag_ w) (was_checked_ w) (tqueue_offset_ w) (max_loaded_updates_ w) (update_map_ w) (queue_updates_ w) (queues_ w) (unique_queue_id_ w) (first_error_410_time_ w) (ssl_ctx_ w) (ip_address_ w) (ip_generation_ w) (next_ip_address_resolve_time_ w) (is_ip_address_being_resolved_ w) (pending_sockets_ w) (ready_sockets_ w) (connections_ w) (ready_connections_ w) (active_new_connection_flood_ w) (pending_new_connection_flood_ w) (last_success_time_ w) (actor_wakeup_at_ w) v (outs w).
Definition set_outs (v : list waction) (w : webhook) : webhook :=
  mkWebhook (callback_ w) (tqueue_empty_ w) (last_pending_update_count_ w) (stop_flag_ w) (was_checked_ w) (tqueue_offset_ w) (max_loaded_updates_ w) (update_map_ w) (queue_updates_ w) (queues_ w) (unique_queue_id_ w) (first_error_410_time_ w) (ssl_ctx_ w) (ip_address_ w) (ip_generation_ w) (next_ip_address_resolve_time_ w) (is_ip_address_being_resolved_ w) (pending_sockets_ w) (ready_sockets_ w) (connections_ w) (ready_connections_ w) (active_new_connection_flood_ w) (pending_new_connection_flood_ w) (last_success_time_ w) (actor_wakeup_at_ w) (last_update_was_successful_ w) v.

Definition send (a : waction) (w : webhook) : webhook := set_outs (outs w ++ [a]) w.

(** [size()] of the containers. *)
Definition connection_count (w : webhook) : Z := slen (st_ids (connections_ w)).
Definition pending_count (w : webhook) : Z := slen (st_ids (pending_sockets_ w)).

Definition queue_count (w : webhook) : Z := Z.of_nat (base.size (queue_updates_ w)).

(** ** Errors *)

Definition relax_wakeup_at (wakeup_at : Q) (w : webhook) : webhook :=
  if Qeq_bool (actor_wakeup_at_ w) 0 || qlt wakeup_at (actor_wakeup_at_ w) then set_actor_wakeup_at_ wakeup_at w else w.

Definition on_webhook_verified (w : webhook) : webhook :=
  send (WebhookVerified (if ip_is_valid (ip_address_ w) then get_ip_str e (ip_address_ w) else [])) w.

Definition on_error (status : slice) (w : webhook) : option webhook :=
  if negb (was_checked_ w) && negb (stop_flag_ w) then
    (CHECK! callback_ w ;; Some (set_stop_flag_ true (set_callback_ false (send (WebhookClosed (Some status)) w))))%td
  else Some w.

Definition on_webhook_error (error : slice) (w : webhook) : webhook :=
  if was_checked_ w then send (WebhookError error) w else w.

Definition create_webhook_error (error_message : slice) (result : error) (is_public : bool) (w : webhook) : option webhook :=
  let w := on_webhook_error (if is_public then error_message ++ lit ": " ++ public_message result else error_message) w in
  on_error (message result) w.

(** [check_ip_address]: the error. *)
Definition check_ip_address (addr : IPAddress) : option (option slice) :=
  if negb (ip_is_valid addr) then Some (Some (lit "Invalid IP address specified"))
  else if local_mode_ e then Some None
  else if negb (is_ipv4 addr) then Some (Some (lit "IPv6-only addresses are not allowed"))
  else
    reserved ← is_reserved (inet_pton4 e) addr;
    Some (if (reserved : bool) then Some (lit "IP address " ++ get_ip_str e addr ++ lit " is reserved") else None).

(** ** Connections *)

(** [create_connection] over an open socket; whether it succeeded. *)
Definition create_connection_fd (x : io) (n : nat) (w : webhook) : option (bool * webhook) :=
  r ← (if negb (url_is_https e) then Some None else (CHECK! ssl_ctx_ w ;; Some (ssl_error x n))%td);
  match r with
  | Some error => w ← create_webhook_error (lit "Can't create an SSL connection") error true w; Some (false, w)
  | None =>
      '(id, c) ← st_create (connections_ w) (mkConnection 0 (ip_generation_ w));
      let w := set_ready_connections_ (id :: ready_connections_ w) (set_connections_ c w) in
      let w := send (ConnectionCount 1) (send (OpenConnection id) w) in
      Some (true, if negb (was_checked_ w) then on_webhook_verified (set_was_checked_ true w) else w)
  end.

Definition create_connection (x : io) (n : nat) (w : webhook) : option (bool * webhook) :=
  (CHECK! ip_is_valid (ip_address_ w) ;;
   if webhook_proxy e then
     match socket_error x n with
     | Some error => w ← create_webhook_error (lit "Can't connect to the webhook proxy") error false w; Some (false, w)
     | None =>
         let w := if negb (was_checked_ w) then on_webhook_verified (set_was_checked_ true w) else w in
         '(id, d) ← st_create (pending_sockets_ w) tt;
         Some (false, send (OpenProxy id) (set_pending_sockets_ d w))
     end
   else
     match socket_error x n with
     | Some error => w ← create_webhook_error (lit "Can't connect to the webhook") error false w; Some (false, w)
     | None => create_connection_fd x n w
     end)%td.

(** The first loop of [create_new_connections]; it tells whether it ended without
    an error. *)
Fixpoint open_connections (fuel : nat) (x : io) (need : Z) (active : bool) (w : webhook) : option (bool * webhook) :=
  match fuel with
  | O => None
  | Datatypes.S fuel =>
      if connection_count w + pending_count w + slen (ready_sockets_ w) <? need then
        let flood := if active then active_new_connection_flood_ w else pending_new_connection_flood_ w in
        if qlt (now_ x) (get_wakeup_at flood) then Some (true, relax_wakeup_at (get_wakeup_at flood) w)
        else
          flood ← add_event flood (now_ x);
          let w := if active then set_active_new_connection_flood_ flood w else set_pending_new_connection_flood_ flood w in
          '(ok, w) ← create_connection x fuel w;
          if (ok : bool) then open_connections fuel x need active w
          else Some (false, relax_wakeup_at (now_ x + 1)%Q w)
      else Some (true, w)
  end.

(** The second loop: connections over the sockets that a proxy opened. *)
Fixpoint use_sockets (sockets : list Z) (x : io) (need : Z) (w : webhook) : option webhook :=
  match sockets with
  | [] => Some w
  | _ :: sockets' =>
      if connection_count w + pending_count w <? need then
        '(ok, w) ← create_connection_fd x (Z.to_nat need + 2 + length sockets') w;
        if (ok : bool) then use_sockets sockets' x need w else Some (relax_wakeup_at (now_ x + 1)%Q w)
      else Some w
  end.

Definition create_new_connections (x : io) (w : webhook) : option webhook :=
  if negb (ip_is_valid (ip_address_ w)) then Some w
  else if url_is_https e && negb (ssl_ctx_ w) then Some w
  else
    let need := queue_count w in
    let need := if max_connections_ e <? need then max_connections_ e else need in
    let need := if negb (was_checked_ w) then 1 else need in
    let active := negb (qlt (last_success_time_ w + 10)%Q (now_ x)) in
    let need := if active then (if need =? 0 then 1 else need) else (if 1 <? need then 1 else need) in
    '(ok, w) ← open_connections (Datatypes.S (Z.to_nat need)) x need active w;
    if (ok : bool) then
      w ← use_sockets (reverse (ready_sockets_ w)) x need w;
      Some (set_ready_sockets_ [] w)
    else Some w.

(** ** The address of the host *)

Definition resolve_ip_address (x : io) (w : webhook) : webhook :=
  if fix_ip_address_ e || is_ip_address_being_resolved_ w then w
  else if qlt (now_ x) (next_ip_address_resolve_time_ w) then relax_wakeup_at (next_ip_address_resolve_time_ w) w
  else send ResolveHost (set_is_ip_address_being_resolved_ true w).

(** ** Loading updates *)

(** One update of the queue. *)
Definition load_update (now : Q) (unix_time_now : Z) (event : Event) (w : webhook) : option webhook :=
  (CHECK! id_valid (e_id event) ;;
   match update_map_ w !! e_id event with
   | Some _ => Some w
   | None =>
       CHECK! unix_time_now <=? e_expires_at event ;;
       next ← result_value (next_id (e_id event));
       let w := set_tqueue_offset_ next w in
       let '(queue_id, w) :=
         if e_extra event =? 0 then (unique_queue_id_ w, set_unique_queue_id_ (unique_queue_id_ w + 1) w) else (e_extra event, w) in
       let w := set_update_map_ (<[e_id event := mkUpdate (e_id event) (e_data event) (e_expires_at event) 0 now 1 0 queue_id]>
                                   (update_map_ w)) w in
       let event_ids := default [] (queue_updates_ w !! queue_id) in
       let w := if bool_decide (event_ids = []) then set_queues_ (queues_emplace (now, queue_id) (queues_ w)) w else w in
       Some (set_queue_updates_ (<[queue_id := event_ids ++ [e_id event]]> (queue_updates_ w)) w)
   end)%td.
Fixpoint load_each (now : Q) (unix_time_now : Z) (updates : list Event) (w : webhook) : option webhook :=
  match updates with
  | [] => Some w
  | event :: updates => w ← load_update now unix_time_now event w; load_each now unix_time_now updates w
  end.

(** The doubling of [last_pending_update_count_], a [size_t]. *)
Fixpoint grow_count (fuel : nat) (total_size count : Z) : option Z :=
  match fuel with
  | O => None
  | Datatypes.S fuel => if count <=? total_size then grow_count fuel total_size (wrap 64 (count * 2)) else Some count
  end.

(** The call of [get], and the second one from the first update that is left. *)
Definition get_updates (unix_time_now limit : Z) (w : webhook) (t : tqueue S) : option (Z * list Event * webhook * tqueue S) :=
  if id_empty (tqueue_offset_ w) then Some (0, [], w, t)
  else
    '(r, updates, t) ← get (tqueue_id_ e) (tqueue_offset_ w) false unix_time_now (Z.to_nat limit) t;
    match r with
    | Ok total_size => Some (total_size, updates, w, t)
    | Err _ _ =>
        let w := set_tqueue_offset_ (get_head (tqueue_id_ e) t) w in
        '(r, updates, t) ← get (tqueue_id_ e) (tqueue_offset_ w) false unix_time_now (Z.to_nat limit) t;
        total_size ← result_value r;
        Some (total_size, updates, w, t)
    end.

Definition load_updates (x : io) (w : webhook) (t : tqueue S) : option (webhook * tqueue S) :=
  if tqueue_empty_ w then Some (w, t)
  else if max_loaded_updates_ w <=? queue_count w then
    (CHECK! queue_count w =? max_loaded_updates_ w ;; Some (w, t))%td
  else
    let w := if id_empty (tqueue_offset_ w) then set_tqueue_offset_ (get_head (tqueue_id_ e) t) w else w in
    let limit := Z.min TQUEUE_EVENT_BUFFER_SIZE (max_loaded_updates_ w - queue_count w) in
    let unix_time_now := get_unix_time e (now_ x) in
    '(total_size, updates, w, t) ← get_updates unix_time_now limit w t;
    let w := if bool_decide (updates = []) then set_tqueue_empty_ true w else w in
    w ← load_each (now_ x) unix_time_now updates w;
    count ← (if total_size <=? MIN_PENDING_UPDATES_WARNING / 2
             then Some (if MIN_PENDING_UPDATES_WARNING <? last_pending_update_count_ w then MIN_PENDING_UPDATES_WARNING
                        else last_pending_update_count_ w)
             else grow_count 64 total_size (last_pending_update_count_ w));
    let w := set_last_pending_update_count_ count w in
    Some (if (slen updates =? total_size) && last_update_was_successful_ w then send WebhookSuccess w else w, t).

(** ** Ends of updates *)

Definition drop_event (event_id : Z) (w : webhook) (t : tqueue S) : option (webhook * tqueue S) :=
  u ← update_map_ w !! event_id;
  let queue_id := queue_id_ u in
  let w := set_update_map_ (delete event_id (update_map_ w)) w in
  match queue_updates_ w !! queue_id with
  | Some (front :: event_ids) =>
      (CHECK! event_id =? front ;;
       w ← match event_ids return option webhook with
           | [] => Some (set_queue_updates_ (delete queue_id (queue_updates_ w)) w)
           | update_id :: _ =>
               CHECK! id_valid update_id ;;
               update ← update_map_ w !! update_id;
               Some (set_queues_ (queues_emplace (update_wakeup_at_ update, queue_id_ update) (queues_ w))
                       (set_queue_updates_ (<[queue_id := event_ids]> (queue_updates_ w)) w))
           end;
       t ← forget (tqueue_id_ e) event_id t;
       Some (w, t))%td
  | _ => None
  end.

Definition on_update_ok (now : Q) (event_id : Z) (w : webhook) (t : tqueue S) : option (webhook * tqueue S) :=
  let w := set_last_success_time_ now (set_last_update_was_successful_ true w) in
  (CHECK! bool_decide (is_Some (update_map_ w !! event_id)) ;; drop_event event_id w t)%td.

Definition MAX_RETRY_AFTER : Z := 3600.
(** [next_delay] and [next_effective_delay]. *)
Definition next_delays (random retry_after : Z) (u : Update) : Z * Z :=
  if (retry_after =? 0) && (0 <? fail_count_ u)
  then let next_delay := Z.min random (delay_ u * 2) in (next_delay, next_delay)
  else (delay_ u, retry_after).
Definition on_update_error (x : io) (event_id retry_after : Z) (w : webhook) (t : tqueue S) : option (webhook * tqueue S) :=
  let w := set_last_update_was_successful_ false w in
  u ← update_map_ w !! event_id;
  let retry_after := Z.max 0 (Z.min retry_after MAX_RETRY_AFTER) in
  let '(next_delay, next_effective_delay) := next_delays (random_ x) retry_after u in
  if expires_at_ u <? get_unix_time e (now_ x) + next_effective_delay then drop_event event_id w t
  else
    let u := delayed next_delay (now_ x + inject_Z next_effective_delay)%Q u in
    Some (set_queues_ (queues_emplace (update_wakeup_at_ u, queue_id_ u) (queues_ w))
            (set_update_map_ (<[event_id := u]> (update_map_ w)) w), t).

(** ** Sending *)

(** [JsonUpdate], which [json_encode] writes. *)
Definition quote : slice := [chr 34].
Definition json_update (id : Z) (update : slice) : option slice :=
  (CHECK! negb (bool_decide (update = [])) ;;
   Some (lit "{" ++ quote ++ lit "update_id" ++ quote ++ lit ":" ++ print_int 32 id ++ lit "," ++ [chr 10] ++ update ++ lit "}"))%td.

Definition request_header (body_size : Z) : option (result slice) :=
  let hc := add_header (init_post (url_query e)) (lit "Host") (host_header_ e) in
  let hc := if bool_decide (authorization e = []) then hc else add_header hc (lit "Authorization") (authorization e) in
  let hc := if bool_decide (secret_token_ e = []) then hc
            else add_header hc (lit "X-Telegram-Bot-Api-Secret-Token") (secret_token_ e) in
  let hc := set_content_type hc (lit "application/json") in
  let hc := set_content_size hc body_size in
  let hc := set_keep_alive hc in
  let hc := add_header hc (lit "Accept-Encoding") (lit "gzip, deflate") in
  finish hc [].

(** Whether an update was sent.  [ListNode::get] takes the connection that is
    longest in the list. *)
Definition send_update (now : Q) (w : webhook) : option (bool * webhook) :=
  match last (ready_connections_ w), queues_ w with
  | None, _ | _, [] => Some (false, w)
  | Some connection, (wakeup_at, queue_id) :: queues =>
      if qlt now wakeup_at then Some (false, relax_wakeup_at wakeup_at w)
      else
        (CHECK! negb (queue_id =? 0) ;;
         let w := set_queues_ queues w in
         event_ids ← queue_updates_ w !! queue_id;
         event_id ← head event_ids;
         (CHECK! id_valid event_id ;;
          u ← update_map_ w !! event_id;
          let w := set_update_map_ (<[event_id := set_last_send_time_ now u]> (update_map_ w)) w in
          body ← json_update (id_ u) (json_ u);
          r_header ← request_header (slen body);
          match r_header with
          | Err _ _ => Some (false, w)
          | Ok header =>
              let w := set_ready_connections_ (removelast (ready_connections_ w)) w in
              let w := set_connections_ (st_update (connections_ w) connection (set_event_id_ (id_ u))) w in
              Some (true, send (WriteRequest connection header body) w)
          end))%td
  end.

Fixpoint send_updates (fuel : nat) (now : Q) (w : webhook) : option webhook :=
  match fuel with
  | O => None
  | Datatypes.S fuel =>
      '(ok, w) ← send_update now w;
      if (ok : bool) then send_updates fuel now w else Some w
  end.

(** ** The actor *)

(** A round of [send_updates] sends at most one update of each queue. *)
Definition loop (x : io) (w : webhook) (t : tqueue S) : option (webhook * tqueue S) :=
  let w := set_actor_wakeup_at_ 0 w in
  '(w, t) ← (if stop_flag_ w then Some (w, t) else load_updates x w t);
  let w := if stop_flag_ w then w else resolve_ip_address x w in
  w ← (if stop_flag_ w then Some w else create_new_connections x w);
  w ← (if stop_flag_ w then Some w else send_updates (Datatypes.S (length (queues_ w))) (now_ x) w);
  let w := if negb (stop_flag_ w) && negb (Qeq_bool (actor_wakeup_at_ w) 0) then send (SetTimeoutAt (actor_wakeup_at_ w)) w else w in
  Some (if stop_flag_ w then send Stop w else w, t).

Definition update (x : io) (w : webhook) (t : tqueue S) : option (webhook * tqueue S) := loop x (set_tqueue_empty_ false w) t.

Definition on_resolved_ip_address (x : io) (r : IPAddress + slice) (w : webhook) (t : tqueue S) : option (webhook * tqueue S) :=
  (CHECK! is_ip_address_being_resolved_ w ;;
   let w := set_is_ip_address_being_resolved_ false w in
   let w := set_next_ip_address_resolve_time_ (now_ x + inject_Z (IP_ADDRESS_CACHE_TIME + random_ x))%Q w in
   let w := relax_wakeup_at (next_ip_address_resolve_time_ w) w in
   w ← match r return option webhook with
       | inr error => on_error error w
       | inl new_ip_address =>
           check_status ← check_ip_address new_ip_address;
           match check_status with
           | Some error => on_error error w
           | None =>
               Some (if negb (ip_eqb (ip_address_ w) new_ip_address) then
                       let w := set_ip_generation_ (ip_generation_ w + 1) (set_ip_address_ new_ip_address w) in
                       if was_checked_ w then on_webhook_verified w else w
                     else w)
           end
       end;
   loop x w t)%td.

Definition on_ssl_context_created (x : io) (r : option error) (w : webhook) (t : tqueue S) : option (webhook * tqueue S) :=
  match r with
  | Some error => w ← create_webhook_error (lit "Can't create an SSL context") error true w; loop x w t
  | None => loop x (set_ssl_ctx_ true w) t
  end.

Definition on_socket_ready_async (x : io) (r : Z + slice) (id : Z) (w : webhook) (t : tqueue S) : option (webhook * tqueue S) :=
  let w := set_pending_sockets_ (st_erase (pending_sockets_ w) id) w in
  match r with
  | inl socket => loop x (set_ready_sockets_ (ready_sockets_ w ++ [socket]) w) t
  | inr error => w ← on_error error (on_webhook_error error w); loop x w t
  end.

(** A method that an answer to a webhook request may call. *)
Definition is_callable (method : slice) : bool :=
  let method := to_lower_slice method in
  negb (bool_decide (method = [])) && negb (bool_decide (method = lit "deletewebhook")) && negb (bool_decide (method = lit "setwebhook"))
  && negb (bool_decide (method = lit "close")) && negb (bool_decide (method = lit "logout")) && negb (begins_with method (lit "get")).

(** What an answer says: the error, [retry_after], and whether the webhook is to
    be closed. *)
Definition handle_response (x : io) (r : response) (w : webhook) : slice * Z * bool * webhook :=
  if is_response r then
    if (200 <=? code_ r) && (code_ r <=? 299) then
      let w := if is_callable (method_ r)
               then send (SendQuery (print_int 64 (Z.land (tqueue_id_ e) (Z.shiftl 1 54 - 1))) (Z.shiftl 1 54 <=? tqueue_id_ e) r) w
               else w in
      ([], 0, false, set_first_error_410_time_ 0 w)
    else
      let query_error := lit "Wrong response from the webhook: " ++ print_int 32 (code_ r) ++ lit " " ++ reason_ r in
      let '(need_close, w) :=
        if code_ r =? 410 then
          if Qeq_bool (first_error_410_time_ w) 0 then (false, set_first_error_410_time_ (now_ x) w)
          else (qlt (first_error_410_time_ w + inject_Z WEBHOOK_DROP_TIMEOUT)%Q (now_ x), w)
        else (false, set_first_error_410_time_ 0 w) in
      (query_error, retry_after_ r, need_close, on_webhook_error query_error w)
  else
    let query_error := lit "Wrong response from the webhook: " ++ text_ r in
    (query_error, 0, false, on_webhook_error query_error w).

(** [connection_id] is the link token. *)
Definition handle (x : io) (connection_id : Z) (r : option response) (w : webhook) (t : tqueue S) : option (webhook * tqueue S) :=
  match st_get (connections_ w) connection_id with
  | None => Some (w, t)
  | Some connection =>
      let '(query_error, retry_after, need_close, close_connection, w) :=
        match r with
        | Some r =>
            let close := negb (is_response r) || negb (keep_alive_ r) || negb (ip_generation_ w =? conn_ip_generation_ connection) in
            let '(query_error, retry_after, need_close, w) := handle_response x r w in
            (query_error, retry_after, need_close, close, w)
        | None => (lit "Webhook connection closed", 0, false, true, send (ReleaseConnectionActor connection_id) w)
        end in
      let event_id := event_id_ connection in
      '(w, t) ← (if negb (id_empty event_id) then
                   if bool_decide (query_error = []) then on_update_ok (now_ x) event_id w t
                   else on_update_error x event_id retry_after w t
                 else (CHECK! negb (bool_decide (query_error = [])) ;; Some (w, t))%td);
      let w := set_connections_ (st_update (connections_ w) connection_id (set_event_id_ 0)) w in
      let w :=
        if need_close || close_connection then
          let w := set_connections_ (st_erase (connections_ w) connection_id) w in
          let w := set_ready_connections_ (List.filter (fun id => negb (id =? connection_id)) (ready_connections_ w)) w in
          send (ConnectionCount (-1)) (send (CloseConnection connection_id) w)
        else set_ready_connections_ (connection_id :: ready_connections_ w) w in
      if need_close then Some (send CloseLater w, t) else loop x w t
  end.

Definition hangup_shared (x : io) (connection_id : Z) (w : webhook) (t : tqueue S) : option (webhook * tqueue S) :=
  '(w, t) ← handle x connection_id None w t; loop x w t.

Definition hangup (w : webhook) : webhook := send Stop (set_callback_ false w).
Definition close (w : webhook) : webhook := send Stop (set_callback_ false (send (WebhookClosed None) w)).
Definition tear_down (w : webhook) : webhook := send (ConnectionCount (- connection_count w)) w.
Definition on_connection_error (error : slice) (w : webhook) : webhook := on_webhook_error error w.

(** The constructor; [cached_ip_address] is what [get_ip_address] made of the
    text, if it could. *)
Definition new_webhook (cached_ip_address : option IPAddress) : option webhook :=
  (CHECK! 0 <? max_connections_ e ;;
   ip_address ← match cached_ip_address return option IPAddress with
                | Some addr => set_port addr (url_port e)
                | None => Some ip_invalid
                end;
   Some (mkWebhook true false MIN_PENDING_UPDATES_WARNING false false 0 0 ∅ ∅ [] (Z.shiftl 1 60) 0 false ip_address 0 0 false
           st_empty [] st_empty [] new_flood_control new_flood_control 0 0 true []))%td.

(** [start_up] after the times and the limits are set. *)
Definition start_up_checks (w : webhook) : option webhook :=
  w ← (if negb (local_mode_ e) then
         if url_is_https e then
           if negb (url_port e =? 443) && negb (url_port e =? 88) && negb (url_port e =? 80) && negb (url_port e =? 8443)
           then on_error (lit "Webhook can be set up only on ports 80, 88, 443 or 8443") w
           else Some w
         else on_error (lit "An HTTPS URL must be provided for webhook") w
       else Some w);
  check_status ← (if fix_ip_address_ e && negb (stop_flag_ w) then check_ip_address (ip_address_ w) else Some None);
  match check_status with
  | Some error => on_error error w
  | None =>
      let w := if from_db_flag_ e && negb (stop_flag_ w) then on_webhook_verified (set_was_checked_ true w) else w in
      let w := if url_is_https e && negb (stop_flag_ w) then send CreateSslContext w else w in
      Some (send Yield w)
  end.

Definition start_up (x : io) (w : webhook) : option webhook :=
  let w := set_max_loaded_updates_ (max_connections_ e * 2) w in
  let w := set_last_success_time_ (now_ x - inject_Z (2 * IP_ADDRESS_CACHE_TIME))%Q w in
  let w := set_next_ip_address_resolve_time_
             (if from_db_flag_ e then (now_ x + inject_Z (random_ x))%Q else last_success_time_ w) w in
  let w := set_active_new_connection_flood_ (add_limit (active_new_connection_flood_ w) (1 # 2) 10) w in
  let w := set_pending_new_connection_flood_ (add_limit (pending_new_connection_flood_ w) 2 1) w in
  start_up_checks w.

(** ** Events of the actor *)

(** A wake-up or a timeout runs [loop]; an answer and a hangup come from the
    connection of the link token. *)
Inductive wevent :=
| WakeUp
| NewUpdates
| ResolvedIpAddress (r : IPAddress + slice)
| SslContextCreated (r : option error)
| SocketReady (r : Z + slice) (id : Z)
| Response (connection : Z) (r : option response)
| HangupShared (connection : Z)
| ConnectionError (message : slice)
| Hangup
| Close.

Definition step (x : io) (ev : wevent) (w : webhook) (t : tqueue S) : option (webhook * tqueue S) :=
  match ev with
  | WakeUp => loop x w t
  | NewUpdates => update x w t
  | ResolvedIpAddress r => on_resolved_ip_address x r w t
  | SslContextCreated r => on_ssl_context_created x r w t
  | SocketReady r id => on_socket_ready_async x r id w t
  | Response connection r => handle x connection r w t
  | HangupShared connection => hangup_shared x connection w t
  | ConnectionError message => Some (on_connection_error message w, t)
  | Hangup => Some (hangup w, t)
  | Close => Some (close w, t)
  end.
End Webhook.
