(* ===== verification/WebhookQueues.v ===== *)
(** * The updates that a webhook has loaded

    How [update_map_], [queue_updates_], [queues_], the connections and the list
    of the ready ones fit together in [WebhookActor], and the steps that change
    them. *)

From Stdlib Require Import QArith.
From stdpp Require Import gmap sorting.
From S2P Require Import Prelude TQueue WebhookActor.

Local Open Scope Z_scope.

(** ** The set [queues_] *)

Definition queue_before (x y : Q * Z) : Prop := queue_less x y = true.

Lemma queue_less_spec x y :
  queue_before x y ↔ integer_wakeup_at x.1 < integer_wakeup_at y.1
                     ∨ integer_wakeup_at x.1 = integer_wakeup_at y.1 ∧ x.2 < y.2.
Proof.
  unfold queue_before, queue_less. rewrite orb_true_iff, andb_true_iff, !Z.ltb_lt, Z.eqb_eq. done.
Qed.

Lemma queues_emplace_perm x l : x.2 ∉ l.*2 → queues_emplace x l ≡ₚ x :: l.
Proof.
  induction l as [|y l IH]; [done|]. cbn [queues_emplace fmap list_fmap]. intros [Hne Hin]%not_elem_of_cons.
  destruct (queue_less x y) eqn:Exy; [done|]. destruct (queue_less y x) eqn:Eyx.
  - rewrite IH by done. apply Permutation_swap.
  - exfalso. assert (¬ queue_before x y) as Hx by (unfold queue_before; congruence).
    assert (¬ queue_before y x) as Hy by (unfold queue_before; congruence). rewrite queue_less_spec in Hx, Hy. lia.
Qed.

Lemma queues_emplace_sorted x l : StronglySorted queue_before l → StronglySorted queue_before (queues_emplace x l).
Proof.
  induction 1 as [|y l Hs IH Hall]; cbn [queues_emplace]; [repeat constructor|].
  destruct (queue_less x y) eqn:Exy; [|destruct (queue_less y x) eqn:Eyx].
  - assert (Forall (queue_before x) l) as Hx.
    { eapply Forall_impl; [exact Hall|]. intros z. change (queue_before x y) in Exy. cbn. rewrite !queue_less_spec in *. lia. }
    repeat constructor; done.
  - constructor; [done|]. clear IH. induction l as [|z l IHl]; cbn [queues_emplace]; [by repeat constructor|].
    apply StronglySorted_inv in Hs as [Hs _]. apply Forall_cons in Hall as [Hz Hall].
    destruct (queue_less x z); [by repeat constructor|]. destruct (queue_less z x); [|by constructor]. constructor; [done|auto].
  - by constructor.
Qed.

(** ** The updates that are loaded *)

Section Core.
Context (stuck : Update → Prop).
Context (stuck_ext : ∀ u u', id_ u' = id_ u → json_ u' = json_ u → stuck u → stuck u').

(** An update that was sent and not yet answered. *)
Definition in_flight (cs : gmap Z Connection) (id : Z) : Prop :=
  id ≠ 0 ∧ ∃ cid conn, cs !! cid = Some conn ∧ event_id_ conn = id.

(** The updates, their queues, the schedule of the queues, the connections and
    the list of the ready ones.  [free] is a queue that is neither scheduled nor
    in flight, in the middle of a handler. *)
Record core_ok (free : option Z) (um : gmap Z Update) (qu : gmap Z (list Z)) (qs : list (Q * Z))
    (cs : gmap Z Connection) (ready : list Z) : Prop := {
  co_map id u : um !! id = Some u →
    id_ u = id ∧ id_valid id = true ∧ json_ u ≠ [] ∧ ∃ ids, qu !! queue_id_ u = Some ids ∧ id ∈ ids;
  co_queue qid ids : qu !! qid = Some ids →
    qid ≠ 0 ∧ NoDup ids ∧ ids ≠ [] ∧ ∀ id, id ∈ ids → ∃ u, um !! id = Some u ∧ queue_id_ u = qid;
  co_nodup : NoDup qs.*2;
  co_sorted : StronglySorted queue_before qs;
  co_sched wakeup qid : (wakeup, qid) ∈ qs →
    free ≠ Some qid ∧ ∃ id ids u, qu !! qid = Some (id :: ids) ∧ um !! id = Some u ∧ update_wakeup_at_ u = wakeup ∧ ¬ in_flight cs id;
  co_flight cid conn : cs !! cid = Some conn → event_id_ conn ≠ 0 →
    ∃ u ids, um !! event_id_ conn = Some u ∧ qu !! queue_id_ u = Some (event_id_ conn :: ids) ∧ free ≠ Some (queue_id_ u);
  co_flight_inj c1 c2 conn1 conn2 : cs !! c1 = Some conn1 → cs !! c2 = Some conn2 →
    event_id_ conn1 ≠ 0 → event_id_ conn1 = event_id_ conn2 → c1 = c2;
  co_ready cid : cid ∈ ready ↔ ∃ conn, cs !! cid = Some conn ∧ event_id_ conn = 0;
  co_ready_nodup : NoDup ready;
  co_served qid id ids : qu !! qid = Some (id :: ids) → free ≠ Some qid →
    qid ∈ qs.*2 ∨ in_flight cs id ∨ ∃ u, um !! id = Some u ∧ stuck u;
}.

Lemma core_empty : core_ok None ∅ ∅ [] ∅ [].
Proof.
  split; try (intros *; rewrite ?lookup_empty; discriminate); try by apply NoDup_nil.
  - constructor.
  - intros ? ? []%elem_of_nil.
  - intros cid. rewrite lookup_empty. split; [intros []%elem_of_nil|by intros (? & E & _)].
Qed.

(** The front of a queue is an update of that queue. *)
Lemma core_front free um qu qs cs ready qid id ids :
  core_ok free um qu qs cs ready → qu !! qid = Some (id :: ids) →
  ∃ u, um !! id = Some u ∧ queue_id_ u = qid ∧ id_ u = id ∧ id_valid id = true ∧ json_ u ≠ [] ∧ qid ≠ 0 ∧ (id ∉ ids) ∧ NoDup ids.
Proof.
  intros Hc Eq. destruct (co_queue _ _ _ _ _ _ Hc _ _ Eq) as (Hq & [Hni Hn]%NoDup_cons & _ & Hall).
  destruct (Hall id ltac:(by left)) as (u & Eu & Hqu). destruct (co_map _ _ _ _ _ _ Hc _ _ Eu) as (? & ? & ? & _). by exists u.
Qed.

Lemma valid_nonzero id : id_valid id = true → id ≠ 0.
Proof. unfold id_valid, id_empty. intros [Hz _]%andb_true_iff ->. done. Qed.

(** *** The steps of a queue *)

Lemma core_scheduled free um qu qs cs ready qid :
  core_ok free um qu qs cs ready → free = Some qid → qid ∉ qs.*2.
Proof.
  intros Hc -> ([w q] & -> & Hin)%list_elem_of_fmap. by destruct (co_sched _ _ _ _ _ _ Hc _ _ Hin) as [[] _].
Qed.

(** The answer for an update frees its queue. *)
Lemma core_answered um qu qs cs ready cid conn u :
  core_ok None um qu qs cs ready → cs !! cid = Some conn → event_id_ conn ≠ 0 → um !! event_id_ conn = Some u →
  core_ok (Some (queue_id_ u)) um qu qs (<[cid := set_event_id_ 0 conn]> cs) (cid :: ready).
Proof.
  intros Hc Ec Hne Eu. pose proof Hc as [Hm Hq Hn Hs Hsch Hf Hinj Hr Hrn Hserved].
  destruct (Hf _ _ Ec Hne) as (u0 & ids & Eu0 & Eq & _). assert (u0 = u) as -> by congruence.
  assert (∀ id, in_flight (<[cid := set_event_id_ 0 conn]> cs) id ↔ in_flight cs id ∧ id ≠ event_id_ conn) as Hfl.
  { intros id. split.
    - intros (Hi & c & k & Hk & <-). destruct (decide (c = cid)) as [->|Hc']; [rewrite lookup_insert_eq in Hk; by injection Hk as <-|].
      rewrite lookup_insert_ne in Hk by done. split; [split; eauto|]. intros E. by apply Hc', (Hinj _ _ _ _ Hk Ec).
    - intros [(Hi & c & k & Hk & <-) Hid]. split; [done|]. exists c, k. split; [|done].
      rewrite lookup_insert_ne; [done|]. intros <-. congruence. }
  split; try done.
  - intros wakeup qid Hin. destruct (Hsch _ _ Hin) as (_ & id & ids' & u' & E1 & E2 & E3 & Hnf). split.
    + intros [= <-]. apply Hnf. rewrite Eq in E1. injection E1 as <- <-. split; eauto.
    + exists id, ids', u'. split_and!; [done..|]. by intros [? _]%Hfl.
  - intros c k Hk Hk0. destruct (decide (c = cid)) as [->|Hc']; [rewrite lookup_insert_eq in Hk; by injection Hk as <-|].
    rewrite lookup_insert_ne in Hk by done. destruct (Hf _ _ Hk Hk0) as (u' & ids' & E1 & E2 & _). exists u', ids'. split_and!; [done..|].
    intros [= E3]. rewrite E3 in Eq. rewrite Eq in E2. injection E2 as E2 _. by apply Hc', (Hinj _ _ _ _ Hk Ec).
  - intros c1 c2 k1 k2 H1 H2 Hz He.
    destruct (decide (c1 = cid)) as [->|]; [rewrite lookup_insert_eq in H1; by injection H1 as <-|].
    destruct (decide (c2 = cid)) as [->|]; [rewrite lookup_insert_eq in H2; injection H2 as <-; by rewrite He in Hz|].
    rewrite lookup_insert_ne in H1, H2 by done. by eapply Hinj.
  - intros c. rewrite elem_of_cons, Hr. destruct (decide (c = cid)) as [->|Hc'].
    + rewrite lookup_insert_eq. split; [intros _; eauto|by left].
    + rewrite lookup_insert_ne by done. split; [intros [?|?]; done|by right].
  - constructor; [|done]. rewrite Hr. intros (k & Hk & Hz). congruence.
  - intros qid id ids' Eq' Hfree. destruct (Hserved _ _ _ Eq') as [?|[Hin|?]]; [done|by left| |by right; right].
    right; left. apply Hfl. split; [done|]. intros ->. destruct (core_front _ _ _ _ _ _ _ _ _ Hc Eq') as (u' & E & <- & _). congruence.
Qed.

(** A free queue is scheduled by the time of its front. *)
Lemma core_reschedule um qu qs cs ready qid id ids u :
  core_ok (Some qid) um qu qs cs ready → qu !! qid = Some (id :: ids) → um !! id = Some u →
  core_ok None um qu (queues_emplace (update_wakeup_at_ u, qid) qs) cs ready.
Proof.
  intros Hc Eq Eu. pose proof (core_scheduled _ _ _ _ _ _ _ Hc eq_refl) as Hni.
  pose proof Hc as [Hm Hq Hn Hs Hsch Hf Hinj Hr Hrn Hserved].
  pose proof (queues_emplace_perm (update_wakeup_at_ u, qid) qs Hni) as Hp.
  assert ((queues_emplace (update_wakeup_at_ u, qid) qs).*2 ≡ₚ qid :: qs.*2) as Hp2 by (by rewrite Hp).
  split; try done.
  - rewrite Hp2. by constructor.
  - by apply queues_emplace_sorted.
  - intros wakeup q. rewrite Hp. intros [[= -> ->]|Hin]%elem_of_cons.
    + split; [done|]. exists id, ids, u. split_and!; [done..|]. intros (Hz & c & k & Hk & <-).
      destruct (Hf _ _ Hk Hz) as (u' & ids' & E1 & _ & Hfree). assert (u' = u) as -> by congruence.
      destruct (core_front _ _ _ _ _ _ _ _ _ Hc Eq) as (u' & E & Eqid & _). assert (u' = u) as -> by congruence. by rewrite Eqid in Hfree.
    + destruct (Hsch _ _ Hin) as [_ ?]. done.
  - intros c k Hk Hz. destruct (Hf _ _ Hk Hz) as (u' & ids' & ? & ? & _). by exists u', ids'.
  - intros q i is_ Eqi _. rewrite Hp2. destruct (decide (q = qid)) as [->|Hne]; [by left; left|].
    destruct (Hserved _ _ _ Eqi) as [?|[?|?]]; [congruence|by left; right|by right; left|by right; right].
Qed.

(** A free queue that is not there, or whose update cannot be sent. *)
Lemma core_settle um qu qs cs ready qid :
  core_ok (Some qid) um qu qs cs ready →
  (∀ id ids, qu !! qid = Some (id :: ids) → ∃ u, um !! id = Some u ∧ stuck u) →
  core_ok None um qu qs cs ready.
Proof.
  intros Hc Hst. pose proof Hc as [Hm Hq Hn Hs Hsch Hf Hinj Hr Hrn Hserved]. split; try done.
  - intros wakeup q Hin. by destruct (Hsch _ _ Hin).
  - intros c k Hk Hz. destruct (Hf _ _ Hk Hz) as (u & ids & ? & ? & _). by exists u, ids.
  - intros q id ids Eq _. destruct (decide (q = qid)) as [->|Hne]; [|apply (Hserved _ _ _ Eq); congruence].
    right; right. eauto.
Qed.

(** An update changes, but neither its name, its text nor its queue; its time only
    when its queue is free. *)
Lemma core_update free um qu qs cs ready id u u' :
  core_ok free um qu qs cs ready → um !! id = Some u →
  id_ u' = id_ u → json_ u' = json_ u → queue_id_ u' = queue_id_ u →
  update_wakeup_at_ u' = update_wakeup_at_ u ∨ free = Some (queue_id_ u) →
  core_ok free (<[id := u']> um) qu qs cs ready.
Proof.
  intros Hc Eu Eid Ej Eq Hw. pose proof Hc as [Hm Hq Hn Hs Hsch Hf Hinj Hr Hrn Hserved]. split; try done.
  - intros i v. rewrite lookup_insert_Some. intros [[<- <-]|[_ Hv]]; [|by apply Hm].
    rewrite Eid, Ej, Eq. by apply Hm.
  - intros qid ids E. destruct (Hq _ _ E) as (? & ? & ? & Hall). split_and!; [done..|]. intros i Hi.
    destruct (Hall i Hi) as (v & Ev & Hv). destruct (decide (i = id)) as [->|Hne].
    + exists u'. rewrite lookup_insert_eq. split; [done|congruence].
    + exists v. by rewrite lookup_insert_ne.
  - intros wakeup qid Hin. destruct (Hsch _ _ Hin) as (Hfree & i & ids & v & E1 & E2 & E3 & Hnf). split; [done|].
    exists i, ids. destruct (decide (i = id)) as [->|Hne]; [|exists v; by rewrite lookup_insert_ne].
    exists u'. rewrite lookup_insert_eq. assert (v = u) as -> by congruence. split_and!; [done..| |done].
    destruct Hw as [->|Hw]; [done|]. destruct (core_front _ _ _ _ _ _ _ _ _ Hc E1) as (v & Ev & Hv & _). congruence.
  - intros c k Hk Hz. destruct (Hf _ _ Hk Hz) as (v & ids & E1 & E2 & E3).
    destruct (decide (event_id_ k = id)) as [<-|Hne]; [|exists v, ids; by rewrite lookup_insert_ne].
    exists u', ids. rewrite lookup_insert_eq, Eq. assert (v = u) as -> by congruence. done.
  - intros qid i ids E Hfree. destruct (Hserved _ _ _ E Hfree) as [?|[?|(v & Ev & Hv)]]; [by left|by right; left|].
    right; right. destruct (decide (i = id)) as [->|Hne]; [|exists v; by rewrite lookup_insert_ne].
    exists u'. rewrite lookup_insert_eq. split; [done|]. assert (v = u) as -> by congruence. by eapply stuck_ext.
Qed.

(** [drop_event] up to the schedule. *)
Definition rest_of_queue (qid : Z) (ids : list Z) (qu : gmap Z (list Z)) : gmap Z (list Z) :=
  match ids with [] => delete qid qu | _ => <[qid := ids]> qu end.

Lemma rest_of_queue_other qid q ids qu : q ≠ qid → rest_of_queue qid ids qu !! q = qu !! q.
Proof. intros Hne. destruct ids; cbn; by rewrite ?lookup_delete_ne, ?lookup_insert_ne. Qed.
Lemma rest_of_queue_at qid ids qu : rest_of_queue qid ids qu !! qid = match ids with [] => None | _ => Some ids end.
Proof. destruct ids; cbn; by rewrite ?lookup_delete_eq, ?lookup_insert_eq. Qed.

Lemma core_drop um qu qs cs ready qid id ids :
  core_ok (Some qid) um qu qs cs ready → qu !! qid = Some (id :: ids) →
  core_ok (Some qid) (delete id um) (rest_of_queue qid ids qu) qs cs ready.
Proof.
  intros Hc Eq. destruct (core_front _ _ _ _ _ _ _ _ _ Hc Eq) as (u & Eu & Hqu & _ & _ & _ & Hq0 & Hni & Hnd).
  pose proof Hc as [Hm Hq Hn Hs Hsch Hf Hinj Hr Hrn Hserved].
  assert (∀ q i is_, q ≠ qid → qu !! q = Some (i :: is_) → i ≠ id) as Hother.
  { intros q i is_ Hne E ->. destruct (core_front _ _ _ _ _ _ _ _ _ Hc E) as (u' & E' & Hq' & _). congruence. }
  split; try done.
  - intros i v [Hne Hv]%lookup_delete_Some. destruct (Hm _ _ Hv) as (? & ? & ? & is_ & E & Hin). split_and!; [done..|].
    destruct (decide (queue_id_ v = qid)) as [Hqv|Hnq]; [|exists is_; by rewrite rest_of_queue_other].
    rewrite Hqv in E |- *. rewrite Eq in E. injection E as <-. apply elem_of_cons in Hin as [?|Hin]; [congruence|].
    exists ids. rewrite rest_of_queue_at. by destruct ids; [apply elem_of_nil in Hin|].
  - intros q is_. destruct (decide (q = qid)) as [->|Hne].
    + rewrite rest_of_queue_at. intros E. assert (ids ≠ [] ∧ is_ = ids) as [Hids ->] by (destruct ids; [done|by injection E]).
      destruct (Hq _ _ Eq) as (_ & _ & _ & Hall). split_and!; [done..|]. intros i Hi.
      destruct (Hall i ltac:(by right)) as (v & Ev & Hv). exists v. split; [|done]. rewrite lookup_delete_ne; [done|]. congruence.
    + rewrite rest_of_queue_other by done. intros E. destruct (Hq _ _ E) as (? & ? & ? & Hall). split_and!; [done..|].
      intros i Hi. destruct (Hall i Hi) as (v & Ev & Hv). exists v. rewrite lookup_delete_ne; [done|]. intros ->. congruence.
  - intros wakeup q Hin. destruct (Hsch _ _ Hin) as (Hfree & i & is_ & v & E1 & E2 & E3 & Hnf). split; [done|].
    assert (q ≠ qid) as Hne by congruence. exists i, is_, v. rewrite rest_of_queue_other by done.
    rewrite lookup_delete_ne by (symmetry; by eapply Hother). done.
  - intros c k Hk Hz. destruct (Hf _ _ Hk Hz) as (v & is_ & E1 & E2 & E3).
    assert (queue_id_ v ≠ qid) as Hne by congruence. exists v, is_. rewrite rest_of_queue_other by done.
    rewrite lookup_delete_ne by (symmetry; by eapply Hother). done.
  - intros q i is_ E Hfree. assert (q ≠ qid) as Hne by congruence. rewrite rest_of_queue_other in E by done.
    destruct (Hserved _ _ _ E Hfree) as [?|[?|(v & Ev & ?)]]; [by left|by right; left|right; right].
    exists v. rewrite lookup_delete_ne; [done|]. symmetry. by eapply Hother.
Qed.

(** The first queue of the schedule becomes free to be sent. *)
Lemma core_unschedule um qu wakeup qid qs cs ready :
  core_ok None um qu ((wakeup, qid) :: qs) cs ready → core_ok (Some qid) um qu qs cs ready.
Proof.
  intros Hc. pose proof Hc as [Hm Hq Hn Hs Hsch Hf Hinj Hr Hrn Hserved]. cbn in Hn. apply NoDup_cons in Hn as [Hni Hn].
  split; try done.
  - by apply StronglySorted_inv in Hs as [? _].
  - intros wk q Hin. destruct (Hsch wk q ltac:(by right)) as [_ ?]. split; [|done]. intros [= ->]. apply Hni, list_elem_of_fmap. by exists (wk, q).
  - intros c k Hk Hz. destruct (Hf _ _ Hk Hz) as (v & is_ & E1 & E2 & _). exists v, is_. split_and!; [done..|]. intros [= ->].
    destruct (Hsch wakeup (queue_id_ v) ltac:(by left)) as (_ & i & is2 & v2 & E3 & _ & _ & Hnf). rewrite E2 in E3. injection E3 as <- <-.
    apply Hnf. split; eauto.
  - intros q i is_ E Hfree. destruct (Hserved _ _ _ E ltac:(done)) as [Hin|?]; [|by right]. left.
    cbn in Hin. by apply elem_of_cons in Hin as [->|?].
Qed.

(** It is sent over an idle connection. *)
Lemma core_fly um qu qs cs ready ready' qid id ids cid conn :
  core_ok (Some qid) um qu qs cs ready → qu !! qid = Some (id :: ids) → cs !! cid = Some conn →
  ready ≡ₚ cid :: ready' → core_ok None um qu qs (<[cid := set_event_id_ id conn]> cs) ready'.
Proof.
  intros Hc Eq Ec Hp. destruct (core_front _ _ _ _ _ _ _ _ _ Hc Eq) as (u & Eu & Hqu & _ & Hval%valid_nonzero & _).
  pose proof Hc as [Hm Hq Hn Hs Hsch Hf Hinj Hr Hrn Hserved].
  assert (event_id_ conn = 0) as Ez.
  { destruct (proj1 (Hr cid)) as (k & Hk & Hz); [rewrite Hp; by left|congruence]. }
  assert (∀ i, in_flight (<[cid := set_event_id_ id conn]> cs) i ↔ in_flight cs i ∨ i = id) as Hfl.
  { intros i. split.
    - intros (Hi & c & k & Hk & <-). destruct (decide (c = cid)) as [->|Hc'].
      + rewrite lookup_insert_eq in Hk. injection Hk as <-. by right.
      + rewrite lookup_insert_ne in Hk by done. left. split; eauto.
    - intros [(Hi & c & k & Hk & <-)| ->]; [split; [done|]|split; [done|]].
      + exists c, k. rewrite lookup_insert_ne by congruence. done.
      + exists cid, (set_event_id_ id conn). by rewrite lookup_insert_eq. }
  assert (¬ in_flight cs id) as Hnf.
  { intros (_ & c & k & Hk & Hki). destruct (Hf _ _ Hk ltac:(congruence)) as (v & is_ & E1 & E2 & E3). congruence. }
  rewrite Hp in Hrn. apply NoDup_cons in Hrn as [Hnr Hrn]. split; try done.
  - intros wakeup q Hin. destruct (Hsch _ _ Hin) as (Hfree & i & is_ & v & E1 & E2 & E3 & Hni). split; [done|].
    exists i, is_, v. split_and!; [done..|]. intros [?| ->]%Hfl; [done|].
    destruct (core_front _ _ _ _ _ _ _ _ _ Hc E1) as (v' & Ev' & Hv' & _). congruence.
  - intros c k. rewrite lookup_insert_Some. intros [[<- <-]|[Hne Hk]] Hz; [exists u, ids; cbn; by rewrite Hqu|].
    destruct (Hf _ _ Hk Hz) as (v & is_ & ? & ? & _). by exists v, is_.
  - intros c1 c2 k1 k2 H1 H2 Hz He. rewrite !lookup_insert_Some in H1, H2.
    destruct H1 as [[<- <-]|[Hn1 H1]], H2 as [[<- <-]|[Hn2 H2]]; [done| | |by eapply Hinj].
    + exfalso. apply Hnf. split; [done|]. exists c2, k2. by rewrite <- He.
    + exfalso. apply Hnf. split; [done|]. exists c1, k1. by rewrite He.
  - intros c. destruct (decide (c = cid)) as [->|Hne].
    + rewrite lookup_insert_eq. split; [done|]. intros (k & [= <-] & Hz). by cbn in Hz.
    + rewrite lookup_insert_ne, <- Hr, Hp, elem_of_cons by done. split; [by right|by intros [?|?]].
  - intros q i is_ E _. destruct (decide (q = qid)) as [->|Hne].
    + rewrite Eq in E. injection E as <- <-. right; left. apply Hfl. by right.
    + destruct (Hserved _ _ _ E ltac:(congruence)) as [?|[?|?]]; [by left|right; left; apply Hfl; by left|by right; right].
Qed.

(** A new update at the end of its queue, which is free when it was not there. *)
Definition fresh_queue (qid : Z) (qu : gmap Z (list Z)) : option Z :=
  match qu !! qid with None => Some qid | Some _ => None end.

Lemma core_load um qu qs cs ready id u :
  core_ok None um qu qs cs ready → um !! id = None → id_ u = id → id_valid id = true → json_ u ≠ [] → queue_id_ u ≠ 0 →
  core_ok (fresh_queue (queue_id_ u) qu) (<[id := u]> um)
    (<[queue_id_ u := default [] (qu !! queue_id_ u) ++ [id]]> qu) qs cs ready.
Proof.
  intros Hc En Eid Hv Hj Hq0. set (qid := queue_id_ u) in *. set (old := default [] (qu !! qid)).
  pose proof Hc as [Hm Hq Hn Hs Hsch Hf Hinj Hr Hrn Hserved].
  assert (∀ i v, um !! i = Some v → (<[id := u]> um) !! i = Some v) as Hum.
  { intros i v Ei. rewrite lookup_insert_ne; [done|]. intros ->. congruence. }
  assert (∀ q i is_, qu !! q = Some (i :: is_) →
    ∃ is2, (<[qid := old ++ [id]]> qu) !! q = Some (i :: is2) ∧ fresh_queue qid qu ≠ Some q) as Hqu.
  { intros q i is_ E. unfold fresh_queue. destruct (decide (q = qid)) as [->|Hne].
    - rewrite lookup_insert_eq. unfold old. rewrite E. cbn. by eexists.
    - rewrite lookup_insert_ne by done. exists is_. split; [done|]. destruct (qu !! qid); congruence. }
  assert (∀ i, i ∈ old → ∃ v, um !! i = Some v ∧ queue_id_ v = qid) as Hold.
  { unfold old. destruct (qu !! qid) as [ids|] eqn:E; cbn; [|by intros i ?%elem_of_nil].
    destruct (Hq _ _ E) as (_ & _ & _ & Hall). exact Hall. }
  split; try done.
  - intros i v. rewrite lookup_insert_Some. intros [[<- <-]|[Hne Hv']].
    + split_and!; [done..|]. exists (old ++ [id]). fold qid. rewrite lookup_insert_eq. split; [done|]. apply elem_of_app. right. by left.
    + destruct (Hm _ _ Hv') as (? & ? & ? & ids & E & Hin). split_and!; [done..|].
      destruct (decide (queue_id_ v = qid)) as [Hqv|Hnq]; [|exists ids; by rewrite lookup_insert_ne by done].
      exists (old ++ [id]). rewrite Hqv, lookup_insert_eq. split; [done|]. apply elem_of_app. left. unfold old. by rewrite <- Hqv, E.
  - intros q ids. rewrite lookup_insert_Some. intros [[<- <-]|[Hne E]].
    + split_and!; [done| |by intros [_ ?]%app_eq_nil|].
      * apply NoDup_app. split_and!; [|intros i Hi ->%list_elem_of_singleton; destruct (Hold _ Hi) as (? & ? & _); congruence|apply NoDup_singleton].
        unfold old. destruct (qu !! qid) as [ids|] eqn:E; [by destruct (Hq _ _ E) as (_ & ? & _)|constructor].
      * intros i [Hi|Hi]%elem_of_app.
        -- destruct (Hold _ Hi) as (v & Ev & ?). exists v. by split; [apply Hum|].
        -- apply list_elem_of_singleton in Hi as ->. exists u. by rewrite lookup_insert_eq.
    + destruct (Hq _ _ E) as (? & ? & ? & Hall). split_and!; [done..|]. intros i Hi. destruct (Hall i Hi) as (v & Ev & ?).
      exists v. by split; [apply Hum|].
  - intros wakeup q Hin. destruct (Hsch _ _ Hin) as (_ & i & is_ & v & E1 & E2 & E3 & Hnf).
    destruct (Hqu _ _ _ E1) as (is2 & E & Hfree). split; [done|]. exists i, is2, v. split_and!; [done|by apply Hum|done..].
  - intros c k Hk Hz. destruct (Hf _ _ Hk Hz) as (v & is_ & E1 & E2 & _). destruct (Hqu _ _ _ E2) as (is2 & E & Hfree).
    exists v, is2. split; [by apply Hum|done].
  - intros q i is_ E Hfree. destruct (qu !! q) as [l|] eqn:El.
    + destruct (Hq _ _ El) as (_ & _ & Hne & _). destruct l as [|i2 is2]; [done|].
      destruct (Hqu _ _ _ El) as (is3 & E' & _). rewrite E in E'. injection E' as <- _.
      destruct (Hserved _ _ _ El ltac:(done)) as [?|[?|(v & ? & ?)]]; [by left|by right; left|right; right; exists v; by split; [apply Hum|]].
    + exfalso. destruct (decide (q = qid)) as [->|Hne]; [unfold fresh_queue in Hfree; by rewrite El in Hfree|].
      rewrite lookup_insert_ne in E by done. congruence.
Qed.

(** come and go while they are idle. *)
Lemma core_connect um qu qs cs ready cid g :
  core_ok None um qu qs cs ready → cs !! cid = None →
  core_ok None um qu qs (<[cid := mkConnection 0 g]> cs) (cid :: ready).
Proof.
  intros Hc En. pose proof Hc as [Hm Hq Hn Hs Hsch Hf Hinj Hr Hrn Hserved].
  assert (∀ i, in_flight (<[cid := mkConnection 0 g]> cs) i ↔ in_flight cs i) as Hfl.
  { intros i. split; intros (Hi & c & k & Hk & <-); (split; [done|]).
    - rewrite lookup_insert_Some in Hk. destruct Hk as [[<- <-]|[_ Hk]]; [done|eauto].
    - exists c, k. rewrite lookup_insert_ne; [done|]. congruence. }
  assert (∀ c k, (<[cid := mkConnection 0 g]> cs) !! c = Some k → event_id_ k ≠ 0 → cs !! c = Some k) as Hold.
  { intros c k. rewrite lookup_insert_Some. by intros [[<- <-]|[_ Hk]]. }
  split; try done.
  - intros wakeup q Hin. destruct (Hsch _ _ Hin) as (_ & i & is_ & v & ? & ? & ? & Hnf). split; [done|]. exists i, is_, v. by rewrite Hfl.
  - intros c k Hk Hz. by apply (Hf c k); [apply Hold|].
  - intros c1 c2 k1 k2 H1 H2 Hz He. apply Hold in H1; [|done]. apply Hold in H2; [|congruence]. by eapply Hinj.
  - intros c. rewrite elem_of_cons, Hr. destruct (decide (c = cid)) as [->|Hne].
    + rewrite lookup_insert_eq. split; [intros _; eauto|by left].
    + rewrite lookup_insert_ne by done. split; [by intros [?|?]|by right].
  - constructor; [|done]. rewrite Hr. intros (k & Hk & _). congruence.
  - intros q i is_ E Hfree. rewrite Hfl. by eapply Hserved.
Qed.

Lemma core_disconnect um qu qs cs ready cid conn :
  core_ok None um qu qs cs ready → cs !! cid = Some conn → event_id_ conn = 0 →
  core_ok None um qu qs (delete cid cs) (List.filter (fun id => negb (id =? cid)) ready).
Proof.
  intros Hc Ec Ez. pose proof Hc as [Hm Hq Hn Hs Hsch Hf Hinj Hr Hrn Hserved].
  assert (∀ i, in_flight (delete cid cs) i ↔ in_flight cs i) as Hfl.
  { intros i. split; intros (Hi & c & k & Hk & <-); (split; [done|]); exists c, k.
    - by apply lookup_delete_Some in Hk as [_ Hk].
    - rewrite lookup_delete_ne; [done|]. congruence. }
  split; try done.
  - intros wakeup q Hin. destruct (Hsch _ _ Hin) as (_ & i & is_ & v & ? & ? & ? & Hnf). split; [done|]. exists i, is_, v. by rewrite Hfl.
  - intros c k [_ Hk]%lookup_delete_Some. by apply (Hf c k).
  - intros c1 c2 k1 k2 [_ H1]%lookup_delete_Some [_ H2]%lookup_delete_Some. by eapply Hinj.
  - intros c. rewrite list_elem_of_In, filter_In, <- list_elem_of_In, Hr, negb_true_iff, Z.eqb_neq.
    split; [intros [(k & Hk & Hz) Hne]; exists k; by rewrite lookup_delete_ne by done|].
    intros (k & [Hne Hk]%lookup_delete_Some & Hz). eauto.
  - apply NoDup_ListNoDup, List.NoDup_filter. by apply NoDup_ListNoDup.
  - intros q i is_ E Hfree. rewrite Hfl. by eapply Hserved.
Qed.
End Core.

