(* ===== verification/WebhookDelivery.v ===== *)
(** * What the delivery to a webhook keeps

    The invariant of [WebhookActor], that each of its handlers keeps it and
    never aborts, and what follows for the updates: each is sent, those of a
    queue one at a time and in order, and none is dropped before a success or
    its deadline. *)

From Stdlib Require Import QArith.
From stdpp Require Import gmap sorting.
From S2P Require Import Prelude Slices Integers HttpHeader IpAddress Container FloodControl TQueue WebhookActor WebhookQueues.

Local Open Scope Z_scope.

(** ** The state of the actor *)

Section Delivery.
Context {C D S : Type} `{IdStoreLaws Connection C} `{IdStoreLaws unit D} `{StorageLaws S} (e : webhook_env).
(** What [IPAddress] asks the system to read, and the constructor checks. *)
Context (blocks_parse : Forall (fun b => is_Some (inet_pton4 e b.1)) reserved_blocks).
Context (connections_positive : 0 < max_connections_ e).

Abbreviation webhook := (@webhook C D).

(** An update whose request would have a header that does not fit. *)
Definition stuck (u : Update) : Prop :=
  ∃ body code msg, json_update (id_ u) (json_ u) = Some body ∧ request_header e (slen body) = Some (Err code msg).

Lemma stuck_ext u u' : id_ u' = id_ u → json_ u' = json_ u → stuck u → stuck u'.
Proof. unfold stuck. by intros -> ->. Qed.

Definition contents (w : webhook) : gmap Z Connection := st_contents (connections_ w).

Definition active_limits : list (Q * Q) := [((1 # 2)%Q, 10%Q)].
Definition pending_limits : list (Q * Q) := [(2%Q, 1%Q)].

(** Between the parts of a handler; [now] is the clock. *)
Record actor_ok (now : Q) (w : webhook) : Prop := {
  wo_core : core_ok stuck None (update_map_ w) (queue_updates_ w) (queues_ w) (contents w) (ready_connections_ w);
  wo_connections : st_wf (connections_ w);
  wo_pending : st_wf (pending_sockets_ w);
  wo_unique : 0 < unique_queue_id_ w;
  wo_max_loaded : max_loaded_updates_ w = max_connections_ e * 2;
  wo_loaded : queue_count w <= max_loaded_updates_ w;
  wo_count : MIN_PENDING_UPDATES_WARNING <= last_pending_update_count_ w <= 2 * MAX_QUEUE_EVENTS;
  wo_active : ∃ acc, flood_ok active_limits (active_new_connection_flood_ w) now acc;
  wo_pending_flood : ∃ acc, flood_ok pending_limits (pending_new_connection_flood_ w) now acc;
  wo_callback : callback_ w = negb (stop_flag_ w);
  wo_checked : stop_flag_ w = true → was_checked_ w = false;
  wo_fixed : fix_ip_address_ e = true → ip_is_valid (ip_address_ w) = true ∨ stop_flag_ w = true
}.

(** All the connections that there are or may soon be. *)
Definition all_sockets (w : webhook) : Z := connection_count w + pending_count w + slen (ready_sockets_ w).
Definition sockets_ok (w : webhook) : Prop := all_sockets w <= max_connections_ e.

(** Room for new connections, of which a handler makes a bounded number. *)
Definition room (n : nat) (w : webhook) : Prop := st_room (connections_ w) n ∧ st_room (pending_sockets_ w) n.

Lemma room_le n m w : (m <= n)%nat → room n w → room m w.
Proof. intros Hle [? ?]. split; by eapply st_room_le. Qed.

(** The updates of [w] are those of [w'], as they were. *)
Definition same_updates (w w' : webhook) : Prop :=
  update_map_ w' = update_map_ w ∧ queue_updates_ w' = queue_updates_ w ∧ queues_ w' = queues_ w.

Lemma actor_outs now w o : actor_ok now w → actor_ok now (set_outs o w).
Proof. intros []. by split. Qed.

(** *** Counting *)

Lemma ids_create {A T : Type} `{IdStoreLaws A T} (c c' : T) a id :
  st_wf c → st_create c a = Some (id, c') → slen (st_ids c') = slen (st_ids c) + 1.
Proof.
  intros Hwf E. destruct (st_create_contents _ _ _ _ Hwf E) as (_ & Hn & Ec). pose proof (st_create_wf _ _ _ _ Hwf E) as Hwf'.
  assert (st_ids c' ≡ₚ id :: st_ids c) as Hp.
  { apply NoDup_Permutation; [by apply st_ids_nodup| |].
    - constructor; [|by apply st_ids_nodup]. rewrite st_ids_contents by done. rewrite Hn. by intros [? ?].
    - intros i. rewrite elem_of_cons, !st_ids_contents by done. rewrite Ec, lookup_insert_is_Some.
      destruct (decide (id = i)) as [->|?]; intuition; congruence. }
  unfold slen. rewrite Hp. cbn. lia.
Qed.

Lemma ids_update {A T : Type} `{IdStoreLaws A T} (c : T) id f a :
  st_wf c → st_contents c !! id = Some a → slen (st_ids (st_update c id f)) = slen (st_ids c).
Proof.
  intros Hwf Ea. unfold slen. f_equal. apply Permutation_length, NoDup_Permutation.
  1, 2: apply st_ids_nodup; by try apply st_update_wf.
  intros i. rewrite !st_ids_contents, (st_update_contents _ _ _ _ Hwf Ea) by (by try apply st_update_wf).
  rewrite lookup_insert_is_Some. destruct (decide (id = i)) as [->|?]; [rewrite Ea|]; intuition; eauto.
Qed.

Lemma ids_erase {A T : Type} `{IdStoreLaws A T} (c : T) id a :
  st_wf c → st_contents c !! id = Some a → st_last id = false → slen (st_ids (st_erase c id)) + 1 = slen (st_ids c).
Proof.
  intros Hwf Ea Hl. assert (st_wf (st_erase c id)) as Hwf' by (apply st_erase_wf; eauto).
  assert (st_ids c ≡ₚ id :: st_ids (st_erase c id)) as Hp.
  { apply NoDup_Permutation; [by apply st_ids_nodup| |].
    - constructor; [|by apply st_ids_nodup]. rewrite st_ids_contents, (st_erase_contents _ _ _ Hwf Ea Hl), lookup_delete_eq by done.
      by intros [? ?].
    - intros i. rewrite elem_of_cons, !st_ids_contents, (st_erase_contents _ _ _ Hwf Ea Hl) by done.
      destruct (decide (id = i)) as [->|?]; [rewrite Ea; intuition; eauto|]. rewrite lookup_delete_ne by done. intuition; congruence. }
  unfold slen. rewrite Hp. cbn. lia.
Qed.

(** *** Errors and addresses *)

(** What [on_error] changes. *)
Lemma on_error_ok now status w :
  actor_ok now w →
  ∃ o cb st, on_error status w = Some (set_stop_flag_ st (set_callback_ cb (set_outs o w)))
    ∧ cb = negb st ∧ (st = true → was_checked_ w = false) ∧ (stop_flag_ w = true → st = true).
Proof.
  intros Hok. pose proof (wo_callback _ _ Hok) as Hcb. unfold on_error.
  destruct (negb (was_checked_ w) && negb (stop_flag_ w)) eqn:E.
  - apply andb_true_iff in E as [Ew%negb_true_iff Es]. rewrite Hcb, Es. cbn [CHECK]. by eexists _, false, true.
  - exists (outs w), (callback_ w), (stop_flag_ w). split_and!; [by destruct w|done|apply (wo_checked _ _ Hok)|done].
Qed.

Lemma actor_error now w o cb st :
  actor_ok now w → cb = negb st → (st = true → was_checked_ w = false) → (stop_flag_ w = true → st = true) →
  actor_ok now (set_stop_flag_ st (set_callback_ cb (set_outs o w))).
Proof.
  intros [] Hcb Hst Hmore. split; try done. intros Hfix. destruct (wo_fixed0 Hfix) as [?|Hs]; [by left|right; by apply Hmore].
Qed.

Lemma check_ip_address_total addr : ∃ r, check_ip_address e addr = Some r.
Proof.
  unfold check_ip_address. destruct addr as [|ip port|ip port]; cbn [ip_is_valid is_ipv4 negb]; [by eexists| |].
  - destruct (local_mode_ e); [by eexists|]. cbn [is_reserved].
    assert (∃ b, in_reserved (inet_pton4 e) reserved_blocks ip = Some b) as [b ->]; [|cbn; by eexists].
    assert (Forall (fun b => c_str b.1 = b.1) reserved_blocks) as Hc by (repeat constructor).
    revert Hc blocks_parse. induction reserved_blocks as [|[text mask] blocks IH]; intros Hc Hb; cbn [in_reserved]; [by eexists|].
    apply Forall_cons in Hc as [Hc Hcs]. apply Forall_cons in Hb as [[x Hx] Hb]. cbn [fst] in *.
    unfold init_ipv4_port. rewrite Hc, Hx. change (port_is_valid 80) with true. cbn [negb get_ipv4 mbind option_bind].
    case_match; [by eexists|by apply IH].
  - destruct (local_mode_ e); by eexists.
Qed.

(** *** Connections *)

(** A time to wake up at is set. *)
Definition awake (w : webhook) : Prop := Qeq_bool (actor_wakeup_at_ w) 0 = false.

(** What the work on connections leaves alone. *)
Record framed (w w' : webhook) : Prop := {
  fr_updates : same_updates w w';
  fr_ssl : ssl_ctx_ w' = ssl_ctx_ w;
  fr_ip : ip_address_ w' = ip_address_ w;
  fr_sockets : ready_sockets_ w' = ready_sockets_ w;
  fr_contents cid conn : contents w !! cid = Some conn → contents w' !! cid = Some conn;
  fr_awake : awake w → awake w';
  fr_resolving : is_ip_address_being_resolved_ w' = is_ip_address_being_resolved_ w
}.

Lemma framed_refl w : framed w w.
Proof. by split. Qed.

Lemma framed_trans w1 w2 w3 : framed w1 w2 → framed w2 w3 → framed w1 w3.
Proof. intros [(? & ? & ?) ? ? ? ? ? ?] [(? & ? & ?) ? ? ? ? ? ?]. split; [split_and!|..]; try congruence; auto. Qed.

(** A connection was made, a proxy was asked for one, or there was an error. *)
Record made (n : nat) (now : Q) (ok : bool) (w w' : webhook) : Prop := {
  md_ok : actor_ok now w';
  md_frame : framed w w';
  md_room : room n w';
  md_stop : ok = true → stop_flag_ w' = stop_flag_ w;
  md_count : ok = true → connection_count w' = connection_count w + 1 ∧ pending_count w' = pending_count w;
  md_total : connection_count w' + pending_count w' <= connection_count w + pending_count w + 1
}.

Lemma create_webhook_error_ok n now error_message error is_public w :
  actor_ok now w → room (Datatypes.S n) w →
  ∃ w', create_webhook_error error_message error is_public w = Some w' ∧ made n now false w w'.
Proof.
  intros Hok Hroom. unfold create_webhook_error, on_webhook_error.
  set (o := if was_checked_ w then outs w ++ [WebhookError (if is_public then error_message ++ lit ": " ++ public_message error else error_message)] else outs w).
  assert (∀ m, m = (if is_public then error_message ++ lit ": " ++ public_message error else error_message) →
    (if was_checked_ w then send (WebhookError m) w else w) = set_outs o w) as Eo.
  { intros m ->. unfold o. destruct w as [? ? ? ? wc]; cbn. by destruct wc. }
  rewrite (Eo _ eq_refl). destruct (on_error_ok now (message error) _ (actor_outs now w o Hok)) as (o' & cb & st & -> & Hcb & Hst & Hmore).
  eexists. split; [done|]. apply (room_le _ n) in Hroom; [|lia]. split; [|by split|done|done|done|unfold connection_count, pending_count; cbn; lia].
  by apply (actor_error now (set_outs o w)); [apply actor_outs|..].
Qed.

Lemma create_connection_fd_ok n x i w :
  actor_ok (now_ x) w → room (Datatypes.S n) w → url_is_https e && negb (ssl_ctx_ w) = false → stop_flag_ w = false →
  ∃ ok w', create_connection_fd e x i w = Some (ok, w') ∧ made n (now_ x) ok w w'.
Proof.
  intros Hok Hroom Hssl Hstop. unfold create_connection_fd.
  assert (∃ r, (if negb (url_is_https e) then Some None else (CHECK! ssl_ctx_ w ;; Some (ssl_error x i))%td) = Some r) as [r ->].
  { destruct (url_is_https e); cbn in *; [|by eexists]. apply negb_false_iff in Hssl. rewrite Hssl. by eexists. }
  cbn [mbind option_bind]. destruct r as [error|].
  { destruct (create_webhook_error_ok n (now_ x) (lit "Can't create an SSL connection") error true w Hok Hroom) as (w' & -> & Hm).
    exists false, w'. split; [done|exact Hm]. }
  pose proof Hroom as [Hr1 Hr2]. pose proof Hok as [Hcore Hwf Hwp Hu Hml Hl Hc Ha Hp Hcb Hch Hfx].
  destruct (st_room_create _ (mkConnection 0 (ip_generation_ w)) _ Hwf Hr1) as (id & c & E & Hr1').
  rewrite E. cbn [mbind option_bind]. destruct (st_create_contents _ _ _ _ Hwf E) as (_ & Hnew & Econt).
  pose proof (ids_create _ _ _ _ Hwf E) as Hids. pose proof (st_create_wf _ _ _ _ Hwf E) as Hwf'.
  set (w1 := set_ready_connections_ _ _). set (w2 := send _ (send _ w1)).
  assert (core_ok stuck None (update_map_ w) (queue_updates_ w) (queues_ w) (st_contents c) (id :: ready_connections_ w)) as Hcore'
    by (rewrite Econt; by apply core_connect).
  assert (actor_ok (now_ x) w2) as Hok2 by (by split).
  assert (∀ w', w' = w2 ∨ (∃ a, w' = send a (set_was_checked_ true w2)) → made n (now_ x) true w w') as Hmade.
  { intros w' Hw'. split.
    - destruct Hw' as [->|[a ->]]; [done|]. destruct Hok2. split; try done. cbn. by rewrite Hstop.
    - destruct Hw' as [->|[a ->]]; split; try done; intros cid conn Hcid; unfold contents; cbn; rewrite Econt;
        (rewrite lookup_insert_ne; [done|]); intros <-; unfold contents in Hcid; congruence.
    - apply (st_room_le _ _ n) in Hr2; [|lia]. by destruct Hw' as [->|[a ->]].
    - by destruct Hw' as [->|[a ->]].
    - intros _. unfold connection_count, pending_count. destruct Hw' as [->|[a ->]]; cbn; split; lia.
    - unfold connection_count, pending_count. destruct Hw' as [->|[a ->]]; cbn; lia. }
  exists true. destruct (negb (was_checked_ w2)) eqn:Ew; eexists; (split; [done|]); apply Hmade; [right; by eexists|by left].
Qed.

Lemma create_connection_ok n x i w :
  actor_ok (now_ x) w → room (Datatypes.S n) w → url_is_https e && negb (ssl_ctx_ w) = false → stop_flag_ w = false →
  ip_is_valid (ip_address_ w) = true →
  ∃ ok w', create_connection e x i w = Some (ok, w') ∧ made n (now_ x) ok w w'.
Proof.
  intros Hok Hroom Hssl Hstop Hip. unfold create_connection. rewrite Hip. cbn [CHECK].
  destruct (webhook_proxy e).
  - destruct (socket_error x i) as [error|].
    { destruct (create_webhook_error_ok n (now_ x) (lit "Can't connect to the webhook proxy") error false w Hok Hroom) as (w' & -> & Hm).
      exists false, w'. by split. }
    set (w1 := if negb (was_checked_ w) then _ else w).
    assert (∃ o b, w1 = set_outs o (set_was_checked_ b w)) as (o & b & E1).
    { unfold w1. destruct (was_checked_ w) eqn:Ew; cbn [negb]; [exists (outs w), true; rewrite <- Ew; by destruct w|by eexists _, true]. }
    rewrite E1. clear w1 E1. cbn [pending_sockets_ set_outs set_was_checked_].
    pose proof Hok as [Hcore Hwf Hwp Hu Hml Hl Hc Ha Hp Hcb Hch Hfx]. pose proof Hroom as [Hr1 Hr2].
    destruct (st_room_create _ tt _ Hwp Hr2) as (id & d & E & Hr2'). rewrite E. cbn [mbind option_bind].
    pose proof (ids_create _ _ _ _ Hwp E) as Hids. pose proof (st_create_wf _ _ _ _ Hwp E) as Hwp'.
    eexists false, _. split; [done|]. split; [|by split| |done|done|unfold connection_count, pending_count; cbn; lia].
    + split; try done. cbn. by rewrite Hstop.
    + split; [|done]. apply (st_room_le _ _ n) in Hr1; [|lia]. exact Hr1.
  - destruct (socket_error x i) as [error|].
    { destruct (create_webhook_error_ok n (now_ x) (lit "Can't connect to the webhook") error false w Hok Hroom) as (w' & -> & Hm).
      exists false, w'. by split. }
    destruct (create_connection_fd_ok n x i w Hok Hroom Hssl Hstop) as (ok & w' & -> & Hm). exists ok, w'. by split.
Qed.

Lemma flood_open limits f now acc :
  Forall limit_ok limits → flood_ok limits f now acc → qlt now (get_wakeup_at f) = false →
  ∃ f', add_event f now = Some f' ∧ ∃ acc', flood_ok limits f' now acc'.
Proof.
  intros Hl Hf Hlt. destruct (try_event_ok limits f now acc now Hl Hf ltac:(apply Qle_refl)) as (b & f' & E & _ & Hf').
  unfold try_event in E. rewrite Hlt in E. destruct (add_event f now) as [f''|]; cbn in E; [|done].
  injection E as <- <-. eauto.
Qed.

Lemma limits_ok : Forall limit_ok active_limits ∧ Forall limit_ok pending_limits.
Proof. split; repeat constructor; vm_compute; congruence. Qed.

Lemma relax_ok now wakeup w :
  actor_ok now w → (now < wakeup)%Q →
  ∃ v, relax_wakeup_at wakeup w = set_actor_wakeup_at_ v w ∧ Qeq_bool v 0 = false.
Proof.
  intros Hok Hlt. destruct (wo_active _ _ Hok) as [acc Hf]. pose proof (fo_last _ _ _ _ Hf) as Hnow.
  assert (Qeq_bool wakeup 0 = false) as Hw.
  { apply not_true_is_false. intros E%Qeq_bool_iff. rewrite E in Hlt. apply (Qlt_irrefl now), (Qlt_le_trans _ 0); done. }
  unfold relax_wakeup_at. destruct (Qeq_bool (actor_wakeup_at_ w) 0) eqn:E; cbn [orb]; [by exists wakeup|].
  destruct (qlt wakeup (actor_wakeup_at_ w)); [by exists wakeup|]. exists (actor_wakeup_at_ w). split; [by destruct w|done].
Qed.

Lemma qlt_lt a b : qlt a b = true → (a < b)%Q.
Proof. unfold qlt. intros E%negb_true_iff. apply Qnot_le_lt. rewrite <- Qle_bool_iff. congruence. Qed.

Lemma actor_wakeup now w v : actor_ok now w → actor_ok now (set_actor_wakeup_at_ v w).
Proof. intros []. by split. Qed.

(** What a loop over connections leaves. *)
Record connecting (n : nat) (now : Q) (w w' : webhook) : Prop := {
  cn_ok : actor_ok now w';
  cn_frame : framed w w';
  cn_room : room n w'
}.

Lemma connecting_later n now w w1 w2 : framed w w1 → connecting n now w1 w2 → connecting n now w w2.
Proof. intros Hf [? ? ?]. split; [done|by eapply framed_trans|done]. Qed.

Lemma relaxed n now w w1 wakeup :
  connecting n now w w1 → (now < wakeup)%Q →
  connecting n now w (relax_wakeup_at wakeup w1) ∧ awake (relax_wakeup_at wakeup w1)
  ∧ all_sockets (relax_wakeup_at wakeup w1) = all_sockets w1 ∧ stop_flag_ (relax_wakeup_at wakeup w1) = stop_flag_ w1.
Proof.
  intros [Hok Hfr Hr] Hlt. destruct (relax_ok now wakeup w1 Hok Hlt) as (v & -> & Hv). split_and!; [|done..].
  split; [by apply actor_wakeup| |done]. by destruct Hfr.
Qed.

Lemma open_connections_ok x need active fuel n w :
  actor_ok (now_ x) w → room (fuel + n) w → url_is_https e && negb (ssl_ctx_ w) = false → stop_flag_ w = false →
  ip_is_valid (ip_address_ w) = true → need <= max_connections_ e → sockets_ok w → need - all_sockets w < Z.of_nat fuel → (0 < fuel)%nat →
  ∃ ok w', open_connections e fuel x need active w = Some (ok, w') ∧ connecting n (now_ x) w w' ∧ sockets_ok w'
    ∧ (ok = true → stop_flag_ w' = false ∧ (need <= all_sockets w' ∨ awake w')) ∧ (ok = false → awake w').
Proof.
  revert w. induction fuel as [|fuel IH]; intros w Hok Hroom Hssl Hstop Hip Hmax Hsock Hneed Hfuel; [lia|]. clear Hfuel.
  assert (connecting n (now_ x) w w) as Hcn.
  { split; [done|apply framed_refl|]. apply (room_le (Datatypes.S fuel + n)); [lia|done]. }
  cbn [open_connections]. change (connection_count w + pending_count w + slen (ready_sockets_ w)) with (all_sockets w).
  destruct (Z.ltb_spec (all_sockets w) need) as [Hlt|Hge].
  2:{ exists true, w. split_and!; try done. intros _. split; [done|by left]. }
  set (flood := if active then active_new_connection_flood_ w else pending_new_connection_flood_ w).
  set (limits := if active then active_limits else pending_limits).
  assert (∃ acc, flood_ok limits flood (now_ x) acc) as [acc Hflood].
  { unfold limits, flood. destruct active; [apply (wo_active _ _ Hok)|apply (wo_pending_flood _ _ Hok)]. }
  destruct (qlt (now_ x) (get_wakeup_at flood)) eqn:Ew.
  - apply qlt_lt in Ew. destruct (relaxed n (now_ x) w w _ Hcn Ew) as (Hcn' & Haw & Es & Est).
    eexists true, _. split_and!; [done|done|unfold sockets_ok; by rewrite Es| |done]. rewrite Est. split; [done|by right].
  - destruct (flood_open limits flood (now_ x) acc) as (flood' & -> & Hflood'); [by destruct active; apply limits_ok|done|done|].
    cbn [mbind option_bind]. set (w1 := if active then _ else _).
    assert (w1 = set_active_new_connection_flood_ (if active then flood' else active_new_connection_flood_ w)
                   (set_pending_new_connection_flood_ (if active then pending_new_connection_flood_ w else flood') w)) as E1
      by (unfold w1; by destruct active, w).
    clearbody w1. subst w1. set (w1 := set_active_new_connection_flood_ _ _).
    assert (actor_ok (now_ x) w1) as Hok1 by (destruct Hok; split; try done; unfold limits in Hflood'; by destruct active).
    destruct (create_connection_ok (fuel + n) x fuel w1 Hok1 Hroom Hssl Hstop Hip) as (ok & w2 & -> & [Hok2 Hfr Hr2 Hst2 Hcnt Htot]).
    cbn [mbind option_bind]. change (connection_count w1) with (connection_count w) in *. change (pending_count w1) with (pending_count w) in *.
    assert (framed w w2) as Hfr' by (by destruct Hfr).
    assert (all_sockets w2 <= all_sockets w + 1) as Hall by (unfold all_sockets; rewrite (fr_sockets _ _ Hfr'); lia).
    destruct ok.
    + destruct (IH w2) as (ok & w3 & -> & Hcn3 & Hs3 & Hw3); try done.
      * by rewrite (fr_ssl _ _ Hfr').
      * by rewrite Hst2.
      * by rewrite (fr_ip _ _ Hfr').
      * unfold sockets_ok in *. lia.
      * destruct (Hcnt eq_refl) as [? ?]. unfold all_sockets in *. rewrite (fr_sockets _ _ Hfr'). lia.
      * lia.
      * exists ok, w3. split_and!; [done|by eapply connecting_later|done|by apply Hw3..].
    + assert (connecting n (now_ x) w w2) as Hcn2 by (split; [done|done|by apply (room_le (fuel + n)); [lia|]]).
      assert (now_ x < now_ x + 1)%Q as Hnow by (rewrite <- (Qplus_0_r (now_ x)) at 1; by apply Qplus_lt_r).
      destruct (relaxed n (now_ x) w w2 _ Hcn2 Hnow) as (Hcn' & Haw & Es & Est).
      eexists false, _. split_and!; [done|done|unfold sockets_ok in *; rewrite Es; lia|done|done].
Qed.

Lemma use_sockets_ok x need sockets n w :
  actor_ok (now_ x) w → room (length sockets + n) w → url_is_https e && negb (ssl_ctx_ w) = false → stop_flag_ w = false →
  need <= max_connections_ e → connection_count w + pending_count w <= max_connections_ e →
  ∃ w', use_sockets e sockets x need w = Some w' ∧ connecting n (now_ x) w w'
    ∧ connection_count w' + pending_count w' <= max_connections_ e
    ∧ (awake w' ∨ connection_count w' + pending_count w' >= Z.min need (connection_count w + pending_count w + slen sockets)).
Proof.
  revert w. induction sockets as [|socket sockets IH]; intros w Hok Hroom Hssl Hstop Hmax Hsock.
  - exists w. cbn [use_sockets]. split_and!; [done|split; [done|apply framed_refl|done]|done|]. change (slen (@nil Z)) with 0. right. lia.
  - cbn [use_sockets]. assert (slen (socket :: sockets) = slen sockets + 1) as El by (unfold slen; cbn; lia).
    destruct (Z.ltb_spec (connection_count w + pending_count w) need) as [Hlt|Hge].
    2:{ exists w. split_and!; [done| |done|right; lia]. split; [done|apply framed_refl|].
        apply (room_le (length (socket :: sockets) + n)); [lia|done]. }
    destruct (create_connection_fd_ok (length sockets + n) x (Z.to_nat need + 2 + length sockets) w Hok Hroom Hssl Hstop)
      as (ok & w2 & -> & [Hok2 Hfr Hr2 Hst2 Hcnt Htot]).
    cbn [mbind option_bind]. destruct ok.
    + destruct (Hcnt eq_refl) as [Hc1 Hc2].
      destruct (IH w2) as (w3 & -> & Hcn3 & Hs3 & Hw3); try done; [by rewrite (fr_ssl _ _ Hfr)|by rewrite Hst2|lia|].
      exists w3. split_and!; [done|by eapply connecting_later|done|]. destruct Hw3 as [?|?]; [by left|right; lia].
    + assert (connecting n (now_ x) w w2) as Hcn2 by (split; [done|done|by apply (room_le (length sockets + n)); [lia|]]).
      assert (now_ x < now_ x + 1)%Q as Hnow by (rewrite <- (Qplus_0_r (now_ x)) at 1; by apply Qplus_lt_r).
      destruct (relaxed n (now_ x) w w2 _ Hcn2 Hnow) as (Hcn' & Haw & Es & Est).
      exists (relax_wakeup_at (now_ x + 1)%Q w2). split_and!; [done|done| |by left].
      unfold all_sockets in Es. pose proof (fr_sockets _ _ Hfr). pose proof (fr_sockets _ _ (cn_frame _ _ _ _ Hcn')).
      replace (ready_sockets_ (relax_wakeup_at (now_ x + 1)%Q w2)) with (ready_sockets_ w2) in Es by congruence. lia.
Qed.

(** The address, the TLS context and the resolution are the same. *)
Definition same_net (w w' : webhook) : Prop :=
  ip_address_ w' = ip_address_ w ∧ ssl_ctx_ w' = ssl_ctx_ w
  ∧ is_ip_address_being_resolved_ w' = is_ip_address_being_resolved_ w.

(** What [create_new_connections] leaves alone. *)
Record carried (w w' : webhook) : Prop := {
  ca_updates : same_updates w w';
  ca_net : same_net w w';
  ca_contents cid conn : contents w !! cid = Some conn → contents w' !! cid = Some conn;
  ca_awake : awake w → awake w'
}.

Lemma carried_sockets w w' l : framed w w' → carried w (set_ready_sockets_ l w').
Proof. intros []. by split. Qed.
Lemma framed_carried w w' : framed w w' → carried w w'.
Proof. intros []. by split. Qed.

(** The connections that may be made by one [loop]. *)
Definition loop_room : nat := Datatypes.S (Z.to_nat (max_connections_ e)) + Z.to_nat (max_connections_ e).

Lemma create_new_connections_ok x n w :
  actor_ok (now_ x) w → room (loop_room + n) w → stop_flag_ w = false → sockets_ok w →
  ∃ w', create_new_connections e x w = Some w' ∧ actor_ok (now_ x) w' ∧ carried w w' ∧ room n w' ∧ sockets_ok w'
    ∧ (1 <= queue_count w → ip_is_valid (ip_address_ w) = true → url_is_https e && negb (ssl_ctx_ w) = false →
       awake w' ∨ 0 < connection_count w' + pending_count w').
Proof.
  intros Hok Hroom Hstop Hsock. pose proof (room_le (loop_room + n) n w ltac:(lia) Hroom) as Hrn.
  unfold create_new_connections. destruct (ip_is_valid (ip_address_ w)) eqn:Eip; cbn [negb].
  2:{ exists w. split_and!; done. }
  destruct (url_is_https e && negb (ssl_ctx_ w)) eqn:Essl.
  { exists w. split_and!; done. }
  assert (0 <= queue_count w) as Hq by (unfold queue_count; lia).
  set (need2 := if negb (was_checked_ w) then 1 else _). set (active := negb _). set (need := if active then _ else _).
  assert (0 <= need <= max_connections_ e ∧ (1 <= queue_count w → 1 <= need)) as [Hneed Hneed1].
  { assert (0 <= need2 <= max_connections_ e ∧ (1 <= queue_count w → 1 <= need2)) as [Hn2 Hn2'].
    { unfold need2. destruct (negb (was_checked_ w)); [lia|].
      destruct (Z.ltb_spec (max_connections_ e) (queue_count w)); lia. }
    unfold need. destruct active; [destruct (Z.eqb_spec need2 0); lia|destruct (Z.ltb_spec 1 need2); lia]. }
  clearbody need active. clear need2.
  assert (0 <= connection_count w ∧ 0 <= pending_count w ∧ 0 <= slen (ready_sockets_ w)) as Hpos
    by (unfold connection_count, pending_count, slen; lia).
  destruct (open_connections_ok x need active (Datatypes.S (Z.to_nat need)) (Z.to_nat (max_connections_ e) + n) w)
    as (ok & w1 & -> & [Hok1 Hfr Hr1] & Hs1 & Ht & Hf); try done; try lia.
  { apply (room_le (loop_room + n)); [unfold loop_room; lia|done]. }
  { unfold all_sockets in *. lia. }
  cbn [mbind option_bind]. destruct ok.
  2:{ exists w1. split_and!; try done; [by apply framed_carried|by apply (room_le (Z.to_nat (max_connections_ e) + n) n w1 ltac:(lia) Hr1)|]. intros _ _ _. left. by apply Hf. }
  destruct (Ht eq_refl) as [Hst1 Hwhy]. unfold sockets_ok, all_sockets in Hs1.
  pose proof (slen_nonneg (ready_sockets_ w1)) as Hrs.
  assert (0 <= connection_count w1 ∧ 0 <= pending_count w1) as Hpos1 by (unfold connection_count, pending_count, slen; lia).
  destruct (use_sockets_ok x need (reverse (ready_sockets_ w1)) n w1) as (w2 & -> & [Hok2 Hfr2 Hr2] & Hs2 & Hwhy2); try done; try lia.
  { rewrite length_reverse. apply (room_le (Z.to_nat (max_connections_ e) + n)); [unfold slen in *; lia|done]. }
  { by rewrite (fr_ssl _ _ Hfr). }
  cbn [mbind option_bind]. eexists. split; [done|]. pose proof (framed_trans _ _ _ Hfr Hfr2) as Hfr'. split_and!.
  - destruct Hok2. by split.
  - by apply carried_sockets.
  - done.
  - unfold sockets_ok, all_sockets, connection_count, pending_count in *. cbn. change (slen (@nil Z)) with 0. lia.
  - intros Hq1 _ _. specialize (Hneed1 Hq1). destruct Hwhy2 as [Haw|Hge]; [by left|]. destruct Hwhy as [Hn|Haw].
    + right. unfold all_sockets in Hn. unfold slen in Hge, Hn. rewrite length_reverse in Hge.
      unfold connection_count, pending_count in *. cbn. lia.
    + left. by apply (fr_awake _ _ Hfr2).
Qed.

(** *** Loading *)

(** The queue of the actor in the shared [TQueue]: what is alive there stays, up
    to the updates of [gone], and so do the other queues. *)
Record queue_kept (gone : Z → Prop) (unix_time : Z) (t t' : tqueue S) : Prop := {
  qk_ok : tqueue_ok t';
  qk_others queue_id : queue_id ≠ tqueue_id_ e → TQueue.queues_ t' !! queue_id = TQueue.queues_ t !! queue_id;
  qk_alive ev : ev ∈ events (queue_at (tqueue_id_ e) t) → is_dead unix_time ev = false → ¬ gone (event_id ev) →
    ev ∈ events (queue_at (tqueue_id_ e) t')
}.

Lemma queue_kept_refl gone unix_time t : tqueue_ok t → queue_kept gone unix_time t t.
Proof. by split. Qed.
Lemma queue_kept_trans gone unix_time t1 t2 t3 :
  queue_kept gone unix_time t1 t2 → queue_kept gone unix_time t2 t3 → queue_kept gone unix_time t1 t3.
Proof. intros [? Ho1 Ha1] [? Ho2 Ha2]. split; [done| |auto]. intros q Hq. by rewrite Ho2, Ho1. Qed.
Lemma queue_kept_more (gone gone' : Z → Prop) unix_time t t' :
  (∀ id, gone id → gone' id) → queue_kept gone unix_time t t' → queue_kept gone' unix_time t t'.
Proof. intros Hg [? ? Ha]. split; [done..|]. intros ev He Hd Hn. apply Ha; auto. Qed.

(** What loading changes. *)
Definition reload um qu qs offset unique (w : webhook) : webhook :=
  set_update_map_ um (set_queue_updates_ qu (set_queues_ qs (set_tqueue_offset_ offset (set_unique_queue_id_ unique w)))).

Record loadable (unix_time : Z) (event : Event) : Prop := {
  ld_valid : id_valid (e_id event) = true;
  ld_alive : unix_time <= e_expires_at event;
  ld_next : next_id (e_id event) = Ok (e_id event + 1);
  ld_data : e_data event ≠ []
}.

Lemma queue_size_insert qid ids (w : webhook) : Z.of_nat (base.size (<[qid := ids]> (queue_updates_ w))) <= queue_count w + 1.
Proof.
  unfold queue_count. destruct (queue_updates_ w !! qid) as [old|] eqn:E.
  - rewrite map_size_insert_Some by eauto. lia.
  - rewrite map_size_insert_None by done. lia.
Qed.

Lemma load_update_ok now clock unix_time event w :
  actor_ok clock w → loadable unix_time event → queue_count w + 1 <= max_loaded_updates_ w →
  ∃ um qu qs offset unique, let w' := reload um qu qs offset unique w in
    load_update now unix_time event w = Some w' ∧ actor_ok clock w' ∧ queue_count w' <= queue_count w + 1
    ∧ (∀ id u, update_map_ w !! id = Some u → um !! id = Some u).
Proof.
  intros Hok [Hv Ha Hn Hd] Hroom. unfold load_update. rewrite Hv. cbn [CHECK].
  destruct (update_map_ w !! e_id event) as [u|] eqn:Eu.
  { exists (update_map_ w), (queue_updates_ w), (queues_ w), (tqueue_offset_ w), (unique_queue_id_ w).
    unfold reload. split_and!; [by destruct w|by destruct Hok|unfold queue_count; cbn; lia|done]. }
  rewrite (proj2 (Z.leb_le _ _) Ha), Hn. cbn [CHECK result_value mbind option_bind].
  pose proof (wo_unique _ _ Hok) as Hu. set (unique' := if e_extra event =? 0 then unique_queue_id_ w + 1 else unique_queue_id_ w).
  set (qid := if e_extra event =? 0 then unique_queue_id_ w else e_extra event).
  assert (qid ≠ 0) as Hqid by (unfold qid; destruct (Z.eqb_spec (e_extra event) 0); lia).
  destruct (if e_extra event =? 0 then (_, _) else (_, _)) as [queue_id w1] eqn:E1.
  assert (queue_id = qid ∧ w1 = set_tqueue_offset_ (e_id event + 1) (set_unique_queue_id_ unique' w)) as [-> ->].
  { unfold qid, unique'. destruct (e_extra event =? 0); injection E1 as <- <-; by destruct w. }
  clear E1. cbn [update_map_ queue_updates_ queues_ set_update_map_ set_tqueue_offset_ set_unique_queue_id_].
  set (u := mkUpdate _ _ _ _ _ _ _ _). pose proof (core_load stuck _ _ _ _ _ (e_id event) u (wo_core _ _ Hok) Eu eq_refl Hv Hd Hqid) as Hcore.
  change (queue_id_ u) with qid in Hcore.
  set (old := default [] (queue_updates_ w !! qid)) in *. set (um' := <[e_id event := u]> (update_map_ w)) in *.
  set (qu' := <[qid := old ++ [e_id event]]> (queue_updates_ w)) in *.
  set (qs' := if bool_decide (old = []) then queues_emplace (now, qid) (queues_ w) else queues_ w).
  assert (core_ok stuck None um' qu' qs' (contents w) (ready_connections_ w)) as Hcore'.
  { unfold qs', old in *. unfold fresh_queue in Hcore. destruct (queue_updates_ w !! qid) as [ids|] eqn:Eq; cbn [default] in *.
    - unfold Datatypes.id in *. destruct (co_queue _ _ _ _ _ _ _ (wo_core _ _ Hok) _ _ Eq) as (_ & _ & Hne & _). by rewrite bool_decide_eq_false_2.
    - rewrite bool_decide_eq_true_2 by done. eapply (core_reschedule stuck _ _ _ _ _ qid (e_id event) [] u Hcore).
      + unfold qu'. by rewrite lookup_insert_eq.
      + unfold um'. by rewrite lookup_insert_eq. }
  exists um', qu', qs', (e_id event + 1), unique'. unfold reload. split_and!.
  - unfold qs'. by destruct (bool_decide (old = [])).
  - pose proof (queue_size_insert qid (old ++ [e_id event]) w) as Hsize. destruct Hok. split; try done.
    + cbn. unfold unique'. destruct (e_extra event =? 0); lia.
    + cbn in *. fold qu' in Hsize. unfold queue_count; cbn. lia.
  - pose proof (queue_size_insert qid (old ++ [e_id event]) w). unfold queue_count at 1. cbn. done.
  - intros id v Hv'. unfold um'. rewrite lookup_insert_ne; [done|]. congruence.
Qed.

Lemma load_each_ok now clock unix_time updates w :
  actor_ok clock w → Forall (loadable unix_time) updates → queue_count w + slen updates <= max_loaded_updates_ w →
  ∃ um qu qs offset unique, let w' := reload um qu qs offset unique w in
    load_each now unix_time updates w = Some w' ∧ actor_ok clock w'
    ∧ (∀ id u, update_map_ w !! id = Some u → um !! id = Some u).
Proof.
  revert w. induction updates as [|event updates IH]; intros w Hok Hl Hroom; cbn [load_each].
  - exists (update_map_ w), (queue_updates_ w), (queues_ w), (tqueue_offset_ w), (unique_queue_id_ w).
    unfold reload. split_and!; [by destruct w|by destruct Hok|done].
  - apply Forall_cons in Hl as [Hev Hl]. assert (slen (event :: updates) = slen updates + 1) as El by (unfold slen; cbn; lia).
    pose proof (slen_nonneg updates).
    destruct (load_update_ok now clock unix_time event w Hok Hev ltac:(lia)) as (um & qu & qs & off & un & -> & Hok1 & Hc1 & Hum1).
    cbn [mbind option_bind].
    destruct (IH (reload um qu qs off un w) Hok1 Hl) as (um2 & qu2 & qs2 & off2 & un2 & E & Hok2 & Hum2).
    { change (max_loaded_updates_ (reload um qu qs off un w)) with (max_loaded_updates_ w). lia. }
    exists um2, qu2, qs2, off2, un2. split_and!; [exact E|exact Hok2|]. intros id u Hid. by apply Hum2, Hum1.
Qed.

Lemma grow_count_ok total k count :
  total <= MAX_QUEUE_EVENTS → MIN_PENDING_UPDATES_WARNING <= count <= 2 * MAX_QUEUE_EVENTS → MAX_QUEUE_EVENTS < count * 2 ^ Z.of_nat k →
  ∃ count', grow_count (Datatypes.S k) total count = Some count' ∧ MIN_PENDING_UPDATES_WARNING <= count' <= 2 * MAX_QUEUE_EVENTS.
Proof.
  unfold MAX_QUEUE_EVENTS, MIN_PENDING_UPDATES_WARNING. intros Ht. revert count. induction k as [|k IH]; intros count Hc Hk; cbn [grow_count].
  - change (2 ^ Z.of_nat 0) with 1 in Hk. destruct (Z.leb_spec count total); [lia|eauto].
  - destruct (Z.leb_spec count total); [|eauto]. rewrite wrap_small by (change (2 ^ 64) with 18446744073709551616; lia).
    apply IH; [lia|]. rewrite Nat2Z.inj_succ, Z.pow_succ_r in Hk by lia. lia.
Qed.

Lemma get_loadable from unix_time n t :
  tqueue_ok t →
  Forall (loadable unix_time)
    (take n (event_of <$> List.filter (fun ev => (from <=? event_id ev) && negb (is_dead unix_time ev)) (events (queue_at (tqueue_id_ e) t)))).
Proof.
  intros Hok. apply Forall_take, Forall_fmap, Forall_forall. intros ev Hin.
  apply list_elem_of_In, filter_In in Hin as [Hin [_ Hd%negb_true_iff]%andb_true_iff]. apply list_elem_of_In in Hin.
  pose proof (queue_at_ok (tqueue_id_ e) t Hok) as Hq. pose proof (evs_each _ _ (q_events _ Hq)) as Hev.
  rewrite Forall_forall in Hev. destruct (Hev _ Hin) as (Hid & _). pose proof (q_tail _ Hq) as Htail.
  unfold is_dead in Hd. apply orb_false_iff in Hd as [Hx Hdata]. apply Z.ltb_ge in Hx. unfold is_data_empty in Hdata.
  apply bool_decide_eq_false in Hdata. split; cbn; [|done| |done].
  - unfold id_valid, id_empty, is_valid_id. rewrite (proj2 (Z.eqb_neq _ _)), (proj2 (Z.leb_le _ _)), (proj2 (Z.ltb_lt _ _)) by lia. done.
  - apply next_id_ok; lia.
Qed.

Lemma size_bounds t : tqueue_ok t → 0 <= get_size_of (queue_at (tqueue_id_ e) t) <= MAX_QUEUE_EVENTS.
Proof.
  intros Hok. pose proof (queue_at_ok (tqueue_id_ e) t Hok) as Hq. pose proof (proj2 (q_room _ Hq)) as Hr. unfold get_size_of.
  destruct (last _) as [ev|] eqn:El; [|unfold MAX_QUEUE_EVENTS; lia]. apply last_split in El. rewrite El in *. rewrite slen_app in *.
  pose proof (slen_nonneg (removelast (events (queue_at (tqueue_id_ e) t)))). change (slen [ev]) with 1 in *. destruct (is_data_empty ev); lia.
Qed.

(** What [get] gives to [load_updates]. *)
Lemma get_updates_ok from unix_time n t :
  tqueue_ok t → get_range from (queue_at (tqueue_id_ e) t) ∨ (∃ s u t', get (tqueue_id_ e) from false unix_time n t = Some (Ok s, u, t')) →
  ∃ size updates t', get (tqueue_id_ e) from false unix_time n t = Some (Ok size, updates, t')
    ∧ queue_kept (fun _ => False) unix_time t t' ∧ Forall (loadable unix_time) updates ∧ slen updates <= Z.of_nat n
    ∧ 0 <= size <= MAX_QUEUE_EVENTS.
Proof.
  intros Hok Hwhy. destruct (get_ok (tqueue_id_ e) from false unix_time n t Hok) as (r & out & t' & E & Hstep & Hr).
  destruct r as [size|code msg].
  2:{ destruct Hr as (_ & _ & Hn). destruct Hwhy as [?|(? & ? & ? & E')]; [done|]. rewrite E in E'. discriminate. }
  destruct Hr as (-> & Htail & -> & Hin & Hkeep & _). eexists _, _, t'. split; [done|].
  pose proof (TQueue.st_ok _ _ _ Hstep) as Hok'. split_and!.
  - split; [done|by apply (TQueue.st_others _ _ _ Hstep)|]. intros ev He Hd _. by apply Hkeep.
  - by apply get_loadable.
  - unfold slen. rewrite length_take. lia.
  - by apply size_bounds.
  - by apply size_bounds.
Qed.

(** What [load_updates] changes. *)
Definition loaded (w w' : webhook) : Prop :=
  ∃ um qu qs offset unique empty count o,
    w' = set_outs o (set_last_pending_update_count_ count (set_tqueue_empty_ empty (reload um qu qs offset unique w)))
    ∧ (∀ id u, update_map_ w !! id = Some u → um !! id = Some u).

Lemma loaded_refl w : loaded w w.
Proof.
  exists (update_map_ w), (queue_updates_ w), (queues_ w), (tqueue_offset_ w), (unique_queue_id_ w), (tqueue_empty_ w),
    (last_pending_update_count_ w), (outs w). split; [by destruct w|done].
Qed.

Lemma actor_count now count w :
  actor_ok now w → MIN_PENDING_UPDATES_WARNING <= count <= 2 * MAX_QUEUE_EVENTS → actor_ok now (set_last_pending_update_count_ count w).
Proof. intros [] Hc. by split. Qed.

(** [load_updates] after [get]. *)
Lemma loading_ok x size updates w :
  actor_ok (now_ x) w → Forall (loadable (get_unix_time e (now_ x))) updates → 0 <= size <= MAX_QUEUE_EVENTS →
  queue_count w + slen updates <= max_loaded_updates_ w →
  ∃ w' count,
    (let w := if bool_decide (updates = []) then set_tqueue_empty_ true w else w in
     load_each (now_ x) (get_unix_time e (now_ x)) updates w) = Some w'
    ∧ (if size <=? MIN_PENDING_UPDATES_WARNING / 2
             then Some (if MIN_PENDING_UPDATES_WARNING <? last_pending_update_count_ w' then MIN_PENDING_UPDATES_WARNING
                        else last_pending_update_count_ w')
             else grow_count 64 size (last_pending_update_count_ w')) = Some count
    ∧ ∀ w2, w2 = set_last_pending_update_count_ count w' ∨ (∃ a, w2 = send a (set_last_pending_update_count_ count w')) →
      actor_ok (now_ x) w2 ∧ loaded w w2.
Proof.
  intros Hok Hl Hsize Hroom. set (empty := if bool_decide (updates = []) then true else tqueue_empty_ w).
  assert ((if bool_decide (updates = []) then set_tqueue_empty_ true w else w) = set_tqueue_empty_ empty w) as ->
    by (unfold empty; destruct (bool_decide _); by destruct w).
  assert (actor_ok (now_ x) (set_tqueue_empty_ empty w)) as Hok1 by (destruct Hok; by split).
  destruct (load_each_ok (now_ x) (now_ x) _ _ _ Hok1 Hl Hroom) as (um & qu & qs & off & un & E & Hok2 & Hum).
  cbn [set_tqueue_empty_]. eexists. set (w1 := reload um qu qs off un (set_tqueue_empty_ empty w)) in *.
  assert (∃ count, (if size <=? MIN_PENDING_UPDATES_WARNING / 2
             then Some (if MIN_PENDING_UPDATES_WARNING <? last_pending_update_count_ w1 then MIN_PENDING_UPDATES_WARNING
                        else last_pending_update_count_ w1)
             else grow_count 64 size (last_pending_update_count_ w1)) = Some count
    ∧ MIN_PENDING_UPDATES_WARNING <= count <= 2 * MAX_QUEUE_EVENTS) as (count & Ecount & Hcount).
  { pose proof (wo_count _ _ Hok2) as Hc. destruct (Z.leb_spec size (MIN_PENDING_UPDATES_WARNING / 2)).
    - eexists. split; [done|]. destruct (Z.ltb_spec MIN_PENDING_UPDATES_WARNING (last_pending_update_count_ w1)); unfold MAX_QUEUE_EVENTS, MIN_PENDING_UPDATES_WARNING in *; lia.
    - apply (grow_count_ok size 63); [lia|done|]. unfold MAX_QUEUE_EVENTS, MIN_PENDING_UPDATES_WARNING in *.
      change (2 ^ Z.of_nat 63) with 9223372036854775808. lia. }
  exists count. split; [exact E|]. split; [exact Ecount|]. intros w2 Hw2. split.
  - assert (actor_ok (now_ x) (set_last_pending_update_count_ count w1)) as Hok3 by (by apply actor_count).
    destruct Hw2 as [->|[a ->]]; [exact Hok3|by apply actor_outs].
  - destruct Hw2 as [->|[a ->]]; exists um, qu, qs, off, un, empty, count; [exists (outs w)|eexists]; split; try done.
Qed.

Lemma get_updates_kept unix_time limit (w : webhook) t :
  tqueue_ok t → 0 <= limit →
  ∃ size updates off t', get_updates e unix_time limit w t = Some (size, updates, set_tqueue_offset_ off w, t')
    ∧ queue_kept (fun _ => False) unix_time t t' ∧ Forall (loadable unix_time) updates
    ∧ slen updates <= limit ∧ 0 <= size <= MAX_QUEUE_EVENTS.
Proof.
  intros Ht Hlim. unfold get_updates. set (off := tqueue_offset_ w).
  assert (w = set_tqueue_offset_ off w) as Ew by (by destruct w).
  destruct (id_empty off).
  { exists 0, [], off, t. rewrite <- Ew. split_and!; [done|by apply queue_kept_refl|constructor|done|done|done]. }
  destruct (get_ok (tqueue_id_ e) off false unix_time (Z.to_nat limit) t Ht) as (r & out & t1 & E & _ & Hr).
  destruct r as [size|code msg].
  - destruct (get_updates_ok off unix_time (Z.to_nat limit) t Ht ltac:(right; by eexists _, _, _)) as (size' & updates & t2 & E' & Hk & Hl & Hn & Hs).
    rewrite E'. cbn [mbind option_bind]. exists size', updates, off, t2. rewrite Z2Nat.id in Hn by done. by rewrite <- Ew.
  - destruct Hr as (-> & -> & _). rewrite E. cbn [mbind option_bind tqueue_offset_ set_tqueue_offset_].
    destruct (get_updates_ok (get_head (tqueue_id_ e) t) unix_time (Z.to_nat limit) t Ht ltac:(left; by apply head_in_range))
      as (size' & updates & t2 & E' & Hk & Hl & Hn & Hs).
    rewrite E'. cbn [mbind option_bind result_value]. exists size', updates, (get_head (tqueue_id_ e) t), t2.
    rewrite Z2Nat.id in Hn by done. done.
Qed.

Lemma load_updates_ok x w t :
  actor_ok (now_ x) w → tqueue_ok t →
  ∃ w' t', load_updates e x w t = Some (w', t') ∧ actor_ok (now_ x) w' ∧ loaded w w'
    ∧ queue_kept (fun _ => False) (get_unix_time e (now_ x)) t t'.
Proof.
  intros Hok Ht. unfold load_updates.
  assert (∀ w1, actor_ok (now_ x) w1 → loaded w w1 →
    ∃ w' t', Some (w1, t) = Some (w', t') ∧ actor_ok (now_ x) w' ∧ loaded w w'
      ∧ queue_kept (fun _ => False) (get_unix_time e (now_ x)) t t') as Hstay.
  { intros w1 H1' H2'. exists w1, t. split_and!; [done..|by apply queue_kept_refl]. }
  destruct (tqueue_empty_ w); [apply Hstay; [done|apply loaded_refl]|].
  pose proof (wo_loaded _ _ Hok) as Hload. destruct (Z.leb_spec (max_loaded_updates_ w) (queue_count w)) as [Hfull|Hroom].
  { rewrite (proj2 (Z.eqb_eq _ _)) by lia. cbn [CHECK]. apply Hstay; [done|apply loaded_refl]. }
  set (off := if id_empty (tqueue_offset_ w) then get_head (tqueue_id_ e) t else tqueue_offset_ w).
  assert ((if id_empty (tqueue_offset_ w) then set_tqueue_offset_ (get_head (tqueue_id_ e) t) w else w) = set_tqueue_offset_ off w) as ->
    by (unfold off; destruct (id_empty _); by destruct w).
  set (limit := Z.min _ _). cbn [tqueue_offset_ set_tqueue_offset_].
  assert (0 <= limit /\ limit <= max_loaded_updates_ w - queue_count w) as [Hlim0 Hlim]
    by (unfold limit, TQUEUE_EVENT_BUFFER_SIZE, queue_count in *; cbn in *; lia).
  destruct (get_updates_kept (get_unix_time e (now_ x)) limit (set_tqueue_offset_ off w) t Ht Hlim0)
    as (size & updates & off' & t' & -> & Hk & Hl & Hn & Hs).
  cbn [mbind option_bind]. change (set_tqueue_offset_ off' (set_tqueue_offset_ off w)) with (set_tqueue_offset_ off' w).
  assert (actor_ok (now_ x) (set_tqueue_offset_ off' w)) as Hok1 by (destruct Hok; by split).
  destruct (loading_ok x size updates (set_tqueue_offset_ off' w) Hok1 Hl Hs) as (w2 & count & E2 & E3 & Hw2).
  { change (queue_count (set_tqueue_offset_ off' w)) with (queue_count w). cbn. lia. }
  cbv zeta in E2. rewrite E2. cbn [mbind option_bind]. rewrite E3. cbn [mbind option_bind].
  eexists _, t'. split; [done|].
  assert (∀ w3, loaded (set_tqueue_offset_ off' w) w3 → loaded w w3) as Hld.
  { intros w3 (um & qu & qs & o & un & em & c & os & -> & Hum). by exists um, qu, qs, o, un, em, c, os. }
  destruct (_ && _); (split; [apply Hw2|split; [apply Hld, Hw2|done]]); [right; by eexists|right; by eexists|by left|by left].
Qed.

(** *** Sending *)

(** The updates of [w] are in [w'], up to the times at which they were and will
    be sent, except [gone]. *)
Definition same_update (u u' : Update) : Prop :=
  id_ u' = id_ u ∧ json_ u' = json_ u ∧ queue_id_ u' = queue_id_ u ∧ expires_at_ u' = expires_at_ u.
Definition updates_kept (gone : Z → Prop) (w w' : webhook) : Prop :=
  ∀ id u, update_map_ w !! id = Some u → ¬ gone id → ∃ u', update_map_ w' !! id = Some u' ∧ same_update u u'.

Lemma updates_kept_refl gone w : updates_kept gone w w.
Proof. intros id u Hu _. by exists u. Qed.
Lemma updates_kept_trans gone w1 w2 w3 : updates_kept gone w1 w2 → updates_kept gone w2 w3 → updates_kept gone w1 w3.
Proof.
  intros H12 H23 id u Hu Hg. destruct (H12 _ _ Hu Hg) as (u2 & Hu2 & (? & ? & ? & ?)).
  destruct (H23 _ _ Hu2 Hg) as (u3 & Hu3 & (? & ? & ? & ?)). exists u3. split; [done|]. split_and!; congruence.
Qed.
Lemma updates_kept_more (gone gone' : Z → Prop) w w' : (∀ id, gone id → gone' id) → updates_kept gone w w' → updates_kept gone' w w'.
Proof. intros Hg Hk id u Hu Hn. apply Hk; auto. Qed.

Lemma request_header_total size : ∃ r, request_header e size = Some r.
Proof.
  unfold request_header, set_keep_alive, set_content_size, set_content_type. cbv zeta. apply finish_total.
  do 4 apply built_add. do 2 apply built_add_unless. apply built_add, built_post.
Qed.

(** Sending an update changes its time and a connection. *)
Record sending (n : nat) (now : Q) (w w' : webhook) : Prop := {
  sn_ok : actor_ok now w';
  sn_kept : updates_kept (fun _ => False) w w';
  sn_queues : queue_updates_ w' = queue_updates_ w;
  sn_net : same_net w w';
  sn_counts : connection_count w' = connection_count w ∧ pending_count w' = pending_count w ∧ ready_sockets_ w' = ready_sockets_ w;
  sn_room : room n w';
  sn_stop : stop_flag_ w' = stop_flag_ w;
  sn_awake : awake w → awake w'
}.

Lemma sending_refl n now w : actor_ok now w → room n w → sending n now w w.
Proof. intros. split; try done. apply updates_kept_refl. Qed.
Lemma sending_trans n now w1 w2 w3 : sending n now w1 w2 → sending n now w2 w3 → sending n now w1 w3.
Proof.
  intros [? ? ? (? & ? & ?) (? & ? & ?) ? ? ?] [? ? ? (? & ? & ?) (? & ? & ?) ? ? ?].
  split; [done|by eapply updates_kept_trans|congruence|split_and!; congruence|split_and!; congruence|done|congruence|auto].
Qed.

(** Why nothing more is sent. *)
Definition no_more (w : webhook) : Prop :=
  ready_connections_ w = [] ∨ queues_ w = [] ∨ awake w ∨ ∃ id u, update_map_ w !! id = Some u ∧ stuck u.

Lemma json_update_some id update : update ≠ [] → ∃ body, json_update id update = Some body.
Proof. intros Hne. unfold json_update. rewrite bool_decide_eq_false_2 by done. by eexists. Qed.

(** The update at the front of the first queue of the schedule is taken. *)
Definition taken (now : Q) (id : Z) (u : Update) (qs : list (Q * Z)) (w : webhook) : webhook :=
  set_update_map_ (<[id := set_last_send_time_ now u]> (update_map_ w)) (set_queues_ qs w).

Lemma taken_ok now w wakeup qid id ids u qs :
  actor_ok now w → queues_ w = (wakeup, qid) :: qs → queue_updates_ w !! qid = Some (id :: ids) → update_map_ w !! id = Some u →
  core_ok stuck (Some qid) (update_map_ (taken now id u qs w)) (queue_updates_ w) qs (contents w) (ready_connections_ w)
  ∧ updates_kept (fun _ => False) w (taken now id u qs w).
Proof.
  intros Hok Eqs Eq Eu. pose proof (wo_core _ _ Hok) as Hcore. rewrite Eqs in Hcore. split.
  - apply (core_update stuck stuck_ext _ _ _ _ _ _ id u); [by apply (core_unschedule _ _ _ wakeup)|done..|by left].
  - intros i v Hv _. cbn. destruct (decide (i = id)) as [->|Hne]; [|exists v; by rewrite lookup_insert_ne].
    exists (set_last_send_time_ now u). rewrite lookup_insert_eq. assert (v = u) as -> by congruence. done.
Qed.

Lemma sending_flies n now w wakeup qid id ids u qs cid o :
  actor_ok now w → room n w → queues_ w = (wakeup, qid) :: qs → queue_updates_ w !! qid = Some (id :: ids) →
  update_map_ w !! id = Some u → id_ u = id → last (ready_connections_ w) = Some cid →
  sending n now w
    (set_outs o (set_connections_ (st_update (connections_ w) cid (set_event_id_ (id_ u)))
       (set_ready_connections_ (removelast (ready_connections_ w)) (taken now id u qs w)))).
Proof.
  intros Hok Hroom Eqs Eq Eu -> El. destruct (taken_ok _ _ _ _ _ _ _ _ Hok Eqs Eq Eu) as [Hfree Hkept].
  pose proof Hok as [Hcore Hwf Hwp Hu Hml Hl Hc Ha Hp Hcb Hch Hfx]. pose proof (last_split _ _ El) as Esplit.
  assert (ready_connections_ w ≡ₚ cid :: removelast (ready_connections_ w)) as Hp2.
  { rewrite Esplit at 1. by rewrite Permutation_app_comm. }
  destruct (proj1 (co_ready _ _ _ _ _ _ _ Hcore cid)) as (conn & Econn & _); [rewrite Hp2; by left|].
  set (c' := st_update (connections_ w) cid (set_event_id_ id)).
  assert (st_contents c' = <[cid := set_event_id_ id conn]> (contents w)) as Ec by (by apply st_update_contents).
  assert (st_wf c') as Hwf' by (by apply st_update_wf).
  assert (slen (st_ids c') = connection_count w) as Hids by (by apply (ids_update _ _ _ conn)).
  assert (room n (set_connections_ c' w)) as Hroom' by (destruct Hroom; split; [by apply st_room_update|done]).
  clearbody c'. split.
  - split; [|exact Hwf'|exact Hwp|exact Hu|exact Hml|exact Hl|exact Hc|exact Ha|exact Hp|exact Hcb|exact Hch|exact Hfx].
    unfold contents. cbn [set_outs connections_ set_connections_]. rewrite Ec. by eapply (core_fly stuck _ _ _ _ _ _ qid id ids).
  - exact Hkept.
  - done.
  - by split_and!.
  - by split_and!.
  - exact Hroom'.
  - done.
  - done.
Qed.

Lemma sending_stuck n now w wakeup qid id ids u qs :
  actor_ok now w → room n w → queues_ w = (wakeup, qid) :: qs → queue_updates_ w !! qid = Some (id :: ids) →
  update_map_ w !! id = Some u → stuck u →
  sending n now w (taken now id u qs w) ∧ no_more (taken now id u qs w).
Proof.
  intros Hok Hroom Eqs Eq Eu Hstuck. destruct (taken_ok _ _ _ _ _ _ _ _ Hok Eqs Eq Eu) as [Hfree Hkept].
  pose proof Hok as [Hcore Hwf Hwp Hu Hml Hl Hc Ha Hp Hcb Hch Hfx].
  assert (update_map_ (taken now id u qs w) !! id = Some (set_last_send_time_ now u)) as Eu'.
  { cbn. by rewrite lookup_insert_eq. }
  split; [|right; right; right; by exists id, (set_last_send_time_ now u)]. split; [|exact Hkept|done|by split_and!|by split_and!|exact Hroom|done|done].
  split; [|exact Hwf|exact Hwp|exact Hu|exact Hml|exact Hl|exact Hc|exact Ha|exact Hp|exact Hcb|exact Hch|exact Hfx].
  apply (core_settle stuck _ _ _ _ _ qid); [exact Hfree|]. intros i is_ Ei. change (queue_updates_ w !! qid = Some (i :: is_)) in Ei.
  rewrite Eq in Ei. injection Ei as <- _. by exists (set_last_send_time_ now u).
Qed.

(** By rewriting, the kernel does not compute the request. *)
Lemma bind_value {A B} (f : A → option B) (a : A) : Some a ≫= f = f a.
Proof. done. Qed.

Lemma send_update_ok n now w :
  actor_ok now w → room n w →
  ∃ ok w', send_update e now w = Some (ok, w') ∧ sending n now w w'
    ∧ if (ok : bool) then length (queues_ w) = Datatypes.S (length (queues_ w')) else no_more w'.
Proof.
  intros Hok Hroom. unfold send_update. pose proof (sending_refl n now w Hok Hroom) as Hrefl.
  destruct (last (ready_connections_ w)) as [cid|] eqn:El.
  2:{ exists false, w. split_and!; [done..|]. left. by apply last_None. }
  destruct (queues_ w) as [|[wakeup qid] qs] eqn:Eqs.
  { exists false, w. split_and!; [done..|]. by right; left. }
  destruct (qlt now wakeup) eqn:Elt.
  { apply qlt_lt in Elt. destruct (relax_ok now wakeup w Hok Elt) as (v & -> & Hv).
    exists false, (set_actor_wakeup_at_ v w). split_and!; [done| |by right; right; left].
    destruct Hrefl. split; try done. by apply actor_wakeup. }
  pose proof (wo_core _ _ Hok) as Hcore. rewrite Eqs in Hcore.
  destruct (co_sched _ _ _ _ _ _ _ Hcore wakeup qid ltac:(by left)) as (_ & id & ids & u & Eq & Eu & _ & _).
  destruct (core_front _ _ _ _ _ _ _ _ _ _ Hcore Eq) as (u' & Eu' & Hqu & Hidu & Hval & Hj & Hq0 & _).
  assert (u' = u) as -> by congruence. clear Eu'.
  rewrite (proj2 (Z.eqb_neq _ _) Hq0). cbn [CHECK negb].
  change (queue_updates_ (set_queues_ qs w)) with (queue_updates_ w). rewrite Eq. cbn [mbind option_bind head].
  rewrite Hval. cbn [CHECK].
  change (update_map_ (set_queues_ qs w)) with (update_map_ w). rewrite Eu. cbn [mbind option_bind].
  destruct (json_update_some (id_ u) (json_ u) Hj) as [body Ebody]. rewrite Ebody, bind_value.
  destruct (request_header_total (slen body)) as [r Er]. rewrite Er, bind_value.
  destruct r as [header|code msg].
  - eexists true, _. split; [done|]. split; [|done]. by apply (sending_flies n now w wakeup qid id ids u qs cid).
  - eexists false, _. split; [done|]. apply (sending_stuck n now w wakeup qid id ids u qs); [done..|]. by exists body, code, msg.
Qed.

Lemma send_updates_ok n now fuel w :
  actor_ok now w → room n w → (length (queues_ w) < fuel)%nat →
  ∃ w', send_updates e fuel now w = Some w' ∧ sending n now w w' ∧ no_more w'.
Proof.
  revert w. induction fuel as [|fuel IH]; intros w Hok Hroom Hfuel; [lia|]. cbn [send_updates].
  destruct (send_update_ok n now w Hok Hroom) as (ok & w1 & -> & Hs & Hmore). cbn [mbind option_bind]. destruct ok; [|by exists w1].
  destruct (IH w1 (sn_ok _ _ _ _ Hs) (sn_room _ _ _ _ Hs) ltac:(lia)) as (w2 & -> & Hs2 & Hn2).
  exists w2. split_and!; [done|by eapply sending_trans|done].
Qed.

(** *** The loop of the actor *)

Lemma actor_resolving now w v r o :
  actor_ok now w → actor_ok now (set_outs o (set_is_ip_address_being_resolved_ r (set_actor_wakeup_at_ v w))).
Proof. intros []. by split. Qed.

Lemma resolve_ip_address_ok x w :
  actor_ok (now_ x) w →
  ∃ v r o, resolve_ip_address e x w = set_outs o (set_is_ip_address_being_resolved_ r (set_actor_wakeup_at_ v w))
    ∧ (fix_ip_address_ e = false → Qeq_bool v 0 = false ∨ r = true).
Proof.
  intros Hok. unfold resolve_ip_address.
  destruct (fix_ip_address_ e || is_ip_address_being_resolved_ w) eqn:Ef.
  { exists (actor_wakeup_at_ w), (is_ip_address_being_resolved_ w), (outs w). split; [by destruct w|]. intros Hf.
    right. by rewrite Hf in Ef. }
  destruct (qlt (now_ x) (next_ip_address_resolve_time_ w)) eqn:El.
  - apply qlt_lt in El. destruct (relax_ok _ _ _ Hok El) as (v & -> & Hv).
    exists v, (is_ip_address_being_resolved_ w), (outs w). split; [by destruct w|by left].
  - exists (actor_wakeup_at_ w), true, (outs w ++ [ResolveHost]). split; [by destruct w|by right].
Qed.

(** What will make the actor go on: a time, an answer of the webhook, a proxy, the
    address or the TLS context; or there is nothing to send, or nothing can be sent. *)
Definition attended (w : webhook) : Prop :=
  queues_ w = [] ∨ awake w ∨ (∃ id, in_flight (contents w) id) ∨ 0 < pending_count w
  ∨ is_ip_address_being_resolved_ w = true ∨ url_is_https e && negb (ssl_ctx_ w) = true
  ∨ ∃ id u, update_map_ w !! id = Some u ∧ stuck u.

(** The end of a handler; [gone] is what it may drop. *)
Record handled (n : nat) (gone : Z → Prop) (x : io) (w w' : webhook) (t t' : tqueue S) : Prop := {
  hd_ok : actor_ok (now_ x) w';
  hd_sockets : sockets_ok w';
  hd_room : room n w';
  hd_updates : updates_kept gone w w';
  hd_queue : queue_kept gone (get_unix_time e (now_ x)) t t'
}.

Lemma handled_trans n m gone x w1 w2 w3 t1 t2 t3 :
  handled n gone x w1 w2 t1 t2 → handled m gone x w2 w3 t2 t3 → handled m gone x w1 w3 t1 t3.
Proof.
  intros [] []. split; [done..|by eapply updates_kept_trans|by eapply queue_kept_trans].
Qed.
Lemma handled_more n (gone gone' : Z → Prop) x w w' t t' :
  (∀ id, gone id → gone' id) → handled n gone x w w' t t' → handled n gone' x w w' t t'.
Proof. intros Hg []. split; [done..|by eapply updates_kept_more|by eapply queue_kept_more]. Qed.

(** With no idle connection, there is none, or an answer is awaited. *)
Lemma idle_or_flying now w :
  actor_ok now w → ready_connections_ w = [] → connection_count w = 0 ∨ ∃ id, in_flight (contents w) id.
Proof.
  intros Hok Er. unfold connection_count. destruct (st_ids (connections_ w)) as [|cid ids] eqn:Ei; [by left|right].
  assert (is_Some (contents w !! cid)) as [conn Ec] by (apply (st_ids_contents _ _ (wo_connections _ _ Hok)); rewrite Ei; by left).
  exists (event_id_ conn). split; [|by exists cid, conn]. intros Hz.
  assert (cid ∈ ready_connections_ w) as Hin by (apply (co_ready _ _ _ _ _ _ _ (wo_core _ _ Hok)); eauto).
  rewrite Er in Hin. by apply elem_of_nil in Hin.
Qed.

Lemma queues_nonempty now w : actor_ok now w → queues_ w ≠ [] → 1 <= queue_count w.
Proof.
  intros Hok Hne. destruct (queues_ w) as [|[wakeup qid] qs] eqn:E; [done|].
  destruct (co_sched _ _ _ _ _ _ _ (wo_core _ _ Hok) wakeup qid) as (_ & id & ids & _ & Eq & _); [rewrite E; by left|].
  unfold queue_count. assert (base.size (queue_updates_ w) ≠ 0%nat); [|lia].
  rewrite map_size_ne_0_lookup. eauto.
Qed.

Lemma attended_sent now w1 w2 w3 :
  actor_ok now w3 → no_more w3 → same_net w1 w2 → same_net w2 w3 → queue_updates_ w3 = queue_updates_ w1 →
  connection_count w3 = connection_count w2 → pending_count w3 = pending_count w2 → (awake w2 → awake w3) → (awake w1 → awake w2) →
  stop_flag_ w3 = false → (fix_ip_address_ e = false → awake w1 ∨ is_ip_address_being_resolved_ w1 = true) →
  (1 <= queue_count w1 → ip_is_valid (ip_address_ w1) = true → url_is_https e && negb (ssl_ctx_ w1) = false →
   awake w2 ∨ 0 < connection_count w2 + pending_count w2) →
  attended w3.
Proof.
  intros Hok Hno (Eip & Essl & Eres) (Eip2 & Essl2 & Eres2) Eq Ec Ep Haw3 Haw2 Hstop Hres Hconn. unfold attended.
  destruct (decide (queues_ w3 = [])) as [|Hne]; [by left|]. destruct Hno as [Hr|[?|[?|?]]]; [|by left|by right; left|by do 6 right].
  destruct (idle_or_flying _ _ Hok Hr) as [Hz|?]; [|by right; right; left].
  destruct (url_is_https e && negb (ssl_ctx_ w3)) eqn:Es; [by do 5 right; left|].
  pose proof (queues_nonempty _ _ Hok Hne) as Hq. unfold queue_count in Hq, Hconn. rewrite Eq in Hq.
  destruct (fix_ip_address_ e) eqn:Ef.
  - destruct (wo_fixed _ _ Hok Ef) as [Hv|?]; [|congruence].
    destruct Hconn as [?|?]; [done|congruence|congruence|by right; left; auto|do 3 right; left; lia].
  - destruct (Hres eq_refl) as [?|?]; [by right; left; auto|do 4 right; left; congruence].
Qed.

Lemma loaded_parts gone now w w' :
  loaded w w' → actor_ok now w →
  updates_kept gone w w' ∧ connection_count w' = connection_count w ∧ pending_count w' = pending_count w
  ∧ ready_sockets_ w' = ready_sockets_ w ∧ stop_flag_ w' = stop_flag_ w ∧ (∀ n, room n w → room n w').
Proof.
  intros (um & qu & qs & off & un & em & c & o & -> & Hum) Hok. split_and!; try done.
  intros id u Hu _. exists u. split; [by apply Hum|done].
Qed.

Lemma carried_kept gone w w' : carried w w' → updates_kept gone w w'.
Proof. intros [(E & _ & _) _ _ _] id u Hu _. rewrite E. by exists u. Qed.

(** The stages of [loop] after [load_updates], of an actor that goes on. *)
Lemma stages_ok n x w :
  actor_ok (now_ x) w → sockets_ok w → room (loop_room + n) w → stop_flag_ w = false →
  ∃ w2, create_new_connections e x (resolve_ip_address e x w) = Some w2 ∧ actor_ok (now_ x) w2 ∧ sockets_ok w2 ∧ room n w2
    ∧ updates_kept (fun _ => False) w w2
    ∧ ∀ w3, sending n (now_ x) w2 w3 → no_more w3 → stop_flag_ w3 = false → attended w3.
Proof.
  intros Hok Hsock Hroom Hstop.
  destruct (resolve_ip_address_ok x w Hok) as (v & r & o & Eres & Hres). rewrite Eres.
  pose proof (actor_resolving (now_ x) w v r o Hok) as Hok1.
  set (w1 := set_outs o (set_is_ip_address_being_resolved_ r (set_actor_wakeup_at_ v w))) in *.
  assert (sockets_ok w1 ∧ room (loop_room + n) w1 ∧ stop_flag_ w1 = false ∧ update_map_ w1 = update_map_ w) as (Hs1 & Hr1 & Hst1 & Hum1)
    by (by split_and!).
  assert (fix_ip_address_ e = false → awake w1 ∨ is_ip_address_being_resolved_ w1 = true) as Hw1 by exact Hres.
  clearbody w1. destruct (create_new_connections_ok x n w1 Hok1 Hr1 Hst1 Hs1) as (w2 & -> & Hok2 & Hca & Hr2 & Hs2 & Hwhy).
  exists w2. split_and!; try done.
  { intros id u Hu _. rewrite <- Hum1 in Hu. exact (carried_kept (fun _ => False) _ _ Hca id u Hu (fun f => f)). }
  intros w3 [Hok3 _ Hq3 Hn3 (Hc3 & Hp3 & _) _ _ Ha3] Hno Hst3. destruct Hca as [(_ & Eq2 & _) Hn2 _ Ha2].
  apply (attended_sent (now_ x) w1 w2 w3); try done. congruence.
Qed.

Lemma handled_outs n gone x w w' t t' o : handled n gone x w w' t t' → handled n gone x w (set_outs o w') t t'.
Proof. intros []. split; try done. by apply actor_outs. Qed.

(** The time that the actor last asked to be woken up at. *)
Definition timer_of (l : list waction) : option Q :=
  foldl (fun acc a => match a with SetTimeoutAt at_ => Some at_ | _ => acc end) None l.
Definition timer_set (w : webhook) : Prop := awake w → timer_of (outs w) = Some (actor_wakeup_at_ w).

Lemma timer_of_snoc l a : timer_of (l ++ [a]) = match a with SetTimeoutAt at_ => Some at_ | _ => timer_of l end.
Proof. unfold timer_of. by rewrite foldl_app. Qed.

Lemma loop_end (w : webhook) :
  ∃ o, (let w := if negb (stop_flag_ w) && negb (Qeq_bool (actor_wakeup_at_ w) 0) then send (SetTimeoutAt (actor_wakeup_at_ w)) w else w in
        if stop_flag_ w then send Stop w else w) = set_outs o w
    ∧ (stop_flag_ w = false → timer_set (set_outs o w)).
Proof.
  cbv zeta. unfold timer_set, awake. destruct (negb (stop_flag_ w) && negb (Qeq_bool (actor_wakeup_at_ w) 0)) eqn:E.
  - change (stop_flag_ (send (SetTimeoutAt (actor_wakeup_at_ w)) w)) with (stop_flag_ w).
    destruct (stop_flag_ w) eqn:Es; [eexists; by split|]. eexists. split; [done|]. intros _ _. cbn. by rewrite timer_of_snoc.
  - destruct (stop_flag_ w) eqn:Es; [eexists; by split|]. exists (outs w). split; [by destruct w|]. intros _ Hw. cbn in *. by rewrite Hw in E.
Qed.

Lemma loop_ok n x w t :
  actor_ok (now_ x) w → sockets_ok w → room (loop_room + n) w → tqueue_ok t →
  ∃ w' t', loop e x w t = Some (w', t') ∧ handled n (fun _ => False) x w w' t t'
    ∧ (stop_flag_ w' = false → attended w' ∧ timer_set w').
Proof.
  intros Hok Hsock Hroom Ht. unfold loop. pose proof (actor_wakeup (now_ x) w 0 Hok) as Hok0.
  set (w0 := set_actor_wakeup_at_ 0 w) in *.
  assert (sockets_ok w0 ∧ room (loop_room + n) w0) as [Hs0 Hr0] by done.
  assert (∀ w' t', handled n (fun _ => False) x w0 w' t t' → handled n (fun _ => False) x w w' t t') as Hfirst.
  { intros w' t' []. by split. }
  clearbody w0. destruct (stop_flag_ w0) eqn:Hstop.
  { exists (send Stop w0), t. split. { do 3 (cbn [mbind option_bind negb andb]; rewrite ?Hstop). cbn [negb andb]. by rewrite Hstop. } split; [|intros Hf; cbn in Hf; congruence].
    apply Hfirst, handled_outs.
    split; [done|done|by apply (room_le (loop_room + n)); [lia|]|apply updates_kept_refl|by apply queue_kept_refl]. }
  destruct (load_updates_ok x w0 t Hok0 Ht) as (w1 & t1 & -> & Hok1 & Hl & Hk). cbn [mbind option_bind].
  destruct (loaded_parts (fun _ => False) (now_ x) _ _ Hl Hok0) as (Hum1 & Hc1 & Hp1 & Hrs1 & Hst1 & Hr1).
  rewrite !Hst1, Hstop.
  assert (sockets_ok w1) as Hs1 by (unfold sockets_ok, all_sockets in *; by rewrite Hc1, Hp1, Hrs1).
  destruct (stages_ok n x w1 Hok1 Hs1 (Hr1 _ Hr0) ltac:(congruence)) as (w2 & E2 & Hok2 & Hs2 & Hr2 & Hum2 & Hatt).
  rewrite Hstop in Hst1. clear Hr1 Hl Hc1 Hp1 Hrs1.
  assert (stop_flag_ (resolve_ip_address e x w1) = false) as ->.
  { destruct (resolve_ip_address_ok x w1 Hok1) as (v & r & o & -> & _). exact Hst1. }
  rewrite E2. cbn [mbind option_bind].
  assert (∃ w3, (if stop_flag_ w2 then Some w2 else send_updates e (Datatypes.S (length (queues_ w2))) (now_ x) w2) = Some w3
    ∧ sending n (now_ x) w2 w3 ∧ (stop_flag_ w3 = false → no_more w3)) as (w3 & -> & Hs3 & Hno).
  { destruct (stop_flag_ w2) eqn:Hst2; [exists w2; split_and!; [done|by apply sending_refl|congruence]|].
    destruct (send_updates_ok n (now_ x) (Datatypes.S (length (queues_ w2))) w2 Hok2 Hr2 ltac:(lia)) as (w3 & E3 & Hs3 & Hno).
    by exists w3. }
  cbn [mbind option_bind]. specialize (Hatt w3 Hs3). destruct Hs3 as [Hok3 Hum3 _ _ (Hc3 & Hp3 & Hrs3) Hr3 _ _].
  assert (handled n (fun _ => False) x w w3 t t1) as Hw3.
  { apply Hfirst. split; [done|unfold sockets_ok, all_sockets in *; congruence|done| |done].
    eapply updates_kept_trans; [exact Hum1|]. eapply updates_kept_trans; [exact Hum2|exact Hum3]. }
  destruct (loop_end w3) as (o & Eo & Htimer). cbv zeta in Eo. rewrite Eo. exists (set_outs o w3), t1. split; [done|]. split; [by apply handled_outs|].
  intros Hf. exact (conj (Hatt (Hno Hf) Hf) (Htimer Hf)).
Qed.

(** *** Answers *)

(** What the end of an update changes. *)
Definition settled um qu qs success_time successful (w : webhook) : webhook :=
  set_update_map_ um (set_queue_updates_ qu (set_queues_ qs
    (set_last_success_time_ success_time (set_last_update_was_successful_ successful w)))).

(** The updates, their queues and the schedule after the answer for the front [id]
    of the free queue [qid]; only the updates of [gone] were dropped. *)
Record answered (gone : Z → Prop) (x : io) cs ready (w w' : webhook) (t t' : tqueue S) : Prop := {
  an_core : core_ok stuck None (update_map_ w') (queue_updates_ w') (queues_ w') cs ready;
  an_count : queue_count w' <= queue_count w;
  an_updates : updates_kept gone w w';
  an_queue : queue_kept gone (get_unix_time e (now_ x)) t t'
}.

Lemma drop_event_ok x id qid ids w t cs ready :
  core_ok stuck (Some qid) (update_map_ w) (queue_updates_ w) (queues_ w) cs ready →
  queue_updates_ w !! qid = Some (id :: ids) → tqueue_ok t →
  ∃ um qu qs t', drop_event e id w t = Some (set_update_map_ um (set_queue_updates_ qu (set_queues_ qs w)), t')
    ∧ answered (fun i => i = id) x cs ready w (set_update_map_ um (set_queue_updates_ qu (set_queues_ qs w))) t t'.
Proof.
  intros Hcore Eq Ht. destruct (core_front _ _ _ _ _ _ _ _ _ _ Hcore Eq) as (u & Eu & Hqu & _ & _ & _ & _ & Hni & _).
  pose proof (core_drop stuck _ _ _ _ _ _ _ _ Hcore Eq) as Hdrop.
  destruct (forget_ok (tqueue_id_ e) id t Ht) as (t' & Ef & Hstep & Hkeep).
  assert (queue_kept (fun i => i = id) (get_unix_time e (now_ x)) t t') as Hk.
  { split; [apply (TQueue.st_ok _ _ _ Hstep)|apply (TQueue.st_others _ _ _ Hstep)|]. intros ev He _ Hne. by apply Hkeep. }
  assert (∀ qu' qs', updates_kept (fun i => i = id) w (set_update_map_ (delete id (update_map_ w)) (set_queue_updates_ qu' (set_queues_ qs' w)))) as Hum.
  { intros qu' qs' i v Hv Hne. exists v. split; [cbn; by rewrite lookup_delete_ne by (intros ->; by apply Hne)|done]. }
  unfold drop_event. rewrite Eu. cbn [mbind option_bind]. rewrite Hqu.
  change (queue_updates_ (set_update_map_ (delete id (update_map_ w)) w)) with (queue_updates_ w). rewrite Eq, Z.eqb_refl. cbn [CHECK].
  destruct ids as [|id2 ids].
  - cbn [mbind option_bind]. rewrite Ef. cbn [mbind option_bind].
    exists (delete id (update_map_ w)), (delete qid (queue_updates_ w)), (queues_ w), t'. split; [by destruct w|].
    split; [|unfold queue_count; cbn; pose proof (map_size_delete_Some qid (queue_updates_ w) ltac:(eauto)); lia|apply Hum|done].
    apply (core_settle stuck _ _ _ _ _ qid); [exact Hdrop|]. intros i is_. cbn. by rewrite lookup_delete_eq.
  - assert (rest_of_queue qid (id2 :: ids) (queue_updates_ w) !! qid = Some (id2 :: ids)) as Eq2 by (cbn; by rewrite lookup_insert_eq).
    destruct (core_front _ _ _ _ _ _ _ _ _ _ Hdrop Eq2) as (u2 & Eu2 & Hqu2 & _ & Hv2 & _).
    rewrite Hv2. cbn [CHECK]. change (update_map_ (set_update_map_ (delete id (update_map_ w)) w)) with (delete id (update_map_ w)).
    rewrite Eu2. cbn [mbind option_bind]. rewrite Ef, Hqu2. cbn [mbind option_bind].
    exists (delete id (update_map_ w)), (<[qid := id2 :: ids]> (queue_updates_ w)), (queues_emplace (update_wakeup_at_ u2, qid) (queues_ w)), t'.
    split; [by destruct w|]. split; [|unfold queue_count; cbn; rewrite map_size_insert_Some by eauto; lia|apply Hum|done].
    by apply (core_reschedule stuck _ _ _ _ _ qid id2 ids u2).
Qed.

(** The delay after which an update would be sent again. *)
Definition retry_delay (x : io) (retry_after : Z) (u : Update) : Z :=
  (next_delays (random_ x) (Z.max 0 (Z.min retry_after MAX_RETRY_AFTER)) u).2.
(** It would have expired by then. *)
Definition past_deadline (x : io) (retry_after : Z) (u : Update) : Prop :=
  expires_at_ u < get_unix_time e (now_ x) + retry_delay x retry_after u.

Lemma on_update_error_ok x id qid ids u retry_after w t cs ready :
  core_ok stuck (Some qid) (update_map_ w) (queue_updates_ w) (queues_ w) cs ready →
  queue_updates_ w !! qid = Some (id :: ids) → update_map_ w !! id = Some u → tqueue_ok t →
  ∃ um qu qs t', on_update_error e x id retry_after w t = Some (settled um qu qs (last_success_time_ w) false w, t')
    ∧ answered (fun i => i = id ∧ past_deadline x retry_after u) x cs ready w (settled um qu qs (last_success_time_ w) false w) t t'.
Proof.
  intros Hcore Eq Eu Ht. unfold on_update_error. change (update_map_ (set_last_update_was_successful_ false w)) with (update_map_ w).
  rewrite Eu. cbn [mbind option_bind]. set (delays := next_delays _ _ _).
  assert (retry_delay x retry_after u = delays.2) as Ed by done. destruct delays as [next_delay delay]. cbn [snd] in Ed.
  destruct (Z.ltb_spec (expires_at_ u) (get_unix_time e (now_ x) + delay)) as [Hlt|Hge].
  - destruct (drop_event_ok x id qid ids (set_last_update_was_successful_ false w) t cs ready Hcore Eq Ht) as (um & qu & qs & t' & -> & [Hc Hn Hu Hk]).
    exists um, qu, qs, t'. split; [unfold settled; by destruct w|].
    assert (∀ i, i = id → i = id ∧ past_deadline x retry_after u) as Hg by (intros i ->; unfold past_deadline; by rewrite Ed).
    split; [exact Hc|exact Hn|exact (updates_kept_more _ _ _ _ Hg Hu)|exact (queue_kept_more _ _ _ _ _ Hg Hk)].
  - destruct (core_front _ _ _ _ _ _ _ _ _ _ Hcore Eq) as (u' & Eu' & Hqu & _). assert (u' = u) as -> by congruence.
    set (u' := delayed next_delay _ u). exists (<[id := u']> (update_map_ w)), (queue_updates_ w),
      (queues_emplace (update_wakeup_at_ u', queue_id_ u') (queues_ w)), t.
    split; [unfold settled; by destruct w|]. split; [|unfold queue_count; cbn; lia| |by apply queue_kept_refl].
    + change (queue_id_ u') with (queue_id_ u). rewrite Hqu.
      apply (core_reschedule stuck _ _ _ _ _ qid id ids u'); [|done|exact (lookup_insert_eq (update_map_ w) id u')].
      apply (core_update stuck stuck_ext _ _ _ _ _ _ id u); try done. right. by rewrite Hqu.
    + intros i v Hv _. cbn. destruct (decide (i = id)) as [->|Hne]; [|exists v; by rewrite lookup_insert_ne].
      exists u'. rewrite lookup_insert_eq. assert (v = u) as -> by congruence. done.
Qed.

Lemma on_update_ok_ok x id qid ids u w t cs ready :
  core_ok stuck (Some qid) (update_map_ w) (queue_updates_ w) (queues_ w) cs ready →
  queue_updates_ w !! qid = Some (id :: ids) → update_map_ w !! id = Some u → tqueue_ok t →
  ∃ um qu qs t', on_update_ok e (now_ x) id w t = Some (settled um qu qs (now_ x) true w, t')
    ∧ answered (fun i => i = id) x cs ready w (settled um qu qs (now_ x) true w) t t'.
Proof.
  intros Hcore Eq Eu Ht. unfold on_update_ok. rewrite bool_decide_eq_true_2 by (cbn; eauto). cbn [CHECK].
  destruct (drop_event_ok x id qid ids (set_last_success_time_ (now_ x) (set_last_update_was_successful_ true w)) t cs ready Hcore Eq Ht)
    as (um & qu & qs & t' & -> & [Hc Hn Hu Hk]).
  exists um, qu, qs, t'. split; [unfold settled; by destruct w|by split].
Qed.

(** What an answer over a connection may drop. *)
Definition dropped (x : io) (conn : Connection) (query_error : slice) (retry_after : Z) (w : webhook) (i : Z) : Prop :=
  i = event_id_ conn ∧ i ≠ 0 ∧ (query_error = [] ∨ ∃ u, update_map_ w !! i = Some u ∧ past_deadline x retry_after u).

Lemma answered_more (gone gone' : Z → Prop) x cs ready w w' t t' :
  (∀ i, gone i → gone' i) → answered gone x cs ready w w' t t' → answered gone' x cs ready w w' t t'.
Proof. intros Hg []. split; [done|done|by eapply updates_kept_more|by eapply queue_kept_more]. Qed.

Lemma reply_ok now x cid conn query_error retry_after w t :
  actor_ok now w → contents w !! cid = Some conn → (event_id_ conn = 0 → query_error ≠ []) → tqueue_ok t →
  ∃ um qu qs success_time successful t',
    (if negb (id_empty (event_id_ conn)) then
       if bool_decide (query_error = []) then on_update_ok e (now_ x) (event_id_ conn) w t
       else on_update_error e x (event_id_ conn) retry_after w t
     else (CHECK! negb (bool_decide (query_error = [])) ;; Some (w, t))%td)
    = Some (settled um qu qs success_time successful w, t')
    ∧ answered (dropped x conn query_error retry_after w) x (<[cid := set_event_id_ 0 conn]> (contents w))
        (if event_id_ conn =? 0 then ready_connections_ w else cid :: ready_connections_ w)
        w (settled um qu qs success_time successful w) t t'.
Proof.
  intros Hok Ec Hne Ht. pose proof (wo_core _ _ Hok) as Hcore. unfold id_empty. destruct (Z.eqb_spec (event_id_ conn) 0) as [Ez|Ez]; cbn [negb].
  - rewrite bool_decide_eq_false_2 by auto. cbn [CHECK negb].
    exists (update_map_ w), (queue_updates_ w), (queues_ w), (last_success_time_ w), (last_update_was_successful_ w), t.
    split; [unfold settled; by destruct w|].
    rewrite insert_id by (rewrite Ec; destruct conn; cbn in *; by subst).
    split; [exact Hcore|unfold queue_count; cbn; lia|intros i v Hv _; by exists v|by apply queue_kept_refl].
  - destruct (co_flight _ _ _ _ _ _ _ Hcore _ _ Ec Ez) as (u & ids & Eu & Eq & _).
    pose proof (core_answered stuck _ _ _ _ _ cid conn u Hcore Ec Ez Eu) as Hfree.
    case_bool_decide as Eerr.
    + destruct (on_update_ok_ok x _ _ _ _ w t _ _ Hfree Eq Eu Ht) as (um & qu & qs & t' & -> & Ha).
      exists um, qu, qs, (now_ x), true, t'. split; [done|]. eapply answered_more; [|exact Ha].
      intros i ->. split_and!; [done|done|by left].
    + destruct (on_update_error_ok x _ _ _ u retry_after w t _ _ Hfree Eq Eu Ht) as (um & qu & qs & t' & -> & Ha).
      exists um, qu, qs, (last_success_time_ w), false, t'. split; [done|]. eapply answered_more; [|exact Ha].
      intros i [-> Hd]. split_and!; [done|done|right; eauto].
Qed.

(** Then the connection is idle, or it is closed. *)
Lemma released_ok n x cid conn gone um qu qs success_time successful (close : bool) w t t' :
  let w1 := settled um qu qs success_time successful w in
  actor_ok (now_ x) w → sockets_ok w → room n w → contents w !! cid = Some conn → @st_last Connection C _ cid = false →
  answered gone x (<[cid := set_event_id_ 0 conn]> (contents w))
    (if event_id_ conn =? 0 then ready_connections_ w else cid :: ready_connections_ w) w w1 t t' →
  (event_id_ conn = 0 → close = true) →
  let w2 := set_connections_ (st_update (connections_ w1) cid (set_event_id_ 0)) w1 in
  handled n gone x w
    (if close then
       let w := set_connections_ (st_erase (connections_ w2) cid) w2 in
       let w := set_ready_connections_ (List.filter (fun id => negb (id =? cid)) (ready_connections_ w)) w in
       send (ConnectionCount (-1)) (send (CloseConnection cid) w)
     else set_ready_connections_ (cid :: ready_connections_ w2) w2) t t'.
Proof.
  intros w1 Hok Hsock Hroom Ec Hlast [Hcore Hcount Hum Hk] Hidle w2.
  pose proof Hok as [_ Hwf Hwp Hu Hml Hl Hc Ha Hp Hcb Hch Hfx]. set (c1 := st_update (connections_ w) cid (set_event_id_ 0)).
  assert (st_contents c1 = <[cid := set_event_id_ 0 conn]> (contents w)) as Ec1 by (by apply st_update_contents).
  assert (st_wf c1) as Hwf1 by (by apply st_update_wf).
  pose proof (ids_update _ _ (set_event_id_ 0) _ Hwf Ec) as Hids1. fold c1 in Hids1.
  assert (st_room c1 n) as Hr1 by (destruct Hroom; by apply st_room_update).
  assert (st_contents c1 !! cid = Some (set_event_id_ 0 conn)) as Ec1' by (rewrite Ec1; by rewrite lookup_insert_eq).
  rewrite <- Ec1 in Hcore. change (queue_count w1) with (Z.of_nat (base.size qu)) in Hcount. destruct close.
  - pose proof (ids_erase c1 cid _ Hwf1 Ec1' Hlast) as Hids2.
    assert (st_wf (st_erase c1 cid)) as Hwf2 by (apply st_erase_wf; eauto).
    pose proof (st_erase_contents c1 cid _ Hwf1 Ec1' Hlast) as Ec2.
    pose proof (st_room_erase c1 cid n Hr1) as Hr2.
    assert (List.filter (fun id => negb (id =? cid)) (if event_id_ conn =? 0 then ready_connections_ w else cid :: ready_connections_ w)
            = List.filter (fun id => negb (id =? cid)) (ready_connections_ w)) as Ef.
    { destruct (event_id_ conn =? 0); [done|]. cbn [List.filter]. by rewrite Z.eqb_refl. }
    pose proof (core_disconnect stuck _ _ _ _ _ cid _ Hcore Ec1' eq_refl) as Hcore2. rewrite Ef, <- Ec2 in Hcore2.
    subst w2. change (connections_ w1) with (connections_ w). fold c1. cbv zeta.
    change (connections_ (set_connections_ c1 w1)) with c1. set (c2 := st_erase c1 cid) in *. clearbody c2.
    apply handled_outs. pose proof (Z.le_trans _ _ _ Hcount Hl) as Hl2.
    split; [|  | |exact Hum|exact Hk].
    + split; [exact Hcore2|exact Hwf2|exact Hwp|exact Hu|exact Hml|exact Hl2|exact Hc|exact Ha|exact Hp|exact Hcb|exact Hch|exact Hfx].
    + unfold sockets_ok, all_sockets, connection_count, pending_count in *. subst w1. cbn. lia.
    + split; [exact Hr2|apply Hroom].
  - assert ((event_id_ conn =? 0) = false) as Ez by (destruct (Z.eqb_spec (event_id_ conn) 0); [by discriminate Hidle|done]).
    rewrite Ez in Hcore. subst w2. change (connections_ w1) with (connections_ w). fold c1. clearbody c1.
    pose proof (Z.le_trans _ _ _ Hcount Hl) as Hl2. split; [| | |exact Hum|exact Hk].
    + split; [exact Hcore|exact Hwf1|exact Hwp|exact Hu|exact Hml|exact Hl2|exact Hc|exact Ha|exact Hp|exact Hcb|exact Hch|exact Hfx].
    + unfold sockets_ok, all_sockets, connection_count, pending_count in *. subst w1. cbn. lia.
    + split; [exact Hr1|apply Hroom].
Qed.
End Delivery.
