(* ===== verification/WebhookRun.v ===== *)
(** * Runs of the delivery to a webhook

    The events that other actors may cause, the runs of [WebhookActor], and the
    theorems about each of them. *)

From Stdlib Require Import QArith.
From stdpp Require Import gmap sorting.
From S2P Require Import Prelude Slices Integers HttpHeader IpAddress Container FloodControl TQueue TQueueLife WebhookActor WebhookQueues WebhookDelivery.

Local Open Scope Z_scope.

(** An answer that accepts an update, the delay that another one asks for, and
    the update that an answer may drop. *)
Definition is_success (r : response) : bool := is_response r && (200 <=? code_ r) && (code_ r <=? 299).
Definition delivered (r : option response) : Prop := ∃ r', r = Some r' ∧ is_success r' = true.
Definition retry_of (r : option response) : Z :=
  match r with Some r => if is_response r && negb (is_success r) then retry_after_ r else 0 | None => 0 end.

(** The changes of one operation that [tame] allows. *)
Create HintDb tame.

Section Run.
Context {C D S : Type} `{IdStoreLaws Connection C} `{IdStoreLaws unit D} `{StorageLaws S} (e : webhook_env).
Context (blocks_parse : Forall (fun b => is_Some (inet_pton4 e b.1)) reserved_blocks).
Context (connections_positive : 0 < max_connections_ e).

Abbreviation webhook := (@webhook C D).

Definition may_drop (x : io) (cid : Z) (r : option response) (w : webhook) (i : Z) : Prop :=
  ∃ conn u, contents w !! cid = Some conn ∧ event_id_ conn = i ∧ update_map_ w !! i = Some u
    ∧ (delivered r ∨ past_deadline e x (retry_of r) u).

(** *** The handlers *)

Lemma on_webhook_error_ok error (w : webhook) : ∃ o, on_webhook_error error w = set_outs o w ∧ timer_of o = timer_of (outs w).
Proof.
  unfold on_webhook_error. destruct (was_checked_ w); [|exists (outs w); split; [by destruct w|done]].
  eexists. split; [done|]. by rewrite timer_of_snoc.
Qed.

Lemma handle_response_ok x r (w : webhook) :
  ∃ err close o v, handle_response e x r w = (err, retry_of (Some r), close, set_outs o (set_first_error_410_time_ v w))
    ∧ (err = [] ↔ delivered (Some r)).
Proof.
  assert (delivered (Some r) ↔ is_success r = true) as Hd.
  { split; [by intros (r' & [= <-] & ?)|intros ?; by exists r]. }
  unfold handle_response, retry_of. setoid_rewrite Hd. unfold is_success. destruct (is_response r); cbn [andb].
  2:{ set (err := lit "Wrong response from the webhook: " ++ text_ r). destruct (on_webhook_error_ok err w) as (o & -> & _).
      exists err, false, o, (first_error_410_time_ w). split; [by destruct w|]. unfold err. split; [done|congruence]. }
  destruct ((200 <=? code_ r) && (code_ r <=? 299)) eqn:Ec; cbn [negb].
  { destruct (is_callable (method_ r)); eexists [], false, _, 0%Q; (split; [by destruct w|done]). }
  set (err := lit "Wrong response from the webhook: " ++ _).
  assert (∀ v, ∃ o, on_webhook_error err (set_first_error_410_time_ v w) = set_outs o (set_first_error_410_time_ v w)) as Ho.
  { intros v. destruct (on_webhook_error_ok err (set_first_error_410_time_ v w)) as (o & -> & _). by exists o. }
  assert (err = [] ↔ false = true) as Herr by (unfold err; split; [done|congruence]).
  destruct (code_ r =? 410); [destruct (Qeq_bool (first_error_410_time_ w) 0)|].
  - destruct (Ho (now_ x)) as [o ->]. by exists err, false, o, (now_ x).
  - assert (w = set_first_error_410_time_ (first_error_410_time_ w) w) as Ew by (by destruct w).
    destruct (Ho (first_error_410_time_ w)) as [o Eo]. rewrite <- Ew in Eo. rewrite Eo.
    eexists err, _, o, (first_error_410_time_ w). by rewrite <- Ew.
  - destruct (Ho 0%Q) as [o ->]. by exists err, false, o, 0%Q.
Qed.

(** What a handler ends with: the actor stops, it is to be closed, or it is
    attended to. *)
Definition goes_on (w : webhook) : Prop :=
  stop_flag_ w = true ∨ CloseLater ∈ outs w ∨ attended e w ∧ timer_set w.

(** The first part of [handle]: what the answer says. *)
Lemma answer_read x cid conn (r : option response) (w : webhook) :
  ∃ err need_close close o v,
    match r with
    | Some r =>
        let '(query_error, retry_after, need_close, w') := handle_response e x r w in
        (query_error, retry_after, need_close,
         negb (is_response r) || negb (keep_alive_ r) || negb (ip_generation_ w =? conn_ip_generation_ conn), w')
    | None => (lit "Webhook connection closed", 0, false, true, send (ReleaseConnectionActor cid) w)
    end = (err, retry_of r, need_close, close, set_outs o (set_first_error_410_time_ v w))
    ∧ (err = [] ↔ delivered r) ∧ (r = None → close = true).
Proof.
  destruct r as [r|].
  - destruct (handle_response_ok x r w) as (err & need_close & o & v & -> & Herr). by eexists err, need_close, _, o, v.
  - eexists _, false, true, _, (first_error_410_time_ w). split; [by destruct w|]. split; [|done].
    split; [done|]. by intros (r & ? & _).
Qed.

Lemma actor_error_time now (w : webhook) v o : actor_ok e now w → actor_ok e now (set_outs o (set_first_error_410_time_ v w)).
Proof. intros []. by split. Qed.

Lemma handled_same n gone x (w w0 w' : webhook) t t' :
  update_map_ w0 = update_map_ w → handled e n gone x w0 w' t t' → handled e n gone x w w' t t'.
Proof. intros E []. split; try done. intros id u Hu. rewrite <- E in Hu. by apply hd_updates. Qed.

(** The link token of an event is an identifier that the container gave out,
    which is not the last of its slot; an answer comes only from a connection
    that was asked. *)
Record known (cid : Z) (r : option response) (w : webhook) : Prop := {
  kn_get : st_get (connections_ w) cid = contents w !! cid;
  kn_last : @st_last Connection C _ cid = false;
  kn_asked conn : contents w !! cid = Some conn → event_id_ conn = 0 → r = None
}.

Lemma handle_ok n x cid r (w : webhook) t :
  actor_ok e (now_ x) w → sockets_ok e w → room (loop_room e + n) w → tqueue_ok t → known cid r w →
  ∃ w' t', handle e x cid r w t = Some (w', t') ∧ handled e n (may_drop x cid r w) x w w' t t'
    ∧ (goes_on w' ∨ w' = w).
Proof.
  intros Hok Hsock Hroom Ht [Hget Hlast Hidle]. unfold handle. rewrite Hget.
  destruct (contents w !! cid) as [conn|] eqn:Ec.
  2:{ exists w, t. split; [done|]. split; [|by right].
      split; [done|done|by apply (room_le (loop_room e + n)); [lia|]|apply updates_kept_refl|by apply queue_kept_refl]. }
  destruct (answer_read x cid conn r w) as (err & need_close & close & o & v & -> & Herr & Hclose). cbv zeta.
  set (w0 := set_outs o (set_first_error_410_time_ v w)).
  assert (actor_ok e (now_ x) w0) as Hok0 by (by apply actor_error_time).
  assert (contents w0 = contents w ∧ sockets_ok e w0 ∧ room (loop_room e + n) w0 ∧ update_map_ w0 = update_map_ w) as (Ec0 & Hs0 & Hr0 & Hum0) by done.
  clearbody w0. rewrite <- Ec0 in Ec.
  assert (event_id_ conn = 0 → err ≠ []) as Hne.
  { intros Hz Ee%Herr. rewrite (Hidle conn eq_refl Hz) in Ee. by destruct Ee as (? & ? & _). }
  destruct (reply_ok e (now_ x) x cid conn err (retry_of r) w0 t Hok0 Ec Hne Ht) as (um & qu & qs & ls & b & t1 & -> & Ha).
  cbn [mbind option_bind].
  assert (event_id_ conn = 0 → need_close || close = true) as Hcl.
  { intros Hz. rewrite Hclose by (by apply (Hidle conn)). by rewrite orb_true_r. }
  pose proof (released_ok e (loop_room e + n) x cid conn _ um qu qs ls b (need_close || close) w0 t t1 Hok0 Hs0 Hr0 Ec Hlast Ha Hcl) as Hrel.
  cbv zeta in Hrel. set (w2 := if need_close || close then _ else _) in *. clearbody w2.
  apply (handled_more _ _ _ (may_drop x cid r w)) in Hrel.
  2:{ intros i (-> & Hz & Hwhy). destruct (co_flight _ _ _ _ _ _ _ (wo_core _ _ _ Hok0) _ _ Ec Hz) as (u & _ & Eu & _).
      exists conn, u. rewrite <- Ec0, <- Hum0. split_and!; [done..|]. destruct Hwhy as [He|(u' & Eu' & Hd)]; [left; by apply Herr|right].
      by assert (u' = u) as <- by congruence. }
  apply (handled_same _ _ _ w) in Hrel; [|done]. destruct need_close.
  - exists (send CloseLater w2), t1. split; [done|]. split; [|left; right; left; cbn; apply elem_of_app; right; by left].
    apply handled_outs. destruct Hrel. split; try done. by apply (room_le (loop_room e + n)); [lia|].
  - destruct (loop_ok e connections_positive n x w2 t1 (hd_ok _ _ _ _ _ _ _ _ Hrel) (hd_sockets _ _ _ _ _ _ _ _ Hrel)
      (hd_room _ _ _ _ _ _ _ _ Hrel) (qk_ok _ _ _ _ _ (hd_queue _ _ _ _ _ _ _ _ Hrel))) as (w3 & t3 & E3 & Hh3 & Hatt).
    exists w3, t3. split; [exact E3|]. split.
    + eapply handled_trans; [exact Hrel|]. eapply handled_more; [|exact Hh3]. done.
    + left. destruct (stop_flag_ w3) eqn:Es; [by left|]. right; right. by apply Hatt.
Qed.

Definition none : Z → Prop := fun _ => False.

(** The loop after a change that leaves the updates alone. *)
Lemma then_loop n x (w w1 : webhook) t :
  update_map_ w1 = update_map_ w → actor_ok e (now_ x) w1 → sockets_ok e w1 → room (loop_room e + n) w1 → tqueue_ok t →
  ∃ w' t', loop e x w1 t = Some (w', t') ∧ handled e n none x w w' t t' ∧ goes_on w'.
Proof.
  intros Eu Hok Hsock Hroom Ht. destruct (loop_ok e connections_positive n x w1 t Hok Hsock Hroom Ht) as (w' & t' & E & Hh & Hatt).
  exists w', t'. split; [done|]. split; [by apply (handled_same _ _ _ _ w1)|].
  destruct (stop_flag_ w') eqn:Es; [by left|]. right; right. by apply Hatt.
Qed.

Lemma error_loop n x status (w w1 : webhook) t :
  update_map_ w1 = update_map_ w → actor_ok e (now_ x) w1 → sockets_ok e w1 → room (loop_room e + n) w1 → tqueue_ok t →
  ∃ w' t', (w2 ← on_error status w1; loop e x w2 t) = Some (w', t') ∧ handled e n none x w w' t t' ∧ goes_on w'.
Proof.
  intros Eu Hok Hsock Hroom Ht. destruct (on_error_ok e (now_ x) status w1 Hok) as (o & cb & st & -> & Hcb & Hst & Hmore).
  cbn [mbind option_bind]. apply then_loop; try done. by apply actor_error.
Qed.

Lemma relax_shape wakeup (w : webhook) : ∃ v, relax_wakeup_at wakeup w = set_actor_wakeup_at_ v w.
Proof. unfold relax_wakeup_at. destruct (_ || _); [by eexists|]. exists (actor_wakeup_at_ w). by destruct w. Qed.

(** What [on_resolved_ip_address] sets before it looks at the answer. *)
Lemma actor_resolved now (w : webhook) r v at_ : actor_ok e now w →
  actor_ok e now (set_actor_wakeup_at_ v (set_next_ip_address_resolve_time_ at_ (set_is_ip_address_being_resolved_ r w))).
Proof. intros []. by split. Qed.

Lemma actor_address now (w : webhook) addr g o : actor_ok e now w → ip_is_valid addr = true →
  actor_ok e now (set_outs o (set_ip_generation_ g (set_ip_address_ addr w))).
Proof. intros [] Hv. split; try done. intros _. by left. Qed.

Lemma on_resolved_ok n x r (w : webhook) t :
  actor_ok e (now_ x) w → sockets_ok e w → room (loop_room e + n) w → tqueue_ok t → is_ip_address_being_resolved_ w = true →
  ∃ w' t', on_resolved_ip_address e x r w t = Some (w', t') ∧ handled e n none x w w' t t' ∧ goes_on w'.
Proof.
  intros Hok Hsock Hroom Ht Hres. unfold on_resolved_ip_address. rewrite Hres. cbn [CHECK].
  destruct (relax_shape (next_ip_address_resolve_time_ (set_next_ip_address_resolve_time_
    (now_ x + inject_Z (IP_ADDRESS_CACHE_TIME + random_ x))%Q (set_is_ip_address_being_resolved_ false w)))
    (set_next_ip_address_resolve_time_ (now_ x + inject_Z (IP_ADDRESS_CACHE_TIME + random_ x))%Q (set_is_ip_address_being_resolved_ false w))) as [v ->].
  pose proof (actor_resolved (now_ x) w false v (now_ x + inject_Z (IP_ADDRESS_CACHE_TIME + random_ x))%Q Hok) as Hok1.
  set (w1 := set_actor_wakeup_at_ v _) in *.
  assert (sockets_ok e w1 ∧ room (loop_room e + n) w1 ∧ update_map_ w1 = update_map_ w) as (Hs1 & Hr1 & Hu1) by done.
  clearbody w1. destruct r as [addr|error]; [|by apply error_loop].
  destruct (check_ip_address_total e blocks_parse addr) as [status Ecs]. rewrite Ecs. cbn [mbind option_bind].
  destruct status as [error|]; [by apply error_loop|].
  assert (ip_is_valid addr = true) as Hv.
  { unfold check_ip_address in Ecs. by destruct (ip_is_valid addr). }
  cbn [mbind option_bind]. destruct (negb (ip_eqb (ip_address_ w1) addr)); [|by apply then_loop].
  set (w2 := set_ip_generation_ _ _).
  assert (∃ o, (if was_checked_ w2 then on_webhook_verified e w2 else w2) = set_outs o w2) as [o ->].
  { destruct (was_checked_ w2); [by eexists|]. exists (outs w2). done. }
  apply then_loop; try done. by apply actor_address.
Qed.

Lemma create_error_loop n x m error b (w : webhook) t :
  actor_ok e (now_ x) w → sockets_ok e w → room (loop_room e + n) w → tqueue_ok t →
  ∃ w' t', (w2 ← create_webhook_error m error b w; loop e x w2 t) = Some (w', t') ∧ handled e n none x w w' t t' ∧ goes_on w'.
Proof.
  intros Hok Hsock Hroom Ht. unfold create_webhook_error.
  destruct (on_webhook_error_ok (if b then m ++ lit ": " ++ public_message error else m) w) as (o & -> & _).
  apply error_loop; try done. by apply actor_outs.
Qed.

Lemma on_ssl_ok n x r (w : webhook) t :
  actor_ok e (now_ x) w → sockets_ok e w → room (loop_room e + n) w → tqueue_ok t →
  ∃ w' t', on_ssl_context_created e x r w t = Some (w', t') ∧ handled e n none x w w' t t' ∧ goes_on w'.
Proof.
  intros Hok Hsock Hroom Ht. destruct r as [error|]; cbn [on_ssl_context_created]; [by apply create_error_loop|].
  apply then_loop; try done. destruct Hok. by split.
Qed.

Lemma actor_socket now (w : webhook) d l : actor_ok e now w → st_wf d → actor_ok e now (set_ready_sockets_ l (set_pending_sockets_ d w)).
Proof. intros [] Hd. by split. Qed.

Lemma on_socket_ok n x r id (w : webhook) t :
  actor_ok e (now_ x) w → sockets_ok e w → room (loop_room e + n) w → tqueue_ok t →
  is_Some (st_contents (pending_sockets_ w) !! id) → @st_last unit D _ id = false →
  ∃ w' t', on_socket_ready_async e x r id w t = Some (w', t') ∧ handled e n none x w w' t t' ∧ goes_on w'.
Proof.
  intros Hok Hsock Hroom Ht [u Eu] Hlast. unfold on_socket_ready_async.
  pose proof (wo_pending _ _ _ Hok) as Hwf. pose proof (ids_erase _ _ _ Hwf Eu Hlast) as Hids.
  assert (st_wf (st_erase (pending_sockets_ w) id)) as Hwf' by (apply st_erase_wf; eauto).
  assert (∀ m, st_room (pending_sockets_ w) m → st_room (st_erase (pending_sockets_ w) id) m) as Hr by (intros m; by apply st_room_erase).
  set (d := st_erase (pending_sockets_ w) id) in *. clearbody d.
  assert (room (loop_room e + n) (set_pending_sockets_ d w)) as Hroom' by (destruct Hroom as [? ?]; split; [done|by apply Hr]).
  destruct r as [socket|error].
  - apply then_loop; try done; [by apply actor_socket|].
    unfold sockets_ok, all_sockets, connection_count, pending_count in *. cbn. rewrite slen_app. change (slen [socket]) with 1. lia.
  - destruct (on_webhook_error_ok error (set_pending_sockets_ d w)) as (o & -> & _). apply error_loop; try done.
    + pose proof (actor_socket (now_ x) w d (ready_sockets_ w) Hok Hwf') as Hok1. by apply (actor_outs e (now_ x) _ o) in Hok1.
    + unfold sockets_ok, all_sockets, connection_count, pending_count in *. cbn. lia.
Qed.

(** *** Steps and runs *)

(** What the other actors keep to: an address or a socket is only sent when it was
    asked for, and there is room for new connections. *)
Definition allowed (ev : wevent) (w : webhook) : Prop :=
  room (loop_room e + loop_room e) w
  ∧ match ev with
    | ResolvedIpAddress _ => is_ip_address_being_resolved_ w = true
    | SocketReady _ id => is_Some (st_contents (pending_sockets_ w) !! id) ∧ @st_last unit D _ id = false
    | Response cid r => known cid r w
    | HangupShared cid => known cid None w
    | _ => True
    end.

(** The updates that an event may drop. *)
Definition gone (x : io) (ev : wevent) (w : webhook) (id : Z) : Prop :=
  match ev with
  | Response cid r => may_drop x cid r w id
  | HangupShared cid => may_drop x cid None w id
  | _ => False
  end.

(** The events that end the actor. *)
Definition ends (ev : wevent) : bool := match ev with Hangup | Close => true | _ => false end.

Lemma goes_on_outs (w : webhook) a :
  goes_on w → (∀ at_, a ≠ SetTimeoutAt at_) → goes_on (send a w).
Proof.
  intros [?|[Hc|[Ha Ht]]] Hn; [by left|right; left; cbn; apply elem_of_app; by left|].
  right; right. split; [done|]. intros Haw. cbn. rewrite timer_of_snoc. specialize (Ht Haw). destruct a; try done. by destruct (Hn at_).
Qed.

Lemma hangup_shared_ok x cid (w : webhook) t :
  actor_ok e (now_ x) w → sockets_ok e w → room (loop_room e + loop_room e) w → tqueue_ok t → known cid None w →
  ∃ w' t', hangup_shared e x cid w t = Some (w', t') ∧ handled e 0 (may_drop x cid None w) x w w' t t' ∧ goes_on w'.
Proof.
  intros Hok Hsock Hroom Ht Hkn. unfold hangup_shared.
  destruct (handle_ok (loop_room e) x cid None w t Hok Hsock Hroom Ht Hkn) as (w1 & t1 & -> & Hh & _). cbn [mbind option_bind].
  assert (room (loop_room e + 0) w1) as Hr1 by (rewrite Nat.add_0_r; apply Hh).
  destruct (then_loop 0 x w1 w1 t1 eq_refl (hd_ok _ _ _ _ _ _ _ _ Hh) (hd_sockets _ _ _ _ _ _ _ _ Hh) Hr1
    (qk_ok _ _ _ _ _ (hd_queue _ _ _ _ _ _ _ _ Hh))) as (w2 & t2 & E & Hh2 & Hg).
  exists w2, t2. split; [done|]. split; [|done]. eapply handled_trans; [exact Hh|]. eapply handled_more; [|exact Hh2]. done.
Qed.

Lemma kept_same g (w w' : webhook) : update_map_ w' = update_map_ w → updates_kept g w w'.
Proof. intros E id u Hu _. exists u. by rewrite E. Qed.

Lemma step_ok x ev (w : webhook) t :
  actor_ok e (now_ x) w → sockets_ok e w → tqueue_ok t → allowed ev w → goes_on w →
  ∃ w' t', step e x ev w t = Some (w', t')
    ∧ updates_kept (gone x ev w) w w' ∧ queue_kept e (gone x ev w) (get_unix_time e (now_ x)) t t'
    ∧ if ends ev then Stop ∈ outs w' else actor_ok e (now_ x) w' ∧ sockets_ok e w' ∧ goes_on w'.
Proof.
  intros Hok Hsock Ht [Hroom Hev] Hgo.
  assert (room (loop_room e + 0) w) as Hroom1 by (apply (room_le (loop_room e + loop_room e)); [lia|done]).
  assert (∀ g w' t', handled e 0 g x w w' t t' ∧ goes_on w' → updates_kept g w w'
    ∧ queue_kept e g (get_unix_time e (now_ x)) t t' ∧ actor_ok e (now_ x) w' ∧ sockets_ok e w' ∧ goes_on w') as Hend
    by (intros g w' t' (Hh & Hg); by destruct Hh).
  destruct ev; cbn [step ends gone].
  - destruct (then_loop 0 x w w t eq_refl Hok Hsock Hroom1 Ht) as (w' & t' & -> & Hh). exists w', t'. split; [done|]. by apply Hend.
  - assert (actor_ok e (now_ x) (set_tqueue_empty_ false w)) as Hok1 by (destruct Hok; by split). unfold update.
    destruct (then_loop 0 x w (set_tqueue_empty_ false w) t eq_refl Hok1 Hsock Hroom1 Ht) as (w' & t' & -> & Hh).
    exists w', t'. split; [done|]. by apply Hend.
  - destruct (on_resolved_ok 0 x r w t Hok Hsock Hroom1 Ht Hev) as (w' & t' & -> & Hh). exists w', t'. split; [done|]. by apply Hend.
  - destruct (on_ssl_ok 0 x r w t Hok Hsock Hroom1 Ht) as (w' & t' & -> & Hh). exists w', t'. split; [done|]. by apply Hend.
  - destruct Hev as [Hid Hlast]. destruct (on_socket_ok 0 x r id w t Hok Hsock Hroom1 Ht Hid Hlast) as (w' & t' & -> & Hh).
    exists w', t'. split; [done|]. by apply Hend.
  - destruct (handle_ok 0 x connection r w t Hok Hsock Hroom1 Ht Hev) as (w' & t' & -> & Hh & Hg). exists w', t'.
    split; [done|]. apply Hend. split; [done|]. by destruct Hg as [| ->].
  - destruct (hangup_shared_ok x connection w t Hok Hsock Hroom Ht Hev) as (w' & t' & -> & Hh). exists w', t'. split; [done|]. by apply Hend.
  - eexists _, t. split; [done|]. unfold on_connection_error, on_webhook_error. destruct (was_checked_ w).
    + split; [by apply kept_same|]. split; [by apply queue_kept_refl|]. split; [by apply actor_outs|]. split; [done|]. by apply goes_on_outs.
    + split; [by apply kept_same|]. split; [by apply queue_kept_refl|]. done.
  - eexists _, t. split; [done|]. split; [by apply kept_same|]. split; [by apply queue_kept_refl|]. cbn. apply elem_of_app. right. by left.
  - eexists _, t. split; [done|]. split; [by apply kept_same|]. split; [by apply queue_kept_refl|]. cbn. apply elem_of_app. right. by left.
Qed.

Lemma webhook_flood_later limits f last now acc : flood_ok limits f last acc → (last <= now)%Q → flood_ok limits f now acc.
Proof.
  intros [H0' Hb Hw Hwait] Hle. split; [by eapply Qle_trans| |done|destruct Hwait; [left; by eapply Qle_trans|by right]].
  eapply Forall2_impl; [exact Hb|]. intros l b Hok. eapply bucket_later; [exact Hok|exact Hle].
Qed.

Lemma actor_later last now (w : webhook) : actor_ok e last w → (last <= now)%Q → actor_ok e now w.
Proof.
  intros [? ? ? ? ? ? ? [acc1 Hf1] [acc2 Hf2] ? ? ?] Hle. split; try done; [exists acc1|exists acc2]; by eapply webhook_flood_later.
Qed.

(** [start_up] before the checks of the address. *)
Definition started (now resolve_at : Q) (w : webhook) : webhook :=
  set_pending_new_connection_flood_ (add_limit (pending_new_connection_flood_ w) 2 1)
    (set_active_new_connection_flood_ (add_limit (active_new_connection_flood_ w) (1 # 2) 10)
       (set_next_ip_address_resolve_time_ resolve_at
          (set_last_success_time_ (now - inject_Z (2 * IP_ADDRESS_CACHE_TIME))%Q
             (set_max_loaded_updates_ (max_connections_ e * 2) w)))).

(** All of [actor_ok] but what [start_up] still has to check. *)
Lemma started_ok now at_ addr (w : webhook) (cached : option IPAddress) :
  (0 <= now)%Q → new_webhook e cached = Some w →
  ∀ st, (fix_ip_address_ e = true → ip_is_valid addr = true ∨ st = true) → addr = ip_address_ w →
  actor_ok e now (set_stop_flag_ st (set_callback_ (negb st) (started now at_ w)))
  ∧ all_sockets w = 0 ∧ queues_ w = [] ∧ was_checked_ w = false ∧ callback_ w = true ∧ stop_flag_ w = false.
Proof.
  intros Hnow Ew st Hfix Haddr. unfold new_webhook in Ew. rewrite (proj2 (Z.ltb_lt _ _)) in Ew by done. cbn [CHECK] in Ew.
  destruct (match cached with Some addr => _ | None => _ end) as [ip|]; [|done]. cbn [mbind option_bind] in Ew. injection Ew as <-.
  assert (∀ A T (H : IdStore A T), IdStoreLaws A T → st_ids (st_empty : T) = []) as Hempty.
  { intros A T ? ?. destruct (st_ids st_empty) as [|id ids] eqn:E; [done|].
    assert (is_Some (st_contents (st_empty : T) !! id)) as Hid by (apply st_ids_contents; [apply st_empty_wf|rewrite E; by left]).
    rewrite st_empty_contents, lookup_empty in Hid. by destruct Hid. }
  assert (∀ d c, limit_ok (d, c) → ∃ acc, flood_ok [(d, c)] (add_limit new_flood_control d c) now acc) as Hflood.
  { intros d c Hd. exists []. eapply webhook_flood_later; [|exact Hnow]. exact (with_limits_ok [(d, c)] (proj2 (Forall_singleton _ _) Hd)). }
  split.
  - split; cbn; try done.
    + unfold contents. cbn. rewrite st_empty_contents. apply core_empty.
    + apply st_empty_wf.
    + apply st_empty_wf.
    + unfold queue_count. cbn. rewrite map_size_empty. lia.
    + apply Hflood. vm_compute. split; congruence.
    + apply Hflood. vm_compute. split; congruence.
    + cbn in Haddr. by rewrite <- Haddr.
  - split_and!; try done. unfold all_sockets, connection_count, pending_count. cbn. by rewrite !Hempty.
Qed.

Lemma on_error_new status (w : webhook) :
  was_checked_ w = false → callback_ w = true → stop_flag_ w = false →
  on_error status w = Some (set_stop_flag_ true (set_callback_ false (set_outs (outs w ++ [WebhookClosed (Some status)]) w))).
Proof. intros Ew Ec Es. unfold on_error. by rewrite Ew, Es, Ec. Qed.

Lemma start_end (w : webhook) :
  was_checked_ w = false →
  ∃ b o, (let w := if from_db_flag_ e && negb (stop_flag_ w) then on_webhook_verified e (set_was_checked_ true w) else w in
          let w := if url_is_https e && negb (stop_flag_ w) then send CreateSslContext w else w in
          Some (send Yield w)) = Some (set_outs o (set_was_checked_ b w))
    ∧ (stop_flag_ w = true → b = false).
Proof.
  intros Ew. cbv zeta.
  assert (∃ b o, (if from_db_flag_ e && negb (stop_flag_ w) then on_webhook_verified e (set_was_checked_ true w) else w) = set_outs o (set_was_checked_ b w)
    ∧ (stop_flag_ w = true → b = false)) as (b & o & -> & Hb).
  { destruct (from_db_flag_ e && negb (stop_flag_ w)) eqn:E.
    - eexists true, _. split; [done|]. intros Es. by rewrite Es, andb_false_r in E.
    - exists false, (outs w). split; [by rewrite <- Ew; destruct w|done]. }
  exists b. destruct (url_is_https e && _); by eexists.
Qed.

Lemma settle_flags (w : webhook) o : callback_ w = true → stop_flag_ w = false →
  set_outs o w = set_stop_flag_ false (set_callback_ true (set_outs o w)).
Proof. destruct w; cbn. by intros -> ->. Qed.

(** The checks of [start_up], as far as they matter: whether they ended with an error. *)
Lemma start_up_checks_ok (w : webhook) :
  was_checked_ w = false → callback_ w = true → stop_flag_ w = false →
  ∃ st b o, start_up_checks e w = Some (set_outs o (set_was_checked_ b (set_stop_flag_ st (set_callback_ (negb st) w))))
    ∧ (st = true → b = false) ∧ (fix_ip_address_ e = true → ip_is_valid (ip_address_ w) = true ∨ st = true).
Proof.
  intros Ew Ec Es. unfold start_up_checks.
  assert (∃ st o,
    (if negb (local_mode_ e) then
         if url_is_https e then
           if negb (url_port e =? 443) && negb (url_port e =? 88) && negb (url_port e =? 80) && negb (url_port e =? 8443)
           then on_error (lit "Webhook can be set up only on ports 80, 88, 443 or 8443") w
           else Some w
         else on_error (lit "An HTTPS URL must be provided for webhook") w
       else Some w) = Some (set_stop_flag_ st (set_callback_ (negb st) (set_outs o w)))) as (st & o & ->).
  { assert (∃ st o, Some w = Some (set_stop_flag_ st (set_callback_ (negb st) (set_outs o w)))) as Hsome.
    { exists false, (outs w). rewrite <- settle_flags by done. by destruct w. }
    destruct (negb (local_mode_ e)); [|exact Hsome].
    destruct (url_is_https e); [destruct (_ && _); [|exact Hsome]|]; rewrite on_error_new by done; by eexists true, _. }
  rewrite bind_value. set (w1 := set_stop_flag_ st _).
  assert (was_checked_ w1 = false ∧ ip_address_ w1 = ip_address_ w ∧ stop_flag_ w1 = st ∧ callback_ w1 = negb st) as (Ew1 & Eip & Es1 & Ec1) by done.
  assert (∀ st' o', set_stop_flag_ st' (set_callback_ (negb st') (set_outs o' w1)) = set_outs o' (set_was_checked_ false (set_stop_flag_ st' (set_callback_ (negb st') w)))) as Eflags.
  { intros st' o'. unfold w1. rewrite <- Ew. by destruct w. }
  assert (∀ b o', set_outs o' (set_was_checked_ b w1) = set_outs o' (set_was_checked_ b (set_stop_flag_ st (set_callback_ (negb st) w)))) as Eend by done.
  clearbody w1. rewrite Eip, Es1.
  destruct (start_end w1 Ew1) as (b & o1 & Hend & Hb). cbv zeta in Hend. rewrite Es1, Eend in Hend. rewrite Es1 in Hb.
  destruct (check_ip_address_total e blocks_parse (ip_address_ w)) as [status Ecs].
  destruct (fix_ip_address_ e && negb st) eqn:Ef.
  - apply andb_true_iff in Ef as [Ef ->%negb_true_iff]. rewrite Ecs, bind_value. destruct status as [error|].
    + rewrite on_error_new by done. eexists true, false, _. split; [by rewrite <- Eflags|]. split; [done|by right].
    + assert (ip_is_valid (ip_address_ w) = true) as Hv by (unfold check_ip_address in Ecs; by destruct (ip_is_valid (ip_address_ w))).
      eexists false, b, o1. split; [exact Hend|]. split; [done|by left].
  - rewrite bind_value. eexists st, b, o1. split; [exact Hend|]. split; [done|]. intros Hf. rewrite Hf in Ef. right. by apply negb_false_iff.
Qed.

Lemma actor_checked now (w : webhook) b o : actor_ok e now w → (stop_flag_ w = true → b = false) →
  actor_ok e now (set_outs o (set_was_checked_ b w)).
Proof. intros [] Hb. by split. Qed.

Lemma webhook_start_up_ok cached x (w0 : webhook) :
  (0 <= now_ x)%Q → new_webhook e cached = Some w0 →
  ∃ w, start_up e x w0 = Some w ∧ actor_ok e (now_ x) w ∧ sockets_ok e w ∧ goes_on w.
Proof.
  intros Hnow Enew.
  set (at_ := if from_db_flag_ e then (now_ x + inject_Z (random_ x))%Q else (now_ x - inject_Z (2 * IP_ADDRESS_CACHE_TIME))%Q).
  assert (start_up e x w0 = start_up_checks e (started (now_ x) at_ w0)) as -> by (unfold start_up, at_; by destruct (from_db_flag_ e)).
  destruct (started_ok (now_ x) at_ (ip_address_ w0) w0 cached Hnow Enew true ltac:(by right) eq_refl) as (_ & Hs & Hq & Ew & Ec & Es).
  destruct (start_up_checks_ok (started (now_ x) at_ w0) Ew Ec Es) as (st & b & o & -> & Hb & Hfix).
  destruct (started_ok (now_ x) at_ (ip_address_ w0) w0 cached Hnow Enew st Hfix eq_refl) as (Hok & _).
  eexists. split; [done|]. split_and!.
  - by apply actor_checked.
  - unfold sockets_ok. change (all_sockets w0 <= max_connections_ e). lia.
  - right; right. split; [by left|]. intros Haw. unfold awake in Haw. cbn in Haw. unfold new_webhook in Enew.
    destruct (0 <? max_connections_ e); [|done]. cbn [CHECK] in Enew.
    destruct (match cached with Some addr => _ | None => _ end) as [ip|]; [|done]. cbn [mbind option_bind] in Enew. by injection Enew as <-.
Qed.

(** *** What no event takes back

    The context of TLS stays once it is there, only the answer to the request for
    it sets it; what was sent stays sent, and an actor that stops does not resume. *)
Record tame (w w' : webhook) : Prop := {
  tm_ssl : ssl_ctx_ w' = ssl_ctx_ w;
  tm_outs : outs w `prefix_of` outs w';
  tm_stop : stop_flag_ w = true → stop_flag_ w' = true
}.

#[local] Instance tame_preorder : PreOrder tame.
Proof.
  split; [by split|]. intros w1 w2 w3 [] []. split; [congruence|by etrans|auto].
Qed.

Lemma tame_sent (w w' w2 : webhook) l : tame w w' →
  ssl_ctx_ w2 = ssl_ctx_ w' → outs w2 = outs w' ++ l → stop_flag_ w2 = stop_flag_ w' → tame w w2.
Proof.
  intros [E Ho Hs] E2 Ho2 Hs2. split; [congruence| |by rewrite Hs2]. rewrite Ho2. by apply prefix_app_r.
Qed.
Lemma tame_same (w w' w2 : webhook) : tame w w' →
  ssl_ctx_ w2 = ssl_ctx_ w' → outs w2 = outs w' → stop_flag_ w2 = stop_flag_ w' → tame w w2.
Proof. intros Ht E Ho Hs. apply (tame_sent w w' w2 []); [done..|by rewrite app_nil_r|done]. Qed.

(** Opens what returned a value, and follows the changes of a state back. *)
Ltac opened := repeat match goal with
  | H : None = Some _ |- _ => discriminate H
  | H : Some _ = Some _ |- _ => injection H as H; subst
  | H : (_, _) = (_, _) |- _ => injection H as H; subst
  | H : (_ ≫= _) = Some _ |- _ => let y := fresh "y" in let E := fresh "E" in apply bind_Some in H as (y & E & H)
  | H : CHECK ?b _ = Some _ |- _ => destruct b; cbn [CHECK] in H; [|discriminate H]
  | H : (let '(_, _) := ?y in _) = _ |- _ => destruct y eqn:?
  | H : (if ?b then _ else _) = _ |- _ => destruct b eqn:?
  | H : match ?y with _ => _ end = _ |- _ => destruct y eqn:?
  end.

Lemma tame_stops (w w' : webhook) : tame w w' → tame w (set_stop_flag_ true w').
Proof. intros []. by split. Qed.

Lemma relax_tame at_ (w w' : webhook) : tame w w' → tame w (relax_wakeup_at at_ w').
Proof. intros. unfold relax_wakeup_at. destruct (_ || _); [by apply (tame_same w w')|done]. Qed.
Lemma verified_tame (w w' : webhook) : tame w w' → tame w (on_webhook_verified e w').
Proof. intros. unfold on_webhook_verified. by eapply (tame_sent w w'). Qed.
Lemma webhook_error_tame error (w w' : webhook) : tame w w' → tame w (on_webhook_error error w').
Proof. intros. unfold on_webhook_error. destruct (was_checked_ w'); [by eapply (tame_sent w w')|done]. Qed.

(** The state reached by changes that keep to [tame] from one that does. *)
Ltac tamed := repeat match goal with
  | |- tame ?w ?w => reflexivity
  | |- tame _ (let '(_, _) := ?y in _) => destruct y
  | |- tame _ (if ?b then _ else _) => destruct b
  | |- tame _ (relax_wakeup_at _ _) => apply relax_tame
  | |- tame _ (on_webhook_verified e _) => apply verified_tame
  | |- tame _ (on_webhook_error _ _) => apply webhook_error_tame
  | |- tame ?w (send ?a ?w') => apply (tame_sent w w' _ [a]); [|done..]
  | |- tame ?w (set_stop_flag_ true ?w') => apply tame_stops
  | |- tame ?w (?f _ ?w') => apply (tame_same w w' _); [|done..]
  | H : ?y = Some ?w' |- tame ?w ?w' => etrans; [clear H|solve [eauto 2 with tame]]
  | H : ?y = Some (_, ?w') |- tame ?w ?w' => etrans; [clear H|solve [eauto 2 with tame]]
  | H : ?y = Some (?w', _) |- tame ?w ?w' => etrans; [clear H|solve [eauto 2 with tame]]
  | H : ?y = Some (_, ?w', _) |- tame ?w ?w' => etrans; [clear H|solve [eauto 2 with tame]]
  | H : ?y = Some (_, _, ?w', _) |- tame ?w ?w' => etrans; [clear H|solve [eauto 2 with tame]]
  | H : tame _ ?w' |- tame _ ?w' => etrans; [clear H|exact H]
  end.

Lemma on_error_tame status (w w' : webhook) : on_error status w = Some w' → tame w w'.
Proof. unfold on_error. intros E. opened; tamed. Qed.
#[local] Hint Resolve on_error_tame : tame.

Lemma create_webhook_error_tame m error b (w w' : webhook) : create_webhook_error m error b w = Some w' → tame w w'.
Proof. unfold create_webhook_error. intros E. tamed. Qed.
#[local] Hint Resolve create_webhook_error_tame : tame.

Lemma create_connection_fd_tame x n ok (w w' : webhook) : create_connection_fd e x n w = Some (ok, w') → tame w w'.
Proof. unfold create_connection_fd. intros E. opened; tamed. Qed.
#[local] Hint Resolve create_connection_fd_tame : tame.

Lemma create_connection_tame x n ok (w w' : webhook) : create_connection e x n w = Some (ok, w') → tame w w'.
Proof. unfold create_connection. intros E. opened; tamed. Qed.
#[local] Hint Resolve create_connection_tame : tame.

Lemma open_connections_tame x need active fuel ok (w w' : webhook) :
  open_connections e fuel x need active w = Some (ok, w') → tame w w'.
Proof.
  revert w. induction fuel as [|fuel IH]; intros w; cbn [open_connections]; [done|]. intros E. destruct active; opened; tamed.
Qed.
#[local] Hint Resolve open_connections_tame : tame.

Lemma use_sockets_tame sockets x need (w w' : webhook) : use_sockets e sockets x need w = Some w' → tame w w'.
Proof.
  revert w. induction sockets as [|s sockets IH]; intros w; cbn [use_sockets]; intros E; opened; tamed.
Qed.
#[local] Hint Resolve use_sockets_tame : tame.

Lemma create_new_connections_tame x (w w' : webhook) : create_new_connections e x w = Some w' → tame w w'.
Proof. unfold create_new_connections. intros E. cbv zeta in E. opened; tamed. Qed.
#[local] Hint Resolve create_new_connections_tame : tame.

Lemma load_update_tame now unix_time event (w w' : webhook) : load_update now unix_time event w = Some w' → tame w w'.
Proof. unfold load_update. intros E. opened; tamed. Qed.
#[local] Hint Resolve load_update_tame : tame.

Lemma load_each_tame now unix_time updates (w w' : webhook) : load_each now unix_time updates w = Some w' → tame w w'.
Proof. revert w. induction updates as [|event updates IH]; intros w; cbn [load_each]; intros E; opened; tamed. Qed.
#[local] Hint Resolve load_each_tame : tame.

Lemma get_updates_tame now limit total l (w w' : webhook) (t t' : tqueue S) :
  WebhookActor.get_updates e now limit w t = Some (total, l, w', t') → tame w w'.
Proof. unfold WebhookActor.get_updates. intros E. opened; tamed. Qed.
#[local] Hint Resolve get_updates_tame : tame.

Lemma load_updates_tame x (w w' : webhook) (t t' : tqueue S) : load_updates e x w t = Some (w', t') → tame w w'.
Proof. unfold load_updates. intros E. cbv zeta in E. opened; tamed. Qed.
#[local] Hint Resolve load_updates_tame : tame.

Lemma send_updates_tame fuel now (w w' : webhook) : send_updates e fuel now w = Some w' → tame w w'.
Proof.
  revert w. induction fuel as [|fuel IH]; intros w; cbn [send_updates]; [done|]. unfold send_update. intros E.
  opened; tamed; (etrans; [clear E|by apply IH]); tamed.
Qed.
#[local] Hint Resolve send_updates_tame : tame.

Lemma resolve_tame x (w w' : webhook) : tame w w' → tame w (resolve_ip_address e x w').
Proof. intros. unfold resolve_ip_address. tamed. Qed.

Lemma loop_tame x (w w' : webhook) (t t' : tqueue S) : loop e x w t = Some (w', t') → tame w w'.
Proof.
  unfold loop. intros E. cbv zeta in E. opened; tamed; try apply resolve_tame; tamed.
Qed.
#[local] Hint Resolve loop_tame : tame.

Lemma drop_event_tame id (w w' : webhook) (t t' : tqueue S) : drop_event e id w t = Some (w', t') → tame w w'.
Proof. unfold drop_event. intros E. cbv zeta in E. opened; tamed. Qed.
#[local] Hint Resolve drop_event_tame : tame.

Lemma on_update_ok_tame now id (w w' : webhook) (t t' : tqueue S) : on_update_ok e now id w t = Some (w', t') → tame w w'.
Proof. unfold on_update_ok. intros E. cbv zeta in E. opened; tamed. Qed.
Lemma on_update_error_tame x id after (w w' : webhook) (t t' : tqueue S) : on_update_error e x id after w t = Some (w', t') → tame w w'.
Proof. unfold on_update_error. intros E. cbv zeta in E. opened; tamed. Qed.
#[local] Hint Resolve on_update_ok_tame on_update_error_tame : tame.

Lemma handle_response_tame x r err after closes (w w' : webhook) : handle_response e x r w = (err, after, closes, w') → tame w w'.
Proof. unfold handle_response. intros E. cbv zeta in E. opened; tamed. Qed.

Lemma handle_tame x cid r (w w' : webhook) (t t' : tqueue S) : handle e x cid r w t = Some (w', t') → tame w w'.
Proof.
  unfold handle. intros E. destruct (st_get (connections_ w) cid) as [conn|]; [|by opened].
  destruct (match r with Some _ => _ | None => _ end) as [[[[err after] closes] disconnects] w0] eqn:Er.
  assert (tame w w0) as H0'.
  { destruct r as [r|]; [|injection Er as <- <- <- <- <-; tamed].
    destruct (handle_response e x r w) as [[[? ?] ?] w1] eqn:Er1. injection Er as <- <- <- <- <-. by eapply handle_response_tame. }
  clear Er. cbv zeta in E. apply bind_Some in E as ([w1 t1] & E1 & E).
  assert (tame w0 w1) as H1' by (opened; tamed). clear E1. transitivity w0; [exact H0'|]. transitivity w1; [exact H1'|].
  destruct (closes || disconnects), closes; opened; tamed.
Qed.
#[local] Hint Resolve handle_tame : tame.




(** The runs of an actor, with the time of its last event.  Between two events
    the shared [TQueue] may have changed in any way; after [Stop] nothing comes. *)
Inductive reach : Q → webhook → Prop :=
| reach_start x cached w0 w :
    (0 <= now_ x)%Q → new_webhook e cached = Some w0 → start_up e x w0 = Some w → reach (now_ x) w
| reach_step last x ev w t w' t' :
    reach last w → Stop ∉ outs w → (last <= now_ x)%Q → tqueue_ok t → allowed ev w →
    step e x ev w t = Some (w', t') → reach (now_ x) w'.

Lemma reach_ok last w : reach last w → Stop ∉ outs w → actor_ok e last w ∧ sockets_ok e w ∧ goes_on w.
Proof.
  induction 1 as [x cached w0 w Hnow Enew Est|last x ev w t w' t' _ IH Hns Hle Ht Hall Estep]; intros Hns'.
  - destruct (webhook_start_up_ok cached x w0 Hnow Enew) as (w' & E & ?). rewrite Est in E. by injection E as <-.
  - destruct (IH Hns) as (Hok & Hsock & Hgo). apply (actor_later _ (now_ x)) in Hok; [|done].
    destruct (step_ok x ev w t Hok Hsock Ht Hall Hgo) as (w1 & t1 & E & _ & _ & Hend). rewrite Estep in E. injection E as <- <-.
    destruct (ends ev); [by destruct Hns'|done].
Qed.

(** C7: The delivery never aborts and keeps within its limits: in every run of WebhookActor, whatever the
    webhook, the network and the update queue do, the next event is handled without a failed check; there
    are never more than max_connections_ connections, also counting those that are being made, and never
    more than twice as many loaded queues; and an update that is sent over a connection is the first of its
    queue, with no other update of that queue sent at the same time. *)
Theorem webhook_run_safe last w x ev t :
  reach last w → Stop ∉ outs w → (last <= now_ x)%Q → tqueue_ok t → allowed ev w →
  is_Some (step e x ev w t)
  ∧ connection_count w + pending_count w + slen (ready_sockets_ w) <= max_connections_ e
  ∧ queue_count w <= max_connections_ e * 2
  ∧ ∀ cid conn, contents w !! cid = Some conn → event_id_ conn ≠ 0 →
      ∃ u ids, update_map_ w !! event_id_ conn = Some u ∧ queue_updates_ w !! queue_id_ u = Some (event_id_ conn :: ids)
        ∧ ∀ cid' conn' u', contents w !! cid' = Some conn' → update_map_ w !! event_id_ conn' = Some u' →
            queue_id_ u' = queue_id_ u → cid' = cid.
Proof.
  intros Hreach Hns Hle Ht Hall. destruct (reach_ok last w Hreach Hns) as (Hok & Hsock & Hgo).
  apply (actor_later _ (now_ x)) in Hok; [|done]. pose proof (wo_core _ _ _ Hok) as Hc. split_and!.
  - destruct (step_ok x ev w t Hok Hsock Ht Hall Hgo) as (w1 & t1 & -> & _). eauto.
  - exact Hsock.
  - rewrite <- (wo_max_loaded _ _ _ Hok). apply (wo_loaded _ _ _ Hok).
  - intros cid conn Ec Hz. destruct (co_flight _ _ _ _ _ _ _ Hc _ _ Ec Hz) as (u & ids & Eu & Eq & _).
    exists u, ids. split_and!; [done..|]. intros cid' conn' u' Ec' Eu' Hsame.
    assert (event_id_ conn' ≠ 0) as Hz'.
    { destruct (co_map _ _ _ _ _ _ _ Hc _ _ Eu') as (_ & Hv & _). by apply valid_nonzero. }
    destruct (co_flight _ _ _ _ _ _ _ Hc _ _ Ec' Hz') as (u2 & ids2 & Eu2 & Eq2 & _).
    assert (u2 = u') as -> by congruence. rewrite Hsame, Eq in Eq2. injection Eq2 as E _.
    by apply (co_flight_inj _ _ _ _ _ _ _ Hc _ _ _ _ Ec' Ec).
Qed.

(** C5: No update is lost: in every run of the delivery, an event takes away a loaded update, or an update
    from the bot's queue that has not expired, only if it is the answer for that update, or the end of its
    connection, and the update was accepted, by a 2xx answer, or would have expired before it could be sent
    again; and no queue of another bot is touched. *)
Theorem updates_dropped_only_when_due last w x ev t w' t' :
  reach last w → Stop ∉ outs w → (last <= now_ x)%Q → tqueue_ok t → allowed ev w → step e x ev w t = Some (w', t') →
  (∀ id u, update_map_ w !! id = Some u → ¬ gone x ev w id →
     ∃ u', update_map_ w' !! id = Some u' ∧ json_ u' = json_ u ∧ queue_id_ u' = queue_id_ u ∧ expires_at_ u' = expires_at_ u)
  ∧ (∀ r, r ∈ events (queue_at (tqueue_id_ e) t) → is_dead (get_unix_time e (now_ x)) r = false → ¬ gone x ev w (event_id r) →
       r ∈ events (queue_at (tqueue_id_ e) t'))
  ∧ tqueue_ok t' ∧ ∀ queue_id, queue_id ≠ tqueue_id_ e → TQueue.queues_ t' !! queue_id = TQueue.queues_ t !! queue_id.
Proof.
  intros Hreach Hns Hle Ht Hall Estep. destruct (reach_ok last w Hreach Hns) as (Hok & Hsock & Hgo).
  apply (actor_later _ (now_ x)) in Hok; [|done].
  destruct (step_ok x ev w t Hok Hsock Ht Hall Hgo) as (w1 & t1 & E & Hu & [Hq1 Hq2 Hq3] & _). rewrite Estep in E. injection E as <- <-.
  split_and!; [|exact Hq3|done|done]. intros id u Eu Hg. destruct (Hu id u Eu Hg) as (u' & ? & ? & ? & ? & ?). by exists u'.
Qed.


End Run.

(** ** A run *)

Section RunStep.
Context {C D S : Type} `{IdStoreLaws Connection C} `{IdStoreLaws unit D} `{StorageLaws S} (e : webhook_env).
Context (blocks_parse : Forall (fun b => is_Some (inet_pton4 e b.1)) reserved_blocks).
Context (connections_positive : 0 < max_connections_ e).

Lemma reach_more last x ev (w : @webhook C D) (t : tqueue S) w' t' :
  reach (S := S) e last w → Stop ∉ outs w → (last <= now_ x)%Q → tqueue_ok t → allowed e ev w → step e x ev w t = Some (w', t') →
  reach (S := S) e (now_ x) w' ∧ tqueue_ok t'.
Proof.
  intros Hreach Hns Hle Ht Hall Estep. split; [by eapply reach_step|].
  destruct (reach_ok e blocks_parse connections_positive last w Hreach Hns) as (Hok & Hsock & Hgo).
  apply (actor_later _ _ (now_ x)) in Hok; [|done].
  destruct (step_ok e blocks_parse connections_positive x ev w t Hok Hsock Ht Hall Hgo) as (w1 & t1 & E & _ & Hq & _).
  rewrite Estep in E. injection E as <- <-. apply Hq.
Qed.
End RunStep.

#[export] Instance connection_inhabited : Inhabited Connection := populate (mkConnection 0 0).

(** Queue 7, with two updates that wait, is delivered to a webhook without TLS,
    with at most two connections. *)
Definition demo_env : webhook_env :=
  mkWebhookEnv 7 false (lit "example.org") 80 (lit "/hook") [] (lit "example.org") false false true false false 2 []
    (fun _ => 50) (fun _ => []) (fun _ => Some 0).
Definition demo_io (now : Q) : io := mkIo now 0 (fun _ => None) (fun _ => None).
Definition demo_state : Type := @webhook (container Connection) (container unit) * tqueue TQueueMemoryStorage.
Definition demo_step (now : Q) (ev : wevent) (s : option demo_state) : option demo_state :=
  s ← s; step demo_env (demo_io now) ev s.1 s.2.
Definition demo_started : option demo_state :=
  w ← new_webhook demo_env None; w ← start_up demo_env (demo_io 1) w; Some (w, demo).
Definition demo_loaded : option demo_state := demo_step 2 WakeUp demo_started.
Definition demo_sent : option demo_state := demo_step 3 (ResolvedIpAddress (inl (ip_v4 134744072 80))) demo_loaded.
Definition demo_answer : wevent := Response 256 (Some (mkResponse true true 200 [] [] 0 [])).

Lemma demo_blocks : Forall (fun b => is_Some (inet_pton4 demo_env b.1)) reserved_blocks.
Proof. apply Forall_true. by eexists. Qed.

Definition not_stop (a : waction) : bool := match a with Stop => false | _ => true end.
Definition runs (s : demo_state) : bool := forallb not_stop (outs s.1).

Lemma not_among {A} (f : A → bool) l x : forallb f l = true → f x = false → x ∉ l.
Proof. rewrite forallb_forall. intros Hl Hx Hin%list_elem_of_In%Hl. congruence. Qed.

Lemma runs_on s : runs s = true → Stop ∉ outs s.1.
Proof. intros Hr. by apply (not_among not_stop). Qed.

Definition demo_reached (last : Q) (s : demo_state) : Prop :=
  reach (S := TQueueMemoryStorage) demo_env last s.1 ∧ tqueue_ok s.2 ∧ runs s = true.

Lemma demo_started_reached : ∃ s, demo_started = Some s ∧ demo_reached 1 s.
Proof.
  destruct demo_started as [s|] eqn:E; [|by vm_compute in E]. exists s. split; [done|].
  assert (runs s = true) as Hr by (apply (f_equal (fun o => from_option runs false o)) in E; by vm_compute in E).
  unfold demo_started in E. destruct (new_webhook demo_env None) as [w0|] eqn:E0; [|done]. cbn [mbind option_bind] in E.
  destruct (start_up demo_env (demo_io 1) w0) as [w|] eqn:E1; [|done]. injection E as <-.
  split; [|split; [exact (lv_ok _ demo_live)|done]]. by apply (reach_start demo_env (demo_io 1) None w0 w).
Qed.


Lemma demo_step_reached last now ev (o : option demo_state) :
  (∃ s, o = Some s ∧ demo_reached last s) → (last <= now)%Q → (∀ s, o = Some s → allowed demo_env ev s.1) →
  from_option runs false (demo_step now ev o) = true → ∃ s', demo_step now ev o = Some s' ∧ demo_reached now s'.
Proof.
  intros (s & -> & Hr & Ht & Hs) Hle Hall Hrun. destruct (demo_step now ev (Some s)) as [[w' t']|] eqn:E; [|done].
  exists (w', t'). split; [done|]. destruct s as [w t].
  destruct (reach_more demo_env demo_blocks eq_refl last (demo_io now) ev w t w' t' Hr) as [? ?]; try done.
  - by apply (runs_on (w, t)).
  - by apply (Hall (w, t)).
Qed.

(** What a computed state satisfies. *)
Lemma computed {A B} (f : A → B) (o : option A) (b : B) s : f <$> o = Some b → o = Some s → f s = b.
Proof. intros E ->. by injection E. Qed.

Ltac demo_eval f E := refine (computed f _ _ _ _ E); by vm_compute.

Lemma demo_room (o : option demo_state) n s :
  (fun s => (slen (slots (connections_ s.1)), slen (slots (pending_sockets_ s.1)))) <$> o = Some (n, 0) → n <= 1 → o = Some s →
  room (loop_room demo_env + loop_room demo_env) s.1.
Proof.
  intros E Hn ->. injection E as Ec Ep. split; cbn; unfold has_room; change (Z.of_nat _) with 10; lia.
Qed.

Lemma demo_loaded_reached : ∃ s, demo_loaded = Some s ∧ demo_reached 2 s.
Proof.
  apply (demo_step_reached 1); [exact demo_started_reached|done| |by vm_compute]. intros s E. split; [|done].
  by eapply (demo_room _ 0); [vm_compute|lia|exact E].
Qed.

Lemma demo_sent_reached : ∃ s, demo_sent = Some s ∧ demo_reached 3 s.
Proof.
  apply (demo_step_reached 2); [exact demo_loaded_reached|done| |by vm_compute]. intros s E. split.
  - by eapply (demo_room _ 0); [vm_compute|lia|exact E].
  - cbn. demo_eval (fun s : demo_state => is_ip_address_being_resolved_ s.1) E.
Qed.

Lemma demo_answer_allowed s : demo_sent = Some s → allowed demo_env demo_answer s.1.
Proof.
  intros E. split.
  - by eapply (demo_room _ 1); [vm_compute|lia|exact E].
  - assert (contents s.1 !! 256 = Some (mkConnection 2000001 1)) as Ec by (demo_eval (fun s : demo_state => contents s.1 !! 256) E).
    split; [|by vm_compute|].
    + rewrite Ec. demo_eval (fun s : demo_state => st_get (connections_ s.1) 256) E.
    + intros conn. rewrite Ec. by intros [= <-].
Qed.

Lemma demo_later : (3 <= now_ (demo_io 4))%Q.
Proof. done. Qed.

Lemma demo_sent_facts :
  ∃ w t, demo_sent = Some (w, t) ∧ reach (S := TQueueMemoryStorage) demo_env 3 w ∧ tqueue_ok t ∧ (Stop ∉ outs w)
    ∧ (3 <= now_ (demo_io 4))%Q ∧ allowed demo_env demo_answer w.
Proof.
  destruct demo_sent_reached as ([w t] & E & Hr & Ht & Hs). exists w, t.
  exact (conj E (conj Hr (conj Ht (conj (runs_on (w, t) Hs) (conj demo_later (demo_answer_allowed (w, t) E)))))).
Qed.

Lemma webhook_run_safe_witness :
  ∃ w t, demo_sent = Some (w, t) ∧ is_Some (step demo_env (demo_io 4) demo_answer w t) ∧ connection_count w <= 2 ∧ queue_count w <= 4
    ∧ ∃ u ids, update_map_ w !! 2000001 = Some u ∧ queue_updates_ w !! queue_id_ u = Some (2000001 :: ids).
Proof.
  destruct demo_sent_facts as (w & t & E & Hr & Ht & Hns & Hle & Hall). exists w, t. split; [exact E|].
  destruct (webhook_run_safe demo_env demo_blocks eq_refl 3 w (demo_io 4) demo_answer t Hr Hns Hle Ht Hall) as (Hstep & Hcount & Hqueues & Hfirst).
  split; [exact Hstep|]. split; [|split; [exact Hqueues|]].
  - unfold pending_count in Hcount. pose proof (slen_nonneg (st_ids (pending_sockets_ w))). pose proof (slen_nonneg (ready_sockets_ w)).
    change (max_connections_ demo_env) with 2 in Hcount. lia.
  - assert (contents w !! 256 = Some (mkConnection 2000001 1)) as Ec by (demo_eval (fun s : demo_state => contents s.1 !! 256) E).
    destruct (Hfirst _ _ Ec ltac:(discriminate)) as (u & ids & Eu & Eq & _). exact (ex_intro _ u (ex_intro _ ids (conj Eu Eq))).
Defined.

(** The accepted update is gone, the next one is kept. *)
Lemma updates_dropped_only_when_due_witness :
  ∃ w t w' t' u, demo_sent = Some (w, t) ∧ step demo_env (demo_io 4) demo_answer w t = Some (w', t')
    ∧ update_map_ w' !! 2000001 = None ∧ update_map_ w' !! 2000002 = Some u ∧ json_ u = lit "b" ∧ tqueue_ok t'.
Proof.
  destruct demo_sent_facts as (w & t & E & Hr & Ht & Hns & Hle & Hall).
  destruct (step demo_env (demo_io 4) demo_answer w t) as [[w' t']|] eqn:Estep.
  2:{ apply (f_equal (fun o => o ≫= fun s => step demo_env (demo_io 4) demo_answer s.1 s.2)) in E.
      cbn [mbind option_bind fst snd] in E. rewrite Estep in E. by vm_compute in E. }
  destruct (updates_dropped_only_when_due demo_env demo_blocks eq_refl 3 w (demo_io 4) demo_answer t w' t' Hr Hns Hle Ht Hall Estep) as (Hkept & _ & Ht' & _).
  assert (json_ <$> update_map_ w !! 2000002 = Some (lit "b")) as Eb
    by (demo_eval (fun s : demo_state => json_ <$> update_map_ s.1 !! 2000002) E).
  destruct (update_map_ w !! 2000002) as [u|] eqn:Eu; [|done]. injection Eb as Eb.
  destruct (Hkept 2000002 u Eu) as (u' & Eu' & Ej & _).
  { intros (conn & u' & Ec & Ei & _). assert (contents w !! 256 = Some (mkConnection 2000001 1)) as Ec'
      by (demo_eval (fun s : demo_state => contents s.1 !! 256) E).
    rewrite Ec' in Ec. injection Ec as <-. discriminate Ei. }
  exists w, t, w', t', u'. split_and!; [exact E|exact Estep| |exact Eu'|rewrite Ej; exact Eb|exact Ht'].
  eapply (computed (fun s : demo_state => update_map_ s.1 !! 2000001) (demo_step 4 demo_answer demo_sent) None (w', t')); [by vm_compute|].
  by rewrite E.
Defined.




