(* ===== verification/WebhookInfo.v ===== *)
(** * Webhook settings and their saved form

    The settings of a bot's webhook in [server/Client.cpp], the text
    [Client::save_webhook] keeps in the webhook database and the internal
    query [ClientManager::get_webhook_restore_query] makes of it when the
    server starts.  How a webhook is set is in BotUpdates, the actor that
    delivers its updates in WebhookActor. *)

From S2P Require Import Prelude Slices Codecs Integers Parser Utf8 Json IpAddress Query HttpUrl.

(** ** Update types *)

Inductive UpdateType :=
| UMessage | UEditedMessage | UChannelPost | UEditedChannelPost | UInlineQuery | UChosenInlineResult
| UCallbackQuery | UCustomEvent | UCustomQuery | UShippingQuery | UPreCheckoutQuery | UPoll | UPollAnswer
| UMyChatMember | UChatMember | UChatJoinRequest | UChatBoostUpdated | UChatBoostRemoved | UMessageReaction
| UMessageReactionCount | UBusinessConnection | UBusinessMessage | UEditedBusinessMessage
| UBusinessMessagesDeleted | UPurchasedPaidMedia | UManagedBot | UGuestMessage | USubscription.

#[export] Instance UpdateType_eq_dec : EqDecision UpdateType.
Proof. solve_decision. Defined.

(** In the order of their values. *)
Definition update_types : list UpdateType :=
  [UMessage; UEditedMessage; UChannelPost; UEditedChannelPost; UInlineQuery; UChosenInlineResult;
   UCallbackQuery; UCustomEvent; UCustomQuery; UShippingQuery; UPreCheckoutQuery; UPoll; UPollAnswer;
   UMyChatMember; UChatMember; UChatJoinRequest; UChatBoostUpdated; UChatBoostRemoved; UMessageReaction;
   UMessageReactionCount; UBusinessConnection; UBusinessMessage; UEditedBusinessMessage;
   UBusinessMessagesDeleted; UPurchasedPaidMedia; UManagedBot; UGuestMessage; USubscription].

Definition get_update_type_name (t : UpdateType) : slice :=
  match t with
  | UMessage => lit "message"
  | UEditedMessage => lit "edited_message"
  | UChannelPost => lit "channel_post"
  | UEditedChannelPost => lit "edited_channel_post"
  | UInlineQuery => lit "inline_query"
  | UChosenInlineResult => lit "chosen_inline_result"
  | UCallbackQuery => lit "callback_query"
  | UCustomEvent => lit "custom_event"
  | UCustomQuery => lit "custom_query"
  | UShippingQuery => lit "shipping_query"
  | UPreCheckoutQuery => lit "pre_checkout_query"
  | UPoll => lit "poll"
  | UPollAnswer => lit "poll_answer"
  | UMyChatMember => lit "my_chat_member"
  | UChatMember => lit "chat_member"
  | UChatJoinRequest => lit "chat_join_request"
  | UChatBoostUpdated => lit "chat_boost"
  | UChatBoostRemoved => lit "removed_chat_boost"
  | UMessageReaction => lit "message_reaction"
  | UMessageReactionCount => lit "message_reaction_count"
  | UBusinessConnection => lit "business_connection"
  | UBusinessMessage => lit "business_message"
  | UEditedBusinessMessage => lit "edited_business_message"
  | UBusinessMessagesDeleted => lit "deleted_business_messages"
  | UPurchasedPaidMedia => lit "purchased_paid_media"
  | UManagedBot => lit "managed_bot"
  | UGuestMessage => lit "guest_message"
  | USubscription => lit "subscription"
  end.

(** The value of an enumerator: its place in the list. *)
Definition update_value (t : UpdateType) : Z :=
  match list_find (fun u => u = t) update_types with Some (i, _) => Z.of_nat i | None => 28 end.

Definition update_bit (t : UpdateType) : Z := Z.shiftl 1 (update_value t).

Definition DEFAULT_ALLOWED_UPDATE_TYPES : Z :=
  Z.shiftl 1 28 - 1 - update_bit UChatMember - update_bit UMessageReaction - update_bit UMessageReactionCount.

(** The bits of the types with this name. *)
Definition name_bits (name : slice) : Z :=
  foldl (fun acc t => if bool_decide (get_update_type_name t = name) then Z.lor acc (update_bit t) else acc)
    0 update_types.

(** The loop over the array: [None] when an element is no string. *)
Fixpoint names_bits (array : list JsonValue) (acc : Z) : option Z :=
  match array with
  | [] => Some acc
  | JsonStr name :: array => names_bits array (Z.lor acc (name_bits (to_lower_slice name)))
  | _ :: _ => None
  end.

(** 0 leaves the allowed types as they are. *)
Definition get_allowed_update_types (allowed_updates : slice) (is_internal : bool) : option Z :=
  if bool_decide (allowed_updates = []) then Some 0
  else
    r_value ← json_decode allowed_updates;
    Some (match r_value with
          | Err _ _ => 0
          | Ok (JsonArray array) =>
              match names_bits array 0 with
              | Some result => if result =? 0 then DEFAULT_ALLOWED_UPDATE_TYPES else result
              | None => 0
              end
          | Ok (JsonNumber number) =>
              if is_internal then
                match to_integer_unsigned_safe 64 number with
                | Ok n => if 0 <? n then n else 0
                | Err _ _ => 0
                end
              else 0
          | Ok _ => 0
          end).

(** ** Settings *)

Record webhook := mkWebhook {
  webhook_url_ : slice;
  has_webhook_certificate_ : bool;
  webhook_max_connections_ : Z;
  webhook_ip_address_ : slice;
  webhook_fix_ip_address_ : bool;
  webhook_secret_token_ : slice;
  allowed_update_types_ : Z
}.

Definition save_webhook (w : webhook) : slice :=
  (if has_webhook_certificate_ w then lit "cert/" else []) ++
  lit "#maxc" ++ print_int 32 (webhook_max_connections_ w) ++ ["/"%char] ++
  match webhook_ip_address_ w with [] => [] | ip => lit "#ip" ++ ip ++ ["/"%char] end ++
  (if webhook_fix_ip_address_ w then lit "#fix_ip/" else []) ++
  match webhook_secret_token_ w with [] => [] | secret => lit "#secret" ++ secret ++ ["/"%char] end ++
  (if allowed_update_types_ w =? DEFAULT_ALLOWED_UPDATE_TYPES then []
   else lit "#allow" ++ print_uint (allowed_update_types_ w) ++ ["/"%char]) ++
  webhook_url_ w.

(** One optional part of the saved text: its prefix, and its value up to the
    next '/'. *)
Definition restore_part (prefix key : slice) (st : parser * list (slice * slice)) : parser * list (slice * slice) :=
  let '(p, args) := st in
  match try_skip prefix p with
  | (true, p) => let '(value, p) := read_till "/"%char p in (skip "/"%char p, args ++ [(key, value)])
  | (false, p) => (p, args)
  end.

Definition get_webhook_restore_query (token webhook_info : slice) : Query :=
  let is_test_dc := ends_with token (lit ":T") in
  let token := if is_test_dc then take (length token - 2) token else token in
  let p := new_parser webhook_info in
  let '(p, args) :=
    match try_skip (lit "cert/") p with
    | (true, p) => (p, [(lit "certificate", lit "previous")])
    | (false, p) => (p, [])
    end in
  let st := restore_part (lit "#maxc") (lit "max_connections") (p, args) in
  let st := restore_part (lit "#ip") (lit "ip_address") st in
  let '(p, args) := st in
  let st :=
    match try_skip (lit "#fix_ip") p with
    | (true, p) => (skip "/"%char p, args ++ [(lit "fix_ip_address", lit "1")])
    | (false, p) => (p, args)
    end in
  let st := restore_part (lit "#secret") (lit "secret_token") st in
  let st := restore_part (lit "#allow") (lit "allowed_updates") st in
  let '(p, args) := st in
  let args := args ++ [(lit "url", (read_all p).1)] in
  new_query token is_test_dc (lit "setwebhook") args [] [] ip_invalid true.

Definition clamp (value min_value max_value : Z) : Z :=
  if value <? min_value then min_value else if max_value <? value then max_value else value.

Definition get_integer_arg (q : Query) (field_name : slice) (default_value min_value max_value : Z) : Z :=
  let s_arg := arg q field_name in
  let value := if bool_decide (s_arg = []) then default_value else to_integer 32 s_arg in
  clamp value min_value max_value.

Definition get_webhook_max_connections (local_mode : bool) (default_max : Z) (q : Query) : Z :=
  get_integer_arg q (lit "max_connections") default_max 1 (if local_mode then 100000 else 100).

Definition get_webhook_fix_ip_address (q : Query) : bool :=
  if q_is_internal q then has_arg q (lit "fix_ip_address") else negb (bool_decide (arg q (lit "ip_address") = [])).

(** The settings [do_set_webhook] and [finish_set_webhook] take from an
    internal query, [allowed_before] being the allowed types so far. *)
Definition webhook_settings (local_mode : bool) (default_max allowed_before : Z) (q : Query) : option webhook :=
  allowed ← get_allowed_update_types (arg q (lit "allowed_updates")) (q_is_internal q);
  Some (mkWebhook (arg q (lit "url")) (bool_decide (arg q (lit "certificate") = lit "previous"))
          (get_webhook_max_connections local_mode default_max q) (arg q (lit "ip_address"))
          (get_webhook_fix_ip_address q) (arg q (lit "secret_token"))
          (if allowed =? 0 then allowed_before else allowed)).

(** Settings a bot can have: what [do_set_webhook] lets through. *)
Record webhook_ok (inet_pton6 : slice → option (list Z)) (local_mode : bool) (w : webhook) : Prop := {
  wo_url : is_ok (parse_url inet_pton6 (webhook_url_ w) Https) = true;
  wo_connections : 1 <= webhook_max_connections_ w <= if local_mode then 100000 else 100;
  wo_ip : "/"%char ∉ webhook_ip_address_ w;
  wo_secret : "/"%char ∉ webhook_secret_token_ w;
  wo_allowed : 0 < allowed_update_types_ w < 2 ^ 64
}.

(** ** Facts *)

(** *** The saved text, part by part *)

Definition save_url (w : webhook) : slice := webhook_url_ w.
Definition save_allow (w : webhook) : slice :=
  (if allowed_update_types_ w =? DEFAULT_ALLOWED_UPDATE_TYPES then []
   else lit "#allow" ++ print_uint (allowed_update_types_ w) ++ ["/"%char]) ++ save_url w.
Definition save_secret (w : webhook) : slice :=
  match webhook_secret_token_ w with [] => [] | secret => lit "#secret" ++ secret ++ ["/"%char] end ++ save_allow w.
Definition save_fix (w : webhook) : slice :=
  (if webhook_fix_ip_address_ w then lit "#fix_ip/" else []) ++ save_secret w.
Definition save_ip (w : webhook) : slice :=
  match webhook_ip_address_ w with [] => [] | ip => lit "#ip" ++ ip ++ ["/"%char] end ++ save_fix w.
Definition save_max (w : webhook) : slice :=
  lit "#maxc" ++ print_int 32 (webhook_max_connections_ w) ++ ["/"%char] ++ save_ip w.

Lemma save_webhook_parts w :
  save_webhook w = (if has_webhook_certificate_ w then lit "cert/" else []) ++ save_max w.
Proof. reflexivity. Qed.

(** The letter that tells the parts apart: the one after a leading '#'. *)
Definition part_letter (s : slice) : option ascii :=
  match s with c :: d :: _ => if bool_decide (c = "#"%char) then Some d else None | _ => None end.

Lemma part_letters w :
  head (webhook_url_ w) ≠ Some "#"%char →
  part_letter (save_url w) = None ∧
  (part_letter (save_allow w) ∈ [None; Some "a"%char]) ∧
  (part_letter (save_secret w) ∈ [None; Some "a"; Some "s"]%char) ∧
  (part_letter (save_fix w) ∈ [None; Some "a"; Some "s"; Some "f"]%char).
Proof.
  intros Hu. assert (E0 : part_letter (save_url w) = None).
  { unfold save_url. destruct (webhook_url_ w) as [|c [|d u]]; [done..|]. simpl in *.
    rewrite bool_decide_eq_false_2; [done|congruence]. }
  assert (E1 : part_letter (save_allow w) ∈ [None; Some "a"%char]).
  { unfold save_allow. destruct (_ =? _); [rewrite app_nil_l, E0; left|]. right. left. }
  assert (E2 : part_letter (save_secret w) ∈ [None; Some "a"; Some "s"]%char).
  { unfold save_secret. destruct (webhook_secret_token_ w); [rewrite app_nil_l; set_solver|]. right. right. left. }
  split_and!; [done..|]. unfold save_fix. destruct (webhook_fix_ip_address_ w); [do 3 right; left|].
  rewrite app_nil_l. set_solver.
Qed.

Lemma try_skip_miss prefix data :
  part_letter prefix ≠ part_letter data → part_letter prefix ≠ None →
  try_skip prefix (new_parser data) = (false, new_parser data).
Proof.
  intros Hne Hsome. destruct (try_skip prefix (new_parser data)) as [[] p] eqn:E.
  - apply try_skip_true in E as [E _]. simpl in E. subst data.
    destruct prefix as [|c [|d prefix]]; done.
  - by apply try_skip_false in E as [-> _].
Qed.

Lemma restore_part_miss prefix key data args :
  part_letter prefix ≠ part_letter data → part_letter prefix ≠ None →
  restore_part prefix key (new_parser data, args) = (new_parser data, args).
Proof. intros. unfold restore_part. by rewrite try_skip_miss. Qed.

Lemma restore_part_hit prefix key value rest args :
  "/"%char ∉ value →
  restore_part prefix key (new_parser (prefix ++ value ++ ["/"%char] ++ rest), args) =
  (new_parser rest, args ++ [(key, value)]).
Proof.
  intros Hv. unfold restore_part.
  assert (try_skip prefix (new_parser (prefix ++ value ++ ["/"%char] ++ rest)) =
          (true, new_parser (value ++ "/"%char :: rest))) as -> by (by apply try_skip_true).
  unfold read_till, read_till_nofail, new_parser. cbn [p_status is_ok negb p_data].
  rewrite find_app by done. cbn [p_data with_data]. rewrite take_app_length, drop_app_length.
  rewrite bool_decide_eq_true_2 by done. unfold skip. cbn [p_status with_data is_ok negb p_data].
  by rewrite bool_decide_eq_true_2.
Qed.

Lemma uint_no_slash n : 0 <= n < 2 ^ 64 → "/"%char ∉ print_uint n.
Proof.
  intros Hn Hin. destruct (print_uint_spec n Hn) as (Hd & _). rewrite Forall_forall in Hd. by specialize (Hd _ Hin).
Qed.

(** A parsed URL does not begin with '#'. *)
Lemma url_head pton6 url d : is_ok (parse_url pton6 url d) = true → head url ≠ Some "#"%char.
Proof.
  destruct url as [|c url]; [done|]. intros Hp [= ->]. revert Hp. unfold parse_url, parse_protocol.
  rewrite read_till_any_spec by done. cbn [p_data new_parser take_while drop_while].
  assert (not_in (lit ":/?#@[]") "#" = false) as -> by reflexivity.
  assert (try_skip (lit "://") (with_data (new_parser ("#"%char :: url)) ("#"%char :: url)) =
          (false, new_parser ("#"%char :: url))) as ->.
  { destruct (try_skip _ _) as [[] p] eqn:E; [|by apply try_skip_false in E as [-> _]].
    apply try_skip_true in E as [E _]. discriminate. }
  cbn [mbind result_bind]. rewrite read_till_any_spec by done. cbn [p_data new_parser take_while drop_while].
  assert (not_in (lit "/?#") "#" = false) as -> by reflexivity. by destruct (is_bracketed []).
Qed.

(** The arguments of the restored query. *)
Definition restored_args (w : webhook) : list (slice * slice) :=
  (if has_webhook_certificate_ w then [(lit "certificate", lit "previous")] else []) ++
  [(lit "max_connections", print_int 32 (webhook_max_connections_ w))] ++
  match webhook_ip_address_ w with [] => [] | ip => [(lit "ip_address", ip)] end ++
  (if webhook_fix_ip_address_ w then [(lit "fix_ip_address", lit "1")] else []) ++
  match webhook_secret_token_ w with [] => [] | secret => [(lit "secret_token", secret)] end ++
  (if allowed_update_types_ w =? DEFAULT_ALLOWED_UPDATE_TYPES then []
   else [(lit "allowed_updates", print_uint (allowed_update_types_ w))]) ++
  [(lit "url", webhook_url_ w)].

Lemma letter_ne (c : ascii) (x : option ascii) (l : list (option ascii)) : x ∈ l → bool_decide (Some c ∈ l) = false → Some c ≠ x.
Proof. intros Hx Hc%bool_decide_eq_false <-. done. Qed.

Section Restore.
Context (w : webhook) (Hurl : head (webhook_url_ w) ≠ Some "#"%char).

Lemma restore_cert :
  match try_skip (lit "cert/") (new_parser ((if has_webhook_certificate_ w then lit "cert/" else []) ++ save_max w)) with
  | (true, p) => (p, [(lit "certificate", lit "previous")])
  | (false, p) => (p, [])
  end = (new_parser (save_max w),
         if has_webhook_certificate_ w then [(lit "certificate", lit "previous")] else []).
Proof.
  destruct (has_webhook_certificate_ w).
  - assert (try_skip (lit "cert/") (new_parser (lit "cert/" ++ save_max w)) = (true, new_parser (save_max w)))
      as -> by (by apply try_skip_true). done.
  - rewrite app_nil_l. destruct (try_skip _ _) as [[] p] eqn:E; [|by apply try_skip_false in E as [-> _]].
    apply try_skip_true in E as [E _]. discriminate.
Qed.

Lemma restore_ip args :
  "/"%char ∉ webhook_ip_address_ w →
  restore_part (lit "#ip") (lit "ip_address") (new_parser (save_ip w), args) =
  (new_parser (save_fix w), args ++ match webhook_ip_address_ w with [] => [] | ip => [(lit "ip_address", ip)] end).
Proof.
  intros Hip. destruct (part_letters w Hurl) as (_ & _ & _ & L3). unfold save_ip.
  destruct (webhook_ip_address_ w) as [|c ip].
  - rewrite app_nil_l, app_nil_r. apply restore_part_miss; [|done]. by eapply letter_ne.
  - rewrite <- !app_assoc. by apply restore_part_hit.
Qed.

Lemma restore_fix (args : list (slice * slice)) :
  match try_skip (lit "#fix_ip") (new_parser (save_fix w)) with
  | (true, p) => (skip "/"%char p, args ++ [(lit "fix_ip_address", lit "1")])
  | (false, p) => (p, args)
  end = (new_parser (save_secret w),
         args ++ if webhook_fix_ip_address_ w then [(lit "fix_ip_address", lit "1")] else []).
Proof.
  destruct (part_letters w Hurl) as (_ & _ & L2 & _). unfold save_fix. destruct (webhook_fix_ip_address_ w).
  - assert (try_skip (lit "#fix_ip") (new_parser (lit "#fix_ip/" ++ save_secret w)) =
            (true, new_parser ("/"%char :: save_secret w))) as -> by (by apply try_skip_true). done.
  - rewrite app_nil_l, app_nil_r, try_skip_miss; [done|by eapply letter_ne|done].
Qed.

Lemma restore_secret args :
  "/"%char ∉ webhook_secret_token_ w →
  restore_part (lit "#secret") (lit "secret_token") (new_parser (save_secret w), args) =
  (new_parser (save_allow w),
   args ++ match webhook_secret_token_ w with [] => [] | secret => [(lit "secret_token", secret)] end).
Proof.
  intros Hs. destruct (part_letters w Hurl) as (_ & L1 & _ & _). unfold save_secret.
  destruct (webhook_secret_token_ w) as [|c sec].
  - rewrite app_nil_l, app_nil_r. apply restore_part_miss; [by eapply letter_ne|done].
  - rewrite <- !app_assoc. by apply restore_part_hit.
Qed.

Lemma restore_allow args :
  0 < allowed_update_types_ w < 2 ^ 64 →
  restore_part (lit "#allow") (lit "allowed_updates") (new_parser (save_allow w), args) =
  (new_parser (save_url w),
   args ++ if allowed_update_types_ w =? DEFAULT_ALLOWED_UPDATE_TYPES then []
           else [(lit "allowed_updates", print_uint (allowed_update_types_ w))]).
Proof.
  intros Ha. destruct (part_letters w Hurl) as (L0 & _). unfold save_allow. destruct (_ =? _).
  - rewrite app_nil_l, app_nil_r. apply restore_part_miss; [|done]. by rewrite L0.
  - rewrite <- !app_assoc. apply restore_part_hit, uint_no_slash. lia.
Qed.
End Restore.

Lemma restore_query_any w token :
  head (webhook_url_ w) ≠ Some "#"%char → 0 <= webhook_max_connections_ w < 2 ^ 31 →
  "/"%char ∉ webhook_ip_address_ w → "/"%char ∉ webhook_secret_token_ w → 0 < allowed_update_types_ w < 2 ^ 64 →
  q_args (get_webhook_restore_query token (save_webhook w)) = restored_args w.
Proof.
  intros Hurl Hmax Hip Hsecret Hallow.
  unfold get_webhook_restore_query. rewrite save_webhook_parts, restore_cert.
  cbv zeta. unfold save_max at 1. rewrite restore_part_hit.
  2:{ unfold print_int. destruct (Z.ltb_spec (webhook_max_connections_ w) 0); [lia|]. apply uint_no_slash. lia. }
  rewrite restore_ip, restore_fix, restore_secret, restore_allow by done.
  unfold new_query. cbn [q_args read_all fst p_data new_parser].
  unfold restored_args, save_url. by rewrite <- !app_assoc.
Qed.

Lemma restore_query_args pton6 local w token :
  webhook_ok pton6 local w →
  q_args (get_webhook_restore_query token (save_webhook w)) = restored_args w.
Proof.
  intros [Hurl Hmax Hip Hsecret Hallow]. apply restore_query_any; try done; [by eapply url_head|]. destruct local; lia.
Qed.

(** *** Reading the restored arguments *)

Definition option_arg (key : slice) (value : slice) : list (slice * slice) :=
  match value with [] => [] | _ => [(key, value)] end.

Definition the_args (cert fix_ip : bool) (m ip secret : slice) (allow : option slice) (url : slice) : list (slice * slice) :=
  (if cert then [(lit "certificate", lit "previous")] else []) ++ [(lit "max_connections", m)] ++
  option_arg (lit "ip_address") ip ++ (if fix_ip then [(lit "fix_ip_address", lit "1")] else []) ++
  option_arg (lit "secret_token") secret ++
  match allow with Some a => [(lit "allowed_updates", a)] | None => [] end ++ [(lit "url", url)].

Lemma the_args_values cert fix_ip m ip secret allow url (l := the_args cert fix_ip m ip secret allow url) :
  default [] (find_value l (lit "url")) = url ∧
  bool_decide (default [] (find_value l (lit "certificate")) = lit "previous") = cert ∧
  default [] (find_value l (lit "max_connections")) = m ∧
  default [] (find_value l (lit "ip_address")) = ip ∧
  match find_value l (lit "fix_ip_address") with Some _ => true | None => false end = fix_ip ∧
  default [] (find_value l (lit "secret_token")) = secret ∧
  default [] (find_value l (lit "allowed_updates")) = default [] allow.
Proof. subst l. destruct cert, fix_ip, ip, secret, allow; repeat split; reflexivity. Qed.

Lemma restored_the_args w :
  restored_args w =
  the_args (has_webhook_certificate_ w) (webhook_fix_ip_address_ w) (print_int 32 (webhook_max_connections_ w))
    (webhook_ip_address_ w) (webhook_secret_token_ w)
    (if allowed_update_types_ w =? DEFAULT_ALLOWED_UPDATE_TYPES then None else Some (print_uint (allowed_update_types_ w)))
    (webhook_url_ w).
Proof.
  unfold restored_args, the_args, option_arg.
  destruct (webhook_ip_address_ w), (webhook_secret_token_ w), (_ =? _); reflexivity.
Qed.

Lemma to_integer_unsigned_print n : 0 <= n < 2 ^ 64 → to_integer_unsigned_safe 64 (print_uint n) = Ok n.
Proof.
  intros Hn. destruct (print_uint_spec n Hn) as (Hd & Hv & _).
  assert (to_integer_unsigned 64 (print_uint n) = n) as E.
  { unfold to_integer_unsigned. change 0 with (wrap 64 0) at 1. rewrite digit_loop_value, Hv by done.
    by apply wrap_small. }
  unfold to_integer_unsigned_safe. by rewrite E, bool_decide_eq_true_2.
Qed.

Lemma allowed_number n :
  0 < n < 2 ^ 64 → get_allowed_update_types (print_uint n) true = Some n.
Proof.
  intros Hn. destruct (print_uint_spec n ltac:(lia)) as (Hd & _ & Hne).
  assert (number_ok (print_uint n) = true) as Hok.
  { destruct (print_uint n) as [|c s]; [done|]. unfold number_ok.
    assert (Hx : ∀ c, is_digit c = true → is_number_start c = true ∧ is_number_char c = true)
      by (intros d; all_chars d; naive_solver).
    apply andb_true_iff. split; [apply Hx; by apply Forall_cons in Hd as [? _]|].
    apply forallb_forall. intros d Hin%list_elem_of_In. rewrite Forall_forall in Hd. apply Hx. by apply Hd. }
  destruct (json_encode_decode (JsonNumber (print_uint n)) false) as (out & He & Hdec); [done|simpl; lia|].
  injection He as <-. unfold get_allowed_update_types. rewrite bool_decide_eq_false_2 by done.
  rewrite Hdec. cbn [mbind option_bind]. rewrite to_integer_unsigned_print by lia.
  by destruct (Z.ltb_spec 0 n); [|lia].
Qed.

(** The saved text restores the settings. *)
Lemma restored_settings pton6 local default_max w token
  (Hok : webhook_ok pton6 local w) :
  webhook_settings local default_max DEFAULT_ALLOWED_UPDATE_TYPES
    (get_webhook_restore_query token (save_webhook w)) = Some w.
Proof.
  pose proof (restore_query_args pton6 local w token Hok) as Hargs.
  assert (q_is_internal (get_webhook_restore_query token (save_webhook w)) = true) as Hint.
  { unfold get_webhook_restore_query. cbv zeta. repeat case_match; done. }
  set (q := get_webhook_restore_query token (save_webhook w)) in *. clearbody q.
  rewrite restored_the_args in Hargs.
  unfold webhook_settings, get_webhook_max_connections, get_integer_arg, get_webhook_fix_ip_address, arg, has_arg.
  rewrite Hint, Hargs. edestruct the_args_values as (-> & -> & -> & -> & -> & -> & ->).
  destruct Hok as [_ Hmax _ _ Hallow].
  assert (signed_range 32 (webhook_max_connections_ w)) as Hr by (unfold signed_range; destruct local; lia).
  rewrite bool_decide_eq_false_2.
  2:{ unfold print_int. destruct (Z.ltb_spec (webhook_max_connections_ w) 0); [destruct local; lia|].
      unfold signed_range in Hr. by destruct (print_uint_spec (webhook_max_connections_ w) ltac:(lia)) as (_ & _ & ?). }
  rewrite to_integer_print_int by done. unfold clamp.
  replace (_ <? 1) with false by (destruct local; lia).
  replace (_ <? webhook_max_connections_ w) with false by (destruct local; lia).
  destruct (Z.eqb_spec (allowed_update_types_ w) DEFAULT_ALLOWED_UPDATE_TYPES) as [Hdef|Hne]; simpl default.
  - cbn [get_allowed_update_types]. unfold get_allowed_update_types. rewrite bool_decide_eq_true_2 by done.
    cbn [mbind option_bind]. rewrite <- Hdef. by destruct w.
  - rewrite allowed_number by done. cbn [mbind option_bind].
    destruct (Z.eqb_spec (allowed_update_types_ w) 0); [lia|]. by destruct w.
Qed.

(** What is saved of a bot without a webhook, its allowed types of updates, sets
    no webhook. *)
Definition only_types (allowed : Z) : webhook := mkWebhook [] false 0 [] false [] allowed.

Lemma restored_nothing allowed token :
  0 < allowed < 2 ^ 64 → arg (get_webhook_restore_query token (save_webhook (only_types allowed))) (lit "url") = [].
Proof.
  intros Ha. unfold arg. rewrite restore_query_any, restored_the_args; [|done|done|by intros ?%not_elem_of_nil..|done].
  by edestruct the_args_values as (-> & _).
Qed.

(** *** Lists of update types *)

Lemma update_value_inj t u : update_value t = update_value u → t = u.
Proof. destruct t, u; vm_compute; intros E; (reflexivity || discriminate E). Qed.

Lemma update_value_nonneg t : 0 <= update_value t.
Proof. destruct t; vm_compute; discriminate. Qed.

Lemma elem_of_update_types t : t ∈ update_types.
Proof. destruct t; vm_compute; repeat (left || right). Qed.

Lemma update_bit_test t k : 0 <= k → Z.testbit (update_bit t) k = bool_decide (update_value t = k).
Proof.
  intros Hk. unfold update_bit. rewrite Z.shiftl_mul_pow2, Z.mul_1_l by apply update_value_nonneg.
  rewrite Z.pow2_bits_eqb by apply update_value_nonneg.
  destruct (Z.eqb_spec (update_value t) k); [by rewrite bool_decide_eq_true_2|by rewrite bool_decide_eq_false_2].
Qed.

Lemma name_bits_test name t :
  Z.testbit (name_bits name) (update_value t) = bool_decide (get_update_type_name t = name).
Proof.
  unfold name_bits.
  assert (∀ l acc, Z.testbit (foldl (fun acc u => if bool_decide (get_update_type_name u = name)
                                                  then Z.lor acc (update_bit u) else acc) acc l) (update_value t)
                   = Z.testbit acc (update_value t) || (bool_decide (t ∈ l) && bool_decide (get_update_type_name t = name))) as H.
  { induction l as [|u l IH]; intros acc; simpl; [by rewrite orb_false_r|]. rewrite IH.
    destruct (decide (t = u)) as [->|Hne].
    - rewrite (bool_decide_eq_true_2 (u ∈ u :: l)) by left.
      destruct (decide (get_update_type_name u = name)) as [E|E];
        [rewrite !(bool_decide_eq_true_2 _ E)|rewrite !(bool_decide_eq_false_2 _ E); by rewrite !andb_false_r].
      rewrite Z.lor_spec, update_bit_test, bool_decide_eq_true_2 by (done || apply update_value_nonneg).
      by rewrite !orb_true_r.
    - assert (bool_decide (t ∈ u :: l) = bool_decide (t ∈ l)) as ->
        by (apply bool_decide_ext; rewrite elem_of_cons; naive_solver).
      destruct (bool_decide (get_update_type_name u = name)); [|done].
      rewrite Z.lor_spec, update_bit_test by apply update_value_nonneg.
      rewrite (bool_decide_eq_false_2 (update_value u = _)); [by rewrite orb_false_r|].
      intros E. by apply update_value_inj in E. }
  rewrite H, Z.bits_0, (bool_decide_eq_true_2 (t ∈ update_types)) by apply elem_of_update_types. done.
Qed.

Lemma name_bits_unknown name : (∀ t, get_update_type_name t ≠ name) → name_bits name = 0.
Proof.
  intros Hn. unfold name_bits. generalize update_types as l, 0 as acc.
  induction l as [|u l IH]; intros acc; simpl; [done|]. rewrite bool_decide_eq_false_2 by apply Hn. apply IH.
Qed.

(** A type is named in the list, in any case of its letters. *)
Definition names (l : list slice) (t : UpdateType) : Prop :=
  Exists (fun name => to_lower_slice name = get_update_type_name t) l.

#[export] Instance names_dec l t : Decision (names l t).
Proof. unfold names. apply _. Defined.

Lemma names_bits_spec l acc :
  ∃ r, names_bits (JsonStr <$> l) acc = Some r ∧
    (∀ t, Z.testbit r (update_value t) = true ↔ Z.testbit acc (update_value t) = true ∨ names l t) ∧
    ((∀ t, ¬ names l t) → r = acc).
Proof.
  revert acc. induction l as [|name l IH]; intros acc; simpl.
  { exists acc. split; [done|]. split; [|done]. intros t. split; [by left|].
    intros [?|Hn]; [done|by apply Exists_nil in Hn]. }
  destruct (IH (Z.lor acc (name_bits (to_lower_slice name)))) as (r & Hr & Hbits & Hnone).
  exists r. split; [done|]. split.
  - intros t. rewrite Hbits, Z.lor_spec, orb_true_iff, name_bits_test, bool_decide_eq_true. unfold names.
    rewrite Exists_cons. intuition congruence.
  - intros Hl. rewrite Hnone; [|intros t Hn; apply (Hl t); by right].
    rewrite name_bits_unknown, Z.lor_0_r; [done|]. intros t E. apply (Hl t). by left.
Qed.

(** The mask of allowed_updates has exactly the bits of the update types named, case ignored, unknown
    names dropped, and the default mask when none is known. *)
Theorem allowed_update_types_exact (l : list slice) (pretty internal : bool)
  (Hutf8 : Forall (fun name => check_utf8 name = true) l) :
  ∃ text r, json_encode (JsonArray (JsonStr <$> l)) pretty = Some text ∧
    get_allowed_update_types text internal = Some r ∧
    ((∀ t, ¬ names l t) ∧ r = DEFAULT_ALLOWED_UPDATE_TYPES ∨
     (∃ t, names l t) ∧ ∀ t, Z.testbit r (update_value t) = true ↔ names l t).
Proof.
  destruct (json_encode_decode (JsonArray (JsonStr <$> l)) pretty) as (text & He & Hdec).
  - simpl. apply forallb_forall. intros v Hv%list_elem_of_In.
    apply list_elem_of_fmap in Hv as (name & -> & Hin). rewrite Forall_forall in Hutf8. by apply Hutf8.
  - enough (json_depth (JsonArray (JsonStr <$> l)) <= 1) by lia. clear.
    induction l as [|name l IH]; [done|]. rewrite fmap_cons.
    cbn [json_depth map foldr] in *. lia.
  - destruct (names_bits_spec l 0) as (r & Hr & Hbits & Hnone).
    assert (text ≠ []) as Hne by (intros ->; vm_compute in Hdec; discriminate).
    assert (∀ t, Z.testbit r (update_value t) = true ↔ names l t) as Hb.
    { intros t. rewrite Hbits, Z.bits_0. naive_solver. }
    exists text, (if r =? 0 then DEFAULT_ALLOWED_UPDATE_TYPES else r). split; [done|]. split.
    + unfold get_allowed_update_types. rewrite bool_decide_eq_false_2, Hdec by done.
      cbn [mbind option_bind]. by rewrite Hr.
    + destruct (Z.eqb_spec r 0) as [->|Hr0].
      * left. split; [|done]. intros t Ht. apply Hb in Ht. by rewrite Z.bits_0 in Ht.
      * right. split; [|done]. destruct (decide (Exists (names l) update_types)) as [Hex|Hex].
        -- apply Exists_exists in Hex as (t & _ & Ht). by exists t.
        -- exfalso. apply Hr0, Hnone. intros t Ht. apply Hex, Exists_exists. exists t.
           split; [apply elem_of_update_types|done].
Qed.

Definition demo_names : list slice := [lit "Message"; lit "chat_member"; lit "unknown"].

Lemma allowed_update_types_exact_witness :
  ∃ text r, json_encode (JsonArray (JsonStr <$> demo_names)) false = Some text ∧
    get_allowed_update_types text false = Some r ∧ Z.testbit r 14 = true ∧ Z.testbit r 1 = false.
Proof.
  destruct (allowed_update_types_exact demo_names false false) as (text & r & He & Hr & Hcase).
  - repeat constructor.
  - exists text, r. split; [exact He|]. split; [exact Hr|]. destruct Hcase as [[Hnone _]|[_ Hbits]].
    + exfalso. apply (Hnone UMessage). left. reflexivity.
    + split; [apply (Hbits UChatMember); right; left; reflexivity|].
      destruct (Z.testbit r 1) eqn:E; [|reflexivity]. apply (Hbits UEditedMessage) in E.
      vm_compute in E. repeat (apply Exists_cons in E as [E|E]; [discriminate|]). by apply Exists_nil in E.
Defined.
