(* ===== verification/ClientFiles.v ===== *)
(** * Files and streams of a bot's client

    The part of the actor [Client] of [server/Client.cpp] that serves files:
    file streams ([start_file_stream], [remove_file_stream]), downloads for
    getFile ([do_get_file], [on_file_download], [on_update_file]), the
    requests to TDLib and the callbacks their results go to ([send_request],
    [on_result]), the queue of queries before the authorization, and the end
    of the client ([on_closed]).  The methods of the Bot API, updates other
    than of files and of the authorization state, long polling and webhooks
    are not modelled; a query for another method than getFile, close or logOut is
    handed to it as a message.

    TDLib's answers, the clock and the counters of the statistics are
    arguments.  Callbacks are kept in any implementation of
    [Container.IdStore].  [None] is the abort of a failed [CHECK]. *)

From Stdlib Require Import QArith Qround.
From S2P Require Import Prelude Slices Integers Json Query QueryErrors PathView FileStreamRoute Container.

Local Open Scope Z_scope.

(** ** Data *)

(** [td_api::file] with its local and remote parts. *)
Record td_file := mkFile {
  tf_id : Z;
  tf_size : Z;
  tf_expected_size : Z;
  tf_path : slice;
  tf_download_offset : Z;
  tf_downloaded_prefix_size : Z;
  tf_downloaded_size : Z;
  tf_is_downloading_completed : bool;
  tf_is_downloading_active : bool;
  tf_remote_id : slice;
  tf_unique_id : slice;
}.

(** [td_api::Object], as far as the callbacks look at it. *)
Inductive td_object := TdError (code : Z) (message : slice) | TdFile (file : td_file) | TdOk.

(** [td_api::Function] *)
Inductive td_function :=
| GetRemoteFile (remote_file_id : slice)
| DownloadFile (file_id : Z)
| CancelDownloadFile (file_id : Z)
| DeleteFile (file_id : Z)
| LogOut
| CloseTd.

(** [FileStreamRef]; an actor identifier is a number. *)
Record FileStreamRef := mkRef { fs_id : Z; fs_actor : Z }.
Record PendingFileStream := mkPending { pf_stream : FileStreamRef; pf_file_id : slice; pf_expected_size : Z }.

(** The callbacks: [TdOnCheckRemoteFileIdCallback] with the two ends of
    [process_get_file_query], [TdOnDownloadFileCallback], the two callbacks of
    streams, [TdOnCancelDownloadFileCallback], [TdOnDeleteFileCallback],
    [TdOnOkCallback] and [TdOnOkQueryCallback].  A callback that was called is [Moved] until its
    identifier is given back. *)
Inductive handler :=
| OnCheckRemoteFileId (query : Query) (metadata_only : bool)
| OnDownloadFile (file_id : Z)
| OnFileStreamRemoteFile (stream : Z) (stream_id : Z) (expected_size : Z)
| OnFileStreamDownload (file_id : Z)
| OnCancelDownloadFile
| OnDeleteFile (file_id : Z)
| OnOk
| OnOkQuery (query : Query)
| Moved.

#[export] Instance handler_inhabited : Inhabited handler := populate Moved.

Record ClosingError := mkClosingError { ce_code : Z; ce_retry_after : Z; ce_message : slice }.

(** Messages to other actors, and queries that were answered. *)
Inductive client_out :=
| StreamReady (stream : Z) (file_id total_size : Z) (local_path : slice) (download_offset downloaded_prefix_size : Z)
    (is_completed is_active : bool)
| StreamProgress (stream : Z) (total_size : Z) (local_path : slice) (download_offset downloaded_prefix_size : Z)
    (is_completed is_active : bool)
| StreamError (stream : Z) (code : Z) (message : slice)
| TdRequest (id : Z) (f : td_function)
| Answered (query : Query) (a : answer)
| AnswerLater (query : Query) (delay : Z) (a : answer)
| CallMethod (query : Query)
| CmdLater (query : Query) (delay : Q)
| DeleteTimeLater (file_size : Z) (delay max_delay : Q)
| ParentActive
| ParentInactive
| CloseTimer.

(** What the client knows from its start: the mode of the server, the
    directory of the bot, and when both were started. *)
Record client_env := mkClientEnv {
  local_mode_ : bool;
  dir_ : slice;
  server_start_time_ : Q;
  start_time_ : Q;
}.

Record client {C : Type} := mkClient {
  td_client_ : bool;
  was_authorized_ : bool;
  closing_ : bool;
  logging_out_ : bool;
  is_api_id_invalid_ : bool;
  need_close_ : bool;
  clear_tqueue_ : bool;
  next_authorization_time_ : Q;
  prev_retry_after : Z;
  retry_after_error_message : slice;
  flood_limited_query_count_ : Z;
  next_flood_limit_warning_time_ : Q;
  cmd_queue_ : list Query;
  last_send_message_time_ : gmap Z Q;
  handlers_ : C;
  file_download_listeners_ : gmap Z (list Query);
  download_started_file_ids_ : gset Z;
  file_stream_listeners_ : gmap Z (list FileStreamRef);
  active_file_streams_ : gmap Z Z;
  pending_file_streams_ : list PendingFileStream;
  outs : list client_out;
}.
Arguments client C : clear implicits.

Section Setters.
Context {C : Type}.

Definition set_td_client_ v (c : client C) : client C :=
    mkClient C v (was_authorized_ c) (closing_ c) (logging_out_ c) (is_api_id_invalid_ c) (need_close_ c)
    (clear_tqueue_ c) (next_authorization_time_ c) (prev_retry_after c) (retry_after_error_message c)
    (flood_limited_query_count_ c) (next_flood_limit_warning_time_ c) (cmd_queue_ c)
    (last_send_message_time_ c) (handlers_ c) (file_download_listeners_ c) (download_started_file_ids_ c)
    (file_stream_listeners_ c) (active_file_streams_ c) (pending_file_streams_ c) (outs c).
Definition set_was_authorized_ v (c : client C) : client C :=
    mkClient C (td_client_ c) v (closing_ c) (logging_out_ c) (is_api_id_invalid_ c) (need_close_ c)
    (clear_tqueue_ c) (next_authorization_time_ c) (prev_retry_after c) (retry_after_error_message c)
    (flood_limited_query_count_ c) (next_flood_limit_warning_time_ c) (cmd_queue_ c)
    (last_send_message_time_ c) (handlers_ c) (file_download_listeners_ c) (download_started_file_ids_ c)
    (file_stream_listeners_ c) (active_file_streams_ c) (pending_file_streams_ c) (outs c).
Definition set_closing_ v (c : client C) : client C :=
    mkClient C (td_client_ c) (was_authorized_ c) v (logging_out_ c) (is_api_id_invalid_ c)
    (need_close_ c) (clear_tqueue_ c) (next_authorization_time_ c) (prev_retry_after c)
    (retry_after_error_message c) (flood_limited_query_count_ c) (next_flood_limit_warning_time_ c)
    (cmd_queue_ c) (last_send_message_time_ c) (handlers_ c) (file_download_listeners_ c)
    (download_started_file_ids_ c) (file_stream_listeners_ c) (active_file_streams_ c)
    (pending_file_streams_ c) (outs c).
Definition set_logging_out_ v (c : client C) : client C :=
    mkClient C (td_client_ c) (was_authorized_ c) (closing_ c) v (is_api_id_invalid_ c) (need_close_ c)
    (clear_tqueue_ c) (next_authorization_time_ c) (prev_retry_after c) (retry_after_error_message c)
    (flood_limited_query_count_ c) (next_flood_limit_warning_time_ c) (cmd_queue_ c)
    (last_send_message_time_ c) (handlers_ c) (file_download_listeners_ c) (download_started_file_ids_ c)
    (file_stream_listeners_ c) (active_file_streams_ c) (pending_file_streams_ c) (outs c).
Definition set_is_api_id_invalid_ v (c : client C) : client C :=
    mkClient C (td_client_ c) (was_authorized_ c) (closing_ c) (logging_out_ c) v (need_close_ c)
    (clear_tqueue_ c) (next_authorization_time_ c) (prev_retry_after c) (retry_after_error_message c)
    (flood_limited_query_count_ c) (next_flood_limit_warning_time_ c) (cmd_queue_ c)
    (last_send_message_time_ c) (handlers_ c) (file_download_listeners_ c) (download_started_file_ids_ c)
    (file_stream_listeners_ c) (active_file_streams_ c) (pending_file_streams_ c) (outs c).
Definition set_need_close_ v (c : client C) : client C :=
    mkClient C (td_client_ c) (was_authorized_ c) (closing_ c) (logging_out_ c) (is_api_id_invalid_ c) v
    (clear_tqueue_ c) (next_authorization_time_ c) (prev_retry_after c) (retry_after_error_message c)
    (flood_limited_query_count_ c) (next_flood_limit_warning_time_ c) (cmd_queue_ c)
    (last_send_message_time_ c) (handlers_ c) (file_download_listeners_ c) (download_started_file_ids_ c)
    (file_stream_listeners_ c) (active_file_streams_ c) (pending_file_streams_ c) (outs c).
Definition set_clear_tqueue_ v (c : client C) : client C :=
    mkClient C (td_client_ c) (was_authorized_ c) (closing_ c) (logging_out_ c) (is_api_id_invalid_ c)
    (need_close_ c) v (next_authorization_time_ c) (prev_retry_after c) (retry_after_error_message c)
    (flood_limited_query_count_ c) (next_flood_limit_warning_time_ c) (cmd_queue_ c)
    (last_send_message_time_ c) (handlers_ c) (file_download_listeners_ c) (download_started_file_ids_ c)
    (file_stream_listeners_ c) (active_file_streams_ c) (pending_file_streams_ c) (outs c).
Definition set_next_authorization_time_ v (c : client C) : client C :=
    mkClient C (td_client_ c) (was_authorized_ c) (closing_ c) (logging_out_ c) (is_api_id_invalid_ c)
    (need_close_ c) (clear_tqueue_ c) v (prev_retry_after c) (retry_after_error_message c)
    (flood_limited_query_count_ c) (next_flood_limit_warning_time_ c) (cmd_queue_ c)
    (last_send_message_time_ c) (handlers_ c) (file_download_listeners_ c) (download_started_file_ids_ c)
    (file_stream_listeners_ c) (active_file_streams_ c) (pending_file_streams_ c) (outs c).
Definition set_prev_retry_after v (c : client C) : client C :=
    mkClient C (td_client_ c) (was_authorized_ c) (closing_ c) (logging_out_ c) (is_api_id_invalid_ c)
    (need_close_ c) (clear_tqueue_ c) (next_authorization_time_ c) v (retry_after_error_message c)
    (flood_limited_query_count_ c) (next_flood_limit_warning_time_ c) (cmd_queue_ c)
    (last_send_message_time_ c) (handlers_ c) (file_download_listeners_ c) (download_started_file_ids_ c)
    (file_stream_listeners_ c) (active_file_streams_ c) (pending_file_streams_ c) (outs c).
Definition set_retry_after_error_message v (c : client C) : client C :=
    mkClient C (td_client_ c) (was_authorized_ c) (closing_ c) (logging_out_ c) (is_api_id_invalid_ c)
    (need_close_ c) (clear_tqueue_ c) (next_authorization_time_ c) (prev_retry_after c) v
    (flood_limited_query_count_ c) (next_flood_limit_warning_time_ c) (cmd_queue_ c)
    (last_send_message_time_ c) (handlers_ c) (file_download_listeners_ c) (download_started_file_ids_ c)
    (file_stream_listeners_ c) (active_file_streams_ c) (pending_file_streams_ c) (outs c).
Definition set_flood_limited_query_count_ v (c : client C) : client C :=
    mkClient C (td_client_ c) (was_authorized_ c) (closing_ c) (logging_out_ c) (is_api_id_invalid_ c)
    (need_close_ c) (clear_tqueue_ c) (next_authorization_time_ c) (prev_retry_after c)
    (retry_after_error_message c) v (next_flood_limit_warning_time_ c) (cmd_queue_ c)
    (last_send_message_time_ c) (handlers_ c) (file_download_listeners_ c) (download_started_file_ids_ c)
    (file_stream_listeners_ c) (active_file_streams_ c) (pending_file_streams_ c) (outs c).
Definition set_next_flood_limit_warning_time_ v (c : client C) : client C :=
    mkClient C (td_client_ c) (was_authorized_ c) (closing_ c) (logging_out_ c) (is_api_id_invalid_ c)
    (need_close_ c) (clear_tqueue_ c) (next_authorization_time_ c) (prev_retry_after c)
    (retry_after_error_message c) (flood_limited_query_count_ c) v (cmd_queue_ c)
    (last_send_message_time_ c) (handlers_ c) (file_download_listeners_ c) (download_started_file_ids_ c)
    (file_stream_listeners_ c) (active_file_streams_ c) (pending_file_streams_ c) (outs c).
Definition set_cmd_queue_ v (c : client C) : client C :=
    mkClient C (td_client_ c) (was_authorized_ c) (closing_ c) (logging_out_ c) (is_api_id_invalid_ c)
    (need_close_ c) (clear_tqueue_ c) (next_authorization_time_ c) (prev_retry_after c)
    (retry_after_error_message c) (flood_limited_query_count_ c) (next_flood_limit_warning_time_ c) v
    (last_send_message_time_ c) (handlers_ c) (file_download_listeners_ c) (download_started_file_ids_ c)
    (file_stream_listeners_ c) (active_file_streams_ c) (pending_file_streams_ c) (outs c).
Definition set_last_send_message_time_ v (c : client C) : client C :=
    mkClient C (td_client_ c) (was_authorized_ c) (closing_ c) (logging_out_ c) (is_api_id_invalid_ c)
    (need_close_ c) (clear_tqueue_ c) (next_authorization_time_ c) (prev_retry_after c)
    (retry_after_error_message c) (flood_limited_query_count_ c) (next_flood_limit_warning_time_ c)
    (cmd_queue_ c) v (handlers_ c) (file_download_listeners_ c) (download_started_file_ids_ c)
    (file_stream_listeners_ c) (active_file_streams_ c) (pending_file_streams_ c) (outs c).
Definition set_handlers_ v (c : client C) : client C :=
    mkClient C (td_client_ c) (was_authorized_ c) (closing_ c) (logging_out_ c) (is_api_id_invalid_ c)
    (need_close_ c) (clear_tqueue_ c) (next_authorization_time_ c) (prev_retry_after c)
    (retry_after_error_message c) (flood_limited_query_count_ c) (next_flood_limit_warning_time_ c)
    (cmd_queue_ c) (last_send_message_time_ c) v (file_download_listeners_ c)
    (download_started_file_ids_ c) (file_stream_listeners_ c) (active_file_streams_ c)
    (pending_file_streams_ c) (outs c).
Definition set_file_download_listeners_ v (c : client C) : client C :=
    mkClient C (td_client_ c) (was_authorized_ c) (closing_ c) (logging_out_ c) (is_api_id_invalid_ c)
    (need_close_ c) (clear_tqueue_ c) (next_authorization_time_ c) (prev_retry_after c)
    (retry_after_error_message c) (flood_limited_query_count_ c) (next_flood_limit_warning_time_ c)
    (cmd_queue_ c) (last_send_message_time_ c) (handlers_ c) v (download_started_file_ids_ c)
    (file_stream_listeners_ c) (active_file_streams_ c) (pending_file_streams_ c) (outs c).
Definition set_download_started_file_ids_ v (c : client C) : client C :=
    mkClient C (td_client_ c) (was_authorized_ c) (closing_ c) (logging_out_ c) (is_api_id_invalid_ c)
    (need_close_ c) (clear_tqueue_ c) (next_authorization_time_ c) (prev_retry_after c)
    (retry_after_error_message c) (flood_limited_query_count_ c) (next_flood_limit_warning_time_ c)
    (cmd_queue_ c) (last_send_message_time_ c) (handlers_ c) (file_download_listeners_ c) v
    (file_stream_listeners_ c) (active_file_streams_ c) (pending_file_streams_ c) (outs c).
Definition set_file_stream_listeners_ v (c : client C) : client C :=
    mkClient C (td_client_ c) (was_authorized_ c) (closing_ c) (logging_out_ c) (is_api_id_invalid_ c)
    (need_close_ c) (clear_tqueue_ c) (next_authorization_time_ c) (prev_retry_after c)
    (retry_after_error_message c) (flood_limited_query_count_ c) (next_flood_limit_warning_time_ c)
    (cmd_queue_ c) (last_send_message_time_ c) (handlers_ c) (file_download_listeners_ c)
    (download_started_file_ids_ c) v (active_file_streams_ c) (pending_file_streams_ c) (outs c).
Definition set_active_file_streams_ v (c : client C) : client C :=
    mkClient C (td_client_ c) (was_authorized_ c) (closing_ c) (logging_out_ c) (is_api_id_invalid_ c)
    (need_close_ c) (clear_tqueue_ c) (next_authorization_time_ c) (prev_retry_after c)
    (retry_after_error_message c) (flood_limited_query_count_ c) (next_flood_limit_warning_time_ c)
    (cmd_queue_ c) (last_send_message_time_ c) (handlers_ c) (file_download_listeners_ c)
    (download_started_file_ids_ c) (file_stream_listeners_ c) v (pending_file_streams_ c) (outs c).
Definition set_pending_file_streams_ v (c : client C) : client C :=
    mkClient C (td_client_ c) (was_authorized_ c) (closing_ c) (logging_out_ c) (is_api_id_invalid_ c)
    (need_close_ c) (clear_tqueue_ c) (next_authorization_time_ c) (prev_retry_after c)
    (retry_after_error_message c) (flood_limited_query_count_ c) (next_flood_limit_warning_time_ c)
    (cmd_queue_ c) (last_send_message_time_ c) (handlers_ c) (file_download_listeners_ c)
    (download_started_file_ids_ c) (file_stream_listeners_ c) (active_file_streams_ c) v (outs c).
Definition set_outs v (c : client C) : client C :=
    mkClient C (td_client_ c) (was_authorized_ c) (closing_ c) (logging_out_ c) (is_api_id_invalid_ c)
    (need_close_ c) (clear_tqueue_ c) (next_authorization_time_ c) (prev_retry_after c)
    (retry_after_error_message c) (flood_limited_query_count_ c) (next_flood_limit_warning_time_ c)
    (cmd_queue_ c) (last_send_message_time_ c) (handlers_ c) (file_download_listeners_ c)
    (download_started_file_ids_ c) (file_stream_listeners_ c) (active_file_streams_ c)
    (pending_file_streams_ c) v.
End Setters.

(** ** Methods *)

(** The names [Client::init_methods] knows. *)
Definition bot_methods : list slice :=
  [lit "getme"; lit "getmycommands"; lit "setmycommands"; lit "deletemycommands"; lit
   "getmydefaultadministratorrights"; lit "setmydefaultadministratorrights"; lit "getmyname"; lit
   "setmyname"; lit "setmyprofilephoto"; lit "removemyprofilephoto"; lit "getmydescription"; lit
   "setmydescription"; lit "getmyshortdescription"; lit "setmyshortdescription"; lit
   "getchatmenubutton"; lit "setchatmenubutton"; lit "getuserprofilephotos"; lit "getuserprofileaudios";
   lit "sendmessage"; lit "sendrichmessage"; lit "sendanimation"; lit "sendaudio"; lit "senddice"; lit
   "senddocument"; lit "sendlivephoto"; lit "sendphoto"; lit "sendsticker"; lit "sendvideo"; lit
   "sendvideonote"; lit "sendvoice"; lit "sendpaidmedia"; lit "sendgame"; lit "sendinvoice"; lit
   "sendlocation"; lit "sendvenue"; lit "sendcontact"; lit "sendpoll"; lit "stoppoll"; lit
   "sendchecklist"; lit "copymessage"; lit "copymessages"; lit "forwardmessage"; lit "forwardmessages";
   lit "sendmediagroup"; lit "sendchataction"; lit "sendmessagedraft"; lit "sendrichmessagedraft"; lit
   "setmessagereaction"; lit "editmessagetext"; lit "editmessagelivelocation"; lit
   "stopmessagelivelocation"; lit "editmessagemedia"; lit "editmessagecaption"; lit
   "editmessagechecklist"; lit "editmessagereplymarkup"; lit "editephemeralmessagetext"; lit
   "editephemeralmessagemedia"; lit "editephemeralmessagecaption"; lit
   "editephemeralmessagereplymarkup"; lit "deletemessage"; lit "deletemessages"; lit
   "deleteephemeralmessage"; lit "deletemessagereaction"; lit "deleteallmessagereactions"; lit
   "poststory"; lit "repoststory"; lit "editstory"; lit "deletestory"; lit "createinvoicelink"; lit
   "getmystarbalance"; lit "getstartransactions"; lit "refundstarpayment"; lit
   "edituserstarsubscription"; lit "getavailablegifts"; lit "sendgift"; lit "giftpremiumsubscription";
   lit "getmanagedbottoken"; lit "getmanagedbotaccesssettings"; lit "setmanagedbotaccesssettings"; lit
   "replacemanagedbottoken"; lit "verifyuser"; lit "verifychat"; lit "removeuserverification"; lit
   "removechatverification"; lit "setgamescore"; lit "getgamehighscores"; lit "answerwebappquery"; lit
   "answerguestquery"; lit "answerinlinequery"; lit "answerchatjoinrequestquery"; lit
   "sendchatjoinrequestwebapp"; lit "savepreparedinlinemessage"; lit "savepreparedkeyboardbutton"; lit
   "answercallbackquery"; lit "answershippingquery"; lit "answerprecheckoutquery"; lit
   "exportchatinvitelink"; lit "createchatinvitelink"; lit "createchatsubscriptioninvitelink"; lit
   "editchatinvitelink"; lit "editchatsubscriptioninvitelink"; lit "revokechatinvitelink"; lit
   "getbusinessconnection"; lit "readbusinessmessage"; lit "deletebusinessmessages"; lit
   "setbusinessaccountname"; lit "setbusinessaccountusername"; lit "setbusinessaccountbio"; lit
   "setbusinessaccountprofilephoto"; lit "removebusinessaccountprofilephoto"; lit
   "setbusinessaccountgiftsettings"; lit "getbusinessaccountstarbalance"; lit
   "transferbusinessaccountstars"; lit "getbusinessaccountgifts"; lit "getusergifts"; lit
   "getchatgifts"; lit "convertgifttostars"; lit "upgradegift"; lit "transfergift"; lit
   "setuseremojistatus"; lit "getchat"; lit "getuserpersonalchatmessages"; lit "setchatphoto"; lit
   "deletechatphoto"; lit "setchattitle"; lit "setchatpermissions"; lit "setchatdescription"; lit
   "pinchatmessage"; lit "unpinchatmessage"; lit "unpinallchatmessages"; lit "approvesuggestedpost"; lit
   "declinesuggestedpost"; lit "setchatstickerset"; lit "deletechatstickerset"; lit
   "getforumtopiciconstickers"; lit "createforumtopic"; lit "editforumtopic"; lit "closeforumtopic"; lit
   "reopenforumtopic"; lit "deleteforumtopic"; lit "unpinallforumtopicmessages"; lit
   "editgeneralforumtopic"; lit "closegeneralforumtopic"; lit "reopengeneralforumtopic"; lit
   "hidegeneralforumtopic"; lit "unhidegeneralforumtopic"; lit "unpinallgeneralforumtopicmessages"; lit
   "getchatmember"; lit "getchatadministrators"; lit "getchatmembercount"; lit "getchatmemberscount";
   lit "leavechat"; lit "promotechatmember"; lit "setchatadministratorcustomtitle"; lit
   "setchatmembertag"; lit "banchatmember"; lit "kickchatmember"; lit "restrictchatmember"; lit
   "unbanchatmember"; lit "banchatsenderchat"; lit "unbanchatsenderchat"; lit "approvechatjoinrequest";
   lit "declinechatjoinrequest"; lit "getuserchatboosts"; lit "getstickerset"; lit
   "getcustomemojistickers"; lit "uploadstickerfile"; lit "createnewstickerset"; lit "addstickertoset";
   lit "replacestickerinset"; lit "setstickersettitle"; lit "setstickersetthumb"; lit
   "setstickersetthumbnail"; lit "setcustomemojistickersetthumbnail"; lit "deletestickerset"; lit
   "setstickerpositioninset"; lit "deletestickerfromset"; lit "setstickeremojilist"; lit
   "setstickerkeywords"; lit "setstickermaskposition"; lit "setpassportdataerrors"; lit
   "sendcustomrequest"; lit "answercustomquery"; lit "getupdates"; lit "setwebhook"; lit
   "deletewebhook"; lit "getwebhookinfo"; lit "getfile"].

Definition is_local_method (method : slice) : bool :=
  existsb (fun m => bool_decide (method = m))
    [lit "close"; lit "logout"; lit "getme"; lit "getupdates"; lit "setwebhook"; lit "deletewebhook";
     lit "getwebhookinfo"].

Definition to_bool (value : slice) : bool :=
  let value := trim (to_lower_slice value) in
  existsb (fun s => bool_decide (value = s)) [lit "true"; lit "yes"; lit "1"].

Definition MAX_DOWNLOAD_FILE_SIZE : Z := Z.shiftl 20 20.

(** [JsonRawString]: [JsonValue::store] writes a number's text as it is, as
    the builder writes the text of a [JsonRawString]. *)
Definition JsonRawString (s : slice) : JsonValue := JsonNumber (json_raw_string s).

(** [Client::json_store_file] *)
Definition json_store_file (e : client_env) (file : td_file) (with_path : bool) : list (slice * JsonValue) :=
  if tf_id file =? 0 then []
  else
    [(lit "file_id", JsonStr (tf_remote_id file)); (lit "file_unique_id", JsonStr (tf_unique_id file))]
    ++ (if negb (tf_size file =? 0) then [(lit "file_size", JsonNumber (print_int 64 (tf_size file)))] else [])
    ++ (if with_path && tf_is_downloading_completed file then
          if local_mode_ e then
            [(lit "file_path", if check_utf8 (tf_path file) then JsonStr (tf_path file)
                               else JsonRawString (tf_path file))]
          else
            let relative_path := relative (tf_path file) (dir_ e) true in
            if negb (bool_decide (relative_path = [])) && (tf_downloaded_size file <=? MAX_DOWNLOAD_FILE_SIZE)
            then [(lit "file_path", JsonStr relative_path)] else []
        else []).
Definition JsonFile (e : client_env) (file : td_file) (with_path : bool) : JsonValue :=
  JsonObject (json_store_file e file with_path).

(** ** Requests to TDLib *)

(** The counters [Client::send] reads from the statistics actor. *)
Record stat_counters := mkStats {
  minute_update_count : Q;
  active_request_count : Z;
  active_file_upload_bytes : Z;
  active_file_upload_count : Z;
}.

(** [static_cast] of a [double] to an integer truncates. *)
Definition trunc (q : Q) : Z := Z.quot (Qnum q) (Zpos (Qden q)).

Definition q_lt (a b : Q) : bool := negb (Qle_bool b a).
Definition q_max (a b : Q) : Q := if Qle_bool a b then b else a.

Section Client.
Context {C : Type} `{IdStore handler C} (e : client_env).

Definition new_client : client C :=
  mkClient C true false false false false false false 0 0 [] 0 0 [] ∅ st_empty ∅ ∅ ∅ ∅ [] [].

Definition send_out (a : client_out) (c : client C) : client C := set_outs (outs c ++ [a]) c.

Definition answer_with (q : Query) (a : answer) (c : client C) : option (client C) :=
  _ ← give_answer q a; Some (send_out (Answered q a) c).

(** The answer of several queries, one after the other. *)
Fixpoint answer_all (f : Query → client C → option (client C)) (queries : list Query) (c : client C)
    : option (client C) :=
  match queries with
  | [] => Some c
  | q :: queries => c ← f q c; answer_all f queries c
  end.

Definition get_closing_error (now : Q) (c : client C) : option (ClosingError * client C) :=
  if logging_out_ c then
    if is_api_id_invalid_ c then Some (mkClosingError 401 0 (lit "Unauthorized: invalid api-id/api-hash"), c)
    else if q_lt 0 (next_authorization_time_ c) then
      let retry_after := Z.max (trunc (next_authorization_time_ c - now)) 0 + 1 in
      let c := if negb (retry_after =? prev_retry_after c)
               then set_retry_after_error_message (retry_prefix ++ print_int 32 retry_after)
                      (set_prev_retry_after retry_after c)
               else c in
      Some (mkClosingError 429 retry_after (retry_after_error_message c), c)
    else if clear_tqueue_ c then Some (mkClosingError 400 0 (lit "Logged out"), c)
    else Some (mkClosingError 401 0 (lit "Unauthorized"), c)
  else (CHECK! closing_ c ;; Some (mkClosingError 500 0 (lit "Internal Server Error: restart"), c))%td.

Definition fail_query_closing (now : Q) (q : Query) (c : client C) : option (client C) :=
  '(err, c) ← get_closing_error now c;
  answer_with q (if 0 <? ce_retry_after err then AnswerRetry (ce_retry_after err)
                 else AnswerError (ce_code err) (ce_message err) []) c.

Definition fail_query_flood_limit_exceeded (q : Query) (c : client C) : client C :=
  send_out (AnswerLater q 3 (AnswerRetry 60)) (set_flood_limited_query_count_ (flood_limited_query_count_ c + 1) c).

Definition fail_with_error (q : Query) (code : Z) (message default_message : slice) (c : client C)
    : option (client C) :=
  answer_with q (error_answer (q_method q) code message default_message) c.

Definition is_file_being_downloaded (file_id : Z) (c : client C) : bool :=
  bool_decide (is_Some (file_download_listeners_ c !! file_id)).

Definition on_file_download (file_id : Z) (r_file : result td_file) (c : client C) : option (client C) :=
  match file_download_listeners_ c !! file_id with
  | None => Some c
  | Some queries =>
      let c := set_file_download_listeners_ (delete file_id (file_download_listeners_ c)) c in
      let c := set_download_started_file_ids_ (download_started_file_ids_ c ∖ {[file_id]}) c in
      answer_all (fun q =>
        match r_file with
        | Err code message => fail_with_error q code message []
        | Ok file => answer_with q (AnswerOk (JsonFile e file true) [])
        end) queries c
  end.

(** Messages to the streams that listen to a file. *)
Definition tell_listeners (file_id : Z) (message : Z → client_out) (c : client C) : client C :=
  foldl (fun c stream => send_out (message (fs_actor stream)) c) c
    (default [] (file_stream_listeners_ c !! file_id)).

(** [on_result] of a callback that gets an error. *)
Definition callback_error (h : handler) (code : Z) (message : slice) (c : client C) : option (client C) :=
  match h with
  | OnCheckRemoteFileId query _ => fail_with_error query code message (lit "invalid file_id") c
  | OnDownloadFile file_id => on_file_download file_id (Err code message) c
  | OnFileStreamRemoteFile stream stream_id _ =>
      if bool_decide (active_file_streams_ c !! stream_id = None) then Some c
      else Some (send_out (StreamError stream code message) c)
  | OnFileStreamDownload file_id =>
      Some (tell_listeners file_id (fun stream => StreamError stream code message) c)
  | OnOkQuery query => fail_with_error query code message [] c
  | OnCancelDownloadFile | OnDeleteFile _ | OnOk => Some c
  | Moved => None
  end.

Definition do_send_request (f : td_function) (h : handler) (c : client C) : option (client C) :=
  (CHECK! td_client_ c ;;
   '(id, handlers) ← st_create (handlers_ c) h;
   Some (send_out (TdRequest id f) (set_handlers_ handlers c)))%td.

Definition send_request (now : Q) (f : td_function) (h : handler) (c : client C) : option (client C) :=
  if closing_ c || logging_out_ c then
    '(err, c) ← get_closing_error now c;
    callback_error h (ce_code err) (ce_message err) c
  else do_send_request f h c.

(** ** Files *)

Definition stream_progress (file : td_file) (stream : Z) : client_out :=
  StreamProgress stream (tf_size file) (tf_path file) (tf_download_offset file) (tf_downloaded_prefix_size file)
    (tf_is_downloading_completed file) (tf_is_downloading_active file).

Definition on_update_file (now : Q) (file : td_file) (c : client C) : option (client C) :=
  let file_id := tf_id file in
  let c := tell_listeners file_id (stream_progress file) c in
  if negb (is_file_being_downloaded file_id c) then Some c
  else if negb (local_mode_ e) && (MAX_DOWNLOAD_FILE_SIZE <? tf_downloaded_size file) then
    c ← (if tf_is_downloading_active file
         then send_request now (CancelDownloadFile file_id) OnCancelDownloadFile c else Some c);
    on_file_download file_id (Err 400 (lit "Bad Request: file is too big")) c
  else if tf_is_downloading_completed file then on_file_download file_id (Ok file) c
  else if negb (tf_is_downloading_active file) && bool_decide (file_id ∈ download_started_file_ids_ c) then
    if closing_ c || logging_out_ c then
      '(err, c) ← get_closing_error now c;
      on_file_download file_id (Err (ce_code err) (ce_message err)) c
    else on_file_download file_id
           (Err 400 (lit "Bad Request: wrong file_id or the file is temporarily unavailable")) c
  else Some c.

Definition do_get_file (now : Q) (file : td_file) (query : Query) (c : client C) : option (client C) :=
  if negb (local_mode_ e) && (MAX_DOWNLOAD_FILE_SIZE <? Z.max (tf_expected_size file) (tf_downloaded_size file))
  then answer_with query (AnswerError 400 (lit "Bad Request: file is too big") []) c
  else
    let file_id := tf_id file in
    let c := set_file_download_listeners_
      (<[file_id := default [] (file_download_listeners_ c !! file_id) ++ [query]]> (file_download_listeners_ c)) c in
    send_request now (DownloadFile file_id) (OnDownloadFile file_id) c.

(** [check_remote_file_id] with the ends of [process_get_file_query]. *)
Definition process_get_file_query (now : Q) (query : Query) (c : client C) : option (client C) :=
  let file_id := arg query (lit "file_id") in
  let metadata_only := to_bool (arg query (lit "metadata_only")) in
  if bool_decide (file_id = []) then
    answer_with query (AnswerError 400 (lit "Bad Request: file_id not specified") []) c
  else send_request now (GetRemoteFile file_id) (OnCheckRemoteFileId query metadata_only) c.

(** ** Streams *)

Definition start_file_stream (now : Q) (stream stream_id : Z) (file_id : slice) (expected_size : Z) (c : client C)
    : option (client C) :=
  let c := set_active_file_streams_ (<[stream_id := stream]> (active_file_streams_ c)) c in
  if negb (was_authorized_ c) then
    Some (set_pending_file_streams_
            (pending_file_streams_ c ++ [mkPending (mkRef stream_id stream) file_id expected_size]) c)
  else if closing_ c || logging_out_ c then
    '(err, c) ← get_closing_error now c;
    Some (send_out (StreamError stream (ce_code err) (ce_message err)) c)
  else if bool_decide (file_id = []) || (4096 <? slen file_id) then
    Some (send_out (StreamError stream 400 (lit "Invalid file_id specified")) c)
  else send_request now (GetRemoteFile file_id) (OnFileStreamRemoteFile stream stream_id expected_size) c.

(** The end of [remove_file_stream], where the stream may have been the last
    one of its file. *)
Definition remove_listener (now : Q) (stream_id file_id : Z) (remove_local_file : bool) (c : client C)
    : option (client C) :=
  match file_stream_listeners_ c !! file_id with
  | None => Some c
  | Some streams =>
      let streams := filter (fun stream => fs_id stream ≠ stream_id) streams in
      if bool_decide (streams = []) then
        let c := set_file_stream_listeners_ (delete file_id (file_stream_listeners_ c)) c in
        if is_file_being_downloaded file_id c then Some c
        else if remove_local_file then send_request now (DeleteFile file_id) (OnDeleteFile file_id) c
        else send_request now (CancelDownloadFile file_id) OnCancelDownloadFile c
      else Some (set_file_stream_listeners_ (<[file_id := streams]> (file_stream_listeners_ c)) c)
  end.

Definition remove_file_stream (now : Q) (stream_id file_id : Z) (remove_local_file : bool) (c : client C)
    : option (client C) :=
  let c := set_active_file_streams_ (delete stream_id (active_file_streams_ c)) c in
  let c := set_pending_file_streams_
    (filter (fun p => fs_id (pf_stream p) ≠ stream_id) (pending_file_streams_ c)) c in
  if file_id =? 0 then Some c else remove_listener now stream_id file_id remove_local_file c.

(** [TdOnFileStreamRemoteFileCallback::on_result] with a file. *)
Definition on_stream_remote_file (now : Q) (stream stream_id expected_size : Z) (file : td_file) (c : client C)
    : option (client C) :=
  if bool_decide (active_file_streams_ c !! stream_id = None) then Some c
  else
    match resolve_file_stream_size (tf_size file) expected_size with
    | Err code message => Some (send_out (StreamError stream code message) c)
    | Ok resolved_size =>
        let file_id := tf_id file in
        let listeners := default [] (file_stream_listeners_ c !! file_id) in
        let c := set_file_stream_listeners_
          (<[file_id := listeners ++ [mkRef stream_id stream]]> (file_stream_listeners_ c)) c in
        let c := send_out (StreamReady stream file_id resolved_size (tf_path file) (tf_download_offset file)
          (tf_downloaded_prefix_size file) (tf_is_downloading_completed file) (tf_is_downloading_active file)) c in
        if bool_decide (listeners = []) then send_request now (DownloadFile file_id) (OnFileStreamDownload file_id) c
        else Some c
    end.

(** ** Results of TDLib *)

(** [on_result] of the callbacks; a [CHECK] fails on an object of the wrong
    type. *)
Definition callback_result (now : Q) (h : handler) (result : td_object) (c : client C) : option (client C) :=
  match result, h with
  | TdError code message, _ => callback_error h code message c
  | TdFile file, OnCheckRemoteFileId query metadata_only =>
      if metadata_only : bool then answer_with query (AnswerOk (JsonFile e file false) []) c
      else do_get_file now file query c
  | TdFile file, OnDownloadFile file_id =>
      let c := if is_file_being_downloaded file_id c
               then set_download_started_file_ids_ (download_started_file_ids_ c ∪ {[file_id]}) c else c in
      on_update_file now file c
  | TdFile file, OnFileStreamRemoteFile stream stream_id expected_size =>
      on_stream_remote_file now stream stream_id expected_size file c
  | TdFile file, OnFileStreamDownload _ => on_update_file now file c
  | TdOk, OnFileStreamRemoteFile _ stream_id _ =>
      (CHECK! bool_decide (active_file_streams_ c !! stream_id = None) ;; Some c)%td
  | TdOk, OnOkQuery query => answer_with query (AnswerOk (JsonBoolean true) []) c
  | TdOk, (OnCancelDownloadFile | OnDeleteFile _ | OnOk) => Some c
  | TdFile _, OnOk => Some c
  | _, _ => None
  end.

(** A result goes to its callback, whose identifier is then given back. *)
Definition deliver_result (now : Q) (id : Z) (result : td_object) (c : client C) : option (client C) :=
  h ← st_get (handlers_ c) id;
  let c := set_handlers_ (st_update (handlers_ c) id (fun _ => Moved)) c in
  c ← callback_result now h result c;
  Some (set_handlers_ (st_erase (handlers_ c) id) c).

Definition warn_flood_limited (now : Q) (c : client C) : client C :=
  if (0 <? flood_limited_query_count_ c) && q_lt (next_flood_limit_warning_time_ c) now
  then set_next_flood_limit_warning_time_ (now + 1) (set_flood_limited_query_count_ 0 c) else c.

(** ** Queries *)

(** The delays of queries with big uploads: queries with the same size of
    files are spread over time. *)
Definition min_delay_of (file_size : Z) : Q :=
  let value := (inject_Z file_size * (1 # 10000000))%Q in
  if q_lt value (1 # 5) then 1 # 5 else if q_lt (9 # 10) value then 9 # 10 else value.

(** The end of [on_cmd]: the method is called. *)
Definition call_method (now : Q) (query : Query) (c : client C) : option (client C) :=
  if bool_decide (q_method query = lit "getfile") then process_get_file_query now query c
  else Some (send_out (CallMethod query) c).

Definition on_cmd (now : Q) (query : Query) (force : bool) (c : client C) : option (client C) :=
  let method := q_method query in
  let ready := td_client_ c && was_authorized_ c in
  let retry_after := trunc (600 - (now - start_time_ e)) in
  if ready && bool_decide (method = lit "close") then
    if (0 <? retry_after) && q_lt (server_start_time_ e + 600) (start_time_ e)
    then answer_with query (AnswerRetry retry_after) c
    else do_send_request CloseTd (OnOkQuery query) (set_need_close_ true c)
  else if ready && bool_decide (method = lit "logout") then
    do_send_request LogOut (OnOkQuery query) (set_clear_tqueue_ true c)
  else if logging_out_ c || closing_ c then fail_query_closing now query c
  else
    (CHECK! was_authorized_ c ;;
     if negb (existsb (fun m => bool_decide (m = method)) bot_methods) then
       answer_with query (AnswerError 404 (lit "Not Found: method not found") []) c
     else
       let file_size := files_size query in
       if negb (bool_decide (q_files query = [])) && negb (local_mode_ e) && negb force && (100000 <? file_size) then
         let last_send_message_time := default 0%Q (last_send_message_time_ c !! file_size) in
         if q_lt (now + 5) last_send_message_time then
           Some (fail_query_flood_limit_exceeded query
                   (set_last_send_message_time_ (<[file_size := last_send_message_time]> (last_send_message_time_ c)) c))
         else
           let min_delay := min_delay_of file_size in
           let last := q_max (last_send_message_time + min_delay) (now - 1) in
           let c := set_last_send_message_time_ (<[file_size := last]> (last_send_message_time_ c)) c in
           let c := send_out (DeleteTimeLater file_size (last + min_delay - (now - 1)) (1 + min_delay)) c in
           if q_lt now last then Some (send_out (CmdLater query (last - now)) c) else call_method now query c
       else call_method now query c)%td.

Definition delete_last_send_message_time (now : Q) (file_size : Z) (max_delay : Q) (c : client C) : client C :=
  let last := default 0%Q (last_send_message_time_ c !! file_size) in
  if Qeq_bool last 0 then c
  else if q_lt last (now - max_delay)
  then set_last_send_message_time_ (delete file_size (last_send_message_time_ c)) c else c.

(** [Client::loop]; the queries processed are taken from the front. *)
Fixpoint drain_queue (f : Query → client C → option (client C)) (queries : list Query) (c : client C)
    : option (client C) :=
  match queries with
  | [] => Some c
  | query :: queries => c ← f query (set_cmd_queue_ queries c); drain_queue f queries c
  end.
Definition loop (now : Q) (c : client C) : option (client C) :=
  if was_authorized_ c || logging_out_ c || closing_ c 
  then drain_queue (fun query => on_cmd now query false) (cmd_queue_ c) c else Some c.

(** The tests of [Client::send] that refuse a query. *)
Definition too_many_requests (now : Q) (stat : stat_counters) (query : Query) : bool :=
  if local_mode_ e || is_local_method (q_method query) || negb (q_lt (server_start_time_ e + 60) now) then false
  else
    let update_per_minute := trunc (minute_update_count stat * 60) in
    (1000 + update_per_minute <? active_request_count stat)
    || ((Z.shiftl 1 32 <? active_file_upload_bytes stat) && negb (bool_decide (q_files query = [])))
    || ((100 + Z.quot update_per_minute 5 <? active_file_upload_count stat)
        && negb (bool_decide (q_files query = []))).

Definition send (now : Q) (stat : stat_counters) (query : Query) (c : client C) : option (client C) :=
  if negb (q_is_internal query) && too_many_requests now stat query then
    Some (fail_query_flood_limit_exceeded query c)
  else loop now (set_cmd_queue_ (cmd_queue_ c ++ [query]) c).

(** ** Authorization and the end *)

(** [Client::log_out] *)
Definition log_out (now : Q) (error_code : Z) (error_message : slice) (c : client C) : option (client C) :=
  let c :=
    if bool_decide (error_message = lit "API_ID_INVALID") then set_is_api_id_invalid_ true c
    else if error_code =? 429 then
      let retry_after_time := get_retry_after_time error_message in
      if 0 <? retry_after_time
      then set_next_authorization_time_ (q_max (next_authorization_time_ c) (now + inject_Z retry_after_time)) c
      else c
    else if 500 <=? error_code
    then set_next_authorization_time_ (q_max (next_authorization_time_ c) (now + 1)) c
    else c in
  if td_client_ c && negb (logging_out_ c) && negb (closing_ c) then do_send_request LogOut OnOk c else Some c.

(** [Client::close] *)
Definition close (c : client C) : option (client C) :=
  let c := set_need_close_ true c in
  if negb (td_client_ c) then Some (send_out CloseTimer c)
  else if negb (closing_ c) then do_send_request CloseTd OnOk c else Some c.

(** [on_update_authorization_state] in the state authorizationStateReady, when
    the bot's own user is known. *)
Fixpoint start_streams (now : Q) (l : list PendingFileStream) (c : client C) : option (client C) :=
  match l with
  | [] => Some c
  | p :: l =>
      c ← start_file_stream now (fs_actor (pf_stream p)) (fs_id (pf_stream p)) (pf_file_id p) (pf_expected_size p) c;
      start_streams now l c
  end.
Definition on_authorization_ready (now : Q) (c : client C) : option (client C) :=
  c ← (if negb (was_authorized_ c) then
         let c := send_out ParentActive (set_was_authorized_ true c) in
         start_streams now (pending_file_streams_ c) (set_pending_file_streams_ [] c)
       else Some c);
  loop now c.

(** In the state authorizationStateLoggingOut. *)
Definition on_authorization_logging_out (now : Q) (c : client C) : option (client C) :=
  let c :=
    if logging_out_ c then c
    else
      let c := set_logging_out_ true c in
      if was_authorized_ c && negb (closing_ c) then send_out ParentInactive c else c in
  loop now c.

(** In the state authorizationStateClosing. *)
Definition on_authorization_closing (now : Q) (c : client C) : option (client C) :=
  let c :=
    if closing_ c then c
    else
      let c := set_closing_ true c in
      if was_authorized_ c && negb (logging_out_ c) then send_out ParentInactive c else c in
  loop now c.

(** [Client::on_closed]: the queries that wait and the streams.  The order of
    a hash map is unspecified; [map_to_list] is one. *)
Fixpoint fail_downloads (now : Q) (l : list (Z * list Query)) (c : client C) : option (client C) :=
  match l with
  | [] => Some c
  | (file_id, queries) :: l =>
      let c := set_file_download_listeners_ (delete file_id (file_download_listeners_ c)) c in
      c ← answer_all (fail_query_closing now) queries c;
      fail_downloads now l c
  end.
Definition stop_streams (c : client C) : client C :=
  let c := foldl (fun c stream => send_out (StreamError stream.2 503 (lit "Bot API client is closing")) c) c
    (map_to_list (active_file_streams_ c)) in
  let c := set_pending_file_streams_ [] (set_active_file_streams_ ∅ c) in
  set_download_started_file_ids_ ∅ (set_file_stream_listeners_ ∅ c).
Definition on_closed (now : Q) (c : client C) : option (client C) :=
  (CHECK! logging_out_ c || closing_ c ;;
   CHECK! td_client_ c ;;
   let c := set_td_client_ false c in
   c ← drain_queue (fail_query_closing now) (cmd_queue_ c) c;
   c ← fail_downloads now (map_to_list (file_download_listeners_ c)) c;
   Some (stop_streams c))%td.
End Client.

#[local] Arguments lit : simpl never.

(** ** The actor as a transition system *)

Inductive client_event :=
| EvSend (stat : stat_counters) (query : Query)
| EvDelayedCmd (query : Query)
| EvDeleteTime (file_size : Z) (max_delay : Q)
| EvStartStream (stream stream_id : Z) (file_id : slice) (expected_size : Z)
| EvRemoveStream (stream_id file_id : Z) (remove_local_file : bool)
| EvResult (id : Z) (result : td_object)
| EvUpdateFile (file : td_file)
| EvReady
| EvLoggingOut
| EvClosing
| EvClosed
| EvLogOut (code : Z) (message : slice)
| EvClose.

Definition handle_event {C} `{IdStore handler C} (e : client_env) (now : Q) (ev : client_event) (c : client C)
    : option (client C) :=
  match ev with
  | EvSend stat query => send e now stat query c
  | EvDelayedCmd query => on_cmd e now query true c
  | EvDeleteTime file_size max_delay => Some (delete_last_send_message_time now file_size max_delay c)
  | EvStartStream stream stream_id file_id expected_size => start_file_stream e now stream stream_id file_id expected_size c
  | EvRemoveStream stream_id file_id remove_local_file => remove_file_stream e now stream_id file_id remove_local_file c
  | EvResult id result => deliver_result e now id result c
  | EvUpdateFile file => on_update_file e now file c
  | EvReady => on_authorization_ready e now c
  | EvLoggingOut => on_authorization_logging_out e now c
  | EvClosing => on_authorization_closing e now c
  | EvClosed => on_closed now c
  | EvLogOut code message => log_out now code message c
  | EvClose => close c
  end.

(** What TDLib sends goes through [Client::on_result]: results with their
    identifier, updates with the identifier 0. *)
Definition from_td (ev : client_event) : bool :=
  match ev with
  | EvResult _ _ | EvUpdateFile _ | EvReady | EvLoggingOut | EvClosing | EvClosed => true
  | _ => false
  end.
Definition on_result {C} `{IdStore handler C} (e : client_env) (now : Q) (ev : client_event) (c : client C)
    : option (client C) :=
  handle_event e now ev (warn_flood_limited now c).

Definition client_step {C} `{IdStore handler C} (e : client_env) (now : Q) (ev : client_event) (c : client C)
    : option (client C) :=
  if from_td ev then on_result e now ev c else handle_event e now ev c.
Fixpoint client_run {C} `{IdStore handler C} (e : client_env) (evs : list (Q * client_event)) (c : client C)
    : option (client C) :=
  match evs with
  | [] => Some c
  | (now, ev) :: evs => c ← client_step e now ev c; client_run e evs c
  end.

(** ** Queries are neither lost nor doubled *)

(** The queries in a map of their holders. *)
Definition map_queries {A} (f : A → list Query) (m : gmap Z A) : list Query := map_to_list m ≫= (fun p => f p.2).

Lemma map_queries_insert {A} (f : A → list Query) m k a :
  m !! k = None → map_queries f (<[k:=a]> m) ≡ₚ f a ++ map_queries f m.
Proof. intros Hk. unfold map_queries. by rewrite map_to_list_insert. Qed.

Lemma map_queries_delete {A} (f : A → list Query) m k a :
  m !! k = Some a → map_queries f m ≡ₚ f a ++ map_queries f (delete k m).
Proof. intros Hk. unfold map_queries. by rewrite <- (map_to_list_delete m k a Hk). Qed.

Lemma map_queries_update {A} (f : A → list Query) m k a b :
  m !! k = Some a → f a ++ map_queries f (<[k:=b]> m) ≡ₚ f b ++ map_queries f m.
Proof.
  intros Hk. rewrite (map_queries_delete f m k a Hk), <- insert_delete_eq, map_queries_insert
    by apply lookup_delete_eq.
  by rewrite Permutation_app_swap_app.
Qed.

Definition handler_queries (h : handler) : list Query :=
  match h with OnCheckRemoteFileId q _ | OnOkQuery q => [q] | _ => [] end.

(** The queries given to someone else or answered by a message. *)
Definition out_queries (a : client_out) : list Query :=
  match a with Answered q _ | AnswerLater q _ _ | CallMethod q | CmdLater q _ => [q] | _ => [] end.

Definition event_queries (ev : client_event) : list Query :=
  match ev with EvSend _ q | EvDelayedCmd q => [q] | _ => [] end.

Section Conservation.
Context {C : Type} `{IdStoreLaws handler C} (e : client_env) {quiet : bool}.

(** The queries the client has, and all it ever had. *)
Definition waiting (c : client C) : list Query :=
  cmd_queue_ c ++ map_queries id (file_download_listeners_ c)
  ++ map_queries handler_queries (st_contents (handlers_ c)).
Definition had (c : client C) : list Query := (outs c ≫= out_queries) ++ waiting c.

Definition files_wf (c : client C) : Prop := st_wf (handlers_ c).

Definition same_streams (c c' : client C) : Prop :=
  active_file_streams_ c' = active_file_streams_ c ∧ pending_file_streams_ c' = pending_file_streams_ c
  ∧ file_stream_listeners_ c' = file_stream_listeners_ c ∧ was_authorized_ c' = was_authorized_ c.

(** An operation that is given [l] keeps every query, every callback and every
    message, and leaves the queue alone; a quiet one leaves the streams alone
    too. *)
Record keeps (l : list Query) (c c' : client C) : Prop := {
  keeps_wf : files_wf c → files_wf c';
  keeps_handlers : files_wf c → st_contents (handlers_ c) ⊆ st_contents (handlers_ c');
  keeps_had : files_wf c → had c' ≡ₚ l ++ had c;
  keeps_queue : cmd_queue_ c' = cmd_queue_ c;
  keeps_outs : outs c `prefix_of` outs c';
  keeps_streams : quiet = true → same_streams c c';
}.

Lemma keeps_trans l1 l2 c1 c2 c3 : keeps l1 c1 c2 → keeps l2 c2 c3 → keeps (l1 ++ l2) c1 c3.
Proof.
  intros [W1 S1 H1 E1 O1 T1] [W2 S2 H2 E2 O2 T2].
  split; [intros Hwf..|congruence|by etrans|].
  - auto.
  - etrans; [by apply S1|apply S2; auto].
  - rewrite H2, H1 by auto. solve_Permutation.
  - intros Hq. destruct (T1 Hq) as (? & ? & ? & ?), (T2 Hq) as (? & ? & ? & ?). split_and!; congruence.
Qed.

Lemma keeps_nil_l l c1 c2 c3 : keeps [] c1 c2 → keeps l c2 c3 → keeps l c1 c3.
Proof. apply (keeps_trans [] l). Qed.

Lemma keeps_nil_r l c1 c2 c3 : keeps l c1 c2 → keeps [] c2 c3 → keeps l c1 c3.
Proof. intros H1 H2. pose proof (keeps_trans l [] _ _ _ H1 H2) as H3. by rewrite app_nil_r in H3. Qed.

(** The parts the queries are in do not change. *)
Lemma keeps_frame c c' :
  outs c' = outs c → cmd_queue_ c' = cmd_queue_ c → file_download_listeners_ c' = file_download_listeners_ c →
  handlers_ c' = handlers_ c → (quiet = true → same_streams c c') → keeps [] c c'.
Proof.
  intros E1 E2 E3 E4 E5. split; [unfold files_wf, had, waiting; by rewrite ?E1, ?E2, ?E3, ?E4..|done|by rewrite E1|done].
Qed.

(** As [keeps_frame], of an operation on streams. *)
Lemma keeps_frame_loud c c' :
  quiet = false →
  outs c' = outs c → cmd_queue_ c' = cmd_queue_ c → file_download_listeners_ c' = file_download_listeners_ c →
  handlers_ c' = handlers_ c → keeps [] c c'.
Proof. intros Hq. intros. apply keeps_frame; [done..|congruence]. Qed.

Lemma keeps_refl c : keeps [] c c.
Proof. by apply keeps_frame. Qed.

Lemma keeps_send_out a c : keeps (out_queries a) c (send_out a c).
Proof.
  split; [done|done| |done|by apply prefix_app_r|done]. intros _. unfold had, waiting. cbn [send_out set_outs outs cmd_queue_ file_download_listeners_ handlers_].
  rewrite bind_app. cbn. rewrite app_nil_r. solve_Permutation.
Qed.

Lemma keeps_answer q a c c' : answer_with q a c = Some c' → keeps [q] c c'.
Proof.
  unfold answer_with. destruct (give_answer q a); [|done]. intros [= <-]. apply (keeps_send_out (Answered q a)).
Qed.

Lemma keeps_answer_all f queries c c' :
  (∀ q c c', f q c = Some c' → keeps [q] c c') → answer_all f queries c = Some c' → keeps queries c c'.
Proof.
  intros Hf. revert c. induction queries as [|q queries IH]; intros c; cbn [answer_all].
  - intros [= <-]. apply keeps_refl.
  - destruct (f q c) as [c1|] eqn:E; [|done]. cbn [mbind option_bind]. intros Hr%IH.
    exact (keeps_trans [q] queries _ _ _ (Hf _ _ _ E) Hr).
Qed.

(** A message for each element of a list. *)
Lemma send_outs {A} (message : A → client_out) l (c : client C) :
  foldl (fun c x => send_out (message x) c) c l = set_outs (outs c ++ (message <$> l)) c.
Proof.
  revert c. induction l as [|x l IH]; intros c; cbn [foldl fmap list_fmap].
  - rewrite app_nil_r. by destruct c.
  - rewrite IH. cbn. by rewrite <- (assoc_L (++)).
Qed.

Lemma keeps_send_outs {A} (message : A → client_out) l (c : client C) :
  (∀ x, out_queries (message x) = []) → keeps [] c (set_outs (outs c ++ (message <$> l)) c).
Proof.
  intros Hm. split; [done|done| |done|by apply prefix_app_r|done]. intros _. unfold had, waiting. cbn. rewrite bind_app.
  assert ((message <$> l) ≫= out_queries = []) as ->; [|by rewrite app_nil_r].
  induction l as [|x l IH]; [done|]. cbn. by rewrite Hm.
Qed.

Lemma keeps_tell file_id message c :
  (∀ stream, out_queries (message stream) = []) → keeps [] c (tell_listeners file_id message c).
Proof.
  intros Hm. unfold tell_listeners. rewrite (send_outs (fun stream => message (fs_actor stream))).
  apply (keeps_send_outs (fun stream => message (fs_actor stream))). intros x. apply Hm.
Qed.

Lemma keeps_closing_error now c err c' : get_closing_error now c = Some (err, c') → keeps [] c c'.
Proof.
  unfold get_closing_error, CHECK. intros Hc. split_ifs; simplify_eq; by apply keeps_frame.
Qed.

Lemma keeps_fail_closing now q c c' : fail_query_closing now q c = Some c' → keeps [q] c c'.
Proof.
  unfold fail_query_closing. destruct (get_closing_error now c) as [[err c1]|] eqn:E; [|done].
  cbn [mbind option_bind]. intros Hr. eapply keeps_nil_l; [by eapply keeps_closing_error|by eapply keeps_answer].
Qed.

Lemma keeps_file_download file_id r c c' : on_file_download e file_id r c = Some c' → keeps [] c c'.
Proof.
  unfold on_file_download. destruct (file_download_listeners_ c !! file_id) as [queries|] eqn:E;
    [|intros [= <-]; apply keeps_refl].
  intros Hr. apply keeps_answer_all in Hr as [W S Hh Hq Ho Ht].
  2: { intros q c1 c2. destruct r; apply keeps_answer. }
  split; [done|done| |done|done|done]. intros Hwf. rewrite Hh by done. unfold had, waiting. cbn.
  rewrite (map_queries_delete id (file_download_listeners_ c) file_id queries E). unfold id at 2. solve_Permutation.
Qed.

Lemma keeps_callback_error h code message c c' :
  callback_error e h code message c = Some c' → keeps (handler_queries h) c c'.
Proof.
  destruct h; cbn [callback_error handler_queries]; unfold fail_with_error;
    try apply keeps_answer; try done; try (intros [= <-]; apply keeps_refl).
  - apply keeps_file_download.
  - case_bool_decide; intros [= <-]; [apply keeps_refl|apply (keeps_send_out (StreamError _ _ _))].
  - intros [= <-]. by apply keeps_tell.
Qed.

Lemma keeps_do_send_request f h c c' : do_send_request f h c = Some c' → keeps (handler_queries h) c c'.
Proof.
  unfold do_send_request, CHECK. destruct (td_client_ c); [|done].
  destruct (st_create (handlers_ c) h) as [[id hs]|] eqn:E; [|done]. cbn [mbind option_bind]. intros [= <-].
  split; [unfold files_wf; cbn; intros Hwf; pose proof (st_create_contents _ _ _ _ Hwf E) as (_ & Hn & Hs)..|done|by apply prefix_app_r|done].
  - by eapply st_create_wf.
  - rewrite Hs. by apply insert_subseteq.
  - unfold had, waiting. cbn. rewrite bind_app. cbn. rewrite Hs, map_queries_insert by done. solve_Permutation.
Qed.

Lemma keeps_send_request now f h c c' : send_request e now f h c = Some c' → keeps (handler_queries h) c c'.
Proof.
  unfold send_request. destruct (_ || _); [|apply keeps_do_send_request].
  destruct (get_closing_error now c) as [[err c1]|] eqn:E; [|done]. cbn [mbind option_bind].
  intros Hr. eapply keeps_nil_l; [by eapply keeps_closing_error|by eapply keeps_callback_error].
Qed.

Lemma keeps_update_file now file c c' : on_update_file e now file c = Some c' → keeps [] c c'.
Proof.
  unfold on_update_file.
  assert (keeps [] c (tell_listeners (tf_id file) (stream_progress file) c)) as Ht by (by apply keeps_tell).
  revert Ht. generalize (tell_listeners (tf_id file) (stream_progress file) c) as c1. intros c1 Ht Hr.
  eapply keeps_nil_l; [exact Ht|]. revert Hr. clear Ht.
  destruct (negb (is_file_being_downloaded _ _)); [intros [= <-]; apply keeps_refl|].
  destruct (negb (local_mode_ e) && _).
  { destruct (tf_is_downloading_active file).
    - destruct (send_request _ _ _ _ _) as [c2|] eqn:E; [|done]. cbn [mbind option_bind]. intros Hr.
      eapply keeps_nil_l; [by eapply keeps_send_request in E|by eapply keeps_file_download].
    - apply keeps_file_download. }
  destruct (tf_is_downloading_completed file); [apply keeps_file_download|].
  destruct (negb _ && _); [|intros [= <-]; apply keeps_refl].
  destruct (_ || _); [|apply keeps_file_download].
  destruct (get_closing_error now c1) as [[err c2]|] eqn:E; [|done]. cbn [mbind option_bind]. intros Hr.
  eapply keeps_nil_l; [by eapply keeps_closing_error|by eapply keeps_file_download].
Qed.

(** One more query listens to a file. *)
Lemma keeps_listen file_id q c :
  keeps [q] c (set_file_download_listeners_
    (<[file_id := default [] (file_download_listeners_ c !! file_id) ++ [q]]> (file_download_listeners_ c)) c).
Proof.
  split; [done|done| |done|done|done]. intros _. unfold had, waiting. cbn.
  destruct (file_download_listeners_ c !! file_id) as [l|] eqn:E; cbn [default].
  - pose proof (map_queries_update id _ _ _ (l ++ [q]) E) as Hu. unfold id at 1 3 in Hu.
    assert (map_queries id (<[file_id:=l ++ [q]]> (file_download_listeners_ c))
            ≡ₚ [q] ++ map_queries id (file_download_listeners_ c)) as ->; [|solve_Permutation].
    apply (Permutation_app_inv_l l). etrans; [exact Hu|]. solve_Permutation.
  - rewrite map_queries_insert by done. unfold id at 1. solve_Permutation.
Qed.

Lemma keeps_do_get_file now file q c c' : do_get_file e now file q c = Some c' → keeps [q] c c'.
Proof.
  unfold do_get_file. destruct (_ && _); [apply keeps_answer|]. intros Hr%keeps_send_request.
  eapply keeps_nil_r; [apply keeps_listen|exact Hr].
Qed.

Lemma keeps_get_file_query now q c c' : process_get_file_query e now q c = Some c' → keeps [q] c c'.
Proof.
  unfold process_get_file_query. case_bool_decide; [apply keeps_answer|apply keeps_send_request].
Qed.

Lemma keeps_start_stream now stream sid fid size c c' :
  quiet = false → start_file_stream e now stream sid fid size c = Some c' → keeps [] c c'.
Proof.
  intros Hquiet. unfold start_file_stream. set (c1 := set_active_file_streams_ _ c). intros Hr.
  eapply keeps_nil_l; [by apply (keeps_frame_loud c c1)|]. revert Hr.
  destruct (negb (was_authorized_ c1)); [intros [= <-]; by apply keeps_frame_loud|].
  destruct (_ || _).
  - destruct (get_closing_error now c1) as [[err c2]|] eqn:E; [|done]. cbn [mbind option_bind]. intros [= <-].
    eapply keeps_nil_l; [by eapply keeps_closing_error|apply (keeps_send_out (StreamError _ _ _))].
  - destruct (_ || _); [intros [= <-]; apply (keeps_send_out (StreamError _ _ _))|apply keeps_send_request].
Qed.

Lemma keeps_remove_listener now sid fid b c c' : quiet = false → remove_listener e now sid fid b c = Some c' → keeps [] c c'.
Proof.
  intros Hquiet. unfold remove_listener. destruct (file_stream_listeners_ c !! fid) as [l|]; [|intros [= <-]; apply keeps_refl].
  cbv zeta. destruct (bool_decide _); [|intros [= <-]; by apply keeps_frame_loud].
  set (c1 := set_file_stream_listeners_ _ c). intros Hr.
  eapply keeps_nil_l; [by apply (keeps_frame_loud c c1)|]. revert Hr.
  destruct (is_file_being_downloaded fid c1); [intros [= <-]; apply keeps_refl|].
  destruct b; apply keeps_send_request.
Qed.

Lemma keeps_remove_stream now sid fid b c c' : quiet = false → remove_file_stream e now sid fid b c = Some c' → keeps [] c c'.
Proof.
  intros Hquiet. unfold remove_file_stream. cbv zeta. set (c1 := set_pending_file_streams_ _ _). intros Hr.
  eapply keeps_nil_l; [by apply (keeps_frame_loud c c1)|]. revert Hr.
  destruct (fid =? 0); [intros [= <-]; apply keeps_refl|by apply keeps_remove_listener].
Qed.

Lemma keeps_stream_remote now stream sid size file c c' :
  quiet = false → on_stream_remote_file e now stream sid size file c = Some c' → keeps [] c c'.
Proof.
  intros Hquiet. unfold on_stream_remote_file. destruct (bool_decide _); [intros [= <-]; apply keeps_refl|].
  destruct (resolve_file_stream_size _ _); [|intros [= <-]; apply (keeps_send_out (StreamError _ _ _))].
  cbv zeta. set (c1 := set_file_stream_listeners_ _ c). intros Hr.
  eapply keeps_nil_l; [by apply (keeps_frame_loud c c1)|]. eapply keeps_nil_l; [|].
  - apply (keeps_send_out (StreamReady stream (tf_id file) a (tf_path file) (tf_download_offset file)
      (tf_downloaded_prefix_size file) (tf_is_downloading_completed file) (tf_is_downloading_active file))).
  - revert Hr. destruct (bool_decide _); [apply keeps_send_request|intros [= <-]; apply keeps_refl].
Qed.

Lemma keeps_callback_result now h result c c' :
  (∀ stream sid size file, h = OnFileStreamRemoteFile stream sid size → result = TdFile file → quiet = false) →
  callback_result e now h result c = Some c' → keeps (handler_queries h) c c'.
Proof.
  intros Hquiet. unfold callback_result, CHECK. destruct result as [code message|file|]; [apply keeps_callback_error| |].
  - destruct h; cbn [handler_queries]; try done.
    + destruct metadata_only; [apply keeps_answer|apply keeps_do_get_file].
    + destruct (is_file_being_downloaded _ _); [|apply keeps_update_file].
      intros Hr%keeps_update_file. eapply keeps_nil_l; [|exact Hr]. by apply keeps_frame.
    + apply keeps_stream_remote. by eapply Hquiet.
    + apply keeps_update_file.
    + intros [= <-]. apply keeps_refl.
  - destruct h; cbn [handler_queries]; try done; try (intros [= <-]; apply keeps_refl).
    + destruct (bool_decide _); [|done]. intros [= <-]. apply keeps_refl.
    + apply keeps_answer.
Qed.

(** The callback leaves its place, is called and gives its identifier back. *)
Lemma deliver_result_had now id result c c' :
  quiet = false → files_wf c → st_last id = false → is_Some (st_contents (handlers_ c) !! id) →
  deliver_result e now id result c = Some c' → files_wf c' ∧ had c' ≡ₚ had c.
Proof.
  intros Hquiet Hwf Hlast [h Hget] Hr. unfold deliver_result in Hr.
  rewrite (st_get_live _ _ _ Hwf Hget) in Hr. cbn [mbind option_bind] in Hr. set (c1 := set_handlers_ _ c) in Hr.
  destruct (callback_result e now h result c1) as [c2|] eqn:E; [|done]. injection Hr as <-.
  pose proof (st_update_wf (handlers_ c) id (fun _ => Moved) Hwf) as Hwf1.
  pose proof (st_update_contents _ _ (fun _ => Moved) _ Hwf Hget) as Hc1.
  destruct (keeps_callback_result _ _ _ _ _ (fun _ _ _ _ _ _ => Hquiet) E) as [W S Hh _ _ _]. specialize (W Hwf1). specialize (S Hwf1). specialize (Hh Hwf1).
  unfold files_wf in *. cbn [c1 set_handlers_ handlers_] in S.
  assert (st_contents (handlers_ c2) !! id = Some Moved) as H2.
  { eapply lookup_weaken; [|exact S]. rewrite Hc1. apply lookup_insert_eq. }
  split; [apply st_erase_wf; [done|eauto]|].
  assert (had (set_handlers_ (st_erase (handlers_ c2) id) c2) ≡ₚ had c2) as ->.
  { unfold had, waiting. cbn. rewrite (st_erase_contents _ _ _ W H2 Hlast).
    by rewrite (map_queries_delete handler_queries _ _ _ H2). }
  rewrite Hh. unfold had, waiting. cbn. rewrite Hc1.
  pose proof (map_queries_update handler_queries _ _ _ Moved Hget) as Hu. cbn [handler_queries app] in Hu.
  rewrite <- Hu. solve_Permutation.
Qed.

(** The count of refused queries is of no matter to the rest. *)
Lemma warn_frame now (c : client C) :
  had (warn_flood_limited now c) = had c ∧ handlers_ (warn_flood_limited now c) = handlers_ c
  ∧ outs (warn_flood_limited now c) = outs c ∧ same_streams c (warn_flood_limited now c)
  ∧ file_download_listeners_ (warn_flood_limited now c) = file_download_listeners_ c
  ∧ download_started_file_ids_ (warn_flood_limited now c) = download_started_file_ids_ c.
Proof. unfold warn_flood_limited. by destruct (_ && _). Qed.

Lemma keeps_call_method now q c c' : call_method e now q c = Some c' → keeps [q] c c'.
Proof.
  unfold call_method. case_bool_decide; [apply keeps_get_file_query|]. intros [= <-].
  apply (keeps_send_out (CallMethod q)).
Qed.

Lemma keeps_cmd now q force c c' : on_cmd e now q force c = Some c' → keeps [q] c c'.
Proof.
  unfold on_cmd, CHECK. cbv zeta.
  destruct (_ && bool_decide (q_method q = lit "close")).
  { destruct (_ && _); [apply keeps_answer|]. intros Hr%keeps_do_send_request.
    eapply keeps_nil_l; [|exact Hr]. by apply keeps_frame. }
  destruct (_ && bool_decide (q_method q = lit "logout")).
  { intros Hr%keeps_do_send_request. eapply keeps_nil_l; [|exact Hr]. by apply keeps_frame. }
  destruct (_ || _); [apply keeps_fail_closing|].
  destruct (was_authorized_ c); [|done]. destruct (negb _); [apply keeps_answer|].
  destruct (_ && _); [|apply keeps_call_method].
  destruct (q_lt _ _).
  { intros [= <-]. unfold fail_query_flood_limit_exceeded. 
    match goal with |- keeps _ _ (send_out ?a ?x) => apply (keeps_nil_l _ c x); [by apply keeps_frame|exact (keeps_send_out a x)] end. }
  match goal with |- (if _ then Some (send_out _ ?x) else _) = _ → _ => set (c2 := x) end.
  assert (keeps [] c c2) as Hc2.
  { unfold c2.
    match goal with |- keeps _ _ (send_out ?a ?x) => apply (keeps_nil_l _ c x); [by apply keeps_frame|exact (keeps_send_out a x)] end. }
  destruct (q_lt _ _).
  - intros [= <-]. eapply keeps_nil_l; [exact Hc2|].
    match goal with |- keeps _ _ (send_out ?a ?x) => exact (keeps_send_out a x) end.
  - intros Hr%keeps_call_method. by eapply keeps_nil_l.
Qed.

(** Taking the first query of the queue. *)
Lemma had_pop q queries c : cmd_queue_ c = q :: queries → had c ≡ₚ [q] ++ had (set_cmd_queue_ queries c).
Proof. intros E. unfold had, waiting. rewrite E. cbn. solve_Permutation. Qed.

(** A whole event: the queue may change too. *)
Record conserves (l : list Query) (c c' : client C) : Prop := {
  conserves_wf : files_wf c → files_wf c';
  conserves_had : files_wf c → had c' ≡ₚ l ++ had c;
}.

Lemma keeps_conserves l c c' : keeps l c c' → conserves l c c'.
Proof. intros [W _ Hh _ _ _]. by split. Qed.

Lemma conserves_trans l1 l2 c1 c2 c3 : conserves l1 c1 c2 → conserves l2 c2 c3 → conserves (l1 ++ l2) c1 c3.
Proof. intros [W1 H1] [W2 H2]. split; [auto|]. intros Hwf. rewrite H2, H1 by auto. solve_Permutation. Qed.

Lemma drain_conserves f queries c c' :
  (∀ q c c', f q c = Some c' → keeps [q] c c') → cmd_queue_ c = queries →
  drain_queue f queries c = Some c' → conserves [] c c' ∧ cmd_queue_ c' = [].
Proof.
  intros Hf. revert c. induction queries as [|q queries IH]; intros c Hq; cbn [drain_queue].
  - intros [= <-]. split; [apply keeps_conserves, keeps_refl|done].
  - destruct (f q (set_cmd_queue_ queries c)) as [c1|] eqn:E; [|done]. cbn [mbind option_bind].
    destruct (Hf _ _ _ E) as [W _ Hh Hq1 _ _]. intros Hr. destruct (IH c1 Hq1 Hr) as [Hc Hq2]. split; [|done].
    apply (conserves_trans [] [] c c1); [|done]. split; [done|]. intros Hwf.
    rewrite (had_pop q queries c Hq). by rewrite Hh.
Qed.

Lemma loop_conserves now c c' : loop e now c = Some c' → conserves [] c c'.
Proof.
  unfold loop. destruct (_ || _); [|intros [= <-]; apply keeps_conserves, keeps_refl].
  intros Hr. eapply drain_conserves; [|reflexivity|exact Hr]. intros q c1 c2. apply keeps_cmd.
Qed.

Lemma start_streams_keeps now l c c' : quiet = false → start_streams e now l c = Some c' → keeps [] c c'.
Proof.
  intros Hquiet. revert c. induction l as [|p l IH]; intros c; cbn [start_streams]; [intros [= <-]; apply keeps_refl|].
  destruct (start_file_stream _ _ _ _ _ _ _) as [c1|] eqn:E; [|done]. cbn [mbind option_bind].
  intros Hr%IH. eapply keeps_nil_l; [by eapply keeps_start_stream|done].
Qed.

Lemma send_conserves now stat q c c' : send e now stat q c = Some c' → conserves [q] c c'.
Proof.
  unfold send. destruct (_ && _).
  - intros [= <-]. apply keeps_conserves. unfold fail_query_flood_limit_exceeded.
    match goal with |- keeps _ _ (send_out ?a ?x) => apply (keeps_nil_l _ c x); [by apply keeps_frame|exact (keeps_send_out a x)] end.
  - intros Hr%loop_conserves. apply (conserves_trans [q] [] _ (set_cmd_queue_ (cmd_queue_ c ++ [q]) c)); [|done].
    split; [done|]. intros _. unfold had, waiting. cbn. solve_Permutation.
Qed.

Lemma closing_error_frame now (c : client C) err c' :
  get_closing_error now c = Some (err, c') →
  file_download_listeners_ c' = file_download_listeners_ c ∧ active_file_streams_ c' = active_file_streams_ c
  ∧ td_client_ c' = td_client_ c ∧ outs c' = outs c ∧ download_started_file_ids_ c' = download_started_file_ids_ c
  ∧ file_stream_listeners_ c' = file_stream_listeners_ c.
Proof. unfold get_closing_error, CHECK. intros Hc. split_ifs; by simplify_eq. Qed.

Lemma fail_closing_frame now q (c c' : client C) :
  fail_query_closing now q c = Some c' →
  file_download_listeners_ c' = file_download_listeners_ c ∧ active_file_streams_ c' = active_file_streams_ c.
Proof.
  unfold fail_query_closing. destruct (get_closing_error now c) as [[err c1]|] eqn:E; [|done].
  cbn [mbind option_bind]. apply closing_error_frame in E as (E1 & E2 & _).
  unfold answer_with. destruct (give_answer _ _); [|done]. intros [= <-]. cbn. by rewrite E1, E2.
Qed.

Lemma fail_closing_td now q (c c' : client C) : fail_query_closing now q c = Some c' → td_client_ c' = td_client_ c.
Proof.
  unfold fail_query_closing. destruct (get_closing_error now c) as [[err c1]|] eqn:E; [|done].
  cbn [mbind option_bind]. apply closing_error_frame in E as (_ & _ & E & _).
  unfold answer_with. destruct (give_answer _ _); [|done]. intros [= <-]. exact E.
Qed.

Lemma answer_all_frame {A} (g : client C → A) f queries (c c' : client C) :
  (∀ q c c', f q c = Some c' → g c' = g c) → answer_all f queries c = Some c' → g c' = g c.
Proof.
  intros Hf. revert c. induction queries as [|q queries IH]; intros c; cbn [answer_all]; [by intros [= <-]|].
  destruct (f q c) as [c1|] eqn:E; [|done]. cbn [mbind option_bind]. intros Hr%IH. by rewrite Hr, (Hf _ _ _ E).
Qed.

Lemma fail_downloads_conserves now l c c' :
  l ≡ₚ map_to_list (file_download_listeners_ c) → fail_downloads now l c = Some c' →
  keeps [] c c' ∧ file_download_listeners_ c' = ∅ ∧ active_file_streams_ c' = active_file_streams_ c.
Proof.
  revert c. induction l as [|[fid queries] l IH]; intros c Hl; cbn [fail_downloads].
  - intros [= <-]. split; [apply keeps_refl|]. split; [|done].
    apply Permutation_nil_l in Hl. by apply map_to_list_empty_iff.
  - set (c1 := set_file_download_listeners_ _ c).
    destruct (answer_all _ queries c1) as [c2|] eqn:E; [|done]. cbn [mbind option_bind]. intros Hr.
    assert (file_download_listeners_ c !! fid = Some queries) as Hin.
    { apply elem_of_map_to_list. rewrite <- Hl. by left. }
    pose proof (answer_all_frame file_download_listeners_ _ _ _ _
      (fun q c1 c2 Hq => proj1 (fail_closing_frame now q c1 c2 Hq)) E) as Ef.
    pose proof (answer_all_frame active_file_streams_ _ _ _ _
      (fun q c1 c2 Hq => proj2 (fail_closing_frame now q c1 c2 Hq)) E) as Ea.
    destruct (IH c2) as (Hk & He & Ha); [|done|].
    { rewrite Ef. cbn. apply (Permutation_cons_inv (a := (fid, queries))).
      by rewrite (map_to_list_delete _ fid queries). }
    split; [|split; [done|by rewrite Ha, Ea]]. eapply keeps_nil_l; [|exact Hk].
    apply keeps_answer_all in E as [W S Hh Hq Ho Ht]; [|intros q c3 c4; apply keeps_fail_closing].
    split; [done|done| |done|done|done]. intros Hwf. rewrite Hh by done. unfold had, waiting. cbn.
    rewrite (map_queries_delete id (file_download_listeners_ c) fid queries Hin). unfold id at 2. solve_Permutation.
Qed.

Lemma fail_downloads_td now l (c c' : client C) : fail_downloads now l c = Some c' → td_client_ c' = td_client_ c.
Proof.
  revert c. induction l as [|[fid queries] l IH]; intros c; cbn [fail_downloads]; [by intros [= <-]|].
  destruct (answer_all _ queries _) as [c2|] eqn:E; [|done]. cbn [mbind option_bind]. intros Hr%IH.
  rewrite Hr. exact (answer_all_frame td_client_ _ _ _ _ (fun q c1 c2 Hq => fail_closing_td now q c1 c2 Hq) E).
Qed.

Lemma stop_streams_keeps c : quiet = false → keeps [] c (stop_streams c).
Proof.
  intros Hquiet. unfold stop_streams. rewrite send_outs. eapply (keeps_nil_l [] c (set_outs _ c)); [|by apply keeps_frame_loud].
  apply keeps_send_outs. intros p. done.
Qed.

Lemma drain_frame {A} (g : client C → A) f queries c c' :
  (∀ q c c', f q c = Some c' → g c' = g c) → (∀ queries c, g (set_cmd_queue_ queries c) = g c) →
  drain_queue f queries c = Some c' → g c' = g c.
Proof.
  intros Hf Hq. revert c. induction queries as [|q queries IH]; intros c; cbn [drain_queue]; [by intros [= <-]|].
  destruct (f q _) as [c1|] eqn:E; [|done]. cbn [mbind option_bind]. intros Hr%IH.
  by rewrite Hr, (Hf _ _ _ E), Hq.
Qed.

(** What is left of a client when TDLib is gone. *)
Lemma on_closed_spec now c c' :
  quiet = false → on_closed now c = Some c' →
  conserves [] c c' ∧ cmd_queue_ c' = [] ∧ file_download_listeners_ c' = ∅ ∧ active_file_streams_ c' = ∅
  ∧ pending_file_streams_ c' = [] ∧ file_stream_listeners_ c' = ∅ ∧ td_client_ c' = false
  ∧ download_started_file_ids_ c' = ∅
  ∧ ∀ stream_id stream, active_file_streams_ c !! stream_id = Some stream →
      StreamError stream 503 (lit "Bot API client is closing") ∈ outs c'.
Proof.
  intros Hquiet. unfold on_closed, CHECK. destruct (_ || _); [|done]. destruct (td_client_ c); [|done].
  set (c0 := set_td_client_ false c).
  destruct (drain_queue _ _ c0) as [c1|] eqn:E1; [|done]. cbn [mbind option_bind].
  destruct (fail_downloads _ _ c1) as [c2|] eqn:E2; [|done]. cbn [mbind option_bind]. intros [= <-].
  pose proof E1 as Ed.
  pose proof (drain_frame active_file_streams_ _ _ _ _
    (fun q c1 c2 Hq => proj2 (fail_closing_frame now q c1 c2 Hq)) (fun _ _ => eq_refl) E1) as Ha1.
  apply drain_conserves in E1 as [Hc1 Hq1]; [|intros q c3 c4; apply keeps_fail_closing|done].
  destruct (fail_downloads_conserves _ _ _ _ (reflexivity _) E2) as (Hk2 & Hd2 & Ha2).
  pose proof (keeps_nil_l _ _ _ _ Hk2 (stop_streams_keeps c2 Hquiet)) as Hk.
  split; [|split; [by rewrite (keeps_queue _ _ _ Hk)|]].
  - apply (conserves_trans [] [] c c0); [apply keeps_conserves; by apply keeps_frame|].
    apply (conserves_trans [] [] c0 c1); [done|by apply keeps_conserves].
  - assert (td_client_ c2 = false) as Htd.
    { rewrite (fail_downloads_td _ _ _ _ E2), (drain_frame td_client_ _ _ _ _
        (fun q c1 c2 Hq => fail_closing_td now q c1 c2 Hq) (fun _ _ => eq_refl) Ed). done. }
    unfold stop_streams. rewrite (send_outs (fun p => StreamError p.2 503 (lit "Bot API client is closing"))). cbn.
    split_and!; try done. intros sid stream Hs. apply elem_of_app. right.
    apply list_elem_of_fmap. exists (sid, stream). split; [done|]. apply elem_of_map_to_list.
    rewrite Ha2, Ha1. exact Hs.
Qed.

Lemma keeps_log_out now code message c c' : log_out now code message c = Some c' → keeps [] c c'.
Proof.
  unfold log_out. match goal with |- context [td_client_ ?x] => set (c1 := x) end.
  assert (keeps [] c c1) as Hc1 by (unfold c1; split_ifs; by apply keeps_frame).
  intros Hr. eapply keeps_nil_l; [exact Hc1|]. revert Hr. destruct (_ && _); [apply keeps_do_send_request|].
  intros [= <-]. apply keeps_refl.
Qed.

Lemma keeps_close c c' : close c = Some c' → keeps [] c c'.
Proof.
  unfold close. set (c1 := set_need_close_ true c). intros Hr.
  eapply keeps_nil_l; [by apply (keeps_frame c c1)|]. revert Hr.
  destruct (negb (td_client_ c1)); [intros [= <-]; apply (keeps_send_out CloseTimer)|].
  destruct (negb (closing_ c1)); [apply keeps_do_send_request|intros [= <-]; apply keeps_refl].
Qed.

(** The start of the two ends of the authorization. *)
Lemma keeps_end (f : client C → client C) (quit : bool) c :
  (∀ c, keeps [] c (f c)) → keeps [] c (if quit then send_out ParentInactive (f c) else f c).
Proof.
  intros Hf. destruct quit; [|done]. eapply keeps_nil_l; [apply Hf|apply (keeps_send_out ParentInactive)].
Qed.

(** What an event needs of its senders to keep the queries: a result goes to
    a callback that waits for it. *)
Definition result_ok (ev : client_event) (c : client C) : Prop :=
  match ev with
  | EvResult id _ => st_last id = false ∧ is_Some (st_contents (handlers_ c) !! id)
  | _ => True
  end.

Lemma handle_event_conserves now ev c c' :
  quiet = false → result_ok ev c → handle_event e now ev c = Some c' → conserves (event_queries ev) c c'.
Proof.
  intros Hquiet Hok. destruct ev; cbn [handle_event event_queries].
  - apply send_conserves.
  - intros Hr. eapply keeps_conserves, keeps_cmd, Hr.
  - intros [= <-]. apply keeps_conserves. unfold delete_last_send_message_time. split_ifs; by apply keeps_frame.
  - intros Hr. by eapply keeps_conserves, keeps_start_stream.
  - intros Hr. by eapply keeps_conserves, keeps_remove_stream.
  - destruct Hok as [Hlast Hlive]. intros Hr.
    split; intros Hwf; destruct (deliver_result_had _ _ _ _ _ Hquiet Hwf Hlast Hlive Hr); [done|]. by rewrite app_nil_l.
  - intros Hr. by eapply keeps_conserves, keeps_update_file.
  - unfold on_authorization_ready. destruct (negb (was_authorized_ c)); cbn [mbind option_bind]; [|apply loop_conserves].
    cbv zeta. destruct (start_streams _ _ _ _) as [c1|] eqn:E; [|done]. cbn [mbind option_bind].
    intros Hr%loop_conserves. apply (conserves_trans [] [] c c1); [|done].
    apply start_streams_keeps in E; [|done]. apply keeps_conserves. eapply keeps_nil_l; [|exact E].
    apply (keeps_nil_l [] c (send_out ParentActive (set_was_authorized_ true c))); [|by apply keeps_frame_loud].
    eapply keeps_nil_l; [by apply (keeps_frame_loud c (set_was_authorized_ true c))|].
    apply (keeps_send_out ParentActive).
  - intros Hr%loop_conserves. eapply (conserves_trans [] []); [|exact Hr]. apply keeps_conserves.
    destruct (logging_out_ c); [apply keeps_refl|]. apply (keeps_end (set_logging_out_ true)).
    intros c1. by apply keeps_frame.
  - intros Hr%loop_conserves. eapply (conserves_trans [] []); [|exact Hr]. apply keeps_conserves.
    destruct (closing_ c); [apply keeps_refl|]. apply (keeps_end (set_closing_ true)). intros c1. by apply keeps_frame.
  - intros Hr. by apply on_closed_spec in Hr as [Hr _].
  - intros Hr. eapply keeps_conserves, keeps_log_out, Hr.
  - intros Hr. eapply keeps_conserves, keeps_close, Hr.
Qed.

Lemma warn_result_ok now ev c : result_ok ev c → result_ok ev (warn_flood_limited now c).
Proof. destruct ev; try done. cbn. by destruct (warn_frame now c) as (_ & -> & _). Qed.

Lemma client_step_conserves now ev c c' :
  quiet = false → result_ok ev c → client_step e now ev c = Some c' → conserves (event_queries ev) c c'.
Proof.
  intros Hquiet Hok. unfold client_step, on_result. destruct (from_td ev); [|by apply handle_event_conserves].
  intros Hr. apply handle_event_conserves in Hr as [W Hh]; [|done|by apply warn_result_ok].
  destruct (warn_frame now c) as (Eh & Ec & _). unfold files_wf in W, Hh. rewrite Ec in W, Hh. rewrite Eh in Hh.
  by split.
Qed.

End Conservation.
