(* ===== verification/ClientLife.v ===== *)
(** * What holds in every run of a bot's client

    Reachable states of the actor of ClientFiles.v, and what never goes wrong
    in them: no query is lost, no stream is forgotten, every download somebody
    waits for is watched, an update of a file answers exactly those it should,
    and the end of the client leaves no query that waits for it and no stream.
    The last part is a defect: a
    stream that is removed before it learns its file is never forgotten by
    its file. *)

From Stdlib Require Import QArith Qround.
From S2P Require Import Prelude Slices Integers Json IpAddress Query QueryErrors PathView FileStreamRoute Container ClientFiles.

Local Open Scope Z_scope.
#[local] Arguments lit : simpl never.

(** ** Reachable states *)

Section Reach.
Context {C : Type} `{IdStoreLaws handler C} (e : client_env).

(** A state, with the queries the client was given on the way, those that
    come back after a delay again. *)
Inductive client_reach : list Query → client C → Prop :=
| reach_new : client_reach [] new_client
| reach_step received now ev c c' :
    client_reach received c → result_ok ev c → client_step e now ev c = Some c' →
    client_reach (event_queries ev ++ received) c'.

(** A run whose results all go to a callback that waits. *)
Fixpoint results_ok (evs : list (Q * client_event)) (c : client C) : Prop :=
  match evs with
  | [] => True
  | (now, ev) :: evs =>
      result_ok ev c ∧ match client_step e now ev c with Some c' => results_ok evs c' | None => True end
  end.

Fixpoint received_in (evs : list (Q * client_event)) (received : list Query) : list Query :=
  match evs with [] => received | (_, ev) :: evs => received_in evs (event_queries ev ++ received) end.

Lemma client_run_reach evs received c c' :
  client_reach received c → results_ok evs c → client_run e evs c = Some c' →
  client_reach (received_in evs received) c'.
Proof.
  revert received c. induction evs as [|[now ev] evs IH]; intros received c Hreach; cbn [results_ok client_run received_in].
  - by intros _ [= <-].
  - intros [Hok Hoks] Hr. destruct (client_step e now ev c) as [c1|] eqn:E; [|done]. cbn [mbind option_bind] in Hr.
    apply (IH _ c1); [|done..]. by eapply reach_step.
Qed.

Lemma new_client_wf : files_wf (new_client : client C).
Proof. apply st_empty_wf. Qed.

Lemma reach_had received c : client_reach received c → files_wf c ∧ had c ≡ₚ received.
Proof.
  induction 1 as [|received now ev c c' Hreach [Hwf Hhad] Hok Hstep].
  - split; [apply new_client_wf|]. unfold had, waiting. cbn.
    by rewrite st_empty_contents.
  - destruct (client_step_conserves (quiet := false) e now ev c c' eq_refl Hok Hstep) as [W Hh].
    split; [auto|]. rewrite Hh by done. by rewrite Hhad.
Qed.

(** C17: In every run of a bot's client every query it was given is in exactly one place: answered or passed
    on once, in the queue, waiting for a download, or held by one request to TDLib. *)
Theorem queries_conserved received c :
  client_reach received c →
  (outs c ≫= out_queries) ++ cmd_queue_ c ++ map_queries id (file_download_listeners_ c)
  ++ map_queries handler_queries (st_contents (handlers_ c)) ≡ₚ received.
Proof. intros [_ Hh]%reach_had. exact Hh. Qed.
End Reach.

(** ** Streams are not forgotten *)

Section Streams.
Context {C : Type} `{IdStoreLaws handler C} (e : client_env).

(** Where a stream the client knows can be: it waits for the authorization, a
    request for its file is on the way, it listens to its file, or it was told
    an error. *)
Inductive stream_status (c : client C) (stream_id stream : Z) : Prop :=
| StatusPending p : p ∈ pending_file_streams_ c → pf_stream p = mkRef stream_id stream → stream_status c stream_id stream
| StatusAsked id expected_size :
    st_contents (handlers_ c) !! id = Some (OnFileStreamRemoteFile stream stream_id expected_size) →
    stream_status c stream_id stream
| StatusListens file_id refs :
    file_stream_listeners_ c !! file_id = Some refs → mkRef stream_id stream ∈ refs → stream_status c stream_id stream
| StatusTold code message : StreamError stream code message ∈ outs c → stream_status c stream_id stream.

(** Every stream has a status, those of [P] apart; once the bot is
    authorized no stream is pending. *)
Record streams_ok_but (P : Z → Z → Prop) (c : client C) : Prop := {
  so_status stream_id stream :
    active_file_streams_ c !! stream_id = Some stream → stream_status c stream_id stream ∨ P stream_id stream;
  so_pending : was_authorized_ c = true → pending_file_streams_ c = [];
}.
Definition nobody (stream_id stream : Z) : Prop := False.
Definition streams_ok := streams_ok_but nobody.

(** What a step that is quiet for streams does. *)
Record quietly (c c' : client C) : Prop := {
  quiet_wf : files_wf c → files_wf c';
  quiet_handlers : files_wf c → st_contents (handlers_ c) ⊆ st_contents (handlers_ c');
  quiet_outs : outs c `prefix_of` outs c';
  quiet_streams : same_streams c c';
}.

Lemma keeps_quietly l c c' : keeps (quiet := true) l c c' → quietly c c'.
Proof. intros [W S _ _ O T]. split; auto. Qed.

Lemma quietly_refl c : quietly c c.
Proof. by split. Qed.

Lemma quietly_trans c1 c2 c3 : quietly c1 c2 → quietly c2 c3 → quietly c1 c3.
Proof.
  intros [W1 S1 O1 (?&?&?&?)] [W2 S2 O2 (?&?&?&?)]. split; [auto| |by etrans|split_and!; congruence].
  intros Hwf. etrans; [by apply S1|apply S2; auto].
Qed.

Lemma quietly_frame c c' : handlers_ c' = handlers_ c → outs c' = outs c → same_streams c c' → quietly c c'.
Proof. intros E1 E2 Hs. split; unfold files_wf; rewrite ?E1, ?E2; done. Qed.

Lemma drain_quietly f queries c c' :
  (∀ q c c', f q c = Some c' → quietly c c') → drain_queue f queries c = Some c' → quietly c c'.
Proof.
  intros Hf. revert c. induction queries as [|q queries IH]; intros c; cbn [drain_queue].
  - intros [= <-]. apply quietly_refl.
  - destruct (f q (set_cmd_queue_ queries c)) as [c1|] eqn:E; [|done]. cbn [mbind option_bind]. intros Hr%IH.
    eapply quietly_trans; [|exact Hr]. eapply quietly_trans; [|by eapply Hf]. by apply quietly_frame.
Qed.

Lemma loop_quietly now c c' : loop e now c = Some c' → quietly c c'.
Proof.
  unfold loop. destruct (_ || _); [|intros [= <-]; apply quietly_refl].
  apply drain_quietly. intros q c1 c2 Hr. eapply keeps_quietly, keeps_cmd, Hr.
Qed.

Lemma status_mono c c' stream_id stream :
  (∀ p, p ∈ pending_file_streams_ c → fs_id (pf_stream p) = stream_id → p ∈ pending_file_streams_ c') →
  st_contents (handlers_ c) ⊆ st_contents (handlers_ c') →
  (∀ file_id refs, file_stream_listeners_ c !! file_id = Some refs → mkRef stream_id stream ∈ refs →
     ∃ refs', file_stream_listeners_ c' !! file_id = Some refs' ∧ mkRef stream_id stream ∈ refs') →
  outs c `prefix_of` outs c' → stream_status c stream_id stream → stream_status c' stream_id stream.
Proof.
  intros Hp Hh Hl [l Ho] [p Hin Hs|id size Hid|fid refs Hr Hin|code message Hin].
  - eapply StatusPending; [|done]. apply Hp; [done|by rewrite Hs].
  - eapply StatusAsked, lookup_weaken; done.
  - destruct (Hl _ _ Hr Hin) as (refs' & ? & ?). by eapply StatusListens.
  - eapply StatusTold. rewrite Ho. apply elem_of_app. by left.
Qed.

Lemma status_quietly c c' stream_id stream :
  files_wf c → quietly c c' → stream_status c stream_id stream → stream_status c' stream_id stream.
Proof.
  intros Hwf [_ S O (_ & Ep & El & _)]. apply status_mono; [by rewrite Ep|by apply S|rewrite El; eauto|done].
Qed.

Lemma streams_quietly P c c' : files_wf c → quietly c c' → streams_ok_but P c → streams_ok_but P c'.
Proof.
  intros Hwf Hq [Hs Hp]. pose proof Hq as [_ _ _ (Ea & Ep & _ & Ew)]. split.
  - intros sid stream. rewrite Ea. intros [Hst|HP]%Hs; [left|by right]. by eapply status_quietly.
  - rewrite Ew, Ep. done.
Qed.

(** One stream gets a status. *)
Lemma streams_settle stream_id stream (P : Z → Z → Prop) c :
  stream_status c stream_id stream → streams_ok_but (fun i s => P i s ∨ i = stream_id ∧ s = stream) c → streams_ok_but P c.
Proof.
  intros Hst [Hs Hp]. split; [|done]. intros i s [?|[?|[-> ->]]]%Hs; auto.
Qed.

(** A stream is told an error, or a request for its file is sent. *)
Lemma told_status stream_id stream code message c :
  stream_status (send_out (StreamError stream code message) c) stream_id stream.
Proof. eapply StatusTold. cbn. apply elem_of_app. right. by apply list_elem_of_here. Qed.

Lemma ask_status now f stream stream_id size c c' :
  files_wf c → active_file_streams_ c !! stream_id = Some stream →
  send_request e now f (OnFileStreamRemoteFile stream stream_id size) c = Some c' →
  stream_status c' stream_id stream.
Proof.
  intros Hwf Ha. unfold send_request. destruct (_ || _).
  - destruct (get_closing_error now c) as [[err c1]|] eqn:E; [|done]. cbn [mbind option_bind callback_error].
    apply closing_error_frame in E as (_ & Ea & _). rewrite Ea, Ha.
    rewrite bool_decide_eq_false_2 by done. intros [= <-]. apply told_status.
  - unfold do_send_request, CHECK. destruct (td_client_ c); [|done].
    destruct (st_create _ _) as [[id hs]|] eqn:E; [|done]. cbn [mbind option_bind]. intros [= <-].
    apply st_create_contents in E as (_ & _ & E); [|done].
    apply (StatusAsked _ _ _ id size). cbn. rewrite E. apply lookup_insert_eq.
Qed.

Lemma start_stream_settles P now stream stream_id file_id size c c' :
  files_wf c → streams_ok_but (fun i s => P i s ∨ i = stream_id ∧ s = stream) c →
  start_file_stream e now stream stream_id file_id size c = Some c' → files_wf c' ∧ streams_ok_but P c'.
Proof.
  intros Hwf [Hs Hp] Hr. split; [apply (keeps_start_stream (quiet := false) e) in Hr; [by apply (keeps_wf _ _ _ Hr)|done]|].
  unfold start_file_stream in Hr. set (c1 := set_active_file_streams_ _ c) in Hr.
  assert (streams_ok_but (fun i s => P i s ∨ i = stream_id ∧ s = stream) c1) as Hok1.
  { split; [|done]. intros i s Hi. cbn in Hi. apply lookup_insert_Some in Hi as [[<- <-]|[_ Hi]]; [auto|].
    destruct (Hs i s Hi) as [Hst|]; [left|by right]. revert Hst. apply status_mono; [done|done|eauto|done]. }
  assert (active_file_streams_ c1 !! stream_id = Some stream) as Ha by apply lookup_insert_eq.
  revert Hr. change (files_wf c1) in Hwf. clearbody c1. clear c Hs Hp.
  destruct (was_authorized_ c1) eqn:Ew; cbn [negb].
  2:{ intros [= <-]. apply (streams_settle stream_id stream).
      - eapply StatusPending; [apply elem_of_app; right; by apply list_elem_of_here|done].
      - destruct Hok1 as [Hs _]. split; [|cbn; congruence]. intros i s [Hst|]%Hs; [left|by right].
        revert Hst. apply status_mono; [|done|eauto|done]. intros p Hin _. apply elem_of_app. by left. }
  destruct (_ || _).
  { destruct (get_closing_error now c1) as [[err c2]|] eqn:E; [|done]. cbn [mbind option_bind]. intros [= <-].
    apply (streams_settle stream_id stream); [apply told_status|].
    eapply streams_quietly; [exact Hwf| |exact Hok1]. eapply quietly_trans.
    - by eapply keeps_quietly, keeps_closing_error.
    - eapply keeps_quietly, (keeps_send_out (StreamError stream _ _)). }
  destruct (_ || _).
  { intros [= <-]. apply (streams_settle stream_id stream); [apply told_status|].
    eapply streams_quietly; [exact Hwf| |exact Hok1]. eapply keeps_quietly, (keeps_send_out (StreamError stream _ _)). }
  intros Hr. apply (streams_settle stream_id stream); [by eapply ask_status|].
  eapply streams_quietly; [exact Hwf| |exact Hok1]. by eapply keeps_quietly, keeps_send_request.
Qed.

(** The stream leaves the client's own lists. *)
Lemma forget_stream_ok stream_id c :
  streams_ok c →
  streams_ok (set_pending_file_streams_ (filter (fun p => fs_id (pf_stream p) ≠ stream_id) (pending_file_streams_ c))
                (set_active_file_streams_ (delete stream_id (active_file_streams_ c)) c)).
Proof.
  intros [Hs Hp]. split; [|cbn; intros Hw; by rewrite Hp]. intros i s Hi. cbn in Hi.
  apply lookup_delete_Some in Hi as [Hne Hi]. destruct (Hs i s Hi) as [Hst|]; [left|done].
  revert Hst. apply status_mono; [|done|eauto|done].
  intros p Hin Hid. apply list_elem_of_filter. split; [congruence|done].
Qed.

(** The listeners change in nothing that matters to other streams. *)
Lemma relisten_ok stream_id m c :
  active_file_streams_ c !! stream_id = None →
  (∀ file_id refs i s, i ≠ stream_id → file_stream_listeners_ c !! file_id = Some refs → mkRef i s ∈ refs →
     ∃ refs', m !! file_id = Some refs' ∧ mkRef i s ∈ refs') →
  streams_ok c → streams_ok (set_file_stream_listeners_ m c).
Proof.
  intros Ha Hm [Hs Hp]. split; [|done]. intros i s Hi. destruct (Hs i s Hi) as [Hst|]; [left|done].
  revert Hst. apply status_mono; [done|done| |done].
  intros fid refs. apply Hm. intros ->. cbn in Hi. congruence.
Qed.

Lemma remove_listener_ok now stream_id file_id b c c' :
  files_wf c → active_file_streams_ c !! stream_id = None → streams_ok c →
  remove_listener e now stream_id file_id b c = Some c' → streams_ok c'.
Proof.
  intros Hwf Ha Hok. unfold remove_listener.
  destruct (file_stream_listeners_ c !! file_id) as [refs|] eqn:El; [|by intros [= <-]]. cbv zeta.
  set (refs' := filter _ refs).
  assert (∀ i s, i ≠ stream_id → mkRef i s ∈ refs → mkRef i s ∈ refs') as Hf.
  { intros i s Hne Hin. by apply list_elem_of_filter. }
  case_bool_decide as Enil.
  - set (c1 := set_file_stream_listeners_ _ c). assert (streams_ok c1) as Hok1.
    { apply (relisten_ok stream_id); [done| |done]. intros fid refs0 i s Hne Hr Hin.
      destruct (decide (fid = file_id)) as [->|]; [|exists refs0; by rewrite lookup_delete_ne].
      simplify_eq. pose proof (Hf i s Hne Hin) as Hin'. rewrite Enil in Hin'. by apply not_elem_of_nil in Hin'. }
    destruct (is_file_being_downloaded _ _); [by intros [= <-]|].
    destruct b; intros Hr; apply (streams_quietly nobody c1); try done; by eapply keeps_quietly, keeps_send_request.
  - intros [= <-]. apply (relisten_ok stream_id); [done| |done]. intros fid refs0 i s Hne Hr Hin.
    destruct (decide (fid = file_id)) as [->|]; [|exists refs0; by rewrite lookup_insert_ne].
    simplify_eq. exists refs'. split; [apply lookup_insert_eq|by apply Hf].
Qed.

Lemma remove_stream_ok now stream_id file_id b c c' :
  files_wf c → streams_ok c → remove_file_stream e now stream_id file_id b c = Some c' → streams_ok c'.
Proof.
  intros Hwf Hok. unfold remove_file_stream. cbv zeta.
  pose proof (forget_stream_ok stream_id c Hok) as Hok1.
  destruct (file_id =? 0); [by intros [= <-]|]. apply remove_listener_ok; [done|apply lookup_delete_eq|done].
Qed.

(** The file of a stream is known. *)
Lemma stream_remote_ok now stream stream_id size file c c' :
  files_wf c → streams_ok_but (fun i s => i = stream_id ∧ s = stream) c →
  on_stream_remote_file e now stream stream_id size file c = Some c' → streams_ok c'.
Proof.
  intros Hwf Hok. unfold on_stream_remote_file.
  assert (streams_ok_but (fun i s => nobody i s ∨ i = stream_id ∧ s = stream) c) as Hok'.
  { destruct Hok as [Hs Hp]. split; [|done]. intros i s [?|?]%Hs; [by left|right; by right]. }
  case_bool_decide as Ha.
  { intros [= <-]. destruct Hok as [Hs Hp]. split; [|done]. intros i s Hi.
    destruct (Hs i s Hi) as [?|[-> ->]]; [by left|congruence]. }
  destruct (resolve_file_stream_size _ _) as [total|code message].
  2:{ intros [= <-]. apply (streams_settle stream_id stream); [apply told_status|].
    eapply streams_quietly; [exact Hwf| |exact Hok']. eapply keeps_quietly, (keeps_send_out (StreamError stream _ _)). }
  cbv zeta. set (listeners := default [] _). set (c1 := set_file_stream_listeners_ _ c).
  match goal with |- context [send_request _ _ _ _ ?x] => set (c2 := x) end.
  assert (files_wf c2) as Hwf2 by exact Hwf.
  assert (streams_ok c2) as Hok2.
  { apply (streams_settle stream_id stream).
    - apply (StatusListens _ _ _ (tf_id file) (listeners ++ [mkRef stream_id stream])); [apply lookup_insert_eq|].
      apply elem_of_app. right. by apply list_elem_of_here.
    - destruct Hok' as [Hs Hp]. split; [|done]. intros i s [Hst|]%Hs; [left|by right].
      revert Hst. apply status_mono; [done|done| |by apply prefix_app_r]. intros fid refs Hr Hin. cbn.
      destruct (decide (fid = tf_id file)) as [->|]; [|exists refs; by rewrite lookup_insert_ne].
      eexists. split; [apply lookup_insert_eq|]. unfold listeners. rewrite Hr. apply elem_of_app. by left. }
  case_bool_decide; [|by intros [= <-]].
  intros Hr. apply (streams_quietly nobody c2); try done. by eapply keeps_quietly, keeps_send_request.
Qed.

(** The streams a callback is about. *)
Definition asked_by (h : handler) (stream_id stream : Z) : Prop :=
  ∃ size, h = OnFileStreamRemoteFile stream stream_id size.

Lemma callback_streams_ok now h result c c' :
  files_wf c → streams_ok_but (asked_by h) c → callback_result e now h result c = Some c' → streams_ok c'.
Proof.
  intros Hwf Hok Hr.
  assert ((∃ stream sid size, h = OnFileStreamRemoteFile stream sid size) ∨
          (∀ stream sid size, h ≠ OnFileStreamRemoteFile stream sid size)) as [(stream & sid & size & ->)|Hno].
  { destruct h; try (right; congruence). left. eauto. }
  - assert (streams_ok_but (fun i s => i = sid ∧ s = stream) c) as Hok1.
    { destruct Hok as [Hs Hp]. split; [|done]. intros i s [?|[size' [= <- <- _]]]%Hs; auto. }
    assert (active_file_streams_ c !! sid = None → streams_ok c) as Hnone.
    { intros Ha. destruct Hok1 as [Hs Hp]. split; [|done]. intros i s Hi.
      destruct (Hs i s Hi) as [?|[-> ->]]; [by left|congruence]. }
    destruct result as [code message|file|]; cbn [callback_result callback_error] in Hr.
    + case_bool_decide as Ha; injection Hr as <-; [by apply Hnone|].
      apply (streams_settle sid stream); [apply told_status|].
      eapply streams_quietly; [exact Hwf| |].
      * eapply keeps_quietly, (keeps_send_out (StreamError stream code message)).
      * destruct Hok1 as [Hs Hp]. split; [|done]. intros i s [?|?]%Hs; [by left|right; by right].
    + by eapply stream_remote_ok.
    + unfold CHECK in Hr. case_bool_decide as Ha; [|done]. injection Hr as <-. by apply Hnone.
  - apply (streams_quietly nobody c); [done| |].
    + eapply keeps_quietly, keeps_callback_result, Hr. intros. subst. by edestruct Hno.
    + destruct Hok as [Hs Hp]. split; [|done]. intros i s [?|[size ?]]%Hs; [by left|]. by edestruct Hno.
Qed.

Lemma deliver_streams_ok now id result c c' :
  files_wf c → st_last id = false → is_Some (st_contents (handlers_ c) !! id) → streams_ok c →
  deliver_result e now id result c = Some c' → streams_ok c'.
Proof.
  intros Hwf Hlast [h Hget] [Hs Hp] Hr. unfold deliver_result in Hr.
  rewrite (st_get_live _ _ _ Hwf Hget) in Hr. cbn [mbind option_bind] in Hr. set (c1 := set_handlers_ _ c) in Hr.
  destruct (callback_result e now h result c1) as [c2|] eqn:E; [|done]. injection Hr as <-.
  assert (files_wf c1) as Hwf1 by (by apply st_update_wf).
  pose proof (st_update_contents _ _ (fun _ => Moved) _ Hwf Hget) as Hc1.
  assert (streams_ok_but (asked_by h) c1) as Hok1.
  { split; [|done]. intros i s Hi. destruct (Hs i s Hi) as [[p ??|id' size Hid|fid refs ??|code message ?]|[]].
    - left. by eapply StatusPending.
    - destruct (decide (id' = id)) as [->|]; [right; exists size; congruence|left].
      apply (StatusAsked _ _ _ id' size). cbn. rewrite Hc1. by rewrite lookup_insert_ne.
    - left. by eapply StatusListens.
    - left. by eapply StatusTold. }
  destruct (callback_streams_ok now h result c1 c2 Hwf1 Hok1 E) as [Hs2 Hp2].
  apply (keeps_callback_result (quiet := false) e) in E as [W S _ _ _ _]; [|done].
  specialize (W Hwf1). specialize (S Hwf1).
  assert (st_contents (handlers_ c2) !! id = Some Moved) as Hid2.
  { eapply lookup_weaken; [|exact S]. cbn. rewrite Hc1. apply lookup_insert_eq. }
  split; [|done]. intros i s Hi. destruct (Hs2 i s Hi) as [[p ??|id' size Hid|fid refs ??|code message ?]|[]]; left.
  - by eapply StatusPending.
  - apply (StatusAsked _ _ _ id' size). cbn. rewrite (st_erase_contents _ _ _ W Hid2 Hlast).
    rewrite lookup_delete_ne; [done|congruence].
  - by eapply StatusListens.
  - by eapply StatusTold.
Qed.

Lemma start_streams_ok now l c c' :
  files_wf c → streams_ok_but (fun i s => mkRef i s ∈ pf_stream <$> l) c → start_streams e now l c = Some c' →
  files_wf c' ∧ streams_ok c'.
Proof.
  revert c. induction l as [|p l IH]; intros c Hwf [Hs Hp]; cbn [start_streams].
  - intros [= <-]. split; [done|]. split; [|done]. intros i s [?|Hin]%Hs; [by left|]. by apply not_elem_of_nil in Hin.
  - destruct (start_file_stream _ _ _ _ _ _ _) as [c1|] eqn:E; [|done]. cbn [mbind option_bind].
    apply (start_stream_settles (fun i s => mkRef i s ∈ pf_stream <$> l)) in E as [Hwf1 Hok1]; [by apply IH|done|].
    split; [|done]. intros i s [?|Hin]%Hs; [by left|right].
    cbn in Hin. apply elem_of_cons in Hin as [Heq|]; [right|by left]. by destruct (pf_stream p); simplify_eq.
Qed.

Lemma ready_streams_ok now c c' :
  files_wf c → streams_ok c → on_authorization_ready e now c = Some c' → streams_ok c'.
Proof.
  intros Hwf [Hs Hp]. unfold on_authorization_ready. destruct (negb (was_authorized_ c)) eqn:Ew; cbn [mbind option_bind].
  2:{ intros Hr%loop_quietly. by apply (streams_quietly nobody c). }
  cbv zeta. destruct (start_streams _ _ _ _) as [c1|] eqn:E; [|done]. cbn [mbind option_bind].
  intros Hr%loop_quietly. apply start_streams_ok in E as [Hwf1 Hok1]; [by apply (streams_quietly nobody c1)|done|].
  split; [|done]. intros i s Hi. destruct (Hs i s Hi) as [[p Hin Hst|id' size Hid|fid refs ??|code message ?]|[]].
  - right. apply list_elem_of_fmap. eauto.
  - left. by eapply StatusAsked.
  - left. by eapply StatusListens.
  - left. eapply StatusTold. cbn. apply elem_of_app. by left.
Qed.

Lemma end_quietly (f : client C → client C) (quit : bool) c :
  (∀ c, quietly c (f c)) → quietly c (if quit then send_out ParentInactive (f c) else f c).
Proof.
  intros Hf. destruct quit; [|done]. eapply quietly_trans; [apply Hf|].
  eapply keeps_quietly, (keeps_send_out ParentInactive).
Qed.

Lemma handle_streams_ok now ev c c' :
  files_wf c → streams_ok c → result_ok ev c → handle_event e now ev c = Some c' → streams_ok c'.
Proof.
  intros Hwf Hok Hres. pose proof (fun c' Hq => streams_quietly nobody c c' Hwf Hq Hok) as Hquiet.
  destruct ev; cbn [handle_event].
  - unfold send. destruct (_ && _); intros Hr; apply Hquiet.
    + injection Hr as <-. eapply quietly_trans; [|eapply keeps_quietly, (keeps_send_out (AnswerLater _ _ _))].
      by apply quietly_frame.
    + apply loop_quietly in Hr. eapply quietly_trans; [|exact Hr]. by apply quietly_frame.
  - intros Hr. eapply Hquiet, keeps_quietly, keeps_cmd, Hr.
  - intros [= <-]. apply Hquiet. unfold delete_last_send_message_time. split_ifs; by apply quietly_frame.
  - intros Hr. eapply start_stream_settles; [exact Hwf| |exact Hr].
    destruct Hok as [Hs Hp]. split; [|done]. intros i s [?|?]%Hs; [by left|done].
  - by apply remove_stream_ok.
  - destruct Hres. by apply deliver_streams_ok.
  - intros Hr. eapply Hquiet, keeps_quietly, keeps_update_file, Hr.
  - by apply ready_streams_ok.
  - intros Hr%loop_quietly. apply Hquiet. eapply quietly_trans; [|exact Hr].
    destruct (logging_out_ c); [apply quietly_refl|]. apply (end_quietly (set_logging_out_ true)).
    intros c1. by apply quietly_frame.
  - intros Hr%loop_quietly. apply Hquiet. eapply quietly_trans; [|exact Hr].
    destruct (closing_ c); [apply quietly_refl|]. apply (end_quietly (set_closing_ true)).
    intros c1. by apply quietly_frame.
  - intros Hr. apply (on_closed_spec (quiet := false)) in Hr as (_ & _ & _ & Ha & Hp & _); [|done].
    split; [|done].
    intros i s. by rewrite Ha.
  - intros Hr. eapply Hquiet, keeps_quietly, keeps_log_out, Hr.
  - intros Hr. eapply Hquiet, keeps_quietly, keeps_close, Hr.
Qed.

Lemma step_streams_ok now ev c c' :
  files_wf c → streams_ok c → result_ok ev c → client_step e now ev c = Some c' → streams_ok c'.
Proof.
  intros Hwf Hok Hres. unfold client_step, on_result. destruct (from_td ev); [|by apply handle_streams_ok].
  destruct (warn_frame now c) as (_ & Ec & Eo & Es & _). apply handle_streams_ok.
  - unfold files_wf. by rewrite Ec.
  - apply (streams_quietly nobody c); [done|by apply quietly_frame|done].
  - by apply warn_result_ok.
Qed.

Lemma reach_streams received c : client_reach e received c → streams_ok c.
Proof.
  intros Hreach. assert (files_wf c ∧ streams_ok c) as [_ ?]; [|done].
  induction Hreach as [|received now ev c c' Hreach [Hwf Hok] Hres Hstep].
  - split; [apply new_client_wf|]. by split.
  - split; [|by eapply step_streams_ok].
    by apply (client_step_conserves (quiet := false) e) in Hstep as [W _]; [apply W|..].
Qed.

(** The streams that a run has given to the client and not removed, by their
    identifiers.  Those that are there at once have identifiers of their own, and
    a stream that is given has not been told anything before. *)
Definition given_after (ev : client_event) (given : gmap Z Z) : gmap Z Z :=
  match ev with
  | EvStartStream stream stream_id _ _ => <[stream_id := stream]> given
  | EvRemoveStream stream_id _ _ => delete stream_id given
  | _ => given
  end.
Definition was_told (stream : Z) (c : client C) : Prop := ∃ code message, StreamError stream code message ∈ outs c.
Definition starts_new (given : gmap Z Z) (ev : client_event) (c : client C) : Prop :=
  match ev with
  | EvStartStream stream stream_id _ _ => given !! stream_id = None ∧ ¬ was_told stream c
  | _ => True
  end.

Inductive streams_reach : gmap Z Z → client C → Prop :=
| given_new : streams_reach ∅ new_client
| given_step given now ev c c' :
    streams_reach given c → result_ok ev c → starts_new given ev c → client_step e now ev c = Some c' →
    streams_reach (given_after ev given) c'.

Lemma given_reach given c : streams_reach given c → ∃ received, client_reach e received c.
Proof.
  induction 1 as [|given now ev c c' _ [received Hr] Hres _ Hstep]; [eexists; apply reach_new|].
  eexists. by eapply reach_step.
Qed.

(** Between the streams that were given and the lists of the client. *)
Record given_ok (given : gmap Z Z) (c : client C) : Prop := {
  gv_known stream_id stream : given !! stream_id = Some stream → active_file_streams_ c !! stream_id = Some stream ∨ was_told stream c;
  gv_active stream_id stream : active_file_streams_ c !! stream_id = Some stream → given !! stream_id = Some stream;
  gv_pending p : p ∈ pending_file_streams_ c → active_file_streams_ c !! fs_id (pf_stream p) = Some (fs_actor (pf_stream p));
}.

Lemma told_mono stream c c' : outs c `prefix_of` outs c' → was_told stream c → was_told stream c'.
Proof. intros [l E] (code & m & Hin). exists code, m. rewrite E. apply elem_of_app. by left. Qed.

(** A change that leaves the lists of streams alone. *)
Record same_lists (c c' : client C) : Prop := {
  sl_active : active_file_streams_ c' = active_file_streams_ c;
  sl_pending : pending_file_streams_ c' = pending_file_streams_ c;
  sl_outs : outs c `prefix_of` outs c';
}.

Lemma lists_quietly c c' : quietly c c' → same_lists c c'.
Proof. intros [_ _ O (? & ? & _)]. by split. Qed.
Lemma lists_trans c1 c2 c3 : same_lists c1 c2 → same_lists c2 c3 → same_lists c1 c3.
Proof. intros [] []. split; [congruence..|by etrans]. Qed.

Lemma given_same given c c' : same_lists c c' → given_ok given c → given_ok given c'.
Proof.
  intros [Ea Ep Ho] [Hk Ha Hp]. split; rewrite ?Ea, ?Ep; [|done..].
  intros sid s Hg. destruct (Hk sid s Hg); [by left|right]. by eapply told_mono.
Qed.

Lemma on_closed_outs now (c c' : client C) : files_wf c → on_closed now c = Some c' → outs c `prefix_of` outs c'.
Proof.
  intros Hwf. unfold on_closed, CHECK. destruct (_ || _); [|done]. destruct (td_client_ c); [|done].
  destruct (drain_queue _ _ _) as [c1|] eqn:E1; [|done]. cbn [mbind option_bind].
  destruct (fail_downloads _ _ c1) as [c2|] eqn:E2; [|done]. cbn [mbind option_bind]. intros [= <-].
  apply drain_quietly in E1 as [_ _ O1 _]; [|intros q c3 c4 Hr; eapply keeps_quietly, keeps_fail_closing, Hr].
  destruct (fail_downloads_conserves (quiet := false) now _ _ _ (reflexivity _) E2) as ([_ _ _ _ O2 _] & _).
  trans (outs c1); [done|]. trans (outs c2); [done|]. unfold stop_streams. rewrite send_outs. by apply prefix_app_r.
Qed.

Lemma start_stream_given given now stream stream_id file_id size c c' :
  (given !! stream_id = None ∨ given !! stream_id = Some stream) → given_ok given c →
  start_file_stream e now stream stream_id file_id size c = Some c' → given_ok (<[stream_id := stream]> given) c'.
Proof.
  intros Hnew [Hk Ha Hp]. unfold start_file_stream. set (c1 := set_active_file_streams_ _ c).
  assert (given_ok (<[stream_id := stream]> given) c1) as Hok1.
  { split.
    - intros i s. rewrite lookup_insert_Some. intros [[<- <-]|[Hne Hg]]; [left; apply lookup_insert_eq|].
      cbn. rewrite lookup_insert_ne by done. by apply Hk.
    - intros i s. cbn. rewrite !lookup_insert_Some. intros [?|[? ?]]; [by left|right; auto].
    - intros p Hin. cbn. pose proof (Hp p Hin) as Hact. apply lookup_insert_Some.
      destruct (decide (stream_id = fs_id (pf_stream p))) as [E|]; [left|by right].
      split; [done|]. apply Ha in Hact. destruct Hnew; congruence. }
  assert (active_file_streams_ c1 !! stream_id = Some stream) as Hact by apply lookup_insert_eq.
  clearbody c1. destruct (was_authorized_ c1); cbn [negb].
  2:{ intros [= <-]. destruct Hok1 as [Hk1 Ha1 Hp1]. split; [done..|].
      intros p [Hin| ->%list_elem_of_singleton]%elem_of_app; [by apply Hp1|exact Hact]. }
  intros Hr. eapply given_same, Hok1. revert Hr. destruct (_ || _).
  { destruct (get_closing_error now c1) as [[err c2]|] eqn:E; [|done]. cbn [mbind option_bind]. intros [= <-].
    eapply lists_trans; [by eapply lists_quietly, keeps_quietly, keeps_closing_error|].
    eapply lists_quietly, keeps_quietly, (keeps_send_out (StreamError stream _ _)). }
  destruct (_ || _); [intros [= <-]; eapply lists_quietly, keeps_quietly, (keeps_send_out (StreamError stream _ _))|].
  intros Hr. by eapply lists_quietly, keeps_quietly, keeps_send_request.
Qed.

Lemma start_streams_given given now l c c' :
  (∀ p, p ∈ l → given !! fs_id (pf_stream p) = Some (fs_actor (pf_stream p))) → given_ok given c →
  start_streams e now l c = Some c' → given_ok given c'.
Proof.
  revert c. induction l as [|p l IH]; intros c Hl Hok; cbn [start_streams]; [by intros [= <-]|].
  destruct (start_file_stream _ _ _ _ _ _ _) as [c1|] eqn:E; [|done]. cbn [mbind option_bind]. intros Hr.
  assert (given !! fs_id (pf_stream p) = Some (fs_actor (pf_stream p))) as Hgp by (apply Hl; by left).
  apply (IH c1); [intros q Hq; apply Hl; by right| |exact Hr].
  rewrite <- (insert_id given _ _ Hgp). eapply start_stream_given, E; [by right|done].
Qed.

Lemma ready_given given now c c' : given_ok given c → on_authorization_ready e now c = Some c' → given_ok given c'.
Proof.
  intros Hok. unfold on_authorization_ready. destruct (negb (was_authorized_ c)); cbn [mbind option_bind].
  2:{ intros Hr%loop_quietly%lists_quietly. by eapply given_same. }
  cbv zeta. destruct (start_streams _ _ _ _) as [c1|] eqn:E; [|done]. cbn [mbind option_bind].
  intros Hr%loop_quietly%lists_quietly. eapply given_same; [exact Hr|]. destruct Hok as [Hk Ha Hp]. eapply start_streams_given, E.
  - intros p Hin. by apply Ha, Hp.
  - split; [|done|intros p Hin; by apply not_elem_of_nil in Hin].
    intros sid s [?|Ht]%Hk; [by left|right]. eapply told_mono, Ht. by apply prefix_app_r.
Qed.

Lemma remove_stream_given given now stream_id file_id b c c' :
  given_ok given c → remove_file_stream e now stream_id file_id b c = Some c' → given_ok (delete stream_id given) c'.
Proof.
  intros [Hk Ha Hp]. unfold remove_file_stream. cbv zeta. set (c1 := set_pending_file_streams_ _ _).
  assert (given_ok (delete stream_id given) c1) as Hok1.
  { split.
    - intros i s [Hne Hg]%lookup_delete_Some. cbn. rewrite lookup_delete_ne by done. by apply Hk.
    - intros i s. cbn. rewrite !lookup_delete_Some. intros [? ?]. split; [done|by apply Ha].
    - intros p [Hne Hin]%list_elem_of_filter. cbn. rewrite lookup_delete_ne by done. by apply Hp. }
  clearbody c1. destruct (file_id =? 0); [by intros [= <-]|]. unfold remove_listener.
  destruct (file_stream_listeners_ c1 !! file_id); [|by intros [= <-]]. cbv zeta. intros Hr. eapply given_same, Hok1. revert Hr.
  case_bool_decide; [|by intros [= <-]]. set (c2 := set_file_stream_listeners_ _ c1).
  destruct (is_file_being_downloaded _ _); [by intros [= <-]|].
  assert (same_lists c1 c2) as H12 by done.
  destruct b; intros Hr; (eapply lists_trans; [exact H12|]); by eapply lists_quietly, keeps_quietly, keeps_send_request.
Qed.

Lemma stream_remote_lists now stream stream_id size file c c' :
  on_stream_remote_file e now stream stream_id size file c = Some c' → same_lists c c'.
Proof.
  unfold on_stream_remote_file. case_bool_decide; [by intros [= <-]|].
  destruct (resolve_file_stream_size _ _); [|intros [= <-]; eapply lists_quietly, keeps_quietly, (keeps_send_out (StreamError stream _ _))].
  cbv zeta. match goal with |- context [send_request _ _ _ _ ?x] => set (c2 := x) end.
  assert (same_lists c c2) as H2 by (split; [done..|by apply prefix_app_r]).
  case_bool_decide; [|by intros [= <-]]. intros Hr. eapply lists_trans; [exact H2|].
  by eapply lists_quietly, keeps_quietly, keeps_send_request.
Qed.

Lemma callback_lists now h result c c' : callback_result e now h result c = Some c' → same_lists c c'.
Proof.
  assert ((∃ stream sid size, h = OnFileStreamRemoteFile stream sid size) ∨
          (∀ stream sid size, h ≠ OnFileStreamRemoteFile stream sid size)) as [(stream & sid & size & ->)|Hno].
  { destruct h; try (right; congruence). left. eauto. }
  - destruct result as [code message|file|]; cbn [callback_result callback_error].
    + case_bool_decide; intros [= <-]; [done|]. eapply lists_quietly, keeps_quietly, (keeps_send_out (StreamError stream code message)).
    + apply stream_remote_lists.
    + unfold CHECK. case_bool_decide; [|done]. by intros [= <-].
  - intros Hr. eapply lists_quietly, keeps_quietly, keeps_callback_result, Hr. intros. subst. by edestruct Hno.
Qed.

Lemma deliver_lists now id result c c' : deliver_result e now id result c = Some c' → same_lists c c'.
Proof.
  unfold deliver_result. destruct (st_get (handlers_ c) id) as [h|]; [|try done]. cbn [mbind option_bind].
  set (c1 := set_handlers_ _ c). destruct (callback_result e now h result c1) as [c2|] eqn:E; [|done].
  intros [= <-]. apply callback_lists in E as [Ea Ep Ho]. by split.
Qed.

Lemma handle_given given now ev c c' :
  files_wf c → given_ok given c → result_ok ev c → starts_new given ev c → handle_event e now ev c = Some c' →
  given_ok (given_after ev given) c'.
Proof.
  intros Hwf Hok Hres Hnew. pose proof (fun c' Hq => given_same given c c' (lists_quietly c c' Hq) Hok) as Hquiet.
  destruct ev; cbn [handle_event given_after].
  - unfold send. destruct (_ && _); intros Hr; apply Hquiet.
    + injection Hr as <-. eapply quietly_trans; [|eapply keeps_quietly, (keeps_send_out (AnswerLater _ _ _))].
      by apply quietly_frame.
    + apply loop_quietly in Hr. eapply quietly_trans; [|exact Hr]. by apply quietly_frame.
  - intros Hr. eapply Hquiet, keeps_quietly, keeps_cmd, Hr.
  - intros [= <-]. apply Hquiet. unfold delete_last_send_message_time. split_ifs; by apply quietly_frame.
  - apply start_stream_given; [left; apply Hnew|done].
  - by apply remove_stream_given.
  - intros Hr%deliver_lists. by eapply given_same.
  - intros Hr. eapply Hquiet, keeps_quietly, keeps_update_file, Hr.
  - by apply ready_given.
  - intros Hr%loop_quietly. apply Hquiet. eapply quietly_trans; [|exact Hr].
    destruct (logging_out_ c); [apply quietly_refl|]. apply (end_quietly (set_logging_out_ true)).
    intros c1. by apply quietly_frame.
  - intros Hr%loop_quietly. apply Hquiet. eapply quietly_trans; [|exact Hr].
    destruct (closing_ c); [apply quietly_refl|]. apply (end_quietly (set_closing_ true)).
    intros c1. by apply quietly_frame.
  - intros Hr. pose proof (on_closed_outs _ _ _ Hwf Hr) as Ho.
    apply (on_closed_spec (quiet := false)) in Hr as (_ & _ & _ & Ha & Hp & _ & _ & _ & Ht); [|done].
    destruct Hok as [Hk _ _]. split; rewrite ?Ha, ?Hp; [|done|intros p Hin; by apply not_elem_of_nil in Hin].
    intros i s [Hact|Hw]%Hk; right; [|by eapply told_mono]. do 2 eexists. by apply (Ht i).
  - intros Hr. eapply Hquiet, keeps_quietly, keeps_log_out, Hr.
  - intros Hr. eapply Hquiet, keeps_quietly, keeps_close, Hr.
Qed.

Lemma streams_reach_given given c : streams_reach given c → given_ok given c.
Proof.
  induction 1 as [|given now ev c c' Hr IH Hres Hnew Hstep]; [split; [done..|intros p Hin; by apply not_elem_of_nil in Hin]|].
  destruct (given_reach _ _ Hr) as [received [Hwf _]%reach_had].
  revert Hstep. unfold client_step, on_result. destruct (from_td ev) eqn:Etd; [|by apply handle_given].
  destruct (warn_frame now c) as (_ & Ec & Eo & (Ea & Ep & _) & _). apply handle_given.
  - unfold files_wf. by rewrite Ec.
  - eapply given_same, IH. split; [done..|by rewrite Eo].
  - by apply warn_result_ok.
  - by destruct ev.
Qed.

(** C18: No stream is forgotten: in every run of the client, each stream that was given to it
    (EvStartStream) and not removed since (EvRemoveStream) either was told an error, or is in the client's
    table of streams and waits for the authorization of the bot, has a request for its file on the way, or
    listens to its file; and once the bot is authorized no stream waits for it. The streams that were given
    are counted along the run, not read from the client's table. A stream that is given is new: its
    identifier, which the manager's container makes, is not that of a stream that is there, and the stream
    has not been told an error before. *)
Theorem streams_not_forgotten given c stream_id stream :
  streams_reach given c → given !! stream_id = Some stream →
  (was_told stream c
   ∨ active_file_streams_ c !! stream_id = Some stream
     ∧ ((∃ p, p ∈ pending_file_streams_ c ∧ pf_stream p = mkRef stream_id stream)
        ∨ (∃ id size, st_contents (handlers_ c) !! id = Some (OnFileStreamRemoteFile stream stream_id size))
        ∨ (∃ file_id refs, file_stream_listeners_ c !! file_id = Some refs ∧ mkRef stream_id stream ∈ refs)))
  ∧ (was_authorized_ c = true → pending_file_streams_ c = []).
Proof.
  intros Hr Hg. destruct (given_reach _ _ Hr) as [received [Hs Hp]%reach_streams]. split; [|done].
  destruct (gv_known _ _ (streams_reach_given _ _ Hr) _ _ Hg) as [Ha|?]; [|by left].
  destruct (Hs _ _ Ha) as [[p ? ?|id size ?|fid refs ? ?|code m ?]|[]].
  - right. split; [done|]. left. eauto.
  - right. split; [done|]. right; left. eauto.
  - right. split; [done|]. right; right. eauto.
  - left. by exists code, m.
Qed.

(** A run whose streams are new. *)
Fixpoint news_ok (evs : list (Q * client_event)) (given : gmap Z Z) (c : client C) : Prop :=
  match evs with
  | [] => True
  | (now, ev) :: evs =>
      starts_new given ev c ∧ match client_step e now ev c with Some c' => news_ok evs (given_after ev given) c' | None => True end
  end.
Fixpoint given_in (evs : list (Q * client_event)) (given : gmap Z Z) : gmap Z Z :=
  match evs with [] => given | (_, ev) :: evs => given_in evs (given_after ev given) end.

Lemma client_run_given evs given c c' :
  streams_reach given c → results_ok e evs c → news_ok evs given c → client_run e evs c = Some c' → streams_reach (given_in evs given) c'.
Proof.
  revert given c. induction evs as [|[now ev] evs IH]; intros given c Hr; cbn [results_ok news_ok client_run given_in].
  - by intros _ _ [= <-].
  - intros [Hok Hoks] [Hn Hns] E. destruct (client_step e now ev c) as [c1|] eqn:E1; [|done]. cbn [mbind option_bind] in E.
    apply (IH _ c1); [|done..]. by eapply given_step.
Qed.
End Streams.

(** ** Downloads are watched *)

(** Downloads end, in whole files, and none is added. *)
Section Fading.
Context {C : Type} `{IdStore handler C} (e : client_env).

Definition fades (c c' : client C) : Prop :=
  ∀ file_id,
    (file_download_listeners_ c' !! file_id = file_download_listeners_ c !! file_id
     ∧ (file_id ∈ download_started_file_ids_ c' ↔ file_id ∈ download_started_file_ids_ c))
    ∨ (file_download_listeners_ c' !! file_id = None ∧ file_id ∉ download_started_file_ids_ c').

#[export] Instance fades_preorder : PreOrder fades.
Proof.
  split.
  - intros c file_id. by left.
  - intros c1 c2 c3 H12 H23 fid. destruct (H23 fid) as [[E2 S2]|?]; [|by right].
    destruct (H12 fid) as [[E1 S1]|[E1 S1]]; [left|right]; split; [congruence|by rewrite S2|congruence|by rewrite S2].
Qed.

Lemma fades_frame (c c' : client C) :
  file_download_listeners_ c' = file_download_listeners_ c →
  download_started_file_ids_ c' = download_started_file_ids_ c → fades c c'.
Proof. intros E1 E2 fid. left. by rewrite E1, E2. Qed.

Lemma fades_sends {A} (message : A → client_out) l (c : client C) :
  fades c (foldl (fun c x => send_out (message x) c) c l).
Proof. rewrite send_outs. by apply fades_frame. Qed.

Lemma fades_answer q a (c c' : client C) : answer_with q a c = Some c' → fades c c'.
Proof. unfold answer_with. destruct (give_answer q a); [|done]. intros [= <-]. by apply fades_frame. Qed.

Lemma fades_closing_error now (c : client C) err c' : get_closing_error now c = Some (err, c') → fades c c'.
Proof. unfold get_closing_error, CHECK. intros Hc. split_ifs; simplify_eq; by apply fades_frame. Qed.

(** An operation that starts with the error of a closing client. *)
Lemma fades_closing {A} now (c : client C) (k : ClosingError → client C → option A) (Q : A → Prop) r :
  ('(err, c1) ← get_closing_error now c; k err c1) = Some r →
  (∀ err c1, fades c c1 → k err c1 = Some r → Q r) → Q r.
Proof.
  destruct (get_closing_error now c) as [[err c1]|] eqn:E; [|done]. cbn [mbind option_bind]. intros Hr Hk.
  eapply Hk; [by eapply fades_closing_error|done].
Qed.

Lemma fades_fail_closing now q (c c' : client C) : fail_query_closing now q c = Some c' → fades c c'.
Proof.
  intros Hr. apply (fades_closing _ _ _ _ _ Hr). intros err c1 Hc Hr1. etrans; [exact Hc|by eapply fades_answer].
Qed.

Lemma fades_answer_all f queries (c c' : client C) :
  (∀ q c c', f q c = Some c' → fades c c') → answer_all f queries c = Some c' → fades c c'.
Proof.
  intros Hf. revert c. induction queries as [|q queries IH]; intros c; cbn [answer_all]; [by intros [= <-]|].
  destruct (f q c) as [c1|] eqn:E; [|done]. cbn [mbind option_bind]. intros Hr%IH. etrans; [by eapply Hf|done].
Qed.

Lemma fades_file_download file_id r (c c' : client C) : on_file_download e file_id r c = Some c' → fades c c'.
Proof.
  unfold on_file_download. destruct (file_download_listeners_ c !! file_id) as [queries|]; [|by intros [= <-]].
  intros Hr. apply fades_answer_all in Hr; [|intros q c1 c2; destruct r; apply fades_answer].
  etrans; [|exact Hr]. intros fid. cbn. destruct (decide (fid = file_id)) as [->|Hne].
  - right. split; [apply lookup_delete_eq|set_solver].
  - left. split; [by rewrite lookup_delete_ne|set_solver].
Qed.

Lemma fades_callback_error h code message (c c' : client C) : callback_error e h code message c = Some c' → fades c c'.
Proof.
  destruct h; cbn [callback_error]; unfold fail_with_error; try apply fades_answer; try done; try (by intros [= <-]).
  - apply fades_file_download.
  - case_bool_decide; intros [= <-]; [done|by apply fades_frame].
  - intros [= <-]. apply (fades_sends (fun stream => StreamError (fs_actor stream) code message)).
Qed.

Lemma fades_do_send_request f h (c c' : client C) : do_send_request f h c = Some c' → fades c c'.
Proof.
  unfold do_send_request, CHECK. destruct (td_client_ c); [|done].
  destruct (st_create _ _) as [[id hs]|]; [|done]. cbn [mbind option_bind]. intros [= <-]. by apply fades_frame.
Qed.

Lemma fades_send_request now f h (c c' : client C) : send_request e now f h c = Some c' → fades c c'.
Proof.
  unfold send_request. destruct (_ || _); [|apply fades_do_send_request].
  intros Hr. apply (fades_closing _ _ _ _ _ Hr). intros err c1 Hc Hr1.
  etrans; [exact Hc|by eapply fades_callback_error].
Qed.

Lemma fades_update_file now file (c c' : client C) : on_update_file e now file c = Some c' → fades c c'.
Proof.
  unfold on_update_file. set (c1 := tell_listeners _ _ c). assert (fades c c1) as Ht.
  { apply (fades_sends (fun stream => stream_progress file (fs_actor stream))). }
  intros Hr. etrans; [exact Ht|]. clearbody c1. clear Ht. revert Hr.
  destruct (negb (is_file_being_downloaded _ _)); [by intros [= <-]|].
  destruct (negb (local_mode_ e) && _).
  { destruct (tf_is_downloading_active file); [|apply fades_file_download].
    destruct (send_request _ _ _ _ _) as [c2|] eqn:E; [|done]. cbn [mbind option_bind]. intros Hr%fades_file_download.
    etrans; [by eapply fades_send_request|done]. }
  destruct (tf_is_downloading_completed file); [apply fades_file_download|].
  destruct (negb _ && _); [|by intros [= <-]]. destruct (_ || _); [|apply fades_file_download].
  intros Hr. apply (fades_closing _ _ _ _ _ Hr). intros err c2 Hc Hr2. etrans; [exact Hc|by eapply fades_file_download].
Qed.

Lemma fades_start_stream now stream sid fid size (c c' : client C) :
  start_file_stream e now stream sid fid size c = Some c' → fades c c'.
Proof.
  unfold start_file_stream. set (c1 := set_active_file_streams_ _ c). intros Hr.
  trans c1; [by apply fades_frame|]. revert Hr.
  destruct (negb (was_authorized_ c1)); [intros [= <-]; by apply fades_frame|]. destruct (_ || _).
  - intros Hr. apply (fades_closing _ _ _ _ _ Hr). intros err c2 Hc [= <-]. etrans; [exact Hc|by apply fades_frame].
  - destruct (_ || _); [intros [= <-]; by apply fades_frame|apply fades_send_request].
Qed.

Lemma fades_start_streams now l (c c' : client C) : start_streams e now l c = Some c' → fades c c'.
Proof.
  revert c. induction l as [|p l IH]; intros c; cbn [start_streams]; [by intros [= <-]|].
  destruct (start_file_stream _ _ _ _ _ _ _) as [c1|] eqn:E; [|done]. cbn [mbind option_bind].
  intros Hr%IH. etrans; [by eapply fades_start_stream|done].
Qed.

Lemma fades_remove_stream now sid fid b (c c' : client C) : remove_file_stream e now sid fid b c = Some c' → fades c c'.
Proof.
  unfold remove_file_stream. cbv zeta. set (c1 := set_pending_file_streams_ _ _). intros Hr.
  trans c1; [by apply fades_frame|]. revert Hr. destruct (fid =? 0); [by intros [= <-]|].
  unfold remove_listener. destruct (file_stream_listeners_ c1 !! fid) as [l|]; [|by intros [= <-]]. cbv zeta.
  destruct (bool_decide _); [|intros [= <-]; by apply fades_frame].
  set (c2 := set_file_stream_listeners_ _ c1). intros Hr. trans c2; [by apply fades_frame|]. revert Hr.
  destruct (is_file_being_downloaded fid c2); [by intros [= <-]|]. destruct b; apply fades_send_request.
Qed.

Lemma fades_stream_remote now stream sid size file (c c' : client C) :
  on_stream_remote_file e now stream sid size file c = Some c' → fades c c'.
Proof.
  unfold on_stream_remote_file. destruct (bool_decide _); [by intros [= <-]|].
  destruct (resolve_file_stream_size _ _); [|intros [= <-]; by apply fades_frame].
  cbv zeta. match goal with |- context [send_request _ _ _ _ ?x] => set (c2 := x) end. intros Hr.
  trans c2; [by apply fades_frame|]. revert Hr.
  destruct (bool_decide _); [apply fades_send_request|by intros [= <-]].
Qed.

Lemma fades_call_method now q (c c' : client C) : call_method e now q c = Some c' → fades c c'.
Proof.
  unfold call_method, process_get_file_query. case_bool_decide; [|intros [= <-]; by apply fades_frame].
  case_bool_decide; [apply fades_answer|apply fades_send_request].
Qed.

Lemma fades_cmd now q force (c c' : client C) : on_cmd e now q force c = Some c' → fades c c'.
Proof.
  unfold on_cmd, CHECK. cbv zeta. destruct (_ && bool_decide (q_method q = lit "close")).
  { destruct (_ && _); [apply fades_answer|]. intros Hr%fades_do_send_request. etrans; [by apply fades_frame|exact Hr]. }
  destruct (_ && bool_decide (q_method q = lit "logout")).
  { intros Hr%fades_do_send_request. etrans; [by apply fades_frame|exact Hr]. }
  destruct (_ || _); [apply fades_fail_closing|].
  destruct (was_authorized_ c); [|done]. destruct (negb _); [apply fades_answer|].
  destruct (_ && _); [|apply fades_call_method]. destruct (q_lt _ _); [intros [= <-]; by apply fades_frame|].
  destruct (q_lt _ _); [intros [= <-]; by apply fades_frame|].
  intros Hr%fades_call_method. etrans; [|exact Hr]. by apply fades_frame.
Qed.

Lemma fades_drain f queries (c c' : client C) :
  (∀ q c c', f q c = Some c' → fades c c') → drain_queue f queries c = Some c' → fades c c'.
Proof.
  intros Hf. revert c. induction queries as [|q queries IH]; intros c; cbn [drain_queue]; [by intros [= <-]|].
  destruct (f q (set_cmd_queue_ queries c)) as [c1|] eqn:E; [|done]. cbn [mbind option_bind]. intros Hr%IH.
  etrans; [|exact Hr]. etrans; [|by eapply Hf]. by apply fades_frame.
Qed.

Lemma fades_loop now (c c' : client C) : loop e now c = Some c' → fades c c'.
Proof.
  unfold loop. destruct (_ || _); [|by intros [= <-]]. apply fades_drain. intros q c1 c2. apply fades_cmd.
Qed.
End Fading.

Section Watched.
Context {C : Type} `{IdStoreLaws handler C} (e : client_env).

(** Queries that wait for a file wait for something: the request to download
    it is on the way, or its download has started and updates of the file
    follow; [P] names the files that need neither. *)
Record downloads_ok_but (P : Z → Prop) (c : client C) : Prop := {
  dl_watched file_id queries :
    file_download_listeners_ c !! file_id = Some queries →
    queries ≠ [] ∧ (file_id ∈ download_started_file_ids_ c
                    ∨ (∃ id, st_contents (handlers_ c) !! id = Some (OnDownloadFile file_id)) ∨ P file_id);
  dl_started file_id : file_id ∈ download_started_file_ids_ c → is_Some (file_download_listeners_ c !! file_id);
}.
Definition no_file (file_id : Z) : Prop := False.
Definition downloads_ok := downloads_ok_but no_file.

Lemma downloads_fade P c c' :
  st_contents (handlers_ c) ⊆ st_contents (handlers_ c') → fades c c' → downloads_ok_but P c → downloads_ok_but P c'.
Proof.
  intros Hsub Hf [Hw Hs]. split.
  - intros fid queries Hq. destruct (Hf fid) as [[E1 E2]|[E1 _]]; [|congruence]. rewrite E1 in Hq.
    destruct (Hw _ _ Hq) as [Hne Hcase]. split; [done|]. rewrite E2.
    destruct Hcase as [?|[[id Hid]|?]]; [by left|right; left|by right; right].
    exists id. by eapply lookup_weaken.
  - intros fid Hin. destruct (Hf fid) as [[E1 E2]|[E1 E2]]; [|done]. rewrite E1. apply Hs. by apply E2.
Qed.

(** An exception that ended is none. *)
Lemma downloads_settle file_id c :
  file_download_listeners_ c !! file_id = None ∨ file_id ∈ download_started_file_ids_ c
  ∨ (∃ id, st_contents (handlers_ c) !! id = Some (OnDownloadFile file_id)) →
  downloads_ok_but (eq file_id) c → downloads_ok c.
Proof.
  intros Hcase [Hw Hs]. split; [|done]. intros fid queries Hq.
  destruct (Hw _ _ Hq) as [Hne [?|[?|<-]]]; [split; auto..|]. split; [done|].
  destruct Hcase as [?|[?|?]]; [congruence|by left|by right; left].
Qed.

Lemma file_download_none file_id r (c c' : client C) :
  on_file_download e file_id r c = Some c' → file_download_listeners_ c' !! file_id = None.
Proof.
  unfold on_file_download. destruct (file_download_listeners_ c !! file_id) as [queries|] eqn:E; [|by intros [= <-]].
  intros Hr. apply (answer_all_frame file_download_listeners_) in Hr.
  - rewrite Hr. apply lookup_delete_eq.
  - intros q c1 c2. destruct r; unfold fail_with_error, answer_with; destruct (give_answer _ _); try done; by intros [= <-].
Qed.

(** A request to download a file, whose callback may be called at once. *)
Lemma download_request_ok now f file_id c c' :
  files_wf c → downloads_ok_but (eq file_id) c →
  send_request e now f (OnDownloadFile file_id) c = Some c' → downloads_ok c'.
Proof.
  intros Hwf Hok Hr. apply (downloads_settle file_id).
  - revert Hr. unfold send_request. destruct (_ || _).
    + destruct (get_closing_error now c) as [[err c1]|]; [|done]. cbn [mbind option_bind callback_error].
      intros Hr%file_download_none. by left.
    + unfold do_send_request, CHECK. destruct (td_client_ c); [|done].
      destruct (st_create _ _) as [[id hs]|] eqn:E; [|done]. cbn [mbind option_bind]. intros [= <-].
      apply st_create_contents in E as (_ & _ & E); [|done]. right. right. exists id. cbn. rewrite E. apply lookup_insert_eq.
  - apply (downloads_fade _ c); [|by eapply fades_send_request|done].
    by apply (keeps_send_request (quiet := true) e) in Hr as [_ S _ _ _ _]; apply S.
Qed.

Lemma get_file_ok now file query c c' :
  files_wf c → downloads_ok c → do_get_file e now file query c = Some c' → downloads_ok c'.
Proof.
  intros Hwf Hok. unfold do_get_file. destruct (_ && _).
  { intros Hr. apply (downloads_fade _ c); [|by eapply fades_answer|done].
    by apply (keeps_answer (quiet := true)) in Hr as [_ S _ _ _ _]; apply S. }
  set (c1 := set_file_download_listeners_ _ c). apply download_request_ok; [done|].
  destruct Hok as [Hw Hs]. split.
  - intros fid queries Hq. cbn in Hq. apply lookup_insert_Some in Hq as [[<- <-]|[_ Hq]].
    + split; [by intros [_ ?]%app_eq_nil|by right; right].
    + destruct (Hw _ _ Hq) as [? [?|[?|[]]]]; auto.
  - intros fid Hin. cbn. destruct (decide (fid = tf_id file)) as [->|].
    + rewrite lookup_insert_eq. eauto.
    + rewrite lookup_insert_ne by done. by apply Hs.
Qed.

Lemma downloads_weaken (P Q : Z → Prop) c :
  (∀ file_id, P file_id → Q file_id) → downloads_ok_but P c → downloads_ok_but Q c.
Proof.
  intros HPQ [Hw Hs]. split; [|done]. intros fid queries Hq. destruct (Hw _ _ Hq) as [? [?|[?|?]]]; auto.
Qed.

(** The first answer to a request to download a file. *)
Lemma download_answer_ok now file_id file c c' :
  files_wf c → downloads_ok_but (eq file_id) c → callback_result e now (OnDownloadFile file_id) (TdFile file) c = Some c' →
  downloads_ok c'.
Proof.
  intros Hwf Hok Hr.
  assert (st_contents (handlers_ c) ⊆ st_contents (handlers_ c')) as Hsub.
  { by apply (keeps_callback_result (quiet := false) e) in Hr as [_ S _ _ _ _]; [apply S|]. }
  cbn [callback_result] in Hr. cbv zeta in Hr.
  destruct (is_file_being_downloaded file_id c) eqn:Ed; unfold is_file_being_downloaded in Ed.
  - apply bool_decide_eq_true in Ed. set (c1 := set_download_started_file_ids_ _ c) in Hr.
    apply (downloads_fade _ c1); [done|by eapply fades_update_file|].
    apply (downloads_settle file_id); [right; left; cbn; set_solver|].
    destruct Hok as [Hw Hs]. split.
    + intros fid queries Hq. destruct (Hw _ _ Hq) as [? [?|[?|?]]]; split; auto. left. cbn. set_solver.
    + intros fid Hin. cbn in Hin. apply elem_of_union in Hin as [Hin| ->%elem_of_singleton]; [by apply Hs|done].
  - apply bool_decide_eq_false in Ed. apply (downloads_fade _ c); [done|by eapply fades_update_file|].
    apply (downloads_settle file_id); [|done]. left. by apply eq_None_not_Some.
Qed.

(** The callbacks that neither begin a download nor hear of its begin. *)
Lemma callback_fades now h result c c' :
  (∀ query file, (h, result) ≠ (OnCheckRemoteFileId query false, TdFile file)) →
  (∀ file_id file, (h, result) ≠ (OnDownloadFile file_id, TdFile file)) →
  callback_result e now h result c = Some c' → fades c c'.
Proof.
  intros H1 H2 Hr. destruct result as [code message|file|]; cbn [callback_result] in Hr.
  - by eapply fades_callback_error.
  - destruct h; try done.
    + destruct metadata_only; [by eapply fades_answer|by edestruct H1].
    + by edestruct H2.
    + by eapply fades_stream_remote.
    + by eapply fades_update_file.
    + by injection Hr as <-.
  - destruct h; unfold CHECK in Hr; try done; try (by injection Hr as <-); [|by eapply fades_answer].
    case_bool_decide; [|done]. by injection Hr as <-.
Qed.

Lemma callback_downloads_ok now h result c c' :
  files_wf c → downloads_ok_but (fun file_id => h = OnDownloadFile file_id) c →
  callback_result e now h result c = Some c' → downloads_ok c'.
Proof.
  intros Hwf Hok Hr.
  assert (st_contents (handlers_ c) ⊆ st_contents (handlers_ c')) as Hsub.
  { by apply (keeps_callback_result (quiet := false) e) in Hr as [_ S _ _ _ _]; [apply S|]. }
  assert ((∃ file_id, h = OnDownloadFile file_id) ∨ ¬ ∃ file_id, h = OnDownloadFile file_id) as [[file_id ->]|Hno].
  { destruct h; eauto; right; by intros [? ?]. }
  - apply (downloads_weaken _ (eq file_id)) in Hok; [|congruence]. destruct result as [code message|file|]; [| |done].
    + apply (downloads_settle file_id); [left; by eapply file_download_none|].
      apply (downloads_fade _ c); [done|by eapply (fades_callback_error e _ _ _ _ _ Hr)|done].
    + by eapply download_answer_ok.
  - apply (downloads_weaken _ no_file) in Hok; [|intros fid ->; apply Hno; eauto].
    assert ((∃ query file, (h, result) = (OnCheckRemoteFileId query false, TdFile file)) ∨
            ∀ query file, (h, result) ≠ (OnCheckRemoteFileId query false, TdFile file))
      as [(query & file & [= -> ->])|Hno2].
    { destruct h as [query metadata_only| | | | | | | | ]; try (right; congruence).
      destruct metadata_only; [right; congruence|]. destruct result; try (right; congruence). eauto. }
    + by apply (get_file_ok now file query c).
    + apply (downloads_fade _ c); [done| |done]. eapply callback_fades, Hr; naive_solver.
Qed.

Lemma deliver_downloads_ok now id result c c' :
  files_wf c → st_last id = false → is_Some (st_contents (handlers_ c) !! id) → downloads_ok c →
  deliver_result e now id result c = Some c' → downloads_ok c'.
Proof.
  intros Hwf Hlast [h Hget] [Hw Hs] Hr. unfold deliver_result in Hr.
  rewrite (st_get_live _ _ _ Hwf Hget) in Hr. cbn [mbind option_bind] in Hr. set (c1 := set_handlers_ _ c) in Hr.
  destruct (callback_result e now h result c1) as [c2|] eqn:E; [|done]. injection Hr as <-.
  assert (files_wf c1) as Hwf1 by (by apply st_update_wf).
  pose proof (st_update_contents _ _ (fun _ => Moved) _ Hwf Hget) as Hc1.
  assert (downloads_ok_but (fun file_id => h = OnDownloadFile file_id) c1) as Hok1.
  { split; [|done]. intros fid queries Hq. destruct (Hw _ _ Hq) as [? [?|[[id' Hid]|[]]]]; [by auto|split; [done|]].
    right. destruct (decide (id' = id)) as [->|]; [right; congruence|left].
    exists id'. cbn. rewrite Hc1. by rewrite lookup_insert_ne. }
  destruct (callback_downloads_ok now h result c1 c2 Hwf1 Hok1 E) as [Hw2 Hs2].
  apply (keeps_callback_result (quiet := false) e) in E as [W S _ _ _ _]; [|done].
  specialize (W Hwf1). specialize (S Hwf1).
  assert (st_contents (handlers_ c2) !! id = Some Moved) as Hid2.
  { eapply lookup_weaken; [|exact S]. cbn. rewrite Hc1. apply lookup_insert_eq. }
  split; [|done]. intros fid queries Hq. destruct (Hw2 _ _ Hq) as [? [?|[[id' Hid]|[]]]]; [by auto|split; [done|]].
  right. left. exists id'. cbn. rewrite (st_erase_contents _ _ _ W Hid2 Hlast). rewrite lookup_delete_ne; [done|congruence].
Qed.

(** The other events of a client: they ask for no download. *)
Lemma event_fades now ev c c' :
  (∀ id result, ev ≠ EvResult id result) → ev ≠ EvClosed → handle_event e now ev c = Some c' →
  fades c c' ∧ (files_wf c → st_contents (handlers_ c) ⊆ st_contents (handlers_ c')).
Proof.
  intros H1 H2. assert (∀ (f : client C → client C) (quit : bool), (∀ c, fades c (f c)) →
    fades c (if quit then send_out ParentInactive (f c) else f c)) as Hend.
  { intros f quit Hf. destruct quit; [|done]. etrans; [apply Hf|by apply fades_frame]. }
  destruct ev; cbn [handle_event]; try done; try (by edestruct H1).
  - unfold send. destruct (_ && _); [intros [= <-]; split; [by apply fades_frame|done]|].
    intros Hr. split; [|by apply (loop_quietly e) in Hr as [_ S _ _]]. apply fades_loop in Hr.
    etrans; [|exact Hr]. by apply fades_frame.
  - intros Hr. split; [by eapply fades_cmd|]. by apply (keeps_cmd (quiet := false) e) in Hr as [_ S _ _ _ _].
  - intros [= <-]. unfold delete_last_send_message_time. split; split_ifs; by apply fades_frame || done.
  - intros Hr. split; [by eapply fades_start_stream|].
    by apply (keeps_start_stream (quiet := false) e) in Hr as [_ S _ _ _ _].
  - intros Hr. split; [by eapply fades_remove_stream|].
    by apply (keeps_remove_stream (quiet := false) e) in Hr as [_ S _ _ _ _].
  - intros Hr. split; [by eapply fades_update_file|]. by apply (keeps_update_file (quiet := false) e) in Hr as [_ S _ _ _ _].
  - unfold on_authorization_ready. destruct (negb (was_authorized_ c)); cbn [mbind option_bind]; cbv zeta.
    + destruct (start_streams _ _ _ _) as [c1|] eqn:E; [|done]. cbn [mbind option_bind]. intros Hr.
      pose proof (fades_start_streams e _ _ _ _ E) as Hf1. pose proof (fades_loop e _ _ _ Hr) as Hf2.
      apply (start_streams_keeps (quiet := false) e) in E as [W S _ _ _ _]; [|done]. apply (loop_quietly e) in Hr as [_ S2 _ _].
      split; [etrans; [|exact Hf2]; etrans; [|exact Hf1]; by apply fades_frame|].
      intros Hwf. etrans; [by apply S|by apply S2, W].
    + intros Hr. split; [by eapply fades_loop|by apply (loop_quietly e) in Hr as [_ S _ _]].
  - intros Hr. split; [etrans; [|by eapply fades_loop]|apply (loop_quietly e) in Hr as [_ S _ _]; revert S].
    + destruct (logging_out_ c); [done|]. apply (Hend (set_logging_out_ true)). intros c1. by apply fades_frame.
    + destruct (logging_out_ c); [done|]. cbv zeta. destruct (_ && _); exact id.
  - intros Hr. split; [etrans; [|by eapply fades_loop]|apply (loop_quietly e) in Hr as [_ S _ _]; revert S].
    + destruct (closing_ c); [done|]. apply (Hend (set_closing_ true)). intros c1. by apply fades_frame.
    + destruct (closing_ c); [done|]. cbv zeta. destruct (_ && _); exact id.
  - intros Hr. split; [|by apply (keeps_log_out (quiet := false)) in Hr as [_ S _ _ _ _]]. revert Hr.
    unfold log_out. match goal with |- context [td_client_ ?x] => set (c1 := x) end.
    assert (fades c c1) as Hc1 by (unfold c1; split_ifs; by apply fades_frame).
    destruct (_ && _); [|by intros [= <-]]. intros Hr%fades_do_send_request. by etrans.
  - intros Hr. split; [|by apply (keeps_close (quiet := false)) in Hr as [_ S _ _ _ _]]. revert Hr.
    unfold close. destruct (negb (td_client_ _)); [intros [= <-]; by apply fades_frame|].
    destruct (negb (closing_ _)); [|intros [= <-]; by apply fades_frame].
    intros Hr%fades_do_send_request. etrans; [|exact Hr]. by apply fades_frame.
Qed.

Lemma handle_downloads_ok now ev c c' :
  files_wf c → downloads_ok c → result_ok ev c → handle_event e now ev c = Some c' → downloads_ok c'.
Proof.
  intros Hwf Hok Hres Hr.
  assert ((∃ id result, ev = EvResult id result) ∨ ev = EvClosed ∨
          (∀ id result, ev ≠ EvResult id result) ∧ ev ≠ EvClosed) as [(id & result & ->)|[->|[H1 H2]]].
  { destruct ev; eauto; right; right; by split. }
  - destruct Hres. by eapply deliver_downloads_ok.
  - apply (on_closed_spec (quiet := false)) in Hr as (_ & _ & Hd & _ & _ & _ & _ & Hst & _); [|done].
    split; intros fid; rewrite ?Hd, ?Hst; [done|set_solver].
  - destruct (event_fades _ _ _ _ H1 H2 Hr) as [Hf Hs]. by apply (downloads_fade _ c); [apply Hs|..].
Qed.

Lemma step_downloads_ok now ev c c' :
  files_wf c → downloads_ok c → result_ok ev c → client_step e now ev c = Some c' → downloads_ok c'.
Proof.
  intros Hwf Hok Hres. unfold client_step, on_result. destruct (from_td ev); [|by apply handle_downloads_ok].
  destruct (warn_frame now c) as (_ & Ec & _ & _ & Ed & Es). apply handle_downloads_ok.
  - unfold files_wf. by rewrite Ec.
  - apply (downloads_fade _ c); [by rewrite Ec|by apply fades_frame|done].
  - by apply warn_result_ok.
Qed.

Lemma reach_downloads received c : client_reach e received c → files_wf c ∧ downloads_ok c.
Proof.
  intros Hreach. induction Hreach as [|received now ev c c' Hreach [Hwf Hok] Hres Hstep].
  - split; [apply new_client_wf|]. split; [done|]. cbn. set_solver.
  - split; [|by eapply step_downloads_ok].
    by apply (client_step_conserves (quiet := false) e) in Hstep as [W _]; [apply W|..].
Qed.

(** Downloads are watched: in every run, when queries wait for a file, its download was asked for and
    the answer is on the way, or it has begun; and a download is counted as begun only while queries wait
    for it. *)
Theorem downloads_watched received c :
  client_reach e received c →
  (∀ file_id queries, file_download_listeners_ c !! file_id = Some queries →
     queries ≠ [] ∧ (file_id ∈ download_started_file_ids_ c
                     ∨ ∃ id, st_contents (handlers_ c) !! id = Some (OnDownloadFile file_id)))
  ∧ (∀ file_id, file_id ∈ download_started_file_ids_ c → is_Some (file_download_listeners_ c !! file_id)).
Proof.
  intros [_ [Hw Hs]]%reach_downloads. split; [|done]. intros fid queries Hq.
  destruct (Hw _ _ Hq) as [? [?|[?|[]]]]; auto.
Qed.
End Watched.

(** ** Updates of files *)

Section Updates.
Context {C : Type} `{IdStoreLaws handler C} (e : client_env).

Definition too_big (file : td_file) : bool := negb (local_mode_ e) && (MAX_DOWNLOAD_FILE_SIZE <? tf_downloaded_size file).

(** An update that ends the wait for a file. *)
Definition ends_download (file : td_file) (c : client C) : bool :=
  too_big file || tf_is_downloading_completed file
  || negb (tf_is_downloading_active file) && bool_decide (tf_id file ∈ download_started_file_ids_ c).

(** What a query for the file is told at the end. *)
Definition download_result (now : Q) (file : td_file) (c : client C) : result td_file :=
  if too_big file then Err 400 (lit "Bad Request: file is too big")
  else if tf_is_downloading_completed file then Ok file
  else if closing_ c || logging_out_ c then
    match get_closing_error now c with
    | Some (err, _) => Err (ce_code err) (ce_message err)
    | None => Err 500 []
    end
  else Err 400 (lit "Bad Request: wrong file_id or the file is temporarily unavailable").

Definition file_answer (r : result td_file) (q : Query) : client_out :=
  Answered q match r with
             | Ok file => AnswerOk (JsonFile e file true) []
             | Err code message => error_answer (q_method q) code message []
             end.

Definition progress_of (file : td_file) (c : client C) : list client_out :=
  (fun stream => stream_progress file (fs_actor stream)) <$> default [] (file_stream_listeners_ c !! tf_id file).

Lemma set_outs_same (c : client C) : set_outs (outs c) c = c.
Proof. by destruct c. Qed.

Lemma closing_error_outs now l (c : client C) :
  get_closing_error now (set_outs l c) = (fun p => (p.1, set_outs l p.2)) <$> get_closing_error now c.
Proof.
  unfold get_closing_error, CHECK.
  cbn [set_outs logging_out_ is_api_id_invalid_ next_authorization_time_ clear_tqueue_ closing_ prev_retry_after].
  split_ifs; done.
Qed.

Lemma answer_all_outs (f : Query → client C → option (client C)) g queries c c' :
  (∀ q c c', f q c = Some c' → c' = send_out (g q) c) → answer_all f queries c = Some c' →
  c' = set_outs (outs c ++ (g <$> queries)) c.
Proof.
  intros Hf. revert c. induction queries as [|q queries IH]; intros c; cbn [answer_all].
  - intros [= <-]. cbn. by rewrite app_nil_r, set_outs_same.
  - destruct (f q c) as [c1|] eqn:E; [|done]. cbn [mbind option_bind]. intros ->%IH. rewrite (Hf _ _ _ E).
    cbn. by rewrite <- (assoc_L (++)).
Qed.

(** The end of a download: every query that waited is answered in turn. *)
Lemma file_download_spec file_id r queries (c c' : client C) :
  file_download_listeners_ c !! file_id = Some queries → on_file_download e file_id r c = Some c' →
  outs c' = outs c ++ (file_answer r <$> queries)
  ∧ file_download_listeners_ c' = delete file_id (file_download_listeners_ c)
  ∧ download_started_file_ids_ c' = download_started_file_ids_ c ∖ {[file_id]}
  ∧ file_stream_listeners_ c' = file_stream_listeners_ c.
Proof.
  intros Hq. unfold on_file_download. rewrite Hq. intros Hr.
  apply (answer_all_outs _ (file_answer r)) in Hr; [by subst|]. clear. intros q c c'.
  destruct r; unfold fail_with_error, answer_with; destruct (give_answer _ _); try done; by intros [= <-].
Qed.

Lemma cancel_frame now file_id (c c' : client C) :
  send_request e now (CancelDownloadFile file_id) OnCancelDownloadFile c = Some c' →
  file_download_listeners_ c' = file_download_listeners_ c ∧ download_started_file_ids_ c' = download_started_file_ids_ c
  ∧ file_stream_listeners_ c' = file_stream_listeners_ c
  ∧ (outs c' = outs c ∨ ∃ id, outs c' = outs c ++ [TdRequest id (CancelDownloadFile file_id)]).
Proof.
  unfold send_request. destruct (_ || _).
  - destruct (get_closing_error now c) as [[err c1]|] eqn:E; [|done]. cbn [mbind option_bind callback_error].
    intros [= <-]. unfold get_closing_error, CHECK in E. split_ifs; simplify_eq; auto.
  - unfold do_send_request, CHECK. destruct (td_client_ c); [|done].
    destruct (st_create _ _) as [[id hs]|]; [|done]. cbn [mbind option_bind]. intros [= <-]. eauto 10.
Qed.

(** The download ends in [c1], after the streams were told. *)
Lemma download_ended file r queries l cancels (c c1 c' : client C) :
  file_download_listeners_ c1 = file_download_listeners_ c →
  download_started_file_ids_ c1 = download_started_file_ids_ c → file_stream_listeners_ c1 = file_stream_listeners_ c →
  outs c1 = (outs c ++ l) ++ cancels → file_download_listeners_ c !! tf_id file = Some queries →
  on_file_download e (tf_id file) r c1 = Some c' →
  outs c' = outs c ++ l ++ cancels ++ (file_answer r <$> queries)
  ∧ file_download_listeners_ c' = delete (tf_id file) (file_download_listeners_ c)
  ∧ download_started_file_ids_ c' = download_started_file_ids_ c ∖ {[tf_id file]}
  ∧ file_stream_listeners_ c' = file_stream_listeners_ c.
Proof.
  intros E1 E2 E3 Eo Hq Hr. rewrite <- E1 in Hq. apply (file_download_spec _ _ _ _ _ Hq) in Hr as (-> & -> & -> & ->).
  rewrite E1, E2, E3, Eo. by rewrite <- !(assoc_L (++)).
Qed.

(** C19: An update of a file is told to each stream that listens to the file once, in order, and does
    nothing else unless it ends a download that queries wait for: the file is too big, or complete, or its
    download stopped. Then each of the queries is answered once, in order, with the file or the error that
    fits, and nobody waits for the file any more. *)
Theorem update_file_outcome now file (c c' : client C) :
  on_update_file e now file c = Some c' →
  match file_download_listeners_ c !! tf_id file with
  | Some queries =>
      if ends_download file c then
        (∃ cancels, outs c' = outs c ++ progress_of file c ++ cancels ++ (file_answer (download_result now file c) <$> queries)
           ∧ (cancels = [] ∨ too_big file = true ∧ tf_is_downloading_active file = true
                             ∧ ∃ id, cancels = [TdRequest id (CancelDownloadFile (tf_id file))]))
        ∧ file_download_listeners_ c' = delete (tf_id file) (file_download_listeners_ c)
        ∧ download_started_file_ids_ c' = download_started_file_ids_ c ∖ {[tf_id file]}
        ∧ file_stream_listeners_ c' = file_stream_listeners_ c
      else c' = set_outs (outs c ++ progress_of file c) c
  | None => c' = set_outs (outs c ++ progress_of file c) c
  end.
Proof.
  unfold on_update_file, tell_listeners.
  rewrite (send_outs (fun stream => stream_progress file (fs_actor stream))). fold (progress_of file c).
  set (c1 := set_outs _ c). unfold is_file_being_downloaded.
  change (file_download_listeners_ c1) with (file_download_listeners_ c).
  destruct (file_download_listeners_ c !! tf_id file) as [queries|] eqn:Eq.
  2:{ rewrite bool_decide_eq_false_2 by (by intros []). by intros [= <-]. }
  rewrite bool_decide_eq_true_2 by done. cbn [negb]. unfold ends_download, download_result. fold (too_big file).
  assert (∀ r, on_file_download e (tf_id file) r c1 = Some c' →
    (∃ cancels, outs c' = outs c ++ progress_of file c ++ cancels ++ (file_answer r <$> queries)
       ∧ (cancels = [] ∨ too_big file = true ∧ tf_is_downloading_active file = true
                         ∧ ∃ id, cancels = [TdRequest id (CancelDownloadFile (tf_id file))]))
    ∧ file_download_listeners_ c' = delete (tf_id file) (file_download_listeners_ c)
    ∧ download_started_file_ids_ c' = download_started_file_ids_ c ∖ {[tf_id file]}
    ∧ file_stream_listeners_ c' = file_stream_listeners_ c) as Hend.
  { intros r Hr.
    apply (download_ended file r queries (progress_of file c) [] c) in Hr as (? & Hr); [|done..|by rewrite app_nil_r|done].
    split; [|exact Hr]. exists []. auto. }
  destruct (too_big file) eqn:Ebig; cbn [orb].
  { destruct (tf_is_downloading_active file) eqn:Eact; [|cbn [mbind option_bind]; apply Hend].
    destruct (send_request _ _ _ _ _) as [c2|] eqn:E; [|done]. cbn [mbind option_bind].
    apply cancel_frame in E as (E1 & E2 & E3 & Eo). generalize (Err (A := td_file) 400 (lit "Bad Request: file is too big")).
    intros r Hr. destruct Eo as [Eo|[id Eo]].
    - apply (download_ended file r queries (progress_of file c) [] c) in Hr as (? & Hr);
        [|done..|by rewrite Eo, app_nil_r|done]. split; [|exact Hr]. exists []. auto.
    - apply (download_ended file r queries (progress_of file c) _ c _ _ E1 E2 E3 Eo Eq) in Hr as (? & Hr).
      split; [|exact Hr]. eexists. split; [done|]. right. eauto. }
  destruct (tf_is_downloading_completed file); cbn [orb]; [apply Hend|].
  change (download_started_file_ids_ c1) with (download_started_file_ids_ c).
  destruct (negb _ && _); [|by intros [= <-]].
  change (closing_ c1 || logging_out_ c1) with (closing_ c || logging_out_ c).
  destruct (closing_ c || logging_out_ c); [|apply Hend].
  destruct (get_closing_error now c1) as [[err c2]|] eqn:E; [|done]. cbn [mbind option_bind].
  assert (∃ c3, get_closing_error now c = Some (err, c3)) as [c3 ->].
  { unfold c1 in E. rewrite closing_error_outs in E. destruct (get_closing_error now c) as [[err' c3]|]; [|done].
    cbn in E. injection E as -> _. eauto. }
  apply closing_error_frame in E as (E1 & _ & _ & Eo & E2 & E3). intros Hr.
  apply (download_ended file _ queries (progress_of file c) [] c) in Hr as (? & Hr);
    [|done..|by rewrite Eo, app_nil_r|done]. split; [|exact Hr]. exists []. auto.
Qed.
End Updates.

(** ** The end *)

Section TheEnd.
Context {C : Type} `{IdStoreLaws handler C} (e : client_env).

Lemma fail_closing_handlers now q (c c' : client C) : fail_query_closing now q c = Some c' → handlers_ c' = handlers_ c.
Proof.
  unfold fail_query_closing. destruct (get_closing_error now c) as [[err c1]|] eqn:E; [|done].
  cbn [mbind option_bind]. assert (handlers_ c1 = handlers_ c) as Eh.
  { revert E. unfold get_closing_error, CHECK. intros E. split_ifs; by simplify_eq. }
  unfold answer_with. destruct (give_answer _ _); [|done]. intros [= <-]. exact Eh.
Qed.

Lemma fail_downloads_handlers now l (c c' : client C) : fail_downloads now l c = Some c' → handlers_ c' = handlers_ c.
Proof.
  revert c. induction l as [|[fid queries] l IH]; intros c; cbn [fail_downloads]; [by intros [= <-]|].
  destruct (answer_all _ queries _) as [c2|] eqn:E; [|done]. cbn [mbind option_bind]. intros Hr%IH.
  rewrite Hr. exact (answer_all_frame handlers_ _ _ _ _ (fun q c1 c2 Hq => fail_closing_handlers now q c1 c2 Hq) E).
Qed.

(** The errors that the streams are told are the last messages. *)
Lemma on_closed_frame now (c c' : client C) :
  files_wf c → on_closed now c = Some c' →
  (∃ l, outs c' = outs c ++ l ∧ ∀ stream_id stream, active_file_streams_ c !! stream_id = Some stream →
      StreamError stream 503 (lit "Bot API client is closing") ∈ l)
  ∧ handlers_ c' = handlers_ c.
Proof.
  intros Hwf. unfold on_closed, CHECK. destruct (_ || _); [|done]. destruct (td_client_ c); [|done].
  set (c0 := set_td_client_ false c).
  destruct (drain_queue _ _ c0) as [c1|] eqn:E1; [|done]. cbn [mbind option_bind].
  destruct (fail_downloads _ _ c1) as [c2|] eqn:E2; [|done]. cbn [mbind option_bind]. intros [= <-].
  pose proof (drain_frame handlers_ _ _ _ _
    (fun q c1 c2 Hq => fail_closing_handlers now q c1 c2 Hq) (fun _ _ => eq_refl) E1) as Eh1.
  pose proof (drain_frame active_file_streams_ _ _ _ _
    (fun q c1 c2 Hq => proj2 (fail_closing_frame now q c1 c2 Hq)) (fun _ _ => eq_refl) E1) as Ea1.
  pose proof (fail_downloads_handlers _ _ _ _ E2) as Eh2.
  apply drain_quietly in E1 as [_ _ [l1 O1] _]; [|intros q c3 c4 Hr; eapply keeps_quietly, keeps_fail_closing, Hr].
  destruct (fail_downloads_conserves (quiet := false) now _ _ _ (reflexivity _) E2) as ([_ _ _ _ [l2 O2] _] & _ & Ea2).
  unfold stop_streams. rewrite (send_outs (fun p => StreamError p.2 503 (lit "Bot API client is closing"))). split.
  - eexists. split; [cbn; by rewrite O2, O1, <- !app_assoc|]. intros sid stream Hs. do 2 (apply elem_of_app; right).
    apply list_elem_of_fmap. exists (sid, stream). split; [done|]. apply elem_of_map_to_list. rewrite Ea2, Ea1. exact Hs.
  - cbn. by rewrite Eh2, Eh1.
Qed.

(** C20: When TDLib is gone (on_closed), the messages that the client then sends answer, once each, exactly
    the queries that waited in its queue and for downloads, and tell each stream of its table 503 "Bot API
    client is closing"; afterwards its queue of queries, its lists of downloads and its lists of streams are
    empty. The queries of requests to TDLib that have not been answered are not among them: on_closed leaves
    these requests, with their queries, as they are (handlers_ is unchanged). *)
Theorem closed_client_leaves_nobody received now (c c' : client C) :
  client_reach e received c → on_closed now c = Some c' →
  (∃ l, outs c' = outs c ++ l ∧ (l ≫= out_queries) ≡ₚ cmd_queue_ c ++ map_queries id (file_download_listeners_ c)
        ∧ ∀ stream_id stream, active_file_streams_ c !! stream_id = Some stream →
            StreamError stream 503 (lit "Bot API client is closing") ∈ l)
  ∧ cmd_queue_ c' = [] ∧ file_download_listeners_ c' = ∅ ∧ download_started_file_ids_ c' = ∅
  ∧ active_file_streams_ c' = ∅ ∧ pending_file_streams_ c' = [] ∧ file_stream_listeners_ c' = ∅
  ∧ handlers_ c' = handlers_ c.
Proof.
  intros [Hwf _]%reach_had Hr. destruct (on_closed_frame _ _ _ Hwf Hr) as [(l & Ho & Ht) Eh].
  destruct (on_closed_spec (quiet := false) _ _ _ eq_refl Hr) as ([_ Hhad] & Eq & Ed & Ea & Ep & El & _ & Es & _).
  split_and!; [|done..]. exists l. split_and!; [done| |done].
  specialize (Hhad Hwf). unfold had, waiting in Hhad. rewrite Eq, Ed, Eh, Ho, bind_app in Hhad. cbn in Hhad.
  apply (Permutation_app_inv_l (outs c ≫= out_queries)).
  apply (Permutation_app_inv_r (map_queries handler_queries (st_contents (handlers_ c)))).
  rewrite Hhad. solve_Permutation.
Qed.
End TheEnd.

(** ** A listener that is never forgotten *)

Section Leak.
Context {C : Type} `{IdStoreLaws handler C} (e : client_env).

(** The stream is among the listeners of the file. *)
Definition listens_to (stream_id stream file_id : Z) (c : client C) : Prop :=
  ∃ refs, file_stream_listeners_ c !! file_id = Some refs ∧ mkRef stream_id stream ∈ refs.

(** A stream that is removed before it has learned its file (its removal names the file 0) stays among
    the listeners of the file: afterwards no removal of another stream of the file cancels the download or
    deletes the file, and no new stream asks for the download again. *)
Theorem unresolved_removal_leaks now stream_id stream file_id b (c c1 : client C) :
  listens_to stream_id stream file_id c →
  remove_file_stream e now stream_id 0 b c = Some c1 →
  listens_to stream_id stream file_id c1 ∧
  (∀ other b' c2, other ≠ stream_id → file_id ≠ 0 → remove_file_stream e now other file_id b' c1 = Some c2 →
     outs c2 = outs c1 ∧ listens_to stream_id stream file_id c2) ∧
  (∀ actor other size file c2, tf_id file = file_id → is_Some (active_file_streams_ c1 !! other) →
     on_stream_remote_file e now actor other size file c1 = Some c2 →
     ∀ id, TdRequest id (DownloadFile file_id) ∈ outs c2 → TdRequest id (DownloadFile file_id) ∈ outs c1).
Proof.
  intros (refs & Hl & Hin). unfold remove_file_stream. cbn [Z.eqb]. intros [= <-]. cbn [file_stream_listeners_ set_pending_file_streams_
    set_active_file_streams_]. set (c1 := set_pending_file_streams_ _ _).
  assert (file_stream_listeners_ c1 !! file_id = Some refs) as Hl1 by exact Hl. split_and!; [by exists refs| |].
  - intros other b' c2 Hne Hf. rewrite (proj2 (Z.eqb_neq file_id 0)) by done. unfold remove_listener.
    cbn [file_stream_listeners_ set_pending_file_streams_ set_active_file_streams_].
    rewrite Hl1. cbv zeta. set (refs' := filter _ refs).
    assert (mkRef stream_id stream ∈ refs') as Hin' by (by apply list_elem_of_filter).
    rewrite bool_decide_eq_false_2 by (intros E; rewrite E in Hin'; by apply not_elem_of_nil in Hin').
    intros [= <-]. split; [done|]. exists refs'. split; [apply lookup_insert_eq|done].
  - intros actor other size file c2 <- [s Hs] Hr id. unfold on_stream_remote_file in Hr. rewrite Hs in Hr.
    rewrite bool_decide_eq_false_2 in Hr by done.
    destruct (resolve_file_stream_size _ _); 
      [|injection Hr as <-; cbn; intros [?|Hx%list_elem_of_singleton]%elem_of_app; [done|congruence]].
    cbv zeta in Hr. rewrite Hl1 in Hr. change (default [] (Some refs)) with refs in Hr.
    rewrite bool_decide_eq_false_2 in Hr by (intros ->; by apply not_elem_of_nil in Hin).
    injection Hr as <-. cbn. intros [?|Hx%list_elem_of_singleton]%elem_of_app; [done|congruence].
Qed.
End Leak.

(** ** A run *)

Definition demo_client_env : client_env := mkClientEnv false (lit "/data/5/") 0 0.
Definition demo_query (id : slice) : Query :=
  mkQuery (lit "5:abc") false (lit "getfile") [(lit "file_id", id)] [] [] ip_invalid false StQuery [] 0 0.
Definition demo_file (completed active : bool) (size : Z) : td_file :=
  mkFile 9 100 100 (lit "/data/5/documents/file_1") 0 size size completed active (lit "BQAD") (lit "AgAD").
Definition demo_stats : stat_counters := mkStats 0 0 0 0.

(** A stream and two queries come before the authorization; then the stream
    learns its file, the queries wait for the same one, and its download
    begins. *)
Definition demo_client_events : list (Q * client_event) :=
  [(1%Q, EvStartStream 7 1 (lit "BQAD") 0);
   (1%Q, EvSend demo_stats (demo_query (lit "BQAD")));
   (2%Q, EvSend demo_stats (demo_query (lit "BQAE")));
   (3%Q, EvReady);
   (4%Q, EvResult 256 (TdFile (demo_file false false 0)));
   (4%Q, EvResult 4294967552 (TdFile (demo_file false false 0)))].

Lemma results_ok_cons {C} `{IdStore handler C} e now ev evs (c c' : client C) :
  result_ok ev c → client_step e now ev c = Some c' → results_ok e evs c' → results_ok e ((now, ev) :: evs) c.
Proof. intros Hok E Hoks. cbn [results_ok]. by rewrite E. Qed.

Definition demo_new : client (container handler) := new_client.
Definition demo_client : client (container handler) :=
  default demo_new (client_run demo_client_env demo_client_events demo_new).

Lemma demo_client_run : client_run demo_client_env demo_client_events demo_new = Some demo_client.
Proof. vm_compute. reflexivity. Qed.

Lemma demo_client_reach : client_reach demo_client_env (received_in demo_client_events []) demo_client.
Proof.
  apply (client_run_reach _ _ _ demo_new); [apply reach_new| |exact demo_client_run].
  unfold demo_client_events.
  repeat (eapply results_ok_cons;
    [first [exact I|split; [vm_compute; reflexivity|eexists; vm_compute; reflexivity]]|vm_compute; reflexivity|]).
  exact I.
Qed.

Lemma queries_conserved_witness :
  length (received_in demo_client_events []) = 2%nat ∧
  (outs demo_client ≫= out_queries) ++ cmd_queue_ demo_client ++ map_queries id (file_download_listeners_ demo_client)
  ++ map_queries handler_queries (st_contents (handlers_ demo_client)) ≡ₚ received_in demo_client_events [].
Proof. split; [reflexivity|]. exact (queries_conserved _ _ _ demo_client_reach). Defined.

(** The stream that the run begins with. *)
Lemma demo_streams_reach : streams_reach demo_client_env {[1 := 7]} demo_client.
Proof.
  change {[1 := 7]} with (given_in demo_client_events ∅).
  apply (client_run_given _ _ _ demo_new); [apply given_new| | |exact demo_client_run].
  - unfold demo_client_events.
    repeat (eapply results_ok_cons;
      [first [exact I|split; [vm_compute; reflexivity|eexists; vm_compute; reflexivity]]|vm_compute; reflexivity|]).
    exact I.
  - cbn [news_ok demo_client_events]. split; [|vm_compute; tauto].
    split; [done|]. by intros (code & m & Hin%not_elem_of_nil).
Qed.

Lemma streams_not_forgotten_witness :
  ({[1 := 7]} : gmap Z Z) !! 1 = Some 7 ∧ (was_told 7 demo_client ∨ active_file_streams_ demo_client !! 1 = Some 7) ∧ pending_file_streams_ demo_client = [].
Proof.
  split; [reflexivity|]. destruct (streams_not_forgotten demo_client_env _ demo_client 1 7 demo_streams_reach) as [Hs Hp]; [vm_compute; reflexivity|].
  split; [destruct Hs as [?|[? _]]; [by left|by right]|]. apply Hp. vm_compute. reflexivity.
Defined.

Lemma downloads_watched_witness :
  ∃ id, st_contents (handlers_ demo_client) !! id = Some (OnDownloadFile 9).
Proof.
  destruct (downloads_watched demo_client_env _ demo_client demo_client_reach) as [Hw _].
  destruct (Hw 9 [demo_query (lit "BQAD")]) as [_ [Hin|Hid]]; [vm_compute; reflexivity| |exact Hid].
  exfalso. revert Hin. apply (bool_decide_eq_false_1 (9 ∈ download_started_file_ids_ demo_client)). vm_compute. reflexivity.
Defined.

Definition demo_done : client (container handler) :=
  default demo_new (on_update_file demo_client_env 5 (demo_file true false 100) demo_client).

Lemma update_file_outcome_witness :
  ∃ cancels, outs demo_done = outs demo_client ++ [stream_progress (demo_file true false 100) 7] ++ cancels
    ++ [Answered (demo_query (lit "BQAD")) (AnswerOk (JsonFile demo_client_env (demo_file true false 100) true) [])]
  ∧ json_store_file demo_client_env (demo_file true false 100) true
    = [(lit "file_id", JsonStr (lit "BQAD")); (lit "file_unique_id", JsonStr (lit "AgAD"));
       (lit "file_size", JsonNumber (lit "100")); (lit "file_path", JsonStr (lit "documents/file_1"))].
Proof.
  assert (on_update_file demo_client_env 5 (demo_file true false 100) demo_client = Some demo_done) as Hr
    by (vm_compute; reflexivity).
  pose proof (update_file_outcome demo_client_env 5 (demo_file true false 100) demo_client demo_done Hr) as Ho.
  assert (file_download_listeners_ demo_client !! 9 = Some [demo_query (lit "BQAD")]) as Hq by (vm_compute; reflexivity).
  cbn [demo_file tf_id] in Ho. rewrite Hq in Ho.
  assert (ends_download demo_client_env (demo_file true false 100) demo_client = true) as He by (vm_compute; reflexivity).
  rewrite He in Ho. destruct Ho as [(cancels & Ho & _) _]. exists cancels. split; [exact Ho|vm_compute; reflexivity].
Defined.

Lemma demo_closing_reach : client_reach demo_client_env (received_in demo_client_events [])
  (default demo_new (client_step demo_client_env 6 EvClosing demo_client)).
Proof.
  change (received_in demo_client_events []) with (event_queries EvClosing ++ received_in demo_client_events []).
  apply (reach_step _ _ 6 EvClosing demo_client); [exact demo_client_reach|exact I|vm_compute; reflexivity].
Qed.

Lemma closed_client_leaves_nobody_witness :
  ∃ c', on_closed 7 (default demo_new (client_step demo_client_env 6 EvClosing demo_client)) = Some c'
    ∧ file_download_listeners_ c' = ∅ ∧ active_file_streams_ c' = ∅.
Proof.
  eexists. split; [vm_compute; reflexivity|].
  match goal with |- file_download_listeners_ ?x = _ ∧ _ => set (c' := x) end.
  destruct (closed_client_leaves_nobody demo_client_env _ 7 _ c' demo_closing_reach) as (_ & _ & Hd & _ & Ha & _);
    [vm_compute; reflexivity|]. split; [exact Hd|exact Ha].
Defined.

(** A second stream of the file comes after the first one was removed before
    it knew the file. *)
Lemma unresolved_removal_leaks_witness :
  ∃ c1, remove_file_stream demo_client_env 5 1 0 false demo_client = Some c1
    ∧ file_stream_listeners_ c1 !! 9 = Some [mkRef 1 7].
Proof.
  eexists. split; [vm_compute; reflexivity|].
  match goal with |- file_stream_listeners_ ?x !! _ = _ => set (c1 := x) end.
  destruct (unresolved_removal_leaks demo_client_env 5 1 7 9 false demo_client c1) as [(refs & Hr & _) _].
  - exists [mkRef 1 7]. split; [vm_compute; reflexivity|by apply list_elem_of_here].
  - vm_compute. reflexivity.
  - rewrite Hr. revert Hr. vm_compute. congruence.
Defined.
