(* ===== verification/BotUpdates.v ===== *)
(** * The updates of a bot and its webhook

    The part of [server/Client.cpp] that gives the updates of a bot away: the
    method getUpdates with its long polling, the methods setWebhook,
    deleteWebhook and getWebhookInfo, the messages of the [WebhookActor] to the
    client, and the update that TDLib reports and the client puts in the queue.

    The queue is the [tqueue] of TQueue, an argument and a result of each
    handler, since all the bots share it.  A handler reads the clock once here.
    The error that queries get while the client closes is an argument, [None]
    while it does not: ClientFiles models it.  The [SleepActor]s of
    [fail_query_conflict] are a list of queries with the time of their answer.
    Log lines and the times kept only for them are left out. *)

From Stdlib Require Import QArith.
From stdpp Require Import gmap.
From S2P Require Import Prelude Slices Integers Utf8 Json IpAddress Query HttpUrl ClientFiles WebhookActor WebhookInfo TQueue.

Local Open Scope Z_scope.

Definition LONG_POLL_MAX_TIMEOUT : Z := 50.
Definition LONG_POLL_MAX_DELAY : Q := 2 # 1000.
Definition LONG_POLL_WAIT_AFTER : Q := 1 # 1000.
Definition MIN_PENDING_UPDATES_WARNING : Z := 200.
Definition BOT_UPDATES_WARNING_DELAY : Z := 30.
Definition MAX_CERTIFICATE_FILE_SIZE : Z := Z.shiftl 3 20.

Inductive WebhookQueryType := Cancel | Verify.

(** Messages to other actors and to the system. *)
Inductive bot_out :=
| Answered (q : Query) (a : answer)
| SetBotUpdatesStatus (count : Z) (message : slice)
| SetAllowedUpdateTypes (types : option Z)
| NewWebhook (token : Z) (url : HttpUrl) (cert_path : option slice) (max_connections : Z) (from_db : bool)
    (ip_address : slice) (fix_ip_address : bool) (secret_token : slice)
| UpdateWebhook (token : Z)
| CloseWebhook (token : Z)
| HangupWebhook (token : Z)
| SaveWebhook (value : slice)
| EraseWebhook
| CopyCertificate (to_path : slice) (size : Z)
| UnlinkCertificate (path : slice).

(** What the client is made with. *)
Record bot_env := mkBotEnv {
  tqueue_id_ : Z;
  local_mode_ : bool;
  default_max_webhook_connections_ : Z;
  dir_ : slice;
  get_unix_time : Q → Z;
  inet_pton6 : slice → option (list Z)
}.

(** What a handler reads: the clock, the error of a closing client, whether the
    connection of the bot is up, and the random identifiers of a new queue. *)
Record bot_io := mkBotIo {
  now_ : Q;
  closing_error : option ClosingError;
  disconnection_time_ : Q;
  was_authorized_ : bool;
  random_id : nat → Z
}.

Definition q_min (a b : Q) : Q := if Qle_bool a b then a else b.

(** [is_base64url_characters] *)
Definition is_base64url_char (c : ascii) : bool :=
  is_alnum c || bool_decide (c = "-"%char) || bool_decide (c = "_"%char).
Definition is_base64url_characters (input : slice) : bool := forallb is_base64url_char input.

(** [Client::get_webhook_certificate]: the size of the file. *)
Definition get_webhook_certificate (q : Query) : option Z :=
  match file_size q (lit "certificate") with
  | Some size => Some size
  | None =>
      let attach_name := arg q (lit "certificate") in
      let attach_protocol := lit "attach://" in
      if begins_with attach_name attach_protocol then file_size q (drop (length attach_protocol) attach_name) else None
  end.

(** The URL that a query sets; deleteWebhook sets none. *)
Definition new_url_of (q : Query) : slice := if bool_decide (q_method q = lit "setwebhook") then arg q (lit "url") else [].

(** *** JSON *)

(** [JsonUpdates]: updates up to 4 MiB, of which the builder writes the texts as
    they are. *)
Fixpoint json_updates (left_len : Z) (updates : list Event) : option (list JsonValue) :=
  match updates with
  | [] => Some []
  | update :: updates =>
      let left_len := left_len - (50 + slen (e_data update)) in
      if left_len <=? 0 then Some []
      else
        text ← json_update (e_id update) (e_data update);
        rest ← json_updates left_len updates;
        Some (JsonNumber text :: rest)
  end.
Definition JsonUpdates (updates : list Event) : option JsonValue :=
  array ← json_updates (Z.shiftl 1 22) updates; Some (JsonArray array).

Definition JsonUpdateTypes (update_types_mask : Z) : JsonValue :=
  JsonArray (omap (fun t =>
    if Z.testbit update_types_mask (update_value t) && negb (bool_decide (t = UCustomEvent)) && negb (bool_decide (t = UCustomQuery))
    then Some (JsonStr (get_update_type_name t)) else None) update_types).

(** A text, or its bytes where it is not UTF-8. *)
Definition json_text (s : slice) : JsonValue := if check_utf8 s then JsonStr s else JsonRawString s.

Section Bot.
Context {S : Type} `{StorageCallback S} (e : bot_env).

Record bot := mkBot {
  settings_ : webhook;
  webhook_id_ : option Z;
  webhook_query_type_ : WebhookQueryType;
  webhook_set_query_ : option Query;
  active_webhook_set_query_ : option Query;
  webhook_generation_ : Z;
  next_allowed_set_webhook_time_ : Q;
  webhook_set_time_ : Q;
  last_webhook_error_date_ : Z;
  last_webhook_error_ : slice;
  long_poll_limit_ : Z;
  long_poll_offset_ : Z;
  long_poll_was_wakeup_ : bool;
  long_poll_hard_timeout_ : Q;
  long_poll_slot_ : option Q;
  long_poll_query_ : option Query;
  previous_get_updates_offset_ : Z;
  previous_get_updates_start_time_ : Q;
  previous_get_updates_finish_time_ : Q;
  next_get_updates_conflict_time_ : Q;
  last_pending_update_count_ : Z;
  next_bot_updates_warning_time_ : Q;
  was_bot_updates_warning_ : bool;
  last_synchronization_error_date_ : Z;
  last_update_creation_time_ : Q;
  conflicts_ : list (Q * Query * slice);
  outs : list bot_out
}.

Definition set_settings_ (v : webhook) (w : bot) : bot :=
  mkBot v (webhook_id_ w) (webhook_query_type_ w) (webhook_set_query_ w) (active_webhook_set_query_ w)
    (webhook_generation_ w) (next_allowed_set_webhook_time_ w) (webhook_set_time_ w) (last_webhook_error_date_ w)
    (last_webhook_error_ w) (long_poll_limit_ w) (long_poll_offset_ w) (long_poll_was_wakeup_ w)
    (long_poll_hard_timeout_ w) (long_poll_slot_ w) (long_poll_query_ w) (previous_get_updates_offset_ w)
    (previous_get_updates_start_time_ w) (previous_get_updates_finish_time_ w) (next_get_updates_conflict_time_ w)
    (last_pending_update_count_ w) (next_bot_updates_warning_time_ w) (was_bot_updates_warning_ w)
    (last_synchronization_error_date_ w) (last_update_creation_time_ w) (conflicts_ w) (outs w).
Definition set_webhook_id_ (v : option Z) (w : bot) : bot :=
  mkBot (settings_ w) v (webhook_query_type_ w) (webhook_set_query_ w) (active_webhook_set_query_ w)
    (webhook_generation_ w) (next_allowed_set_webhook_time_ w) (webhook_set_time_ w) (last_webhook_error_date_ w)
    (last_webhook_error_ w) (long_poll_limit_ w) (long_poll_offset_ w) (long_poll_was_wakeup_ w)
    (long_poll_hard_timeout_ w) (long_poll_slot_ w) (long_poll_query_ w) (previous_get_updates_offset_ w)
    (previous_get_updates_start_time_ w) (previous_get_updates_finish_time_ w) (next_get_updates_conflict_time_ w)
    (last_pending_update_count_ w) (next_bot_updates_warning_time_ w) (was_bot_updates_warning_ w)
    (last_synchronization_error_date_ w) (last_update_creation_time_ w) (conflicts_ w) (outs w).
Definition set_webhook_query_type_ (v : WebhookQueryType) (w : bot) : bot :=
  mkBot (settings_ w) (webhook_id_ w) v (webhook_set_query_ w) (active_webhook_set_query_ w) (webhook_generation_ w)
    (next_allowed_set_webhook_time_ w) (webhook_set_time_ w) (last_webhook_error_date_ w) (last_webhook_error_ w)
    (long_poll_limit_ w) (long_poll_offset_ w) (long_poll_was_wakeup_ w) (long_poll_hard_timeout_ w) (long_poll_slot_
    w) (long_poll_query_ w) (previous_get_updates_offset_ w) (previous_get_updates_start_time_ w)
    (previous_get_updates_finish_time_ w) (next_get_updates_conflict_time_ w) (last_pending_update_count_ w)
    (next_bot_updates_warning_time_ w) (was_bot_updates_warning_ w) (last_synchronization_error_date_ w)
    (last_update_creation_time_ w) (conflicts_ w) (outs w).
Definition set_webhook_set_query_ (v : option Query) (w : bot) : bot :=
  mkBot (settings_ w) (webhook_id_ w) (webhook_query_type_ w) v (active_webhook_set_query_ w) (webhook_generation_ w)
    (next_allowed_set_webhook_time_ w) (webhook_set_time_ w) (last_webhook_error_date_ w) (last_webhook_error_ w)
    (long_poll_limit_ w) (long_poll_offset_ w) (long_poll_was_wakeup_ w) (long_poll_hard_timeout_ w) (long_poll_slot_
    w) (long_poll_query_ w) (previous_get_updates_offset_ w) (previous_get_updates_start_time_ w)
    (previous_get_updates_finish_time_ w) (next_get_updates_conflict_time_ w) (last_pending_update_count_ w)
    (next_bot_updates_warning_time_ w) (was_bot_updates_warning_ w) (last_synchronization_error_date_ w)
    (last_update_creation_time_ w) (conflicts_ w) (outs w).
Definition set_active_webhook_set_query_ (v : option Query) (w : bot) : bot :=
  mkBot (settings_ w) (webhook_id_ w) (webhook_query_type_ w) (webhook_set_query_ w) v (webhook_generation_ w)
    (next_allowed_set_webhook_time_ w) (webhook_set_time_ w) (last_webhook_error_date_ w) (last_webhook_error_ w)
    (long_poll_limit_ w) (long_poll_offset_ w) (long_poll_was_wakeup_ w) (long_poll_hard_timeout_ w) (long_poll_slot_
    w) (long_poll_query_ w) (previous_get_updates_offset_ w) (previous_get_updates_start_time_ w)
    (previous_get_updates_finish_time_ w) (next_get_updates_conflict_time_ w) (last_pending_update_count_ w)
    (next_bot_updates_warning_time_ w) (was_bot_updates_warning_ w) (last_synchronization_error_date_ w)
    (last_update_creation_time_ w) (conflicts_ w) (outs w).
Definition set_webhook_generation_ (v : Z) (w : bot) : bot :=
  mkBot (settings_ w) (webhook_id_ w) (webhook_query_type_ w) (webhook_set_query_ w) (active_webhook_set_query_ w) v
    (next_allowed_set_webhook_time_ w) (webhook_set_time_ w) (last_webhook_error_date_ w) (last_webhook_error_ w)
    (long_poll_limit_ w) (long_poll_offset_ w) (long_poll_was_wakeup_ w) (long_poll_hard_timeout_ w) (long_poll_slot_
    w) (long_poll_query_ w) (previous_get_updates_offset_ w) (previous_get_updates_start_time_ w)
    (previous_get_updates_finish_time_ w) (next_get_updates_conflict_time_ w) (last_pending_update_count_ w)
    (next_bot_updates_warning_time_ w) (was_bot_updates_warning_ w) (last_synchronization_error_date_ w)
    (last_update_creation_time_ w) (conflicts_ w) (outs w).
Definition set_next_allowed_set_webhook_time_ (v : Q) (w : bot) : bot :=
  mkBot (settings_ w) (webhook_id_ w) (webhook_query_type_ w) (webhook_set_query_ w) (active_webhook_set_query_ w)
    (webhook_generation_ w) v (webhook_set_time_ w) (last_webhook_error_date_ w) (last_webhook_error_ w)
    (long_poll_limit_ w) (long_poll_offset_ w) (long_poll_was_wakeup_ w) (long_poll_hard_timeout_ w) (long_poll_slot_
    w) (long_poll_query_ w) (previous_get_updates_offset_ w) (previous_get_updates_start_time_ w)
    (previous_get_updates_finish_time_ w) (next_get_updates_conflict_time_ w) (last_pending_update_count_ w)
    (next_bot_updates_warning_time_ w) (was_bot_updates_warning_ w) (last_synchronization_error_date_ w)
    (last_update_creation_time_ w) (conflicts_ w) (outs w).
Definition set_webhook_set_time_ (v : Q) (w : bot) : bot :=
  mkBot (settings_ w) (webhook_id_ w) (webhook_query_type_ w) (webhook_set_query_ w) (active_webhook_set_query_ w)
    (webhook_generation_ w) (next_allowed_set_webhook_time_ w) v (last_webhook_error_date_ w) (last_webhook_error_ w)
    (long_poll_limit_ w) (long_poll_offset_ w) (long_poll_was_wakeup_ w) (long_poll_hard_timeout_ w) (long_poll_slot_
    w) (long_poll_query_ w) (previous_get_updates_offset_ w) (previous_get_updates_start_time_ w)
    (previous_get_updates_finish_time_ w) (next_get_updates_conflict_time_ w) (last_pending_update_count_ w)
    (next_bot_updates_warning_time_ w) (was_bot_updates_warning_ w) (last_synchronization_error_date_ w)
    (last_update_creation_time_ w) (conflicts_ w) (outs w).
Definition set_last_webhook_error_date_ (v : Z) (w : bot) : bot :=
  mkBot (settings_ w) (webhook_id_ w) (webhook_query_type_ w) (webhook_set_query_ w) (active_webhook_set_query_ w)
    (webhook_generation_ w) (next_allowed_set_webhook_time_ w) (webhook_set_time_ w) v (last_webhook_error_ w)
    (long_poll_limit_ w) (long_poll_offset_ w) (long_poll_was_wakeup_ w) (long_poll_hard_timeout_ w) (long_poll_slot_
    w) (long_poll_query_ w) (previous_get_updates_offset_ w) (previous_get_updates_start_time_ w)
    (previous_get_updates_finish_time_ w) (next_get_updates_conflict_time_ w) (last_pending_update_count_ w)
    (next_bot_updates_warning_time_ w) (was_bot_updates_warning_ w) (last_synchronization_error_date_ w)
    (last_update_creation_time_ w) (conflicts_ w) (outs w).
Definition set_last_webhook_error_ (v : slice) (w : bot) : bot :=
  mkBot (settings_ w) (webhook_id_ w) (webhook_query_type_ w) (webhook_set_query_ w) (active_webhook_set_query_ w)
    (webhook_generation_ w) (next_allowed_set_webhook_time_ w) (webhook_set_time_ w) (last_webhook_error_date_ w) v
    (long_poll_limit_ w) (long_poll_offset_ w) (long_poll_was_wakeup_ w) (long_poll_hard_timeout_ w) (long_poll_slot_
    w) (long_poll_query_ w) (previous_get_updates_offset_ w) (previous_get_updates_start_time_ w)
    (previous_get_updates_finish_time_ w) (next_get_updates_conflict_time_ w) (last_pending_update_count_ w)
    (next_bot_updates_warning_time_ w) (was_bot_updates_warning_ w) (last_synchronization_error_date_ w)
    (last_update_creation_time_ w) (conflicts_ w) (outs w).
Definition set_long_poll_limit_ (v : Z) (w : bot) : bot :=
  mkBot (settings_ w) (webhook_id_ w) (webhook_query_type_ w) (webhook_set_query_ w) (active_webhook_set_query_ w)
    (webhook_generation_ w) (next_allowed_set_webhook_time_ w) (webhook_set_time_ w) (last_webhook_error_date_ w)
    (last_webhook_error_ w) v (long_poll_offset_ w) (long_poll_was_wakeup_ w) (long_poll_hard_timeout_ w)
    (long_poll_slot_ w) (long_poll_query_ w) (previous_get_updates_offset_ w) (previous_get_updates_start_time_ w)
    (previous_get_updates_finish_time_ w) (next_get_updates_conflict_time_ w) (last_pending_update_count_ w)
    (next_bot_updates_warning_time_ w) (was_bot_updates_warning_ w) (last_synchronization_error_date_ w)
    (last_update_creation_time_ w) (conflicts_ w) (outs w).
Definition set_long_poll_offset_ (v : Z) (w : bot) : bot :=
  mkBot (settings_ w) (webhook_id_ w) (webhook_query_type_ w) (webhook_set_query_ w) (active_webhook_set_query_ w)
    (webhook_generation_ w) (next_allowed_set_webhook_time_ w) (webhook_set_time_ w) (last_webhook_error_date_ w)
    (last_webhook_error_ w) (long_poll_limit_ w) v (long_poll_was_wakeup_ w) (long_poll_hard_timeout_ w)
    (long_poll_slot_ w) (long_poll_query_ w) (previous_get_updates_offset_ w) (previous_get_updates_start_time_ w)
    (previous_get_updates_finish_time_ w) (next_get_updates_conflict_time_ w) (last_pending_update_count_ w)
    (next_bot_updates_warning_time_ w) (was_bot_updates_warning_ w) (last_synchronization_error_date_ w)
    (last_update_creation_time_ w) (conflicts_ w) (outs w).
Definition set_long_poll_was_wakeup_ (v : bool) (w : bot) : bot :=
  mkBot (settings_ w) (webhook_id_ w) (webhook_query_type_ w) (webhook_set_query_ w) (active_webhook_set_query_ w)
    (webhook_generation_ w) (next_allowed_set_webhook_time_ w) (webhook_set_time_ w) (last_webhook_error_date_ w)
    (last_webhook_error_ w) (long_poll_limit_ w) (long_poll_offset_ w) v (long_poll_hard_timeout_ w) (long_poll_slot_
    w) (long_poll_query_ w) (previous_get_updates_offset_ w) (previous_get_updates_start_time_ w)
    (previous_get_updates_finish_time_ w) (next_get_updates_conflict_time_ w) (last_pending_update_count_ w)
    (next_bot_updates_warning_time_ w) (was_bot_updates_warning_ w) (last_synchronization_error_date_ w)
    (last_update_creation_time_ w) (conflicts_ w) (outs w).
Definition set_long_poll_hard_timeout_ (v : Q) (w : bot) : bot :=
  mkBot (settings_ w) (webhook_id_ w) (webhook_query_type_ w) (webhook_set_query_ w) (active_webhook_set_query_ w)
    (webhook_generation_ w) (next_allowed_set_webhook_time_ w) (webhook_set_time_ w) (last_webhook_error_date_ w)
    (last_webhook_error_ w) (long_poll_limit_ w) (long_poll_offset_ w) (long_poll_was_wakeup_ w) v (long_poll_slot_ w)
    (long_poll_query_ w) (previous_get_updates_offset_ w) (previous_get_updates_start_time_ w)
    (previous_get_updates_finish_time_ w) (next_get_updates_conflict_time_ w) (last_pending_update_count_ w)
    (next_bot_updates_warning_time_ w) (was_bot_updates_warning_ w) (last_synchronization_error_date_ w)
    (last_update_creation_time_ w) (conflicts_ w) (outs w).
Definition set_long_poll_slot_ (v : option Q) (w : bot) : bot :=
  mkBot (settings_ w) (webhook_id_ w) (webhook_query_type_ w) (webhook_set_query_ w) (active_webhook_set_query_ w)
    (webhook_generation_ w) (next_allowed_set_webhook_time_ w) (webhook_set_time_ w) (last_webhook_error_date_ w)
    (last_webhook_error_ w) (long_poll_limit_ w) (long_poll_offset_ w) (long_poll_was_wakeup_ w)
    (long_poll_hard_timeout_ w) v (long_poll_query_ w) (previous_get_updates_offset_ w)
    (previous_get_updates_start_time_ w) (previous_get_updates_finish_time_ w) (next_get_updates_conflict_time_ w)
    (last_pending_update_count_ w) (next_bot_updates_warning_time_ w) (was_bot_updates_warning_ w)
    (last_synchronization_error_date_ w) (last_update_creation_time_ w) (conflicts_ w) (outs w).
Definition set_long_poll_query_ (v : option Query) (w : bot) : bot :=
  mkBot (settings_ w) (webhook_id_ w) (webhook_query_type_ w) (webhook_set_query_ w) (active_webhook_set_query_ w)
    (webhook_generation_ w) (next_allowed_set_webhook_time_ w) (webhook_set_time_ w) (last_webhook_error_date_ w)
    (last_webhook_error_ w) (long_poll_limit_ w) (long_poll_offset_ w) (long_poll_was_wakeup_ w)
    (long_poll_hard_timeout_ w) (long_poll_slot_ w) v (previous_get_updates_offset_ w)
    (previous_get_updates_start_time_ w) (previous_get_updates_finish_time_ w) (next_get_updates_conflict_time_ w)
    (last_pending_update_count_ w) (next_bot_updates_warning_time_ w) (was_bot_updates_warning_ w)
    (last_synchronization_error_date_ w) (last_update_creation_time_ w) (conflicts_ w) (outs w).
Definition set_previous_get_updates_offset_ (v : Z) (w : bot) : bot :=
  mkBot (settings_ w) (webhook_id_ w) (webhook_query_type_ w) (webhook_set_query_ w) (active_webhook_set_query_ w)
    (webhook_generation_ w) (next_allowed_set_webhook_time_ w) (webhook_set_time_ w) (last_webhook_error_date_ w)
    (last_webhook_error_ w) (long_poll_limit_ w) (long_poll_offset_ w) (long_poll_was_wakeup_ w)
    (long_poll_hard_timeout_ w) (long_poll_slot_ w) (long_poll_query_ w) v (previous_get_updates_start_time_ w)
    (previous_get_updates_finish_time_ w) (next_get_updates_conflict_time_ w) (last_pending_update_count_ w)
    (next_bot_updates_warning_time_ w) (was_bot_updates_warning_ w) (last_synchronization_error_date_ w)
    (last_update_creation_time_ w) (conflicts_ w) (outs w).
Definition set_previous_get_updates_start_time_ (v : Q) (w : bot) : bot :=
  mkBot (settings_ w) (webhook_id_ w) (webhook_query_type_ w) (webhook_set_query_ w) (active_webhook_set_query_ w)
    (webhook_generation_ w) (next_allowed_set_webhook_time_ w) (webhook_set_time_ w) (last_webhook_error_date_ w)
    (last_webhook_error_ w) (long_poll_limit_ w) (long_poll_offset_ w) (long_poll_was_wakeup_ w)
    (long_poll_hard_timeout_ w) (long_poll_slot_ w) (long_poll_query_ w) (previous_get_updates_offset_ w) v
    (previous_get_updates_finish_time_ w) (next_get_updates_conflict_time_ w) (last_pending_update_count_ w)
    (next_bot_updates_warning_time_ w) (was_bot_updates_warning_ w) (last_synchronization_error_date_ w)
    (last_update_creation_time_ w) (conflicts_ w) (outs w).
Definition set_previous_get_updates_finish_time_ (v : Q) (w : bot) : bot :=
  mkBot (settings_ w) (webhook_id_ w) (webhook_query_type_ w) (webhook_set_query_ w) (active_webhook_set_query_ w)
    (webhook_generation_ w) (next_allowed_set_webhook_time_ w) (webhook_set_time_ w) (last_webhook_error_date_ w)
    (last_webhook_error_ w) (long_poll_limit_ w) (long_poll_offset_ w) (long_poll_was_wakeup_ w)
    (long_poll_hard_timeout_ w) (long_poll_slot_ w) (long_poll_query_ w) (previous_get_updates_offset_ w)
    (previous_get_updates_start_time_ w) v (next_get_updates_conflict_time_ w) (last_pending_update_count_ w)
    (next_bot_updates_warning_time_ w) (was_bot_updates_warning_ w) (last_synchronization_error_date_ w)
    (last_update_creation_time_ w) (conflicts_ w) (outs w).
Definition set_next_get_updates_conflict_time_ (v : Q) (w : bot) : bot :=
  mkBot (settings_ w) (webhook_id_ w) (webhook_query_type_ w) (webhook_set_query_ w) (active_webhook_set_query_ w)
    (webhook_generation_ w) (next_allowed_set_webhook_time_ w) (webhook_set_time_ w) (last_webhook_error_date_ w)
    (last_webhook_error_ w) (long_poll_limit_ w) (long_poll_offset_ w) (long_poll_was_wakeup_ w)
    (long_poll_hard_timeout_ w) (long_poll_slot_ w) (long_poll_query_ w) (previous_get_updates_offset_ w)
    (previous_get_updates_start_time_ w) (previous_get_updates_finish_time_ w) v (last_pending_update_count_ w)
    (next_bot_updates_warning_time_ w) (was_bot_updates_warning_ w) (last_synchronization_error_date_ w)
    (last_update_creation_time_ w) (conflicts_ w) (outs w).
Definition set_last_pending_update_count_ (v : Z) (w : bot) : bot :=
  mkBot (settings_ w) (webhook_id_ w) (webhook_query_type_ w) (webhook_set_query_ w) (active_webhook_set_query_ w)
    (webhook_generation_ w) (next_allowed_set_webhook_time_ w) (webhook_set_time_ w) (last_webhook_error_date_ w)
    (last_webhook_error_ w) (long_poll_limit_ w) (long_poll_offset_ w) (long_poll_was_wakeup_ w)
    (long_poll_hard_timeout_ w) (long_poll_slot_ w) (long_poll_query_ w) (previous_get_updates_offset_ w)
    (previous_get_updates_start_time_ w) (previous_get_updates_finish_time_ w) (next_get_updates_conflict_time_ w) v
    (next_bot_updates_warning_time_ w) (was_bot_updates_warning_ w) (last_synchronization_error_date_ w)
    (last_update_creation_time_ w) (conflicts_ w) (outs w).
Definition set_next_bot_updates_warning_time_ (v : Q) (w : bot) : bot :=
  mkBot (settings_ w) (webhook_id_ w) (webhook_query_type_ w) (webhook_set_query_ w) (active_webhook_set_query_ w)
    (webhook_generation_ w) (next_allowed_set_webhook_time_ w) (webhook_set_time_ w) (last_webhook_error_date_ w)
    (last_webhook_error_ w) (long_poll_limit_ w) (long_poll_offset_ w) (long_poll_was_wakeup_ w)
    (long_poll_hard_timeout_ w) (long_poll_slot_ w) (long_poll_query_ w) (previous_get_updates_offset_ w)
    (previous_get_updates_start_time_ w) (previous_get_updates_finish_time_ w) (next_get_updates_conflict_time_ w)
    (last_pending_update_count_ w) v (was_bot_updates_warning_ w) (last_synchronization_error_date_ w)
    (last_update_creation_time_ w) (conflicts_ w) (outs w).
Definition set_was_bot_updates_warning_ (v : bool) (w : bot) : bot :=
  mkBot (settings_ w) (webhook_id_ w) (webhook_query_type_ w) (webhook_set_query_ w) (active_webhook_set_query_ w)
    (webhook_generation_ w) (next_allowed_set_webhook_time_ w) (webhook_set_time_ w) (last_webhook_error_date_ w)
    (last_webhook_error_ w) (long_poll_limit_ w) (long_poll_offset_ w) (long_poll_was_wakeup_ w)
    (long_poll_hard_timeout_ w) (long_poll_slot_ w) (long_poll_query_ w) (previous_get_updates_offset_ w)
    (previous_get_updates_start_time_ w) (previous_get_updates_finish_time_ w) (next_get_updates_conflict_time_ w)
    (last_pending_update_count_ w) (next_bot_updates_warning_time_ w) v (last_synchronization_error_date_ w)
    (last_update_creation_time_ w) (conflicts_ w) (outs w).
Definition set_last_synchronization_error_date_ (v : Z) (w : bot) : bot :=
  mkBot (settings_ w) (webhook_id_ w) (webhook_query_type_ w) (webhook_set_query_ w) (active_webhook_set_query_ w)
    (webhook_generation_ w) (next_allowed_set_webhook_time_ w) (webhook_set_time_ w) (last_webhook_error_date_ w)
    (last_webhook_error_ w) (long_poll_limit_ w) (long_poll_offset_ w) (long_poll_was_wakeup_ w)
    (long_poll_hard_timeout_ w) (long_poll_slot_ w) (long_poll_query_ w) (previous_get_updates_offset_ w)
    (previous_get_updates_start_time_ w) (previous_get_updates_finish_time_ w) (next_get_updates_conflict_time_ w)
    (last_pending_update_count_ w) (next_bot_updates_warning_time_ w) (was_bot_updates_warning_ w) v
    (last_update_creation_time_ w) (conflicts_ w) (outs w).
Definition set_last_update_creation_time_ (v : Q) (w : bot) : bot :=
  mkBot (settings_ w) (webhook_id_ w) (webhook_query_type_ w) (webhook_set_query_ w) (active_webhook_set_query_ w)
    (webhook_generation_ w) (next_allowed_set_webhook_time_ w) (webhook_set_time_ w) (last_webhook_error_date_ w)
    (last_webhook_error_ w) (long_poll_limit_ w) (long_poll_offset_ w) (long_poll_was_wakeup_ w)
    (long_poll_hard_timeout_ w) (long_poll_slot_ w) (long_poll_query_ w) (previous_get_updates_offset_ w)
    (previous_get_updates_start_time_ w) (previous_get_updates_finish_time_ w) (next_get_updates_conflict_time_ w)
    (last_pending_update_count_ w) (next_bot_updates_warning_time_ w) (was_bot_updates_warning_ w)
    (last_synchronization_error_date_ w) v (conflicts_ w) (outs w).
Definition set_conflicts_ (v : list (Q * Query * slice)) (w : bot) : bot :=
  mkBot (settings_ w) (webhook_id_ w) (webhook_query_type_ w) (webhook_set_query_ w) (active_webhook_set_query_ w)
    (webhook_generation_ w) (next_allowed_set_webhook_time_ w) (webhook_set_time_ w) (last_webhook_error_date_ w)
    (last_webhook_error_ w) (long_poll_limit_ w) (long_poll_offset_ w) (long_poll_was_wakeup_ w)
    (long_poll_hard_timeout_ w) (long_poll_slot_ w) (long_poll_query_ w) (previous_get_updates_offset_ w)
    (previous_get_updates_start_time_ w) (previous_get_updates_finish_time_ w) (next_get_updates_conflict_time_ w)
    (last_pending_update_count_ w) (next_bot_updates_warning_time_ w) (was_bot_updates_warning_ w)
    (last_synchronization_error_date_ w) (last_update_creation_time_ w) v (outs w).
Definition set_outs (v : list bot_out) (w : bot) : bot :=
  mkBot (settings_ w) (webhook_id_ w) (webhook_query_type_ w) (webhook_set_query_ w) (active_webhook_set_query_ w)
    (webhook_generation_ w) (next_allowed_set_webhook_time_ w) (webhook_set_time_ w) (last_webhook_error_date_ w)
    (last_webhook_error_ w) (long_poll_limit_ w) (long_poll_offset_ w) (long_poll_was_wakeup_ w)
    (long_poll_hard_timeout_ w) (long_poll_slot_ w) (long_poll_query_ w) (previous_get_updates_offset_ w)
    (previous_get_updates_start_time_ w) (previous_get_updates_finish_time_ w) (next_get_updates_conflict_time_ w)
    (last_pending_update_count_ w) (next_bot_updates_warning_time_ w) (was_bot_updates_warning_ w)
    (last_synchronization_error_date_ w) (last_update_creation_time_ w) (conflicts_ w) v.

Definition send_bot (a : bot_out) (w : bot) : bot := set_outs (outs w ++ [a]) w.

(** [start_up], as far as these fields are concerned. *)
Definition start_bot (now : Q) : bot :=
  mkBot (mkWebhook [] false 0 [] false [] DEFAULT_ALLOWED_UPDATE_TYPES) None Cancel None None 1 now now 0 []
    0 0 false 0 None None (-1) (now - 100)%Q 0 (now - 100)%Q MIN_PENDING_UPDATES_WARNING (now + 600)%Q false 0 0 [] [].

Definition set_url v (s : webhook) :=
  mkWebhook v (has_webhook_certificate_ s) (webhook_max_connections_ s) (webhook_ip_address_ s) (webhook_fix_ip_address_ s)
    (webhook_secret_token_ s) (allowed_update_types_ s).
Definition set_has_webhook_certificate_ v (s : webhook) :=
  mkWebhook (webhook_url_ s) v (webhook_max_connections_ s) (webhook_ip_address_ s) (webhook_fix_ip_address_ s)
    (webhook_secret_token_ s) (allowed_update_types_ s).
Definition set_webhook_ip_address_ v (s : webhook) :=
  mkWebhook (webhook_url_ s) (has_webhook_certificate_ s) (webhook_max_connections_ s) v (webhook_fix_ip_address_ s)
    (webhook_secret_token_ s) (allowed_update_types_ s).
Definition set_allowed_update_types_ v (s : webhook) :=
  mkWebhook (webhook_url_ s) (has_webhook_certificate_ s) (webhook_max_connections_ s) (webhook_ip_address_ s)
    (webhook_fix_ip_address_ s) (webhook_secret_token_ s) v.
(** What is left of the settings when the webhook is closed. *)
Definition no_webhook (s : webhook) : webhook := mkWebhook [] false 0 [] false [] (allowed_update_types_ s).

Definition has_query (q : option Query) : bool := match q with Some _ => true | None => false end.
Definition webhook_is_set (w : bot) : bool := negb (bool_decide (webhook_url_ (settings_ w) = [])).

(** ** Answers *)

Definition answer_bot (q : Query) (a : answer) (w : bot) : option bot := _ ← give_answer q a; Some (send_bot (Answered q a) w).

(** [send_request] of a request whose answer is not looked at. *)
Definition send_td (x : bot_io) (a : bot_out) (w : bot) : bot :=
  match closing_error x with Some _ => w | None => send_bot a w end.

Definition fail_query_conflict (now : Q) (message : slice) (q : Query) (w : bot) : option bot :=
  if Qle_bool (next_get_updates_conflict_time_ w) now then
    w ← answer_bot q (AnswerError 409 message []) w; Some (set_next_get_updates_conflict_time_ (now + 3)%Q w)
  else Some (set_conflicts_ (conflicts_ w ++ [((now + 3)%Q, q, message)]) w).

(** A [SleepActor] ends; they all sleep as long. *)
Definition conflict_timeout (w : bot) : option bot :=
  match conflicts_ w with
  | [] => Some w
  | (_, q, message) :: conflicts => answer_bot q (AnswerError 409 message []) (set_conflicts_ conflicts w)
  end.

Definition closing_answer (err : ClosingError) : answer :=
  if 0 <? ce_retry_after err then AnswerRetry (ce_retry_after err) else AnswerError (ce_code err) (ce_message err) [].
Definition fail_query_closing (x : bot_io) (q : Query) (w : bot) : option bot :=
  err ← closing_error x; answer_bot q (closing_answer err) w.

(** ** getUpdates *)

Definition abort_long_poll (now : Q) (from_set_webhook : bool) (w : bot) : option bot :=
  match long_poll_query_ w with
  | None => Some w
  | Some q =>
      fail_query_conflict now
        (if from_set_webhook then lit "Conflict: terminated by setWebhook request"
         else lit "Conflict: terminated by other getUpdates request; make sure that only one bot instance is running")
        q (set_long_poll_query_ None w)
  end.

(** The updates from an offset that is positive; from the first one when the
    offset is refused. *)
Definition fetch_updates (x : bot_io) (offset limit : Z) (t : tqueue S) : option (Z * list Event * tqueue S) :=
  let now := get_unix_time e (now_ x) in
  let from_head :=
    '(r, updates, t) ← get (tqueue_id_ e) (get_head (tqueue_id_ e) t) true now (Z.to_nat limit) t;
    total_size ← result_value r;
    Some (total_size, updates, t) in
  match from_int32 offset with
  | Err _ _ => from_head
  | Ok from =>
      '(r, updates, t) ← get (tqueue_id_ e) from true now (Z.to_nat limit) t;
      match r with
      | Ok total_size => Some (total_size, updates, t)
      | Err _ _ => from_head
      end
  end.

(** The doubling of [last_pending_update_count_]. *)
Fixpoint grow_pending_count (fuel : nat) (total_size count : Z) : option Z :=
  match fuel with
  | O => None
  | Datatypes.S fuel => if count <=? total_size then grow_pending_count fuel total_size (wrap 64 (count * 2)) else Some count
  end.
Definition next_pending_count (total_size count : Z) : option Z :=
  if total_size <=? MIN_PENDING_UPDATES_WARNING / 2 then
    Some (if MIN_PENDING_UPDATES_WARNING <? count then MIN_PENDING_UPDATES_WARNING else count)
  else grow_pending_count 64 total_size count.

(** A query that waits: [long_poll_slot_] wakes the client up. *)
Definition start_long_poll (x : bot_io) (offset limit timeout : Z) (q : Query) (w : bot) : bot :=
  let w := set_long_poll_offset_ offset w in
  let w := set_long_poll_limit_ limit w in
  let w := set_long_poll_query_ (Some q) w in
  let w := set_long_poll_was_wakeup_ false w in
  let w := set_long_poll_hard_timeout_ (now_ x + inject_Z timeout)%Q w in
  set_long_poll_slot_ (Some (long_poll_hard_timeout_ w)) w.

(** [-offset] overflows for the least offset; 2^31 updates are more than any
    queue has. *)
Definition do_get_updates (x : bot_io) (offset limit timeout : Z) (q : Query) (w : bot) (t : tqueue S) : option (bot * tqueue S) :=
  let t := if offset <? 0 then (clear (tqueue_id_ e) (Z.to_nat (- offset)) t).2 else t in
  let offset := if offset <=? 0 then get_head (tqueue_id_ e) t else offset in
  '(total_size, updates, t) ← (if offset <=? 0 then Some (0, [], t) else fetch_updates x offset limit t);
  (CHECK! slen updates <=? total_size ;;
   let total_size := total_size - slen updates in
   count ← next_pending_count total_size (last_pending_update_count_ w);
   let w := set_last_pending_update_count_ count w in
   if negb (timeout =? 0) && bool_decide (updates = []) then
     w ← abort_long_poll (now_ x) false w; Some (start_long_poll x offset limit timeout q w, t)
   else
     let w := set_previous_get_updates_finish_time_ (now_ x) w in
     let w := set_next_bot_updates_warning_time_ (now_ x + inject_Z BOT_UPDATES_WARNING_DELAY)%Q w in
     let w := if (total_size =? slen updates) && was_bot_updates_warning_ w
              then set_was_bot_updates_warning_ false (send_td x (SetBotUpdatesStatus 0 []) w) else w in
     result ← JsonUpdates updates;
     w ← answer_bot q (AnswerOk result []) w;
     Some (w, t))%td.

(** [setBotUpdatesStatus], when many updates wait for too long. *)
Definition warn_pending (x : bot_io) (message : slice) (w : bot) (t : tqueue S) : option bot :=
  let count := get_size (tqueue_id_ e) t in
  if (MIN_PENDING_UPDATES_WARNING <=? count) && q_lt (next_bot_updates_warning_time_ w) (now_ x) then
    (CHECK! count <=? INT32_MAX ;;
     let w := send_td x (SetBotUpdatesStatus count message) w in
     let w := set_next_bot_updates_warning_time_ (now_ x + inject_Z BOT_UPDATES_WARNING_DELAY)%Q w in
     Some (set_was_bot_updates_warning_ true w))%td
  else Some w.

Definition long_poll_wakeup (x : bot_io) (force_flag : bool) (w : bot) (t : tqueue S) : option (bot * tqueue S) :=
  match long_poll_query_ w with
  | None => w ← warn_pending x (lit "The getUpdates method is not called for too long") w t; Some (w, t)
  | Some q =>
      if force_flag then do_get_updates x (long_poll_offset_ w) (long_poll_limit_ w) 0 q (set_long_poll_query_ None w) t
      else
        let w := if negb (long_poll_was_wakeup_ w)
                 then set_long_poll_was_wakeup_ true
                        (set_long_poll_hard_timeout_ (q_min (now_ x + LONG_POLL_MAX_DELAY) (long_poll_hard_timeout_ w))%Q w)
                 else w in
        Some (set_long_poll_slot_ (Some (q_min (now_ x + LONG_POLL_WAIT_AFTER) (long_poll_hard_timeout_ w))%Q) w, t)
  end.

(** The event of [long_poll_slot_]. *)
Definition raw_event (x : bot_io) (w : bot) (t : tqueue S) : option (bot * tqueue S) :=
  long_poll_wakeup x true (set_long_poll_slot_ None w) t.

Definition update_allowed_update_types (x : bot_io) (q : Query) (w : bot) : option (bool * bot) :=
  allowed ← get_allowed_update_types (arg q (lit "allowed_updates")) (q_is_internal q);
  Some (if negb (allowed =? 0) && negb (allowed =? allowed_update_types_ (settings_ w)) then
          let w := set_settings_ (set_allowed_update_types_ allowed (settings_ w)) w in
          (true, send_td x (SetAllowedUpdateTypes (if allowed =? DEFAULT_ALLOWED_UPDATE_TYPES then None else Some (to_signed 64 allowed))) w)
        else (false, w)).

(** The update that TDLib sends for the option: a [uint64] again. *)
Definition on_allowed_update_types (types : option Z) (w : bot) : bot :=
  set_settings_ (set_allowed_update_types_ (match types with None => DEFAULT_ALLOWED_UPDATE_TYPES | Some v => wrap 64 v end) (settings_ w)) w.

Definition process_get_updates_query (x : bot_io) (q : Query) (w : bot) (t : tqueue S) : option (bot * tqueue S) :=
  if webhook_is_set w || has_query (webhook_set_query_ w) || has_query (active_webhook_set_query_ w) then
    w ← fail_query_conflict (now_ x)
          (lit "Conflict: can't use getUpdates method while webhook is active; use deleteWebhook to delete the webhook first") q w;
    Some (w, t)
  else
    let offset := get_integer_arg q (lit "offset") 0 (- 2 ^ 31) INT32_MAX in
    let limit := get_integer_arg q (lit "limit") 100 1 100 in
    let timeout := get_integer_arg q (lit "timeout") 0 0 LONG_POLL_MAX_TIMEOUT in
    '(_, w) ← update_allowed_update_types x q w;
    let again := offset =? previous_get_updates_offset_ w in
    let timeout := if again && (timeout <? 3) && q_lt (now_ x) (previous_get_updates_start_time_ w + 3)%Q then 3 else timeout in
    let limit := if again && q_lt (now_ x) (previous_get_updates_start_time_ w + (1 # 2))%Q then 1 else limit in
    let w := set_previous_get_updates_offset_ offset w in
    let w := set_previous_get_updates_start_time_ (now_ x) w in
    do_get_updates x offset limit timeout q w t.

(** ** The webhook *)

Definition save_webhook_now (w : bot) : bot := send_bot (SaveWebhook (save_webhook (settings_ w))) w.

Definition clear_tqueue (w : bot) (t : tqueue S) : option (tqueue S) :=
  (CHECK! bool_decide (webhook_id_ w = None) ;; Some (clear (tqueue_id_ e) 0 t).2)%td.

Definition get_webhook_certificate_path : slice := dir_ e ++ lit "cert.pem".

Definition finish_set_webhook (x : bot_io) (q : Query) (w : bot) : option bot :=
  (CHECK! negb (has_query (active_webhook_set_query_ w)) ;;
   CHECK! negb (has_query (webhook_set_query_ w)) ;;
   CHECK! negb (webhook_is_set w) ;;
   match closing_error x with
   | Some _ => fail_query_closing x q w
   | None =>
       let new_url := arg q (lit "url") in
       CHECK! negb (bool_decide (new_url = [])) ;;
       let s := settings_ w in
       let max_connections := get_webhook_max_connections (local_mode_ e) (default_max_webhook_connections_ e) q in
       let fix_ip_address := get_webhook_fix_ip_address q in
       let ip_address := arg q (lit "ip_address") in
       let secret_token := arg q (lit "secret_token") in
       let w := set_settings_ (mkWebhook new_url (has_webhook_certificate_ s) max_connections ip_address fix_ip_address
                                 secret_token (allowed_update_types_ s)) w in
       let w := set_webhook_set_time_ (now_ x) w in
       let w := set_last_webhook_error_ [] (set_last_webhook_error_date_ 0 w) in
       '(_, w) ← update_allowed_update_types x q w;
       url ← result_value (parse_url (inet_pton6 e) new_url Https);
       let token := webhook_generation_ w in
       let w := send_bot (NewWebhook token url (if has_webhook_certificate_ s then Some get_webhook_certificate_path else None)
                            max_connections (q_is_internal q) ip_address fix_ip_address secret_token) w in
       let w := set_webhook_query_type_ Verify (set_webhook_id_ (Some token) w) in
       Some (set_webhook_set_query_ (Some q) w)
   end)%td.

(** The checks of [do_set_webhook] on a query that sets a URL. *)
Definition set_webhook_error (q : Query) : option slice :=
  let secret_token := arg q (lit "secret_token") in
  if negb (is_ok (parse_url (inet_pton6 e) (new_url_of q) Https)) then Some (lit "Bad Request: invalid webhook URL specified")
  else if 256 <? slen secret_token then Some (lit "Bad Request: secret token is too long")
  else if negb (is_base64url_characters secret_token) then Some (lit "Bad Request: secret token contains unallowed characters")
  else None.

(** The certificate that comes with the query is copied first. *)
Definition begin_set_webhook (x : bot_io) (q : Query) (w : bot) : option bot :=
  (CHECK! negb (has_webhook_certificate_ (settings_ w)) ;;
   if q_is_internal q then
     finish_set_webhook x q
       (set_settings_ (set_has_webhook_certificate_ (bool_decide (arg q (lit "certificate") = lit "previous")) (settings_ w)) w)
   else
     match get_webhook_certificate q with
     | Some size =>
         if MAX_CERTIFICATE_FILE_SIZE <? size then
           answer_bot q (AnswerError 400 (lit "Bad Request: certificate size is too big (" ++ print_int 64 size ++ lit " bytes)") []) w
         else
           CHECK! negb (has_query (webhook_set_query_ w)) ;;
           Some (send_bot (CopyCertificate get_webhook_certificate_path size) (set_active_webhook_set_query_ (Some q) w))
     | None => finish_set_webhook x q w
     end)%td.

Definition do_set_webhook (x : bot_io) (q : Query) (was_deleted : bool) (w : bot) (t : tqueue S) : option (bot * tqueue S) :=
  (CHECK! negb (webhook_is_set w) ;;
   match closing_error x with
   | Some _ => w ← fail_query_closing x q w; Some (w, t)
   | None =>
       t ← (if to_bool (arg q (lit "drop_pending_updates")) then clear_tqueue w t else Some t);
       w ← (if bool_decide (new_url_of q = []) then
              answer_bot q (AnswerOk (JsonBoolean true) (if was_deleted then lit "Webhook was deleted" else lit "Webhook is already deleted")) w
            else
              match set_webhook_error q with
              | Some message => answer_bot q (AnswerError 400 message []) w
              | None =>
                  if has_query (active_webhook_set_query_ w) then answer_bot q (AnswerRetry 1) w else begin_set_webhook x q w
              end);
       Some (w, t)
   end)%td.

(** [process_set_webhook_query] after the query before was cancelled: the old
    webhook is closed first. *)
Definition change_webhook (x : bot_io) (q : Query) (w : bot) (t : tqueue S) : option (bot * tqueue S) :=
  w ← (if bool_decide (new_url_of q = []) then Some w else abort_long_poll (now_ x) true w);
  let w := set_webhook_generation_ (wrap 64 (webhook_generation_ w + 1)) w in
  if webhook_is_set w then
    let w := match webhook_id_ w with Some token => set_webhook_id_ None (send_bot (CloseWebhook token) w) | None => w end in
    let w := set_webhook_query_type_ Cancel w in
    (CHECK! negb (has_query (active_webhook_set_query_ w)) ;;
     Some (set_webhook_set_query_ (Some q) w, t))%td
  else do_set_webhook x q false w t.

(** What a query asks for is what there is. *)
Definition webhook_unchanged (q : Query) (w : bot) : bool :=
  let new_url := new_url_of q in
  let given := negb (bool_decide (new_url = [])) in
  let s := settings_ w in
  let new_has_certificate :=
    given && (match get_webhook_certificate q with Some _ => true | None => false end
              || q_is_internal q && bool_decide (arg q (lit "certificate") = lit "previous")) in
  let new_max_connections := if given then get_webhook_max_connections (local_mode_ e) (default_max_webhook_connections_ e) q else 0 in
  let new_ip_address := if given then arg q (lit "ip_address") else [] in
  let new_fix_ip_address := given && get_webhook_fix_ip_address q in
  let new_secret_token := if given then arg q (lit "secret_token") else [] in
  bool_decide (webhook_url_ s = new_url) && negb (has_webhook_certificate_ s) && negb new_has_certificate
  && (new_max_connections =? webhook_max_connections_ s) && Bool.eqb new_fix_ip_address (webhook_fix_ip_address_ s)
  && bool_decide (new_secret_token = webhook_secret_token_ s)
  && (negb new_fix_ip_address || bool_decide (new_ip_address = webhook_ip_address_ s))
  && negb (to_bool (arg q (lit "drop_pending_updates"))).

Definition process_set_webhook_query (x : bot_io) (q : Query) (w : bot) (t : tqueue S) : option (bot * tqueue S) :=
  let new_url := new_url_of q in
  let limited := negb (bool_decide (new_url = [])) && negb (q_is_internal q) in
  if limited && q_lt (now_ x) (next_allowed_set_webhook_time_ w) then w ← answer_bot q (AnswerRetry 1) w; Some (w, t)
  else
    let w := if limited then set_next_allowed_set_webhook_time_ (now_ x + 1)%Q w else w in
    let w := set_next_bot_updates_warning_time_
               (q_max (next_bot_updates_warning_time_ w) (now_ x + inject_Z BOT_UPDATES_WARNING_DELAY)%Q) w in
    match webhook_set_query_ w with
    | Some old =>
        w ← fail_query_conflict (now_ x) (lit "Conflict: terminated by other setWebhook") old (set_webhook_set_query_ None w);
        change_webhook x q w t
    | None =>
        if has_query (active_webhook_set_query_ w) then w ← answer_bot q (AnswerRetry 1) w; Some (w, t)
        else if webhook_unchanged q w then
          '(changed, w) ← update_allowed_update_types x q w;
          let w := if (changed : bool) then save_webhook_now w else w in
          w ← answer_bot q (AnswerOk (JsonBoolean true)
                              (if bool_decide (new_url = []) then lit "Webhook is already deleted" else lit "Webhook is already set")) w;
          Some (w, t)
        else change_webhook x q w t
    end.

Definition on_webhook_certificate_copied (x : bot_io) (is_copied : bool) (w : bot) : option bot :=
  q ← active_webhook_set_query_ w;
  let w := set_active_webhook_set_query_ None w in
  if is_copied then finish_set_webhook x q (set_settings_ (set_has_webhook_certificate_ true (settings_ w)) w)
  else answer_bot q (AnswerError 500 (lit "Internal Server Error: failed to save certificate") []) w.

(** *** Messages of the [WebhookActor] *)

Definition webhook_verified (token : Z) (cached_ip_address : slice) (w : bot) : option bot :=
  if negb (token =? webhook_generation_ w) then Some w
  else
    let need_save := has_query (webhook_set_query_ w) || negb (bool_decide (cached_ip_address = webhook_ip_address_ (settings_ w))) in
    let w := set_settings_ (set_webhook_ip_address_ cached_ip_address (settings_ w)) w in
    w ← match webhook_set_query_ w with
        | Some q => answer_bot q (AnswerOk (JsonBoolean true) (lit "Webhook was set")) (set_webhook_set_query_ None w)
        | None => Some w
        end;
    Some (if (need_save : bool) then save_webhook_now w else w).

Definition webhook_success (x : bot_io) (w : bot) : bot :=
  let w := set_next_bot_updates_warning_time_ (now_ x + inject_Z BOT_UPDATES_WARNING_DELAY)%Q w in
  if was_bot_updates_warning_ w then set_was_bot_updates_warning_ false (send_td x (SetBotUpdatesStatus 0 []) w) else w.

Definition webhook_error (x : bot_io) (message : slice) (w : bot) (t : tqueue S) : option (bot * tqueue S) :=
  let w := set_last_webhook_error_ message (set_last_webhook_error_date_ (get_unix_time e (now_ x)) w) in
  w ← warn_pending x (lit "Webhook error. " ++ message) w t; Some (w, t).

(** The fields that [on_webhook_closed] resets. *)
Definition forget_webhook (x : bot_io) (w : bot) : bot :=
  let w := set_settings_ (no_webhook (settings_ w)) (set_webhook_id_ None w) in
  let w := set_webhook_set_time_ (now_ x) w in
  let w := set_last_webhook_error_ [] (set_last_webhook_error_date_ 0 w) in
  send_bot EraseWebhook w.

Definition on_webhook_closed (x : bot_io) (message : slice) (w : bot) (t : tqueue S) : option (bot * tqueue S) :=
  let w := forget_webhook x w in
  match webhook_set_query_ w with
  | None => Some (w, t)
  | Some q =>
      let w := set_webhook_set_query_ None w in
      match webhook_query_type_ w with
      | Verify => w ← answer_bot q (AnswerError 400 (lit "Bad Request: bad webhook: " ++ message) []) w; Some (w, t)
      | Cancel => do_set_webhook x q true w t
      end
  end.

(** The certificate is unlinked first; [on_webhook_closed] comes back. *)
Definition webhook_closed (x : bot_io) (message : slice) (w : bot) (t : tqueue S) : option (bot * tqueue S) :=
  if has_webhook_certificate_ (settings_ w) then Some (send_bot (UnlinkCertificate get_webhook_certificate_path) w, t)
  else on_webhook_closed x message w t.
Definition hangup_shared (x : bot_io) (w : bot) (t : tqueue S) : option (bot * tqueue S) := webhook_closed x (lit "Unknown") w t.

(** *** getWebhookInfo *)

Definition update_last_synchronization_error_date (x : bot_io) (w : bot) : bot :=
  match closing_error x with
  | Some _ => w
  | None =>
      if Qeq_bool (disconnection_time_ x) 0 || negb (was_authorized_ x) then w
      else if q_lt (now_ x - 10) (last_update_creation_time_ w) || q_lt (now_ x - 180) (disconnection_time_ x) then w
      else set_last_synchronization_error_date_ (get_unix_time e (now_ x)) w
  end.

Definition JsonWebhookInfo (w : bot) (t : tqueue S) : option JsonValue :=
  let s := settings_ w in
  let count := get_size (tqueue_id_ e) t in
  (CHECK! count <=? INT32_MAX ;;
   Some (JsonObject
     ([(lit "url", json_text (webhook_url_ s)); (lit "has_custom_certificate", JsonBoolean (has_webhook_certificate_ s));
       (lit "pending_update_count", JsonNumber (print_int 32 count))]
      ++ (if 0 <? last_webhook_error_date_ w then
            [(lit "last_error_date", JsonNumber (print_int 32 (last_webhook_error_date_ w)));
             (lit "last_error_message", json_text (last_webhook_error_ w))]
          else [])
      ++ (if 0 <? webhook_max_connections_ s then [(lit "max_connections", JsonNumber (print_int 32 (webhook_max_connections_ s)))] else [])
      ++ (if negb (bool_decide (webhook_url_ s = [])) then
            [(lit "ip_address", JsonStr (match webhook_ip_address_ s with [] => lit "<unknown>" | ip => ip end))]
          else [])
      ++ (if negb (allowed_update_types_ s =? DEFAULT_ALLOWED_UPDATE_TYPES)
          then [(lit "allowed_updates", JsonUpdateTypes (allowed_update_types_ s))] else [])
      ++ (if 0 <? last_synchronization_error_date_ w
          then [(lit "last_synchronization_error_date", JsonNumber (print_int 32 (last_synchronization_error_date_ w)))] else []))))%td.

Definition process_get_webhook_info_query (x : bot_io) (q : Query) (w : bot) (t : tqueue S) : option (bot * tqueue S) :=
  let w := update_last_synchronization_error_date x w in
  result ← JsonWebhookInfo w t;
  w ← answer_bot q (AnswerOk result []) w;
  Some (w, t).

(** ** Updates *)

(** [add_update_impl]; the buffer of the text grows at need. *)
Definition add_update (x : bot_io) (update_type : UpdateType) (update : JsonValue) (timeout webhook_queue_id : Z) (w : bot) (t : tqueue S)
    : option (bot * tqueue S) :=
  let w := set_last_update_creation_time_ (now_ x) (update_last_synchronization_error_date x w) in
  if negb (Z.testbit (allowed_update_types_ (settings_ w)) (update_value update_type)) then Some (w, t)
  else
    name ← json_encode (JsonStr (get_update_type_name update_type)) false;
    text ← json_encode update false;
    '(r, t) ← push (random_id x) (tqueue_id_ e) (name ++ lit ":" ++ text)
                (to_signed 32 (get_unix_time e (now_ x) + timeout)) webhook_queue_id 0 t;
    match r with
    | Err _ _ => Some (w, t)
    | Ok _ =>
        if negb (webhook_is_set w) then long_poll_wakeup x false w t
        else Some (match webhook_id_ w with Some token => send_bot (UpdateWebhook token) w | None => w end, t)
    end.

(** ** The end *)

(** [on_closed], as far as updates are concerned. *)
Definition on_bot_closed (x : bot_io) (logging_out : bool) (w : bot) (t : tqueue S) : option (bot * tqueue S) :=
  w ← match webhook_set_query_ w with
      | Some q => fail_query_closing x q (set_webhook_set_query_ None w)
      | None => Some w
      end;
  w ← match active_webhook_set_query_ w with
      | Some q => fail_query_closing x q (set_active_webhook_set_query_ None w)
      | None => Some w
      end;
  let w := match webhook_is_set w, webhook_id_ w with
           | true, Some token => set_webhook_id_ None (send_bot (HangupWebhook token) w)
           | _, _ => w
           end in
  '(w, t) ← match long_poll_query_ w with Some _ => long_poll_wakeup x true w t | None => Some (w, t) end;
  (CHECK! negb (has_query (long_poll_query_ w)) ;;
   Some (if logging_out then send_bot EraseWebhook w else w, t))%td.

Definition finish_closing (clears : bool) (w : bot) (t : tqueue S) : option (bot * tqueue S) :=
  t ← (if clears then clear_tqueue w t else Some t); Some (w, t).

(** ** Events *)

Inductive bot_event :=
| GetUpdates (q : Query)
| SetWebhook (q : Query)
| GetWebhookInfo (q : Query)
| NewUpdate (update_type : UpdateType) (update : JsonValue) (timeout webhook_queue_id : Z)
| LongPollTimeout
| ConflictTimeout
| AllowedUpdateTypes (types : option Z)
| Verified (token : Z) (cached_ip_address : slice)
| Succeeded
| Failed (message : slice)
| Closed (message : slice)
| CertificateUnlinked (message : slice)
| CertificateCopied (is_copied : bool)
| TdClosed (logging_out : bool)
| FinishClosing (clears : bool).

Definition bot_step (x : bot_io) (ev : bot_event) (w : bot) (t : tqueue S) : option (bot * tqueue S) :=
  match ev with
  | GetUpdates q => process_get_updates_query x q w t
  | SetWebhook q => process_set_webhook_query x q w t
  | GetWebhookInfo q => process_get_webhook_info_query x q w t
  | NewUpdate update_type update timeout webhook_queue_id => add_update x update_type update timeout webhook_queue_id w t
  | LongPollTimeout => raw_event x w t
  | ConflictTimeout => w ← conflict_timeout w; Some (w, t)
  | AllowedUpdateTypes types => Some (on_allowed_update_types types w, t)
  | Verified token cached_ip_address => w ← webhook_verified token cached_ip_address w; Some (w, t)
  | Succeeded => Some (webhook_success x w, t)
  | Failed message => webhook_error x message w t
  | Closed message => webhook_closed x message w t
  | CertificateUnlinked message => on_webhook_closed x message w t
  | CertificateCopied is_copied => w ← on_webhook_certificate_copied x is_copied w; Some (w, t)
  | TdClosed logging_out => on_bot_closed x logging_out w t
  | FinishClosing clears => finish_closing clears w t
  end.
End Bot.
