(* ===== verification/BotQueries.v ===== *)
(** * The queries that wait for updates and webhooks

    No query that is given to getUpdates, setWebhook, deleteWebhook or
    getWebhookInfo is lost or answered twice, and the invariant under which no
    handler of BotUpdates aborts.  Then what getUpdates does. *)

From Stdlib Require Import QArith.
From stdpp Require Import gmap.
From S2P Require Import Prelude Slices Integers Utf8 Json IpAddress Query HttpUrl ClientFiles WebhookActor WebhookInfo TQueue TQueueLife BotUpdates.

Local Open Scope Z_scope.

(** ** Generic facts *)

Lemma lor_range n a b : 0 <= n → 0 <= a < 2 ^ n → 0 <= b < 2 ^ n → 0 <= Z.lor a b < 2 ^ n.
Proof.
  intros Hn Ha Hb. assert (0 <= Z.lor a b) as Hnn by (apply Z.lor_nonneg; lia). split; [done|].
  destruct (Z.eq_dec (Z.lor a b) 0) as [->|Hz]; [by apply Z.pow_pos_nonneg|]. apply Z.log2_lt_pow2; [lia|].
  rewrite Z.log2_lor by lia.
  assert (∀ x, 0 <= x < 2 ^ n → Z.log2 x < n ∨ x = 0) as Hl.
  { intros x Hx. destruct (Z.eq_dec x 0); [by right|]. left. apply Z.log2_lt_pow2; lia. }
  assert (0 < n) as Hn0. { destruct (Z.eq_dec n 0) as [->|]; [|lia]. cbn in *. assert (a = 0 ∧ b = 0) as [-> ->] by lia. done. }
  destruct (Hl a Ha) as [?| ->], (Hl b Hb) as [?| ->]; cbn in *; lia.
Qed.

Lemma name_bits_range name : 0 <= name_bits name < 2 ^ 28.
Proof.
  unfold name_bits. assert (∀ l acc, 0 <= acc < 2 ^ 28 → 0 <= foldl (fun acc t =>
    if bool_decide (get_update_type_name t = name) then Z.lor acc (update_bit t) else acc) acc l < 2 ^ 28) as Hf.
  { induction l as [|t l IH]; intros acc Hacc; cbn [foldl]; [done|]. apply IH. case_bool_decide; [|done].
    apply lor_range; [done|done|]. destruct t; vm_compute; split; congruence. }
  by apply Hf.
Qed.

Lemma names_bits_range l acc r : 0 <= acc < 2 ^ 28 → names_bits l acc = Some r → 0 <= r < 2 ^ 28.
Proof.
  revert acc. induction l as [|v l IH]; intros acc Hacc; cbn [names_bits]; [by intros [= <-]|].
  destruct v; try done. apply IH. apply lor_range; [done|done|apply name_bits_range].
Qed.

(** What allowed_updates can say: nothing, or a mask of 64 bits. *)
Lemma allowed_range text internal :
  ∃ r, get_allowed_update_types text internal = Some r ∧ 0 <= r < 2 ^ 64.
Proof.
  unfold get_allowed_update_types. case_bool_decide; [by exists 0|].
  destruct (json_decode_total text) as [[r E] _]. rewrite E. cbn [mbind option_bind]. eexists. split; [done|].
  destruct r as [v|]; [|done]. destruct v as [|number|?|?|array|?]; try done.
  - destruct internal; [|done]. unfold to_integer_unsigned_safe, get_to_integer_safe_error. cbv zeta.
    destruct (negb (bool_decide _)); [by destruct (negb _)|]. destruct (Z.ltb_spec 0 (to_integer_unsigned 64 number)); [|done].
    by apply digit_loop_range.
  - destruct (names_bits array 0) as [m|] eqn:Em; [|done]. apply names_bits_range in Em; [|done].
    destruct (Z.eqb_spec m 0); [vm_compute; split; congruence|].
    change (2 ^ 28) with 268435456 in Em. change (2 ^ 64) with 18446744073709551616. lia.
Qed.

(** ** Where the queries are *)

Definition fresh (q : Query) : Prop := q_state q = StQuery.
Definition utf8 (s : slice) : Prop := check_utf8 s = true.

Definition out_query (a : bot_out) : list Query := match a with Answered q _ => [q] | _ => [] end.
Definition answered_queries (w : bot) : list Query := outs w ≫= out_query.
Definition held (w : bot) : list Query :=
  option_list (webhook_set_query_ w) ++ option_list (active_webhook_set_query_ w) ++ option_list (long_poll_query_ w)
  ++ ((fun c => c.1.2) <$> conflicts_ w).
(** All the queries that the client had. *)
Definition had (w : bot) : list Query := answered_queries w ++ held w.

Definition event_query (ev : bot_event) : list Query :=
  match ev with GetUpdates q | SetWebhook q | GetWebhookInfo q => [q] | _ => [] end.

(** What the database of webhooks has for the bot. *)
Definition saved (l : list bot_out) : option slice :=
  foldl (fun acc a => match a with SaveWebhook value => Some value | EraseWebhook => None | _ => acc end) None l.

Lemma saved_snoc l a :
  saved (l ++ [a]) = match a with SaveWebhook value => Some value | EraseWebhook => None | _ => saved l end.
Proof. unfold saved. rewrite foldl_app. by destruct a. Qed.

Lemma answered_send a w : answered_queries (send_bot a w) = answered_queries w ++ out_query a.
Proof. unfold answered_queries. cbn. rewrite bind_app. cbn. by rewrite app_nil_r. Qed.

(** The fields that the invariant below is about, apart from the queries that are
    refused later. *)
Record kept (w w' : bot) : Prop := {
  kp_settings : settings_ w' = settings_ w;
  kp_id : webhook_id_ w' = webhook_id_ w;
  kp_type : webhook_query_type_ w' = webhook_query_type_ w;
  kp_set : webhook_set_query_ w' = webhook_set_query_ w;
  kp_active : active_webhook_set_query_ w' = active_webhook_set_query_ w;
  kp_generation : webhook_generation_ w' = webhook_generation_ w;
  kp_poll : long_poll_query_ w' = long_poll_query_ w;
  kp_slot : long_poll_slot_ w' = long_poll_slot_ w;
  kp_hard : long_poll_hard_timeout_ w' = long_poll_hard_timeout_ w;
  kp_saved : saved (outs w') = saved (outs w);
}.

#[export] Instance kept_preorder : PreOrder kept.
Proof. split; [by split|]. intros w1 w2 w3 [] []. split; congruence. Qed.

(** The queries and the counter that [kept] leaves out. *)
Record rest_ok (w : bot) : Prop := {
  ro_conflicts : Forall (fun c => fresh c.1.2 ∧ utf8 c.2) (conflicts_ w);
  ro_count : MIN_PENDING_UPDATES_WARNING <= last_pending_update_count_ w <= 2 * MAX_QUEUE_EVENTS;
}.

Lemma rest_same w w' : conflicts_ w' = conflicts_ w → last_pending_update_count_ w' = last_pending_update_count_ w → rest_ok w → rest_ok w'.
Proof. intros E1 E2 []. split; by rewrite ?E1, ?E2. Qed.

Lemma had_same w w' : kept w w' → outs w' = outs w → conflicts_ w' = conflicts_ w → had w' = had w.
Proof. intros [] E1 E2. unfold had, answered_queries, held. congruence. Qed.

(** ** Answers *)

Definition answerable (a : answer) : Prop :=
  match a with
  | AnswerOk result description => json_prints result = true ∧ utf8 description
  | AnswerError code description parameters => signed_range 32 code ∧ utf8 description ∧ parameters = []
  | AnswerRetry n => 0 <= n
  end.

Lemma answer_bot_ok q a w : fresh q → answerable a → answer_bot q a w = Some (send_bot (Answered q a) w).
Proof.
  intros Hf Ha. unfold answer_bot. destruct (give_answer_total q a Hf) as [q' ->]; [by destruct a|]. done.
Qed.

Lemma kept_answer q a w : kept w (send_bot (Answered q a) w).
Proof. split; try done. cbn. by rewrite saved_snoc. Qed.

Lemma had_answer q a w : had (send_bot (Answered q a) w) ≡ₚ q :: had w.
Proof. unfold had. rewrite answered_send. change (held (send_bot (Answered q a) w)) with (held w). cbn. solve_Permutation. Qed.

(** A query was answered or is refused later, and what else there is stays. *)
Record settles (q : Query) (w w' : bot) : Prop := {
  se_kept : kept w w';
  se_rest : rest_ok w → rest_ok w';
  se_had : had w' ≡ₚ q :: had w;
}.

Lemma settles_answer q a w : settles q w (send_bot (Answered q a) w).
Proof. split; [apply kept_answer|by apply rest_same|apply had_answer]. Qed.

Lemma conflict_settles now m q w :
  fresh q → utf8 m →
  ∃ w', fail_query_conflict now m q w = Some w' ∧ settles q w w'
    ∧ (outs w' = outs w ++ [Answered q (AnswerError 409 m [])]
       ∨ outs w' = outs w ∧ conflicts_ w' = conflicts_ w ++ [((now + 3)%Q, q, m)]).
Proof.
  intros Hf Hm. unfold fail_query_conflict. destruct (Qle_bool _ now).
  - rewrite answer_bot_ok by done. eexists. split; [done|]. split; [|by left].
    split; [|by apply rest_same|by rewrite <- (had_answer q (AnswerError 409 m []) w)].
    etrans; [apply (kept_answer q (AnswerError 409 m []))|by split].
  - eexists. split; [done|]. split; [|by right]. split; [by split| |].
    + intros [Hc ?]. split; [|done]. cbn. apply Forall_app. split; [done|by apply Forall_singleton].
    + unfold had, held. cbn. rewrite fmap_app. cbn. solve_Permutation.
Qed.

(** The error of a client that closes. *)
Definition closing_ok (err : ClosingError) : Prop := signed_range 32 (ce_code err) ∧ utf8 (ce_message err).

Lemma closing_settles x err q w :
  fresh q → closing_error x = Some err → closing_ok err →
  ∃ a, fail_query_closing x q w = Some (send_bot (Answered q a) w) ∧ a = closing_answer err.
Proof.
  intros Hf Ex [Hc Hm]. unfold fail_query_closing. rewrite Ex. cbn [mbind option_bind]. eexists. split; [|done].
  apply answer_bot_ok; [done|]. unfold closing_answer. destruct (Z.ltb_spec 0 (ce_retry_after err)); cbn; [lia|done].
Qed.

Lemma send_td_kept x a w : saved (outs w ++ [a]) = saved (outs w) → kept w (send_td x a w).
Proof. intros Ha. unfold send_td. destruct (closing_error x); [done|]. by split. Qed.

Lemma send_td_had x a w : out_query a = [] → had (send_td x a w) = had w.
Proof.
  intros Ha. unfold send_td. destruct (closing_error x); [done|]. unfold had. rewrite answered_send, Ha, app_nil_r. done.
Qed.

(** ** getUpdates *)

(** The updates of a queue from an identifier on that have not expired. *)
Definition pending (queue_id from now : Z) {S} (t : tqueue S) : list Event :=
  event_of <$> List.filter (fun ev => (from <=? event_id ev) && negb (is_dead now ev)) (events (queue_at queue_id t)).

Lemma pending_data queue_id from now n {S} (t : tqueue S) : Forall (fun u => e_data u ≠ []) (take n (pending queue_id from now t)).
Proof.
  apply Forall_take, Forall_fmap, Forall_forall. intros ev He%list_elem_of_In%filter_In. destruct He as [_ Hb].
  cbn. intros Ed. unfold is_dead, is_data_empty in Hb. by rewrite Ed, orb_true_r, andb_false_r in Hb.
Qed.

Lemma json_updates_prints left_len updates :
  Forall (fun u => e_data u ≠ []) updates → ∃ l, json_updates left_len updates = Some l ∧ forallb json_prints l = true.
Proof.
  intros Hu. revert left_len. induction Hu as [|u l Hd _ IH]; intros left_len; cbn [json_updates]; [by exists []|].
  destruct (_ <=? 0); [by exists []|]. unfold json_update. rewrite bool_decide_eq_false_2 by done. cbn [negb CHECK mbind option_bind].
  destruct (IH (left_len - (50 + slen (e_data u)))) as (rest & -> & Hr). eexists. by split.
Qed.

Lemma JsonUpdates_prints updates :
  Forall (fun u => e_data u ≠ []) updates → ∃ v, JsonUpdates updates = Some v ∧ json_prints v = true.
Proof.
  intros Hu. unfold JsonUpdates. destruct (json_updates_prints (Z.shiftl 1 22) updates Hu) as (l & -> & Hl). by eexists.
Qed.

Lemma grow_pending_count_ok total k count :
  total <= MAX_QUEUE_EVENTS → MIN_PENDING_UPDATES_WARNING <= count <= 2 * MAX_QUEUE_EVENTS → MAX_QUEUE_EVENTS < count * 2 ^ Z.of_nat k →
  ∃ count', grow_pending_count (Datatypes.S k) total count = Some count' ∧ MIN_PENDING_UPDATES_WARNING <= count' <= 2 * MAX_QUEUE_EVENTS.
Proof.
  unfold MAX_QUEUE_EVENTS, MIN_PENDING_UPDATES_WARNING. intros Ht. revert count.
  induction k as [|k IH]; intros count Hc Hk; cbn [grow_pending_count].
  - change (2 ^ Z.of_nat 0) with 1 in Hk. destruct (Z.leb_spec count total); [lia|eauto].
  - destruct (Z.leb_spec count total); [|eauto]. rewrite wrap_small by (change (2 ^ 64) with 18446744073709551616; lia).
    apply IH; [lia|]. rewrite Nat2Z.inj_succ, Z.pow_succ_r in Hk by lia. lia.
Qed.

Lemma next_pending_count_ok total count :
  total <= MAX_QUEUE_EVENTS → MIN_PENDING_UPDATES_WARNING <= count <= 2 * MAX_QUEUE_EVENTS →
  ∃ count', next_pending_count total count = Some count' ∧ MIN_PENDING_UPDATES_WARNING <= count' <= 2 * MAX_QUEUE_EVENTS.
Proof.
  intros Ht Hc. unfold next_pending_count. destruct (_ <=? _ / 2).
  - eexists. split; [done|]. destruct (Z.ltb_spec MIN_PENDING_UPDATES_WARNING count); unfold MIN_PENDING_UPDATES_WARNING, MAX_QUEUE_EVENTS in *; lia.
  - apply (grow_pending_count_ok total 63); [done|done|].
    unfold MIN_PENDING_UPDATES_WARNING, MAX_QUEUE_EVENTS in *. change (2 ^ Z.of_nat 63) with 9223372036854775808. lia.
Qed.

Section Updates.
Context {S : Type} `{StorageLaws S} (e : bot_env).

Abbreviation queue t := (queue_at (tqueue_id_ e) t).

(** The events that the queue has under the same identifiers after an operation. *)
Record taken (from now : Z) (t t' : tqueue S) : Prop := {
  tk_live : live t';
  tk_later r : r ∈ events (queue t) → is_dead now r = false → from <= event_id r → r ∈ events (queue t');
  tk_earlier r : r ∈ events (queue t') → event_id r < from → data r = [];
  tk_others queue_id : queue_id ≠ tqueue_id_ e → queues_ t' !! queue_id = queues_ t !! queue_id;
}.

Lemma get_taken from now n t :
  live t →
  ∃ r out t', get (tqueue_id_ e) from true now n t = Some (r, out, t')
    ∧ match r with
      | Err _ _ => t' = t ∧ ¬ get_range from (queue t)
      | Ok size => out = take n (pending (tqueue_id_ e) from now t) ∧ taken from now t t' ∧ slen out <= size <= MAX_QUEUE_EVENTS
      end.
Proof.
  intros Hl. destruct (get_returns_next_updates (tqueue_id_ e) from true now n t Hl) as (r & out & t' & E & Hl' & Hres).
  destruct (get_ok (tqueue_id_ e) from true now n t (lv_ok _ Hl)) as (r2 & out2 & t2 & E2 & Hs & _).
  rewrite E in E2. injection E2 as <- <- <-. exists r, out, t'. split; [done|]. destruct r as [size|]; [|by destruct Hres as (_ & ? & ?)].
  destruct Hres as (Hsize & Hlen & _ & -> & Hin & Hf). split; [done|]. split.
  - split; [done|done|by apply Hf|by apply (st_others _ _ _ Hs)].
  - split; [done|]. rewrite Hsize. pose proof (queue_at_ok (tqueue_id_ e) t' (lv_ok _ Hl')) as Hq.
    pose proof (q_room _ Hq) as [_ Hm]. pose proof (size_le_length (queue t')). lia.
Qed.

(** An offset that the queue refuses. *)
Definition refused (offset : Z) (t : tqueue S) : Prop := is_valid_id offset = false ∨ ¬ get_range offset (queue t).

Lemma fetch_updates_ok x offset limit t :
  live t →
  ∃ size updates t' from, fetch_updates e x offset limit t = Some (size, updates, t')
    ∧ updates = take (Z.to_nat limit) (pending (tqueue_id_ e) from (get_unix_time e (now_ x)) t)
    ∧ taken from (get_unix_time e (now_ x)) t t' ∧ slen updates <= size <= MAX_QUEUE_EVENTS
    ∧ (from = offset ∨ from = get_head (tqueue_id_ e) t ∧ refused offset t).
Proof.
  intros Hl. unfold fetch_updates. set (now := get_unix_time e (now_ x)). set (n := Z.to_nat limit).
  set (head := get_head (tqueue_id_ e) t).
  assert (∃ size updates t', ('(r, updates, t') ← get (tqueue_id_ e) head true now n t; total_size ← result_value r; Some (total_size, updates, t'))
      = Some (size, updates, t') ∧ updates = take n (pending (tqueue_id_ e) head now t) ∧ taken head now t t'
      ∧ slen updates <= size <= MAX_QUEUE_EVENTS) as (size & updates & t1 & Ehead & Hhead).
  { destruct (get_taken head now n t Hl) as (r & out & t' & -> & Hr). destruct r as [size|]; cbn; [by exists size, out, t'|].
    destruct Hr as [_ Hr]. destruct Hr. apply head_in_range, Hl. }
  cbv zeta. rewrite Ehead. unfold from_int32. destruct (is_valid_id offset) eqn:Ev; cbn [negb].
  2:{ exists size, updates, t1, head. destruct Hhead as (? & ? & ?). split_and!; try done; try lia. right. split; [done|by left]. }
  destruct (get_taken offset now n t Hl) as (r & out & t' & -> & Hr). destruct r as [size'|]; cbn [mbind option_bind].
  - destruct Hr as (? & ? & ?). exists size', out, t', offset. split_and!; try done; try lia; auto.
  - exists size, updates, t1, head. destruct Hhead as (? & ? & ?). split_and!; try done; try lia. right. split; [done|right; apply Hr].
Qed.

(** The query that waits is refused. *)
Record aborted (w w' : bot) : Prop := {
  ab_kept : kept (set_long_poll_query_ None w) w';
  ab_rest : rest_ok w → rest_ok w';
  ab_had : had w' ≡ₚ had w;
}.

Lemma abort_ok now b w :
  (∀ q, long_poll_query_ w = Some q → fresh q) → ∃ w', abort_long_poll now b w = Some w' ∧ aborted w w'.
Proof.
  intros Hf. unfold abort_long_poll. destruct (long_poll_query_ w) as [q|] eqn:Eq.
  - destruct (conflict_settles now (if b then lit "Conflict: terminated by setWebhook request"
         else lit "Conflict: terminated by other getUpdates request; make sure that only one bot instance is running")
      q (set_long_poll_query_ None w) (Hf q eq_refl)) as (w' & -> & [Hk Hr Hh] & _); [by destruct b|].
    exists w'. split; [done|]. split; [done|intros Hw; apply Hr; by apply (rest_same w)|].
    rewrite Hh. unfold had, held. cbn. rewrite Eq. cbn.
    change (answered_queries (set_long_poll_query_ None w)) with (answered_queries w). solve_Permutation.
  - exists w. split; [done|]. split; [|done|done]. by split.
Qed.

(** A query waits for updates; the fields of the webhook stay. *)
Record waits (x : bot_io) (offset limit timeout : Z) (q : Query) (w w' : bot) : Prop := {
  wt_query : long_poll_query_ w' = Some q;
  wt_slot : long_poll_slot_ w' = Some (now_ x + inject_Z timeout)%Q;
  wt_hard : long_poll_hard_timeout_ w' = (now_ x + inject_Z timeout)%Q;
  wt_what : long_poll_offset_ w' = offset ∧ long_poll_limit_ w' = limit ∧ long_poll_was_wakeup_ w' = false;
  wt_kept : kept (set_long_poll_slot_ (long_poll_slot_ w') (set_long_poll_hard_timeout_ (long_poll_hard_timeout_ w')
              (set_long_poll_query_ (Some q) w))) w';
}.

(** A query is answered with these updates, after messages that answer none. *)
Definition answered_with (q : Query) (updates : list Event) (w w' : bot) : Prop :=
  ∃ pre v, outs w' = outs w ++ pre ++ [Answered q (AnswerOk v [])] ∧ JsonUpdates updates = Some v ∧ pre ≫= out_query = [].

(** The queue without the updates that a negative offset skips, and the first
    identifier that is asked for. *)
Definition skipped (offset : Z) (t : tqueue S) : tqueue S :=
  if offset <? 0 then (clear (tqueue_id_ e) (Z.to_nat (- offset)) t).2 else t.
Definition asked (offset : Z) (t : tqueue S) : Z := if offset <=? 0 then get_head (tqueue_id_ e) t else offset.

Record got (x : bot_io) (offset limit timeout : Z) (q : Query) (w : bot) (t : tqueue S) (w' : bot) (t' : tqueue S) (from : Z)
    (updates : list Event) : Prop := {
  gt_from : from = asked offset (skipped offset t)
            ∨ from = get_head (tqueue_id_ e) (skipped offset t) ∧ refused (asked offset (skipped offset t)) (skipped offset t);
  gt_updates : updates = take (Z.to_nat limit) (pending (tqueue_id_ e) from (get_unix_time e (now_ x)) (skipped offset t));
  gt_taken : taken from (get_unix_time e (now_ x)) (skipped offset t) t';
  gt_rest : rest_ok w';
  gt_had : had w' ≡ₚ q :: had w;
  gt_outcome : if negb (timeout =? 0) && bool_decide (updates = [])
               then waits x (asked offset (skipped offset t)) limit timeout q w w'
               else kept w w' ∧ answered_with q updates w w';
}.

Lemma skipped_live offset t : live t → live (skipped offset t).
Proof.
  intros Hl. unfold skipped. destruct (offset <? 0); [|done].
  pose proof (clear_ok (tqueue_id_ e) (Z.to_nat (- offset)) t (lv_ok _ Hl) (lv_tails _ Hl)) as Hc. cbv zeta in Hc.
  destruct (clear _ _ t) as [deleted t']. destruct Hc as [Hs _]. by eapply step_live.
Qed.

(** There is no update before the queue has its first identifier. *)
Lemma no_updates t : live t → get_head (tqueue_id_ e) t <= 0 → events (queue t) = [].
Proof.
  intros Hl Hh. pose proof (queue_at_ok (tqueue_id_ e) t (lv_ok _ Hl)) as Hq.
  assert (get_head (tqueue_id_ e) t = get_queue_head (queue t)) as E by (unfold get_head, queue_at; by destruct (queues_ t !! tqueue_id_ e)).
  rewrite E in Hh. unfold get_queue_head in Hh. pose proof (evs_each _ _ (q_events _ Hq)) as Hev.
  destruct (events (queue t)) as [|ev evs]; [done|]. apply Forall_cons in Hev as [(Hid & _) _]. lia.
Qed.

Lemma fetch_any x offset limit t :
  live t → (offset <= 0 → offset = get_head (tqueue_id_ e) t) →
  ∃ size updates t' from, (if offset <=? 0 then Some (0, [], t) else fetch_updates e x offset limit t) = Some (size, updates, t')
    ∧ updates = take (Z.to_nat limit) (pending (tqueue_id_ e) from (get_unix_time e (now_ x)) t)
    ∧ taken from (get_unix_time e (now_ x)) t t' ∧ slen updates <= size <= MAX_QUEUE_EVENTS
    ∧ (from = offset ∨ from = get_head (tqueue_id_ e) t ∧ refused offset t).
Proof.
  intros Hl Hoff. destruct (Z.leb_spec offset 0) as [Hle|Hgt]; [|by apply fetch_updates_ok].
  rewrite (Hoff Hle) in Hle |- *. pose proof (no_updates t Hl Hle) as E. exists 0, [], t, (get_head (tqueue_id_ e) t).
  split; [done|]. split; [unfold pending; rewrite E; symmetry; apply take_nil|]. split; [|split; [done|by left]].
  split; [done|done| |done]. rewrite E. by intros r ?%not_elem_of_nil.
Qed.

Lemma start_waits x offset limit timeout q w w0 :
  aborted w w0 → waits x offset limit timeout q w (start_long_poll x offset limit timeout q w0).
Proof. intros [[] _ _]. split; (done || by split). Qed.

Lemma start_had x offset limit timeout q w w0 :
  aborted w w0 → had (start_long_poll x offset limit timeout q w0) ≡ₚ q :: had w.
Proof.
  intros [Hk _ <-]. unfold had, held.
  change (answered_queries (start_long_poll x offset limit timeout q w0)) with (answered_queries w0). cbn.
  rewrite (kp_poll _ _ Hk). cbn. solve_Permutation.
Qed.

(** What is sent before the answer. *)
Lemma finish_kept x w size updates finish warning count :
  let w1 := set_last_pending_update_count_ count w in
  let w2 := set_next_bot_updates_warning_time_ warning (set_previous_get_updates_finish_time_ finish w1) in
  let w3 := if (size =? slen (updates : list Event)) && was_bot_updates_warning_ w2
            then set_was_bot_updates_warning_ false (send_td x (SetBotUpdatesStatus 0 []) w2) else w2 in
  kept w w3 ∧ had w3 = had w ∧ conflicts_ w3 = conflicts_ w ∧ last_pending_update_count_ w3 = count
  ∧ ∃ pre, outs w3 = outs w ++ pre ∧ pre ≫= out_query = [].
Proof.
  cbv zeta. set (w2 := set_next_bot_updates_warning_time_ _ _).
  assert (kept w w2 ∧ had w2 = had w ∧ conflicts_ w2 = conflicts_ w ∧ last_pending_update_count_ w2 = count ∧ outs w2 = outs w) as (Hk & Hh & Hc & Hn & Ho) by (by split_and!).
  clearbody w2. destruct (_ && _); [|by split_and!; try done; exists []; rewrite app_nil_r].
  set (w3 := send_td x (SetBotUpdatesStatus 0 []) w2).
  assert (kept w2 w3) as Hk3 by (apply send_td_kept; by rewrite saved_snoc).
  assert (had w3 = had w2) as Hh3 by (by apply send_td_had).
  assert (conflicts_ w3 = conflicts_ w2 ∧ last_pending_update_count_ w3 = last_pending_update_count_ w2) as [Hc3 Hn3]
    by (unfold w3, send_td; by destruct (closing_error x)).
  assert (∃ pre, outs w3 = outs w2 ++ pre ∧ pre ≫= out_query = []) as (pre & Ho3 & Hpre).
  { unfold w3, send_td. destruct (closing_error x); [by exists []; rewrite app_nil_r|by eexists]. }
  clearbody w3. split; [|split_and!].
  - etrans; [exact Hk|]. etrans; [exact Hk3|]. by split.
  - transitivity (had w3); [done|congruence].
  - cbn. congruence.
  - cbn. congruence.
  - exists pre. split; [|done]. cbn. congruence.
Qed.

Lemma do_get_updates_ok x offset limit timeout q w t :
  live t → fresh q → rest_ok w → (∀ q', long_poll_query_ w = Some q' → fresh q') →
  ∃ w' t' from updates, do_get_updates e x offset limit timeout q w t = Some (w', t') ∧ got x offset limit timeout q w t w' t' from updates.
Proof.
  intros Hl Hf [Hconf Hcount] Hpoll. unfold do_get_updates. fold (skipped offset t). pose proof (skipped_live offset t Hl) as Hl1.
  fold (asked offset (skipped offset t)).
  destruct (fetch_any x (asked offset (skipped offset t)) limit (skipped offset t) Hl1) as (size & updates & t' & from & -> & Hu & Ht & Hsize & Hfrom).
  { unfold asked. intros Hle. destruct (Z.leb_spec offset 0); [done|lia]. }
  cbn [mbind option_bind]. rewrite (proj2 (Z.leb_le _ _)) by lia. cbn [CHECK].
  destruct (next_pending_count_ok (size - slen updates) (last_pending_update_count_ w)) as (count & -> & Hc);
    [pose proof (slen_nonneg updates); lia|done|]. cbn [mbind option_bind].
  set (w1 := set_last_pending_update_count_ count w).
  assert (rest_ok w1 ∧ had w1 = had w ∧ long_poll_query_ w1 = long_poll_query_ w ∧ outs w1 = outs w) as (Hr1 & Hh1 & Hp1 & Ho1) by done.
  destruct (negb (timeout =? 0) && bool_decide (updates = [])) eqn:Ew.
  - destruct (abort_ok (now_ x) false w1) as (w2 & -> & Ha); [by rewrite Hp1|]. cbn [mbind option_bind].
    eexists _, _, from, updates. split; [done|]. split; [done|done|done| |by rewrite (start_had _ _ _ _ _ _ _ Ha), Hh1|].
    + apply (rest_same w2); [done|done|]. by apply (ab_rest _ _ Ha).
    + rewrite Ew. pose proof (start_waits x (asked offset (skipped offset t)) limit timeout q w1 w2 Ha) as [? ? ? ? Hk].
      split; try done. destruct Hk. by split.
  - destruct (JsonUpdates_prints updates) as (v & Ev & Hv); [rewrite Hu; apply pending_data|].
    pose proof (finish_kept x w (size - slen updates) updates (now_ x) (now_ x + inject_Z BOT_UPDATES_WARNING_DELAY)%Q count) as Hk.
    cbv zeta in Hk. set (w3 := if (_ =? _) && _ then _ else _) in *. destruct Hk as (Hk & Hh & Hcf & Hct & pre & Ho & Hpre). clearbody w3.
    rewrite Ev. cbn [mbind option_bind]. rewrite answer_bot_ok by done. cbn [mbind option_bind].
    eexists _, _, from, updates. split; [done|]. split; [done|done|done| | |].
    + apply (rest_same w3); [done|done|]. split; by rewrite ?Hcf, ?Hct.
    + by rewrite had_answer, Hh.
    + rewrite Ew. split; [etrans; [exact Hk|apply kept_answer]|]. exists pre, v. split; [|done]. cbn. by rewrite Ho, (assoc_L (++)).
Qed.
End Updates.
