(* ===== verification/BotWebhook.v ===== *)
(** * The webhook of a bot

    The invariant of the fields of BotUpdates that hold a query or a setting of
    the webhook, and what each handler does to them: whether it ends without a
    failed check, whom it answers, and what it saves. *)

From Stdlib Require Import QArith.
From stdpp Require Import gmap.
From S2P Require Import Prelude Slices Integers Utf8 Json IpAddress Query QueryErrors HttpUrl ClientFiles WebhookActor WebhookInfo TQueue TQueueLife BotUpdates BotQueries.

Local Open Scope Z_scope.

(** The client of a bot is open, closes, or has lost TDLib. *)
Inductive life := Open | Closing | Gone.

(** The error of a closing client is there exactly when it closes. *)
Definition lives (x : bot_io) (l : life) : Prop :=
  match closing_error x with None => l = Open | Some err => l ≠ Open ∧ closing_ok err end.

Lemma q_min_l a b : (q_min a b <= a)%Q.
Proof. unfold q_min. destruct (Qle_bool a b) eqn:E; [apply Qle_refl|]. apply Qlt_le_weak, Qnot_le_lt. intros Hle%Qle_bool_iff. congruence. Qed.
Lemma q_min_r a b : (q_min a b <= b)%Q.
Proof. unfold q_min. destruct (Qle_bool a b) eqn:E; [by apply Qle_bool_iff|apply Qle_refl]. Qed.

Section Shape.
Context (e : bot_env).

(** A query that may set a webhook. *)
Definition asks (q : Query) : Prop := fresh q ∧ ∀ key size, file_size q key = Some size → 0 <= size < 2 ^ 63.
Definition startable (q : Query) : Prop := new_url_of q ≠ [] ∧ set_webhook_error e q = None.

(** The settings of a webhook, but for its address. *)
Record settings_ok (s : webhook) : Prop := {
  so_url : is_ok (parse_url (inet_pton6 e) (webhook_url_ s) Https) = true;
  so_connections : 1 <= webhook_max_connections_ s <= if local_mode_ e then 100000 else 100;
  so_secret : "/"%char ∉ webhook_secret_token_ s;
}.

(** What may be in the database: the settings of the client's webhook, with the
    allowed types of updates of the time it was saved, or such types alone. *)
Definition saved_as (s : webhook) (value : slice) : Prop :=
  webhook_url_ s ≠ [] ∧ webhook_ok (inet_pton6 e) (local_mode_ e) s
  ∧ ∃ allowed, 0 < allowed < 2 ^ 64 ∧ value = save_webhook (set_allowed_update_types_ allowed s).
Definition saved_nothing (value : slice) : Prop := ∃ allowed, 0 < allowed < 2 ^ 64 ∧ value = save_webhook (only_types allowed).

Record shape_ok (l : life) (w : bot) : Prop := {
  sh_set q : webhook_set_query_ w = Some q → asks q ∧ webhook_is_set w = true ∧ active_webhook_set_query_ w = None;
  sh_active q : active_webhook_set_query_ w = Some q → asks q ∧ startable q ∧ webhook_is_set w = false;
  sh_poll q : long_poll_query_ w = Some q →
    fresh q ∧ webhook_is_set w = false ∧ active_webhook_set_query_ w = None
    ∧ ∃ at_, long_poll_slot_ w = Some at_ ∧ (at_ <= long_poll_hard_timeout_ w)%Q;
  sh_id : webhook_is_set w = false → webhook_id_ w = None;
  sh_gone : l = Gone → webhook_id_ w = None;
  sh_token : l ≠ Gone → webhook_is_set w = true → webhook_set_query_ w = None ∨ webhook_query_type_ w = Verify →
    webhook_id_ w = Some (webhook_generation_ w);
  sh_cancel : webhook_set_query_ w ≠ None → webhook_query_type_ w = Cancel → webhook_id_ w = None;
  sh_cert : l = Open → webhook_is_set w = false → has_webhook_certificate_ (settings_ w) = false;
  sh_settings : webhook_is_set w = true → settings_ok (settings_ w);
  sh_verified : l ≠ Gone → webhook_is_set w = true → webhook_set_query_ w = None → "/"%char ∉ webhook_ip_address_ (settings_ w);
  sh_allowed : 0 < allowed_update_types_ (settings_ w) < 2 ^ 64;
  sh_none : webhook_is_set w = false → set_has_webhook_certificate_ false (settings_ w) = no_webhook (settings_ w);
  sh_saved value : saved (outs w) = Some value → saved_as (settings_ w) value ∨ saved_nothing value;
  sh_kept : l ≠ Gone → webhook_set_query_ w = None → webhook_is_set w = true →
    ∃ value, saved (outs w) = Some value ∧ saved_as (settings_ w) value;
}.

Lemma shape_kept l w w' : kept w w' → shape_ok l w → shape_ok l w'.
Proof.
  intros [E1 E2 E3 E4 E5 E6 E7 E8 E9 E10] [].
  split; unfold webhook_is_set in *; rewrite ?E1, ?E2, ?E3, ?E4, ?E5, ?E6, ?E7, ?E8, ?E9, ?E10; try done.
Qed.

Lemma shape_later l w : shape_ok Open w → l ≠ Gone → shape_ok l w.
Proof. intros [] Hl. split; try done; naive_solver. Qed.

Lemma saved_set s value : saved_as s value → bool_decide (webhook_url_ s = []) = false.
Proof. intros [Hu _]. by apply bool_decide_eq_false. Qed.

(** The types of updates may change after it was saved. *)
Lemma saved_as_types s value allowed : 0 < allowed < 2 ^ 64 → saved_as s value → saved_as (set_allowed_update_types_ allowed s) value.
Proof.
  intros Ha (Hu & [] & a & Hr & ->). split; [done|]. split; [by split|]. exists a. split; [done|]. by destruct s.
Qed.

(** Messages that answer nobody and save nothing. *)
Definition plain (a : bot_out) : bool := match a with Answered _ _ | SaveWebhook _ | EraseWebhook => false | _ => true end.

Lemma plain_queries l : forallb plain l = true → l ≫= out_query = [].
Proof. induction l as [|a l IH]; [done|]. cbn. intros [Ha Hl]%andb_true_iff. by destruct a; try done; apply IH. Qed.

Lemma plain_saved l l' : forallb plain l' = true → saved (l ++ l') = saved l.
Proof.
  induction l' as [|a l' IH] using rev_ind; [by rewrite app_nil_r|]. rewrite forallb_app. cbn. intros [Hl [Ha _]%andb_true_iff]%andb_true_iff.
  rewrite (assoc_L (++)), saved_snoc. destruct a; try done; by apply IH.
Qed.

(** Shape is kept by messages that are plain. *)
Lemma shape_plain l w pre : shape_ok l w → forallb plain pre = true → shape_ok l (set_outs (outs w ++ pre) w).
Proof. intros Hs Hp. apply (shape_kept l w); [|done]. split; try done. by apply plain_saved. Qed.

Lemma kept_is_set w w' : kept w w' → webhook_is_set w' = webhook_is_set w.
Proof. intros Hk. unfold webhook_is_set. by rewrite (kp_settings _ _ Hk). Qed.

Lemma had_plain w pre : forallb plain pre = true → had (set_outs (outs w ++ pre) w) = had w.
Proof. intros Hp. unfold had, answered_queries. cbn. by rewrite bind_app, (plain_queries pre), app_nil_r. Qed.

(** *** The allowed types of updates *)

Lemma set_allowed_same s : set_allowed_update_types_ (allowed_update_types_ s) s = s.
Proof. by destruct s. Qed.

Lemma set_settings_same w : set_settings_ (settings_ w) w = w.
Proof. by destruct w. Qed.

Lemma id_same w : webhook_id_ w = None → set_webhook_id_ None w = w.
Proof. destruct w. cbn. by intros ->. Qed.

Lemma outs_same w : set_outs (outs w) w = w.
Proof. by destruct w. Qed.

Definition with_allowed (allowed : Z) (pre : list bot_out) (w : bot) : bot :=
  set_outs (outs w ++ pre) (set_settings_ (set_allowed_update_types_ allowed (settings_ w)) w).

Lemma update_allowed_ok x q w :
  0 < allowed_update_types_ (settings_ w) < 2 ^ 64 →
  ∃ b allowed pre, update_allowed_update_types x q w = Some (b, with_allowed allowed pre w)
    ∧ 0 < allowed < 2 ^ 64 ∧ forallb plain pre = true.
Proof.
  intros Hw. unfold update_allowed_update_types. destruct (allowed_range (arg q (lit "allowed_updates")) (q_is_internal q)) as (r & -> & Hr).
  cbn [mbind option_bind]. destruct (negb (r =? 0) && negb (r =? allowed_update_types_ (settings_ w))) eqn:Eb.
  - assert (0 < r < 2 ^ 64) as Hr' by lia. unfold send_td. destruct (closing_error x).
    + exists true, r, []. split; [|done]. unfold with_allowed. rewrite app_nil_r. by destruct w.
    + exists true, r. eexists. split; [unfold with_allowed; done|]. done.
  - exists false, (allowed_update_types_ (settings_ w)), []. split; [|done].
    unfold with_allowed. rewrite set_allowed_same, set_settings_same, app_nil_r, outs_same. done.
Qed.

Lemma shape_allowed l w allowed pre :
  shape_ok l w → 0 < allowed < 2 ^ 64 → forallb plain pre = true → shape_ok l (with_allowed allowed pre w).
Proof.
  intros Hs Ha Hp. apply (shape_plain l (set_settings_ (set_allowed_update_types_ allowed (settings_ w)) w)); [|done].
  destruct Hs. split; try done.
  - intros Hset. destruct (sh_settings0 Hset). by split.
  - intros Hset. specialize (sh_none0 Hset). cbn. destruct (settings_ w). by injection sh_none0 as -> -> -> -> ->.
  - intros value Hv. destruct (sh_saved0 value Hv); [left; by apply saved_as_types|by right].
  - intros Hl Hn Hset. destruct (sh_kept0 Hl Hn Hset) as (value & ? & ?). exists value. split; [done|by apply saved_as_types].
Qed.

Lemma had_allowed w allowed pre : forallb plain pre = true → had (with_allowed allowed pre w) = had w.
Proof. intros Hp. by apply (had_plain (set_settings_ (set_allowed_update_types_ allowed (settings_ w)) w)). Qed.

(** *** What a handler leaves behind *)

Record ends (l : life) (qs : list Query) (w w' : bot) : Prop := {
  en_shape : shape_ok l w';
  en_rest : rest_ok w';
  en_had : had w' ≡ₚ qs ++ had w;
}.

Lemma ends_kept l w w' : shape_ok l w → rest_ok w → kept w w' → (rest_ok w → rest_ok w') → had w' = had w → ends l [] w w'.
Proof. intros Hs Hr Hk Hrk Hh. split; [by apply (shape_kept l w)|auto|by rewrite Hh]. Qed.

Lemma ends_settles l q w w' : shape_ok l w → rest_ok w → settles q w w' → ends l [q] w w'.
Proof. intros Hs Hr [Hk Hrk Hh]. split; [by apply (shape_kept l w)|auto|done]. Qed.

Lemma ends_answer l q a w : shape_ok l w → rest_ok w → ends l [q] w (send_bot (Answered q a) w).
Proof. intros Hs Hr. apply ends_settles; [done..|apply settles_answer]. Qed.

Lemma ends_trans l l' qs qs' qs'' w w1 w2 :
  ends l qs w w1 → ends l' qs' w1 w2 → qs'' ≡ₚ qs' ++ qs → ends l' qs'' w w2.
Proof. intros [_ _ H1] [? ? H2] E. split; [done..|]. rewrite H2, H1, E. solve_Permutation. Qed.

Lemma ends_from l qs w w1 w' : had w1 = had w → ends l qs w1 w' → ends l qs w w'.
Proof. intros E []. split; [done..|by rewrite <- E]. Qed.

(** Where a query goes that leaves its field. *)
Lemma had_unpolled w q : long_poll_query_ w = Some q → had w ≡ₚ q :: had (set_long_poll_query_ None w).
Proof. intros Eq. unfold had, held, answered_queries. cbn. rewrite Eq. cbn. solve_Permutation. Qed.
Lemma had_unset w q : webhook_set_query_ w = Some q → had w ≡ₚ q :: had (set_webhook_set_query_ None w).
Proof. intros Eq. unfold had, held, answered_queries. cbn. rewrite Eq. cbn. solve_Permutation. Qed.
Lemma had_inactive w q : active_webhook_set_query_ w = Some q → had w ≡ₚ q :: had (set_active_webhook_set_query_ None w).
Proof. intros Eq. unfold had, held, answered_queries. cbn. rewrite Eq. cbn. solve_Permutation. Qed.

Lemma shape_unpolled l w : shape_ok l w → shape_ok l (set_long_poll_query_ None w).
Proof. intros []. by split. Qed.
Lemma shape_unset l w : shape_ok l w → webhook_is_set w = false ∨ l = Gone → shape_ok l (set_webhook_set_query_ None w).
Proof. intros [] Hw. split; try done; unfold webhook_is_set in *; cbn; intros ? ?; destruct Hw; congruence. Qed.
Lemma shape_inactive l w : shape_ok l w → shape_ok l (set_active_webhook_set_query_ None w).
Proof.
  intros []. split; try done; unfold webhook_is_set in *; cbn; intros q Hq.
  - by destruct (sh_set0 q Hq) as (? & ? & _).
  - by destruct (sh_poll0 q Hq) as (? & ? & _ & ?).
Qed.

(** A query waits, and its timer is not later than it asked for. *)
Lemma shape_polled l w w' q at_ :
  shape_ok l w → fresh q → webhook_is_set w = false → active_webhook_set_query_ w = None →
  (at_ <= long_poll_hard_timeout_ w')%Q →
  kept (set_long_poll_slot_ (Some at_) (set_long_poll_hard_timeout_ (long_poll_hard_timeout_ w') (set_long_poll_query_ (Some q) w))) w' →
  shape_ok l w'.
Proof.
  intros Hs Hf Hset Ha Hle Hk. eapply shape_kept; [exact Hk|]. destruct Hs. split; try done; cbn.
  intros q' [= <-]. split_and!; try done. by exists at_.
Qed.

Lemma set_excludes l w q : shape_ok l w → active_webhook_set_query_ w = Some q → webhook_set_query_ w = None.
Proof. intros Hs Ha. destruct (webhook_set_query_ w) as [q'|] eqn:E; [|done]. destruct (sh_set l w Hs q' E) as (_ & _ & ?). congruence. Qed.
Lemma no_poll l w : shape_ok l w → webhook_is_set w = true ∨ active_webhook_set_query_ w ≠ None → long_poll_query_ w = None.
Proof.
  intros Hs Hw. destruct (long_poll_query_ w) as [q|] eqn:E; [|done]. destruct (sh_poll l w Hs q E) as (_ & Eset & Ea & _).
  destruct Hw; congruence.
Qed.

End Shape.

(** ** What a client is at *)

(** What a setWebhook of a URL comes to. *)
Inductive phase := NoWebhook | Copying (q : Query) | Verifying (q : Query) | Running | Replacing (q : Query).

Definition phase_of (w : bot) : phase :=
  match webhook_set_query_ w, active_webhook_set_query_ w with
  | Some q, _ => match webhook_query_type_ w with Verify => Verifying q | Cancel => Replacing q end
  | None, Some q => Copying q
  | None, None => if webhook_is_set w then Running else NoWebhook
  end.

Lemma phase_kept w w' : kept w w' → phase_of w' = phase_of w.
Proof.
  intros Hk. pose proof (kept_is_set _ _ Hk) as E. destruct Hk as [? ? Et Es Ea _ _ _ _ _]. unfold phase_of. by rewrite Et, Es, Ea, E.
Qed.

Lemma phase_answer q a w : phase_of (send_bot (Answered q a) w) = phase_of w.
Proof. done. Qed.

(** ** What each handler does *)

Section Handlers.
Context {S : Type} `{StorageLaws S} (e : bot_env).

Abbreviation ends l qs w w' := (ends e l qs w w').
Abbreviation shape_ok l w := (shape_ok e l w).

Lemma size_bound queue_id (t : tqueue S) : live t → 0 <= get_size queue_id t <= MAX_QUEUE_EVENTS.
Proof.
  intros Hl. pose proof (queue_at_ok queue_id t (lv_ok _ Hl)) as Hq. pose proof (q_room _ Hq) as [_ Hm].
  pose proof (size_le_length (queue_at queue_id t)). rewrite get_size_filled in *.
  assert (get_size queue_id t = slen (filled (events (queue_at queue_id t)))) as ->; [|pose proof (slen_nonneg (filled (events (queue_at queue_id t)))); lia].
  rewrite <- get_size_filled. unfold get_size, queue_at. by destruct (queues_ t !! queue_id).
Qed.

(** The warning of TDLib changes nothing else. *)
Lemma warn_ok x m w (t : tqueue S) :
  live t → ∃ w', warn_pending e x m w t = Some w' ∧ kept w w' ∧ had w' = had w ∧ (rest_ok w → rest_ok w').
Proof.
  intros Hl. unfold warn_pending. pose proof (size_bound (tqueue_id_ e) t Hl) as Hb.
  destruct (_ && _); [|by exists w]. rewrite (proj2 (Z.leb_le _ INT32_MAX)) by (unfold MAX_QUEUE_EVENTS, INT32_MAX in *; lia). cbn [CHECK].
  eexists. split; [done|]. set (w1 := send_td x _ w).
  assert (kept w w1) as Hk by (apply send_td_kept; by rewrite saved_snoc).
  assert (had w1 = had w) as Hh by (by apply send_td_had).
  assert (conflicts_ w1 = conflicts_ w ∧ last_pending_update_count_ w1 = last_pending_update_count_ w) as [? ?]
    by (unfold w1, send_td; by destruct (closing_error x)).
  clearbody w1. split_and!; [etrans; [exact Hk|by split]|exact Hh|by apply rest_same].
Qed.

(** The timer of the long poll ends it: the query is answered. *)
Lemma wakeup_now_ok l x q w (t : tqueue S) :
  live t → shape_ok l (set_long_poll_query_ None w) → rest_ok w → long_poll_query_ w = Some q → fresh q →
  ∃ w' t' from updates, long_poll_wakeup e x true w t = Some (w', t')
    ∧ got e x (long_poll_offset_ w) (long_poll_limit_ w) 0 q (set_long_poll_query_ None w) t w' t' from updates ∧ ends l [] w w'.
Proof.
  intros Hl Hs Hr Eq Hf. unfold long_poll_wakeup. rewrite Eq.
  destruct (do_get_updates_ok e x (long_poll_offset_ w) (long_poll_limit_ w) 0 q (set_long_poll_query_ None w) t Hl Hf)
    as (w' & t' & from & updates & E & Hg); [by apply (rest_same w)|done|].
  exists w', t', from, updates. split; [done|]. split; [done|]. destruct Hg as [_ _ _ Hr' Hh Ho]. cbn in Ho. split; [|done|].
  - by eapply shape_kept; [apply Ho|].
  - by rewrite Hh, (had_unpolled w q Eq).
Qed.

Lemma got_phase x offset limit timeout q w (t : tqueue S) w' t' from updates :
  got e x offset limit timeout q w t w' t' from updates → phase_of w' = phase_of w.
Proof.
  intros Hg. pose proof (gt_outcome _ _ _ _ _ _ _ _ _ _ _ _ Hg) as Ho. destruct (_ && _).
  - destruct Ho as [_ _ _ _ Hk]. exact (phase_kept _ _ Hk).
  - destruct Ho as [Hk _]. exact (phase_kept _ _ Hk).
Qed.

Lemma shape_no_slot l w : shape_ok l w → shape_ok l (set_long_poll_query_ None (set_long_poll_slot_ None w)).
Proof. intros []. by split. Qed.

Lemma poll_timer_ok l x w (t : tqueue S) :
  live t → shape_ok l w → rest_ok w →
  ∃ w' t', raw_event e x w t = Some (w', t') ∧ live t' ∧ ends l [] w w' ∧ phase_of w' = phase_of w
    ∧ match long_poll_query_ w with
      | None => True
      | Some q => ∃ from updates, got e x (long_poll_offset_ w) (long_poll_limit_ w) 0 q
                                    (set_long_poll_query_ None (set_long_poll_slot_ None w)) t w' t' from updates
      end.
Proof.
  intros Hl Hs Hr. unfold raw_event. set (w1 := set_long_poll_slot_ None w).
  assert (rest_ok w1) as Hr1 by (by apply (rest_same w)). assert (long_poll_query_ w1 = long_poll_query_ w) as Eq1 by done.
  destruct (long_poll_query_ w) as [q|] eqn:Eq.
  - destruct (sh_poll _ _ _ Hs q Eq) as (Hf & _).
    destruct (wakeup_now_ok l x q w1 t Hl (shape_no_slot _ _ Hs) Hr1 Eq1 Hf) as (w' & t' & from & updates & E & Hg & He).
    exists w', t'. split; [done|]. split; [apply (gt_taken _ _ _ _ _ _ _ _ _ _ _ _ Hg)|]. split; [by apply (ends_from e l [] w w1)|].
    split; [exact (got_phase _ _ _ _ _ _ _ _ _ _ _ Hg)|]. by exists from, updates.
  - unfold long_poll_wakeup. rewrite Eq1. destruct (warn_ok x (lit "The getUpdates method is not called for too long") w1 t Hl) as (w' & -> & Hk & Hh & Hr').
    exists w', t. split; [done|]. split; [done|]. split; [|split; [exact (phase_kept _ _ Hk)|done]].
    split; [|auto|by rewrite Hh]. apply (shape_kept e l (set_long_poll_query_ None w1)); [|by apply shape_no_slot].
    destruct Hk as [? ? ? ? ? ? K7 ? ? ?]. split; try done. exact (eq_trans K7 Eq1).
Qed.

(** A new update wakes a query that waits, soon. *)
Lemma wakeup_later_ok l x w (t : tqueue S) :
  live t → shape_ok l w → rest_ok w →
  ∃ w', long_poll_wakeup e x false w t = Some (w', t) ∧ ends l [] w w' ∧ phase_of w' = phase_of w
    ∧ match long_poll_query_ w with
      | None => kept w w'
      | Some q => long_poll_query_ w' = Some q
          ∧ long_poll_was_wakeup_ w' = true
          ∧ (∃ at_, long_poll_slot_ w' = Some at_ ∧ at_ <= now_ x + LONG_POLL_WAIT_AFTER ∧ at_ <= long_poll_hard_timeout_ w')%Q
          ∧ (long_poll_was_wakeup_ w = false → long_poll_hard_timeout_ w' <= now_ x + LONG_POLL_MAX_DELAY)%Q
          ∧ (long_poll_hard_timeout_ w' <= long_poll_hard_timeout_ w)%Q
      end.
Proof.
  intros Hl Hs Hr. unfold long_poll_wakeup. destruct (long_poll_query_ w) as [q|] eqn:Eq.
  - eexists. split; [done|]. destruct (sh_poll _ _ _ Hs q Eq) as (Hf & Hset & Ha & at_ & _ & _).
    set (w1 := if negb (long_poll_was_wakeup_ w) then _ else w).
    assert (kept (set_long_poll_hard_timeout_ (long_poll_hard_timeout_ w1) w) w1 ∧ conflicts_ w1 = conflicts_ w
            ∧ last_pending_update_count_ w1 = last_pending_update_count_ w ∧ had w1 = had w ∧ long_poll_was_wakeup_ w1 = true
            ∧ (long_poll_was_wakeup_ w = false → long_poll_hard_timeout_ w1 <= now_ x + LONG_POLL_MAX_DELAY)%Q
            ∧ (long_poll_hard_timeout_ w1 <= long_poll_hard_timeout_ w)%Q) as (Hk & Hc & Hn & Hh & Hw & Hd & Hle).
    { unfold w1. destruct (long_poll_was_wakeup_ w) eqn:Ew; cbn [negb].
      - refine (conj _ (conj eq_refl (conj eq_refl (conj eq_refl (conj Ew (conj _ (Qle_refl _))))))); [by split|congruence].
      - refine (conj _ (conj eq_refl (conj eq_refl (conj eq_refl (conj eq_refl (conj (fun _ => q_min_l _ _) (q_min_r _ _))))))). by split. }
    clearbody w1. split.
    + split; [|by apply (rest_same w)|].
      * eapply (shape_polled _ l w _ q (q_min (now_ x + LONG_POLL_WAIT_AFTER) (long_poll_hard_timeout_ w1))); [done..|apply q_min_r|].
        destruct Hk. split; try done. cbn in *. congruence.
      * rewrite <- Hh. done.
    + split; [exact (phase_kept _ _ Hk)|].
      split; [cbn; rewrite (kp_poll _ _ Hk); exact Eq|]. split; [exact Hw|]. split; [|by split].
      eexists. split; [done|]. split; [apply q_min_l|apply q_min_r].
  - destruct (warn_ok x (lit "The getUpdates method is not called for too long") w t Hl) as (w' & -> & Hk & Hh & Hrest).
    exists w'. split; [done|]. split; [by apply ends_kept|]. split; [by apply phase_kept|done].
Qed.

Lemma integer_arg_range q name default lo hi : lo <= hi → lo <= get_integer_arg q (lit name) default lo hi <= hi.
Proof. intros Hle. unfold get_integer_arg, clamp. cbv zeta. repeat case_match; lia. Qed.

(** What getUpdates asks for: a query that comes again too soon waits longer or
    for fewer updates. *)
Record asks_for (x : bot_io) (q : Query) (w : bot) (offset limit timeout : Z) : Prop := {
  af_offset : offset = get_integer_arg q (lit "offset") 0 (- 2 ^ 31) INT32_MAX;
  af_limit : 1 <= limit <= 100;
  af_timeout : 0 <= timeout <= LONG_POLL_MAX_TIMEOUT;
  af_new : offset ≠ previous_get_updates_offset_ w →
    limit = get_integer_arg q (lit "limit") 100 1 100 ∧ timeout = get_integer_arg q (lit "timeout") 0 0 LONG_POLL_MAX_TIMEOUT;
}.

(** A query is answered with an error now or later. *)
Definition conflicts (x : bot_io) (m : slice) (q : Query) (w w' : bot) : Prop :=
  outs w' = outs w ++ [Answered q (AnswerError 409 m [])] ∨ outs w' = outs w ∧ conflicts_ w' = conflicts_ w ++ [((now_ x + 3)%Q, q, m)].

Definition webhook_busy (w : bot) : bool := webhook_is_set w || has_query (webhook_set_query_ w) || has_query (active_webhook_set_query_ w).

Definition conflict_message : slice :=
  lit "Conflict: can't use getUpdates method while webhook is active; use deleteWebhook to delete the webhook first".

Lemma process_get_updates_ok l x q w (t : tqueue S) :
  live t → shape_ok l w → rest_ok w → fresh q →
  ∃ w' t', process_get_updates_query e x q w t = Some (w', t') ∧ live t' ∧ ends l [q] w w' ∧ phase_of w' = phase_of w
    ∧ if webhook_busy w then t' = t ∧ conflicts x conflict_message q w w'
      else ∃ w1 offset limit timeout from updates pre, got e x offset limit timeout q w1 t w' t' from updates
        ∧ asks_for x q w offset limit timeout ∧ outs w1 = outs w ++ pre ∧ forallb plain pre = true
        ∧ shape_ok l w1.
Proof.
  intros Hl Hs Hr Hf. unfold process_get_updates_query. fold (webhook_busy w). destruct (webhook_busy w) eqn:Eb.
  { destruct (conflict_settles (now_ x) conflict_message q w Hf eq_refl) as (w' & E & Hset & Ho). unfold conflict_message in E. rewrite E.
    exists w', t. split; [done|]. split; [done|]. split; [by apply ends_settles|]. split; [exact (phase_kept _ _ (se_kept _ _ _ Hset))|]. by split. }
  destruct (update_allowed_ok x q w (sh_allowed _ _ _ Hs)) as (b & allowed & pre & -> & Ha & Hp). cbn [mbind option_bind].
  match goal with |- context [do_get_updates e x ?vo ?vl ?vt q ?vw] => set (w1 := vw); set (limit := vl); set (timeout := vt); set (offset := vo) in * end.
  assert (shape_ok l w1) as Hs1 by (by apply (shape_kept e l (with_allowed allowed pre w)); [|apply shape_allowed]).
  assert (had w1 = had w) as Hh1 by (by apply had_allowed).
  destruct (do_get_updates_ok e x offset limit timeout q w1 t Hl Hf) as (w' & t' & from & updates & -> & Hg).
  { by apply (rest_same w). }
  { intros q' Eq. by apply (sh_poll _ _ _ Hs q'). }
  exists w', t'. split; [done|]. split; [apply (gt_taken _ _ _ _ _ _ _ _ _ _ _ _ Hg)|]. split.
  - split; [|apply Hg|by rewrite (gt_had _ _ _ _ _ _ _ _ _ _ _ _ Hg), Hh1].
    pose proof (gt_outcome _ _ _ _ _ _ _ _ _ _ _ _ Hg) as Ho. destruct (negb (timeout =? 0) && bool_decide (updates = [])); [|by eapply shape_kept; [apply Ho|]].
    apply orb_false_iff in Eb as [[Eset _]%orb_false_iff Eact].
    destruct Ho as [Hq Hslot Hhard _ Hk]. rewrite Hslot in Hk.
    eapply (shape_polled e l w1 w' q); [exact Hs1|exact Hf|exact Eset| |rewrite Hhard; apply Qle_refl|exact Hk].
    cbn. by destruct (active_webhook_set_query_ w).
  - split; [exact (got_phase _ _ _ _ _ _ _ _ _ _ _ Hg)|]. exists w1, offset, limit, timeout, from, updates, pre. split_and!; try done.
    pose proof (integer_arg_range q "limit" 100 1 100 ltac:(lia)). pose proof (integer_arg_range q "timeout" 0 0 LONG_POLL_MAX_TIMEOUT ltac:(done)).
    assert (LONG_POLL_MAX_TIMEOUT = 50) by done.
    split; [done|unfold limit; destruct (_ && _); lia|unfold timeout; match goal with |- context [if ?b then 3 else _] => destruct b end; lia|].
    intros Hne%Z.eqb_neq. unfold limit, timeout. cbn. by rewrite Hne.
Qed.

(** *** Setting a webhook *)

Definition with_cert (b : bool) (w : bot) : bot := set_settings_ (set_has_webhook_certificate_ b (settings_ w)) w.

Lemma base64url_no_slash s : is_base64url_characters s = true → "/"%char ∉ s.
Proof. intros Hs Hin%list_elem_of_In. by pose proof (proj1 (forallb_forall _ _) Hs _ Hin). Qed.

Lemma startable_settings q cert allowed :
  startable e q →
  settings_ok e (mkWebhook (arg q (lit "url")) cert (get_webhook_max_connections (local_mode_ e) (default_max_webhook_connections_ e) q)
                   (arg q (lit "ip_address")) (get_webhook_fix_ip_address q) (arg q (lit "secret_token")) allowed)
  ∧ arg q (lit "url") ≠ [].
Proof.
  intros [Hne He]. unfold set_webhook_error, new_url_of in *. case_bool_decide; [|done].
  destruct (is_ok (parse_url _ _ _)) eqn:Eu; [|done]. cbn [negb] in He. destruct (256 <? _); [done|].
  destruct (is_base64url_characters _) eqn:Eb; [|done]. split; [|done]. split; cbn.
  - exact Eu.
  - unfold get_webhook_max_connections. destruct (local_mode_ e); by apply integer_arg_range.
  - by apply base64url_no_slash.
Qed.

(** A webhook that is being verified or replaced. *)
Lemma shape_setting w q :
  asks q → webhook_set_query_ w = Some q →
  webhook_id_ w = match webhook_query_type_ w with Verify => Some (webhook_generation_ w) | Cancel => None end →
  active_webhook_set_query_ w = None → long_poll_query_ w = None →
  webhook_is_set w = true → settings_ok e (settings_ w) →
  0 < allowed_update_types_ (settings_ w) < 2 ^ 64 →
  (∀ value, saved (outs w) = Some value → saved_as e (settings_ w) value ∨ saved_nothing value) → shape_ok Open w.
Proof.
  intros Hq Es Ei Ea Ep Eset Hs Ha Hsaved. split; try done; try congruence.
  - intros q' ?. split_and!; congruence.
  - intros _ _ [?|Et]; [congruence|]. by rewrite Ei, Et.
  - intros _ Et. by rewrite Ei, Et.
Qed.

(** Without a webhook only the allowed types of updates may have been saved. *)
Lemma saved_unset l w value : shape_ok l w → webhook_is_set w = false → saved (outs w) = Some value → saved_nothing value.
Proof.
  intros Hs E Hv. destruct (sh_saved _ _ _ Hs value Hv) as [Ha|]; [|done]. unfold webhook_is_set in E.
  by rewrite (saved_set _ _ _ Ha) in E.
Qed.

(** No webhook is set or being set, and nobody waits for updates. *)
Record idle (w : bot) : Prop := {
  id_set : webhook_set_query_ w = None;
  id_active : active_webhook_set_query_ w = None;
  id_url : webhook_is_set w = false;
  id_poll : long_poll_query_ w = None;
}.

Lemma finish_closing_ok x l q b w err :
  shape_ok l w → rest_ok w → fresh q → idle w → l ≠ Open → closing_error x = Some err → closing_ok err →
  ∃ w', finish_set_webhook e x q (with_cert b w) = Some w' ∧ ends l [q] w w' ∧ phase_of w' = NoWebhook.
Proof.
  intros Hs Hr Hf [E1 E2 E3 E4] Hl Ex Herr. unfold finish_set_webhook.
  assert (webhook_is_set (with_cert b w) = false ∧ webhook_set_query_ (with_cert b w) = None ∧ active_webhook_set_query_ (with_cert b w) = None)
    as (-> & Es & Ea) by done. rewrite Es, Ea, Ex. cbn [has_query negb CHECK].
  destruct (closing_settles x err q (with_cert b w) Hf Ex Herr) as (a & -> & _). eexists. split; [done|]. split.
  - apply (ends_from e l [q] w (with_cert b w) _ eq_refl), ends_answer; [|by apply (rest_same w)].
    pose proof (fun value => saved_unset l w value Hs E3) as Hsaved. destruct Hs. split; try done.
    + intros Hw. destruct (sh_settings0 Hw). by split.
    + intros value Hv. right. by apply Hsaved.
    + intros _ _ Hw. by pose proof (eq_trans (eq_sym E3) Hw).
  - unfold phase_of. cbn. rewrite E1, E2. unfold webhook_is_set in *. cbn. by rewrite E3.
Qed.

Lemma finish_open_ok x q b w :
  shape_ok Open w → rest_ok w → asks q → startable e q → idle w → closing_error x = None →
  ∃ w', finish_set_webhook e x q (with_cert b w) = Some w' ∧ ends Open [q] w w' ∧ phase_of w' = Verifying q.
Proof.
  intros Hs Hr Hask Hq [E1 E2 E3 E4] Ex. pose proof Hask as (Hf & _). unfold finish_set_webhook.
  assert (webhook_is_set (with_cert b w) = false ∧ webhook_set_query_ (with_cert b w) = None ∧ active_webhook_set_query_ (with_cert b w) = None)
    as (-> & Es & Ea) by done. rewrite Es, Ea, Ex. cbn [has_query negb CHECK]. clear Es Ea.
  destruct (startable_settings q b (allowed_update_types_ (settings_ w)) Hq) as [Hset Hne].
  rewrite bool_decide_eq_false_2 by done. cbn [negb CHECK].
  match goal with |- context [update_allowed_update_types x q ?vw] => set (w1 := vw) end.
  destruct (update_allowed_ok x q w1 (sh_allowed _ _ _ Hs)) as (changed & allowed & pre & -> & Ha & Hp). cbn [mbind option_bind].
  pose proof (so_url _ _ Hset) as Hurl. cbn [webhook_url_] in Hurl. destruct (parse_url _ (arg q _) _) as [url|]; [|done]. cbn [result_value mbind option_bind].
  match goal with |- ∃ w', Some ?v = Some w' ∧ _ => set (w' := v) end. exists w'. split; [done|].
  assert (webhook_is_set w' = true) as Eset by (unfold webhook_is_set; cbn; by rewrite bool_decide_eq_false_2).
  split; [split|].
  - pose proof (startable_settings q b allowed Hq) as [Hset' _]. 
    apply (shape_setting w' q); [done|done|done|done|done|exact Eset|exact Hset'|exact Ha|].
    intros value. unfold w'. cbn [outs send_bot set_outs with_allowed]. intros Hv. right. apply (saved_unset Open w value Hs E3).
    rewrite <- Hv. cbn. rewrite saved_snoc, plain_saved by done. done.
  - by apply (rest_same w).
  - unfold had, held, answered_queries, w'. cbn. rewrite !bind_app, (plain_queries pre), E1, E2, E4 by done. cbn. solve_Permutation.
  - done.
Qed.

Lemma utf8_number l (n : Z) r :
  forallb (fun c => char_code c <? 128) l = true → 0 <= n < 2 ^ 63 → utf8 r → utf8 (l ++ print_int 64 n ++ r).
Proof.
  intros Hl Hn Hr. unfold utf8. rewrite check_utf8_app_ascii by done. rewrite check_utf8_app_ascii; [done|].
  unfold print_int. destruct (Z.ltb_spec n 0); [lia|]. destruct (print_uint_spec n) as (Hd & _ & _); [lia|].
  apply forallb_forall. intros c Hc%list_elem_of_In. rewrite Forall_forall in Hd. specialize (Hd c Hc). revert Hd. clear. all_chars c.
Qed.

Lemma certificate_size q size : asks q → get_webhook_certificate q = Some size → 0 <= size < 2 ^ 63.
Proof.
  intros [_ Hfiles]. unfold get_webhook_certificate. destruct (file_size q (lit "certificate")) as [n|] eqn:E.
  - intros [= <-]. by eapply Hfiles.
  - destruct (begins_with _ _); [|done]. apply Hfiles.
Qed.

Lemma with_cert_same w : with_cert (has_webhook_certificate_ (settings_ w)) w = w.
Proof. destruct w as [s]. by destruct s. Qed.

(** The query of a certificate that is copied. *)
Lemma copying_ok q to size w :
  shape_ok Open w → rest_ok w → asks q → startable e q → idle w →
  ends Open [q] w (send_bot (CopyCertificate to size) (set_active_webhook_set_query_ (Some q) w)).
Proof.
  intros Hs Hr Hq Hst [E1 E2 E3 E4]. split; [|by apply (rest_same w)|].
  - destruct Hs. split; try done; cbn; try rewrite saved_snoc; try done; try congruence. by intros ? [= <-].
  - unfold had, held, answered_queries. cbn. rewrite bind_app, E1, E2, E4. cbn. solve_Permutation.
Qed.

Lemma begin_set_ok x q w :
  shape_ok Open w → rest_ok w → asks q → startable e q → idle w → closing_error x = None →
  ∃ w', begin_set_webhook e x q w = Some w' ∧ ends Open [q] w w'
    ∧ (phase_of w' = NoWebhook ∨ phase_of w' = Copying q ∨ phase_of w' = Verifying q).
Proof.
  intros Hs Hr Hq Hst Hi Ex. pose proof Hi as [E1 E2 E3 E4]. unfold begin_set_webhook.
  rewrite (sh_cert _ _ _ Hs eq_refl E3). cbn [negb CHECK]. destruct (q_is_internal q) eqn:Ei.
  { destruct (finish_open_ok x q (bool_decide (arg q (lit "certificate") = lit "previous")) w Hs Hr Hq Hst Hi Ex) as (w' & E & He & Hp).
    exists w'. unfold with_cert in E. rewrite E. auto. }
  destruct (get_webhook_certificate q) as [size|] eqn:Ec.
  - destruct (MAX_CERTIFICATE_FILE_SIZE <? size).
    + rewrite answer_bot_ok; [|apply Hq|split; [done|split; [apply utf8_number; [done|by eapply certificate_size|done]|done]]].
      eexists. split; [done|]. split; [by apply ends_answer|]. left. unfold phase_of. cbn. rewrite E1, E2.
      unfold webhook_is_set in *. cbn. by rewrite E3.
    + rewrite E1. cbn [has_query negb CHECK]. eexists. split; [done|]. split; [by apply copying_ok|]. right. left.
      unfold phase_of. cbn. by rewrite E1.
  - destruct (finish_open_ok x q (has_webhook_certificate_ (settings_ w)) w Hs Hr Hq Hst Hi Ex) as (w' & E & He & Hp).
    rewrite with_cert_same in E. rewrite E. exists w'. auto.
Qed.

Lemma clear_all_ok queue_id (t : tqueue S) :
  live t → live (clear queue_id 0 t).2 ∧ get_size queue_id (clear queue_id 0 t).2 = 0
    ∧ ∀ id, id ≠ queue_id → queue_at id (clear queue_id 0 t).2 = queue_at id t.
Proof.
  intros Hl. pose proof (clear_ok queue_id 0 t (lv_ok _ Hl) (lv_tails _ Hl)) as Hc. cbv zeta in Hc.
  destruct (clear queue_id 0 t) as [deleted t']. destruct Hc as (Hs & _ & Hq). cbn.
  assert (get_size queue_id t' = get_size_of (queue_at queue_id t')) as -> by (unfold get_size, queue_at; by destruct (queues_ t' !! queue_id)).
  split; [by eapply step_live|]. split; [|intros id Hne; by eapply step_other].
  destruct (Z.leb_spec (get_size_of (queue_at queue_id t)) (Z.of_nat 0)) as [Hle|_].
  - destruct Hq as [_ ->]. pose proof (size_bound queue_id t Hl) as Hb.
    assert (get_size queue_id t = get_size_of (queue_at queue_id t)) as E by (unfold get_size, queue_at; by destruct (queues_ t !! queue_id)).
    lia.
  - destruct (lv_storage _ Hl) as [s E]. rewrite E in Hq. destruct Hq as (pre & ev & _ & _ & Eq). unfold get_size_of. by rewrite Eq.
Qed.

(** A query of setWebhook or deleteWebhook when there is no webhook any more: an
    answer, a certificate to copy, or a webhook to verify. *)
Record decided (x : bot_io) (l : life) (was_deleted : bool) (q : Query) (w : bot) (t : tqueue S) (w' : bot) (t' : tqueue S) : Prop := {
  de_live : live t';
  de_ends : ends l [q] w w';
  de_phase : phase_of w' = phase_of w ∨ l = Open ∧ phase_of w = NoWebhook ∧ (phase_of w' = Copying q ∨ phase_of w' = Verifying q);
  de_deleted : new_url_of q = [] → l = Open →
    outs w' = outs w ++ [Answered q (AnswerOk (JsonBoolean true)
                           (if was_deleted then lit "Webhook was deleted" else lit "Webhook is already deleted"))];
  de_dropped : l = Open → to_bool (arg q (lit "drop_pending_updates")) = true → get_size (tqueue_id_ e) t' = 0;
  de_queue : l = Open → to_bool (arg q (lit "drop_pending_updates")) = false → t' = t;
}.

Lemma do_set_ok x l was_deleted q w (t : tqueue S) :
  live t → lives x l → shape_ok l w → rest_ok w → asks q → webhook_is_set w = false → webhook_set_query_ w = None →
  (new_url_of q ≠ [] → long_poll_query_ w = None) →
  ∃ w' t', do_set_webhook e x q was_deleted w t = Some (w', t') ∧ decided x l was_deleted q w t w' t'.
Proof.
  intros Hl Hx Hs Hr Hq E3 E1 Hpoll. unfold do_set_webhook. rewrite E3. cbn [negb CHECK].
  unfold lives in Hx. destruct (closing_error x) as [err|] eqn:Ex.
  { destruct Hx as [Hne Herr]. destruct (closing_settles x err q w (proj1 Hq) Ex Herr) as (a & -> & _). cbn [mbind option_bind].
    eexists _, t. split; [done|]. split; [done|by apply ends_answer|by left|by intros ? ?..]. }
  subst l. pose proof (clear_all_ok (tqueue_id_ e) t Hl) as (Hl' & Hsize & _).
  assert (∃ t', (if to_bool (arg q (lit "drop_pending_updates")) then clear_tqueue e w t else Some t) = Some t' ∧ live t'
    ∧ (to_bool (arg q (lit "drop_pending_updates")) = true → get_size (tqueue_id_ e) t' = 0)
    ∧ (to_bool (arg q (lit "drop_pending_updates")) = false → t' = t)) as (t' & -> & Hlt & Hd & Hk).
  { destruct (to_bool _); [|by exists t]. unfold clear_tqueue. rewrite (sh_id _ _ _ Hs E3). by eexists. }
  cbn [mbind option_bind]. case_bool_decide as Eu.
  { rewrite answer_bot_ok; [|apply Hq|by destruct was_deleted]. cbn [mbind option_bind]. eexists _, t'. split; [done|].
    split; try done; [by apply ends_answer|by left]. }
  destruct (set_webhook_error e q) as [message|] eqn:Ee.
  { rewrite answer_bot_ok; [|apply Hq|]. 2:{ unfold set_webhook_error in Ee. split; [done|]. split; [|done]. repeat case_match; by simplify_eq. }
    cbn [mbind option_bind]. eexists _, t'. split; [done|]. split; try done; [by apply ends_answer|by left]. }
  destruct (active_webhook_set_query_ w) as [qa|] eqn:Ea; cbn [has_query].
  { rewrite answer_bot_ok; [|apply Hq|done]. cbn [mbind option_bind]. eexists _, t'. split; [done|].
    split; try done; [by apply ends_answer|by left]. }
  destruct (begin_set_ok x q w Hs Hr Hq) as (w' & -> & He & Hp); [done|by split; auto|done|].
  eexists w', t'. split; [done|]. assert (phase_of w = NoWebhook) as Ep by (unfold phase_of; by rewrite E1, Ea, E3).
  split; try done. rewrite Ep. destruct Hp as [?|?]; [by left|by right].
Qed.

(** *** What is saved *)

Lemma webhook_saved l w :
  shape_ok l w → webhook_is_set w = true → "/"%char ∉ webhook_ip_address_ (settings_ w) →
  saved_as e (settings_ w) (save_webhook (settings_ w)).
Proof.
  intros Hs Hset Hip. destruct (sh_settings _ _ _ Hs Hset). pose proof (sh_allowed _ _ _ Hs) as Ha. split; [|split; [by split|]].
  - unfold webhook_is_set in Hset. intros E. by rewrite E in Hset.
  - exists (allowed_update_types_ (settings_ w)). split; [exact Ha|]. by rewrite set_allowed_same.
Qed.

(** The text that is saved of the settings of now. *)
Definition saves (w : bot) : Prop :=
  saved_as e (settings_ w) (save_webhook (settings_ w)) ∨ webhook_is_set w = false ∧ saved_nothing (save_webhook (settings_ w)).

Lemma saves_now w : shape_ok Open w → webhook_set_query_ w = None → saves w.
Proof.
  intros Hs Hq. destruct (webhook_is_set w) eqn:Eset.
  - left. apply (webhook_saved Open); [done|done|]. by apply (sh_verified _ _ _ Hs).
  - right. split; [done|]. exists (allowed_update_types_ (settings_ w)). split; [apply (sh_allowed _ _ _ Hs)|]. f_equal.
    change (settings_ w = no_webhook (settings_ w)).
    rewrite <- (sh_none _ _ _ Hs Eset), <- (sh_cert _ _ _ Hs eq_refl Eset). by destruct (settings_ w).
Qed.

Lemma ends_saved l w : shape_ok l w → rest_ok w → saves w → ends l [] w (save_webhook_now w).
Proof.
  intros Hs Hr Hsave. split; [|by apply (rest_same w)|].
  - destruct Hs. split; try done; cbn; rewrite saved_snoc.
    + intros value [= <-]. destruct Hsave as [|[_ ?]]; [by left|by right].
    + intros _ _ Hw. eexists. split; [done|]. destruct Hsave as [|[Hw' _]]; [done|]. by pose proof (eq_trans (eq_sym Hw) Hw').
  - unfold had, held, answered_queries. cbn. rewrite bind_app. cbn. by rewrite app_nil_r.
Qed.

(** *** setWebhook *)

(** How a query of setWebhook or deleteWebhook changes what the client is at. *)
Definition requested (q : Query) (p p' : phase) : Prop :=
  p' = p ∨ match p with
           | NoWebhook => p' = Copying q ∨ p' = Verifying q
           | Copying _ => False
           | Verifying _ | Running | Replacing _ => p' = Replacing q
           end.

Lemma abort_new x q w :
  (∀ q', long_poll_query_ w = Some q' → fresh q') →
  ∃ w', (if bool_decide (new_url_of q = []) then Some w else abort_long_poll (now_ x) true w) = Some w'
    ∧ (new_url_of q ≠ [] → long_poll_query_ w' = None) ∧ had w' ≡ₚ had w ∧ (rest_ok w → rest_ok w')
    ∧ (kept w w' ∨ kept (set_long_poll_query_ None w) w').
Proof.
  intros Hf. case_bool_decide.
  - exists w. split; [done|]. split; [done|]. split; [done|]. split; [done|by left].
  - destruct (abort_ok (now_ x) true w Hf) as (w' & E & [Hk Hr Hh]). exists w'. split; [done|]. split; [intros _; apply (kp_poll _ _ Hk)|].
    split; [done|]. split; [done|by right].
Qed.

(** The query before, if any, was taken away. *)
Lemma change_ok x q w0 w (t : tqueue S) :
  live t → closing_error x = None → shape_ok Open w0 → active_webhook_set_query_ w0 = None → kept (set_webhook_set_query_ None w0) w →
  rest_ok w → asks q →
  ∃ w' t', change_webhook e x q w t = Some (w', t') ∧ live t' ∧ ends Open [q] w w'
    ∧ if webhook_is_set w then phase_of w' = Replacing q ∧ t' = t
      else phase_of w' = NoWebhook ∨ phase_of w' = Copying q ∨ phase_of w' = Verifying q.
Proof.
  intros Hl Hx Hs Ea Hk0 Hr Hq. unfold change_webhook.
  destruct (abort_new x q w) as (w1 & -> & Hp & Hh & Hr1 & Hk).
  { intros q' Eq. rewrite (kp_poll _ _ Hk0) in Eq. by apply (sh_poll _ _ _ Hs q'). }
  cbn [mbind option_bind]. specialize (Hr1 Hr).
  assert (∃ w0', shape_ok Open w0' ∧ active_webhook_set_query_ w0' = None ∧ kept (set_webhook_set_query_ None w0') w1
            ∧ webhook_is_set w0' = webhook_is_set w) as (w0' & Hs1 & Ea1 & Hk1 & Eset).
  { destruct Hk as [Hk|Hk].
    - exists w0. split; [done|]. split; [done|]. split; [by etrans|]. symmetry. exact (kept_is_set _ _ Hk0).
    - exists (set_long_poll_query_ None w0). split; [by apply shape_unpolled|]. split; [done|]. split; [|symmetry; exact (kept_is_set _ _ Hk0)].
      destruct Hk0 as [K1 K2 K3 K4 K5 K6 _ K8 K9 K10], Hk as [J1 J2 J3 J4 J5 J6 J7 J8 J9 J10].
      split; [exact (eq_trans J1 K1)|exact (eq_trans J2 K2)|exact (eq_trans J3 K3)|exact (eq_trans J4 K4)|exact (eq_trans J5 K5)
        |exact (eq_trans J6 K6)|exact J7|exact (eq_trans J8 K8)|exact (eq_trans J9 K9)|exact (eq_trans J10 K10)]. }
  clear Hk Hk0 Hs Hr. rewrite <- Eset in *. pose proof (kept_is_set _ _ Hk1) as Eset1.
  set (w2 := set_webhook_generation_ (wrap 64 (webhook_generation_ w1 + 1)) w1).
  assert (webhook_is_set w2 = webhook_is_set w0') as -> by exact Eset1.
  destruct (webhook_is_set w0') eqn:Ew.
  - match goal with |- context [set_webhook_query_type_ Cancel ?v] => set (w3 := v) end.
    assert (∃ pre, w3 = set_webhook_id_ None (set_outs (outs w2 ++ pre) w2) ∧ forallb plain pre = true) as (pre & -> & Hpre).
    { unfold w3. destruct (webhook_id_ w2) as [token|] eqn:Ei; [by exists [CloseWebhook token]|]. exists []. split; [|done].
      by rewrite app_nil_r, outs_same, id_same. }
    pose proof (no_poll _ _ _ Hs1 (or_introl Ew)) as Ep.
    destruct Hk1 as [K1 _ _ K4 K5 _ K7 _ _ K10]. assert (active_webhook_set_query_ w1 = None) as E5 by exact (eq_trans K5 Ea1).
    unfold has_query. cbn. rewrite E5. cbn [negb CHECK]. eexists _, t. split; [done|]. split; [done|]. split; [|done].
    split; [|by apply (rest_same w1)|].
    + destruct Hs1. apply (shape_setting _ q);
        [exact Hq|done|done|exact E5|exact (eq_trans K7 Ep)|exact (eq_trans Eset1 Ew)|cbn; rewrite K1; by apply sh_settings0
        |cbn; by rewrite K1|].
      intros value Hv. cbn. rewrite K1. apply sh_saved0. rewrite <- Hv. symmetry. etrans; [apply (plain_saved (outs w1) pre Hpre)|exact K10].
    + rewrite <- Hh. unfold had, held, answered_queries. cbn. rewrite bind_app, (plain_queries pre) by done. rewrite K4. cbn. solve_Permutation.
  - assert (shape_ok Open w1) as Hs1' by (eapply shape_kept; [exact Hk1|]; apply shape_unset; auto).
    assert (shape_ok Open w2) as Hs2 by (destruct Hs1'; split; try done; intros _ Hset; by pose proof (eq_trans (eq_sym (eq_trans Eset1 Ew)) Hset)).
    assert (webhook_set_query_ w2 = None ∧ active_webhook_set_query_ w2 = None) as [E1 E2] by (split; [apply (kp_set _ _ Hk1)|by rewrite <- Ea1; apply (kp_active _ _ Hk1)]).
    destruct (do_set_ok x Open false q w2 t Hl) as (w' & t' & E & Hd);
      [unfold lives; by rewrite Hx|exact Hs2|by apply (rest_same w1)|exact Hq|exact (eq_trans Eset1 Ew)|exact E1|exact Hp|].
    rewrite E. exists w', t'. split; [done|]. destruct Hd as [? He Hph _ _ _]. split; [done|]. split.
    + destruct He as [? ? Hhe]. split; [done..|]. rewrite Hhe, <- Hh. done.
    + assert (phase_of w2 = NoWebhook) as Epw.
      { unfold phase_of. rewrite E1, E2. assert (webhook_is_set w2 = false) as -> by exact (eq_trans Eset1 Ew). done. }
      rewrite Epw in Hph. destruct Hph as [?|(_ & _ & ?)]; [by left|by right].
Qed.

(** The fields of a query that ends where it began, and what was saved. *)
Lemma unchanged_ok x q w (answer : slice) :
  shape_ok Open w → rest_ok w → asks q → webhook_set_query_ w = None → utf8 answer →
  ∃ w', ('(changed, w) ← update_allowed_update_types x q w;
         let w := if (changed : bool) then save_webhook_now w else w in
         answer_bot q (AnswerOk (JsonBoolean true) answer) w) = Some w'
    ∧ ends Open [q] w w' ∧ phase_of w' = phase_of w.
Proof.
  intros Hs Hr Hq Es Ha. destruct (update_allowed_ok x q w (sh_allowed _ _ _ Hs)) as (changed & allowed & pre & -> & Hall & Hp).
  cbn [mbind option_bind]. set (w1 := with_allowed allowed pre w).
  assert (shape_ok Open w1) as Hs1 by (by apply shape_allowed). assert (rest_ok w1) as Hr1 by (by apply (rest_same w)).
  assert (had w1 = had w) as Hh1 by (by apply had_allowed).
  assert (phase_of w1 = phase_of w) as Hp1 by done.
  assert (webhook_set_query_ w1 = None) as Es1 by done. clearbody w1. cbv zeta.
  set (w2 := if changed then save_webhook_now w1 else w1).
  assert (ends Open [] w1 w2 ∧ phase_of w2 = phase_of w1) as [[Hs2 Hr2 Hh2] Hp2].
  { unfold w2. destruct changed; [split; [|done]; apply ends_saved; [done..|by apply saves_now]|]. split; [|done]. by split. }
  clearbody w2. rewrite answer_bot_ok; [|apply Hq|done]. eexists. split; [done|]. split; [|by rewrite phase_answer, Hp2].
  pose proof (ends_answer e Open q (AnswerOk (JsonBoolean true) answer) w2 Hs2 Hr2) as [? ? Hh]. split; [done..|].
  by rewrite Hh, Hh2, Hh1.
Qed.

Lemma set_webhook_ok x q w (t : tqueue S) :
  live t → closing_error x = None → shape_ok Open w → rest_ok w → asks q →
  ∃ w' t', process_set_webhook_query e x q w t = Some (w', t') ∧ live t' ∧ ends Open [q] w w' ∧ requested q (phase_of w) (phase_of w').
Proof.
  intros Hl Hx Hs Hr Hq. unfold process_set_webhook_query. destruct (_ && q_lt _ _).
  { rewrite answer_bot_ok; [|apply Hq|done]. cbn [mbind option_bind]. eexists _, t. split; [done|]. split; [done|].
    split; [by apply ends_answer|by left]. }
  match goal with |- context [set_next_bot_updates_warning_time_ ?a ?b] => set (w1 := set_next_bot_updates_warning_time_ a b) end.
  assert (kept w w1 ∧ rest_ok w1 ∧ had w1 = had w) as (Hk & Hr1 & Hh).
  { unfold w1. destruct (_ && negb _); (split; [by split|split; [by apply (rest_same w)|done]]). }
  clearbody w1. pose proof (shape_kept _ _ _ _ Hk Hs) as Hs1. rewrite <- (phase_kept _ _ Hk). clear Hk Hs Hr.
  assert (∀ qs w', ends Open qs w1 w' → ends Open qs w w') as Hfrom by (intros qs w'; by apply ends_from).
  destruct (webhook_set_query_ w1) as [old|] eqn:Eold.
  - destruct (sh_set _ _ _ Hs1 old Eold) as (Hold & Eset & Ea). set (w2 := set_webhook_set_query_ None w1).
    destruct (conflict_settles (now_ x) (lit "Conflict: terminated by other setWebhook") old w2 (proj1 Hold) eq_refl) as (w3 & -> & [Hk3 Hr3 Hh3] & _).
    cbn [mbind option_bind].
    destruct (change_ok x q w1 w3 t Hl Hx Hs1 Ea Hk3) as (w' & t' & -> & Hl' & [He1 He2 He3] & Hp); [by apply Hr3, (rest_same w1)|done|].
    exists w', t'. split; [done|]. split; [done|]. split; [split; [done..|]|].
    + rewrite He3, Hh3, <- Hh, (had_unset w1 old Eold). solve_Permutation.
    + rewrite (kept_is_set _ _ Hk3) in Hp. assert (webhook_is_set w2 = true) as E2 by exact Eset. rewrite E2 in Hp.
      right. unfold phase_of at 1. rewrite Eold. destruct (webhook_query_type_ w1); apply Hp.
  - destruct (active_webhook_set_query_ w1) as [qa|] eqn:Ea; cbn [has_query].
    { rewrite answer_bot_ok; [|apply Hq|done]. cbn [mbind option_bind]. eexists _, t. split; [done|]. split; [done|].
      split; [apply Hfrom; by apply ends_answer|by left]. }
    destruct (webhook_unchanged e q w1).
    + destruct (unchanged_ok x q w1 (if bool_decide (new_url_of q = []) then lit "Webhook is already deleted" else lit "Webhook is already set") Hs1 Hr1 Hq Eold)
        as (w' & E & He & Hp); [by destruct (bool_decide _)|].
      destruct (update_allowed_update_types x q w1) as [[changed w2]|]; [|done]. cbn [mbind option_bind] in *. rewrite E. cbn [mbind option_bind].
      exists w', t. split; [done|]. split; [done|]. split; [by apply Hfrom|by left].
    + assert (kept (set_webhook_set_query_ None w1) w1) as Hself by (split; done).
      destruct (change_ok x q w1 w1 t Hl Hx Hs1 Ea Hself Hr1 Hq) as (w' & t' & -> & Hl' & He & Hp). exists w', t'.
      split; [done|]. split; [done|]. split; [by apply Hfrom|]. unfold phase_of at 1. rewrite Eold, Ea.
      destruct (webhook_is_set w1); [right; apply Hp|]. destruct Hp as [?|?]; [by left|by right].
Qed.

(** *** Messages of the [WebhookActor] and of the certificate *)

Lemma copied_ok x l (is_copied : bool) q w :
  lives x l → shape_ok l w → rest_ok w → active_webhook_set_query_ w = Some q →
  ∃ w', on_webhook_certificate_copied e x is_copied w = Some w' ∧ ends l [] w w'
    ∧ (phase_of w' = NoWebhook ∨ is_copied = true ∧ l = Open ∧ phase_of w' = Verifying q).
Proof.
  intros Hx Hs Hr Eq. unfold on_webhook_certificate_copied. rewrite Eq. cbn [mbind option_bind].
  destruct (sh_active _ _ _ Hs q Eq) as (Hq & Hst & Eset). pose proof (set_excludes _ _ _ _ Hs Eq) as E1.
  assert (active_webhook_set_query_ w ≠ None) as Hne by congruence. pose proof (no_poll _ _ _ Hs (or_intror Hne)) as Ep. clear Hne.
  set (w1 := set_active_webhook_set_query_ None w). pose proof (shape_inactive _ _ _ Hs) as Hs1. fold w1 in Hs1.
  assert (rest_ok w1) as Hr1 by (by apply (rest_same w)). assert (idle w1) as Hi by (split; done).
  assert (∀ w', ends l [q] w1 w' → ends l [] w w') as Hfrom.
  { intros w' [? ? Hh]. split; [done..|]. by rewrite Hh, (had_inactive w q Eq). }
  destruct is_copied.
  - unfold lives in Hx. destruct (closing_error x) as [err|] eqn:Ex.
    + destruct Hx as [Hne Herr]. destruct (finish_closing_ok x l q true w1 err Hs1 Hr1 (proj1 Hq) Hi Hne Ex Herr) as (w' & E & He & Hp).
      unfold with_cert in E. rewrite E. exists w'. auto.
    + subst l. destruct (finish_open_ok x q true w1 Hs1 Hr1 Hq Hst Hi Ex) as (w' & E & He & Hp).
      unfold with_cert in E. rewrite E. exists w'. split; [done|]. split; [auto|]. by right.
  - rewrite answer_bot_ok; [|apply Hq|done]. eexists. split; [done|]. split; [apply Hfrom; by apply ends_answer|left].
    rewrite phase_answer. unfold phase_of. destruct Hi as [-> -> -> _]. done.
Qed.

(** The address that a webhook was reached under. *)
Definition with_address (ip : slice) (w : bot) : bot := set_settings_ (set_webhook_ip_address_ ip (settings_ w)) w.

(** The client when its webhook was reached: the settings are saved, unless they
    were and did not change. *)
Record reached (ip : slice) (w w' : bot) : Prop := {
  re_settings : settings_ w' = set_webhook_ip_address_ ip (settings_ w);
  re_id : webhook_id_ w' = webhook_id_ w;
  re_set : webhook_set_query_ w' = None;
  re_active : active_webhook_set_query_ w' = active_webhook_set_query_ w;
  re_generation : webhook_generation_ w' = webhook_generation_ w;
  re_poll : long_poll_query_ w' = long_poll_query_ w;
  re_slot : long_poll_slot_ w' = long_poll_slot_ w;
  re_hard : long_poll_hard_timeout_ w' = long_poll_hard_timeout_ w;
  re_saved : saved (outs w') = Some (save_webhook (settings_ w'))
             ∨ settings_ w' = settings_ w ∧ webhook_set_query_ w = None ∧ saved (outs w') = saved (outs w);
}.

Lemma shape_reached l ip w w' :
  shape_ok l w → webhook_is_set w = true → (webhook_set_query_ w = None ∨ webhook_query_type_ w = Verify) → "/"%char ∉ ip →
  reached ip w w' → shape_ok l w'.
Proof.
  intros Hs Hset Ht Hslash [E1 E2 E3 E4 E5 E6 E7 E8 Esave].
  assert (webhook_is_set w' = true) as Eset by (unfold webhook_is_set in *; by rewrite E1).
  assert (saved_as e (settings_ w') (save_webhook (settings_ w'))) as Has.
  { destruct (sh_settings _ _ _ Hs Hset). pose proof (sh_allowed _ _ _ Hs) as Ha. rewrite E1. split; [|split; [by split|]].
    - unfold webhook_is_set in Hset. cbn. intros E. by rewrite E in Hset.
    - exists (allowed_update_types_ (settings_ w)). split; [exact Ha|]. by destruct (settings_ w). }
  destruct Hs. split; rewrite ?E2, ?E3, ?E4, ?E5, ?E6, ?E7, ?E8, ?Eset; try done.
  - intros q Hq. destruct (sh_active0 q Hq) as (_ & _ & ?). congruence.
  - intros q Hq. destruct (sh_poll0 q Hq) as (_ & ? & _). congruence.
  - intros Hl _ _. by apply sh_token0.
  - rewrite E1. intros _. by destruct (sh_settings0 Hset).
  - by rewrite E1.
  - by rewrite E1.
  - intros value Hv. destruct Esave as [Es|(Es & _ & Eo)].
    + rewrite Es in Hv. injection Hv as <-. by left.
    + rewrite Es. apply sh_saved0. by rewrite <- Eo.
  - intros Hl _ _. destruct Esave as [Es|(Es & En & Eo)]; [by eexists|]. rewrite Es, Eo. by apply sh_kept0.
Qed.

(** A message of the actor of the webhook of now: it is being verified or runs. *)
Definition current (token : Z) (w : bot) : Prop :=
  token = webhook_generation_ w → webhook_is_set w = true ∧ (webhook_set_query_ w = None ∨ webhook_query_type_ w = Verify).

(** The query that the webhook was verified for is answered. *)
Lemma verified_answer w :
  (∀ q, webhook_set_query_ w = Some q → fresh q) →
  ∃ pre, match webhook_set_query_ w with
         | Some q => answer_bot q (AnswerOk (JsonBoolean true) (lit "Webhook was set")) (set_webhook_set_query_ None w)
         | None => Some w
         end = Some (set_outs (outs w ++ pre) (set_webhook_set_query_ None w))
    ∧ pre ≫= out_query = option_list (webhook_set_query_ w) ∧ saved (outs w ++ pre) = saved (outs w)
    ∧ ∀ q, webhook_set_query_ w = Some q → Answered q (AnswerOk (JsonBoolean true) (lit "Webhook was set")) ∈ pre.
Proof.
  intros Hf. destruct (webhook_set_query_ w) as [q|] eqn:Eq.
  - rewrite answer_bot_ok; [|by apply Hf|done]. eexists. split; [done|]. split; [done|]. split; [by rewrite saved_snoc|].
    intros q' [= <-]. by left.
  - exists []. rewrite app_nil_r. split; [destruct w; cbn in *; by subst|done].
Qed.

Lemma verified_ok l token ip w :
  shape_ok l w → rest_ok w → current token w → "/"%char ∉ ip →
  ∃ w', webhook_verified token ip w = Some w' ∧ ends l [] w w'
    ∧ if token =? webhook_generation_ w then
        phase_of w' = Running ∧ (phase_of w = Running ∨ ∃ q, phase_of w = Verifying q)
        ∧ (∀ q, webhook_set_query_ w = Some q → Answered q (AnswerOk (JsonBoolean true) (lit "Webhook was set")) ∈ outs w'
                ∧ saved (outs w') = Some (save_webhook (settings_ w')))
      else w' = w.
Proof.
  intros Hs Hr Hc Hslash. unfold webhook_verified. destruct (Z.eqb_spec token (webhook_generation_ w)) as [Et|]; cbn [negb].
  2:{ exists w. split; [done|]. split; [by split|done]. }
  destruct (Hc Et) as [Hset Ht]. fold (with_address ip w). cbv zeta.
  assert (active_webhook_set_query_ w = None) as Ea.
  { destruct (active_webhook_set_query_ w) as [qa|] eqn:Ea; [|done]. destruct (sh_active _ _ _ Hs qa Ea) as (_ & _ & ?). congruence. }
  assert (phase_of w = Running ∨ ∃ q, phase_of w = Verifying q) as Hp0.
  { unfold phase_of. rewrite Ea, Hset. destruct (webhook_set_query_ w) as [q|]; [|by left]. destruct Ht as [?| ->]; [done|]. right. by exists q. }
  destruct (verified_answer (with_address ip w)) as (pre & -> & Hpre & Hsaved & Hans).
  { intros q Eq. apply (sh_set _ _ _ Hs q Eq). }
  cbn [mbind option_bind]. set (need := _ || _). set (w2 := set_outs _ _). eexists. split; [done|].
  assert (phase_of w2 = Running) as Ep by (unfold phase_of; cbn; rewrite Ea; unfold webhook_is_set in *; cbn; by rewrite Hset).
  assert (had w2 ≡ₚ had w) as Hh2.
  { unfold had, held, answered_queries, w2. cbn. rewrite bind_app, Hpre. cbn. solve_Permutation. }
  assert (rest_ok w2) as Hr2 by (by apply (rest_same w)).
  assert (had (save_webhook_now w2) = had w2) as Hh3 by (unfold had, held, answered_queries; cbn; rewrite !bind_app; cbn; by rewrite app_nil_r).
  destruct need eqn:En; (split; [split|]).
  - apply (shape_reached l ip w); [done..|]. split; try done. left. cbn. by rewrite saved_snoc.
  - by apply (rest_same w2).
  - by rewrite Hh3, Hh2.
  - split; [exact Ep|]. split; [done|]. intros q Eq. split; [|cbn; by rewrite saved_snoc].
    cbn. apply elem_of_app. left. apply elem_of_app. right. by apply Hans.
  - apply orb_false_iff in En as [En1 En2%negb_false_iff%bool_decide_eq_true]. apply (shape_reached l ip w); [done..|]. split; try done.
    right. split; [cbn; rewrite En2; by destruct (settings_ w)|]. split; [by destruct (webhook_set_query_ w)|]. exact Hsaved.
  - done.
  - by rewrite Hh2.
  - split; [exact Ep|]. split; [done|]. intros q Eq. unfold need in En. by rewrite Eq in En.
Qed.

Lemma success_ok l x w : shape_ok l w → rest_ok w → ends l [] w (webhook_success x w) ∧ phase_of (webhook_success x w) = phase_of w.
Proof.
  intros Hs Hr. unfold webhook_success. cbv zeta. set (w1 := set_next_bot_updates_warning_time_ _ w).
  assert (kept w w1 ∧ had w1 = had w ∧ rest_ok w1) as (Hk & Hh & Hr1) by (split; [by split|split; [done|by apply (rest_same w)]]).
  clearbody w1. destruct (was_bot_updates_warning_ w1).
  - set (w2 := send_td x _ w1). assert (kept w1 w2) as Hk2 by (apply send_td_kept; by rewrite saved_snoc).
    assert (had w2 = had w1) as Hh2 by (by apply send_td_had). assert (rest_ok w2) as Hr2 by (unfold w2, send_td; destruct (closing_error x); [done|by apply (rest_same w1)]).
    clearbody w2. assert (kept w (set_was_bot_updates_warning_ false w2)) as Hk3 by (etrans; [exact Hk|etrans; [exact Hk2|by split]]).
    split; [|by apply phase_kept]. apply ends_kept; [done|done|done|intros _; by apply (rest_same w2)|by rewrite <- Hh, <- Hh2].
  - split; [by apply ends_kept|by apply phase_kept].
Qed.

Lemma error_ok l x m w (t : tqueue S) :
  live t → shape_ok l w → rest_ok w →
  ∃ w', webhook_error e x m w t = Some (w', t) ∧ ends l [] w w' ∧ phase_of w' = phase_of w.
Proof.
  intros Hl Hs Hr. unfold webhook_error. cbv zeta. set (w1 := set_last_webhook_error_ _ _).
  assert (kept w w1 ∧ had w1 = had w ∧ rest_ok w1) as (Hk & Hh & Hr1) by (split; [by split|split; [done|by apply (rest_same w)]]).
  clearbody w1. destruct (warn_ok x (lit "Webhook error. " ++ m) w1 t Hl) as (w2 & -> & Hk2 & Hh2 & Hr2). cbn [mbind option_bind].
  exists w2. split; [done|]. assert (kept w w2) as Hk3 by (by etrans). split; [apply ends_kept; auto; congruence|by apply phase_kept].
Qed.

(** The fields that the end of a webhook resets. *)
Lemma shape_closed l w w1 :
  shape_ok l w → settings_ w1 = no_webhook (settings_ w) → webhook_id_ w1 = None → webhook_set_query_ w1 = None →
  active_webhook_set_query_ w1 = active_webhook_set_query_ w → long_poll_query_ w1 = long_poll_query_ w →
  long_poll_slot_ w1 = long_poll_slot_ w → long_poll_hard_timeout_ w1 = long_poll_hard_timeout_ w →
  saved (outs w1) = None → shape_ok l w1.
Proof.
  intros Hs E1 E2 E3 E4 E5 E6 E7 E8. assert (webhook_is_set w1 = false) as E9 by (unfold webhook_is_set; by rewrite E1).
  pose proof (sh_allowed _ _ _ Hs). split; rewrite ?E2, ?E3, ?E4, ?E5, ?E6, ?E7, ?E8, ?E9; try done; rewrite ?E1; try done.
  - intros q Hq. destruct (sh_active _ _ _ Hs q Hq) as (? & ? & _). done.
  - intros q Hq. destruct (sh_poll _ _ _ Hs q Hq) as (? & _ & ? & ?). done.
Qed.

(** What becomes of a query when the webhook before it is closed. *)
Definition after_close (l : life) (p p' : phase) : Prop :=
  match p with
  | NoWebhook | Verifying _ | Running => p' = NoWebhook
  | Copying _ => p' = p
  | Replacing q => p' = NoWebhook ∨ l = Open ∧ (p' = Copying q ∨ p' = Verifying q)
  end.

(** The client without the webhook that was closed. *)
Record closes (w w1 : bot) : Prop := {
  cl_settings : settings_ w1 = no_webhook (settings_ w);
  cl_id : webhook_id_ w1 = None;
  cl_type : webhook_query_type_ w1 = webhook_query_type_ w;
  cl_set : webhook_set_query_ w1 = webhook_set_query_ w;
  cl_active : active_webhook_set_query_ w1 = active_webhook_set_query_ w;
  cl_poll : long_poll_query_ w1 = long_poll_query_ w;
  cl_slot : long_poll_slot_ w1 = long_poll_slot_ w;
  cl_hard : long_poll_hard_timeout_ w1 = long_poll_hard_timeout_ w;
  cl_conflicts : conflicts_ w1 = conflicts_ w;
  cl_count : last_pending_update_count_ w1 = last_pending_update_count_ w;
  cl_outs : outs w1 = outs w ++ [EraseWebhook];
}.

Lemma closes_ok x w : closes w (forget_webhook x w).
Proof. unfold forget_webhook. split; cbn; reflexivity. Qed.

Lemma closes_state l w w1 :
  shape_ok l w → rest_ok w → closes w w1 →
  shape_ok l (set_webhook_set_query_ None w1) ∧ rest_ok (set_webhook_set_query_ None w1) ∧ had w1 = had w
  ∧ phase_of (set_webhook_set_query_ None w1) = match active_webhook_set_query_ w with Some q => Copying q | None => NoWebhook end.
Proof.
  intros Hs Hr []. assert (saved (outs w1) = None) as Esave by (rewrite cl_outs0; apply saved_snoc). split; [|split; [|split]].
  - by apply (shape_closed l w).
  - by apply (rest_same w).
  - unfold had, held, answered_queries. rewrite cl_set0, cl_active0, cl_poll0, cl_conflicts0, cl_outs0, bind_app. cbn. by rewrite app_nil_r.
  - unfold phase_of, webhook_is_set. cbn. by rewrite cl_active0, cl_settings0.
Qed.

Lemma after_closes x l m w w1 (t : tqueue S) :
  live t → lives x l → shape_ok l w → rest_ok w → utf8 m → closes w w1 →
  ∃ w' t', match webhook_set_query_ w1 with
           | None => Some (w1, t)
           | Some q =>
               match webhook_query_type_ (set_webhook_set_query_ None w1) with
               | Verify =>
                   w ← answer_bot q (AnswerError 400 (lit "Bad Request: bad webhook: " ++ m) []) (set_webhook_set_query_ None w1);
                   Some (w, t)
               | Cancel => do_set_webhook e x q true (set_webhook_set_query_ None w1) t
               end
           end = Some (w', t') ∧ live t' ∧ ends l [] w w' ∧ after_close l (phase_of w) (phase_of w').
Proof.
  intros Hl Hx Hs Hr Hm Hc.
  destruct (closes_state l w w1 Hs Hr Hc) as (Hs2 & Hr2 & Hh1 & Ep2). destruct Hc as [E1 _ Et Eq1 _ E7 _ _ _ _ _].
  destruct (webhook_set_query_ w1) as [q|] eqn:Eq.
  - destruct (sh_set _ _ _ Hs q (eq_sym Eq1)) as (Hq & Eset & Ea). rewrite Ea in Ep2.
    pose proof (no_poll _ _ _ Hs (or_introl Eset)) as Epoll.
    set (w2 := set_webhook_set_query_ None w1) in *.
    assert (webhook_query_type_ w2 = webhook_query_type_ w) as -> by exact Et.
    assert (webhook_is_set w2 = false) as Eset2 by (unfold webhook_is_set, w2; cbn; by rewrite E1).
    assert (webhook_set_query_ w2 = None) as Es2 by done.
    assert (∀ w', ends l [q] w2 w' → ends l [] w w') as Hfrom.
    { intros w' [? ? Hh]. split; [done..|]. rewrite Hh, <- Hh1. symmetry. by apply (had_unset w1). }
    unfold phase_of at 1. rewrite <- Eq1. destruct (webhook_query_type_ w).
    + assert (long_poll_query_ w2 = None) as Epoll2 by exact (eq_trans E7 Epoll).
      destruct (do_set_ok x l true q w2 t Hl Hx Hs2 Hr2 Hq Eset2 Es2 (fun _ => Epoll2)) as (w' & t' & E & [Hl' He Hp _ _ _]).
      exists w', t'. split; [done|]. split; [done|]. split; [auto|]. rewrite Ep2 in Hp. destruct Hp as [?|(? & _ & ?)]; [by left|by right].
    + rewrite answer_bot_ok; [|apply Hq|]. 2:{ split; [done|]. split; [|done]. unfold utf8. by rewrite check_utf8_app_ascii. }
      cbn [mbind option_bind]. eexists _, t. split; [done|]. split; [done|]. split; [by apply Hfrom, ends_answer|].
      by rewrite phase_answer.
  - exists w1, t. split; [done|]. split; [done|]. assert (kept (set_webhook_set_query_ None w1) w1) as Hk by (by split).
    split; [split; [by apply (shape_kept e l (set_webhook_set_query_ None w1))|by apply (rest_same (set_webhook_set_query_ None w1))|by rewrite Hh1]|].
    rewrite (phase_kept _ _ Hk), Ep2. unfold phase_of. rewrite <- Eq1. destruct (active_webhook_set_query_ w) as [qa|] eqn:Ea; [done|].
    by destruct (webhook_is_set w).
Qed.

Lemma closed_ok x l m w (t : tqueue S) :
  live t → lives x l → shape_ok l w → rest_ok w → utf8 m →
  ∃ w' t', on_webhook_closed e x m w t = Some (w', t') ∧ live t' ∧ ends l [] w w' ∧ after_close l (phase_of w) (phase_of w').
Proof. intros Hl Hx Hs Hr Hm. exact (after_closes x l m w (forget_webhook x w) t Hl Hx Hs Hr Hm (closes_ok x w)). Qed.

Lemma ends_plain l w pre w' :
  shape_ok l w → rest_ok w → forallb plain pre = true → w' = set_outs (outs w ++ pre) w → ends l [] w w' ∧ phase_of w' = phase_of w.
Proof.
  intros Hs Hr Hp ->. split; [|done]. split; [by apply shape_plain|by apply (rest_same w)|by rewrite had_plain].
Qed.

Lemma webhook_closed_ok x l m w (t : tqueue S) :
  live t → lives x l → shape_ok l w → rest_ok w → utf8 m →
  ∃ w' t', webhook_closed e x m w t = Some (w', t') ∧ live t' ∧ ends l [] w w'
    ∧ if has_webhook_certificate_ (settings_ w) then phase_of w' = phase_of w else after_close l (phase_of w) (phase_of w').
Proof.
  intros Hl Hx Hs Hr Hm. unfold webhook_closed. destruct (has_webhook_certificate_ _).
  - eexists _, t. split; [done|]. split; [done|].
    by apply (ends_plain l w [UnlinkCertificate (get_webhook_certificate_path e)]).
  - by apply closed_ok.
Qed.

(** *** getWebhookInfo *)

Lemma synchronization_ok x w :
  kept w (update_last_synchronization_error_date e x w) ∧ had (update_last_synchronization_error_date e x w) = had w
  ∧ conflicts_ (update_last_synchronization_error_date e x w) = conflicts_ w
  ∧ last_pending_update_count_ (update_last_synchronization_error_date e x w) = last_pending_update_count_ w.
Proof. unfold update_last_synchronization_error_date. repeat case_match; split; try done; by split. Qed.

Lemma synchronization_timer x w :
  long_poll_was_wakeup_ (update_last_synchronization_error_date e x w) = long_poll_was_wakeup_ w.
Proof. unfold update_last_synchronization_error_date. by repeat case_match. Qed.

Lemma json_text_prints s : json_prints (json_text s) = true.
Proof. unfold json_text. by destruct (check_utf8 s) eqn:E. Qed.

Lemma update_types_print mask : json_prints (JsonUpdateTypes mask) = true.
Proof.
  unfold JsonUpdateTypes. cbn [json_prints]. induction update_types as [|u l IH]; [done|]. cbn [omap list_omap].
  destruct (_ && _); [|done]. cbn [forallb]. rewrite IH. by destruct u.
Qed.

(** All of it is UTF-8 but for the address of a webhook that was not verified. *)
Definition info_ok (w : bot) : bool := negb (webhook_is_set w) || check_utf8 (webhook_ip_address_ (settings_ w)).

Lemma info_prints w (t : tqueue S) : live t → ∃ v, JsonWebhookInfo e w t = Some v ∧ json_prints v = info_ok w.
Proof.
  intros Hl. unfold JsonWebhookInfo, info_ok, webhook_is_set. cbv zeta. pose proof (size_bound (tqueue_id_ e) t Hl).
  rewrite (proj2 (Z.leb_le _ INT32_MAX)) by (unfold MAX_QUEUE_EVENTS, INT32_MAX in *; lia). cbn [CHECK].
  eexists. split; [done|]. cbn [json_prints]. rewrite !forallb_app, negb_involutive.
  assert (∀ a b c d f g : bool, a = true → b = true → c = true → f = true → g = true → a && (b && (c && (d && (f && g)))) = d) as Hand
    by (intros a b c d f g -> -> -> -> ->; by rewrite andb_true_r).
  rewrite Hand; clear Hand.
  - destruct (bool_decide _); [done|]. cbn [negb orb forallb fst snd json_prints]. rewrite andb_true_r. by destruct (webhook_ip_address_ (settings_ w)).
  - cbn [forallb fst snd json_prints]. by rewrite json_text_prints.
  - destruct (_ <? _); [|done]. cbn [forallb fst snd json_prints]. by rewrite json_text_prints.
  - by destruct (_ <? _).
  - destruct (negb _); [|done]. cbn [forallb fst snd]. by rewrite update_types_print.
  - by destruct (_ <? _).
Qed.

Lemma kept_info w w' : kept w w' → info_ok w' = info_ok w.
Proof. intros Hk. unfold info_ok. by rewrite (kept_is_set _ _ Hk), (kp_settings _ _ Hk). Qed.

Lemma get_info_ok l x q w (t : tqueue S) :
  live t → shape_ok l w → rest_ok w → fresh q → info_ok w = true →
  ∃ w', process_get_webhook_info_query e x q w t = Some (w', t) ∧ ends l [q] w w' ∧ phase_of w' = phase_of w.
Proof.
  intros Hl Hs Hr Hf Hi. unfold process_get_webhook_info_query. destruct (synchronization_ok x w) as (Hk & Hh & Ec & En).
  set (w1 := update_last_synchronization_error_date e x w) in *. clearbody w1. pose proof (shape_kept _ _ _ _ Hk Hs) as Hs1.
  destruct (info_prints w1 t Hl) as (v & -> & Hv). rewrite (kept_info _ _ Hk), Hi in Hv. cbn [mbind option_bind].
  rewrite answer_bot_ok by done. cbn [mbind option_bind]. eexists. split; [done|].
  split; [|rewrite phase_answer; by apply phase_kept]. apply (ends_from e l [q] w w1 _ Hh), ends_answer; [done|by apply (rest_same w)].
Qed.

(** The check of JsonString fails. *)
Lemma get_info_aborts x q w (t : tqueue S) :
  live t → info_ok w = false → process_get_webhook_info_query e x q w t = None.
Proof.
  intros Hl Hi. unfold process_get_webhook_info_query. destruct (synchronization_ok x w) as (Hk & _).
  set (w1 := update_last_synchronization_error_date e x w) in *. clearbody w1.
  destruct (info_prints w1 t Hl) as (v & -> & Hv). rewrite (kept_info _ _ Hk), Hi in Hv. cbn [mbind option_bind].
  unfold answer_bot, give_answer, answer_query, json_encode. destruct (store _ _) as [out|] eqn:E; [|done].
  apply mk_is_Some, store_only_prints in E. unfold JsonQueryOk in E. cbn [json_prints forallb fst snd app] in E. by rewrite Hv in E.
Qed.

(** *** Updates *)

(** An update that TDLib reports: it prints, and the queue gets a usable first identifier. *)
Definition update_ok (x : bot_io) (update : JsonValue) : Prop := json_prints update = true ∧ ∀ n, id_usable (random_id x n).

Lemma json_encode_prints v : json_prints v = true → is_Some (json_encode v false).
Proof. intros Hv. unfold json_encode. cbv zeta. destruct (store_prints v (-1) Hv) as [out E]. rewrite E. by eexists. Qed.

Lemma add_update_ok l x ty update timeout queue_id w (t : tqueue S) :
  live t → shape_ok l w → rest_ok w → update_ok x update →
  ∃ w' t', add_update e x ty update timeout queue_id w t = Some (w', t') ∧ live t' ∧ ends l [] w w' ∧ phase_of w' = phase_of w.
Proof.
  intros Hl Hs Hr [Hu Hid]. unfold add_update. destruct (synchronization_ok x w) as (Hk & Hh & Ec & En). cbv zeta.
  set (w1 := set_last_update_creation_time_ _ _).
  assert (kept w w1 ∧ had w1 = had w ∧ rest_ok w1) as (Hk1 & Hh1 & Hr1) by (split; [etrans; [exact Hk|by split]|split; [done|by apply (rest_same w)]]).
  clearbody w1. pose proof (shape_kept _ _ _ _ Hk1 Hs) as Hs1. rewrite <- (phase_kept _ _ Hk1).
  assert (∀ w', ends l [] w1 w' → ends l [] w w') as Hfrom by (intros w'; by apply ends_from).
  destruct (negb _); [exists w1, t; split; [done|]; split; [done|]; split; [apply Hfrom; by split|done]|].
  destruct (json_encode_prints (JsonStr (get_update_type_name ty))) as [name ->]; [by destruct ty|].
  destruct (json_encode_prints update Hu) as [text ->]. cbn [mbind option_bind].
  destruct (push_ok (random_id x) (tqueue_id_ e) (name ++ lit ":" ++ text) (to_signed 32 (get_unix_time e (now_ x) + timeout)) queue_id 0 t
              (lv_ok _ Hl) Hid (or_introl eq_refl)) as (r & t' & -> & Hstep & _). cbn [mbind option_bind].
  pose proof (step_live _ _ _ Hl Hstep) as Hl'. destruct r as [id|].
  - destruct (webhook_is_set w1) eqn:Eset; cbn [negb].
    + eexists _, t'. split; [done|]. split; [done|]. destruct (webhook_id_ w1) as [token|].
      * destruct (ends_plain l w1 [UpdateWebhook token] (send_bot (UpdateWebhook token) w1) Hs1 Hr1 eq_refl eq_refl) as [? ?]. auto.
      * split; [apply Hfrom; by split|done].
    + destruct (wakeup_later_ok l x w1 t' Hl' Hs1 Hr1) as (w' & -> & He & Hp & _). exists w', t'. auto.
  - exists w1, t'. split; [done|]. split; [done|]. split; [apply Hfrom; by split|done].
Qed.

(** The text of an update in the queue. *)
Definition update_text (ty : UpdateType) (update : JsonValue) : option slice :=
  name ← json_encode (JsonStr (get_update_type_name ty)) false;
  text ← json_encode update false;
  Some (name ++ lit ":" ++ text).

(** A query that waits is woken up: its timer fires soon, and the first time
    that happens also its own time is soon. *)
Record woken (x : bot_io) (q : Query) (w w' : bot) : Prop := {
  wk_query : long_poll_query_ w' = Some q;
  wk_slot : (∃ at_, long_poll_slot_ w' = Some at_ ∧ at_ <= now_ x + LONG_POLL_WAIT_AFTER ∧ at_ <= long_poll_hard_timeout_ w')%Q;
  wk_first : long_poll_was_wakeup_ w = false → (long_poll_hard_timeout_ w' <= now_ x + LONG_POLL_MAX_DELAY)%Q;
  wk_hard : (long_poll_hard_timeout_ w' <= long_poll_hard_timeout_ w)%Q;
}.

(** An update of an allowed type comes while a query waits. *)
Record stored (x : bot_io) (text : slice) (expires queue_id : Z) (q : Query) (w : bot) (t : tqueue S) (w' : bot) (t' : tqueue S) : Prop := {
  sd_allowed : push_allowed (tqueue_id_ e) text expires (queue_at (tqueue_id_ e) t);
  sd_last : ∃ lid id, last (events (queue_at (tqueue_id_ e) t')) = Some (mkRawEvent lid id expires text queue_id);
  sd_woken : woken x q w w';
}.
Record not_stored (text : slice) (expires : Z) (w : bot) (t : tqueue S) (w' : bot) (t' : tqueue S) : Prop := {
  ns_refused : ¬ push_allowed (tqueue_id_ e) text expires (queue_at (tqueue_id_ e) t);
  ns_queue : queue_at (tqueue_id_ e) t' = queue_at (tqueue_id_ e) t;
  ns_kept : kept w w';
}.

Lemma add_update_wakes l x ty update timeout queue_id q w (t : tqueue S) :
  live t → shape_ok l w → rest_ok w → update_ok x update → long_poll_query_ w = Some q →
  Z.testbit (allowed_update_types_ (settings_ w)) (update_value ty) = true →
  let expires := to_signed 32 (get_unix_time e (now_ x) + timeout) in
  ∃ text w' t', update_text ty update = Some text ∧ add_update e x ty update timeout queue_id w t = Some (w', t') ∧ live t'
    ∧ (stored x text expires queue_id q w t w' t' ∨ not_stored text expires w t w' t').
Proof.
  intros Hl Hs Hr [Hu Hid] Eq Hty expires. unfold add_update, update_text. destruct (synchronization_ok x w) as (Hk & Hh & Ec & En). cbv zeta.
  set (w1 := set_last_update_creation_time_ _ _).
  assert (kept w w1) as Hk1 by (etrans; [exact Hk|by split]). assert (rest_ok w1) as Hr1 by (by apply (rest_same w)).
  assert (long_poll_was_wakeup_ w1 = long_poll_was_wakeup_ w) as Ew by exact (synchronization_timer x w).
  clearbody w1. pose proof (shape_kept _ _ _ _ Hk1 Hs) as Hs1. rewrite (kp_settings _ _ Hk1), Hty. cbn [negb].
  destruct (json_encode_prints (JsonStr (get_update_type_name ty))) as [name ->]; [by destruct ty|].
  destruct (json_encode_prints update Hu) as [text ->]. cbn [mbind option_bind].
  set (body := name ++ lit ":" ++ text).
  destruct (push_ok (random_id x) (tqueue_id_ e) body expires queue_id 0 t
              (lv_ok _ Hl) Hid (or_introl eq_refl)) as (r & t' & E & Hstep & Hres). unfold expires in E. rewrite E. cbn [mbind option_bind].
  pose proof (step_live _ _ _ Hl Hstep) as Hl'. exists body. destruct r as [id|].
  - destruct Hres as (Ha & _ & _ & Hev). assert (long_poll_query_ w1 = Some q) as Eq1 by exact (eq_trans (kp_poll _ _ Hk1) Eq).
    destruct (sh_poll _ _ _ Hs1 q Eq1) as (_ & -> & _). cbn [negb].
    destruct (wakeup_later_ok l x w1 t' Hl' Hs1 Hr1) as (w' & -> & _ & _ & Ho). rewrite Eq1 in Ho. exists w', t'.
    split; [done|]. split; [done|]. split; [done|]. left. split; [exact Ha| |].
    + destruct (_ =? _); [destruct Hev as [lid ->]; by exists lid, id|]. destruct Hev as (_ & lid & ->). exists lid, id. by rewrite last_snoc.
    + destruct Ho as (? & _ & ? & ? & Hle). rewrite (kp_hard _ _ Hk1) in Hle. split; [done|done|by rewrite <- Ew|done].
  - exists w1, t'. destruct Hres as [? ?]. split; [done|]. split; [done|]. split; [done|]. right. by split.
Qed.

(** *** The end *)

Lemma shape_gone l w w3 :
  shape_ok l w → settings_ w3 = settings_ w → webhook_id_ w3 = None → webhook_set_query_ w3 = None → active_webhook_set_query_ w3 = None →
  long_poll_query_ w3 = long_poll_query_ w → long_poll_slot_ w3 = long_poll_slot_ w → long_poll_hard_timeout_ w3 = long_poll_hard_timeout_ w →
  saved (outs w3) = saved (outs w) → shape_ok Gone w3.
Proof.
  intros Hs E1 E2 E3 E4 E5 E6 E7 E8. assert (webhook_is_set w3 = webhook_is_set w) as E9 by (unfold webhook_is_set; by rewrite E1).
  destruct Hs. split; rewrite ?E2, ?E3, ?E4, ?E5, ?E6, ?E7, ?E8, ?E9, ?E1; try done.
  intros q Hq. by destruct (sh_poll0 q Hq) as (? & ? & _ & ?).
Qed.

(** A query that is given up when the client ends. *)
Lemma refuse_query x err (q : option Query) w w0 :
  (∀ q', q = Some q' → fresh q' ∧ had w ≡ₚ q' :: had w0) → (q = None → w0 = w) → closing_error x = Some err → closing_ok err → rest_ok w0 →
  ∃ w', match q with Some q => fail_query_closing x q w0 | None => Some w end = Some w' ∧ kept w0 w' ∧ had w' ≡ₚ had w ∧ rest_ok w'.
Proof.
  intros Hq Hn Ex Herr Hr. destruct q as [q|].
  - destruct (Hq q eq_refl) as [Hf Hh]. destruct (closing_settles x err q w0 Hf Ex Herr) as (a & -> & _).
    destruct (settles_answer q a w0) as [Hk Hrest Hh']. eexists. split; [done|]. split; [done|]. split; [by rewrite Hh', Hh|auto].
  - exists w. split; [done|]. rewrite (Hn eq_refl) in *. done.
Qed.

Lemma unset_same w : webhook_set_query_ w = None → set_webhook_set_query_ None w = w.
Proof. destruct w. cbn. by intros ->. Qed.
Lemma inactive_same w : active_webhook_set_query_ w = None → set_active_webhook_set_query_ None w = w.
Proof. destruct w. cbn. by intros ->. Qed.

(** The queries about webhooks are refused, and the webhook is hung up. *)
Lemma refuse_webhook x l err w :
  shape_ok l w → rest_ok w → closing_error x = Some err → closing_ok err →
  ∃ w1 w2,
    match webhook_set_query_ w with Some q => fail_query_closing x q (set_webhook_set_query_ None w) | None => Some w end = Some w1
    ∧ match active_webhook_set_query_ w1 with Some q => fail_query_closing x q (set_active_webhook_set_query_ None w1) | None => Some w1 end = Some w2
    ∧ rest_ok w2 ∧ had w2 ≡ₚ had w ∧ long_poll_query_ w2 = long_poll_query_ w ∧ webhook_set_query_ w2 = None
    ∧ active_webhook_set_query_ w2 = None ∧ (webhook_is_set w2 = false → webhook_id_ w2 = None)
    ∧ ∀ w3, kept (set_webhook_id_ None w2) w3 → shape_ok Gone w3.
Proof.
  intros Hs Hr Ex Herr.
  destruct (refuse_query x err (webhook_set_query_ w) w (set_webhook_set_query_ None w)) as (w1 & E1 & K & Hh1 & Hr1); try done.
  { intros q Eq. split; [apply (sh_set _ _ _ Hs q Eq)|by apply had_unset]. }
  { apply unset_same. }
  { by apply (rest_same w). }
  destruct (refuse_query x err (active_webhook_set_query_ w1) w1 (set_active_webhook_set_query_ None w1)) as (w2 & E2 & J & Hh2 & Hr2); try done.
  { intros q Eq. split; [|by apply had_inactive]. rewrite (kp_active _ _ K) in Eq. apply (sh_active _ _ _ Hs q Eq). }
  { apply inactive_same. }
  { by apply (rest_same w1). }
  exists w1, w2. split; [done|]. split; [done|]. split; [done|]. split; [by rewrite Hh2|].
  assert (webhook_is_set w2 = webhook_is_set w) as Eset by exact (eq_trans (kept_is_set _ _ J) (kept_is_set _ _ K)).
  destruct K as [K1 K2 _ K4 _ _ K7 K8 K9 K10], J as [J1 J2 _ J4 J5 _ J7 J8 J9 J10]. split; [exact (eq_trans J7 K7)|].
  split; [exact (eq_trans J4 K4)|]. split; [exact J5|].
  split; [rewrite Eset; intros Ew; exact (eq_trans J2 (eq_trans K2 (sh_id _ _ _ Hs Ew)))|].
  intros w3 [L1 L2 _ L4 L5 _ L7 L8 L9 L10].
  apply (shape_gone l w); [done|exact (eq_trans L1 (eq_trans J1 K1))|exact L2|exact (eq_trans L4 (eq_trans J4 K4))|exact (eq_trans L5 J5)
    |exact (eq_trans L7 (eq_trans J7 K7))|exact (eq_trans L8 (eq_trans J8 K8))|exact (eq_trans L9 (eq_trans J9 K9))|exact (eq_trans L10 (eq_trans J10 K10))].
Qed.

Lemma hang_up_ok w2 :
  (webhook_is_set w2 = false → webhook_id_ w2 = None) →
  ∀ w3, w3 = match webhook_is_set w2, webhook_id_ w2 with
             | true, Some token => set_webhook_id_ None (send_bot (HangupWebhook token) w2)
             | _, _ => w2
             end →
  kept (set_webhook_id_ None w2) w3 ∧ had w3 = had w2 ∧ (rest_ok w2 → rest_ok w3).
Proof.
  intros Hid w3 ->. destruct (webhook_is_set w2), (webhook_id_ w2) as [token|] eqn:Ei.
  - split; [split; try done; cbn; by rewrite saved_snoc|]. split; [|by apply rest_same]. exact (had_plain w2 [HangupWebhook token] eq_refl).
  - rewrite id_same by done. split; [reflexivity|done].
  - by specialize (Hid eq_refl).
  - rewrite id_same by done. split; [reflexivity|done].
Qed.

Lemma td_closed_ok x l err (logging_out : bool) w (t : tqueue S) :
  live t → shape_ok l w → rest_ok w → closing_error x = Some err → closing_ok err →
  ∃ w' t', on_bot_closed e x logging_out w t = Some (w', t') ∧ live t' ∧ ends Gone [] w w'
    ∧ webhook_set_query_ w' = None ∧ active_webhook_set_query_ w' = None ∧ long_poll_query_ w' = None.
Proof.
  intros Hl Hs Hr Ex Herr. unfold on_bot_closed.
  destruct (refuse_webhook x l err w Hs Hr Ex Herr) as (w1 & w2 & -> & E2 & Hr2 & Hh2 & Ep2 & Es2 & Ea2 & Hid & Hgone). cbn [mbind option_bind].
  rewrite E2. cbn [mbind option_bind]. cbv zeta.
  set (w3 := match webhook_is_set w2, webhook_id_ w2 with true, Some token => _ | _, _ => w2 end).
  destruct (hang_up_ok w2 Hid w3 eq_refl) as (Hk3 & Hh3 & Hr3). clearbody w3. specialize (Hgone w3 Hk3). specialize (Hr3 Hr2).
  assert (webhook_set_query_ w3 = None ∧ active_webhook_set_query_ w3 = None) as [Es3 Ea3]
    by (split; [exact (eq_trans (kp_set _ _ Hk3) Es2)|exact (eq_trans (kp_active _ _ Hk3) Ea2)]).
  assert (∃ w4 t', match long_poll_query_ w3 with Some _ => long_poll_wakeup e x true w3 t | None => Some (w3, t) end = Some (w4, t')
    ∧ live t' ∧ ends Gone [] w3 w4 ∧ webhook_set_query_ w4 = None ∧ active_webhook_set_query_ w4 = None ∧ long_poll_query_ w4 = None)
    as (w4 & t' & -> & Hl' & [Hs4 Hr4 Hh4] & Es4 & Ea4 & Ep4).
  { destruct (long_poll_query_ w3) as [q|] eqn:Eq.
    - destruct (sh_poll _ _ _ Hgone q Eq) as (Hf & _).
      destruct (wakeup_now_ok Gone x q w3 t Hl (shape_unpolled _ _ _ Hgone) Hr3 Eq Hf) as (w4 & t' & from & updates & E & Hg & He).
      exists w4, t'. split; [done|]. destruct Hg as [_ _ [Hl' _ _ _] _ _ Ho]. cbn in Ho. destruct Ho as [Hk _].
      split; [done|]. split; [done|]. split; [exact (eq_trans (kp_set _ _ Hk) Es3)|]. split; [exact (eq_trans (kp_active _ _ Hk) Ea3)|apply (kp_poll _ _ Hk)].
    - exists w3, t. split; [done|]. split; [done|]. split; [by split|done]. }
  cbn [mbind option_bind]. unfold has_query. rewrite Ep4. cbn [negb CHECK].
  assert (had w4 ≡ₚ had w) as Hh by (by rewrite Hh4, Hh3).
  eexists _, t'. split; [done|]. split; [done|]. destruct logging_out; [|split; [by split|done]].
  split; [|done]. split; [|by apply (rest_same w4)|].
  - destruct Hs4. split; try done. cbn. by rewrite saved_snoc.
  - rewrite <- Hh. unfold had, held, answered_queries. cbn. rewrite bind_app. cbn. by rewrite app_nil_r.
Qed.

Lemma finish_ok (clears : bool) w (t : tqueue S) :
  live t → shape_ok Gone w → rest_ok w →
  ∃ t', finish_closing e clears w t = Some (w, t') ∧ live t' ∧ (clears = true → get_size (tqueue_id_ e) t' = 0).
Proof.
  intros Hl Hs Hr. unfold finish_closing. destruct clears; [|by exists t].
  unfold clear_tqueue. rewrite (sh_gone _ _ _ Hs eq_refl). cbn [CHECK]. rewrite bool_decide_eq_true_2 by done. cbn [CHECK mbind option_bind].
  destruct (clear_all_ok (tqueue_id_ e) t Hl) as (Hl' & Hz & _). by eexists.
Qed.

(** *** The queries that are refused later, and the option of TDLib *)

Lemma conflict_timeout_ok l w :
  shape_ok l w → rest_ok w → ∃ w', conflict_timeout w = Some w' ∧ ends l [] w w' ∧ phase_of w' = phase_of w.
Proof.
  intros Hs Hr. unfold conflict_timeout. destruct (conflicts_ w) as [|[[at_ q] message] conflicts] eqn:Ec; [exists w; by split_and!|].
  pose proof Hr as [Hc Hn]. rewrite Ec in Hc. apply Forall_cons in Hc as [[Hf Hm] Hc].
  set (w1 := set_conflicts_ conflicts w). assert (kept w w1) as Hk by (by split). assert (rest_ok w1) as Hr1 by (by split).
  rewrite answer_bot_ok by done. eexists. split; [done|].
  destruct (ends_answer e l q (AnswerError 409 message []) w1 (shape_kept _ _ _ _ Hk Hs) Hr1) as [? ? Hh].
  split; [|rewrite phase_answer; by apply phase_kept]. split; [done..|]. rewrite Hh. unfold had, held, answered_queries. cbn. rewrite Ec. cbn. solve_Permutation.
Qed.

Lemma allowed_types_ok l types w :
  shape_ok l w → rest_ok w → (∀ v, types = Some v → wrap 64 v ≠ 0) →
  ends l [] w (on_allowed_update_types types w) ∧ phase_of (on_allowed_update_types types w) = phase_of w.
Proof.
  intros Hs Hr Ht. unfold on_allowed_update_types. set (mask := match types with None => _ | Some v => _ end).
  assert (0 < mask < 2 ^ 64) as Hm.
  { unfold mask. destruct types as [v|]; [|vm_compute; split; congruence]. pose proof (wrap_range 64 v ltac:(lia)). specialize (Ht v eq_refl). lia. }
  clearbody mask. split; [|done].
  assert (set_settings_ (set_allowed_update_types_ mask (settings_ w)) w = with_allowed mask [] w) as -> by (unfold with_allowed; cbn; by rewrite app_nil_r).
  split; [by apply shape_allowed|by apply (rest_same w)|by rewrite had_allowed].
Qed.

End Handlers.
