(* ===== verification/BotRun.v ===== *)
(** * Runs of a bot's client: getUpdates and setWebhook

    The reachable states of BotUpdates and what holds in all of them: which
    events abort, every query is in exactly one place, either getUpdates or a webhook
    has the updates, what a query of getUpdates gets and when, what setWebhook
    goes through, and that what is saved of a webhook restores it. *)

From Stdlib Require Import QArith.
From stdpp Require Import gmap.
From S2P Require Import Prelude Slices Integers Utf8 Json IpAddress Query QueryErrors HttpUrl ClientFiles WebhookActor WebhookInfo TQueue TQueueLife BotUpdates BotQueries BotWebhook.

Local Open Scope Z_scope.

Section Run.
Context {S : Type} `{StorageLaws S} (e : bot_env).

(** What the client is given: queries that were not answered, while it is open;
    updates that print; what TDLib and the actor of the webhook of now say; the
    results of the work with the certificate. *)
Definition allowed (x : bot_io) (ev : bot_event) (l : life) (w : bot) : Prop :=
  match ev with
  | GetUpdates q | GetWebhookInfo q => fresh q ∧ l = Open
  | SetWebhook q => asks q ∧ l = Open
  | NewUpdate _ update _ _ => update_ok x update
  | AllowedUpdateTypes types => ∀ v, types = Some v → wrap 64 v ≠ 0
  | Verified token ip => current token w ∧ "/"%char ∉ ip
  | Closed m | CertificateUnlinked m => utf8 m
  | TdClosed _ => l = Closing
  | FinishClosing _ => l = Gone
  | LongPollTimeout => long_poll_slot_ w ≠ None
  | ConflictTimeout | Succeeded | Failed _ | CertificateCopied _ => True
  end.

(** The two events that abort the client: getWebhookInfo while the address of the
    webhook, which setWebhook does not check, is not UTF-8; and a certificate that
    is copied when no query waits for it any more. *)
Definition aborts (ev : bot_event) (w : bot) : Prop :=
  match ev with
  | GetWebhookInfo _ => webhook_url_ (settings_ w) ≠ [] ∧ ¬ utf8 (webhook_ip_address_ (settings_ w))
  | CertificateCopied _ => active_webhook_set_query_ w = None
  | _ => False
  end.

(** The client begins to close at any time; it is gone when TDLib is. *)
Definition later (l l' : life) : Prop := l' = l ∨ l = Open ∧ l' = Closing.
Definition after (ev : bot_event) (l : life) : life := match ev with TdClosed _ => Gone | _ => l end.

(** A client with a wrong token is gone at once. *)
Inductive reach : life → bot → list Query → Prop :=
| reach_start now l : l ≠ Closing → reach l (start_bot now) []
| reach_step l w given l' x ev (t t' : tqueue S) w' :
    reach l w given → later l l' → lives x l' → allowed x ev l' w → live t →
    bot_step e x ev w t = Some (w', t') → reach (after ev l') w' (event_query ev ++ given).

(** How an event changes what the client is at. *)
Definition phase_step (l : life) (ev : bot_event) (p p' : phase) : Prop :=
  match ev with
  | SetWebhook q => requested q p p'
  | Verified _ _ => p' = p ∨ p' = Running ∧ ∃ q, p = Verifying q
  | Closed _ => p' = p ∨ after_close l p p'
  | CertificateUnlinked _ => after_close l p p'
  | CertificateCopied is_copied => ∃ q, p = Copying q ∧ (p' = NoWebhook ∨ is_copied = true ∧ l = Open ∧ p' = Verifying q)
  | TdClosed _ => p' = NoWebhook ∨ p' = Running
  | _ => p' = p
  end.

Lemma demand l l' w : later l l' → shape_ok e l w → shape_ok e l' w.
Proof. intros [-> |[-> ->]] Hs; [done|by apply shape_later]. Qed.

Lemma info_safe w : ¬ (webhook_url_ (settings_ w) ≠ [] ∧ ¬ utf8 (webhook_ip_address_ (settings_ w))) → info_ok w = true.
Proof.
  intros Hn. unfold info_ok, webhook_is_set. case_bool_decide; [done|]. cbn [negb orb].
  destruct (check_utf8 _) eqn:E; [done|]. destruct Hn. split; [done|]. unfold utf8. congruence.
Qed.

Lemma aborts_ok x ev w (t : tqueue S) : live t → aborts ev w → bot_step e x ev w t = None.
Proof.
  intros Hl Ha. destruct ev; try done; cbn [aborts bot_step] in *.
  - apply get_info_aborts; [done|]. destruct Ha as [Hu Hip]. unfold info_ok, webhook_is_set. rewrite bool_decide_eq_false_2 by done.
    unfold utf8 in Hip. by destruct (check_utf8 _).
  - unfold on_webhook_certificate_copied. by rewrite Ha.
Qed.

(** No other event aborts, and every event keeps the invariant. *)
Lemma bot_step_ok x ev l w (t : tqueue S) :
  lives x l → allowed x ev l w → ¬ aborts ev w → live t → shape_ok e l w → rest_ok w →
  ∃ w' t', bot_step e x ev w t = Some (w', t') ∧ live t' ∧ ends e (after ev l) (event_query ev) w w'
    ∧ phase_step l ev (phase_of w) (phase_of w').
Proof.
  intros Hx Ha Hn Hl Hs Hr. destruct ev; cbn [bot_step after event_query phase_step allowed aborts] in *.
  - destruct Ha as [Hf _]. destruct (process_get_updates_ok e l x q w t Hl Hs Hr Hf) as (w' & t' & E & Hl' & He & Hp & _). by exists w', t'.
  - destruct Ha as [Hq ->]. apply set_webhook_ok; try done. unfold lives in Hx. by destruct (closing_error x); [destruct Hx|].
  - destruct Ha as [Hf _]. destruct (get_info_ok e l x q w t Hl Hs Hr Hf (info_safe w Hn)) as (w' & E & He & Hp). by exists w', t.
  - by apply add_update_ok.
  - destruct (poll_timer_ok e l x w t Hl Hs Hr) as (w' & t' & E & Hl' & He & Hp & _). by exists w', t'.
  - destruct (conflict_timeout_ok e l w Hs Hr) as (w' & -> & He & Hp). by exists w', t.
  - destruct (allowed_types_ok e l types w Hs Hr Ha) as [He Hp]. by eexists _, t.
  - destruct Ha as (Hc & Hslash). destruct (verified_ok e l token cached_ip_address w Hs Hr Hc Hslash) as (w' & -> & He & Hp).
    exists w', t. split; [done|]. split; [done|]. split; [done|].
    destruct (token =? _); [|left; by rewrite Hp]. destruct Hp as (-> & Hp & _). destruct Hp as [Hp|Hp]; [by left|by right].
  - destruct (success_ok e l x w Hs Hr) as [He Hp]. by eexists _, t.
  - destruct (error_ok e l x message w t Hl Hs Hr) as (w' & -> & He & Hp). by exists w', t.
  - destruct (webhook_closed_ok e x l message w t Hl Hx Hs Hr Ha) as (w' & t' & E & Hl' & He & Hp). exists w', t'.
    split; [done|]. split; [done|]. split; [done|]. destruct (has_webhook_certificate_ _); [by left|by right].
  - by apply closed_ok.
  - destruct (active_webhook_set_query_ w) as [q|] eqn:Eq; [|done].
    destruct (copied_ok e x l is_copied q w Hx Hs Hr Eq) as (w' & -> & He & Hp). exists w', t. split; [done|]. split; [done|]. split; [done|].
    exists q. split; [unfold phase_of; by rewrite (set_excludes e l w q Hs Eq), Eq|done].
  - subst l. unfold lives in Hx. destruct (closing_error x) as [err|] eqn:Ex; [|done]. destruct Hx as [_ Herr].
    destruct (td_closed_ok e x Closing err logging_out w t Hl Hs Hr Ex Herr) as (w' & t' & E & Hl' & He & E1 & E2 & _). exists w', t'.
    split; [done|]. split; [done|]. split; [done|]. unfold phase_of. rewrite E1, E2. destruct (webhook_is_set w'); auto.
  - subst l. destruct (finish_ok e clears w t Hl Hs Hr) as (t' & E & Hl' & _). by exists w, t'.
Qed.

Lemma bot_stepped x ev l w (t : tqueue S) w' t' :
  lives x l → allowed x ev l w → live t → shape_ok e l w → rest_ok w → bot_step e x ev w t = Some (w', t') →
  ends e (after ev l) (event_query ev) w w' ∧ phase_step l ev (phase_of w) (phase_of w').
Proof.
  intros Hx Ha Hl Hs Hr E. destruct (bot_step_ok x ev l w t Hx Ha) as (w2 & t2 & E2 & _ & ?); try done.
  - intros Hab. by rewrite (aborts_ok x ev w t Hl Hab) in E.
  - rewrite E in E2. by injection E2 as <- <-.
Qed.

Lemma start_ok l now : l ≠ Closing → shape_ok e l (start_bot now) ∧ rest_ok (start_bot now).
Proof.
  intros Hl. split.
  - by split.
  - split; [constructor|]. vm_compute. split; congruence.
Qed.

Lemma bot_reach_ok l w given : reach l w given → shape_ok e l w ∧ rest_ok w ∧ had w ≡ₚ given.
Proof.
  induction 1 as [now l Hl|l w given l' x ev t t' w' _ (Hs & Hr & Hh) Hlater Hx Ha Hlt E].
  - destruct (start_ok l now Hl) as [Hs Hr]. by split.
  - destruct (bot_stepped x ev l' w t w' t' Hx Ha Hlt (demand _ _ _ Hlater Hs) Hr E) as ([Hs2 Hr2 Hh2] & _).
    split; [done|]. split; [done|]. by rewrite Hh2, Hh.
Qed.

(** C8: In every run of a bot's client exactly two events abort it: getWebhookInfo while a webhook is set
    whose ip_address, which setWebhook does not check, is not UTF-8 (Client.cpp:6637); and the copy of a
    certificate that ends when no query waits for it any more, as after on_closed (CHECK of
    Client.cpp:17318). No other event fails a check, and after it every query of getUpdates, setWebhook,
    deleteWebhook and getWebhookInfo is in exactly one place: answered once, about to be refused, or held in
    the one field for it. Queries come unanswered and while the client is open; the messages of other actors
    (errors, a closed webhook) are UTF-8, updates print, and an address that a webhook was verified under
    has no slash. *)
Theorem bot_run_safe l w given l' x ev t :
  reach l w given → later l l' → lives x l' → allowed x ev l' w → live t →
  (aborts ev w → bot_step e x ev w t = None)
  ∧ (¬ aborts ev w →
     ∃ w' t', bot_step e x ev w t = Some (w', t') ∧ live t'
       ∧ answered_queries w' ++ option_list (webhook_set_query_ w') ++ option_list (active_webhook_set_query_ w')
         ++ option_list (long_poll_query_ w') ++ ((fun c => c.1.2) <$> conflicts_ w') ≡ₚ event_query ev ++ given).
Proof.
  intros Hreach Hlater Hx Ha Hlt. destruct (bot_reach_ok l w given Hreach) as (Hs & Hr & Hh). split; [by apply aborts_ok|]. intros Hn.
  destruct (bot_step_ok x ev l' w t Hx Ha Hn Hlt (demand _ _ _ Hlater Hs) Hr) as (w' & t' & E & Hlt' & [_ _ Hh'] & _).
  exists w', t'. split; [done|]. split; [done|]. rewrite <- Hh. exact Hh'.
Qed.

(** C9: The updates of a bot have one consumer: while a query of getUpdates waits there is no webhook, no
    actor of one, and no query that sets one. *)
Theorem one_consumer l w given q :
  reach l w given → long_poll_query_ w = Some q →
  webhook_url_ (settings_ w) = [] ∧ webhook_id_ w = None ∧ webhook_set_query_ w = None ∧ active_webhook_set_query_ w = None.
Proof.
  intros Hreach Eq. destruct (bot_reach_ok l w given Hreach) as (Hs & _ & _).
  destruct (sh_poll _ _ _ Hs q Eq) as (_ & Eset & Ea & _). split.
  - unfold webhook_is_set in Eset. by destruct (bool_decide_reflect (webhook_url_ (settings_ w) = [])).
  - split; [by apply (sh_id _ _ _ Hs)|]. split; [|done]. destruct (webhook_set_query_ w) as [q'|] eqn:E; [|done].
    destruct (sh_set _ _ _ Hs q' E) as (_ & ? & _). congruence.
Qed.

(** A query of getUpdates got its updates, or waits for them. *)
Record served (x : bot_io) (q : Query) (w : bot) (t : tqueue S) (w' : bot) (t' : tqueue S) (offset limit timeout from : Z) (updates : list Event) : Prop := {
  sv_from : from = asked e offset (skipped e offset t)
            ∨ from = get_head (tqueue_id_ e) (skipped e offset t) ∧ refused e (asked e offset (skipped e offset t)) (skipped e offset t);
  sv_updates : updates = take (Z.to_nat limit) (pending (tqueue_id_ e) from (get_unix_time e (now_ x)) (skipped e offset t));
  sv_taken : taken e from (get_unix_time e (now_ x)) (skipped e offset t) t';
  sv_outcome :
    if negb (timeout =? 0) && bool_decide (updates = []) then
      long_poll_query_ w' = Some q ∧ long_poll_slot_ w' = Some (now_ x + inject_Z timeout)%Q
      ∧ long_poll_hard_timeout_ w' = (now_ x + inject_Z timeout)%Q
      ∧ long_poll_offset_ w' = asked e offset (skipped e offset t) ∧ long_poll_limit_ w' = limit
    else ∃ pre v, outs w' = outs w ++ pre ++ [Answered q (AnswerOk v [])] ∧ JsonUpdates updates = Some v ∧ pre ≫= out_query = [];
}.

(** C10: getUpdates is refused with error 409 while a webhook is set or being set; otherwise it is answered
    with the first live updates from the offset, those before are gone and those from it on stay, or it
    waits when there are none. *)
Theorem get_updates_outcome w given q x t :
  reach Open w given → closing_error x = None → fresh q → live t →
  ∃ w' t', bot_step e x (GetUpdates q) w t = Some (w', t') ∧ live t'
    ∧ if webhook_busy w then t' = t ∧ conflicts x conflict_message q w w'
      else ∃ offset limit timeout from updates, asks_for x q w offset limit timeout ∧ served x q w t w' t' offset limit timeout from updates.
Proof.
  intros Hreach Hx Hf Hlt. destruct (bot_reach_ok Open w given Hreach) as (Hs & Hr & _). cbn [bot_step].
  destruct (process_get_updates_ok e Open x q w t Hlt Hs Hr Hf) as (w' & t' & E & Hlt' & _ & _ & Ho). exists w', t'. split; [done|]. split; [done|].
  destruct (webhook_busy w); [done|]. destruct Ho as (w1 & offset & limit & timeout & from & updates & pre & [G1 G2 G3 _ _ G6] & Haf & Eo & Hp & _).
  exists offset, limit, timeout, from, updates. split; [done|]. split; [done|done|done|].
  destruct (negb (timeout =? 0) && bool_decide (updates = [])).
  - by destruct G6 as [? ? ? (? & ? & _) _].
  - destruct G6 as [_ (pre' & v & Eo' & Ev & Hp')]. exists (pre ++ pre'), v. rewrite Eo', Eo, <- !(assoc_L (++)). split; [done|]. split; [done|].
    by rewrite bind_app, (plain_queries pre), Hp'.
Qed.

(** C11: A query that waits for updates has a timer that is not later than its time. When an update of an
    allowed type comes (add_update), it is the last event of the queue and the query still waits, with a
    timer that is at most LONG_POLL_WAIT_AFTER (1 ms) away and not later than the query's time, which no
    update makes later and which the first one puts at most LONG_POLL_MAX_DELAY (2 ms) away; or TQueue::push
    refuses the update, and the queue, the query and its timer are as before. When the timer fires, the
    query is answered at once with the updates that do_get_updates finds: the first live ones from the
    offset that the query waits for, or from the head of the queue if the queue refuses that offset, at most
    its limit; those before are gone and those from it on stay. *)
Theorem long_poll_answered l w given q :
  reach l w given → long_poll_query_ w = Some q →
  (∃ at_, long_poll_slot_ w = Some at_ ∧ at_ <= long_poll_hard_timeout_ w)%Q
  ∧ (∀ x ty update timeout queue_id t, live t → update_ok x update →
       Z.testbit (allowed_update_types_ (settings_ w)) (update_value ty) = true →
       let expires := to_signed 32 (get_unix_time e (now_ x) + timeout) in
       ∃ text w' t', update_text ty update = Some text ∧ bot_step e x (NewUpdate ty update timeout queue_id) w t = Some (w', t') ∧ live t'
         ∧ (stored e x text expires queue_id q w t w' t' ∨ not_stored e text expires w t w' t'))
  ∧ (∀ x t, live t → ∃ w' t' from updates, bot_step e x LongPollTimeout w t = Some (w', t') ∧ live t' ∧ long_poll_query_ w' = None
       ∧ served x q w t w' t' (long_poll_offset_ w) (long_poll_limit_ w) 0 from updates).
Proof.
  intros Hreach Eq. destruct (bot_reach_ok l w given Hreach) as (Hs & Hr & _). split; [|split].
  - by destruct (sh_poll _ _ _ Hs q Eq) as (_ & _ & _ & ?).
  - intros x ty update timeout queue_id t Hlt Hu Hty. by apply (add_update_wakes e l).
  - intros x t Hlt. cbn [bot_step]. destruct (poll_timer_ok e l x w t Hlt Hs Hr) as (w' & t' & E & Hlt' & _ & _ & Ho). rewrite Eq in Ho.
    destruct Ho as (from & updates & [G1 G2 G3 _ _ G6]). cbn in G6. destruct G6 as [Hk Hans].
    exists w', t', from, updates. split; [done|]. split; [done|]. split; [exact (kp_poll _ _ Hk)|]. by split.
Qed.


(** What the client of the next start makes of a saved text. *)
Definition restored (default_max : Z) (token value : slice) : option webhook :=
  webhook_settings (local_mode_ e) default_max DEFAULT_ALLOWED_UPDATE_TYPES (get_webhook_restore_query token value).

Lemma restored_as s value :
  saved_as e s value → ∃ allowed, ∀ default_max token, restored default_max token value = Some (set_allowed_update_types_ allowed s).
Proof.
  intros (_ & [] & allowed & Ha & ->). exists allowed. intros default_max token. unfold restored.
  apply (restored_settings (inet_pton6 e) (local_mode_ e)). by split.
Qed.

Lemma running_shape w : phase_of w = Running → webhook_set_query_ w = None ∧ webhook_is_set w = true.
Proof.
  unfold phase_of. destruct (webhook_set_query_ w); [by destruct (webhook_query_type_ w)|].
  destruct (active_webhook_set_query_ w); [done|]. by destruct (webhook_is_set w).
Qed.

(** A webhook that was just verified is saved as it is. *)
Lemma verified_restores l x token ip w (t : tqueue S) w' t' q :
  l ≠ Gone → allowed x (Verified token ip) l w → shape_ok e l w → rest_ok w → bot_step e x (Verified token ip) w t = Some (w', t') →
  phase_of w = Verifying q → phase_of w' = Running →
  ∃ value, saved (outs w') = Some value ∧ ∀ default_max token, restored default_max token value = Some (settings_ w').
Proof.
  intros Hl [Hc Hslash] Hs Hr E Ep Ep'. cbn [bot_step] in E.
  destruct (verified_ok e l token ip w Hs Hr Hc Hslash) as (w3 & E3 & [Hs3 _ _] & Ho). rewrite E3 in E. injection E as <- <-.
  destruct (token =? webhook_generation_ w); [|subst w3; congruence]. destruct Ho as (_ & _ & Ho).
  assert (webhook_set_query_ w = Some q) as Eq.
  { unfold phase_of in Ep. destruct (webhook_set_query_ w) as [q'|]; [destruct (webhook_query_type_ w); congruence|].
    destruct (active_webhook_set_query_ w); [congruence|]. destruct (webhook_is_set w); congruence. }
  destruct (Ho q Eq) as [_ Hv]. eexists. split; [exact Hv|]. intros default_max token'. unfold restored.
  apply (restored_settings (inet_pton6 e) (local_mode_ e)).
  destruct (running_shape _ Ep') as [En Eset]. destruct (sh_settings _ _ _ Hs3 Eset). pose proof (sh_allowed _ _ _ Hs3).
  split; try done. by apply (sh_verified _ _ _ Hs3).
Qed.

(** C13: While a webhook runs and TDLib is there, the database has a text for the bot, and the query that
    the manager of the next start makes of it (get_webhook_restore_query) gives exactly the settings of the
    client's webhook: URL, certificate, connections, address, fixed address and secret token. The mask of
    allowed updates is that of the time it was saved, since TDLib may change it later; right after a
    setWebhook was verified it is the client's mask too. At any other time the text, if there is one, is of
    that kind for the webhook that is set, or it is of no webhook: the query that is made of it has an empty
    URL. *)
Theorem saved_webhook_restores l w given :
  reach l w given →
  (l ≠ Gone → phase_of w = Running →
     ∃ value allowed, saved (outs w) = Some value
       ∧ ∀ default_max token, restored default_max token value = Some (set_allowed_update_types_ allowed (settings_ w)))
  ∧ (∀ value, saved (outs w) = Some value →
       (webhook_is_set w = true
        ∧ ∃ allowed, ∀ default_max token, restored default_max token value = Some (set_allowed_update_types_ allowed (settings_ w)))
       ∨ ∀ token, arg (get_webhook_restore_query token value) (lit "url") = [])
  ∧ (∀ l' x token ip (t : tqueue S) w' t' q,
       later l l' → lives x l' → l' ≠ Gone → allowed x (Verified token ip) l' w → bot_step e x (Verified token ip) w t = Some (w', t') →
       phase_of w = Verifying q → phase_of w' = Running →
       ∃ value, saved (outs w') = Some value ∧ ∀ default_max token, restored default_max token value = Some (settings_ w')).
Proof.
  intros Hreach. destruct (bot_reach_ok l w given Hreach) as (Hs & Hr & _). split_and!.
  - intros Hl [En Eset]%running_shape. destruct (sh_kept _ _ _ Hs Hl En Eset) as (value & Hv & [allowed Hres]%restored_as).
    by exists value, allowed.
  - intros value Hv. destruct (sh_saved _ _ _ Hs value Hv) as [Has|(allowed & Ha & ->)].
    + left. split; [|by apply restored_as]. unfold webhook_is_set. by rewrite (saved_set _ _ _ Has).
    + right. intros token. by apply restored_nothing.
  - intros l' x token ip t w' t' q Hlater Hx Hl Ha E Ep Ep'. eapply verified_restores; try done. by eapply demand.
Qed.

End Run.

(** ** A run *)

Section Demo.

Definition bot_demo_env (queue_id : Z) : bot_env := mkBotEnv queue_id false 40 (lit "/bot/") Qround.Qfloor demo_pton6.
Definition bot_demo_io (now : Q) : bot_io := mkBotIo now None 0 true (fun _ => 2000001).
Definition bot_demo_query (method : slice) (args : list (slice * slice)) : Query := new_query (lit "1:x") false method args [] [] ip_invalid false.
Definition bot_demo_poll : Query := bot_demo_query (lit "getupdates") [(lit "timeout", lit "10")].
Definition bot_demo_set : Query := bot_demo_query (lit "setwebhook") [(lit "url", lit "https://example.com/hook")].

Definition bot_demo_step (now : Q) (ev : bot_event) (s : option (bot * tqueue TQueueMemoryStorage)) : option (bot * tqueue TQueueMemoryStorage) :=
  '(w, t) ← s; bot_step (bot_demo_env 8) (bot_demo_io now) ev w t.
Definition bot_demo_start := Some (start_bot 0, demo).
Definition bot_demo_waits := bot_demo_step 1 (GetUpdates bot_demo_poll) bot_demo_start.
Definition bot_demo_verifies := bot_demo_step 2 (SetWebhook bot_demo_set) bot_demo_waits.
Definition bot_demo_runs := bot_demo_step 3 (Verified 2 (lit "1.2.3.4")) bot_demo_verifies.

Definition bot_demo_reached (s : option (bot * tqueue TQueueMemoryStorage)) (given : list Query) : Prop :=
  ∃ w t, s = Some (w, t) ∧ reach (S := TQueueMemoryStorage) (bot_demo_env 8) Open w given ∧ live t.

Lemma bot_demo_reach now ev s given :
  bot_demo_reached s given → (∀ w t, s = Some (w, t) → allowed (bot_demo_io now) ev Open w) → (∀ w, ¬ aborts ev w) → after ev Open = Open →
  bot_demo_reached (bot_demo_step now ev s) (event_query ev ++ given).
Proof.
  intros (w & t & -> & Hr & Hl) Ha Hn Hev. destruct (bot_reach_ok _ _ _ _ Hr) as (Hs & Hrest & _). specialize (Ha w t eq_refl).
  destruct (bot_step_ok (bot_demo_env 8) (bot_demo_io now) ev Open w t eq_refl Ha (Hn w) Hl Hs Hrest) as (w' & t' & E & Hl' & _).
  exists w', t'. split; [exact E|]. split; [|done]. rewrite <- Hev.
  by apply (reach_step (bot_demo_env 8) Open w given Open (bot_demo_io now) ev t t' w'); [|left|..].
Qed.

Lemma bot_demo_start_reached : bot_demo_reached bot_demo_start [].
Proof. exists (start_bot 0), demo. split; [done|]. split; [by apply reach_start|exact demo_live]. Qed.

Lemma bot_demo_waits_reached : bot_demo_reached bot_demo_waits [bot_demo_poll].
Proof. apply (bot_demo_reach 1 (GetUpdates bot_demo_poll) bot_demo_start []); [exact bot_demo_start_reached| |by intros ? []|done]. intros w t _. by split. Qed.

Lemma bot_demo_asks : asks bot_demo_set.
Proof. by split. Qed.

Lemma bot_demo_verifies_reached : bot_demo_reached bot_demo_verifies [bot_demo_set; bot_demo_poll].
Proof.
  apply (bot_demo_reach 2 (SetWebhook bot_demo_set) bot_demo_waits [bot_demo_poll]); [exact bot_demo_waits_reached| |by intros ? []|done].
  intros w t _. split; [exact bot_demo_asks|done].
Qed.

Lemma bot_computed {A} (f : bot → A) (s : option (bot * tqueue TQueueMemoryStorage)) w t a :
  s = Some (w, t) → (f ∘ fst) <$> s = Some a → f w = a.
Proof. intros -> E. by injection E. Qed.

(** A webhook whose address is no UTF-8: the server aborts when it is asked about. *)
Definition bot_demo_bad : Query :=
  bot_demo_query (lit "setwebhook") [(lit "url", lit "https://example.com/hook"); (lit "ip_address", [chr 255])].
Definition bot_demo_info : Query := bot_demo_query (lit "getwebhookinfo") [].
Definition bot_demo_bad_set := bot_demo_step 1 (SetWebhook bot_demo_bad) bot_demo_start.

Lemma bot_demo_bad_reached : bot_demo_reached bot_demo_bad_set [bot_demo_bad].
Proof. apply (bot_demo_reach 1 (SetWebhook bot_demo_bad) bot_demo_start []); [exact bot_demo_start_reached| |by intros ? []|done]. intros w t _. by split. Qed.

Lemma bot_demo_bad_aborts w t : bot_demo_bad_set = Some (w, t) → aborts (GetWebhookInfo bot_demo_info) w.
Proof.
  intros E. split.
  - assert (webhook_url_ (settings_ w) = lit "https://example.com/hook") as ->; [|done].
    refine (bot_computed (fun w => webhook_url_ (settings_ w)) _ _ _ _ E _). by vm_compute.
  - assert (webhook_ip_address_ (settings_ w) = [chr 255]) as ->; [|done].
    refine (bot_computed (fun w => webhook_ip_address_ (settings_ w)) _ _ _ _ E _). by vm_compute.
Qed.

Lemma bot_run_safe_witness :
  (∃ w t w' t', bot_demo_waits = Some (w, t) ∧ bot_step (bot_demo_env 8) (bot_demo_io 2) (SetWebhook bot_demo_set) w t = Some (w', t')
    ∧ answered_queries w' ++ option_list (webhook_set_query_ w') ++ option_list (active_webhook_set_query_ w')
      ++ option_list (long_poll_query_ w') ++ ((fun c => c.1.2) <$> conflicts_ w') ≡ₚ [bot_demo_set; bot_demo_poll])
  ∧ ∃ w t, bot_demo_bad_set = Some (w, t) ∧ bot_step (bot_demo_env 8) (bot_demo_io 2) (GetWebhookInfo bot_demo_info) w t = None.
Proof.
  split.
  - destruct bot_demo_waits_reached as (w & t & E & Hr & Hl).
    destruct (bot_run_safe (bot_demo_env 8) Open w [bot_demo_poll] Open (bot_demo_io 2) (SetWebhook bot_demo_set) t Hr) as [_ Hsafe];
      [by left|done|exact (conj bot_demo_asks eq_refl)|exact Hl|].
    destruct (Hsafe (fun Ha => Ha)) as (w' & t' & E' & _ & Hp). exists w, t, w', t'. split; [exact E|]. split; [exact E'|exact Hp].
  - destruct bot_demo_bad_reached as (w & t & E & Hr & Hl).
    destruct (bot_run_safe (bot_demo_env 8) Open w [bot_demo_bad] Open (bot_demo_io 2) (GetWebhookInfo bot_demo_info) t Hr) as [Habort _];
      [by left|done|by split|exact Hl|].
    exists w, t. split; [exact E|]. exact (Habort (bot_demo_bad_aborts w t E)).
Defined.

Lemma bot_demo_polls w t : bot_demo_waits = Some (w, t) → long_poll_query_ w = Some bot_demo_poll.
Proof. intros E. refine (bot_computed long_poll_query_ _ _ _ _ E _). by vm_compute. Qed.

Lemma one_consumer_witness :
  ∃ w t, bot_demo_waits = Some (w, t) ∧ long_poll_query_ w = Some bot_demo_poll
    ∧ webhook_url_ (settings_ w) = [] ∧ webhook_id_ w = None ∧ webhook_set_query_ w = None ∧ active_webhook_set_query_ w = None.
Proof.
  destruct bot_demo_waits_reached as (w & t & E & Hr & Hl). exists w, t. split; [exact E|]. split; [exact (bot_demo_polls w t E)|].
  exact (one_consumer (bot_demo_env 8) Open w [bot_demo_poll] bot_demo_poll Hr (bot_demo_polls w t E)).
Defined.

Lemma get_updates_outcome_witness :
  ∃ w' t', bot_step (bot_demo_env 7) (bot_demo_io 5) (GetUpdates bot_demo_poll) (start_bot 0) demo = Some (w', t') ∧ live t'
    ∧ ∃ offset limit timeout from updates, asks_for (bot_demo_io 5) bot_demo_poll (start_bot 0) offset limit timeout
        ∧ served (bot_demo_env 7) (bot_demo_io 5) bot_demo_poll (start_bot 0) demo w' t' offset limit timeout from updates.
Proof.
  exact (get_updates_outcome (bot_demo_env 7) (start_bot 0) [] bot_demo_poll (bot_demo_io 5) demo
           (reach_start (bot_demo_env 7) 0 Open ltac:(discriminate)) eq_refl eq_refl demo_live).
Defined.

Definition bot_demo_update : bot_event := NewUpdate UMessage (JsonObject [(lit "a", JsonNumber (lit "1"))]) 100 0.

Lemma bot_demo_update_ok now : update_ok (bot_demo_io now) (JsonObject [(lit "a", JsonNumber (lit "1"))]).
Proof. split; [done|]. intros n. split; vm_compute; congruence. Qed.

(** The timer, and an update that comes before. *)
Lemma long_poll_answered_witness :
  ∃ w t, bot_demo_waits = Some (w, t)
    ∧ (∃ w' t' text, bot_step (bot_demo_env 8) (bot_demo_io 2) bot_demo_update w t = Some (w', t')
         ∧ (stored (bot_demo_env 8) (bot_demo_io 2) text 102 0 bot_demo_poll w t w' t' ∨ not_stored (bot_demo_env 8) text 102 w t w' t'))
    ∧ ∃ w' t' from updates, bot_step (bot_demo_env 8) (bot_demo_io 11) LongPollTimeout w t = Some (w', t') ∧ long_poll_query_ w' = None
        ∧ served (bot_demo_env 8) (bot_demo_io 11) bot_demo_poll w t w' t' (long_poll_offset_ w) (long_poll_limit_ w) 0 from updates.
Proof.
  destruct bot_demo_waits_reached as (w & t & E & Hr & Hl). exists w, t. split; [exact E|].
  destruct (long_poll_answered (bot_demo_env 8) Open w [bot_demo_poll] bot_demo_poll Hr (bot_demo_polls w t E)) as (_ & Hnew & Hlate).
  assert (Z.testbit (allowed_update_types_ (settings_ w)) (update_value UMessage) = true) as Hty.
  { refine (bot_computed (fun w => Z.testbit (allowed_update_types_ (settings_ w)) (update_value UMessage)) _ _ _ _ E _). by vm_compute. }
  split.
  - destruct (Hnew (bot_demo_io 2) UMessage _ 100 0 t Hl (bot_demo_update_ok 2) Hty) as (text & w' & t' & _ & E' & _ & Ho).
    exists w', t', text. split; [exact E'|exact Ho].
  - destruct (Hlate (bot_demo_io 11) t Hl) as (w' & t' & from & updates & E' & _ & Hq & Hserved).
    exists w', t', from, updates. split; [exact E'|]. split; [exact Hq|exact Hserved].
Defined.

Definition is_verifying (w : bot) : bool := webhook_is_set w && match webhook_query_type_ w with Verify => true | Cancel => false end.

Lemma bot_demo_current w t : bot_demo_verifies = Some (w, t) → current 2 w ∧ phase_of w = Verifying bot_demo_set.
Proof.
  intros E. assert (is_verifying w = true) as Hv by (refine (bot_computed is_verifying _ _ _ _ E _); by vm_compute).
  apply andb_true_iff in Hv as [Hset Hv]. split; [|refine (bot_computed phase_of _ _ _ _ E _); by vm_compute].
  intros _. split; [done|]. right. by destruct (webhook_query_type_ w).
Qed.

Definition bot_demo_verified : bot_event := Verified 2 (lit "1.2.3.4").

Lemma bot_demo_no_slash : "/"%char ∉ lit "1.2.3.4".
Proof. rewrite list_elem_of_In. vm_compute. intuition discriminate. Qed.

Lemma bot_demo_verified_allowed w t : bot_demo_verifies = Some (w, t) → allowed (bot_demo_io 3) bot_demo_verified Open w.
Proof. intros E. split; [apply (bot_demo_current w t E)|exact bot_demo_no_slash]. Qed.


Lemma bot_demo_runs_reached : bot_demo_reached bot_demo_runs [bot_demo_set; bot_demo_poll].
Proof.
  apply (bot_demo_reach 3 bot_demo_verified bot_demo_verifies [bot_demo_set; bot_demo_poll]); [exact bot_demo_verifies_reached| |by intros ? []|done].
  exact bot_demo_verified_allowed.
Qed.

Lemma bot_demo_running w t : bot_demo_runs = Some (w, t) → phase_of w = Running.
Proof. intros E. refine (bot_computed phase_of _ _ _ _ E _). by vm_compute. Qed.

Lemma saved_webhook_restores_witness :
  ∃ w t allowed, bot_demo_runs = Some (w, t) ∧ saved (outs w) = Some (lit "#maxc40/#ip1.2.3.4/https://example.com/hook")
    ∧ restored (bot_demo_env 8) 40 (lit "1:x") (lit "#maxc40/#ip1.2.3.4/https://example.com/hook")
      = Some (set_allowed_update_types_ allowed (settings_ w)).
Proof.
  destruct bot_demo_runs_reached as (w & t & E & Hr & Hl).
  assert (saved (outs w) = Some (lit "#maxc40/#ip1.2.3.4/https://example.com/hook")) as Hs
    by (refine (bot_computed (fun w => saved (outs w)) _ _ _ _ E _); by vm_compute).
  destruct (saved_webhook_restores (bot_demo_env 8) Open w _ Hr) as (Hruns & _ & _).
  destruct (Hruns ltac:(discriminate) (bot_demo_running w t E)) as (value & allowed & Ev & Hres). rewrite Hs in Ev. injection Ev as <-.
  exists w, t, allowed. split; [exact E|]. split; [exact Hs|exact (Hres 40 (lit "1:x"))].
Defined.

End Demo.
