(* ===== verification/ClientManager.v ===== *)
(** * The manager of the bots' clients

    The actor [ClientManager] of [server/ClientManager.cpp]: it admits file
    streams, routes queries to the bots' clients, creates the clients and
    shuts everything down.  The container of clients is any implementation of
    [Container.IdStore]; the flood control is [FloodControl]'s; clocks, the
    disk emergency flag, the webhook database and the system's reading of
    addresses are arguments.  Statistics and memory dumps are not modelled. *)

From Stdlib Require Import QArith Qround.
From S2P Require Import Prelude Slices Integers IpAddress Query Container FloodControl WebhookInfo.

Local Open Scope Z_scope.

(** ** State *)

(** [ClientInfo]; [client_] tells whether it owns the client's actor. *)
Record ClientInfo := mkInfo { token_ : slice; tqueue_id_ : Z; client_ : bool }.
#[export] Instance ClientInfo_inhabited : Inhabited ClientInfo := populate (mkInfo [] 0 false).

Record TokenRange := mkRange { rem_ : Z; mod_ : Z }.

(** Called with any [int64], which becomes unsigned. *)
Definition token_range (r : TokenRange) (x : Z) : bool := wrap 64 x mod mod_ r =? rem_ r.

(** What the manager is started with. *)
Record manager_env := mkManagerEnv {
  file_streaming_enabled_ : bool;
  file_stream_max_connections_ : Z;
  local_mode_ : bool;
  token_range_ : TokenRange;
  (** [webhook_db_->get] and the reading of an address by the system. *)
  webhook_db_get : slice → slice;
  normalize_ip : slice → slice
}.

(** Messages to other actors, and answered queries. *)
Inductive maction :=
| StreamError (stream code : Z) (message : slice)
| StreamSetClient (stream client : Z)
| ClientStartFileStream (client stream stream_id : Z) (file_id : slice) (expected_size : Z)
| CreateClient (client : Z) (token : slice) (is_test_dc : bool) (tqueue_id : Z)
| ClientSend (client : Z) (q : Query)
| ClientClose (client : Z)
| QueryAnswered (q : Query)
| PromiseSet (promise : Z)
| WatchdogKick
| WatchdogStop
| SetTimeout (seconds : Q)
| CancelTimeout
| TQueueClose
| WebhookDbClose
| StopManager.

Section Manager.
Context {C : Type} `{IdStore ClientInfo C} (e : manager_env).

Record manager := mkManager {
  clients_ : C;
  token_to_id_ : gmap slice Z;
  flood_controls_ : gmap slice FloodControlFast;
  global_flood_control_ : FloodControlFast;
  is_global_flood_control_enabled_ : bool;
  active_client_count_ : gmap Z Z;
  close_flag_ : bool;
  close_db_started_ : bool;
  close_finished_ : bool;
  active_file_stream_ids_ : gset Z;
  active_file_streams_by_token_ : gmap slice Z;
  active_file_stream_token_ : gmap Z slice;
  close_promises_ : list Z;
  next_tqueue_gc_time_ : Q;
  tqueue_deleted_events_ : Z;
  last_tqueue_deleted_events_ : Z;
  outs : list maction
}.

Definition set_clients_ (v : C) (m : manager) : manager :=
  mkManager v (token_to_id_ m) (flood_controls_ m) (global_flood_control_ m) (is_global_flood_control_enabled_ m) (active_client_count_ m) (close_flag_ m) (close_db_started_ m) (close_finished_ m) (active_file_stream_ids_ m) (active_file_streams_by_token_ m) (active_file_stream_token_ m) (close_promises_ m) (next_tqueue_gc_time_ m) (tqueue_deleted_events_ m) (last_tqueue_deleted_events_ m) (outs m).
Definition set_token_to_id_ (v : gmap slice Z) (m : manager) : manager :=
  mkManager (clients_ m) v (flood_controls_ m) (global_flood_control_ m) (is_global_flood_control_enabled_ m) (active_client_count_ m) (close_flag_ m) (close_db_started_ m) (close_finished_ m) (active_file_stream_ids_ m) (active_file_streams_by_token_ m) (active_file_stream_token_ m) (close_promises_ m) (next_tqueue_gc_time_ m) (tqueue_deleted_events_ m) (last_tqueue_deleted_events_ m) (outs m).
Definition set_flood_controls_ (v : gmap slice FloodControlFast) (m : manager) : manager :=
  mkManager (clients_ m) (token_to_id_ m) v (global_flood_control_ m) (is_global_flood_control_enabled_ m) (active_client_count_ m) (close_flag_ m) (close_db_started_ m) (close_finished_ m) (active_file_stream_ids_ m) (active_file_streams_by_token_ m) (active_file_stream_token_ m) (close_promises_ m) (next_tqueue_gc_time_ m) (tqueue_deleted_events_ m) (last_tqueue_deleted_events_ m) (outs m).
Definition set_global_flood_control_ (v : FloodControlFast) (m : manager) : manager :=
  mkManager (clients_ m) (token_to_id_ m) (flood_controls_ m) v (is_global_flood_control_enabled_ m) (active_client_count_ m) (close_flag_ m) (close_db_started_ m) (close_finished_ m) (active_file_stream_ids_ m) (active_file_streams_by_token_ m) (active_file_stream_token_ m) (close_promises_ m) (next_tqueue_gc_time_ m) (tqueue_deleted_events_ m) (last_tqueue_deleted_events_ m) (outs m).
Definition set_is_global_flood_control_enabled_ (v : bool) (m : manager) : manager :=
  mkManager (clients_ m) (token_to_id_ m) (flood_controls_ m) (global_flood_control_ m) v (active_client_count_ m) (close_flag_ m) (close_db_started_ m) (close_finished_ m) (active_file_stream_ids_ m) (active_file_streams_by_token_ m) (active_file_stream_token_ m) (close_promises_ m) (next_tqueue_gc_time_ m) (tqueue_deleted_events_ m) (last_tqueue_deleted_events_ m) (outs m).
Definition set_active_client_count_ (v : gmap Z Z) (m : manager) : manager :=
  mkManager (clients_ m) (token_to_id_ m) (flood_controls_ m) (global_flood_control_ m) (is_global_flood_control_enabled_ m) v (close_flag_ m) (close_db_started_ m) (close_finished_ m) (active_file_stream_ids_ m) (active_file_streams_by_token_ m) (active_file_stream_token_ m) (close_promises_ m) (next_tqueue_gc_time_ m) (tqueue_deleted_events_ m) (last_tqueue_deleted_events_ m) (outs m).
Definition set_close_flag_ (v : bool) (m : manager) : manager :=
  mkManager (clients_ m) (token_to_id_ m) (flood_controls_ m) (global_flood_control_ m) (is_global_flood_control_enabled_ m) (active_client_count_ m) v (close_db_started_ m) (close_finished_ m) (active_file_stream_ids_ m) (active_file_streams_by_token_ m) (active_file_stream_token_ m) (close_promises_ m) (next_tqueue_gc_time_ m) (tqueue_deleted_events_ m) (last_tqueue_deleted_events_ m) (outs m).
Definition set_close_db_started_ (v : bool) (m : manager) : manager :=
  mkManager (clients_ m) (token_to_id_ m) (flood_controls_ m) (global_flood_control_ m) (is_global_flood_control_enabled_ m) (active_client_count_ m) (close_flag_ m) v (close_finished_ m) (active_file_stream_ids_ m) (active_file_streams_by_token_ m) (active_file_stream_token_ m) (close_promises_ m) (next_tqueue_gc_time_ m) (tqueue_deleted_events_ m) (last_tqueue_deleted_events_ m) (outs m).
Definition set_close_finished_ (v : bool) (m : manager) : manager :=
  mkManager (clients_ m) (token_to_id_ m) (flood_controls_ m) (global_flood_control_ m) (is_global_flood_control_enabled_ m) (active_client_count_ m) (close_flag_ m) (close_db_started_ m) v (active_file_stream_ids_ m) (active_file_streams_by_token_ m) (active_file_stream_token_ m) (close_promises_ m) (next_tqueue_gc_time_ m) (tqueue_deleted_events_ m) (last_tqueue_deleted_events_ m) (outs m).
Definition set_active_file_stream_ids_ (v : gset Z) (m : manager) : manager :=
  mkManager (clients_ m) (token_to_id_ m) (flood_controls_ m) (global_flood_control_ m) (is_global_flood_control_enabled_ m) (active_client_count_ m) (close_flag_ m) (close_db_started_ m) (close_finished_ m) v (active_file_streams_by_token_ m) (active_file_stream_token_ m) (close_promises_ m) (next_tqueue_gc_time_ m) (tqueue_deleted_events_ m) (last_tqueue_deleted_events_ m) (outs m).
Definition set_active_file_streams_by_token_ (v : gmap slice Z) (m : manager) : manager :=
  mkManager (clients_ m) (token_to_id_ m) (flood_controls_ m) (global_flood_control_ m) (is_global_flood_control_enabled_ m) (active_client_count_ m) (close_flag_ m) (close_db_started_ m) (close_finished_ m) (active_file_stream_ids_ m) v (active_file_stream_token_ m) (close_promises_ m) (next_tqueue_gc_time_ m) (tqueue_deleted_events_ m) (last_tqueue_deleted_events_ m) (outs m).
Definition set_active_file_stream_token_ (v : gmap Z slice) (m : manager) : manager :=
  mkManager (clients_ m) (token_to_id_ m) (flood_controls_ m) (global_flood_control_ m) (is_global_flood_control_enabled_ m) (active_client_count_ m) (close_flag_ m) (close_db_started_ m) (close_finished_ m) (active_file_stream_ids_ m) (active_file_streams_by_token_ m) v (close_promises_ m) (next_tqueue_gc_time_ m) (tqueue_deleted_events_ m) (last_tqueue_deleted_events_ m) (outs m).
Definition set_close_promises_ (v : list Z) (m : manager) : manager :=
  mkManager (clients_ m) (token_to_id_ m) (flood_controls_ m) (global_flood_control_ m) (is_global_flood_control_enabled_ m) (active_client_count_ m) (close_flag_ m) (close_db_started_ m) (close_finished_ m) (active_file_stream_ids_ m) (active_file_streams_by_token_ m) (active_file_stream_token_ m) v (next_tqueue_gc_time_ m) (tqueue_deleted_events_ m) (last_tqueue_deleted_events_ m) (outs m).
Definition set_next_tqueue_gc_time_ (v : Q) (m : manager) : manager :=
  mkManager (clients_ m) (token_to_id_ m) (flood_controls_ m) (global_flood_control_ m) (is_global_flood_control_enabled_ m) (active_client_count_ m) (close_flag_ m) (close_db_started_ m) (close_finished_ m) (active_file_stream_ids_ m) (active_file_streams_by_token_ m) (active_file_stream_token_ m) (close_promises_ m) v (tqueue_deleted_events_ m) (last_tqueue_deleted_events_ m) (outs m).
Definition set_tqueue_deleted_events_ (v : Z) (m : manager) : manager :=
  mkManager (clients_ m) (token_to_id_ m) (flood_controls_ m) (global_flood_control_ m) (is_global_flood_control_enabled_ m) (active_client_count_ m) (close_flag_ m) (close_db_started_ m) (close_finished_ m) (active_file_stream_ids_ m) (active_file_streams_by_token_ m) (active_file_stream_token_ m) (close_promises_ m) (next_tqueue_gc_time_ m) v (last_tqueue_deleted_events_ m) (outs m).
Definition set_last_tqueue_deleted_events_ (v : Z) (m : manager) : manager :=
  mkManager (clients_ m) (token_to_id_ m) (flood_controls_ m) (global_flood_control_ m) (is_global_flood_control_enabled_ m) (active_client_count_ m) (close_flag_ m) (close_db_started_ m) (close_finished_ m) (active_file_stream_ids_ m) (active_file_streams_by_token_ m) (active_file_stream_token_ m) (close_promises_ m) (next_tqueue_gc_time_ m) (tqueue_deleted_events_ m) v (outs m).
Definition set_outs (v : list maction) (m : manager) : manager :=
  mkManager (clients_ m) (token_to_id_ m) (flood_controls_ m) (global_flood_control_ m) (is_global_flood_control_enabled_ m) (active_client_count_ m) (close_flag_ m) (close_db_started_ m) (close_finished_ m) (active_file_stream_ids_ m) (active_file_streams_by_token_ m) (active_file_stream_token_ m) (close_promises_ m) (next_tqueue_gc_time_ m) (tqueue_deleted_events_ m) (last_tqueue_deleted_events_ m) v.

Definition send_out (a : maction) (m : manager) : manager := set_outs (outs m ++ [a]) m.

Definition new_manager : manager :=
  mkManager st_empty ∅ ∅ new_flood_control false ∅ false false false ∅ ∅ ∅ [] 0%Q 0 0 [].

(** ** Operations *)

Definition get_tqueue_id (user_id : Z) (is_test_dc : bool) : Z :=
  user_id + Z.shiftl (if is_test_dc then 1 else 0) 54.

(** 20 clients in a minute and 600 in an hour for an address. *)
Definition ip_limits : list (Q * Q) := [(60, 20); (60 * 60, 600)]%Q.
(** 1000 clients in a minute and 10000 in an hour together. *)
Definition global_limits : list (Q * Q) := [(60, 1000); (60 * 60, 10000)]%Q.

(** The flood control of an address: [Some wakeup_at] when it refuses. *)
Definition check_ip_flood (ip_address : slice) (now : Q) (m : manager) : option (option Q * manager) :=
  if bool_decide (ip_address = []) then Some (None, m)
  else
    let ip_address := normalize_ip e ip_address in
    let flood_control := default (with_limits ip_limits) (flood_controls_ m !! ip_address) in
    if qlt now (get_wakeup_at flood_control)
    then Some (Some (get_wakeup_at flood_control),
               set_flood_controls_ (<[ip_address := flood_control]> (flood_controls_ m)) m)
    else
      flood_control' ← add_event flood_control now;
      Some (None, set_flood_controls_ (<[ip_address := flood_control']> (flood_controls_ m)) m).

Definition check_global_flood (now : Q) (m : manager) : option (option Q * manager) :=
  if is_global_flood_control_enabled_ m then
    if qlt now (get_wakeup_at (global_flood_control_ m)) then Some (Some (get_wakeup_at (global_flood_control_ m)), m)
    else
      f ← add_event (global_flood_control_ m) now;
      Some (None, set_global_flood_control_ f m)
  else Some (None, m).

(** The client for a token: its [ClientInfo] and its actor. *)
Definition create_client (token token_key : slice) (is_test_dc : bool) (user_id : Z) (m : manager) : option (Z * manager) :=
  let tqueue_id := get_tqueue_id user_id is_test_dc in
  '(id, clients) ← st_create (clients_ m) (mkInfo token_key tqueue_id false);
  _ ← st_get clients id;
  let clients := st_update clients id (fun info => mkInfo (token_ info) (tqueue_id_ info) true) in
  Some (id, send_out (CreateClient id token is_test_dc tqueue_id) (set_clients_ clients m)).

Definition emplace_token (token_key : slice) (id : Z) (m : manager) : manager :=
  set_token_to_id_ (<[token_key := id]> (token_to_id_ m)) m.

(** The first tests on a token; the text before its colon. *)
Definition bad_token_text (token : slice) : bool :=
  bool_decide (head token = Some "0"%char) || (80 <? slen token) ||
  bool_decide ("/"%char ∈ token) || bool_decide (":"%char ∉ token).

Definition token_user (token : slice) : result Z :=
  to_integer_safe 64 (take (default 0%nat (find ":"%char token)) token).

Definition per_bot_limit : Z := Z.max 1 (Z.quot (file_stream_max_connections_ e) 4).

Definition make_token_key (token : slice) (is_test_dc : bool) : slice :=
  token ++ if is_test_dc then lit "/test" else [].

(** *** [send_file_stream] *)

(** The tests before the quotas: the refusal, or the user's identifier. *)
Definition stream_request_error (disk_emergency : bool) (token file_id : slice) (m : manager) : result Z :=
  if disk_emergency then Err 507 (lit "Telegram workdir disk space exhausted; service is shutting down")
  else if close_flag_ m then Err 503 (lit "Bot API server is closing")
  else if negb (file_streaming_enabled_ e) then Err 404 (lit "File streaming endpoint is disabled")
  else if wrap 64 (file_stream_max_connections_ e) <=? Z.of_nat (base.size (active_file_stream_ids_ m))
  then Err 429 (lit "Too many active file streams")
  else if bool_decide (token = []) || bad_token_text token then Err 401 (lit "Invalid token specified")
  else
    match token_user token with
    | Err _ _ => Err 401 (lit "Invalid token specified")
    | Ok user_id =>
        if (user_id <=? 0) || (2 ^ 54 <=? user_id) then Err 401 (lit "Invalid token specified")
        else if negb (token_range (token_range_ e) user_id) then Err 421 (lit "Unallowed token specified")
        else if bool_decide (file_id = []) || (4096 <? slen file_id) then Err 400 (lit "Invalid file_id specified")
        else Ok user_id
    end.

(** The stream takes its slot and goes to the client [id]; [None]: the client
    of the token is gone. *)
Definition start_stream (stream stream_id id : Z) (token_key file_id : slice) (expected_size : Z) (m : manager) :
  option manager :=
  let m := set_active_file_stream_ids_ ({[stream_id]} ∪ active_file_stream_ids_ m) m in
  let m := set_active_file_stream_token_ (<[stream_id := token_key]> (active_file_stream_token_ m)) m in
  let count := default 0 (active_file_streams_by_token_ m !! token_key) in
  let m := set_active_file_streams_by_token_ (<[token_key := count + 1]> (active_file_streams_by_token_ m)) m in
  _ ← st_get (clients_ m) id;
  Some (send_out (ClientStartFileStream id stream stream_id file_id expected_size)
          (send_out (StreamSetClient stream id) m)).

(** [now] and [now'] are the two readings of the clock. *)
Definition send_file_stream (disk_emergency : bool) (now now' : Q) (stream stream_id : Z) (token : slice)
    (is_test_dc : bool) (file_id : slice) (expected_size : Z) (peer_ip_address : slice) (m : manager) : option manager :=
  let fail code message m := Some (send_out (StreamError stream code message) m) in
  match stream_request_error disk_emergency token file_id m with
  | Err code message => fail code message m
  | Ok user_id =>
      let token_key := make_token_key token is_test_dc in
      if per_bot_limit <=? default 0 (active_file_streams_by_token_ m !! token_key)
      then fail 429 (lit "Too many active file streams for this token") m
      else
        match token_to_id_ m !! token_key with
        | Some id => start_stream stream stream_id id token_key file_id expected_size m
        | None =>
            '(refused, m) ← check_ip_flood peer_ip_address now m;
            match refused with
            | Some _ => fail 429 (lit "Too many authentication attempts") m
            | None =>
                '(refused, m) ← check_global_flood now' m;
                match refused with
                | Some _ => fail 429 (lit "Too many authentication attempts") m
                | None =>
                    '(id, m) ← create_client token token_key is_test_dc user_id m;
                    start_stream stream stream_id id token_key file_id expected_size (emplace_token token_key id m)
                end
            end
        end
  end.

Definition release_file_stream (stream_id : Z) (m : manager) : manager :=
  let m := set_active_file_stream_ids_ (active_file_stream_ids_ m ∖ {[stream_id]}) m in
  match active_file_stream_token_ m !! stream_id with
  | Some token_key =>
      let m :=
        match active_file_streams_by_token_ m !! token_key with
        | Some count =>
            if count - 1 <=? 0
            then set_active_file_streams_by_token_ (delete token_key (active_file_streams_by_token_ m)) m
            else set_active_file_streams_by_token_ (<[token_key := count - 1]> (active_file_streams_by_token_ m)) m
        | None => m
        end in
      set_active_file_stream_token_ (delete stream_id (active_file_stream_token_ m)) m
  | None => m
  end.

(** *** [send] *)

Definition answer_out (q : option Query) (m : manager) : option manager :=
  q ← q; q ← delete_query q; Some (send_out (QueryAnswered q) m).

Definition retry_seconds (wakeup_at now : Q) : Z := Qfloor (wakeup_at - now) + 1.

Definition send_to_client (id : Z) (q : Query) (m : manager) : option manager :=
  _ ← st_get (clients_ m) id; Some (send_out (ClientSend id q) m).

Definition restore_webhook (id : Z) (q : Query) (m : manager) : manager :=
  if bool_decide (q_method q = lit "deletewebhook") || bool_decide (q_method q = lit "setwebhook") then m
  else
    let bot_token_with_dc := q_token q ++ if q_is_test_dc q then lit ":T" else [] in
    let webhook_info := webhook_db_get e bot_token_with_dc in
    if bool_decide (webhook_info = []) then m
    else send_out (ClientSend id (get_webhook_restore_query bot_token_with_dc webhook_info)) m.

(** [peer_ip] is [query->get_peer_ip_address()]. *)
Definition send (now now' : Q) (peer_ip : slice) (q : Query) (m : manager) : option manager :=
  if close_flag_ m then answer_out (Some q) m
  else if bad_token_text (q_token q)
  then answer_out (fail_query 401 (lit "Unauthorized: invalid token specified") q []) m
  else
    match token_user (q_token q) with
    | Err _ _ => answer_out (fail_query 421 (lit "Misdirected Request: unallowed token specified") q []) m
    | Ok user_id =>
        if negb (token_range (token_range_ e) user_id)
        then answer_out (fail_query 421 (lit "Misdirected Request: unallowed token specified") q []) m
        else if (user_id <=? 0) || (2 ^ 54 <=? user_id)
        then answer_out (fail_query 401 (lit "Unauthorized: invalid token specified") q []) m
        else
          let token := make_token_key (q_token q) (q_is_test_dc q) in
          match token_to_id_ m !! token with
          | Some id => send_to_client id q m
          | None =>
              if bool_decide (q_method q = lit "close")
              then answer_out (fail_query 400 (lit "Bad Request: the bot has already been closed") q []) m
              else
                '(refused, m) ← check_ip_flood peer_ip now m;
                match refused with
                | Some wakeup_at => answer_out (set_retry_after_error q (retry_seconds wakeup_at now)) m
                | None =>
                    '(refused, m) ← check_global_flood now' m;
                    match refused with
                    | Some wakeup_at => answer_out (set_retry_after_error q (retry_seconds wakeup_at now')) m
                    | None =>
                        '(id, m) ← create_client (q_token q) token (q_is_test_dc q) user_id m;
                        send_to_client id q (emplace_token token id (restore_webhook id q m))
                    end
                end
          end
    end.

(** *** Closing *)

Definition finish_close (m : manager) : manager :=
  if close_finished_ m then m
  else
    let m := send_out CancelTimeout (set_close_finished_ true m) in
    let promises := close_promises_ m in
    let m := set_close_promises_ [] m in
    send_out StopManager (foldl (fun m p => send_out (PromiseSet p) m) m promises).

(** The two databases call [finish_close] back when both are closed. *)
Definition close_db (m : manager) : manager :=
  if close_db_started_ m || close_finished_ m then m
  else
    send_out WebhookDbClose (send_out TQueueClose (send_out (SetTimeout 10) (set_close_db_started_ true m))).

(** [None]: an identifier of the container leads to no client. *)
Fixpoint close_clients (ids : list Z) (m : manager) : option manager :=
  match ids with
  | [] => Some m
  | id :: ids => _ ← st_get (clients_ m) id; close_clients ids (send_out (ClientClose id) m)
  end.

Definition close (promise : Z) (m : manager) : option manager :=
  let m := set_close_promises_ (close_promises_ m ++ [promise]) m in
  if close_flag_ m then Some m
  else
    let m := send_out (SetTimeout 30) (send_out WatchdogStop (set_close_flag_ true m)) in
    let ids := st_ids (clients_ m) in
    m ← close_clients ids m;
    Some (if bool_decide (ids = []) then close_db m else m).

(** [id] is the link token of the client that went away. *)
Definition hangup_shared (id : Z) (m : manager) : option manager :=
  info ← st_get (clients_ m) id;
  let m := set_clients_ (st_update (clients_ m) id (fun i => mkInfo (token_ i) (tqueue_id_ i) false)) m in
  let m := set_token_to_id_ (delete (token_ info) (token_to_id_ m)) m in
  let m := set_clients_ (st_erase (clients_ m) id) m in
  if close_flag_ m then
    is_empty ← st_is_empty (clients_ m);
    if (is_empty : bool) then CHECK (bool_decide (active_client_count_ m = ∅)) (Some (close_db m)) else Some m
  else Some m.

(** [raw_event]: a client became active ([event.ptr] set) or stopped. *)
Definition raw_event (id : Z) (started : bool) (m : manager) : option manager :=
  info ← st_get (clients_ m) id;
  CHECK (negb (tqueue_id_ info =? 0))
    (let value := default 0 (active_client_count_ m !! tqueue_id_ info) in
     if started then Some (set_active_client_count_ (<[tqueue_id_ info := value + 1]> (active_client_count_ m)) m)
     else
       CHECK (0 <? value)
         (Some (set_active_client_count_
                  (if value - 1 =? 0 then delete (tqueue_id_ info) (active_client_count_ m)
                   else <[tqueue_id_ info := value - 1]> (active_client_count_ m)) m))).

Definition WATCHDOG_TIMEOUT : Q := 1 # 4.

(** [gc] is what [TQueue::run_gc] returns, [later] the clock after it. *)
Definition timeout_expired (now : Q) (gc : Z * bool) (later : Q) (m : manager) : manager :=
  if close_flag_ m then finish_close m
  else
    let m := send_out (SetTimeout (WATCHDOG_TIMEOUT / 10)) (send_out WatchdogKick m) in
    let m :=
      if qlt (next_tqueue_gc_time_ m) now then
        let '(deleted_events, is_finished) := gc in
        let m := set_next_tqueue_gc_time_ (later + if (is_finished : bool) then 60 else 1)%Q m in
        let m := set_tqueue_deleted_events_ (tqueue_deleted_events_ m + deleted_events) m in
        if last_tqueue_deleted_events_ m + 10000 <? tqueue_deleted_events_ m
        then set_last_tqueue_deleted_events_ (tqueue_deleted_events_ m) m else m
      else m in
    if negb (is_global_flood_control_enabled_ m) && negb (local_mode_ e)
    then set_global_flood_control_ (foldl (fun f l => add_limit f l.1 l.2) (global_flood_control_ m) global_limits)
           (set_is_global_flood_control_enabled_ true m)
    else m.

(** ** Runs *)

Inductive mevent :=
| SendFileStream (disk_emergency : bool) (now now' : Q) (stream stream_id : Z) (token : slice) (is_test_dc : bool)
    (file_id : slice) (expected_size : Z) (peer_ip_address : slice)
| ReleaseFileStream (stream_id : Z)
| Send (now now' : Q) (peer_ip : slice) (q : Query)
| Close (promise : Z)
| DatabasesClosed
| HangupShared (id : Z)
| RawEvent (id : Z) (started : bool)
| TimeoutExpired (now : Q) (gc : Z * bool) (later : Q).

Definition manager_step (ev : mevent) (m : manager) : option manager :=
  match ev with
  | SendFileStream d now now' s sid t dc f size peer => send_file_stream d now now' s sid t dc f size peer m
  | ReleaseFileStream sid => Some (release_file_stream sid m)
  | Send now now' peer q => send now now' peer q m
  | Close p => close p m
  | DatabasesClosed => Some (finish_close m)
  | HangupShared id => hangup_shared id m
  | RawEvent id started => raw_event id started m
  | TimeoutExpired now gc later => Some (timeout_expired now gc later m)
  end.

Fixpoint manager_run (evs : list mevent) (m : manager) : option manager :=
  match evs with [] => Some m | ev :: evs => m ← manager_step ev m; manager_run evs m end.

(** What the other actors promise: [active] holds the clients that reported
    that they run, [last] the last reading of the clock. *)
Definition ghost : Type := gset Z * Q.

Definition ghost_step (ev : mevent) (g : ghost) : ghost :=
  match ev with
  | SendFileStream _ _ now' _ _ _ _ _ _ _ | Send _ now' _ _ => (g.1, now')
  | TimeoutExpired _ _ later => (g.1, later)
  | RawEvent id started => (if started then {[id]} ∪ g.1 else g.1 ∖ {[id]}, g.2)
  | _ => g
  end.

(** The container has room for one more client. *)
Definition room (m : manager) : Prop := ∀ info, is_Some (st_create (clients_ m) info).

Definition event_ok (g : ghost) (m : manager) (ev : mevent) : Prop :=
  close_finished_ m = false ∧
  match ev with
  | SendFileStream _ now now' _ sid _ _ _ _ _ =>
      (g.2 <= now)%Q ∧ (now <= now')%Q ∧ (sid ∉ active_file_stream_ids_ m) ∧ room m
  | Send now now' _ q => (g.2 <= now)%Q ∧ (now <= now')%Q ∧ q_state q = StQuery ∧ room m
  | HangupShared id => is_Some (st_contents (clients_ m) !! id) ∧ (id ∉ g.1) ∧ st_last id = false
  | RawEvent id started => is_Some (st_contents (clients_ m) !! id) ∧ (if started then id ∉ g.1 else id ∈ g.1)
  | TimeoutExpired now _ later => (g.2 <= now)%Q ∧ (now <= later)%Q
  | DatabasesClosed => close_db_started_ m = true
  | _ => True
  end.

Fixpoint run_ok (evs : list mevent) (g : ghost) (m : manager) : Prop :=
  match evs with
  | [] => True
  | ev :: evs =>
      event_ok g m ev ∧
      match manager_step ev m with Some m' => run_ok evs (ghost_step ev g) m' | None => True end
  end.

(** The streams of a token. *)
Definition streams_of (token_key : slice) (tokens : gmap Z slice) : Z :=
  Z.of_nat (base.size (filter (fun p => p.2 = token_key) tokens)).

(** ** Invariants *)

Record streams_ok (ids : gset Z) (by_token : gmap slice Z) (tokens : gmap Z slice) : Prop := {
  so_ids : ids = dom tokens;
  so_total : Z.of_nat (base.size ids) <= file_stream_max_connections_ e;
  so_exact k : default 0 (by_token !! k) = streams_of k tokens;
  so_positive k n : by_token !! k = Some n → 0 < n;
  so_quota k : streams_of k tokens <= per_bot_limit
}.

Record clients_ok (clients : C) (token_to_id : gmap slice Z) : Prop := {
  cl_wf : st_wf clients;
  cl_tokens k id : token_to_id !! k = Some id ↔ ∃ info, st_contents clients !! id = Some info ∧ token_ info = k;
  cl_info id info : st_contents clients !! id = Some info → client_ info = true ∧ 0 < tqueue_id_ info
}.

(** The clients of [active] with a queue. *)
Definition active_with (t : Z) (active : gset Z) (clients : C) : Z :=
  Z.of_nat (base.size (filter (fun id => (tqueue_id_ <$> st_contents clients !! id) = Some t) active)).

Record actives_ok (active : gset Z) (clients : C) (counts : gmap Z Z) : Prop := {
  ac_live : active ⊆ dom (st_contents clients);
  ac_exact t : default 0 (counts !! t) = active_with t active clients;
  ac_positive t n : counts !! t = Some n → 0 < n
}.

Record floods_ok (last : Q) (controls : gmap slice FloodControlFast) (enabled : bool) (global : FloodControlFast) : Prop := {
  fl_last : (0 <= last)%Q;
  fl_ips ip f : controls !! ip = Some f → ∃ acc, flood_ok ip_limits f last acc;
  fl_global : if enabled then ∃ acc, flood_ok global_limits global last acc else global = new_flood_control
}.

Record manager_ok (g : ghost) (m : manager) : Prop := {
  mo_streams : streams_ok (active_file_stream_ids_ m) (active_file_streams_by_token_ m) (active_file_stream_token_ m);
  mo_clients : clients_ok (clients_ m) (token_to_id_ m);
  mo_actives : actives_ok g.1 (clients_ m) (active_client_count_ m);
  mo_floods : floods_ok g.2 (flood_controls_ m) (is_global_flood_control_enabled_ m) (global_flood_control_ m)
}.

End Manager.

#[local] Arguments lit : simpl never.

(** ** Streams *)

Lemma streams_of_insert k sid t tokens :
  tokens !! sid = None →
  streams_of k (<[sid := t]> tokens) = streams_of k tokens + (if bool_decide (t = k) then 1 else 0).
Proof.
  intros Hn. unfold streams_of. rewrite map_filter_insert. simpl. case_bool_decide as E.
  - rewrite decide_True by done. rewrite map_size_insert_None; [lia|].
    apply map_lookup_filter_None. by left.
  - rewrite decide_False by done. rewrite delete_id by done. lia.
Qed.

Lemma streams_of_delete k sid t tokens :
  tokens !! sid = Some t →
  streams_of k (delete sid tokens) = streams_of k tokens - (if bool_decide (t = k) then 1 else 0).
Proof.
  intros Hs. rewrite <- (insert_delete_id tokens sid t Hs) at 2.
  rewrite streams_of_insert by apply lookup_delete_eq. lia.
Qed.

Section Streams.
Context (e : manager_env).

Lemma streams_start ids by_token tokens sid t :
  streams_ok e ids by_token tokens → sid ∉ ids →
  Z.of_nat (base.size ids) < file_stream_max_connections_ e →
  default 0 (by_token !! t) < per_bot_limit e →
  streams_ok e ({[sid]} ∪ ids) (<[t := default 0 (by_token !! t) + 1]> by_token) (<[sid := t]> tokens).
Proof.
  intros [-> Htot Hexact Hpos Hq] Hn Hlt Hlim. assert (tokens !! sid = None) as Hnone by by apply not_elem_of_dom.
  assert (0 <= default 0 (by_token !! t)) by (rewrite Hexact; unfold streams_of; lia).
  split.
  - by rewrite dom_insert_L.
  - rewrite size_union by set_solver. rewrite size_singleton. lia.
  - intros k. rewrite streams_of_insert by done. rewrite lookup_insert, <- Hexact.
    destruct (decide (t = k)) as [->|]; [rewrite bool_decide_eq_true_2 by done|rewrite bool_decide_eq_false_2 by done];
      simpl; lia.
  - intros k n. rewrite lookup_insert. destruct (decide (t = k)); [intros [= <-]; lia|apply Hpos].
  - intros k. rewrite streams_of_insert by done. case_bool_decide as E; [subst k|specialize (Hq k); lia].
    rewrite Hexact in Hlim. lia.
Qed.

Lemma streams_release {C} (m : @manager C) sid :
  streams_ok e (active_file_stream_ids_ m) (active_file_streams_by_token_ m) (active_file_stream_token_ m) →
  let m' := release_file_stream sid m in
  streams_ok e (active_file_stream_ids_ m') (active_file_streams_by_token_ m') (active_file_stream_token_ m') ∧
  ∃ by_token, m' = set_active_file_stream_token_ (delete sid (active_file_stream_token_ m))
                     (set_active_file_streams_by_token_ by_token
                        (set_active_file_stream_ids_ (active_file_stream_ids_ m ∖ {[sid]}) m)).
Proof.
  destruct m as [? ? ? ? ? ? ? ? ? ids by_token tokens]. simpl. intros [-> Htot Hexact Hpos Hq].
  unfold release_file_stream. simpl.
  assert (Z.of_nat (base.size (dom tokens ∖ {[sid]})) <= file_stream_max_connections_ e) as Htot'.
  { pose proof (subseteq_size (dom tokens ∖ {[sid]}) (dom tokens) ltac:(set_solver)). lia. }
  destruct (tokens !! sid) as [t|] eqn:Et; simpl.
  - assert (0 < streams_of t tokens) as Hone.
    { assert (filter (fun p => p.2 = t) tokens !! sid = Some t) as E by (by apply map_lookup_filter_Some).
      unfold streams_of. enough (base.size (filter (fun p => p.2 = t) tokens) ≠ 0%nat) by lia.
      rewrite map_size_ne_0_lookup. by eexists _, _. }
    pose proof (Hexact t) as Ht. destruct (by_token !! t) as [n|] eqn:En; simpl in Ht; [|lia].
    destruct (Z.leb_spec (n - 1) 0); simpl;
      (split; [|by (exists (delete t by_token) + exists (<[t := n - 1]> by_token))]);
      split; try (by rewrite dom_delete_L); try done;
      intros k; rewrite ?streams_of_delete with (t := t) by done.
    + rewrite lookup_delete. case_bool_decide; [subst; rewrite decide_True by done; simpl; lia|].
      rewrite decide_False by done. rewrite Hexact. lia.
    + intros n'. rewrite lookup_delete_Some. intros [_ ?]. by apply (Hpos k).
    + specialize (Hq k). case_bool_decide; lia.
    + rewrite lookup_insert. case_bool_decide; [subst; rewrite decide_True by done; simpl; lia|].
      rewrite decide_False by done. rewrite Hexact. lia.
    + intros n'. rewrite lookup_insert. destruct (decide _); [intros [= <-]; lia|apply Hpos].
    + specialize (Hq k). case_bool_decide; lia.
  - rewrite (delete_id tokens) by done. split; [|exists by_token; reflexivity].
    assert (dom tokens ∖ {[sid]} = dom tokens) as -> by (apply not_elem_of_dom in Et; set_solver).
    by split.
Qed.
End Streams.

(** ** Clients *)

Section Clients.
Context {C : Type} `{IdStoreLaws ClientInfo C}.

Lemma tqueue_id_positive u dc : 0 < u → 0 < get_tqueue_id u dc.
Proof. intros. unfold get_tqueue_id. assert (0 <= Z.shiftl (if dc then 1 else 0) 54) by (destruct dc; vm_compute; congruence). lia. Qed.

(** The client that [create_client] and the insertion of its token make. *)
Lemma create_client_ok active counts token key dc u (m : manager) :
  clients_ok (clients_ m) (token_to_id_ m) → actives_ok active (clients_ m) counts →
  token_to_id_ m !! key = None → 0 < u → room m →
  ∃ id clients', create_client token key dc u m =
      Some (id, send_out (CreateClient id token dc (get_tqueue_id u dc)) (set_clients_ clients' m)) ∧
    clients_ok clients' (<[key := id]> (token_to_id_ m)) ∧ actives_ok active clients' counts ∧
    st_contents clients' !! id = Some (mkInfo key (get_tqueue_id u dc) true).
Proof.
  intros [Hwf Htok Hinfo] [Hlive Hex Hpos] Hnone Hu Hroom. unfold create_client.
  destruct (Hroom (mkInfo key (get_tqueue_id u dc) false)) as [[id c'] Hc]. rewrite Hc. cbn [mbind option_bind].
  pose proof (st_create_wf _ _ _ _ Hwf Hc) as Hwf'.
  destruct (st_create_contents _ _ _ _ Hwf Hc) as (_ & Hfresh & Hcont).
  assert (st_contents c' !! id = Some (mkInfo key (get_tqueue_id u dc) false)) as Hid
    by (rewrite Hcont; apply lookup_insert_eq).
  rewrite (st_get_live _ _ _ Hwf' Hid). cbn [mbind option_bind].
  set (f := fun info => mkInfo (token_ info) (tqueue_id_ info) true).
  assert (st_contents (st_update c' id f) = <[id := mkInfo key (get_tqueue_id u dc) true]> (st_contents (clients_ m))) as Hc2.
  { rewrite (st_update_contents _ _ _ _ Hwf' Hid), Hcont. apply insert_insert_eq. }
  exists id, (st_update c' id f). split; [done|]. split; [|split].
  - split; [by apply st_update_wf|..]; rewrite Hc2.
    + intros k id'. rewrite lookup_insert. destruct (decide (key = k)) as [<-|Hk].
      * split; [intros [= <-]; rewrite lookup_insert_eq; by eexists|]. intros (info & Hi & Hk).
        rewrite lookup_insert in Hi. destruct (decide (id = id')) as [->|]; [done|].
        assert (token_to_id_ m !! key = Some id') by (apply Htok; by exists info). congruence.
      * rewrite Htok. split; intros (info & Hi & Hk').
        -- exists info. rewrite lookup_insert_ne; [done|]. congruence.
        -- rewrite lookup_insert in Hi. destruct (decide (id = id')); [simplify_eq; done|by exists info].
    + intros id' info. rewrite lookup_insert. destruct (decide (id = id')); [|by apply Hinfo].
      intros [= <-]. split; [done|]. by apply tqueue_id_positive.
  - assert (id ∉ active) as Hna by (intros Ha; apply Hlive, elem_of_dom in Ha as [? ?]; congruence).
    split; [rewrite Hc2; set_solver| |done]. intros t. rewrite Hex. unfold active_with. do 2 f_equal.
    apply leibniz_equiv. intros x. rewrite !elem_of_filter, Hc2, lookup_insert.
    destruct (decide (id = x)) as [->|]; [naive_solver|done].
  - rewrite Hc2. apply lookup_insert_eq.
Qed.

(** A client that stopped goes away, with its token. *)
Lemma hangup_clients_ok active counts (clients : C) tokens id info :
  clients_ok clients tokens → actives_ok active clients counts →
  st_contents clients !! id = Some info → id ∉ active → st_last id = false →
  let clients' := st_erase (st_update clients id (fun i => mkInfo (token_ i) (tqueue_id_ i) false)) id in
  clients_ok clients' (delete (token_ info) tokens) ∧ actives_ok active clients' counts ∧
  st_contents clients' = delete id (st_contents clients).
Proof.
  intros [Hwf Htok Hinfo] [Hlive Hex Hpos] Hid Hna Hlast.
  set (f := fun i => mkInfo (token_ i) (tqueue_id_ i) false). intros clients'.
  pose proof (st_update_wf clients id f Hwf) as Hwf'.
  pose proof (st_update_contents clients id f info Hwf Hid) as Hu.
  assert (st_contents (st_update clients id f) !! id = Some (f info)) as Hid' by (rewrite Hu; apply lookup_insert_eq).
  assert (st_contents clients' = delete id (st_contents clients)) as Hc.
  { unfold clients'. rewrite (st_erase_contents _ _ _ Hwf' Hid' Hlast), Hu. apply delete_insert_eq. }
  split; [|split; [|done]].
  - split; [apply st_erase_wf; [done|by eexists]|..]; rewrite Hc.
    + intros k id'. rewrite lookup_delete_Some, Htok. split.
      * intros (Hk & info' & Hi & Ht). exists info'. rewrite lookup_delete_ne; [done|]. congruence.
      * intros (info' & Hi & Ht). apply lookup_delete_Some in Hi as [Hne Hi]. split; [|by exists info'].
        intros Hk. apply Hne. assert (tokens !! token_ info = Some id) as H1 by (apply Htok; by exists info).
        assert (tokens !! token_ info = Some id') as H2 by (apply Htok; exists info'; by split; [|congruence]). congruence.
    + intros id' info'. rewrite lookup_delete_Some. intros [_ Hi]. by apply (Hinfo id').
  - split; [rewrite Hc, dom_delete_L; set_solver| |done]. intros t. rewrite Hex. unfold active_with. do 2 f_equal.
    apply leibniz_equiv. intros x. rewrite !elem_of_filter, Hc, lookup_delete.
    destruct (decide (id = x)) as [->|]; [naive_solver|done].
Qed.

Lemma active_with_union t active clients id info :
  st_contents clients !! id = Some info → id ∉ active →
  active_with t ({[id]} ∪ active) clients = active_with t active clients + (if bool_decide (tqueue_id_ info = t) then 1 else 0).
Proof.
  intros Hi Hn. unfold active_with. rewrite filter_union_L by apply _. case_bool_decide as E.
  - rewrite filter_singleton_L by apply _. rewrite Hi. simpl. rewrite decide_True by by f_equal.
    rewrite size_union by (set_solver). rewrite size_singleton. lia.
  - rewrite filter_singleton_L by apply _. rewrite Hi. simpl. rewrite decide_False by congruence. rewrite union_empty_l_L. lia.
Qed.

(** A client reports that it runs, or that it stopped. *)
Lemma raw_event_ok (active : gset Z) (id : Z) (started : bool) (m : manager) :
  clients_ok (clients_ m) (token_to_id_ m) → actives_ok active (clients_ m) (active_client_count_ m) →
  is_Some (st_contents (clients_ m) !! id) → (if started then (id ∉ active) else (id ∈ active)) →
  ∃ counts : gmap Z Z, raw_event id started m = Some (set_active_client_count_ counts m) ∧
    actives_ok (if started then {[id]} ∪ active else active ∖ {[id]} : gset Z) (clients_ m) counts.
Proof.
  intros [Hwf Htok Hinfo] [Hlive Hex Hpos] [info Hid] Hact. unfold raw_event.
  rewrite (st_get_live _ _ _ Hwf Hid). cbn [mbind option_bind].
  destruct (Hinfo id info Hid) as [_ Hq]. destruct (Z.eqb_spec (tqueue_id_ info) 0); [lia|]. cbn [negb CHECK].
  set (t := tqueue_id_ info). destruct started.
  - eexists. split; [done|]. split; [apply elem_of_dom_2 in Hid; set_solver|..].
    + intros t'. rewrite active_with_union with (info := info), <- Hex by done. rewrite lookup_insert. fold t.
      destruct (decide (t = t')) as [->|]; [rewrite bool_decide_eq_true_2 by done|rewrite bool_decide_eq_false_2 by done];
        simpl; lia.
    + intros t' n'. rewrite lookup_insert. destruct (decide (t = t')); [|apply Hpos]. intros [= <-]. rewrite Hex.
      unfold active_with. lia.
  - assert (active = {[id]} ∪ active ∖ {[id]}) as Hsplit.
    { apply set_eq. intros x. destruct (decide (x = id)); set_solver. }
    assert (Hdec : ∀ t', active_with t' (active ∖ {[id]}) (clients_ m) =
                         default 0 (active_client_count_ m !! t') - (if bool_decide (t = t') then 1 else 0)).
    { intros t'. pose proof (active_with_union t' (active ∖ {[id]}) (clients_ m) id info Hid ltac:(set_solver)) as Hu.
      rewrite <- Hsplit in Hu. fold t in Hu. rewrite Hex. lia. }
    pose proof (Hdec t) as Ht. rewrite bool_decide_eq_true_2 in Ht by done.
    assert (0 <= active_with t (active ∖ {[id]}) (clients_ m)) by (unfold active_with; lia).
    destruct (Z.ltb_spec 0 (default 0 (active_client_count_ m !! t))); [|lia]. cbn [CHECK].
    eexists. split; [done|]. split; [set_solver|..].
    + intros t'. rewrite Hdec. case_bool_decide as E; [subst t'|].
      * destruct (Z.eqb_spec (default 0 (active_client_count_ m !! t) - 1) 0);
          rewrite ?lookup_delete_eq, ?lookup_insert_eq; simpl; lia.
      * case_match; rewrite ?lookup_delete_ne, ?lookup_insert_ne by done; lia.
    + intros t' n'. destruct (Z.eqb_spec (default 0 (active_client_count_ m !! t) - 1) 0).
      * rewrite lookup_delete_Some. intros [_ ?]. by apply (Hpos t').
      * rewrite lookup_insert. destruct (decide (t = t')); [intros [= <-]; lia|apply Hpos].
Qed.
End Clients.

(** ** Flood controls *)

Lemma flood_later limits f last acc now :
  flood_ok limits f last acc → (last <= now)%Q → flood_ok limits f now acc.
Proof.
  intros [Hlast Hb Hw Hwait] Hle. split; [by apply Qle_trans with last| |done|].
  - eapply Forall2_impl; [exact Hb|]. intros l b Hbok. by apply bucket_later with last.
  - destruct Hwait as [?|]; [left; by apply Qle_trans with last|by right].
Qed.

Lemma ip_limits_ok : Forall limit_ok ip_limits.
Proof. by repeat constructor. Qed.

Lemma global_limits_ok : Forall limit_ok global_limits.
Proof. by repeat constructor. Qed.

Lemma floods_later last now controls enabled global :
  floods_ok last controls enabled global → (last <= now)%Q → floods_ok now controls enabled global.
Proof.
  intros [Hlast Hips Hglobal] Hle. split; [by apply Qle_trans with last|..].
  - intros ip f Hf. destruct (Hips ip f Hf) as [acc Hok]. exists acc. by apply flood_later with last.
  - destruct enabled; [|done]. destruct Hglobal as [acc Hok]. exists acc. by apply flood_later with last.
Qed.

(** The decision of a flood control, and when a refused client may retry. *)
Definition refusal (now : Q) (refused : option Q) : Prop :=
  match refused with Some wakeup_at => (now < wakeup_at)%Q | None => True end.

Lemma qlt_true a b : qlt a b = true → (a < b)%Q.
Proof. intros H. apply Qnot_le_lt. intros Hle. apply qlt_false in Hle. congruence. Qed.

Section Floods.
Context {C : Type} (e : manager_env).

Lemma check_ip_flood_ok ip last now (m : @manager C) :
  floods_ok last (flood_controls_ m) (is_global_flood_control_enabled_ m) (global_flood_control_ m) → (last <= now)%Q →
  ∃ refused controls, check_ip_flood e ip now m = Some (refused, set_flood_controls_ controls m) ∧
    floods_ok now controls (is_global_flood_control_enabled_ m) (global_flood_control_ m) ∧ refusal now refused.
Proof.
  intros Hok Hle. pose proof (floods_later _ now _ _ _ Hok Hle) as [Hnow Hips Hglobal].
  unfold check_ip_flood. case_bool_decide.
  { exists None, (flood_controls_ m). by destruct m. }
  set (key := normalize_ip e ip). set (f := default (with_limits ip_limits) (flood_controls_ m !! key)).
  assert (∃ acc, flood_ok ip_limits f now acc) as [acc Hf].
  { unfold f. destruct (flood_controls_ m !! key) eqn:E; [by apply (Hips key)|].
    exists []. simpl. apply flood_later with 0%Q; [|done]. apply with_limits_ok, ip_limits_ok. }
  assert (Hins : ∀ f', (∃ acc', flood_ok ip_limits f' now acc') → floods_ok now (<[key := f']> (flood_controls_ m))
                         (is_global_flood_control_enabled_ m) (global_flood_control_ m)).
  { intros f' Hf'. split; [done| |done]. intros ip' g. rewrite lookup_insert.
    destruct (decide (key = ip')); [by intros [= <-]|apply Hips]. }
  destruct (try_event_ok ip_limits f now acc now ip_limits_ok Hf (Qle_refl now)) as (b & f' & Htry & _ & Hf').
  unfold try_event in Htry. destruct (qlt now (get_wakeup_at f)) eqn:E.
  - exists (Some (get_wakeup_at f)). eexists. split; [done|]. split; [by apply Hins; exists acc|].
    simpl. by apply qlt_true.
  - destruct (add_event f now) as [f1|]; [|done]. cbn [mbind option_bind] in *. injection Htry as <- <-.
    exists None. eexists. split; [done|]. split; [|done]. apply Hins. by eexists.
Qed.

Lemma check_global_flood_ok last now (m : @manager C) :
  floods_ok last (flood_controls_ m) (is_global_flood_control_enabled_ m) (global_flood_control_ m) → (last <= now)%Q →
  ∃ refused f, check_global_flood now m = Some (refused, set_global_flood_control_ f m) ∧
    floods_ok now (flood_controls_ m) (is_global_flood_control_enabled_ m) f ∧ refusal now refused.
Proof.
  intros Hok Hle. pose proof (floods_later _ now _ _ _ Hok Hle) as [Hnow Hips Hglobal]. unfold check_global_flood.
  destruct (is_global_flood_control_enabled_ m) eqn:Een.
  2:{ exists None, (global_flood_control_ m). by destruct m. }
  destruct Hglobal as [acc Hf]. set (f := global_flood_control_ m) in *.
  destruct (try_event_ok global_limits f now acc now global_limits_ok Hf (Qle_refl now)) as (b & f' & Htry & _ & Hf').
  unfold try_event in Htry. destruct (qlt now (get_wakeup_at f)) eqn:E.
  - exists (Some (get_wakeup_at f)), f. split; [unfold f; by destruct m|]. split; [|simpl; by apply qlt_true].
    split; [done..|by exists acc].
  - destruct (add_event f now) as [f1|]; [|done]. cbn [mbind option_bind] in *. injection Htry as <- <-.
    exists None. eexists. split; [done|]. split; [|done]. split; [done..|by eexists].
Qed.

(** What closing sends; nothing else changes but the closing flags. *)
Definition floods_of (m : @manager C) := (is_global_flood_control_enabled_ m, global_flood_control_ m, flood_controls_ m).

Lemma finish_close_floods (m : @manager C) : floods_of (finish_close m) = floods_of m.
Proof.
  unfold finish_close. destruct (close_finished_ m); [done|].
  assert (∀ l (k : @manager C), floods_of (foldl (fun m p => send_out (PromiseSet p) m) k l) = floods_of k) as Hfold.
  { induction l as [|p l IH]; intros k; simpl; [done|]. by rewrite IH. }
  change (floods_of (foldl (fun m p => send_out (PromiseSet p) m)
    (set_close_promises_ [] (send_out CancelTimeout (set_close_finished_ true m))) (close_promises_ m)) = floods_of m).
  by rewrite Hfold.
Qed.

(** The first tick enables the global flood control. *)
Lemma timeout_floods now later gc (m : @manager C) :
  floods_of (timeout_expired e now gc later m) =
  if negb (close_flag_ m) && negb (is_global_flood_control_enabled_ m) && negb (local_mode_ e)
  then (true, foldl (fun f l => add_limit f l.1 l.2) (global_flood_control_ m) global_limits, flood_controls_ m)
  else floods_of m.
Proof.
  unfold timeout_expired. destruct (close_flag_ m); [apply finish_close_floods|].
  destruct gc as [deleted fin], m as [? ? ? ? en]. unfold floods_of. cbn [negb andb].
  destruct (qlt _ _), en, (local_mode_ e); cbn; repeat case_match; done.
Qed.

Lemma timeout_floods_ok last now later gc (m : @manager C) :
  floods_ok last (flood_controls_ m) (is_global_flood_control_enabled_ m) (global_flood_control_ m) →
  (last <= now)%Q → (now <= later)%Q →
  let m' := timeout_expired e now gc later m in
  floods_ok later (flood_controls_ m') (is_global_flood_control_enabled_ m') (global_flood_control_ m').
Proof.
  intros Hok Hle Hle' m'. apply floods_later with (now := later) in Hok; [|by apply Qle_trans with now].
  pose proof (timeout_floods now later gc m) as Hf. fold m' in Hf. unfold floods_of in Hf.
  destruct (negb (close_flag_ m) && _ && _) eqn:E; injection Hf as -> -> ->; [|done].
  destruct Hok as [Hl Hips Hglobal].
  assert (is_global_flood_control_enabled_ m = false) as Hoff by (by destruct (close_flag_ m), (is_global_flood_control_enabled_ m)).
  rewrite Hoff in Hglobal. rewrite Hglobal. split; [done..|].
  exists []. apply flood_later with 0%Q; [apply (with_limits_ok _ global_limits_ok)|done].
Qed.
End Floods.

(** ** Admission of streams and queries *)

(** A token the server is responsible for. *)
Definition token_ok (e : manager_env) (token : slice) (u : Z) : Prop :=
  bad_token_text token = false ∧ token_user token = Ok u ∧ token_range (token_range_ e) u = true ∧ 0 < u < 2 ^ 54.

(** A request that may start a stream, now that [m] is the state. *)
Definition stream_allowed {C} (e : manager_env) (disk_emergency : bool) (token file_id : slice) (is_test_dc : bool)
    (m : @manager C) : Prop :=
  disk_emergency = false ∧ close_flag_ m = false ∧ file_streaming_enabled_ e = true ∧
  Z.of_nat (base.size (active_file_stream_ids_ m)) < file_stream_max_connections_ e ∧
  streams_of (make_token_key token is_test_dc) (active_file_stream_token_ m) < per_bot_limit e ∧
  (∃ u, token_ok e token u) ∧ file_id ≠ [] ∧ slen file_id <= 4096.

Definition streams_same {C} (m m' : @manager C) : Prop :=
  active_file_stream_ids_ m' = active_file_stream_ids_ m ∧
  active_file_streams_by_token_ m' = active_file_streams_by_token_ m ∧
  active_file_stream_token_ m' = active_file_stream_token_ m.

(** Messages other than those of the end. *)
Definition ordinary (a : maction) : bool :=
  match a with PromiseSet _ | StopManager => false | _ => true end.

(** Nothing about closing changes. *)
Definition closing_same {C} (m m' : @manager C) : Prop :=
  close_flag_ m' = close_flag_ m ∧ close_db_started_ m' = close_db_started_ m ∧
  close_finished_ m' = close_finished_ m ∧ close_promises_ m' = close_promises_ m ∧
  ∃ l, outs m' = outs m ++ l ∧ Forall (fun a => ordinary a = true) l.

Lemma closing_outs {C} (m m' : @manager C) l :
  Forall (fun a => ordinary a = true) l →
  close_flag_ m' = close_flag_ m → close_db_started_ m' = close_db_started_ m →
  close_finished_ m' = close_finished_ m → close_promises_ m' = close_promises_ m →
  outs m' = outs m ++ l → closing_same m m'.
Proof. intros. unfold closing_same. eauto 10. Qed.

Section Admission.
Context {C : Type} `{IdStoreLaws ClientInfo C} (e : manager_env).
Context (Hmax : 0 <= file_stream_max_connections_ e < 2 ^ 31).

Lemma stream_request_spec d token file_id (m : @manager C) :
  match stream_request_error e d token file_id m with
  | Ok u => d = false ∧ close_flag_ m = false ∧ file_streaming_enabled_ e = true ∧
            Z.of_nat (base.size (active_file_stream_ids_ m)) < file_stream_max_connections_ e ∧
            token_ok e token u ∧ file_id ≠ [] ∧ slen file_id <= 4096
  | Err _ _ => ∀ dc, ¬ stream_allowed e d token file_id dc m
  end.
Proof.
  unfold stream_request_error, stream_allowed, token_ok. rewrite wrap_small by lia.
  destruct d; [naive_solver|]. destruct (close_flag_ m); [naive_solver|].
  destruct (file_streaming_enabled_ e); [|naive_solver]. cbn [negb].
  destruct (Z.leb_spec (file_stream_max_connections_ e) (Z.of_nat (base.size (active_file_stream_ids_ m))));
    [intros dc (_ & _ & _ & ? & _); lia|].
  assert (Hnil : token = [] → bad_token_text token = true).
  { intros ->. unfold bad_token_text. rewrite (bool_decide_true (":"%char ∉ [])) by apply not_elem_of_nil. by rewrite orb_true_r. }
  case_bool_decide as Et; simpl; [rewrite Hnil by done; naive_solver|].
  destruct (bad_token_text token); [naive_solver|].
  destruct (token_user token) as [u|]; [|naive_solver].
  destruct (Z.leb_spec u 0), (Z.leb_spec (2 ^ 54) u); simpl;
    try (intros dc (_ & _ & _ & _ & _ & (u' & _ & [= <-] & _ & ?) & _); lia).
  destruct (token_range (token_range_ e) u) eqn:Er; simpl;
    [|intros dc (_ & _ & _ & _ & _ & (u' & _ & [= <-] & Hr & ?) & _); congruence].
  case_bool_decide as Ef; simpl; [naive_solver|].
  destruct (Z.ltb_spec 4096 (slen file_id)); [intros dc (_ & _ & _ & _ & _ & _ & _ & ?); lia|].
  split_and!; done || lia.
Qed.

(** The stream of a token that has a client. *)
Lemma start_stream_ok g (m : @manager C) stream sid id k file_id size :
  manager_ok e g m → token_to_id_ m !! k = Some id → sid ∉ active_file_stream_ids_ m →
  Z.of_nat (base.size (active_file_stream_ids_ m)) < file_stream_max_connections_ e →
  streams_of k (active_file_stream_token_ m) < per_bot_limit e →
  ∃ m', start_stream stream sid id k file_id size m = Some m' ∧ manager_ok e g m' ∧ closing_same m m' ∧
    token_to_id_ m' = token_to_id_ m ∧
    outs m' = outs m ++ [StreamSetClient stream id; ClientStartFileStream id stream sid file_id size] ∧
    active_file_stream_token_ m' = <[sid := k]> (active_file_stream_token_ m).
Proof.
  intros [Hs Hc Ha Hf] Hk Hn Htot Hq. unfold start_stream.
  destruct (proj1 (cl_tokens _ _ Hc k id) Hk) as (info & Hid & _). cbn.
  rewrite (st_get_live _ _ _ (cl_wf _ _ Hc) Hid). cbn [mbind option_bind].
  eexists. split; [done|]. split; [split; cbn; try done|].
  - apply streams_start; try done. by rewrite (so_exact _ _ _ _ Hs).
  - cbn. rewrite <- app_assoc. split; [|done].
    apply closing_outs with [StreamSetClient stream id; ClientStartFileStream id stream sid file_id size]; try done.
    + by repeat constructor.
    + cbn. by rewrite <- app_assoc.
Qed.

Lemma closing_trans (m1 m2 m3 : @manager C) : closing_same m1 m2 → closing_same m2 m3 → closing_same m1 m3.
Proof.
  intros (A1 & A2 & A3 & A4 & l & Hl & Fl) (B1 & B2 & B3 & B4 & k & Hk & Fk).
  apply closing_outs with (l ++ k); try congruence; [by apply Forall_app|].
  by rewrite Hk, Hl, app_assoc.
Qed.

Lemma send_out_ok g a (m : @manager C) : manager_ok e g m → manager_ok e g (send_out a m).
Proof. by intros []. Qed.

Lemma send_out_closing a (m : @manager C) : ordinary a = true → closing_same m (send_out a m).
Proof. intros Ha. apply closing_outs with [a]; try done. by repeat constructor. Qed.

(** The flood controls and the creation of a client: the part of [send] and
    [send_file_stream] for a token without one. *)
Lemma flood_checks_ok g ip now now' (m : @manager C) :
  manager_ok e g m → (g.2 <= now)%Q → (now <= now')%Q →
  ∃ refused m1, check_ip_flood e ip now m = Some (refused, m1) ∧ refusal now refused ∧
    manager_ok e (g.1, now') m1 ∧ closing_same m m1 ∧ outs m1 = outs m ∧ token_to_id_ m1 = token_to_id_ m ∧
    clients_ m1 = clients_ m ∧ streams_same m m1 ∧
  ∃ refused' m2, check_global_flood now' m1 = Some (refused', m2) ∧ refusal now' refused' ∧
    manager_ok e (g.1, now') m2 ∧ closing_same m m2 ∧ outs m2 = outs m ∧ token_to_id_ m2 = token_to_id_ m ∧
    clients_ m2 = clients_ m ∧ streams_same m m2.
Proof.
  intros [Hs Hc Ha Hf] Hle Hle'.
  destruct (check_ip_flood_ok e ip g.2 now m Hf Hle) as (refused & controls & -> & Hf1 & Href).
  exists refused, (set_flood_controls_ controls m). split; [done|]. split; [done|].
  split; [split; cbn; try done; by apply floods_later with now|].
  split; [apply closing_outs with []; try done; cbn; by rewrite app_nil_r|].
  do 3 (split; [done|]). split; [done|].
  destruct (check_global_flood_ok now now' (set_flood_controls_ controls m) Hf1 Hle') as (refused' & f & -> & Hf2 & Href').
  eexists refused', _. split; [done|]. split; [done|]. split; [by split|].
  split; [apply closing_outs with []; try done; cbn; by rewrite app_nil_r|]. done.
Qed.

Lemma new_client_ok g token key dc u (m : @manager C) :
  manager_ok e g m → token_to_id_ m !! key = None → 0 < u → room m →
  ∃ id clients', create_client token key dc u m =
      Some (id, send_out (CreateClient id token dc (get_tqueue_id u dc)) (set_clients_ clients' m)) ∧
    st_get clients' id = Some (mkInfo key (get_tqueue_id u dc) true) ∧
    manager_ok e g (emplace_token key id (send_out (CreateClient id token dc (get_tqueue_id u dc)) (set_clients_ clients' m))).
Proof.
  intros [Hs Hc Ha Hf] Hnone Hu Hroom.
  destruct (create_client_ok g.1 (active_client_count_ m) token key dc u m Hc Ha Hnone Hu Hroom)
    as (id & clients' & -> & Hc' & Ha' & Hid).
  exists id, clients'. split; [done|]. split; [by apply (st_get_live _ _ _ (cl_wf _ _ Hc'))|]. by split.
Qed.

(** What a stream request comes to. *)
Definition stream_refused (stream : Z) (m m' : @manager C) : Prop :=
  ∃ code msg, outs m' = outs m ++ [StreamError stream code msg] ∧ streams_same m m' ∧
              token_to_id_ m' = token_to_id_ m.

Definition stream_started (stream sid : Z) (k token : slice) (dc : bool) (file_id : slice) (size : Z)
    (m m' : @manager C) : Prop :=
  ∃ id l, outs m' = outs m ++ l ++ [StreamSetClient stream id; ClientStartFileStream id stream sid file_id size] ∧
    token_to_id_ m' !! k = Some id ∧ active_file_stream_token_ m' = <[sid := k]> (active_file_stream_token_ m) ∧
    (token_to_id_ m !! k = Some id ∧ l = [] ∨
     token_to_id_ m !! k = None ∧ ∃ tqueue_id, l = [CreateClient id token dc tqueue_id]).

Lemma stream_fail_ok g stream code msg (m m1 : @manager C) :
  manager_ok e g m1 → closing_same m m1 → outs m1 = outs m → streams_same m m1 → token_to_id_ m1 = token_to_id_ m →
  let m' := send_out (StreamError stream code msg) m1 in
  manager_ok e g m' ∧ closing_same m m' ∧ stream_refused stream m m'.
Proof.
  intros Hok Hc Ho Hs Ht. split; [by apply send_out_ok|].
  split; [eapply closing_trans; [exact Hc|by apply send_out_closing]|].
  exists code, msg. cbn. by rewrite Ho.
Qed.

Lemma send_file_stream_ok g (m : @manager C) d now now' stream sid token dc file_id size peer :
  manager_ok e g m → event_ok g m (SendFileStream d now now' stream sid token dc file_id size peer) →
  let k := make_token_key token dc in
  ∃ m', send_file_stream e d now now' stream sid token dc file_id size peer m = Some m' ∧
    manager_ok e (g.1, now') m' ∧ closing_same m m' ∧
    (stream_refused stream m m' ∧ ¬ (stream_allowed e d token file_id dc m ∧ is_Some (token_to_id_ m !! k)) ∨
     stream_started stream sid k token dc file_id size m m' ∧ stream_allowed e d token file_id dc m).
Proof.
  intros Hok (_ & Hle & Hle' & Hsid & Hroom) k.
  assert (manager_ok e (g.1, now') m) as Hok'.
  { destruct Hok as [? ? ? Hf]. split; try done. eapply floods_later; [exact Hf|]. simpl. by apply Qle_trans with now. }
  assert (closing_same m m) as Hrefl by (apply closing_outs with []; rewrite ?app_nil_r; done).
  unfold send_file_stream. pose proof (stream_request_spec d token file_id m) as Hreq.
  destruct (stream_request_error e d token file_id m) as [u|code msg].
  2:{ eexists. split; [done|].
      destruct (stream_fail_ok _ stream code msg m m Hok' Hrefl) as (? & ? & ?); try done.
      split; [done|]. split; [done|]. left. split; [done|]. intros [Ha _]. by apply (Hreq dc). }
  destruct Hreq as (Hd & Hcl & Hen & Htot & Htok & Hfile & Hlen).
  pose proof (so_exact _ _ _ _ (mo_streams _ _ _ Hok)) as Hexact. rewrite Hexact. fold k.
  destruct (Z.leb_spec (per_bot_limit e) (streams_of k (active_file_stream_token_ m))) as [Hq|Hq].
  { eexists. split; [done|].
    destruct (stream_fail_ok _ stream 429 (lit "Too many active file streams for this token") m m Hok' Hrefl)
      as (? & ? & ?); try done.
    split; [done|]. split; [done|]. left. split; [done|]. intros [(_ & _ & _ & _ & Hq' & _) _]. fold k in Hq'. lia. }
  assert (stream_allowed e d token file_id dc m) as Hallowed by (split_and!; try done; by exists u).
  destruct (token_to_id_ m !! k) as [id|] eqn:Ek.
  { destruct (start_stream_ok _ m stream sid id k file_id size Hok' Ek Hsid Htot Hq)
      as (m' & -> & Hm' & Hclose & Ht & Ho & Hs).
    eexists. split; [done|]. split; [done|]. split; [done|]. right. split; [|done].
    exists id, []. rewrite Ht. do 3 (split; [done|]). by left. }
  destruct (flood_checks_ok g peer now now' m Hok Hle Hle')
    as (r1 & m1 & -> & _ & Hok1 & Hc1 & Ho1 & Ht1 & _ & Hs1 & r2 & m2 & Hg & _ & Hok2 & Hc2 & Ho2 & Ht2 & Hcl2 & Hs2).
  cbn [mbind option_bind].
  assert (Hrefuse : ∀ m1, manager_ok e (g.1, now') m1 → closing_same m m1 → outs m1 = outs m → streams_same m m1 →
    token_to_id_ m1 = token_to_id_ m → ∃ m', Some (send_out (StreamError stream 429 (lit "Too many authentication attempts")) m1) = Some m' ∧
    manager_ok e (g.1, now') m' ∧ closing_same m m' ∧
    (stream_refused stream m m' ∧ ¬ (stream_allowed e d token file_id dc m ∧ is_Some (None : option Z)) ∨
     stream_started stream sid k token dc file_id size m m' ∧ stream_allowed e d token file_id dc m)).
  { intros m' A1 A2 A3 A4 A5. eexists. split; [done|].
    destruct (stream_fail_ok _ stream 429 (lit "Too many authentication attempts") m m' A1 A2 A3 A4 A5) as (? & ? & ?).
    split; [done|]. split; [done|]. left. split; [done|]. by intros [_ [? ?]]. }
  destruct r1; [by apply Hrefuse|]. rewrite Hg. cbn [mbind option_bind]. destruct r2; [by apply Hrefuse|].
  assert (token_to_id_ m2 !! k = None) as Hnone by by rewrite Ht2.
  assert (0 < u) as Hu by (destruct Htok as (_ & _ & _ & ?); lia).
  destruct (new_client_ok (g.1, now') token k dc u m2 Hok2 Hnone Hu) as (id & clients' & -> & _ & Hnew);
    [unfold room; by rewrite Hcl2|].
  cbn [mbind option_bind]. destruct Hs2 as (S1 & S2 & S3).
  destruct (start_stream_ok _ _ stream sid id k file_id size Hnew (lookup_insert_eq _ _ _))
    as (m' & -> & Hm' & Hclose & Ht & Ho & Hs); [cbn; by rewrite ?S1, ?S3..|].
  eexists. split; [done|]. split; [done|]. split.
  - eapply closing_trans; [exact Hc2|]. eapply closing_trans; [|exact Hclose].
    by apply send_out_closing with (a := CreateClient id token dc (get_tqueue_id u dc)) (m := m2).
  - right. split; [|done]. eexists id, _. rewrite Ht, Ho, Hs. cbn. rewrite Ho2, S3, <- app_assoc.
    split; [done|]. split; [apply lookup_insert_eq|]. split; [done|]. right. by eauto.
Qed.

(** What a query comes to: its one answer, or its client. *)
Definition query_answered (q : Query) (m m' : @manager C) : Prop :=
  ∃ a q', give_answer q a = Some q' ∧ outs m' = outs m ++ [QueryAnswered q'] ∧ token_to_id_ m' = token_to_id_ m.

Definition query_forwarded (q : Query) (k : slice) (m m' : @manager C) : Prop :=
  ∃ id l, outs m' = outs m ++ l ++ [ClientSend id q] ∧ token_to_id_ m' !! k = Some id ∧
    (token_to_id_ m !! k = Some id ∧ l = [] ∨
     token_to_id_ m !! k = None ∧ ∃ tqueue_id restore,
       l = CreateClient id (q_token q) (q_is_test_dc q) tqueue_id :: (ClientSend id <$> restore) ∧
       Forall (fun r => q_is_internal r = true) restore).

(** A query the server passes on when the token has a client. *)
Definition query_allowed (q : Query) (m : @manager C) : Prop :=
  close_flag_ m = false ∧ ∃ u, token_ok e (q_token q) u.

Lemma answer_out_ok g q a (m m1 : @manager C) :
  q_state q = StQuery → is_Some (give_answer q a) →
  manager_ok e g m1 → closing_same m m1 → outs m1 = outs m → streams_same m m1 → token_to_id_ m1 = token_to_id_ m →
  ∃ m', answer_out (give_answer q a) m1 = Some m' ∧ manager_ok e g m' ∧ closing_same m m' ∧ streams_same m m' ∧
        query_answered q m m'.
Proof.
  intros Hst [q' Hq] Hok Hc Ho Hs Ht. unfold answer_out. rewrite Hq. cbn [mbind option_bind].
  rewrite (give_answer_deleted q a q' Hq).
  cbn [mbind option_bind]. eexists. split; [done|]. split; [by apply send_out_ok|].
  split; [eapply closing_trans; [exact Hc|by apply send_out_closing]|]. split; [done|].
  exists a, q'. cbn. by rewrite Ho.
Qed.

Lemma retry_seconds_positive now w : (now < w)%Q → 0 <= retry_seconds w now.
Proof.
  intros Hlt. unfold retry_seconds. assert (0 <= Qfloor (w - now)); [|lia].
  change 0 with (Qfloor 0). apply Qfloor_resp_le. apply Qlt_le_weak. by apply Qlt_minus_iff in Hlt.
Qed.

Lemma restore_webhook_outs id q (m : @manager C) :
  ∃ restore, restore_webhook e id q m = set_outs (outs m ++ (ClientSend id <$> restore)) m ∧
             Forall (fun r => q_is_internal r = true) restore.
Proof.
  assert (m = set_outs (outs m ++ (ClientSend id <$> [])) m) as Hnil by (cbn; rewrite app_nil_r; by destruct m).
  unfold restore_webhook. destruct (_ || _); [by exists []|]. case_bool_decide; [by exists []|].
  eexists [_]. split; [done|]. constructor; [|constructor]. unfold get_webhook_restore_query.
  repeat (case_match; simplify_eq); done.
Qed.

Lemma query_allowed_or q (m : @manager C) : query_allowed q m ∨ ¬ query_allowed q m.
Proof.
  unfold query_allowed, token_ok. destruct (close_flag_ m); [right; by intros []|].
  destruct (bad_token_text _); [right; by intros (_ & u & ? & _)|].
  destruct (token_user _) as [u|]; [|right; by intros (_ & u & _ & ? & _)].
  destruct (token_range (token_range_ e) u) eqn:Er.
  2:{ right. intros (_ & u' & _ & [= <-] & ? & _). congruence. }
  destruct (decide (0 < u < 2 ^ 54)); [left; split; [done|]; by exists u|].
  right. by intros (_ & u' & _ & [= <-] & _ & ?).
Qed.

(** The answer of [send] to a token the server is not responsible for. *)
Lemma bad_token_answered g now now' peer q (m : @manager C) :
  manager_ok e g m → q_state q = StQuery → ¬ query_allowed q m →
  ∃ a, send e now now' peer q m = answer_out (give_answer q a) m ∧ is_Some (give_answer q a).
Proof.
  intros Hok Hst Hbad. unfold send.
  assert (Herr : ∀ code text, signed_range 32 code → check_utf8 text = true → is_Some (give_answer q (AnswerError code text [])))
    by (intros; by apply give_answer_total).
  destruct (close_flag_ m) eqn:Ecl.
  { exists (AnswerRetry 5). assert (is_Some (give_answer q (AnswerRetry 5))) as [q' Hq] by (by apply give_answer_total).
    split; [|by eexists]. unfold answer_out. rewrite Hq. cbn [mbind option_bind].
    rewrite (give_answer_deleted q _ q' Hq). unfold delete_query, is_ready.
    rewrite bool_decide_eq_true_2 by done. cbn [negb]. by rewrite <- Hq. }
  destruct (bad_token_text (q_token q)) eqn:Et; [eexists (AnswerError 401 _ []); split; [done|by apply Herr]|].
  destruct (token_user (q_token q)) as [u|] eqn:Eu; [|eexists (AnswerError 421 _ []); split; [done|by apply Herr]].
  destruct (token_range (token_range_ e) u) eqn:Er; [|eexists (AnswerError 421 _ []); split; [done|by apply Herr]].
  destruct ((u <=? 0) || (2 ^ 54 <=? u)) eqn:Eb; [eexists (AnswerError 401 _ []); split; [done|by apply Herr]|].
  exfalso. apply Hbad. split; [done|]. exists u. split_and!; try done; lia.
Qed.

Lemma send_allowed now now' peer q u (m : @manager C) :
  close_flag_ m = false → token_ok e (q_token q) u →
  send e now now' peer q m =
    let token := make_token_key (q_token q) (q_is_test_dc q) in
    match token_to_id_ m !! token with
    | Some id => send_to_client id q m
    | None =>
        if bool_decide (q_method q = lit "close")
        then answer_out (give_answer q (AnswerError 400 (lit "Bad Request: the bot has already been closed") [])) m
        else
          '(refused, m) ← check_ip_flood e peer now m;
          match refused with
          | Some wakeup_at => answer_out (give_answer q (AnswerRetry (retry_seconds wakeup_at now))) m
          | None =>
              '(refused, m) ← check_global_flood now' m;
              match refused with
              | Some wakeup_at => answer_out (give_answer q (AnswerRetry (retry_seconds wakeup_at now'))) m
              | None =>
                  '(id, m) ← create_client (q_token q) token (q_is_test_dc q) u m;
                  send_to_client id q (emplace_token token id (restore_webhook e id q m))
              end
          end
    end.
Proof.
  intros Hcl (Ht & Hu & Hr & Hb). unfold send. rewrite Hcl, Ht, Hu, Hr.
  destruct (Z.leb_spec u 0), (Z.leb_spec (2 ^ 54) u); try lia. done.
Qed.

(** A query of a new token goes to the client made for it. *)
Lemma send_new_ok g u q k (m m2 : @manager C) :
  manager_ok e g m2 → closing_same m m2 → outs m2 = outs m → token_to_id_ m2 = token_to_id_ m → streams_same m m2 →
  token_to_id_ m !! k = None → 0 < u → room m2 →
  ∃ m', ('(id, m) ← create_client (q_token q) k (q_is_test_dc q) u m2;
         send_to_client id q (emplace_token k id (restore_webhook e id q m))) = Some m' ∧
    manager_ok e g m' ∧ closing_same m m' ∧ streams_same m m' ∧ query_forwarded q k m m'.
Proof.
  intros Hok Hc Ho Ht Hs Hnone Hu Hroom. rewrite <- Ht in Hnone.
  destruct (new_client_ok g (q_token q) k (q_is_test_dc q) u m2 Hok Hnone Hu Hroom) as (id & clients' & -> & Hid & Hnew).
  cbn [mbind option_bind].
  destruct (restore_webhook_outs id q (send_out (CreateClient id (q_token q) (q_is_test_dc q)
    (get_tqueue_id u (q_is_test_dc q))) (set_clients_ clients' m2))) as (restore & -> & Hint).
  unfold send_to_client. cbn. rewrite Hid. cbn [mbind option_bind]. eexists. split; [done|].
  split; [by destruct Hnew; split|]. set (cr := CreateClient id (q_token q) (q_is_test_dc q) (get_tqueue_id u (q_is_test_dc q))).
  set (l := cr :: (ClientSend id <$> restore)).
  assert (((outs m2 ++ [cr]) ++ (ClientSend id <$> restore)) ++ [ClientSend id q] = outs m ++ l ++ [ClientSend id q])
    as Houts by (rewrite Ho; unfold l; by rewrite <- !app_assoc).
  split; [|split; [done|]].
  - destruct Hc as (? & ? & ? & ? & _). apply closing_outs with (l ++ [ClientSend id q]); try done.
    apply Forall_app. split; [|by repeat constructor]. constructor; [done|].
    apply Forall_fmap, Forall_true. done.
  - exists id, l. split; [done|]. split; [apply lookup_insert_eq|]. right. rewrite <- Ht. split; [done|].
    by eexists _, restore.
Qed.

Lemma send_ok g (m : @manager C) now now' peer q :
  manager_ok e g m → event_ok g m (Send now now' peer q) →
  let k := make_token_key (q_token q) (q_is_test_dc q) in
  ∃ m', send e now now' peer q m = Some m' ∧ manager_ok e (g.1, now') m' ∧ closing_same m m' ∧ streams_same m m' ∧
    (query_answered q m m' ∧ ¬ (query_allowed q m ∧ is_Some (token_to_id_ m !! k)) ∨
     query_forwarded q k m m' ∧ query_allowed q m).
Proof.
  intros Hok (_ & Hle & Hle' & Hst & Hroom) k.
  assert (manager_ok e (g.1, now') m) as Hok'.
  { destruct Hok as [? ? ? Hf]. split; try done. eapply floods_later; [exact Hf|]. simpl. by apply Qle_trans with now. }
  assert (closing_same m m) as Hrefl by (apply closing_outs with []; rewrite ?app_nil_r; done).
  destruct (query_allowed_or q m) as [Hall|Hbad].
  2:{ destruct (bad_token_answered g now now' peer q m Hok Hst Hbad) as (a & -> & Ha).
      destruct (answer_out_ok _ q a m m Hst Ha Hok' Hrefl) as (m' & -> & ? & ? & ? & ?); try done.
      exists m'. do 4 (split; [done|]). left. split; [done|]. tauto. }
  destruct Hall as [Hcl [u Htok]]. rewrite (send_allowed now now' peer q u m Hcl Htok). cbv zeta. fold k.
  assert (query_allowed q m) as Hall by (split; [done|by exists u]).
  destruct (token_to_id_ m !! k) as [id|] eqn:Ek.
  { unfold send_to_client. destruct (proj1 (cl_tokens _ _ (mo_clients _ _ _ Hok) k id) Ek) as (info & Hid & _).
    rewrite (st_get_live _ _ _ (cl_wf _ _ (mo_clients _ _ _ Hok)) Hid). cbn [mbind option_bind].
    eexists. split; [done|]. split; [by apply send_out_ok|]. split; [by apply send_out_closing|]. split; [done|].
    right. split; [|done]. exists id, []. split; [done|]. split; [done|]. by left. }
  assert (Hans : ∀ a m1, is_Some (give_answer q a) → manager_ok e (g.1, now') m1 → closing_same m m1 → outs m1 = outs m →
    streams_same m m1 → token_to_id_ m1 = token_to_id_ m → ∃ m', answer_out (give_answer q a) m1 = Some m' ∧
    manager_ok e (g.1, now') m' ∧ closing_same m m' ∧ streams_same m m' ∧
    (query_answered q m m' ∧ ¬ (query_allowed q m ∧ is_Some (None : option Z)) ∨ query_forwarded q k m m' ∧ query_allowed q m)).
  { intros a m1 Ha B1 B2 B3 B4 B5. destruct (answer_out_ok _ q a m m1 Hst Ha B1 B2 B3 B4 B5) as (m' & -> & ? & ? & ? & ?).
    exists m'. do 4 (split; [done|]). left. split; [done|]. by intros [_ [? ?]]. }
  case_bool_decide; [apply Hans; try done; by apply give_answer_total|].
  destruct (flood_checks_ok g peer now now' m Hok Hle Hle')
    as (r1 & m1 & -> & R1 & Hok1 & Hc1 & Ho1 & Ht1 & _ & Hs1 & r2 & m2 & Hg & R2 & Hok2 & Hc2 & Ho2 & Ht2 & Hcl2 & Hs2).
  cbn [mbind option_bind].
  destruct r1; [by apply Hans; try done; apply give_answer_total; try done; apply retry_seconds_positive|].
  rewrite Hg. cbn [mbind option_bind].
  destruct r2; [by apply Hans; try done; apply give_answer_total; try done; apply retry_seconds_positive|].
  destruct (send_new_ok _ u q k m m2 Hok2 Hc2 Ho2 Ht2 Hs2 Ek) as (m' & -> & ? & ? & ? & ?);
    [destruct Htok as (_ & _ & _ & ?); lia|unfold room; by rewrite Hcl2|].
  exists m'. do 4 (split; [done|]). by right.
Qed.
End Admission.

(** ** Closing *)

Definition promises_set (l : list maction) : list Z :=
  omap (fun a => match a with PromiseSet p => Some p | _ => None end) l.

(** The promises of [close], answered all at once when everything closed. *)
Record closes_ok {C} (promises : list Z) (m : @manager C) : Prop := {
  cs_flag : promises = [] ∨ close_flag_ m = true;
  cs_db : close_db_started_ m = true → close_flag_ m = true;
  cs_finished : if close_finished_ m
                then close_flag_ m = true ∧ close_promises_ m = [] ∧ promises_set (outs m) = promises ∧
                     ∃ l, outs m = l ++ [StopManager] ∧ StopManager ∉ l
                else close_promises_ m = promises ∧ promises_set (outs m) = [] ∧ StopManager ∉ outs m
}.

Definition event_promises (ev : mevent) : list Z := match ev with Close p => [p] | _ => [] end.

Lemma ordinary_promises l : Forall (fun a => ordinary a = true) l → promises_set l = [] ∧ StopManager ∉ l.
Proof.
  induction 1 as [|a l Ha _ [IH1 IH2]]; [split; [done|apply not_elem_of_nil]|].
  split; [by destruct a|]. rewrite not_elem_of_cons. split; [by intros <-|done].
Qed.

Lemma ordinary_closes {C} (m m' : @manager C) promises l :
  Forall (fun a => ordinary a = true) l → outs m' = outs m ++ l →
  closes_ok promises m → close_finished_ m = false →
  close_finished_ m' = false → close_promises_ m' = close_promises_ m →
  (close_flag_ m = true → close_flag_ m' = true) → (close_db_started_ m' = true → close_flag_ m' = true) →
  closes_ok promises m'.
Proof.
  intros Hl Ho [Hflag Hdb Hfin] Hf Hf' Hp Hfl Hd. rewrite Hf in Hfin. destruct Hfin as (Hpr & Hset & Hstop).
  destruct (ordinary_promises l Hl) as [Hl1 Hl2].
  split; [naive_solver|done|]. rewrite Hf', Ho, Hp. split; [done|]. split.
  - unfold promises_set in *. by rewrite omap_app, Hset, Hl1.
  - rewrite elem_of_app. tauto.
Qed.

Lemma same_closes {C} (m m' : @manager C) promises :
  closing_same m m' → closes_ok promises m → close_finished_ m = false → closes_ok promises m'.
Proof.
  intros (A1 & A2 & A3 & A4 & l & Hl & Fl) Hok Hf.
  apply (ordinary_closes m m' promises l); try done; rewrite ?A1, ?A2, ?A3; try done. apply (cs_db _ _ Hok).
Qed.

Section Closing.
Context {C : Type}.
Implicit Types m : @manager C.

Lemma finish_close_eq m :
  close_finished_ m = false →
  finish_close m = set_outs (outs m ++ CancelTimeout :: (PromiseSet <$> close_promises_ m) ++ [StopManager])
                     (set_close_promises_ [] (set_close_finished_ true m)).
Proof.
  intros Hf. unfold finish_close. rewrite Hf. cbn [close_promises_ send_out set_outs set_close_finished_].
  assert (∀ l (k : @manager C), foldl (fun m p => send_out (PromiseSet p) m) k l = set_outs (outs k ++ (PromiseSet <$> l)) k)
    as ->.
  { induction l as [|p l IH]; intros k; cbn; [rewrite app_nil_r; by destruct k|].
    rewrite IH. unfold send_out, set_outs. cbn. by rewrite <- app_assoc. }
  unfold send_out, set_outs, set_close_promises_, set_close_finished_. cbn. by rewrite <- !app_assoc.
Qed.

Lemma finish_close_closes m promises :
  closes_ok promises m → close_finished_ m = false → close_flag_ m = true → closes_ok promises (finish_close m).
Proof.
  intros [Hflag Hdb Hfin] Hf Hcl. rewrite Hf in Hfin. destruct Hfin as (Hpr & Hset & Hstop).
  rewrite finish_close_eq by done. split; cbn; [by right|done|].
  split; [done|]. split; [done|]. rewrite Hpr. split.
  - unfold promises_set in *. rewrite omap_app, Hset. cbn. rewrite omap_app. cbn. rewrite app_nil_r.
    clear. induction promises; cbn; by f_equal.
  - exists (outs m ++ CancelTimeout :: (PromiseSet <$> promises)). split; [by rewrite <- app_assoc|].
    rewrite elem_of_app, elem_of_cons, list_elem_of_fmap. naive_solver.
Qed.

Lemma close_db_outs m :
  ∃ l started, close_db m = set_outs (outs m ++ l) (set_close_db_started_ started m) ∧ Forall (fun a => ordinary a = true) l.
Proof.
  unfold close_db. destruct (close_db_started_ m || close_finished_ m) eqn:E.
  - exists [], (close_db_started_ m). split; [|constructor]. rewrite app_nil_r. by destruct m.
  - exists [SetTimeout 10; TQueueClose; WebhookDbClose], true. split; [|by repeat constructor].
    unfold send_out, set_outs, set_close_db_started_. cbn. by rewrite <- !app_assoc.
Qed.
End Closing.

Section CloseClients.
Context {C : Type} `{IdStoreLaws ClientInfo C}.

Lemma close_clients_outs ids (m : @manager C) :
  st_wf (clients_ m) → Forall (fun id => is_Some (st_contents (clients_ m) !! id)) ids →
  close_clients ids m = Some (set_outs (outs m ++ (ClientClose <$> ids)) m).
Proof.
  intros Hwf Hids. revert m Hwf Hids. induction ids as [|id ids IH]; intros m Hwf Hids; cbn.
  { rewrite app_nil_r. by destruct m. }
  apply Forall_cons in Hids as [[info Hid] Hids]. rewrite (st_get_live _ _ _ Hwf Hid). cbn [mbind option_bind].
  rewrite IH by done. unfold send_out, set_outs. cbn. by rewrite <- app_assoc.
Qed.

(** The last client gone, no client is counted as active. *)
Lemma no_clients_no_actives active (clients : C) counts :
  actives_ok active clients counts → st_contents clients = ∅ → counts = ∅.
Proof.
  intros [Hlive Hex Hpos] He. rewrite He, dom_empty_L in Hlive. assert (active = ∅) as Ha by set_solver.
  apply map_eq. intros t. rewrite lookup_empty. destruct (counts !! t) as [n|] eqn:E; [|done].
  pose proof (Hex t) as Ht. rewrite E, Ha in Ht. unfold active_with in Ht. rewrite filter_empty_L in Ht by apply _. rewrite size_empty in Ht.
  specialize (Hpos t n E). simpl in Ht. lia.
Qed.
End CloseClients.

(** ** Runs preserve the invariants *)

Section Steps.
Context {C : Type} `{IdStoreLaws ClientInfo C} (e : manager_env).
Context (Hmax : 0 <= file_stream_max_connections_ e < 2 ^ 31).
Implicit Types (m : @manager C) (g : ghost).

Lemma close_ok g m promises p :
  manager_ok e g m → closes_ok promises m → close_finished_ m = false →
  ∃ m', close p m = Some m' ∧ manager_ok e g m' ∧ closes_ok (promises ++ [p]) m'.
Proof.
  intros Hok [Hflag Hdb Hfin] Hf. rewrite Hf in Hfin. destruct Hfin as (Hpr & Hset & Hstop).
  assert (∀ m', close_promises_ m' = close_promises_ m ++ [p] → close_flag_ m' = true → close_finished_ m' = false →
    (∃ l, outs m' = outs m ++ l ∧ Forall (fun a => ordinary a = true) l) → closes_ok (promises ++ [p]) m') as Hcloses.
  { intros m' E1 E2 E3 (l & E4 & Hl). destruct (ordinary_promises l Hl) as [Hl1 Hl2].
    split; [by right|done|]. rewrite E3, E1, E4, Hpr. split; [done|]. split.
    - unfold promises_set in *. by rewrite omap_app, Hset, Hl1.
    - rewrite elem_of_app. tauto. }
  unfold close. cbn [close_flag_ set_close_promises_]. destruct (close_flag_ m) eqn:Ecl.
  { eexists. split; [done|]. split; [by destruct Hok; split|]. apply Hcloses; try done.
    exists []. cbn. by rewrite app_nil_r. }
  rewrite close_clients_outs; cbn; [|apply Hok|].
  2:{ apply Forall_forall. intros id Hid. apply (st_ids_contents _ _ (cl_wf _ _ (mo_clients _ _ _ Hok))). exact Hid. }
  eexists. split; [done|]. case_bool_decide.
  - match goal with |- context [close_db ?k] => destruct (close_db_outs k) as (l & started & -> & Hl) end.
    split; [by destruct Hok; split|]. apply Hcloses; try done.
    exists ([WatchdogStop; SetTimeout 30] ++ (ClientClose <$> st_ids (clients_ m)) ++ l). cbn.
    rewrite <- !app_assoc. split; [done|]. constructor; [done|]. constructor; [done|].
    apply Forall_app. split; [by apply Forall_fmap, Forall_true|done].
  - split; [by destruct Hok; split|]. apply Hcloses; try done.
    exists ([WatchdogStop; SetTimeout 30] ++ (ClientClose <$> st_ids (clients_ m))). cbn.
    rewrite <- !app_assoc. split; [done|]. constructor; [done|]. constructor; [done|].
    by apply Forall_fmap, Forall_true.
Qed.

Lemma hangup_ok g m promises id :
  manager_ok e g m → closes_ok promises m → event_ok g m (HangupShared id) →
  ∃ m', hangup_shared id m = Some m' ∧ manager_ok e g m' ∧ closes_ok promises m'.
Proof.
  intros Hok Hcs (Hf & [info Hid] & Hna & Hlast). pose proof Hok as [Hs Hc Ha Hfl]. unfold hangup_shared.
  rewrite (st_get_live _ _ _ (cl_wf _ _ Hc) Hid). cbn [mbind option_bind].
  destruct (hangup_clients_ok g.1 _ _ _ id info Hc Ha Hid Hna Hlast) as (Hc' & Ha' & Hcont). cbn.
  set (clients' := st_erase _ id) in *.
  set (m' := set_clients_ clients' (set_token_to_id_ (delete (token_ info) (token_to_id_ m))
               (set_clients_ (st_update (clients_ m) id (fun i => mkInfo (token_ i) (tqueue_id_ i) false)) m))).
  assert (manager_ok e g m') as Hok' by (by split).
  assert (closes_ok promises m') as Hcs' by (by destruct Hcs).
  destruct (close_flag_ m) eqn:Ecl; [|by exists m'].
  rewrite (st_is_empty_contents _ (cl_wf _ _ Hc')). cbn [mbind option_bind].
  case_bool_decide as Hemp; [|by exists m'].
  rewrite (no_clients_no_actives _ _ _ Ha' Hemp). rewrite bool_decide_eq_true_2 by done. cbn [CHECK].
  eexists. split; [done|]. destruct (close_db_outs m') as (l & started & -> & Hl).
  split; [by split|].
  by apply (ordinary_closes m' _ promises l).
Qed.

Lemma timeout_ok g m promises now gc later :
  manager_ok e g m → closes_ok promises m → event_ok g m (TimeoutExpired now gc later) →
  manager_ok e (g.1, later) (timeout_expired e now gc later m) ∧ closes_ok promises (timeout_expired e now gc later m).
Proof.
  intros Hok Hcs (Hf & Hle & Hle'). pose proof Hok as [Hs Hc Ha Hfl].
  pose proof (timeout_floods_ok e g.2 now later gc m Hfl Hle Hle') as Hfl'.
  destruct (close_flag_ m) eqn:Ecl.
  - assert (timeout_expired e now gc later m = finish_close m) as E by (unfold timeout_expired; by rewrite Ecl).
    rewrite E in *. split; [|by apply finish_close_closes]. rewrite finish_close_eq in * by done. by split.
  - split.
    + split; [..|exact Hfl']; unfold timeout_expired; rewrite Ecl; destruct gc as [n fin];
        repeat (case_match; cbn); by cbn.
    + apply (ordinary_closes m _ promises [WatchdogKick; SetTimeout (WATCHDOG_TIMEOUT / 10)]); try done;
        [by repeat constructor|..]; unfold timeout_expired; rewrite Ecl; destruct gc as [n fin];
        repeat (case_match; cbn); cbn; rewrite <- ?app_assoc; try done; by apply (cs_db _ _ Hcs).
Qed.

Lemma manager_step_ok ev g m promises :
  manager_ok e g m → closes_ok promises m → event_ok g m ev →
  ∃ m', manager_step e ev m = Some m' ∧ manager_ok e (ghost_step ev g) m' ∧ closes_ok (promises ++ event_promises ev) m'.
Proof.
  intros Hok Hcs Hev. pose proof Hev as [Hf _].
  destruct ev as [d now now' stream sid token dc file_id size peer|sid|now now' peer q|p| |id|id started|now gc later];
    cbn [manager_step ghost_step event_promises]; rewrite ?app_nil_r.
  - destruct (send_file_stream_ok e Hmax g m _ _ _ _ _ _ _ _ _ _ Hok Hev) as (m' & -> & ? & ? & _).
    exists m'. split; [done|]. split; [done|]. by apply same_closes with m.
  - eexists. split; [done|]. destruct Hok as [Hs Hc Ha Hfl].
    destruct (streams_release e m sid Hs) as [Hs' [by_token E]]. rewrite E in *.
    split; [by split|]. apply same_closes with m; try done. apply closing_outs with []; try done. cbn. by rewrite app_nil_r.
  - destruct (send_ok e Hmax g m _ _ _ _ Hok Hev) as (m' & -> & ? & ? & _).
    exists m'. split; [done|]. split; [done|]. by apply same_closes with m.
  - by apply close_ok.
  - eexists. split; [done|]. destruct Hev as [_ Hdb]. pose proof (cs_db _ _ Hcs Hdb).
    split; [|by apply finish_close_closes]. rewrite finish_close_eq by done. by destruct Hok; split.
  - by apply hangup_ok.
  - destruct Hok as [Hs Hc Ha Hfl], Hev as (_ & Hlive & Hact).
    destruct (raw_event_ok g.1 id started m Hc Ha Hlive Hact) as (counts & -> & Ha').
    eexists. split; [done|]. split; [by split|].
    apply same_closes with m; try done. apply closing_outs with []; try done. cbn. by rewrite app_nil_r.
  - eexists. split; [done|]. by apply timeout_ok with (m := m).
Qed.

Lemma manager_run_ok evs g m promises :
  manager_ok e g m → closes_ok promises m → run_ok e evs g m →
  ∃ m' g', manager_run e evs m = Some m' ∧ manager_ok e g' m' ∧ closes_ok (promises ++ (evs ≫= event_promises)) m'.
Proof.
  revert g m promises. induction evs as [|ev evs IH]; intros g m promises Hok Hcs Hrun; cbn.
  { exists m, g. by rewrite app_nil_r. }
  destruct Hrun as [Hev Hrun]. destruct (manager_step_ok ev g m promises Hok Hcs Hev) as (m1 & E & Hok1 & Hcs1).
  rewrite E in *. cbn. destruct (IH _ _ _ Hok1 Hcs1 Hrun) as (m' & g' & Hr & Hok' & Hcs').
  exists m', g'. split; [done|]. split; [done|]. by rewrite app_assoc.
Qed.

Lemma new_manager_ok : manager_ok e (∅, 0%Q) (new_manager : @manager C) ∧ closes_ok [] (new_manager : @manager C).
Proof.
  split; [split; cbn|split; cbn; [by left|done|]].
  - split; cbn; try done; [change (Z.of_nat (base.size (∅ : gset Z)) <= file_stream_max_connections_ e); rewrite size_empty; lia|]. intros k. unfold streams_of.
    rewrite map_filter_empty, map_size_empty. unfold per_bot_limit. lia.
  - split; [apply st_empty_wf|..]; rewrite st_empty_contents; [|done]. intros k id. rewrite lookup_empty.
    split; [done|]. intros (info & Hi & _). by rewrite lookup_empty in Hi.
  - split; [set_solver| |done]. intros t. unfold active_with. rewrite lookup_empty, filter_empty_L by apply _.
    by rewrite size_empty.
  - by split.
  - split; [done|]. split; [done|]. apply not_elem_of_nil.
Qed.
End Steps.

(** ** Properties *)

(** C14: Along any run of the manager's events that the other actors may cause no assertion fails, the
    active streams never exceed the connection limit, the count kept for a token is exactly its active
    streams and within the per-bot quota, and the tokens and the live clients are in one-to-one
    correspondence. Proved against the interface of the container. *)
Theorem manager_run_safe {C} `{IdStoreLaws ClientInfo C} (e : manager_env) (evs : list mevent) :
  0 <= file_stream_max_connections_ e < 2 ^ 31 → run_ok e evs (∅, 0%Q) (new_manager : @manager C) →
  ∃ m : @manager C, manager_run e evs new_manager = Some m ∧
    active_file_stream_ids_ m = dom (active_file_stream_token_ m) ∧
    Z.of_nat (base.size (active_file_stream_ids_ m)) <= file_stream_max_connections_ e ∧
    (∀ k, default 0 (active_file_streams_by_token_ m !! k) = streams_of k (active_file_stream_token_ m) ∧
          streams_of k (active_file_stream_token_ m) <= per_bot_limit e) ∧
    (∀ k id, token_to_id_ m !! k = Some id ↔ ∃ info, st_contents (clients_ m) !! id = Some info ∧ token_ info = k).
Proof.
  intros Hmax Hrun. destruct (new_manager_ok e Hmax (C := C)) as [Hok Hcs].
  destruct (manager_run_ok e Hmax evs _ _ _ Hok Hcs Hrun) as (m & g & Hr & [[] [] _ _] & _).
  exists m. split_and!; done.
Qed.

(** The promises of close are answered all together, in order and once each, when the manager stops,
    and none before; the stop is the last message. *)
Theorem close_promises_answered {C} `{IdStoreLaws ClientInfo C} (e : manager_env) (evs : list mevent) :
  0 <= file_stream_max_connections_ e < 2 ^ 31 → run_ok e evs (∅, 0%Q) (new_manager : @manager C) →
  ∃ m : @manager C, manager_run e evs new_manager = Some m ∧
    if close_finished_ m
    then promises_set (outs m) = evs ≫= event_promises ∧ close_promises_ m = [] ∧ close_flag_ m = true ∧
         ∃ l, outs m = l ++ [StopManager] ∧ StopManager ∉ l
    else promises_set (outs m) = [] ∧ close_promises_ m = evs ≫= event_promises ∧ StopManager ∉ outs m.
Proof.
  intros Hmax Hrun. destruct (new_manager_ok e Hmax (C := C)) as [Hok Hcs].
  destruct (manager_run_ok e Hmax evs _ _ _ Hok Hcs Hrun) as (m & g & Hr & _ & [_ _ Hfin]).
  exists m. split; [done|]. cbn [app] in Hfin. destruct (close_finished_ m); tauto.
Qed.



(** *** A run *)

Definition demo_manager_env : manager_env :=
  mkManagerEnv true 8 false (mkRange 0 1) (fun _ => []) (fun ip => ip).

Abbreviation demo_manager := (@new_manager (container ClientInfo) _).

Definition demo_stream (now : Q) (stream_id : Z) : mevent :=
  SendFileStream false now now 7 stream_id (lit "5:abc") false (lit "file") 10 (lit "1.2.3.4").

(** A stream makes the client 256 of the bot 5, which starts; the stream ends,
    the server is closed, the client stops and goes away, and the databases
    are closed. *)
Definition demo_events : list mevent :=
  [demo_stream 1 1; RawEvent 256 true; ReleaseFileStream 1; TimeoutExpired 2 (0, true) 2; demo_stream 3 2;
   Close 11; Close 12; RawEvent 256 false; HangupShared 256; DatabasesClosed].

Ltac prove_event :=
  repeat match goal with
  | |- _ ∧ _ => split
  | |- room _ => intros ?; eexists; vm_compute; reflexivity
  | |- is_Some _ => eexists; vm_compute; reflexivity
  | |- (_ <= _)%Q => vm_compute; discriminate
  | |- _ ∉ _ => apply (bool_decide_eq_true_1 (_ ∉ _)); vm_compute; reflexivity
  | |- _ ∈ _ => apply (bool_decide_eq_true_1 (_ ∈ _)); vm_compute; reflexivity
  | |- True => exact I
  | |- _ = _ => vm_compute; reflexivity
  end.

(** The steps of a run are checked one by one. *)
Lemma run_ok_cons {C} `{IdStore ClientInfo C} e ev evs g (m m' : @manager C) :
  event_ok g m ev → manager_step e ev m = Some m' → run_ok e evs (ghost_step ev g) m' → run_ok e (ev :: evs) g m.
Proof. intros Hev E Hrun. cbn. rewrite E. by split. Qed.

Lemma demo_run : run_ok demo_manager_env demo_events (∅, 0%Q) demo_manager.
Proof.
  unfold demo_events.
  repeat (eapply run_ok_cons; [unfold event_ok, demo_stream; prove_event|vm_compute; reflexivity|cbn [ghost_step fst snd]]).
  exact I.
Qed.

Lemma manager_run_safe_witness :
  ∃ m : @manager (container ClientInfo), manager_run demo_manager_env demo_events new_manager = Some m ∧
    ∀ k, streams_of k (active_file_stream_token_ m) <= 2.
Proof.
  destruct (manager_run_safe (C := container ClientInfo) demo_manager_env demo_events ltac:(done) demo_run)
    as (m & Hm & _ & _ & Hq & _).
  exists m. split; [exact Hm|]. intros k. apply (Hq k).
Defined.

Lemma close_promises_answered_witness :
  ∃ m : @manager (container ClientInfo), manager_run demo_manager_env demo_events new_manager = Some m ∧
    promises_set (outs m) = [11; 12].
Proof.
  destruct (close_promises_answered (C := container ClientInfo) demo_manager_env demo_events ltac:(done) demo_run)
    as (m & Hm & Hp).
  exists m. split; [exact Hm|].
  assert (close_finished_ <$> manager_run (C := container ClientInfo) demo_manager_env demo_events new_manager = Some true)
    as Hf by (vm_compute; reflexivity).
  rewrite Hm in Hf. injection Hf as Hf. rewrite Hf in Hp. apply Hp.
Defined.



