(* ===== verification/HttpConn.v ===== *)
(** * Connections of the HTTP server

    The actor [HttpConnection] of [server/HttpConnection.cpp]: it sends a
    request to the file stream endpoint or, as a query, to the manager of the
    clients, and writes the one response of every other request.  The parsed
    request, the readings of addresses by the system and the disk emergency
    flag are arguments. *)

From S2P Require Import Prelude Slices Integers Parser Utf8 Json IpAddress Query HttpHeader FileStreamRoute FileStreamConn.

(** ** State *)

(** [HttpQuery::Type] *)
Inductive HttpType := HttpEmpty | HttpGet | HttpHead | HttpPost | HttpResponse.
#[export] Instance HttpType_eq_dec : EqDecision HttpType.
Proof. solve_decision. Defined.

(** The request as the reader of the connection made it. *)
Record HttpQuery := mkHttpQuery {
  type_ : HttpType;
  url_path_ : slice;
  http_args_ : list (slice * slice);
  http_headers_ : list (slice * slice);
  http_files_ : list (slice * Z);
  peer_address_ : IPAddress
}.

(** Messages of the actor; the first three go to its connection. *)
Inductive haction :=
| WriteNextNoflush (data : slice)
| ResponseOk
| ResponseError (code : Z) (msg : slice)
| NewFileStream (route : FileStreamRoute) (config : FileStreamConfig) (peer : IPAddress)
| ManagerSend (q : Query)
| ConnectionStop.

(** [http_connection_]: the actor owns a connection. *)
Record hconn := mkHConn { http_connection_ : bool; head_response_ : bool; http_outs : list haction }.

Definition new_hconn : hconn := mkHConn false false [].

Definition put (a : haction) (h : hconn) : hconn :=
  mkHConn (http_connection_ h) (head_response_ h) (http_outs h ++ [a]).

(** [send_closure(std::move(connection_), ...)] *)
Definition give_away (a : haction) (h : hconn) : hconn :=
  mkHConn false (head_response_ h) (http_outs h ++ [a]).

(** ** Responses *)

Definition send_response (http_status_code : Z) (content : slice) (retry_after : Z) (allow : slice) (h : hconn) :
  option hconn :=
  let hc := init_status_line http_status_code in
  let hc := set_keep_alive hc in
  let hc := set_content_type hc (lit "application/json") in
  let hc := if 0 <? retry_after then add_header hc (lit "Retry-After") (print_int 32 retry_after) else hc in
  let hc := if negb (bool_decide (allow = [])) then add_header hc (lit "Allow") allow else hc in
  let hc := set_content_size hc (slen content) in
  header ← finish hc [];
  match header with
  | Err code msg => Some (give_away (ResponseError code msg) h)
  | Ok header =>
      let h := put (WriteNextNoflush header) h in
      let h := if negb (head_response_ h) then put (WriteNextNoflush content) h else h in
      Some (give_away ResponseOk h)
  end.

Definition send_http_error (http_status_code : Z) (description allow : slice) (h : hconn) : option hconn :=
  content ← json_query_error http_status_code description;
  send_response http_status_code content 0 allow h.

Definition on_query_finished (q : Query) (h : hconn) : option hconn :=
  send_response (q_http_status_code q) (q_answer q) (q_retry_after q) [] h.

Definition hangup (h : hconn) : hconn :=
  mkHConn false (head_response_ h) (http_outs h ++ [ConnectionStop]).

(** ** Requests *)

Section Handle.
Context (inet_pton4 : slice → option Z) (inet_pton6 : slice → option (list Z)).
Context (disk_emergency : bool) (config : FileStreamConfig).

(** [HttpQuery::get_header] *)
Definition http_header (hq : HttpQuery) (key : slice) : slice := default [] (find_value (http_headers_ hq) key).

(** A request to the file stream endpoint. *)
Definition handle_file_stream (hq : HttpQuery) (h : hconn) : option hconn :=
  if disk_emergency
  then send_http_error 507 (lit "Telegram workdir disk space exhausted; service is shutting down") [] h
  else if negb (enabled config) then send_http_error 404 (lit "Not Found") [] h
  else if negb (bool_decide (type_ hq = HttpGet)) && negb (bool_decide (type_ hq = HttpHead))
  then send_http_error 405 (lit "Method Not Allowed: file streaming requires GET or HEAD") (lit "GET, HEAD") h
  else
    match parse_file_stream_route (url_path_ hq) with
    | Err code msg => send_http_error (if (400 <=? code) && (code <=? 599) then code else 400) msg [] h
    | Ok route =>
        allowed ← is_file_stream_ip_allowed inet_pton4 inet_pton6 (peer_address_ hq) (allow_ip config);
        if negb allowed
        then send_http_error 403 (lit "Forbidden: streaming endpoint source address is not allowed") [] h
        else
          match parse_file_stream_size_hint (http_header hq (lit "x-telegram-file-size")) with
          | Err _ msg => send_http_error 400 msg [] h
          | Ok expected_size =>
              let route :=
                mkRoute (fr_token route) (fr_file_id route) (fr_is_test_dc route) expected_size
                  (parse_file_stream_no_cache (http_header hq (lit "x-telegram-no-cache")))
                  (http_header hq (lit "range")) (bool_decide (type_ hq = HttpHead)) in
              Some (give_away (NewFileStream route config (peer_address_ hq)) h)
          end
    end.

(** [None]: the actor still has a connection, or the test of the peer's
    address aborts. *)
Definition handle (hq : HttpQuery) (h : hconn) : option hconn :=
  CHECK (negb (http_connection_ h))
    (let h := mkHConn true (bool_decide (type_ hq = HttpHead)) (http_outs h) in
     let p := new_parser (url_path_ hq) in
     if negb (bool_decide (peek_char p = "/"%char))
     then send_http_error 404 (lit "Not Found: absolute URI is specified in the Request-Line") [] h
     else if begins_with (url_path_ hq) (lit "/stream/file/bot") then handle_file_stream hq h
     else if bool_decide (type_ hq = HttpHead)
     then send_http_error 405 (lit "Method Not Allowed: HEAD is only supported for file streaming") (lit "GET, POST") h
     else
       match try_skip (lit "/bot") p with
       | (false, _) => send_http_error 404 (lit "Not Found") [] h
       | (true, p) =>
           let '(token, p) := read_till "/" p in
           let '(is_test_dc, p) := try_skip (lit "/test") p in
           let p := skip "/" p in
           if negb (is_ok (p_status p)) then send_http_error 404 (lit "Not Found") [] h
           else
             let q := new_query token is_test_dc (p_data p) (http_args_ hq) (http_headers_ hq) (http_files_ hq)
                        (peer_address_ hq) false in
             Some (put (ManagerSend q) h)
       end).

End Handle.

(** ** Specification *)

Definition response_ops (code size retry_after : Z) (allow : slice) : list header_op :=
  status_ops code ++ header_ops (lit "Connection") (lit "keep-alive")
  ++ header_ops (lit "Content-Type") (lit "application/json")
  ++ (if 0 <? retry_after then header_ops (lit "Retry-After") (print_int 32 retry_after) else [])
  ++ (if negb (bool_decide (allow = [])) then header_ops (lit "Allow") allow else [])
  ++ header_ops (lit "Content-Length") (print_uint size).

Definition response_header (code size retry_after : Z) (allow : slice) : slice :=
  ops_text (response_ops code size retry_after allow) ++ crlf.

(** A whole response: its header announces the length of the content, which a
    HEAD response leaves out. *)
Definition response (head : bool) (code : Z) (content : slice) (retry_after : Z) (allow : slice) : list haction :=
  WriteNextNoflush (response_header code (slen content) retry_after allow)
  :: (if head then [] else [WriteNextNoflush content]) ++ [ResponseOk].

(** The JSON text of an error. *)
Definition error_text (code : Z) (description body : slice) : Prop :=
  json_decode body = Some (Ok (JsonQueryError code description [])).

(** One response with an error, after which the connection is given back. *)
Definition error_response (head : bool) (code : Z) (description allow : slice) (h h' : hconn) : Prop :=
  ∃ body, error_text code description body ∧
          h' = mkHConn false head (http_outs h ++ response head code body 0 allow).

(** The Bot API path of a method; without [test] the method may not begin with
    that word. *)
Definition bot_path (token : slice) (test : bool) (method : slice) : slice :=
  lit "/bot" ++ token ++ (if test then lit "/test" else []) ++ lit "/" ++ method.

Definition bot_request (path token : slice) (test : bool) (method : slice) : Prop :=
  path = bot_path token test method ∧ ("/"%char ∉ token) ∧ (test = false → begins_with method (lit "test") = false).

Definition is_stream_path (path : slice) : Prop := ∃ rest, path = lit "/stream/file/bot" ++ rest.

(** ** Facts *)

#[local] Arguments lit : simpl never.

Lemma response_ops_length code size retry_after allow :
  slen allow <= 100 → slen (ops_text (response_ops code size retry_after allow)) < 1000.
Proof.
  intros Ha. unfold response_ops. rewrite !ops_text_app, !slen_app, !header_ops_length.
  pose proof (status_ops_length code) as H1.
  generalize dependent (slen (ops_text (status_ops code))). intros sl H1.
  assert (slen (ops_text (if 0 <? retry_after then header_ops (lit "Retry-After") (print_int 32 retry_after) else [])) <= 50) as H2.
  { destruct (0 <? retry_after); [|vm_compute; congruence]. rewrite header_ops_length.
    pose proof (print_int_length 32 retry_after). change (slen (lit "Retry-After")) with 11. lia. }
  assert (slen (ops_text (if negb (bool_decide (allow = [])) then header_ops (lit "Allow") allow else [])) <= 120) as H3.
  { destruct (negb _); [|vm_compute; congruence]. rewrite header_ops_length. change (slen (lit "Allow")) with 5. lia. }
  pose proof (print_uint_length size) as H4.
  generalize dependent (slen (print_uint size)). intros sz H4.
  match type of H2 with ?x <= 50 => generalize dependent x; intros l2 H2 end.
  match type of H3 with ?x <= 120 => generalize dependent x; intros l3 H3 end.
  change (slen (lit "Connection")) with 10. change (slen (lit "keep-alive")) with 10.
  change (slen (lit "Content-Type")) with 12. change (slen (lit "application/json")) with 16.
  change (slen (lit "Content-Length")) with 14. lia.
Qed.

(** A response is always written. *)
Lemma send_response_eq code content retry_after allow h :
  slen allow <= 100 →
  send_response code content retry_after allow h =
  Some (mkHConn false (head_response_ h)
          (http_outs h ++ response (head_response_ h) code content retry_after allow)).
Proof.
  intros Ha. unfold send_response.
  pose proof (finish_fit (response_ops code (slen content) retry_after allow)) as Hf.
  pose proof (response_ops_length code (slen content) retry_after allow Ha) as Hl.
  match goal with |- (header ← finish ?hc []; _) = _ =>
    replace hc with (foldl apply_op new_builder (response_ops code (slen content) retry_after allow)) end.
  - rewrite Hf by (unfold end_ptr, MAX_HEADER, RESERVED_SIZE; lia). cbn [mbind option_bind].
    unfold response, give_away, put. destruct (head_response_ h) eqn:E; cbn; rewrite ?E, <- ?app_assoc; done.
  - unfold response_ops, set_keep_alive, set_content_type, set_content_size.
    rewrite !foldl_app, init_status_line_ops, !add_header_ops.
    destruct (0 <? retry_after), (negb (bool_decide (allow = []))); reflexivity.
Qed.

Lemma send_http_error_eq code description allow h :
  signed_range 32 code → check_utf8 description = true → slen allow <= 100 →
  ∃ h', send_http_error code description allow h = Some h' ∧
        error_response (head_response_ h) code description allow h h'.
Proof.
  intros Hc Hd Ha. destruct (error_json_decodes code description []) as (body & Hb & Hdec); try done.
  unfold send_http_error, json_query_error. rewrite Hb. cbn [mbind option_bind].
  rewrite send_response_eq by done. eexists. split; [done|]. by exists body.
Qed.

(** The messages of the route's and the size header's errors. *)
Lemma validate_error_text s code msg :
  validate_url_encoding s = Err code msg → code = 400 ∧ msg = lit "Invalid percent-encoding in file_id".
Proof.
  remember (length s) as n eqn:Hn. assert (length s <= n)%nat as Hle by lia. clear Hn. revert s Hle.
  induction n as [|n IH]; intros [|c s] Hle; cbn [validate_url_encoding]; try done; [simpl in Hle; lia|].
  simpl in Hle. case_bool_decide; [|apply IH; lia].
  destruct s as [|x [|y s]]; [by intros [= <- <-]..|].
  destruct (is_hex x && is_hex y); [apply IH; simpl in Hle; lia|by intros [= <- <-]].
Qed.

Lemma parse_route_error_text path code msg :
  parse_file_stream_route path = Err code msg → check_utf8 msg = true ∧ 400 <= code <= 599.
Proof.
  assert (∀ token test enc, parse_route_tail token test enc = Err code msg → check_utf8 msg = true ∧ 400 <= code <= 599)
    as Htail.
  { intros token test enc. unfold parse_route_tail. case_match; [by intros [= <- <-]|].
    destruct (validate_url_encoding enc) as [[]|c m] eqn:E; cbn [mbind result_bind].
    - case_match; by intros [= <- <-].
    - apply validate_error_text in E as [-> ->]. by intros [= <- <-]. }
  destruct (parse_route_unfold path)
    as [[_ ->]|(rest & -> & [[_ ->]|(token & tail & _ & _ & _ & [(enc & _ & ->)|[_ ->]])])];
    [by intros [= <- <-]..|apply Htail|apply Htail].
Qed.

Lemma size_hint_error_text value code msg :
  parse_file_stream_size_hint value = Err code msg → check_utf8 msg = true.
Proof. unfold parse_file_stream_size_hint. repeat case_match; by intros [= <- <-]. Qed.

(** The parts of a path are determined by it. *)
Lemma bot_request_tail path token test method rest :
  bot_request path token test method → path = lit "/bot" ++ rest →
  ∃ tail, rest = token ++ "/"%char :: tail ∧ ("/"%char ∉ token) ∧
          if test then tail = lit "test/" ++ method else tail = method ∧ begins_with tail (lit "test") = false.
Proof.
  intros (-> & Ht & Hb) E. unfold bot_path in E. apply app_inv_head in E. subst rest.
  destruct test; eexists; (split; [reflexivity|]); split; auto.
Qed.

Lemma bot_request_unique path token token' test test' method method' :
  bot_request path token test method → bot_request path token' test' method' →
  token = token' ∧ test = test' ∧ method = method'.
Proof.
  intros H1 H2. pose proof H1 as (E & _). unfold bot_path in E.
  destruct (bot_request_tail _ _ _ _ _ H1 E) as (t1 & E1 & N1 & C1).
  destruct (bot_request_tail _ _ _ _ _ H2 E) as (t2 & E2 & N2 & C2).
  rewrite E1 in E2. apply split_at_inj in E2 as [<- <-]; [|done|done]. split; [done|].
  assert (Hno : ∀ m, begins_with (lit "test/" ++ m) (lit "test") = true).
  { intros m. apply begins_with_spec. by exists ("/"%char :: m). }
  destruct test, test'.
  - split; [done|]. rewrite C1 in C2. by apply app_inv_head in C2.
  - destruct C2 as [_ Hb]. by rewrite C1, Hno in Hb.
  - destruct C1 as [_ Hb]. by rewrite C2, Hno in Hb.
  - split; [done|]. destruct C1, C2. congruence.
Qed.

(** What the parser of the Bot API path finds. *)
Lemma bot_path_parse path :
  match try_skip (lit "/bot") (new_parser path) with
  | (false, _) => ∀ token test method, ¬ bot_request path token test method
  | (true, p) =>
      let '(token, p) := read_till "/" p in
      let '(test, p) := try_skip (lit "/test") p in
      let p := skip "/" p in
      if is_ok (p_status p) then bot_request path token test (p_data p)
      else ∀ token test method, ¬ bot_request path token test method
  end.
Proof.
  destruct (try_skip (lit "/bot") (new_parser path)) as [[] p] eqn:E0.
  2:{ apply try_skip_false in E0 as [_ Hn]. intros token test method (-> & _). apply Hn. by eexists. }
  apply try_skip_true in E0 as [E0 Hst]. cbn in E0, Hst.
  pose proof (read_till_spec "/" p Hst) as Hr. destruct (read_till "/" p) as [token p1].
  destruct Hr as [(S1 & Hnot & tail & D1 & D0)|(S1 & -> & D1 & Hnot)].
  2:{ assert (try_skip (lit "/test") p1 = (false, p1)) as -> by (unfold try_skip; by rewrite D1).
      unfold skip. rewrite S1. cbn [is_ok negb read_till_error]. rewrite S1. cbn [is_ok read_till_error].
      intros token test method Hreq. destruct (bot_request_tail _ _ _ _ _ Hreq E0) as (tail & E & _).
      apply Hnot. rewrite E. set_solver. }
  assert (Huniq : ∀ token' test method, bot_request path token' test method →
    if test then tail = lit "test/" ++ method else tail = method ∧ begins_with tail (lit "test") = false).
  { intros token' test method Hreq. destruct (bot_request_tail _ _ _ _ _ Hreq E0) as (tail' & E & Ht' & Htail).
    rewrite D0 in E. apply split_at_inj in E as [_ ->]; done. }
  destruct (try_skip (lit "/test") p1) as [[] p2] eqn:E2.
  - apply try_skip_true in E2 as [E2 S2]. rewrite S1 in S2. rewrite D1 in E2. injection E2 as E2.
    unfold skip. rewrite S2. cbn [is_ok negb].
    assert (Hno : ∀ token' test method, bot_request path token' test method → ∃ m, p_data p2 = "/"%char :: m).
    { intros token' test method Hreq. specialize (Huniq _ _ _ Hreq). destruct test.
      - exists method. rewrite Huniq in E2. change (lit "test/" ++ method) with (lit "test" ++ "/"%char :: method) in E2.
        by apply (app_inv_head (lit "test")) in E2.
      - destruct Huniq as [_ Hb]. assert (begins_with tail (lit "test") = true); [|congruence].
        apply begins_with_spec. by exists (p_data p2). }
    destruct (p_data p2) as [|d m] eqn:Ed; cbn [with_status p_status is_ok skip_error].
    { intros token' test method Hreq. by destruct (Hno _ _ _ Hreq) as [m' ?]. }
    case_bool_decide as Hd; cbn [with_status with_data p_status p_data is_ok skip_error].
    + rewrite S2. cbn. split; [|done]. rewrite E0, D0, E2, Hd. done.
    + intros token' test method Hreq. destruct (Hno _ _ _ Hreq) as [m' [= ? _]]. done.
  - apply try_skip_false in E2 as [-> Hn].
    assert (skip "/" p1 = with_data p1 tail) as ->.
    { unfold skip. rewrite S1. cbn. rewrite D1. by rewrite bool_decide_true. }
    cbn [with_data p_status p_data]. rewrite S1. cbn. split; [|split; [done|]].
    + by rewrite E0, D0.
    + intros _. destruct (begins_with tail (lit "test")) eqn:Eb; [|done]. exfalso.
      apply begins_with_spec in Eb as [m Em]. apply Hn. exists m. by rewrite D1, Em.
Qed.

(** *** Outcomes *)

Section Outcomes.
Context (inet_pton4 : slice → option Z) (inet_pton6 : slice → option (list Z)).
Context (disk_emergency : bool) (config : FileStreamConfig).

(** A request that gets a stream, and the stream's route. *)
Definition stream_request (hq : HttpQuery) (route : FileStreamRoute) : Prop :=
  disk_emergency = false ∧ enabled config = true ∧ (type_ hq = HttpGet ∨ type_ hq = HttpHead) ∧
  is_file_stream_ip_allowed inet_pton4 inet_pton6 (peer_address_ hq) (allow_ip config) = Some true ∧
  ∃ r size, parse_file_stream_route (url_path_ hq) = Ok r ∧
    parse_file_stream_size_hint (http_header hq (lit "x-telegram-file-size")) = Ok size ∧
    route = mkRoute (fr_token r) (fr_file_id r) (fr_is_test_dc r) size
              (parse_file_stream_no_cache (http_header hq (lit "x-telegram-no-cache")))
              (http_header hq (lit "range")) (bool_decide (type_ hq = HttpHead)).

Definition http_error (hq : HttpQuery) (h h' : hconn) : Prop :=
  ∃ code description allow, 400 <= code <= 599 ∧
    error_response (bool_decide (type_ hq = HttpHead)) code description allow h h'.

Definition stream_outcome (hq : HttpQuery) (h h' : hconn) : Prop :=
  (∃ route, stream_request hq route ∧
     h' = mkHConn false (bool_decide (type_ hq = HttpHead)) (http_outs h ++ [NewFileStream route config (peer_address_ hq)]))
  ∨ (∀ route, ¬ stream_request hq route) ∧ http_error hq h h'.

Definition method_outcome (hq : HttpQuery) (h h' : hconn) : Prop :=
  (∃ token test method, bot_request (url_path_ hq) token test method ∧ type_ hq ≠ HttpHead ∧
     h' = mkHConn true false (http_outs h ++ [ManagerSend
            (new_query token test method (http_args_ hq) (http_headers_ hq) (http_files_ hq) (peer_address_ hq) false)]))
  ∨ (type_ hq = HttpHead ∨ ∀ token test method, ¬ bot_request (url_path_ hq) token test method) ∧ http_error hq h h'.

Lemma http_error_eq hq h code description allow :
  400 <= code <= 599 → check_utf8 description = true → slen allow <= 100 →
  ∃ h', send_http_error code description allow (mkHConn true (bool_decide (type_ hq = HttpHead)) (http_outs h)) = Some h' ∧
        http_error hq h h'.
Proof.
  intros Hc Hd Ha.
  destruct (send_http_error_eq code description allow (mkHConn true (bool_decide (type_ hq = HttpHead)) (http_outs h)))
    as (h' & -> & Hh); [unfold signed_range; lia|done|done|].
  exists h'. split; [done|]. by exists code, description, allow.
Qed.

Lemma handle_file_stream_ok hq h :
  is_file_stream_ip_allowed inet_pton4 inet_pton6 (peer_address_ hq) (allow_ip config) ≠ None →
  ∃ h', handle_file_stream inet_pton4 inet_pton6 disk_emergency config hq
          (mkHConn true (bool_decide (type_ hq = HttpHead)) (http_outs h)) = Some h' ∧ stream_outcome hq h h'.
Proof.
  intros Hip. unfold handle_file_stream.
  assert (Herr : ∀ code description allow, 400 <= code <= 599 → check_utf8 description = true → slen allow <= 100 →
    (∀ route, ¬ stream_request hq route) →
    ∃ h', send_http_error code description allow (mkHConn true (bool_decide (type_ hq = HttpHead)) (http_outs h)) = Some h' ∧
          stream_outcome hq h h').
  { intros code d al Hc Hd Ha Hno. destruct (http_error_eq hq h code d al Hc Hd Ha) as (h' & -> & He).
    exists h'. split; [done|]. by right. }
  destruct disk_emergency eqn:Ed; [apply Herr; try done; intros r (? & _); congruence|].
  destruct (enabled config) eqn:Een; cbn [negb]; [|apply Herr; try done; intros r (_ & ? & _); congruence].
  destruct (negb (bool_decide (type_ hq = HttpGet)) && negb (bool_decide (type_ hq = HttpHead))) eqn:Et.
  { apply andb_true_iff in Et as [E1 E2]. apply negb_true_iff, bool_decide_eq_false_1 in E1, E2.
    apply Herr; try done. intros r (_ & _ & [?|?] & _); done. }
  assert (type_ hq = HttpGet ∨ type_ hq = HttpHead) as Htype.
  { apply andb_false_iff in Et as [E|E]; apply negb_false_iff, bool_decide_eq_true_1 in E; auto. }
  destruct (parse_file_stream_route (url_path_ hq)) as [r|code msg] eqn:Er.
  2:{ destruct (parse_route_error_text _ _ _ Er) as [Hu Hc].
      replace ((400 <=? code) && (code <=? 599)) with true by lia.
      apply Herr; try done. intros r (_ & _ & _ & _ & r' & _ & ? & _). congruence. }
  destruct (is_file_stream_ip_allowed _ _ _ _) as [[]|] eqn:Ea; [| |done]; cbn [mbind option_bind negb].
  2:{ apply Herr; try done. intros r' (_ & _ & _ & ? & _). congruence. }
  destruct (parse_file_stream_size_hint _) as [size|code msg] eqn:Es.
  2:{ apply Herr; try done; [by eapply size_hint_error_text|].
      intros r' (_ & _ & _ & _ & r'' & size & _ & ? & _). congruence. }
  eexists. split; [done|]. left. eexists. split; [|reflexivity]. split_and!; try done. by exists r, size.
Qed.

Lemma handle_method_ok hq h :
  http_connection_ h = false → begins_with (url_path_ hq) (lit "/stream/file/bot") = false →
  ∃ h', handle inet_pton4 inet_pton6 disk_emergency config hq h = Some h' ∧ method_outcome hq h h'.
Proof.
  intros Hh Eb. unfold handle. rewrite Hh, Eb. cbn [negb CHECK].
  assert (Herr : ∀ code description allow, 400 <= code <= 599 → check_utf8 description = true → slen allow <= 100 →
    (type_ hq = HttpHead ∨ ∀ token test method, ¬ bot_request (url_path_ hq) token test method) →
    ∃ h', send_http_error code description allow (mkHConn true (bool_decide (type_ hq = HttpHead)) (http_outs h)) = Some h' ∧
          method_outcome hq h h').
  { intros code d al Hc Hd Ha Hno. destruct (http_error_eq hq h code d al Hc Hd Ha) as (h' & -> & He).
    exists h'. split; [done|]. by right. }
  destruct (bool_decide (peek_char (new_parser (url_path_ hq)) = "/"%char)) eqn:Hslash; cbn [negb].
  2:{ apply bool_decide_eq_false_1 in Hslash.
      apply Herr; try done. right. intros token test method (Ep & _). apply Hslash. by rewrite Ep. }
  destruct (bool_decide (type_ hq = HttpHead)) eqn:Ehead.
  { apply Herr; try done. left. by apply bool_decide_eq_true_1 in Ehead. }
  pose proof (bot_path_parse (url_path_ hq)) as Hp.
  destruct (try_skip (lit "/bot") _) as [[] p]; [|by apply Herr; try done; right].
  destruct (read_till "/" p) as [token p1]. destruct (try_skip (lit "/test") p1) as [test p2]. cbv zeta in Hp.
  destruct (is_ok (p_status (skip "/" p2))); cbn [negb]; [|by apply Herr; try done; right].
  eexists. split; [done|]. left. exists token, test, (p_data (skip "/" p2)). split; [done|].
  split; [by apply bool_decide_eq_false_1 in Ehead|done].
Qed.

Lemma handle_stream_ok hq h :
  http_connection_ h = false → begins_with (url_path_ hq) (lit "/stream/file/bot") = true →
  is_file_stream_ip_allowed inet_pton4 inet_pton6 (peer_address_ hq) (allow_ip config) ≠ None →
  ∃ h', handle inet_pton4 inet_pton6 disk_emergency config hq h = Some h' ∧ stream_outcome hq h h'.
Proof.
  intros Hh Eb Hip. unfold handle. rewrite Hh, Eb. cbn [negb CHECK].
  rewrite bool_decide_true; [by apply handle_file_stream_ok|].
  apply begins_with_spec in Eb as [rest ->]. done.
Qed.
End Outcomes.

(** ** Properties *)

(** C34: Every HTTP request has exactly one outcome: a stream with its route, only for a GET or HEAD of an
    allowed peer with a good path and size header while streaming is on and the disk is not full; a query to
    the manager, exactly for the Bot API paths; or one complete JSON error response with a 4xx or 5xx code.
    Nothing aborts, unless the test of the address list does. *)
Theorem http_request_outcome inet_pton4 inet_pton6 disk_emergency config hq h :
  http_connection_ h = false →
  is_file_stream_ip_allowed inet_pton4 inet_pton6 (peer_address_ hq) (allow_ip config) ≠ None →
  ∃ h', handle inet_pton4 inet_pton6 disk_emergency config hq h = Some h' ∧
    if begins_with (url_path_ hq) (lit "/stream/file/bot")
    then stream_outcome inet_pton4 inet_pton6 disk_emergency config hq h h'
    else method_outcome hq h h'.
Proof.
  intros Hh Hip. destruct (begins_with _ _) eqn:Eb; [by apply handle_stream_ok|by apply handle_method_ok].
Qed.

(** C35: The answer a query gets is written as one complete HTTP response: its status code, the
    Content-Length of its body, Retry-After when there is one, the JSON of the answer; and the connection is
    given back for the next request. *)
Theorem http_query_answered inet_pton4 inet_pton6 disk_emergency config hq h token test method a q' :
  http_connection_ h = false → type_ hq ≠ HttpHead → bot_request (url_path_ hq) token test method →
  let q := new_query token test method (http_args_ hq) (http_headers_ hq) (http_files_ hq) (peer_address_ hq) false in
  give_answer q a = Some q' →
  ∃ h1 body, handle inet_pton4 inet_pton6 disk_emergency config hq h = Some h1 ∧
    on_query_finished q' h1 = Some (mkHConn false false
      (http_outs h ++ ManagerSend q :: response false (answer_content a).1.1 body (answer_content a).2 [])) ∧
    json_encode (answer_content a).1.2 false = Some body.
Proof.
  intros Hh Htype Hreq q Ha.
  assert (begins_with (url_path_ hq) (lit "/stream/file/bot") = false) as Eb.
  { destruct (begins_with _ _) eqn:E; [|done]. apply begins_with_spec in E as [rest E].
    destruct Hreq as (Ep & _). rewrite Ep in E. discriminate E. }
  destruct (handle_method_ok inet_pton4 inet_pton6 disk_emergency config hq h Hh Eb) as (h1 & Hh1 & Hout).
  destruct Hout as [(token' & test' & method' & Hreq' & _ & ->)|[[?|Hno] _]]; [|done|by destruct (Hno _ _ _ Hreq)].
  destruct (bot_request_unique _ _ _ _ _ _ _ Hreq Hreq') as (<- & <- & <-). fold q in Hh1 |- *.
  pose proof (give_answer_spec q a q' eq_refl eq_refl Ha) as Hs. destruct (answer_content a) as [[code v] retry].
  destruct Hs as (Ec & Er & _ & Ej). eexists _, (q_answer q'). split; [exact Hh1|]. split; [|exact Ej].
  unfold on_query_finished. rewrite send_response_eq by done. cbn. by rewrite Ec, Er, <- app_assoc.
Qed.

Definition demo_config : FileStreamConfig := mkConfig true 65536 100 30 60 (1024 * 1024) 0 [].
Definition demo_request (type : HttpType) (path : slice) : HttpQuery :=
  mkHttpQuery type path [] [(lit "range", lit "bytes=2-")] [] (ip_v4 2130706433 80).

(** A peer on the loopback network. *)
Lemma http_request_outcome_witness :
  ∃ h', handle (fun _ => None) (fun _ => None) false demo_config (demo_request HttpGet (lit "/stream/file/bot5:a/x%20y"))
          new_hconn = Some h' ∧
    http_outs h' = [NewFileStream (mkRoute (lit "5:a") (lit "x y") false (-1) false (lit "bytes=2-") false) demo_config
                      (ip_v4 2130706433 80)].
Proof.
  destruct (http_request_outcome (fun _ => None) (fun _ => None) false demo_config
    (demo_request HttpGet (lit "/stream/file/bot5:a/x%20y")) new_hconn eq_refl) as (h' & Hh & Hout).
  { vm_compute. discriminate. }
  exists h'. split; [exact Hh|].
  assert (Hc : begins_with (url_path_ (demo_request HttpGet (lit "/stream/file/bot5:a/x%20y"))) (lit "/stream/file/bot") = true)
    by (vm_compute; reflexivity).
  rewrite Hc in Hout. destruct Hout as [(route & Hr & ->)|[Hno _]].
  - destruct Hr as (_ & _ & _ & _ & r & size & E1 & E2 & ->). vm_compute in E1, E2. simplify_eq. vm_compute. reflexivity.
  - exfalso. eapply Hno. split_and!; [done|done|by left|vm_compute; reflexivity|].
    eexists _, _. split_and!; [vm_compute; reflexivity|vm_compute; reflexivity|reflexivity].
Defined.

Lemma http_query_answered_witness :
  ∃ h1 h2 body q', handle (fun _ => None) (fun _ => None) false demo_config (demo_request HttpPost (lit "/bot5:a/test/getMe"))
          new_hconn = Some h1 ∧ on_query_finished q' h1 = Some h2 ∧
    http_outs h2 = ManagerSend (new_query (lit "5:a") true (lit "getMe") [] [(lit "range", lit "bytes=2-")] []
                                  (ip_v4 2130706433 80) false) :: response false 429 body 7 [].
Proof.
  set (q := new_query (lit "5:a") true (lit "getMe") [] [(lit "range", lit "bytes=2-")] [] (ip_v4 2130706433 80) false).
  destruct (give_answer_total q (AnswerRetry 7) eq_refl ltac:(done)) as [q' Hq'].
  destruct (http_query_answered (fun _ => None) (fun _ => None) false demo_config
    (demo_request HttpPost (lit "/bot5:a/test/getMe")) new_hconn (lit "5:a") true (lit "getMe") (AnswerRetry 7) q')
    as (h1 & body & H1 & H2 & _); [reflexivity|discriminate| |exact Hq'|].
  - split; [reflexivity|]. split; [|done]. apply (bool_decide_eq_true_1 (_ ∉ _)). vm_compute. reflexivity.
  - exists h1. eexists. exists body, q'. split; [exact H1|]. split; [exact H2|]. reflexivity.
Defined.
